(* ===== verification/_CoqProject ===== *)
-Q . S2P
Prelude.v
JsString.v
TermText.v
TermStruct.v
Json.v
Storage.v
History.v
CmdView.v
Cmd.v
CmdKeys.v
Display.v
Terminal.v
Focus.v
Dom.v
Slides.v
Location.v
Localize.v
Outline.v
Contents.v
Show.v
ShowLogic.v
ShowSafe.v
ShowNav.v
ShowAddr.v
ProtoText.v
ProtoStr.v
JsUri.v
ProtoQuery.v
ProtoEnum.v
ProtoArray.v
ProtoRange.v
ProtoJson.v
ProtoAjax.v
ProtoPeriodic.v
FxQueue.v
FxInv.v
FxTick.v
FxOrder.v
FxTime.v
AutoText.v
JsMonad.v
Autocomplete.v
AutoSafe.v
ProtoStyle.v
FxKinds.v
FxLook.v
FxMorph.v
FxCombined.v
JsRegex.v
ProtoDom.v
ProtoClass.v
Selector.v
SelFind.v
SelSpec.v
SelNth.v
ProtoForm.v
ProtoFormUse.v
ProtoEvent.v
ProtoEventSafe.v
EditPlace.v
EditSafe.v
EditChoice.v
EditUse.v
EditCases.v
DragPage.v
SortList.v
DragDrop.v
DragTree.v
DragOrder.v
DragSafe.v
DragCases.v
ProtoInherit.v
ProtoInheritUse.v
ProtoInsert.v
ProtoInsertUse.v
ProtoAnswer.v
ProtoAnswerUse.v
ProtoPlace.v
ProtoMouse.v
ProtoExtend.v
