(* ===== verification/Prelude.v ===== *)
(** * The browser front end of SCADS: a verification library

    SCADS is a storage system in Scala; what its repository holds in JavaScript is
    the front end, and the core logic of that is modelled here: the terminal of
    the REPL ([jquery.terminal-0.3.3.js]), the slide show of the documentation
    ([slidy.js]), and the two libraries that the Rails applications load, Prototype
    ([prototype.js]) and script.aculo.us ([effects.js], [controls.js],
    [dragdrop.js]).  The files are under [src/experiments/repl/src/main/webapp] and
    [src/piql/scadr/src/main/rails/public/javascripts]; a comment in front of each
    definition names the lines that it translates.

    ** The language

    Strings are lists of 16-bit code units ([JsString], [JsUri]); numbers are
    integers at [Z] where the code counts, with the bound 2^53 where it matters
    ([ProtoRange]), and rationals where it measures (times and positions of
    effects, opacities): rounding of doubles is not modelled.  Objects that are
    shared are kept in a heap (effects, inline styles, the registry of events).
    Regular expressions are either functions on texts that are written out for the
    pattern at hand, or terms of [JsRegex], which runs them by backtracking as the
    standard of the language describes it.  Handlers that change a state and throw
    are written in the monad of [JsMonad], with weakest preconditions; the
    terminal, the slide show and the effects have monads of their own, with the
    calls that they make of their surroundings.  [eval], the reading of a pattern
    by [RegExp], the elements that markup becomes, the computed style of an
    element, the answers of services and the handlers of the page are parameters.

    ** The terminal ([jquery.terminal-0.3.3.js])

    - [TermText], [TermStruct]: [encodeHTML] and [str_parts]; [Cycle], [BCycle] and
      [Stack].  Every tag in the output of the encoder is its own.
    - [Json], [Storage], [History]: [json_stringify], whose output is a text of the
      value in the grammar of JSON where the value is not damaged, storage in cookies and in [localStorage] behind the class [KV],
      the history of commands.  A session finds the entries of the last one again.
    - [CmdView], [Cmd], [CmdKeys]: the command line, its layout and its keys.  The
      cursor stays inside the command, and the lines on the page spell it.
    - [Display], [Terminal], [Focus]: output, the terminal itself with interpreters
      and login, and the ring of terminals.  The main interpreter stays, what is
      typed in a login dialog is not recorded as long as the option [history] is on,
      one terminal takes the keys as long as only the front one is resumed.

    ** The slide show ([slidy.js])

    - [Dom] with [Classes]: the tree of the page, whose nodes are named by their paths,
      its traversals ([nextNode] and [previousNode] are inverse) and class tests.
    - [Slides], [Location], [Localize], [Outline], [Contents]: slides and their
      incremental items, the slide number in the address, texts, outlines that
      fold (children are displayed exactly when their item is unfolded), table of
      contents and toolbar.
    - [Show] is the program: its globals as a record, every handler on it.
      [ShowLogic] has the triples of its monad and what is displayed,
      [ShowSafe] that it is one slide at a time, [ShowNav] the abstract machine of
      a talk that the navigation refines, [ShowAddr] the address of the page and
      the walk through a talk from where it opens.

    ** Prototype ([prototype.js])

    - [ProtoText], [ProtoStr]: [gsub] and what is built on it, templates, string
      methods.  [ProtoQuery]: hashes and query strings, read back as they were
      sent.  [ProtoJson]: [toJSON], [isJSON] and [evalJSON].
    - [ProtoEnum], [ProtoArray], [ProtoRange]: collections, with iterators that
      change a state and throw; [$break] is an exception.
    - [ProtoAjax], [ProtoPeriodic]: requests through their states, the responders,
      repeated calls.  A request completes once; the count of active requests is
      right as long as nothing throws.  [ProtoAnswer] follows one answer: headers,
      the response object with its JSON, scripts, [Ajax.Updater]; [ProtoAnswerUse]
      shows that answers from another protocol, host or port are evaluated only after
      the test for JSON, which
      headers are sent, and the answers that are lost or wrongly trusted.
    - [ProtoDom], [ProtoClass], [ProtoStyle]: walks over the page, class names,
      inline styles.  [ProtoPlace]: sizes, offsets and places that are written;
      absolute elements that are made relative have their styles again.
    - [ProtoInsert]: a heap of nodes with attributes and ids, on which [insert],
      [update], [replace], [remove] and [wrap] work.  [ProtoInsertUse] shows that
      the trees that markup stands for are put at their place and nothing else
      moves, that what cannot stand there throws, that ids are new and that what is
      wrapped keeps its place.
    - [ProtoExtend]: how elements come by their methods; [ProtoMouse]: what is read
      from an event object.
    - [Selector] compiles a selector to calls, [SelFind] has the handlers,
      [SelSpec] the meaning of a selector and the proof that the handlers find what
      it describes, [SelNth] the positions among siblings, then lists of
      selectors, the walks that take one, and a page with the cases that go wrong.
    - [ProtoForm], [ProtoFormUse]: controls, serialization, observers of forms.
    - [ProtoEvent] is the registry of handlers, [ProtoEventSafe] its refinement of
      a list of what was asked for, and who is told of an event.
    - [ProtoInherit] is an interpreter of calls over classes and objects, with
      [Class.create], [addMethods] and the functions that build functions;
      [ProtoInheritUse] shows that the classes stay a tree and who sees what is
      added to one, and what [$super] is.

    ** script.aculo.us ([effects.js], [controls.js], [dragdrop.js])

    - [FxQueue]: effects in a heap, queues with their timers; [FxInv] keeps them
      consistent for any handlers, [FxTick] says what a tick does, [FxOrder] that
      effects wait for each other, [FxTime] which frames an effect draws.
    - [FxKinds], [FxLook]: kinds of effects on a page of styles, what
      they leave behind, colours.  [FxMorph]: Effect.Morph, whose styles stay on the
      way between their values, and the queues with all kinds of effects.  [FxCombined]: the other combined effects, which
      start others and put the styles back.
    - [AutoText], [Autocomplete], [AutoSafe]: autocompletion, the token under the
      cursor, the menu through any events.
    - [EditPlace], [EditChoice]: editors in place, with a text or with choices;
      [EditSafe] and [EditUse] relate them to a machine of three modes; [EditUse]
      follows one edit from the text to the answer, [EditCases] has the cases that
      go wrong.  [Delayed] of [ProtoPeriodic] observes a field with a delay.
    - [DragPage]: the page on which elements move, [SortList]: lists whose elements
      are moved, [DragDrop]: targets and draggables.  [DragTree] says
      where an element is put and that the page stays a tree, [DragOrder] that a
      list has the order that it is given, [DragSafe] that one element is dragged at
      a time and that it stays under the pointer; [DragCases] tries all of
      this on two lists, with the cases that go wrong.

    ** How the groups of theorems are proved

    Invariants are stated on the state of a component and shown for every handler,
    by weakest preconditions or triples along the monad, and then for all
    sequences of events.  Refinements relate the state to that of an abstract
    machine step by step.  Round trips and equivalences with a reference
    definition go by induction on the text or the list.  [Prelude] has the lemmas
    on lengths and positions at [Z] with their hint database [jslen].

    ** Fuel

    Loops that are not structural take fuel, and lemmas show that it is enough:
    [gsub] and the cutting of tokens consume a character or stop (the length of
    the text and two), the decoder of addresses likewise, the rendering of an
    effect nests as deep as its number, a selector is evaluated to the depth of its
    length, and walks over the page are bounded by the depth and the number of
    siblings; a chain of prototypes is no longer than there are classes, a path on the
    page on which elements move no longer than there are elements below others;
    [identify] tries one id more than the document has nodes, and the loops over offset
    parents end where each is nearer to the root.
    Calls of functions have fuel of their own, since their bodies are the page's.
    Loops of the program that need not end have that as a result of
    their own ([str_parts] for a width of zero, ranges beyond 2^53, the selector of
    the local autocompleter).

    ** What is not modelled

    jQuery, Highcharts, Highslide and the timer plugins inside the terminal are
    third-party code; [dterm.js] is glue; gradit and comrades hold copies of the
    Rails assets.  Of the slide show, scroll offsets and the iframe of old
    browsers are left out.  Of Prototype: the variants for Internet Explorer and
    WebKit, selectors through XPath or the browser's own search, the XML of
    answers, the size of the window.  Of script.aculo.us: Effect.Transform and
    Effect.Tween, scrolling, and options of a drag that are functions of the page.
    What markup becomes, the layout of the page and
    the computed style are the browser's, and parameters where they matter.  The
    Scala, Java and Ruby parts of the repository are not JavaScript.

    ** Plan

    A parser of selector texts that relates [described] to the text, and the runs
    of the combined effects for any times of the queue. *)
From Stdlib Require Export ZArith Lia Ascii String.
From stdpp Require Export base tactics option list list_numbers gmap.
Export ListNotations.
#[export] Set Default Goal Selector "!".
Open Scope Z_scope.

(** ** Lengths and positions as integers

    JavaScript indices are numbers, possibly negative; [zlen], [znth], [ztake]
    and [zdrop] are the list operations at [Z]. *)
Definition zlen {A} (l : list A) : Z := Z.of_nat (length l).

(** [l[i]]: out of range (negative included) reads [undefined], here [None]. *)
Definition znth {A} (l : list A) (i : Z) : option A :=
  if decide (i < 0) then None else l !! Z.to_nat i.

Definition ztake {A} (i : Z) (l : list A) : list A := take (Z.to_nat i) l.
Definition zdrop {A} (i : Z) (l : list A) : list A := drop (Z.to_nat i) l.

Create HintDb jslen.

Section zlist.
Context {A : Type}.
Implicit Types (l k : list A) (i : Z).

Lemma zlen_nonneg l : 0 <= zlen l.
Proof. unfold zlen. lia. Qed.

Lemma zlen_nil : zlen (@nil A) = 0.
Proof. done. Qed.

Lemma zlen_cons x l : zlen (x :: l) = 1 + zlen l.
Proof. unfold zlen. simpl. lia. Qed.

Lemma zlen_app l k : zlen (l ++ k) = zlen l + zlen k.
Proof. unfold zlen. rewrite length_app. lia. Qed.

Lemma zlen_zero l : zlen l = 0 -> l = [].
Proof. unfold zlen. destruct l; simpl; [done | lia]. Qed.

Lemma zlen_ztake i l : 0 <= i -> zlen (ztake i l) = Z.min i (zlen l).
Proof. unfold zlen, ztake. rewrite length_take. lia. Qed.

Lemma zlen_ztake_le i l : 0 <= i <= zlen l -> zlen (ztake i l) = i.
Proof. unfold zlen, ztake. rewrite length_take. lia. Qed.

Lemma zlen_zdrop i l : 0 <= i <= zlen l -> zlen (zdrop i l) = zlen l - i.
Proof. unfold zlen, zdrop. rewrite length_drop. lia. Qed.

Lemma zlen_zdrop_any i l :
  0 <= i -> zlen (zdrop i l) = Z.max 0 (zlen l - i).
Proof. unfold zlen, zdrop. rewrite length_drop. lia. Qed.

Lemma ztake_zdrop i l : ztake i l ++ zdrop i l = l.
Proof. unfold ztake, zdrop. apply take_drop. Qed.

Lemma ztake_all i l : zlen l <= i -> ztake i l = l.
Proof. unfold zlen, ztake. intros. apply take_ge. lia. Qed.

Lemma zdrop_all i l : zlen l <= i -> zdrop i l = [].
Proof. unfold zlen, zdrop. intros. apply drop_ge. lia. Qed.

Lemma ztake_nonpos i l : i <= 0 -> ztake i l = [].
Proof. intros. unfold ztake. by replace (Z.to_nat i) with O by lia. Qed.

Lemma zdrop_nonpos i l : i <= 0 -> zdrop i l = l.
Proof. intros. unfold zdrop. by replace (Z.to_nat i) with O by lia. Qed.

Lemma zdrop_zdrop i j l : 0 <= i -> 0 <= j -> zdrop i (zdrop j l) = zdrop (j + i) l.
Proof. intros. unfold zdrop. rewrite drop_drop. f_equal. lia. Qed.

Lemma ztake_ztake_drop i j l :
  0 <= i -> 0 <= j -> ztake i l ++ ztake j (zdrop i l) = ztake (i + j) l.
Proof.
  intros. unfold ztake, zdrop. rewrite take_take_drop. f_equal. lia.
Qed.

Lemma ztake_app_le i l k : i <= zlen l -> ztake i (l ++ k) = ztake i l.
Proof. unfold zlen, ztake. intros. apply take_app_le. lia. Qed.

Lemma zdrop_app_le i l k : i <= zlen l -> zdrop i (l ++ k) = zdrop i l ++ k.
Proof. unfold zlen, zdrop. intros. apply drop_app_le. lia. Qed.

Lemma ztake_app_len l k : ztake (zlen l) (l ++ k) = l.
Proof. unfold zlen, ztake. rewrite Nat2Z.id. apply take_app_length. Qed.

Lemma zdrop_app_len l k : zdrop (zlen l) (l ++ k) = k.
Proof. unfold zlen, zdrop. rewrite Nat2Z.id. apply drop_app_length. Qed.

Lemma ztake_app_ge i l k :
  zlen l <= i -> ztake i (l ++ k) = l ++ ztake (i - zlen l) k.
Proof.
  unfold zlen, ztake. intros. rewrite take_app_ge by lia. do 2 f_equal. lia.
Qed.

Lemma zdrop_app_ge i l k :
  zlen l <= i -> zdrop i (l ++ k) = zdrop (i - zlen l) k.
Proof.
  unfold zlen, zdrop. intros. rewrite drop_app_ge by lia. f_equal. lia.
Qed.

Lemma znth_app_len l x k : znth (l ++ x :: k) (zlen l) = Some x.
Proof.
  unfold znth, zlen. rewrite decide_False by lia.
  rewrite Nat2Z.id. by apply list_lookup_middle.
Qed.

Lemma znth_is_Some l i : is_Some (znth l i) <-> 0 <= i < zlen l.
Proof.
  unfold znth, zlen. case_decide.
  - split; [intros [? [=]] | lia].
  - rewrite lookup_lt_is_Some. lia.
Qed.

Lemma znth_None l i : znth l i = None <-> i < 0 \/ zlen l <= i.
Proof.
  rewrite eq_None_not_Some, znth_is_Some. lia.
Qed.

Lemma znth_elem l i x : znth l i = Some x -> x ∈ l.
Proof.
  unfold znth. case_decide; [done|]. apply list_elem_of_lookup_2.
Qed.

Lemma zdrop_cons_nth i l x :
  znth l i = Some x -> zdrop i l = x :: zdrop (i + 1) l.
Proof.
  unfold znth, zdrop. case_decide; [done|]. intros Hx.
  rewrite (drop_S _ _ _ Hx). do 2 f_equal. lia.
Qed.
End zlist.

#[export] Hint Rewrite @zlen_nil @zlen_cons @zlen_app : jslen.
#[export] Hint Resolve zlen_nonneg : jslen.

(** [jslia] normalises lengths, adds that every length in sight is
    nonnegative and calls [lia]. *)
Ltac note_lengths :=
  repeat match goal with
  | |- context [zlen ?l] =>
      lazymatch goal with
      | _ : 0 <= zlen l |- _ => fail
      | _ => pose proof (zlen_nonneg l)
      end
  | _ : context [zlen ?l] |- _ =>
      lazymatch goal with
      | _ : 0 <= zlen l |- _ => fail
      | _ => pose proof (zlen_nonneg l)
      end
  end.
Ltac jslia := autorewrite with jslen in *; note_lengths; lia.

(** Split every [if decide] and [match] of the goal, closing the contradictory
    branches. *)
Ltac split_cases :=
  repeat (case_decide || case_match); simplify_eq/=; try done.

(** A closed decidable goal, by evaluation. *)
Ltac decided := by apply (bool_decide_unpack _); vm_compute.

(** ** Lists of lists *)
Lemma elem_of_concat {A} (x : A) (ls : list (list A)) : x ∈ concat ls <-> exists l, x ∈ l /\ l ∈ ls.
Proof.
  induction ls as [|l ls IH]; simpl.
  - split; [by intros ?%elem_of_nil|]. intros (l & _ & H). by apply elem_of_nil in H.
  - rewrite elem_of_app, IH. split.
    + intros [Hx|(k & Hx & Hk)]; [exists l; split; [done|left]|exists k; split; [done|by right]].
    + intros (k & Hx & Hk). apply elem_of_cons in Hk as [->|Hk]; [by left|right; by exists k].
Qed.

Lemma elem_of_concat_map {A B} (f : B -> list A) x (l : list B) :
  x ∈ concat (map f l) <-> exists y, y ∈ l /\ x ∈ f y.
Proof.
  rewrite elem_of_concat. setoid_rewrite list_elem_of_fmap. split.
  - intros (k & Hx & y & -> & Hy). by exists y.
  - intros (y & Hy & Hx). exists (f y). split; [done|]. by exists y.
Qed.

(** ** Truthiness of an optional value and of a number *)
Definition is_some {A} (o : option A) : bool :=
  match o with Some _ => true | None => false end.

Lemma is_some_true {A} (o : option A) : is_some o = true <-> is_Some o.
Proof. destruct o; simpl; split; [eauto | done | done | by intros [? ?]]. Qed.
