(* ===== verification/JsString.v ===== *)
(** * Strings of the language

    A JavaScript string is a sequence of 16-bit code units, [list Z] here.  This
    file holds the string primitives of the language that the modelled code
    calls ([slice], [substring], [substr], [indexOf], [lastIndexOf], [split],
    [join], single-character [replace]) and the lemmas about them that every
    component shares.  It models the language, not the repository. *)
From S2P Require Import Prelude.
From Stdlib Require Import DecimalString.

Notation jstring := (list Z).

Declare Scope js_scope.
Delimit Scope js_scope with js.

(** A literal of the source. *)
Definition ch (a : ascii) : Z := Z.of_N (N_of_ascii a).
Fixpoint js (s : string) : jstring :=
  match s with EmptyString => [] | String a r => ch a :: js r end.

(** Code units that the modelled programs name. *)
Notation c_tab := 9.
Notation c_nl := 10.
Notation c_cr := 13.
Notation c_space := 32.
Notation c_quote := 34.
Notation c_hash := 35.
Notation c_amp := 38.
Notation c_apos := 39.
Notation c_lparen := 40.
Notation c_rparen := 41.
Notation c_star := 42.
Notation c_comma := 44.
Notation c_dash := 45.
Notation c_slash := 47.
Notation c_colon := 58.
Notation c_semi := 59.
Notation c_lt := 60.
Notation c_eq := 61.
Notation c_gt := 62.
Notation c_lbrack := 91.
Notation c_bslash := 92.
Notation c_rbrack := 93.
Notation c_under := 95.
Notation c_b := 98.
Notation c_i := 105.
Notation c_n := 110.
Notation c_r := 114.
Notation c_t := 116.
Notation c_u := 117.
Notation c_lbrace := 123.
Notation c_rbrace := 125.

Definition is_digit (c : Z) : bool := (48 <=? c) && (c <=? 57).
Definition is_upper (c : Z) : bool := (65 <=? c) && (c <=? 90).
Definition is_lower (c : Z) : bool := (97 <=? c) && (c <=? 122).
Definition is_hex (c : Z) : bool :=
  is_digit c || ((97 <=? c) && (c <=? 102)) || ((65 <=? c) && (c <=? 70)).
(** The class [\w]. *)
Definition is_word (c : Z) : bool :=
  is_digit c || is_upper c || is_lower c || (c =? c_under).
(** The class [\s], on the code units below 256 and the two line separators. *)
Definition is_white (c : Z) : bool :=
  ((9 <=? c) && (c <=? 13)) || (c =? 32) || (c =? 160)
  || (c =? 8232) || (c =? 8233) || (c =? 65279).

(** ** Indexing *)
Definition clamp (len i : Z) : Z :=
  if i <? 0 then Z.max 0 (len + i) else Z.min i len.

(** [s.slice(a, b)] and [s.slice(a)]: negative indices count from the end. *)
Definition slice (a b : Z) (s : jstring) : jstring :=
  let a' := clamp (zlen s) a in
  let b' := clamp (zlen s) b in
  ztake (b' - a') (zdrop a' s).
Definition slice_from (a : Z) (s : jstring) : jstring :=
  zdrop (clamp (zlen s) a) s.

(** [s.substring(a, b)]: indices are clamped to [0..length] and swapped. *)
Definition substring (a b : Z) (s : jstring) : jstring :=
  let a' := Z.min (Z.max a 0) (zlen s) in
  let b' := Z.min (Z.max b 0) (zlen s) in
  ztake (Z.max a' b' - Z.min a' b') (zdrop (Z.min a' b') s).
Definition substring_from (a : Z) (s : jstring) : jstring :=
  zdrop (Z.min (Z.max a 0) (zlen s)) s.

(** [s.substr(a, n)] and [s.substr(a)]. *)
Definition substr (a n : Z) (s : jstring) : jstring :=
  ztake n (zdrop (clamp (zlen s) a) s).
Definition substr_from (a : Z) (s : jstring) : jstring :=
  zdrop (clamp (zlen s) a) s.

(** [s.charAt(i)]: the empty string out of range. *)
Definition charAt (i : Z) (s : jstring) : jstring :=
  match znth s i with Some c => [c] | None => [] end.

(** ** Searching *)
Fixpoint prefixb (p s : jstring) : bool :=
  match p, s with
  | [], _ => true
  | _, [] => false
  | a :: p', b :: s' => (a =? b) && prefixb p' s'
  end.

(** First position at or after the front of [s] where [p] occurs, as an offset
    from [k]. *)
Fixpoint find_from (p s : jstring) (k : Z) : option Z :=
  if prefixb p s then Some k
  else match s with [] => None | _ :: s' => find_from p s' (k + 1) end.

Definition opt_index (o : option Z) : Z := match o with Some i => i | None => -1 end.

(** [s.indexOf(p, from)]. *)
Definition indexOf_from (p : jstring) (from : Z) (s : jstring) : Z :=
  let a := Z.min (Z.max from 0) (zlen s) in
  opt_index (find_from p (zdrop a s) a).
Definition indexOf (p : jstring) (s : jstring) : Z := indexOf_from p 0 s.

(** Last position [<= k] where [p] occurs, [k] descending to 0. *)
Fixpoint find_last (p s : jstring) (k : nat) : Z :=
  if prefixb p (drop k s) then Z.of_nat k
  else match k with O => -1 | S k' => find_last p s k' end.

(** [s.lastIndexOf(p, pos)]: a negative [pos] is clamped to 0. *)
Definition lastIndexOf (p : jstring) (pos : Z) (s : jstring) : Z :=
  find_last p s (Z.to_nat (Z.min (Z.max pos 0) (zlen s))).

(** [s.indexOf(c) != -1] for one character. *)
Definition has_char (c : Z) (s : jstring) : bool := bool_decide (c ∈ s).

(** ** Splitting, joining, replacing *)

(** [s.split(sep)] for a one-character separator. *)
Fixpoint split_char (sep : Z) (s : jstring) : list jstring :=
  match s with
  | [] => [[]]
  | c :: s' =>
      match split_char sep s' with
      | [] => [[c]]
      | w :: ws => if c =? sep then [] :: w :: ws else (c :: w) :: ws
      end
  end.

Fixpoint join (sep : jstring) (l : list jstring) : jstring :=
  match l with
  | [] => []
  | [w] => w
  | w :: l' => w ++ sep ++ join sep l'
  end.

(** [s.replace(/c/g, r)] for a one-character pattern. *)
Definition replace_char (c : Z) (r : jstring) (s : jstring) : jstring :=
  List.flat_map (fun x => if x =? c then r else [x]) s.

(** [s.replace(/./g, r)]: [.] matches every character but the line
    terminators. *)
Definition is_lineterm (c : Z) : bool :=
  (c =? 10) || (c =? 13) || (c =? 8232) || (c =? 8233).
Definition replace_dot (r : Z) (s : jstring) : jstring :=
  map (fun x => if is_lineterm x then x else r) s.

(** [String(n)] for an integer. *)
Definition num_str (z : Z) : jstring := js (NilZero.string_of_int (Z.to_int z)).

(** [s.toLowerCase()], [s.toUpperCase()] on ASCII letters. *)
Definition lower1 (c : Z) : Z := if is_upper c then c + 32 else c.
Definition upper1 (c : Z) : Z := if is_lower c then c - 32 else c.
Definition toLowerCase (s : jstring) : jstring := map lower1 s.
Definition toUpperCase (s : jstring) : jstring := map upper1 s.

(** * Lemmas *)
Lemma js_app (a b : string) : js (a ++ b) = js a ++ js b.
Proof. induction a as [|c a IH]; simpl; [done | by rewrite IH]. Qed.

Lemma js_inj a b : js a = js b -> a = b.
Proof.
  revert b; induction a as [|c a IH]; intros [|d b]; simpl; try done.
  intros [= H1 H2]. f_equal; [|by apply IH].
  unfold ch in H1. apply N2Z.inj in H1.
  rewrite <- (ascii_N_embedding c), <- (ascii_N_embedding d). by rewrite H1.
Qed.

Lemma clamp_range len i : 0 <= len -> 0 <= clamp len i <= len.
Proof. unfold clamp. case_match; lia. Qed.

Lemma clamp_id len i : 0 <= i <= len -> clamp len i = i.
Proof. unfold clamp. case_match; lia. Qed.

Lemma slice_from_id i s : 0 <= i <= zlen s -> slice_from i s = zdrop i s.
Proof. intros. unfold slice_from. by rewrite clamp_id. Qed.

Lemma slice_0_id i s : 0 <= i <= zlen s -> slice 0 i s = ztake i s.
Proof.
  intros. unfold slice. rewrite !clamp_id by jslia.
  rewrite Z.sub_0_r. by rewrite zdrop_nonpos.
Qed.

Lemma slice_to_end i s : 0 <= i <= zlen s -> slice i (zlen s) s = zdrop i s.
Proof.
  intros. unfold slice. rewrite !clamp_id by jslia.
  apply ztake_all. rewrite zlen_zdrop; lia.
Qed.

Lemma slice_split i s :
  0 <= i <= zlen s -> slice 0 i s ++ slice_from i s = s.
Proof. intros. rewrite slice_0_id, slice_from_id by done. apply ztake_zdrop. Qed.

Lemma slice_mid i j s :
  0 <= i -> i <= j -> j <= zlen s -> slice i j s = ztake (j - i) (zdrop i s).
Proof. intros. unfold slice. by rewrite !clamp_id by lia. Qed.

Lemma substring_id i j s :
  0 <= i -> i <= j -> j <= zlen s -> substring i j s = ztake (j - i) (zdrop i s).
Proof.
  intros. unfold substring.
  replace (Z.min (Z.max i 0) (zlen s)) with i by lia.
  replace (Z.min (Z.max j 0) (zlen s)) with j by lia.
  by rewrite Z.max_r, Z.min_l.
Qed.

Lemma substring_over i j s :
  0 <= i <= zlen s -> zlen s <= j -> substring i j s = zdrop i s.
Proof.
  intros. unfold substring.
  replace (Z.min (Z.max i 0) (zlen s)) with i by lia.
  replace (Z.min (Z.max j 0) (zlen s)) with (zlen s) by lia.
  rewrite Z.max_r, Z.min_l by lia. apply ztake_all. rewrite zlen_zdrop; lia.
Qed.

Lemma substring_step i n s :
  0 <= i <= zlen s -> 0 <= n -> substring i (i + n) s = ztake n (zdrop i s).
Proof.
  intros. destruct (decide (i + n <= zlen s)).
  - rewrite substring_id by lia. f_equal. lia.
  - rewrite substring_over by lia. symmetry. apply ztake_all.
    rewrite zlen_zdrop; lia.
Qed.

Lemma substring_split i s :
  0 <= i <= zlen s -> substring 0 i s ++ substring_from i s = s.
Proof.
  intros. rewrite substring_id by lia. rewrite zdrop_nonpos, Z.sub_0_r by lia.
  unfold substring_from. replace (Z.min (Z.max i 0) (zlen s)) with i by lia.
  apply ztake_zdrop.
Qed.

Lemma prefixb_true p s : prefixb p s = true <-> exists r, s = p ++ r.
Proof.
  revert s; induction p as [|a p IH]; intros s; simpl.
  - split; [by exists s | done].
  - destruct s as [|b s]; [split; [done | intros [r [=]]]|].
    rewrite andb_true_iff, IH, Z.eqb_eq. split.
    + intros [-> [r ->]]. by exists r.
    + intros [r [= -> ->]]. split; [done|]. by exists r.
Qed.

Lemma prefixb_app p r : prefixb p (p ++ r) = true.
Proof. apply prefixb_true. by exists r. Qed.

Lemma find_from_Some p s k i :
  find_from p s k = Some i ->
  k <= i /\ i - k <= zlen s /\ prefixb p (zdrop (i - k) s) = true.
Proof.
  revert k; induction s as [|c s IH]; intros k; simpl;
    destruct (prefixb p _) eqn:E; intros H; simplify_eq.
  - rewrite Z.sub_diag, zdrop_nonpos by lia. jslia || (repeat split; [lia|jslia|done]).
  - rewrite Z.sub_diag, zdrop_nonpos by lia. repeat split; [lia|jslia|done].
  - destruct (IH _ H) as (H1 & H2 & H3).
    split_and!; [lia | jslia |].
    unfold zdrop in *.
    replace (Z.to_nat (i - k)) with (S (Z.to_nat (i - (k + 1)))) by lia. done.
Qed.

Lemma find_from_least p s k i j :
  find_from p s k = Some i -> k <= j < i -> prefixb p (zdrop (j - k) s) = false.
Proof.
  revert k; induction s as [|c s IH]; intros k; simpl;
    destruct (prefixb p _) eqn:E; intros H Hj; simplify_eq; try lia.
  destruct (decide (j = k)) as [->|Hne].
  - by rewrite Z.sub_diag, zdrop_nonpos by lia.
  - specialize (IH _ H ltac:(lia)). unfold zdrop in *.
    replace (Z.to_nat (j - k)) with (S (Z.to_nat (j - (k + 1)))) by lia. done.
Qed.

Lemma find_from_None p s k j :
  find_from p s k = None -> 0 <= j <= zlen s -> prefixb p (zdrop j s) = false.
Proof.
  revert k j; induction s as [|c s IH]; intros k j; simpl;
    destruct (prefixb p _) eqn:E; intros H Hj; simplify_eq.
  - replace j with 0 by jslia. by rewrite zdrop_nonpos by lia.
  - destruct (decide (j = 0)) as [->|Hne]; [by rewrite zdrop_nonpos by lia|].
    specialize (IH _ (j - 1) H ltac:(jslia)). unfold zdrop in *.
    replace (Z.to_nat j) with (S (Z.to_nat (j - 1))) by lia. done.
Qed.

Lemma has_char_spec c s : has_char c s = true <-> c ∈ s.
Proof. unfold has_char. apply bool_decide_eq_true. Qed.

Lemma join_split_char sep s : join [sep] (split_char sep s) = s.
Proof.
  induction s as [|c s IH]; simpl; [done|].
  destruct (split_char sep s) as [|w ws]; simpl in *; [by destruct s|].
  destruct (c =? sep) eqn:E.
  - apply Z.eqb_eq in E as ->. simpl. by rewrite <- IH.
  - destruct ws; simpl in *; by rewrite <- IH.
Qed.

Lemma split_char_nonempty sep s : split_char sep s <> [].
Proof. destruct s; simpl; repeat case_match; done. Qed.

Lemma split_char_app_sep sep a s :
  sep ∉ a -> split_char sep (a ++ sep :: s) = a :: split_char sep s.
Proof.
  induction a as [|c a IH]; intros Hn; simpl.
  - rewrite Z.eqb_refl. destruct (split_char sep s) eqn:E; [|done].
    by destruct (split_char_nonempty sep s).
  - apply not_elem_of_cons in Hn as [Hc Hn]. rewrite IH by done.
    case_match eqn:E; [|done]. apply Z.eqb_eq in E. congruence.
Qed.

Lemma split_char_none sep a : sep ∉ a -> split_char sep a = [a].
Proof.
  induction a as [|c a IH]; intros Hn; simpl; [done|].
  apply not_elem_of_cons in Hn as [Hc Hn]. rewrite IH by done.
  case_match eqn:E; [|done]. apply Z.eqb_eq in E. congruence.
Qed.

Lemma split_join sep w ws :
  (forall v, v ∈ w :: ws -> sep ∉ v) -> split_char sep (join [sep] (w :: ws)) = w :: ws.
Proof.
  revert w. induction ws as [|v ws IH]; intros w H.
  - cbn [join]. apply split_char_none, H, list_elem_of_here.
  - change (join [sep] (w :: v :: ws)) with (w ++ sep :: join [sep] (v :: ws)).
    rewrite split_char_app_sep by (apply H, list_elem_of_here). rewrite IH; [done|].
    intros u Hu. by apply H, list_elem_of_further.
Qed.

Lemma replace_char_app c r s t :
  replace_char c r (s ++ t) = replace_char c r s ++ replace_char c r t.
Proof. unfold replace_char. apply List.flat_map_app. Qed.

Lemma replace_char_none c r s : c ∉ s -> replace_char c r s = s.
Proof.
  unfold replace_char. induction s as [|x s IH]; intros Hn; simpl; [done|].
  apply not_elem_of_cons in Hn as [Hx Hn].
  destruct (x =? c) eqn:E; [apply Z.eqb_eq in E; congruence|].
  simpl. by rewrite IH.
Qed.

Lemma replace_char_flat_map c r (f : Z -> jstring) s :
  replace_char c r (List.flat_map f s) = List.flat_map (fun x => replace_char c r (f x)) s.
Proof.
  induction s as [|x s IH]; simpl; [done|]. by rewrite replace_char_app, IH.
Qed.

Lemma replace_char1 c r x : replace_char c r [x] = if x =? c then r else [x].
Proof. unfold replace_char. simpl. destruct (x =? c); [apply app_nil_r | done]. Qed.

Lemma zlen_replace_dot r s : zlen (replace_dot r s) = zlen s.
Proof. unfold zlen, replace_dot. by rewrite length_map. Qed.
#[export] Hint Rewrite zlen_replace_dot : jslen.

(** *** Searching for one character *)
Lemma find_from_char c a r k : c ∉ a -> find_from [c] (a ++ c :: r) k = Some (k + zlen a).
Proof.
  revert k. induction a as [|x a IH]; intros k Hc.
  - simpl. rewrite Z.eqb_refl, zlen_nil. f_equal. lia.
  - apply not_elem_of_cons in Hc as [Hx Hc]. cbn [app find_from prefixb].
    rewrite (proj2 (Z.eqb_neq c x)) by done. cbn [andb]. rewrite IH by done.
    rewrite zlen_cons. f_equal. lia.
Qed.

Lemma find_from_absent c s k : c ∉ s -> find_from [c] s k = None.
Proof.
  revert k. induction s as [|x s IH]; intros k Hc; [done|].
  apply not_elem_of_cons in Hc as [Hx Hc]. cbn [find_from prefixb].
  rewrite (proj2 (Z.eqb_neq c x)) by done. by apply IH.
Qed.

Lemma indexOf_char c a r : c ∉ a -> indexOf [c] (a ++ c :: r) = zlen a.
Proof.
  intros Hc. unfold indexOf, indexOf_from. rewrite Z.min_l by jslia.
  rewrite zdrop_nonpos by lia. by rewrite find_from_char.
Qed.

Lemma indexOf_absent c s : c ∉ s -> indexOf [c] s = -1.
Proof.
  intros Hc. unfold indexOf, indexOf_from. rewrite Z.min_l by jslia.
  rewrite zdrop_nonpos by lia. by rewrite find_from_absent.
Qed.

(** The text before the first occurrence. *)
(** The first place of a character is one place. *)
Lemma char_splits_once (c : Z) (a b a' b' : jstring) : a ++ c :: b = a' ++ c :: b' -> c ∉ a -> c ∉ a' -> a = a' /\ b = b'.
Proof.
  revert a'. induction a as [|x a IH]; intros [|x' a'] H Ha Ha'; cbn [app] in H.
  - by injection H.
  - injection H as -> _. by destruct Ha'; left.
  - injection H as -> _. by destruct Ha; left.
  - injection H as -> H. apply not_elem_of_cons in Ha as [_ Ha]. apply not_elem_of_cons in Ha' as [_ Ha'].
    by destruct (IH a' H Ha Ha') as [-> ->].
Qed.

Lemma before_char (c : Z) (s : jstring) : c ∈ s -> exists a r, s = a ++ c :: r /\ c ∉ a.
Proof.
  induction s as [|x s IH]; [by intros ?%elem_of_nil|]. intros Hc.
  destruct (decide (x = c)) as [->|Hx]; [exists [], s; split; [done | apply not_elem_of_nil]|].
  apply elem_of_cons in Hc as [->|Hc]; [done|]. destruct (IH Hc) as (a & r & -> & Ha).
  exists (x :: a), r. split; [done|]. by apply not_elem_of_cons.
Qed.

(** Computes the codes of literal characters. *)
Ltac literal_chars :=
  repeat match goal with
  | |- context [ch ?a] => let v := eval vm_compute in (ch a) in change (ch a) with v
  end.
