(* ===== verification/TermText.v ===== *)
(** * Text utilities of the terminal

    The string helpers at the front of [jquery.terminal-0.3.3.js]: membership in
    an array, splitting a line into columns ([str_parts]) and the HTML encoder
    with its [[style;color;background]text] markup ([encodeHTML]). *)
From S2P Require Import Prelude JsString.

Module Term.

(** src/experiments/repl/src/main/webapp/terminal/jquery.terminal-0.3.3.js:66-73
    [Array.prototype.has]: [for (i = this.length; i--;)]. *)
Fixpoint has_loop (l : list Z) (val : Z) (i : nat) : bool :=
  match i with
  | O => false
  | S i' => if decide (l !! i' = Some val) then true else has_loop l val i'
  end.
Definition has (l : list Z) (val : Z) : bool := has_loop l val (length l).

(** src/experiments/repl/src/main/webapp/terminal/jquery.terminal-0.3.3.js:575-578
    the loop of [str_parts]; [None] when the fuel runs out. *)
Fixpoint str_parts_loop (fuel : nat) (str : jstring) (len i : Z) : option (list jstring) :=
  match fuel with
  | O => None
  | S fuel =>
      if i <? zlen str
      then (fun ps => substring i (i + len) str :: ps) <$> str_parts_loop fuel str len (i + len)
      else Some []
  end.

(** src/experiments/repl/src/main/webapp/terminal/jquery.terminal-0.3.3.js:569-579
    [str_parts(str, length)].  [None] is a call that does not return: the loop
    does not advance when [length <= 0]; with [length >= 1] the fuel
    [length str + 1] is enough ([str_parts_correct]). *)
Definition str_parts (str : jstring) (len : Z) : option (list jstring) :=
  if zlen str <? len then Some [str]
  else str_parts_loop (S (length str)) str len 0.

(** ** The HTML encoder *)
Fixpoint span (p : Z -> bool) (s : jstring) : jstring * jstring :=
  match s with
  | [] => ([], [])
  | c :: r => if p c then (c :: (span p r).1, (span p r).2) else ([], s)
  end.

(** The look-ahead of the first replacement: a hash, digits, a semicolon. *)
Definition entity_ahead (s : jstring) : bool :=
  match s with
  | 35 :: r => match (span is_digit r).2 with 59 :: _ => true | _ => false end
  | _ => false
  end.

(** src/experiments/repl/src/main/webapp/terminal/jquery.terminal-0.3.3.js:590-590
    [escape_amp]: the first replacement, every ampersand that does not start a
    numeric entity. *)
Fixpoint escape_amp (s : jstring) : jstring :=
  match s with
  | [] => []
  | c :: r =>
      if (c =? c_amp) && negb (entity_ahead r)
      then js "&amp;" ++ escape_amp r else c :: escape_amp r
  end.

(** src/experiments/repl/src/main/webapp/terminal/jquery.terminal-0.3.3.js:590-598
    the six replacements, in the order of the code. *)
Definition escape_html (str : jstring) : jstring :=
  let str := escape_amp str in
  let str := replace_char c_lt (js "&lt;") str in
  let str := replace_char c_gt (js "&gt;") str in
  let str := replace_char c_nl (js "<br/>") str in
  let str := replace_char c_space (js "&nbsp;") str in
  replace_char c_tab (js "&nbsp;&nbsp;&nbsp;&nbsp;") str.

Record format_match := FormatMatch {
  fm_style : jstring; fm_color : jstring; fm_background : jstring;
  fm_text : jstring; fm_rest : jstring }.

Definition is_biu (c : Z) : bool := (c =? c_b) || (c =? c_i) || (c =? c_u).
Definition not_semi (c : Z) : bool := negb (c =? c_semi).
Definition not_rbrack (c : Z) : bool := negb (c =? c_rbrack).

(** src/experiments/repl/src/main/webapp/terminal/jquery.terminal-0.3.3.js:583-585
    [format_split_re] and [format_re] at the front of the string: two opening
    brackets, a run over [biu], a semicolon, a run without semicolons, a
    semicolon, a run without closing brackets, a closing bracket, a run without
    closing brackets, a closing bracket.  No part of the expression can
    give back characters, because each class excludes the character that
    follows it. *)
Definition match_format (s : jstring) : option format_match :=
  match s with
  | 91 :: 91 :: s1 =>
      let '(style, s2) := span is_biu s1 in
      match s2 with
      | 59 :: s3 =>
          let '(color, s4) := span not_semi s3 in
          match s4 with
          | 59 :: s5 =>
              let '(background, s6) := span not_rbrack s5 in
              match s6 with
              | 93 :: s7 =>
                  let '(text, s8) := span not_rbrack s7 in
                  match s8 with
                  | 93 :: rest => Some (FormatMatch style color background text rest)
                  | _ => None
                  end
              | _ => None
              end
          | _ => None
          end
      | _ => None
      end
  | _ => None
  end.

(** Length of the text a match consumed at the front of [s]. *)
Definition matched_len (s : jstring) (m : format_match) : nat :=
  (length s - length (fm_rest m))%nat.

(** src/experiments/repl/src/main/webapp/terminal/jquery.terminal-0.3.3.js:600-600
    [str.split(format_split_re)]: the captured group is kept between the
    pieces.  [skip] counts the characters of the current match still to pass,
    [cur] is the piece being read. *)
Fixpoint format_split (skip : nat) (cur s : jstring) : list jstring :=
  match s with
  | [] => [cur]
  | c :: r =>
      match skip with
      | S k => format_split k cur r
      | O =>
          match match_format s with
          | Some m =>
              cur :: take (matched_len s m) s
                  :: format_split (matched_len s m - 1) [] r
          | None => format_split 0 (cur ++ [c]) r
          end
      end
  end.

(** [color_hex_re]: [#] followed by three hexadecimal digits, anywhere. *)
Fixpoint has_color_hex (s : jstring) : bool :=
  match s with
  | [] => false
  | c :: r =>
      ((c =? c_hash) && (3 <=? zlen (span is_hex r).1)) || has_color_hex r
  end.

(** src/experiments/repl/src/main/webapp/terminal/jquery.terminal-0.3.3.js:604-624
    the callback of [text.replace(format_re, ...)]. *)
Definition format_span (m : format_match) : jstring :=
  let style_str :=
    (if has_char c_b (fm_style m) then js "font-weight:bold;" else [])
    ++ (if has_char c_u (fm_style m) then js "text-decoration:underline;" else [])
    ++ (if has_char c_i (fm_style m) then js "font-style:italic; " else [])
    ++ (if has_color_hex (fm_color m) then js "color:" ++ fm_color m ++ [c_semi] else [])
    ++ (if has_color_hex (fm_background m)
        then js "background-color:" ++ fm_background m else []) in
  js "<span style=" ++ [c_quote] ++ style_str ++ [c_quote; c_gt]
    ++ fm_text m ++ js "</span>".

Fixpoint format_replace (skip : nat) (s : jstring) : jstring :=
  match s with
  | [] => []
  | c :: r =>
      match skip with
      | S k => format_replace k r
      | O =>
          match match_format s with
          | Some m => format_span m ++ format_replace (matched_len s m - 1) r
          | None => c :: format_replace 0 r
          end
      end
  end.

(** src/experiments/repl/src/main/webapp/terminal/jquery.terminal-0.3.3.js:602-628
    the [$.map] callback. *)
Definition format_piece (text : jstring) : jstring :=
  match text with
  | 91 :: _ => format_replace 0 text
  | _ => js "<span>" ++ text ++ js "</span>"
  end.

(** src/experiments/repl/src/main/webapp/terminal/jquery.terminal-0.3.3.js:588-634
    [encodeHTML(str)]; [None] is an argument that is not a string. *)
Definition encodeHTML (str : option jstring) : jstring :=
  match str with
  | Some str =>
      let str := escape_html str in
      let splited := format_split 0 [] str in
      if (1 <? zlen splited) then concat (map format_piece splited) else str
  | None => []
  end.

(** ** [has] *)
Lemma has_loop_spec l val i :
  has_loop l val i = true <-> exists j, (j < i)%nat /\ l !! j = Some val.
Proof.
  induction i as [|i IH]; simpl; [split; [done | intros (? & ? & ?); lia]|].
  case_decide as Hi; [split; [intros _; exists i; split; [lia|done] | done]|].
  rewrite IH. split.
  - intros (j & ? & ?). exists j. split; [lia | done].
  - intros (j & ? & Hj). exists j. split; [|done].
    destruct (decide (j = i)) as [->|]; [done | lia].
Qed.

Lemma has_spec l val : has l val = true <-> val ∈ l.
Proof.
  unfold has. rewrite has_loop_spec, list_elem_of_lookup. split.
  - intros (j & _ & ?). by exists j.
  - intros (j & Hj). exists j. split; [|done]. by apply lookup_lt_Some in Hj.
Qed.

(** ** [str_parts] *)

(** Every part but the last has [n] characters and the last at most [n]. *)
Fixpoint columns (n : Z) (ps : list jstring) : Prop :=
  match ps with
  | [] => True
  | [p] => zlen p <= n
  | p :: ps' => zlen p = n /\ columns n ps'
  end.

Lemma parts_count L n :
  0 < n -> 0 < L -> (L + n - 1) / n = 1 + (Z.max 0 (L - n) + n - 1) / n.
Proof.
  intros. destruct (decide (n <= L)).
  - rewrite Z.max_r by lia.
    replace (L + n - 1) with ((L - n + n - 1) + 1 * n) by lia.
    rewrite Z.div_add by lia. lia.
  - rewrite Z.max_l by lia. rewrite (Z.div_small (0 + n - 1)) by lia.
    symmetry. apply (Z.div_unique _ _ _ (L - 1)); lia.
Qed.

Lemma str_parts_loop_correct fuel str n i :
  0 < n -> 0 <= i -> Z.max 0 (zlen str - i) < Z.of_nat fuel ->
  exists ps, str_parts_loop fuel str n i = Some ps
    /\ concat ps = zdrop i str /\ columns n ps
    /\ zlen ps = (Z.max 0 (zlen str - i) + n - 1) / n.
Proof.
  intros Hn. revert i; induction fuel as [|fuel IH]; intros i Hi Hf; [simpl; lia|].
  cbn [str_parts_loop].
  destruct (i <? zlen str) eqn:E.
  - apply Z.ltb_lt in E.
    destruct (IH (i + n)) as (ps & -> & Hc & Hcol & Hl); [lia..|].
    rewrite (substring_step i n) by lia. eexists; split; [done|]. split_and!.
    + simpl. rewrite Hc, <- zdrop_zdrop by lia. rewrite zdrop_zdrop by lia.
      rewrite <- zdrop_zdrop by lia. apply ztake_zdrop.
    + assert (Hz : zlen (ztake n (zdrop i str)) = Z.min n (zlen str - i)).
      { rewrite zlen_ztake, zlen_zdrop by lia. done. }
      destruct ps as [|q ps]; simpl; [lia|]. split; [|done]. rewrite Hz.
      destruct (decide (i + n < zlen str)); [lia|].
      rewrite Z.max_l, Z.div_small in Hl by lia. jslia.
    + rewrite zlen_cons, Hl. rewrite (Z.max_r 0 (zlen str - i)) by lia.
      rewrite (parts_count (zlen str - i)) by lia.
      by replace (zlen str - (i + n)) with (zlen str - i - n) by lia.
  - apply Z.ltb_ge in E. exists []. split; [done|]. split_and!; [|done|].
    + by rewrite zdrop_all.
    + rewrite Z.max_l, Z.div_small by lia. done.
Qed.

Lemma str_parts_correct str n :
  0 < n ->
  exists ps, str_parts str n = Some ps
    /\ concat ps = str /\ columns n ps
    /\ zlen ps = (if zlen str <? n then 1 else (zlen str + n - 1) / n).
Proof.
  intros Hn. unfold str_parts. destruct (zlen str <? n) eqn:E.
  - apply Z.ltb_lt in E. exists [str]. split_and!; [done | apply app_nil_r | simpl; lia | done].
  - destruct (str_parts_loop_correct (S (length str)) str n 0) as (ps & Hp & Hc & Hcol & Hl);
      [lia | lia | unfold zlen; lia|].
    exists ps. split_and!; [done | by rewrite zdrop_nonpos in Hc | done |].
    rewrite Hl. pose proof (zlen_nonneg str). by rewrite Z.max_r, Z.sub_0_r by lia.
Qed.

Lemma str_parts_diverges str n :
  n <= 0 -> str <> [] -> forall fuel, str_parts_loop fuel str n 0 = None.
Proof.
  intros Hn Hs fuel. assert (H : forall i, i <= 0 -> str_parts_loop fuel str n i = None).
  { induction fuel as [|fuel IH]; intros i Hi; [done|]. cbn [str_parts_loop].
    replace (i <? zlen str) with true; [by rewrite IH by lia|].
    symmetry. apply Z.ltb_lt. destruct str; [done|]. jslia. }
  by apply H.
Qed.

(** [str_parts] returns exactly when the requested width is positive or exceeds
    the string: it then returns the consecutive pieces of the string, each of the
    requested width but the last one, and otherwise no number of iterations
    ends its loop. *)
Theorem str_parts_returns str n :
  str <> [] ->
  (0 < n -> exists ps, str_parts str n = Some ps /\ concat ps = str /\ columns n ps
     /\ zlen ps = (if zlen str <? n then 1 else (zlen str + n - 1) / n))
  /\ (n <= 0 -> forall fuel, str_parts_loop fuel str n 0 = None).
Proof.
  intros Hs. split; [apply str_parts_correct | intros; by apply str_parts_diverges].
Qed.

Lemma str_parts_returns_witness :
  (exists ps, str_parts (js "abcdefg") 3 = Some ps /\ concat ps = js "abcdefg"
    /\ columns 3 ps /\ zlen ps = 3)
  /\ str_parts (js "abcdefg") 0 = None.
Proof.
  destruct (str_parts_returns (js "abcdefg") 3 ltac:(done)) as [H1 _].
  destruct (str_parts_returns (js "abcdefg") 0 ltac:(done)) as [_ H2].
  split; [exact (H1 ltac:(lia)) | exact (H2 ltac:(lia) 8%nat)].
Defined.

(** ** What a browser shows for encoded text

    [html_text] reads back the entities and the line break that [escape_html]
    writes; [skip] counts the characters of the entity still to pass. *)
Fixpoint html_text (skip : nat) (s : jstring) : jstring :=
  match s with
  | [] => []
  | c :: r =>
      match skip with
      | S k => html_text k r
      | O =>
          if prefixb (js "&amp;") s then c_amp :: html_text 4 r
          else if prefixb (js "&lt;") s then c_lt :: html_text 3 r
          else if prefixb (js "&gt;") s then c_gt :: html_text 3 r
          else if prefixb (js "&nbsp;") s then c_space :: html_text 5 r
          else if prefixb (js "<br/>") s then c_nl :: html_text 4 r
          else c :: html_text 0 r
      end
  end.

(** No numeric entity in the input: every ampersand is literal. *)
Fixpoint no_entity (s : jstring) : bool :=
  match s with
  | [] => true
  | c :: r => negb ((c =? c_amp) && entity_ahead r) && no_entity r
  end.

(** The effect of all replacements on one character. *)
Definition escape1 (c : Z) : jstring :=
  if c =? c_amp then js "&amp;" else
  if c =? c_lt then js "&lt;" else
  if c =? c_gt then js "&gt;" else
  if c =? c_nl then js "<br/>" else
  if c =? c_space then js "&nbsp;" else
  if c =? c_tab then js "&nbsp;&nbsp;&nbsp;&nbsp;" else [c].

Lemma escape_amp_no_entity s :
  no_entity s = true ->
  escape_amp s = List.flat_map (fun x => if x =? c_amp then js "&amp;" else [x]) s.
Proof.
  induction s as [|c s IH]; intros H; cbn [no_entity escape_amp List.flat_map] in *; [done|].
  apply andb_true_iff in H as [H1 H2]. rewrite (IH H2).
  destruct (c =? c_amp); simpl in *; [|done]. by destruct (entity_ahead s).
Qed.

Lemma escape_html_no_entity s :
  no_entity s = true -> escape_html s = List.flat_map escape1 s.
Proof.
  intros H. unfold escape_html. rewrite escape_amp_no_entity by done.
  rewrite !replace_char_flat_map. apply List.flat_map_ext. intros c.
  unfold escape1. destruct (c =? c_amp) eqn:E1; [reflexivity|].
  do 5 (rewrite replace_char1;
    match goal with |- context [c =? ?k] => destruct (c =? k) end; [reflexivity|]).
  reflexivity.
Qed.

Lemma html_text_escape1 c t :
  c <> c_tab -> html_text 0 (escape1 c ++ t) = c :: html_text 0 t.
Proof.
  intros Ht. unfold escape1.
  repeat match goal with |- context [if c =? ?k then _ else _] =>
    destruct (Z.eqb_spec c k) as [->|?]; [by try congruence|] end.
  cbn [app html_text js prefixb].
  change (ch "&") with 38. change (ch "<") with 60.
  replace (38 =? c) with false by lia. replace (60 =? c) with false by lia.
  done.
Qed.

(** Text without tabs and without numeric entities is shown unchanged. *)
Theorem escape_html_roundtrip s :
  no_entity s = true -> c_tab ∉ s -> html_text 0 (escape_html s) = s.
Proof.
  intros He. rewrite escape_html_no_entity by done. clear He.
  induction s as [|c s IH]; intros Ht; [done|].
  apply not_elem_of_cons in Ht as [Hc Ht]. cbn [List.flat_map].
  by rewrite html_text_escape1, IH by congruence.
Qed.

Lemma escape_html_roundtrip_witness :
  html_text 0 (escape_html (js "a < b && <i>c</i>")) = js "a < b && <i>c</i>".
Proof. apply escape_html_roundtrip; [reflexivity | by apply (bool_decide_unpack _)]. Defined.

(** ** The encoder writes no element but its own *)
Definition tag_at (T : list jstring) (s : jstring) : Prop :=
  exists t, t ∈ T /\ prefixb t s = true.

(** Every [<] of [s] opens one of the tags [T]. *)
Fixpoint tags_ok (T : list jstring) (s : jstring) : Prop :=
  match s with
  | [] => True
  | c :: r => (c = c_lt -> tag_at T s) /\ tags_ok T r
  end.

Definition br_tag : list jstring := [js "<br/>"].
Definition encoder_tags : list jstring :=
  [js "<br/>"; js "<span>"; js "<span style="; js "</span>"].

Section tags.
Context (T : list jstring).

Lemma tags_ok_app a b : tags_ok T a -> tags_ok T b -> tags_ok T (a ++ b).
Proof.
  induction a as [|c a IH]; simpl; [done|]. intros [Hc Ha] Hb.
  split; [|by apply IH]. intros E. destruct (Hc E) as (t & Ht & Hp).
  exists t. split; [done|]. apply prefixb_true in Hp as [r Hr].
  apply prefixb_true. exists (r ++ b). by rewrite app_assoc, <- Hr.
Qed.

Lemma tags_ok_drop a b : tags_ok T (a ++ b) -> tags_ok T b.
Proof. induction a; simpl; [done | naive_solver]. Qed.

Lemma tags_ok_no_lt a : c_lt ∉ a -> tags_ok T a.
Proof.
  induction a as [|c a IH]; simpl; [done|]. intros [? ?]%not_elem_of_cons.
  split; [congruence | auto].
Qed.

Lemma prefixb_cut p a c b :
  c ∉ p -> prefixb p (a ++ c :: b) = true -> prefixb p a = true.
Proof.
  revert p; induction a as [|x a IH]; intros [|y p] Hn; simpl; try done.
  - apply not_elem_of_cons in Hn as [Hn _]. rewrite andb_true_iff, Z.eqb_eq.
    intros [? _]. congruence.
  - apply not_elem_of_cons in Hn as [_ Hn]. rewrite !andb_true_iff.
    intros [? ?]. eauto.
Qed.

Lemma tags_ok_cut a c b :
  (forall t, t ∈ T -> c ∉ t) -> tags_ok T (a ++ c :: b) -> tags_ok T a.
Proof.
  intros Hc. induction a as [|x a IH]; simpl; [done|]. intros [Hx Ha].
  split; [|by apply IH]. intros E. destruct (Hx E) as (t & Ht & Hp).
  exists t. split; [done|]. apply (prefixb_cut _ (x :: a) c b); [by apply Hc | done].
Qed.

Lemma prefixb_replace c r p s :
  c ∉ p -> prefixb p s = true -> prefixb p (replace_char c r s) = true.
Proof.
  intros Hn [q ->]%prefixb_true. rewrite replace_char_app.
  rewrite (replace_char_none c r p) by done. apply prefixb_app.
Qed.

Lemma tags_ok_replace c r s :
  c <> c_lt -> (forall t, t ∈ T -> c ∉ t) -> c_lt ∉ r ->
  tags_ok T s -> tags_ok T (replace_char c r s).
Proof.
  intros Hc HT Hr. induction s as [|x s IH]; simpl; [done|]. intros [Hx Hs].
  destruct (x =? c) eqn:E.
  - apply tags_ok_app; [by apply tags_ok_no_lt | by apply IH].
  - split; [|by apply IH]. intros ->. destruct (Hx eq_refl) as (t & Ht & Hp).
    exists t. split; [done|].
    pose proof (prefixb_replace c r t (c_lt :: s) (HT _ Ht) Hp) as H.
    unfold replace_char in H. cbn [List.flat_map] in H. by rewrite E in H.
Qed.
End tags.

Lemma tags_ok_mono T T' s : T ⊆ T' -> tags_ok T s -> tags_ok T' s.
Proof.
  intros HT. induction s as [|c s IH]; simpl; [done|]. intros [Hc Hs].
  split; [|by apply IH]. intros E. destruct (Hc E) as (t & Ht & Hp). exists t. auto.
Qed.

Lemma elem_of_replace_char x c r s :
  x ∈ replace_char c r s -> x ∈ r \/ (x ∈ s /\ x <> c).
Proof.
  induction s as [|y s IH]; simpl; [by rewrite elem_of_nil|].
  rewrite elem_of_app. intros [H|H].
  - destruct (y =? c) eqn:E; [by left|]. apply list_elem_of_singleton in H as ->.
    apply Z.eqb_neq in E. right. split; [apply list_elem_of_here | done].
  - destruct (IH H) as [?|[??]]; [by left|]. right. split; [by apply list_elem_of_further | done].
Qed.

(** Membership of a constant in a literal, decided by computation. *)
Ltac not_in_literal := apply (bool_decide_unpack _); vm_compute; exact I.

Lemma br_tag_free c : c ∉ js "<br/>" -> forall t, t ∈ br_tag -> c ∉ t.
Proof. intros H t. unfold br_tag. rewrite list_elem_of_singleton. by intros ->. Qed.

Lemma tags_ok_br s : c_lt ∉ s -> tags_ok br_tag (replace_char c_nl (js "<br/>") s).
Proof.
  induction s as [|c s IH]; simpl; [done|]. intros [Hc Hs]%not_elem_of_cons.
  apply tags_ok_app; [|by apply IH]. destruct (c =? c_nl).
  - split; [|apply tags_ok_no_lt; not_in_literal]. intros _.
    exists (js "<br/>"). split; [apply list_elem_of_here | done].
  - split; [congruence | done].
Qed.

Lemma escape_html_tags s : tags_ok br_tag (escape_html s).
Proof.
  unfold escape_html.
  apply tags_ok_replace; [done | apply br_tag_free; not_in_literal | not_in_literal |].
  apply tags_ok_replace; [done | apply br_tag_free; not_in_literal | not_in_literal |].
  apply tags_ok_br. intros H.
  apply elem_of_replace_char in H as [H|[H _]]; [revert H; not_in_literal|].
  apply elem_of_replace_char in H as [H|[_ H]]; [revert H; not_in_literal | done].
Qed.

(** ** The markup *)
#[global] Arguments match_format : simpl never.
#[global] Arguments matched_len : simpl never.
#[global] Arguments format_span : simpl never.
Lemma span_app p s : (span p s).1 ++ (span p s).2 = s.
Proof. induction s as [|c s IH]; simpl; [done|]. destruct (p c); simpl; congruence. Qed.

Lemma span_eq p s a b : span p s = (a, b) -> s = a ++ b.
Proof. intros H. rewrite <- (span_app p s). by rewrite H. Qed.

(** A match consumes exactly the marked-up text. *)
Lemma match_format_spec s m :
  match_format s = Some m ->
  s = c_lbrack :: c_lbrack :: fm_style m ++ c_semi :: fm_color m ++ c_semi
      :: fm_background m ++ c_rbrack :: fm_text m ++ c_rbrack :: fm_rest m.
Proof.
  unfold match_format. intros H.
  repeat (case_match; simplify_eq/=);
    repeat match goal with H : span _ _ = _ |- _ => apply span_eq in H end;
    by subst.
Qed.

Lemma match_format_head s m : match_format s = Some m -> exists r, s = c_lbrack :: r.
Proof. intros H. rewrite (match_format_spec _ _ H). eauto. Qed.

(** The consumed text ends with a closing bracket. *)
Lemma matched_take s m :
  match_format s = Some m ->
  exists a, s = a ++ c_rbrack :: fm_rest m
    /\ take (matched_len s m) s = a ++ [c_rbrack].
Proof.
  intros H. pose proof (match_format_spec _ _ H) as Hs.
  exists (c_lbrack :: c_lbrack :: fm_style m ++ c_semi :: fm_color m ++ c_semi
          :: fm_background m ++ c_rbrack :: fm_text m).
  assert (He : s = (c_lbrack :: c_lbrack :: fm_style m ++ c_semi :: fm_color m ++ c_semi
          :: fm_background m ++ c_rbrack :: fm_text m) ++ c_rbrack :: fm_rest m).
  { rewrite Hs at 1. simpl. by rewrite <- !app_assoc; simpl; rewrite <- !app_assoc;
      simpl; rewrite <- !app_assoc. }
  split; [done|]. unfold matched_len.
  generalize dependent (c_lbrack :: c_lbrack :: fm_style m ++ c_semi :: fm_color m ++ c_semi
          :: fm_background m ++ c_rbrack :: fm_text m). intros a ->.
  rewrite cons_middle, app_assoc. rewrite take_app_length'; [done|].
  rewrite !length_app. simpl. lia.
Qed.

Lemma concat_format_split skip cur s :
  concat (format_split skip cur s) = cur ++ drop skip s.
Proof.
  revert skip cur; induction s as [|c s IH]; intros skip cur; simpl.
  { by rewrite drop_nil. }
  destruct skip as [|k]; [|by rewrite IH].
  destruct (match_format (c :: s)) as [m|] eqn:E.
  - simpl. f_equal. rewrite IH. simpl.
    destruct (matched_take _ _ E) as (a & Hs & _).
    unfold matched_len. assert (length (c :: s) = length a + S (length (fm_rest m)))%nat as Hl.
    { rewrite Hs, length_app. done. }
    destruct (length (c :: s) - length (fm_rest m))%nat as [|n] eqn:En; [lia|].
    rewrite Nat.sub_1_r. simpl. by rewrite take_drop.
  - rewrite IH, <- app_assoc. done.
Qed.

(** Splitting at the markup loses no character. *)
Lemma format_split_concat s : concat (format_split 0 [] s) = s.
Proof. by rewrite concat_format_split. Qed.

Section piece_tags.
Context (T : list jstring).
Hypothesis T_free : forall t c, t ∈ T -> c = c_lbrack \/ c = c_rbrack \/ c = c_semi -> c ∉ t.

Let cut c := fun H : c = c_lbrack \/ c = c_rbrack \/ c = c_semi =>
  fun t (Ht : t ∈ T) => T_free t c Ht H.

Lemma format_split_tags skip cur s :
  (skip <> 0%nat -> cur = []) -> tags_ok T (cur ++ s) ->
  Forall (tags_ok T) (format_split skip cur s).
Proof.
  revert skip cur; induction s as [|c s IH]; intros skip cur Hk Hok; simpl.
  { constructor; [by rewrite app_nil_r in Hok | done]. }
  destruct skip as [|k].
  - destruct (match_format (c :: s)) as [m|] eqn:E.
    + destruct (match_format_head _ _ E) as [r [= -> ->]].
      destruct (matched_take _ _ E) as (a & Hs & ->).
      constructor; [by apply (tags_ok_cut T _ c_lbrack r); [apply cut; auto|]|].
      assert (tags_ok T (c_lbrack :: r)) as Hr by by apply (tags_ok_drop T cur).
      constructor; [|apply IH; [done|by apply (tags_ok_drop T [c_lbrack])]].
      apply tags_ok_app; [|by apply tags_ok_no_lt; not_in_literal].
      rewrite Hs in Hr. by apply (tags_ok_cut T _ c_rbrack (fm_rest m)); [apply cut; auto|].
    + apply IH; [done|]. by rewrite <- app_assoc.
  - rewrite Hk by done. apply IH; [done|]. rewrite Hk in Hok by done.
    by apply (tags_ok_drop T [c]).
Qed.

Lemma match_format_tags s m :
  match_format s = Some m -> tags_ok T s ->
  tags_ok T (fm_color m) /\ tags_ok T (fm_background m) /\ tags_ok T (fm_text m).
Proof.
  intros H Hok. rewrite (match_format_spec _ _ H) in Hok.
  apply (tags_ok_drop T [c_lbrack; c_lbrack]) in Hok.
  apply tags_ok_drop in Hok. destruct Hok as [_ Hok].
  split; [by eapply tags_ok_cut, Hok; apply cut; auto|].
  apply tags_ok_drop in Hok. destruct Hok as [_ Hok].
  split; [by eapply tags_ok_cut, Hok; apply cut; auto|].
  apply tags_ok_drop in Hok. destruct Hok as [_ Hok].
  by eapply tags_ok_cut, Hok; apply cut; auto.
Qed.
End piece_tags.

Lemma br_tag_cut t c :
  t ∈ br_tag -> c = c_lbrack \/ c = c_rbrack \/ c = c_semi -> c ∉ t.
Proof.
  intros Ht Hc. revert t Ht. apply br_tag_free.
  destruct Hc as [->|[->| ->]]; not_in_literal.
Qed.

Lemma br_in_encoder : br_tag ⊆ encoder_tags.
Proof. intros t. unfold br_tag. rewrite list_elem_of_singleton. intros ->. apply list_elem_of_here. Qed.

Lemma tags_ok_tag t r :
  t ∈ encoder_tags -> c_lt ∉ r -> prefixb t (c_lt :: r) = true ->
  tags_ok encoder_tags (c_lt :: r).
Proof. intros. split; [by exists t | by apply tags_ok_no_lt]. Qed.

Lemma encoder_mono s : tags_ok br_tag s -> tags_ok encoder_tags s.
Proof. apply tags_ok_mono, br_in_encoder. Qed.

Lemma tags_ok_close : tags_ok encoder_tags (js "</span>").
Proof. apply (tags_ok_tag (js "</span>")); [by do 3 right; left | not_in_literal | done]. Qed.

Lemma format_span_tags m :
  tags_ok encoder_tags (fm_color m) -> tags_ok encoder_tags (fm_background m) ->
  tags_ok encoder_tags (fm_text m) -> tags_ok encoder_tags (format_span m).
Proof.
  intros Hc Hb Ht. unfold format_span. rewrite <- !app_assoc.
  apply tags_ok_app.
  { apply (tags_ok_tag (js "<span style=")); [by do 2 right; left | not_in_literal | done]. }
  apply tags_ok_app; [apply tags_ok_no_lt; not_in_literal|].
  repeat (apply tags_ok_app;
    [ case_match; [|done]; try (apply tags_ok_no_lt; not_in_literal) |]).
  - apply tags_ok_app; [apply tags_ok_no_lt; not_in_literal|].
    apply tags_ok_app; [done | apply tags_ok_no_lt; not_in_literal].
  - apply tags_ok_app; [apply tags_ok_no_lt; not_in_literal | done].
  - apply tags_ok_app; [apply tags_ok_no_lt; not_in_literal|].
    apply tags_ok_app; [done | apply tags_ok_close].
Qed.

Lemma prefixb_format_replace p s :
  c_lbrack ∉ p -> prefixb p s = true -> prefixb p (format_replace 0 s) = true.
Proof.
  revert s; induction p as [|x p IH]; intros [|c s] Hn; try done.
  apply not_elem_of_cons in Hn as [Hx Hn]. cbn [prefixb].
  rewrite andb_true_iff, Z.eqb_eq. intros [<- Hp]. cbn [format_replace].
  destruct (match_format (x :: s)) as [m|] eqn:E.
  - destruct (match_format_head _ _ E) as [r [= ->]]. congruence.
  - cbn [prefixb]. rewrite Z.eqb_refl. simpl. auto.
Qed.

Lemma format_replace_tags skip s :
  tags_ok br_tag s -> tags_ok encoder_tags (format_replace skip s).
Proof.
  revert skip; induction s as [|c s IH]; intros skip Hok; [done|].
  pose proof Hok as [Hc Hs]. cbn [format_replace].
  destruct skip as [|k]; [|by apply IH].
  destruct (match_format (c :: s)) as [m|] eqn:E.
  - apply tags_ok_app; [|by apply IH].
    destruct (match_format_tags br_tag br_tag_cut _ _ E Hok) as (? & ? & ?).
    apply format_span_tags; by apply encoder_mono.
  - split; [|by apply IH]. intros ->.
    destruct (Hc eq_refl) as (t & Ht & Hp). exists t.
    split; [by apply br_in_encoder|].
    assert (c_lbrack ∉ t) as Hn by (apply br_tag_cut; auto).
    pose proof (prefixb_format_replace t _ Hn Hp) as H.
    cbn [format_replace] in H. by rewrite E in H.
Qed.

Lemma format_piece_tags s :
  tags_ok br_tag s -> tags_ok encoder_tags (format_piece s).
Proof.
  intros Hs. assert (tags_ok encoder_tags (js "<span>" ++ s ++ js "</span>")) as Hw.
  { apply tags_ok_app.
    - apply (tags_ok_tag (js "<span>")); [by right; left | not_in_literal | done].
    - apply tags_ok_app; [by apply encoder_mono | apply tags_ok_close]. }
  unfold format_piece. repeat case_match; try done. subst. by apply format_replace_tags.
Qed.

(** Whatever the string, each [<] of the encoder's output opens one of the four
    tags that the encoder itself writes. *)
Theorem encodeHTML_tags str : tags_ok encoder_tags (encodeHTML str).
Proof.
  destruct str as [str|]; [|done]. unfold encodeHTML. cbv zeta.
  pose proof (escape_html_tags str) as Hok. case_match; [|by apply encoder_mono].
  assert (Forall (tags_ok br_tag) (format_split 0 [] (escape_html str))) as HF.
  { by apply format_split_tags; [apply br_tag_cut | |]. }
  clear -HF. induction HF as [|p ps Hp _ IH]; simpl; [done|].
  apply tags_ok_app; [by apply format_piece_tags | done].
Qed.

(** Without markup the encoder only escapes. *)
Lemma encodeHTML_plain str :
  zlen (format_split 0 [] (escape_html str)) <= 1 ->
  encodeHTML (Some str) = escape_html str.
Proof.
  intros H. unfold encodeHTML. cbv zeta.
  destruct (1 <? _) eqn:E; [apply Z.ltb_lt in E; lia | done].
Qed.
End Term.
