(* ===== verification/TermStruct.v ===== *)
(** * The data structures of the terminal: [Cycle], [BCycle] and [Stack]

    Each constructor closes over [data] (and [pos]); here they are the fields of
    a record, and every method takes the record and returns the new one with its
    result.  [None] is [undefined] or [null]. *)
From S2P Require Import Prelude JsString.

(** ** [Cycle]: the ring of terminals on the page *)
Module Cycle.

(** src/experiments/repl/src/main/webapp/terminal/jquery.terminal-0.3.3.js:639-641
    [Cycle]: the state. *)
Record t A := mk { data : list A; pos : Z }.
Arguments mk {A}. Arguments data {A}. Arguments pos {A}.

Section ops.
Context {A : Type} `{!EqDecision A}.

(** src/experiments/repl/src/main/webapp/terminal/jquery.terminal-0.3.3.js:639-641
    [Cycle(init)]; [None] is a missing [init]. *)
Definition make (init : option A) : t A :=
  {| data := match init with Some x => [x] | None => [] end; pos := 0 |}.

(** src/experiments/repl/src/main/webapp/terminal/jquery.terminal-0.3.3.js:643-654
    [rotate] *)
Definition rotate (c : t A) : t A * option A :=
  if zlen (data c) =? 1 then (c, znth (data c) 0)
  else
    let p := if pos c =? zlen (data c) - 1 then 0 else pos c + 1 in
    ({| data := data c; pos := p |}, znth (data c) p).

(** src/experiments/repl/src/main/webapp/terminal/jquery.terminal-0.3.3.js:655-657
    [length] *)
Definition len (c : t A) : Z := zlen (data c).

(** src/experiments/repl/src/main/webapp/terminal/jquery.terminal-0.3.3.js:670-672
    [append] *)
Definition append (c : t A) (item : A) : t A :=
  {| data := data c ++ [item]; pos := pos c |}.

(** The loop [for (i = data.length; i--;)]: the last index holding [item]. *)
Fixpoint find_item (l : list A) (item : A) (i : nat) : option nat :=
  match i with
  | O => None
  | S i' => if decide (l !! i' = Some item) then Some i' else find_item l item i'
  end.

(** src/experiments/repl/src/main/webapp/terminal/jquery.terminal-0.3.3.js:658-666
    [set] *)
Definition set (c : t A) (item : A) : t A :=
  match find_item (data c) item (length (data c)) with
  | Some i => {| data := data c; pos := Z.of_nat i |}
  | None => append c item
  end.

(** src/experiments/repl/src/main/webapp/terminal/jquery.terminal-0.3.3.js:667-669
    [front] *)
Definition front (c : t A) : option A := znth (data c) (pos c).

(** The position denotes an element. *)
Definition wf (c : t A) : Prop := 0 <= pos c < zlen (data c).

Lemma find_item_Some l item n i :
  find_item l item n = Some i -> (i < n)%nat /\ l !! i = Some item.
Proof.
  induction n as [|n IH]; simpl; [done|]. case_decide; [intros; simplify_eq; split; [lia|done]|].
  intros H1. destruct (IH H1). split; [lia | done].
Qed.

Lemma find_item_None l item n :
  find_item l item n = None -> forall i, (i < n)%nat -> l !! i <> Some item.
Proof.
  induction n as [|n IH]; simpl; [lia|]. case_decide; [done|]. intros Hf i Hi.
  destruct (decide (i = n)) as [->|]; [done|]. apply IH; [done | lia].
Qed.

Lemma front_wf c : wf c -> is_Some (front c).
Proof. intros H. by apply znth_is_Some. Qed.

Lemma wf_append c x : wf c -> wf (append c x).
Proof. unfold wf, append. simpl. jslia. Qed.

Lemma wf_set c x : wf c -> wf (set c x).
Proof.
  intros H. unfold set. destruct (find_item _ _ _) eqn:E; [|by apply wf_append].
  apply find_item_Some in E as [? _]. unfold wf, zlen. simpl. lia.
Qed.

Lemma wf_rotate c : wf c -> wf (rotate c).1.
Proof.
  unfold wf, rotate. intros H. repeat case_match; simpl; lia.
Qed.

(** After [set], the front is the given item when the ring holds it. *)
Lemma set_front c x : x ∈ data c -> front (set c x) = Some x /\ data (set c x) = data c.
Proof.
  intros Hx. unfold set. destruct (find_item _ _ _) as [i|] eqn:E.
  - apply find_item_Some in E as [? E]. unfold front, znth. simpl.
    rewrite decide_False by lia. by rewrite Nat2Z.id.
  - apply list_elem_of_lookup in Hx as [i Hi].
    destruct (find_item_None _ _ _ E i); [by eapply lookup_lt_Some | done].
Qed.

(** ... and when it does not, the item is only added: the front is unchanged. *)
Lemma set_absent c x : wf c -> x ∉ data c -> front (set c x) = front c.
Proof.
  intros Hw Hx. unfold set. destruct (find_item _ _ _) as [i|] eqn:E.
  - apply find_item_Some in E as [_ E]. by apply list_elem_of_lookup_2 in E.
  - destruct (front_wf c Hw) as [y Hy]. rewrite Hy. unfold front, append in *. simpl.
    unfold znth in *. case_decide; [done|]. by apply lookup_app_l_Some.
Qed.

Lemma rotate_pos c :
  wf c -> pos (rotate c).1 = (pos c + 1) mod zlen (data c)
    /\ data (rotate c).1 = data c.
Proof.
  unfold wf, rotate. intros H. repeat case_match; simpl; split; try done.
  - apply Z.eqb_eq in H0. rewrite H0. rewrite Z.mod_1_r. lia.
  - apply Z.eqb_eq in H1. replace (pos c + 1) with (zlen (data c)) by lia.
    by rewrite Z.mod_same by lia.
  - apply Z.eqb_neq in H1. symmetry. apply Z.mod_small. lia.
Qed.

(** [rotate] walks the ring in order. *)
Theorem rotate_iter c n :
  wf c ->
  pos (Nat.iter n (fun c => (rotate c).1) c) = (pos c + Z.of_nat n) mod zlen (data c)
  /\ data (Nat.iter n (fun c => (rotate c).1) c) = data c.
Proof.
  intros Hw. assert (forall k, wf (Nat.iter k (fun c => (rotate c).1) c)) as Hwk.
  { induction k as [|k IH]; simpl; [done | by apply wf_rotate]. }
  induction n as [|n [IHp IHd]].
  - simpl. split; [|done]. rewrite Z.mod_small; unfold wf in Hw; lia.
  - simpl Nat.iter. destruct (rotate_pos _ (Hwk n)) as [Hp Hd].
    rewrite Hp, Hd, IHp, IHd. split; [|done].
    rewrite Zplus_mod_idemp_l. f_equal. lia.
Qed.
End ops.
End Cycle.

(** ** [BCycle]: the ring of commands of the history *)
Module BCycle.

(** src/experiments/repl/src/main/webapp/terminal/jquery.terminal-0.3.3.js:678-680
    [BCycle]: the state. *)
Record t A := mk { data : list A; pos : Z }.
Arguments mk {A}. Arguments data {A}. Arguments pos {A}.

Section ops.
Context {A : Type}.

(** src/experiments/repl/src/main/webapp/terminal/jquery.terminal-0.3.3.js:678-680
    [BCycle(init)] called with an array or with nothing ([[]]). *)
Definition make (init : list A) : t A := {| data := init; pos := 0 |}.

(** src/experiments/repl/src/main/webapp/terminal/jquery.terminal-0.3.3.js:682-689
    [left] *)
Definition left (b : t A) : t A * option A :=
  let p := if pos b =? 0 then zlen (data b) - 1 else pos b - 1 in
  ({| data := data b; pos := p |}, znth (data b) p).

(** src/experiments/repl/src/main/webapp/terminal/jquery.terminal-0.3.3.js:690-697
    [right] *)
Definition right (b : t A) : t A * option A :=
  let p := if pos b =? zlen (data b) - 1 then 0 else pos b + 1 in
  ({| data := data b; pos := p |}, znth (data b) p).

(** src/experiments/repl/src/main/webapp/terminal/jquery.terminal-0.3.3.js:698-700
    [current] *)
Definition current (b : t A) : option A := znth (data b) (pos b).

(** src/experiments/repl/src/main/webapp/terminal/jquery.terminal-0.3.3.js:704-706
    [reset] *)
Definition reset (b : t A) : t A := {| data := data b; pos := 0 |}.

(** src/experiments/repl/src/main/webapp/terminal/jquery.terminal-0.3.3.js:707-710
    [append] *)
Definition append (b : t A) (item : A) : t A :=
  reset {| data := data b ++ [item]; pos := pos b |}.

Definition wf (b : t A) : Prop := 0 <= pos b < zlen (data b).

Lemma wf_bappend b x : wf (append b x).
Proof. unfold wf, append, reset. simpl. jslia. Qed.

Lemma wf_reset b : data b <> [] -> wf (reset b).
Proof.
  unfold wf, reset. simpl. intros H. split; [lia|].
  destruct (data b); [done|]. jslia.
Qed.

Lemma wf_left b : wf b -> wf (left b).1.
Proof. unfold wf, left. intros H. simpl. case_match; simpl; lia. Qed.

Lemma wf_right b : wf b -> wf (right b).1.
Proof. unfold wf, right. intros H. simpl. case_match; simpl; lia. Qed.

Lemma left_result b : wf b -> is_Some (left b).2.
Proof. intros H. apply znth_is_Some. apply (wf_left b H). Qed.

Lemma right_result b : wf b -> is_Some (right b).2.
Proof. intros H. apply znth_is_Some. apply (wf_right b H). Qed.

Lemma left_pos b : wf b -> pos (left b).1 = (pos b - 1) mod zlen (data b).
Proof.
  unfold wf, left. intros H. simpl. case_match; simpl.
  - apply Z.eqb_eq in H0. rewrite H0. apply (Z.mod_unique _ _ (-1)); lia.
  - apply Z.eqb_neq in H0. symmetry. apply Z.mod_small. lia.
Qed.

Lemma right_pos b : wf b -> pos (right b).1 = (pos b + 1) mod zlen (data b).
Proof.
  unfold wf, right. intros H. simpl. case_match; simpl.
  - apply Z.eqb_eq in H0. rewrite H0.
    replace (zlen (data b) - 1 + 1) with (zlen (data b)) by lia.
    by rewrite Z.mod_same by lia.
  - apply Z.eqb_neq in H0. symmetry. apply Z.mod_small. lia.
Qed.

Lemma left_snd b : (left b).2 = znth (data b) (pos (left b).1).
Proof. done. Qed.

(** Going back and forth are inverse moves. *)
Lemma right_left b : wf b -> (right (left b).1).1 = b.
Proof.
  intros Hw. pose proof (wf_left b Hw) as Hl. destruct b as [d p].
  unfold wf, left, right in *. simpl in *. f_equal.
  destruct (p =? 0) eqn:E; simpl.
  - apply Z.eqb_eq in E as ->. by rewrite Z.eqb_refl.
  - apply Z.eqb_neq in E. case_match; [|lia]. apply Z.eqb_eq in H. lia.
Qed.

Lemma left_right b : wf b -> (left (right b).1).1 = b.
Proof.
  intros Hw. destruct b as [d p]. unfold wf, left, right in *. simpl in *. f_equal.
  destruct (p =? zlen d - 1) eqn:E; simpl.
  - apply Z.eqb_eq in E. by rewrite <- E.
  - case_match; [|lia]. apply Z.eqb_eq in H. lia.
Qed.

(** [left], pressed [n] times from the reset position, shows the entries from
    the newest to the oldest. *)
Lemma left_iter b n :
  wf b ->
  wf (Nat.iter n (fun b => (left b).1) b)
  /\ pos (Nat.iter n (fun b => (left b).1) b) = (pos b - Z.of_nat n) mod zlen (data b)
  /\ data (Nat.iter n (fun b => (left b).1) b) = data b.
Proof.
  intros Hw. induction n as [|n (IHw & IHp & IHd)].
  - simpl. split_and!; [done | | done]. rewrite Z.mod_small; unfold wf in Hw; lia.
  - rewrite !Nat.iter_succ. split_and!; [by apply wf_left | | done].
    rewrite left_pos by done. rewrite IHp, IHd, Zminus_mod_idemp_l. f_equal. lia.
Qed.
End ops.
End BCycle.

(** ** [Stack]: the stack of interpreters *)
Module Stack.

(** src/experiments/repl/src/main/webapp/terminal/jquery.terminal-0.3.3.js:715-717
    [Stack]: the state. *)
Record t A := mk { data : list A }.
Arguments mk {A}. Arguments data {A}.

Section ops.
Context {A : Type}.

(** src/experiments/repl/src/main/webapp/terminal/jquery.terminal-0.3.3.js:715-717
    [Stack(init)] *)
Definition make (init : option A) : t A :=
  {| data := match init with Some x => [x] | None => [] end |}.

(** src/experiments/repl/src/main/webapp/terminal/jquery.terminal-0.3.3.js:718-720
    [size] *)
Definition size (s : t A) : Z := zlen (data s).

(** src/experiments/repl/src/main/webapp/terminal/jquery.terminal-0.3.3.js:721-729
    [pop] *)
Definition pop (s : t A) : t A * option A :=
  if zlen (data s) =? 0 then (s, None)
  else
    let value := znth (data s) (zlen (data s) - 1) in
    ({| data := ztake (zlen (data s) - 1) (data s) |}, value).

(** src/experiments/repl/src/main/webapp/terminal/jquery.terminal-0.3.3.js:730-733
    [push] *)
Definition push (s : t A) (value : A) : t A := {| data := data s ++ [value] |}.

(** src/experiments/repl/src/main/webapp/terminal/jquery.terminal-0.3.3.js:734-736
    [top] *)
Definition top (s : t A) : option A :=
  if 0 <? zlen (data s) then znth (data s) (zlen (data s) - 1) else None.

(** *** The abstract stack: a list with its top in front *)
Inductive op := OSize | OPop | OPush (v : A) | OTop.
Inductive answer := ASize (n : Z) | AItem (o : option A) | AUnit.

Definition run_op (s : t A) (o : op) : t A * answer :=
  match o with
  | OSize => (s, ASize (size s))
  | OPop => ((pop s).1, AItem (pop s).2)
  | OPush v => (push s v, AUnit)
  | OTop => (s, AItem (top s))
  end.

Definition spec_op (l : list A) (o : op) : list A * answer :=
  match o with
  | OSize => (l, ASize (zlen l))
  | OPop => (tail l, AItem (head l))
  | OPush v => (v :: l, AUnit)
  | OTop => (l, AItem (head l))
  end.

Fixpoint run_ops {S} (step : S -> op -> S * answer) (s : S) (os : list op) : list answer :=
  match os with
  | [] => []
  | o :: os => (step s o).2 :: run_ops step (step s o).1 os
  end.

Definition repr (s : t A) (l : list A) : Prop := data s = reverse l.

Lemma zlen_reverse (l : list A) : zlen (reverse l) = zlen l.
Proof. unfold zlen. by rewrite length_reverse. Qed.

Lemma pop_snoc l v : pop (mk (l ++ [v])) = (mk l, Some v).
Proof.
  unfold pop. simpl. destruct (_ =? 0) eqn:E; [apply Z.eqb_eq in E; jslia|].
  replace (zlen (l ++ [v]) - 1) with (zlen l) by jslia.
  by rewrite ztake_app_len, znth_app_len.
Qed.

Lemma top_snoc l v : top (mk (l ++ [v])) = Some v.
Proof.
  unfold top. simpl. destruct (0 <? _) eqn:E; [|apply Z.ltb_ge in E; jslia].
  replace (zlen (l ++ [v]) - 1) with (zlen l) by jslia. apply znth_app_len.
Qed.

Lemma push_pop s v : pop (push s v) = (s, Some v).
Proof. destruct s. apply pop_snoc. Qed.

Lemma repr_step s l o :
  repr s l -> repr (run_op s o).1 (spec_op l o).1 /\ (run_op s o).2 = (spec_op l o).2.
Proof.
  destruct s as [d]. unfold repr. simpl. intros ->. destruct o as [| |v|]; simpl.
  - split; [done|]. unfold size. simpl. by rewrite zlen_reverse.
  - destruct l as [|x l]; simpl; [done|]. rewrite reverse_cons, pop_snoc. done.
  - split; [|done]. by rewrite reverse_cons.
  - split; [done|]. destruct l as [|x l]; simpl; [done|]. by rewrite reverse_cons, top_snoc.
Qed.

(** Every sequence of calls answers as the abstract stack does. *)
Theorem stack_refines init os :
  run_ops run_op (make init) os
  = run_ops spec_op (match init with Some x => [x] | None => [] end) os.
Proof.
  assert (forall s l, repr s l -> run_ops run_op s os = run_ops spec_op l os) as H.
  { induction os as [|o os IH]; intros s l Hr; simpl; [done|].
    destruct (repr_step s l o Hr) as [Hr' ->]. f_equal. by apply IH. }
  apply H. by destruct init.
Qed.
End ops.
End Stack.
