(* ===== verification/Json.v ===== *)
(** * The serializer of the terminal

    [$.json_stringify] prints every nested value followed by a comma and repairs
    the separators afterwards with two regular expressions.  The file proves it
    equal to a plain printer on the values the repair does not damage, that what
    this writes is a text of the value in the grammar of JSON ([text_of], a
    relation of its own) where keys and texts need no other escapes, and that
    evaluating the printed history gives the history back. *)
From S2P Require Import Prelude JsString.
From Stdlib Require DecimalPos DecimalFacts.

Module Json.

(** The values [typeof] distinguishes; object properties in enumeration order. *)
Inductive jval :=
| VUndef
| VFun (source : jstring)
| VBool (b : bool)
| VNull
| VArr (l : list jval)
| VObj (l : list (jstring * jval))
| VStr (s : jstring)
| VNum (z : Z).

(** src/experiments/repl/src/main/webapp/terminal/jquery.terminal-0.3.3.js:773-785
    [json_stringify]: the replacement table [repl] applied to a string. *)
Definition escape_string (str : jstring) : jstring :=
  let str := replace_char c_bslash [c_bslash; c_bslash] str in
  let str := replace_char c_quote [c_bslash; c_quote] str in
  let str := replace_char c_slash [c_bslash; c_slash] str in
  let str := replace_char c_nl [c_bslash; c_n] str in
  let str := replace_char c_cr [c_bslash; c_r] str in
  replace_char c_tab [c_bslash; c_t] str.

Definition is_close (c : Z) : bool := (c =? c_rbrack) || (c =? c_rbrace).
Definition is_open (c : Z) : bool := (c =? c_lbrack) || (c =? c_lbrace).

(** src/experiments/repl/src/main/webapp/terminal/jquery.terminal-0.3.3.js:794-797
    [fix_last]: a comma in front of a closing bracket is dropped, everywhere. *)
Fixpoint fix_last (s : jstring) : jstring :=
  match s with
  | c :: ((d :: r) as s') =>
      if (c =? c_comma) && is_close d then d :: fix_last r else c :: fix_last s'
  | _ => s
  end.

(** src/experiments/repl/src/main/webapp/terminal/jquery.terminal-0.3.3.js:798-799
    [fix_open]: a comma after an opening bracket is dropped, everywhere. *)
Fixpoint fix_open (s : jstring) : jstring :=
  match s with
  | c :: ((d :: r) as s') =>
      if is_open c && (d =? c_comma) then c :: fix_open r else c :: fix_open s'
  | _ => s
  end.

(** src/experiments/repl/src/main/webapp/terminal/jquery.terminal-0.3.3.js:792-799
    [json_stringify]: from the accumulated [result] to the return value. *)
Definition finish (level : Z) (result : jstring) : jstring :=
  let result := result ++ (if 1 <? level then [c_comma] else []) in
  let result := if level =? 1 then fix_last result else result in
  fix_open result.

(** src/experiments/repl/src/main/webapp/terminal/jquery.terminal-0.3.3.js:740-800
    [json_stringify(object, level)].  The last element of an array is read as
    [object[len - 1]], [undefined] when the array is empty. *)
Fixpoint json_stringify (object : jval) (level : Z) : jstring :=
  finish level
    match object with
    | VUndef => []
    | VFun source => source
    | VBool b => if b then js "true" else js "false"
    | VNull => js "null"
    | VArr l =>
        [c_lbrack]
        ++ match l with
           | [] => finish (level + 1) []
           | _ =>
               (fix elements (l : list jval) : jstring :=
                  match l with
                  | [] => []
                  | x :: l => json_stringify x (level + 1) ++ elements l
                  end) l
           end
        ++ [c_rbrack]
    | VObj l =>
        [c_lbrace]
        ++ (fix properties (l : list (jstring * jval)) : jstring :=
              match l with
              | [] => []
              | (k, x) :: l =>
                  ([c_quote] ++ k ++ [c_quote; c_colon] ++ json_stringify x (level + 1))
                  ++ properties l
              end) l
        ++ [c_rbrace]
    | VStr s => [c_quote] ++ escape_string s ++ [c_quote]
    | VNum z => num_str z
    end.

(** ** The reference printer *)
Definition quoted (s : jstring) : jstring := [c_quote] ++ s ++ [c_quote].

Fixpoint json_ref (v : jval) : jstring :=
  match v with
  | VUndef => []
  | VFun source => source
  | VBool b => if b then js "true" else js "false"
  | VNull => js "null"
  | VArr l => [c_lbrack] ++ join [c_comma] (map json_ref l) ++ [c_rbrack]
  | VObj l =>
      [c_lbrace]
      ++ join [c_comma] (map (fun p => quoted p.1 ++ [c_colon] ++ json_ref p.2) l)
      ++ [c_rbrace]
  | VStr s => quoted (escape_string s)
  | VNum z => num_str z
  end.

(** ** Strings that the two repairs leave alone *)
Fixpoint adj (bad : Z -> Z -> bool) (s : jstring) : bool :=
  match s with
  | c :: ((d :: _) as s') => negb (bad c d) && adj bad s'
  | _ => true
  end.

Definition bad_last (c d : Z) : bool := (c =? c_comma) && is_close d.
Definition bad_open (c d : Z) : bool := is_open c && (d =? c_comma).

(** No comma next to a bracket on its inner side. *)
Definition undamaged (s : jstring) : bool := adj bad_last s && adj bad_open s.

(** Values for which the serializer is meant: no [undefined], no function, and
    no string that looks like a misplaced separator. *)
Fixpoint clean (v : jval) : bool :=
  match v with
  | VUndef | VFun _ => false
  | VArr l => forallb clean l
  | VObj l => forallb (fun p => undamaged p.1 && clean p.2) l
  | VStr s => undamaged s
  | _ => true
  end.

Definition escape1 (c : Z) : jstring :=
  if c =? c_bslash then [c_bslash; c_bslash] else
  if c =? c_quote then [c_bslash; c_quote] else
  if c =? c_slash then [c_bslash; c_slash] else
  if c =? c_nl then [c_bslash; c_n] else
  if c =? c_cr then [c_bslash; c_r] else
  if c =? c_tab then [c_bslash; c_t] else [c].

(** ** Lemmas *)
Section jval_induction.
Variable P : jval -> Prop.
Hypothesis HU : P VUndef.
Hypothesis HF : forall s, P (VFun s).
Hypothesis HB : forall b, P (VBool b).
Hypothesis HN : P VNull.
Hypothesis HA : forall l, Forall P l -> P (VArr l).
Hypothesis HO : forall l, Forall (fun p => P p.2) l -> P (VObj l).
Hypothesis HS : forall s, P (VStr s).
Hypothesis HZ : forall z, P (VNum z).

(** Induction through the lists of elements and properties. *)
Fixpoint jval_nested_ind (v : jval) : P v :=
  match v with
  | VUndef => HU | VFun s => HF s | VBool b => HB b | VNull => HN
  | VArr l => HA l
      ((fix go (l : list jval) : Forall P l :=
          match l with
          | [] => List.Forall_nil _
          | x :: l => List.Forall_cons _ _ _ (jval_nested_ind x) (go l)
          end) l)
  | VObj l => HO l
      ((fix go (l : list (jstring * jval)) : Forall (fun p => P p.2) l :=
          match l with
          | [] => List.Forall_nil _
          | x :: l => List.Forall_cons _ _ _ (jval_nested_ind x.2) (go l)
          end) l)
  | VStr s => HS s | VNum z => HZ z
  end.
End jval_induction.

Lemma escape_string_flat s : escape_string s = List.flat_map escape1 s.
Proof.
  unfold escape_string.
  change (replace_char c_bslash [c_bslash; c_bslash] s)
    with (List.flat_map (fun x => if x =? c_bslash then [c_bslash; c_bslash] else [x]) s).
  rewrite !replace_char_flat_map. apply List.flat_map_ext. intros c. unfold escape1.
  destruct (c =? c_bslash); [reflexivity|].
  do 5 (rewrite replace_char1;
    match goal with |- context [c =? ?k] => destruct (c =? k) end; [reflexivity|]).
  reflexivity.
Qed.

(** *** Adjacent pairs *)
Definition open_ok (s : jstring) : Prop := adj bad_open s = true.
Definition last_ok (s : jstring) : Prop := adj bad_last s = true.
Definition starts_ok (s : jstring) : Prop :=
  exists c r, s = c :: r /\ c <> c_comma /\ is_close c = false.
Definition ends_ok (s : jstring) : Prop :=
  exists r c, s = r ++ [c] /\ c <> c_comma /\ is_open c = false.

Lemma adj_cons bad c d r : adj bad (c :: d :: r) = negb (bad c d) && adj bad (d :: r).
Proof. done. Qed.

Lemma fix_open_cons2 c d r :
  fix_open (c :: d :: r)
  = if is_open c && (d =? c_comma) then c :: fix_open r else c :: fix_open (d :: r).
Proof. done. Qed.

Lemma fix_last_cons2 c d r :
  fix_last (c :: d :: r)
  = if (c =? c_comma) && is_close d then d :: fix_last r else c :: fix_last (d :: r).
Proof. done. Qed.

Lemma adj_app bad a c d b :
  adj bad (a ++ [c]) = true -> adj bad (d :: b) = true -> bad c d = false ->
  adj bad (a ++ c :: d :: b) = true.
Proof.
  intros Ha Hb Hcd. induction a as [|x a IH].
  - cbn [app]. rewrite adj_cons, Hcd. done.
  - destruct a as [|y a]; cbn [app] in *; rewrite adj_cons in *;
      apply andb_true_iff in Ha as [Hx Ha]; rewrite Hx; by apply IH.
Qed.

Lemma open_app a b : open_ok a -> open_ok b -> ends_ok a \/ starts_ok b -> open_ok (a ++ b).
Proof.
  unfold open_ok. intros Ha Hb H.
  destruct b as [|d b]; [by rewrite app_nil_r|].
  destruct a as [|c a _] using rev_ind; [done|]. rewrite <- app_assoc. cbn [app].
  apply adj_app; [done | done |]. unfold bad_open. apply andb_false_iff.
  destruct H as [(r & c' & E & _ & Hc)|(d' & r & E & Hd & _)].
  - apply app_inj_tail in E as [-> ->]. by left.
  - simplify_eq. right. by apply Z.eqb_neq.
Qed.

Lemma fix_open_id s : open_ok s -> fix_open s = s.
Proof.
  unfold open_ok. induction s as [|c s IH]; [done|]. destruct s as [|d s]; [done|].
  rewrite adj_cons, andb_true_iff, negb_true_iff. intros [H1 H2].
  rewrite fix_open_cons2. unfold bad_open in H1. rewrite H1. by rewrite IH.
Qed.

Lemma fix_last_cons c t : c <> c_comma -> fix_last (c :: t) = c :: fix_last t.
Proof.
  intros Hc. destruct t as [|d t]; [done|]. rewrite fix_last_cons2.
  by rewrite (proj2 (Z.eqb_neq c c_comma) Hc).
Qed.

Lemma fix_last_sep t : starts_ok t -> fix_last (c_comma :: t) = c_comma :: fix_last t.
Proof. intros (d & r & -> & _ & Hd). by rewrite fix_last_cons2, Hd. Qed.

Lemma fix_last_app a t : last_ok a -> ends_ok a -> fix_last (a ++ t) = a ++ fix_last t.
Proof.
  unfold last_ok. intros Ha (r & c & -> & Hc & _). revert Ha.
  induction r as [|x r IH]; intros Ha; [by apply fix_last_cons|].
  assert (exists y q, r ++ [c] = y :: q) as (y & q & E) by (destruct r; eauto).
  rewrite <- !app_comm_cons, E in *. rewrite adj_cons, andb_true_iff, negb_true_iff in Ha.
  destruct Ha as [H1 H2]. rewrite <- !app_comm_cons, fix_last_cons2.
  unfold bad_last in H1. rewrite H1. rewrite <- app_comm_cons in IH. by rewrite IH.
Qed.

Lemma ends_ok_cons c s : ends_ok s -> ends_ok (c :: s).
Proof. intros (r & d & -> & H). exists (c :: r), d. done. Qed.

Lemma ends_ok_app a b : ends_ok b -> ends_ok (a ++ b).
Proof. intros (r & d & -> & H). exists (a ++ r), d. by rewrite app_assoc. Qed.

Lemma ends_ok_last a c : c <> c_comma -> is_open c = false -> ends_ok (a ++ [c]).
Proof. intros. by exists a, c. Qed.

Lemma starts_ok_app a b : starts_ok a -> starts_ok (a ++ b).
Proof. intros (c & r & -> & H). exists c, (r ++ b). done. Qed.

Lemma starts_ok_cons c s : c <> c_comma -> is_close c = false -> starts_ok (c :: s).
Proof. intros. by exists c, s. Qed.

Lemma open_cons c s : is_open c = false -> open_ok s -> open_ok (c :: s).
Proof.
  unfold open_ok. intros Hc Hs. destruct s; [done|].
  rewrite adj_cons, Hs. unfold bad_open. by rewrite Hc.
Qed.

(** *** [item i r]: what the serializer writes inside ([i]) is repaired to [r] *)
Record item (i r : jstring) : Prop := Item {
  item_start : starts_ok i;  item_end : ends_ok i;  item_open : open_ok i;
  item_start_ref : starts_ok r;  item_end_ref : ends_ok r;  item_open_ref : open_ok r;
  item_fix : forall t, fix_last (i ++ t) = r ++ fix_last t }.

Lemma item_atom a : starts_ok a -> ends_ok a -> open_ok a -> last_ok a -> item a a.
Proof. intros. split; try done. intros. by apply fix_last_app. Qed.

Lemma item_member k i r :
  undamaged k = true -> item i r ->
  item ([c_quote] ++ k ++ [c_quote; c_colon] ++ i) ((quoted k ++ [c_colon]) ++ r).
Proof.
  unfold undamaged. rewrite andb_true_iff. intros [Hl Ho] [].
  assert (open_ok ([c_quote] ++ k ++ [c_quote; c_colon])) as Hko.
  { apply open_cons; [done|]. apply open_app; [done|done|]. right. by apply starts_ok_cons. }
  assert (last_ok ([c_quote] ++ k ++ [c_quote; c_colon])) as Hkl.
  { unfold last_ok in *. change ([c_quote] ++ k ++ [c_quote; c_colon])
      with ((c_quote :: k) ++ [c_quote; c_colon]).
    destruct k as [|c k _] using rev_ind; [done|].
    rewrite app_comm_cons, <- app_assoc. cbn [app]. apply (adj_app _ (c_quote :: k)).
    - cbn [app]. destruct k; [done|]. cbn [app] in *. by rewrite adj_cons.
    - done.
    - unfold bad_last. by rewrite andb_false_r. }
  unfold quoted. rewrite <- !app_assoc.
  rewrite (app_assoc k [c_quote; c_colon]), (app_assoc [c_quote] (k ++ _)).
  change ([c_quote] ++ [c_colon] ++ r) with ([c_quote; c_colon] ++ r).
  rewrite (app_assoc k [c_quote; c_colon] r), (app_assoc [c_quote] (k ++ _) r).
  assert (ends_ok ([c_quote] ++ k ++ [c_quote; c_colon])) as Hke.
  { apply ends_ok_app, ends_ok_app. by exists [c_quote], c_colon. }
  split.
  - by apply starts_ok_app, starts_ok_cons.
  - by apply ends_ok_app.
  - apply open_app; [done | done |]. by left.
  - by apply starts_ok_app, starts_ok_cons.
  - by apply ends_ok_app.
  - apply open_app; [done | done |]. by left.
  - intros t. rewrite <- app_assoc, fix_last_app by done. rewrite item_fix0. by rewrite app_assoc.
Qed.

Definition commas (qs : list jstring) : jstring := concat (map (fun i => i ++ [c_comma]) qs).

Lemma item_list_open qs rs c :
  Forall2 item qs rs -> is_close c = true -> open_ok (commas qs ++ [c]).
Proof.
  intros H Hc. induction H as [|i r qs rs Hi _ IH]; [done|].
  unfold commas in *. cbn [map concat]. rewrite <- !app_assoc.
  apply open_app; [apply Hi | | left; apply Hi]. by apply open_cons.
Qed.

Lemma join_cons2 sep a b l : join sep (a :: b :: l) = a ++ sep ++ join sep (b :: l).
Proof. done. Qed.

Lemma item_list_ref_open qs rs c :
  Forall2 item qs rs -> is_close c = true -> open_ok (join [c_comma] rs ++ [c]).
Proof.
  intros H Hc. induction H as [|i r qs rs Hi Hrs IH]; [done|].
  destruct Hrs as [|i' r' qs rs Hi' Hrs].
  - simpl. apply open_app; [apply Hi | done |]. left. apply Hi.
  - rewrite join_cons2, <- !app_assoc.
    apply open_app; [apply Hi | | left; apply Hi]. by apply open_cons.
Qed.

Lemma item_list_fix qs rs c t :
  Forall2 item qs rs -> is_close c = true -> c <> c_comma ->
  fix_last (commas qs ++ c :: t) = join [c_comma] rs ++ c :: fix_last t.
Proof.
  intros H Hc Hcc. induction H as [|i r qs rs Hi Hrs IH].
  - by apply fix_last_cons.
  - unfold commas in *. cbn [map concat]. rewrite <- !app_assoc, (item_fix _ _ Hi).
    destruct Hrs as [|i' r' qs rs Hi' Hrs].
    + simpl join. cbn [concat map app]. by rewrite fix_last_cons2, Hc.
    + rewrite join_cons2, <- !app_assoc. cbn [app].
      rewrite fix_last_sep; [by rewrite IH|].
      cbn [map concat]. rewrite <- !app_assoc. apply starts_ok_app, Hi'.
Qed.

Lemma starts_ok_join qs rs : Forall2 item qs rs -> rs <> [] -> starts_ok (join [c_comma] rs).
Proof.
  intros H Hn. destruct H as [|i r qs rs Hi Hrs]; [done|].
  destruct Hrs; [apply Hi | apply starts_ok_app, Hi].
Qed.

Lemma starts_ok_commas qs rs : Forall2 item qs rs -> rs <> [] -> starts_ok (commas qs).
Proof.
  intros H Hn. destruct H as [|i r qs rs Hi Hrs]; [done|].
  unfold commas. simpl. rewrite <- app_assoc. apply starts_ok_app, Hi.
Qed.

(** Brackets around a list of items. *)
Lemma item_list qs rs bo bc :
  Forall2 item qs rs ->
  is_open bo = true -> is_close bo = false -> bo <> c_comma ->
  is_close bc = true -> is_open bc = false -> bc <> c_comma ->
  item (bo :: commas qs ++ [bc]) (bo :: join [c_comma] rs ++ [bc]).
Proof.
  intros H Ho1 Ho2 Ho3 Hc1 Hc2 Hc3.
  assert (open_ok [bo]) by done.
  assert (forall s, (s = [] \/ starts_ok s) -> open_ok (s ++ [bc]) -> open_ok (bo :: s ++ [bc])) as Hop.
  { intros s Hs Hb. unfold open_ok in *. destruct Hs as [-> |(c & r & -> & Hc & _)].
    - simpl. unfold bad_open. rewrite (proj2 (Z.eqb_neq _ _) Hc3). by rewrite andb_false_r.
    - cbn [app] in *. rewrite adj_cons, Hb. unfold bad_open.
      rewrite (proj2 (Z.eqb_neq _ _) Hc). by rewrite andb_false_r. }
  split.
  - by apply starts_ok_cons.
  - by apply ends_ok_cons, ends_ok_last.
  - apply Hop; [|by eapply item_list_open]. destruct H; [by left|].
    right. eapply starts_ok_commas; [by constructor | done].
  - by apply starts_ok_cons.
  - by apply ends_ok_cons, ends_ok_last.
  - apply Hop; [|by eapply item_list_ref_open]. destruct H; [by left|].
    right. eapply starts_ok_join; [by constructor | done].
  - intros t. cbn [app]. rewrite <- !app_assoc. cbn [app].
    rewrite fix_last_cons by done. rewrite (item_list_fix _ rs) by done. done.
Qed.

(** *** The atoms: numbers, literals, strings *)
Definition plain_char (c : Z) : bool :=
  negb (c =? c_comma) && negb (is_close c) && negb (is_open c).

Lemma plain_atom s : s <> [] -> forallb plain_char s = true -> item s s.
Proof.
  intros Hn Hs.
  assert (forall bad, (forall c d, plain_char c = true -> plain_char d = true -> bad c d = false) ->
            adj bad s = true) as Hadj.
  { intros bad Hb. clear Hn. induction s as [|c s IH]; [done|]. destruct s as [|d s]; [done|].
    cbn [forallb] in Hs. apply andb_true_iff in Hs as [Hc Hs].
    pose proof Hs as Hs'. apply andb_true_iff in Hs' as [Hd _].
    rewrite adj_cons, (Hb c d), IH by done. done. }
  assert (forall c, plain_char c = true -> c <> c_comma /\ is_close c = false /\ is_open c = false) as Hp.
  { intros c. unfold plain_char. rewrite !andb_true_iff, !negb_true_iff, Z.eqb_neq. tauto. }
  apply item_atom.
  - destruct s as [|c s]; [done|]. cbn [forallb] in Hs. apply andb_true_iff in Hs as [Hc _].
    destruct (Hp c Hc) as (? & ? & ?). by apply starts_ok_cons.
  - destruct s as [|c s _] using rev_ind; [done|]. rewrite forallb_app in Hs.
    apply andb_true_iff in Hs as [_ Hs]. cbn [forallb] in Hs.
    apply andb_true_iff in Hs as [Hc _]. destruct (Hp c Hc) as (? & ? & ?). by apply ends_ok_last.
  - apply Hadj. intros c d Hc Hd. unfold bad_open.
    destruct (Hp c Hc) as (_ & _ & ->). done.
  - apply Hadj. intros c d Hc Hd. unfold bad_last.
    destruct (Hp d Hd) as (_ & -> & _). by rewrite andb_false_r.
Qed.

Lemma uint_plain d : forallb plain_char (js (DecimalString.NilEmpty.string_of_uint d)) = true.
Proof. induction d; simpl; done. Qed.

Lemma num_str_plain z : num_str z <> [] /\ forallb plain_char (num_str z) = true.
Proof.
  unfold num_str. destruct (Z.to_int z) as [d|d]; simpl.
  - unfold DecimalString.NilZero.string_of_uint.
    destruct d; simpl; (split; [done|]); try done; apply uint_plain.
  - split; [done|]. unfold DecimalString.NilZero.string_of_uint.
    destruct d; simpl; try done; apply uint_plain.
Qed.

Lemma item_num z : item (num_str z) (num_str z).
Proof. destruct (num_str_plain z). by apply plain_atom. Qed.

(** Escaping never creates a pair of characters that the repairs look for:
    an escape starts with a backslash and ends with a character that is neither
    a comma nor a bracket. *)
Lemma escape1_cases c :
  escape1 c = [c] \/ exists d, escape1 c = [c_bslash; d] /\ plain_char d = true.
Proof.
  unfold escape1. repeat (case_match; [right; eexists; split; [done | done]|]). by left.
Qed.

Lemma escape_first s : s = [] \/
  exists d r r', List.flat_map escape1 s = d :: r /\ (d = c_bslash \/ s = d :: r').
Proof.
  destruct s as [|c s]; [by left|]. right. simpl.
  destruct (escape1_cases c) as [->|(d & -> & _)]; eexists _, _, s; simpl; eauto.
Qed.

Lemma escape_open_ok s : open_ok s -> open_ok (List.flat_map escape1 s).
Proof.
  unfold open_ok. induction s as [|c s IH]; [done|]. intros Hs.
  assert (adj bad_open s = true) as Hs'.
  { destruct s; [done|]. rewrite adj_cons in Hs. by apply andb_true_iff in Hs as [_ ?]. }
  specialize (IH Hs'). cbn [List.flat_map].
  assert (forall x, (is_open x = false \/ x = c) ->
    adj bad_open (x :: List.flat_map escape1 s) = true) as Hx.
  { intros x Hx. destruct (escape_first s) as [->|(d & r & r' & E & Hd)]; [done|].
    rewrite E in *. rewrite adj_cons, IH, andb_true_r, negb_true_iff. unfold bad_open.
    destruct Hx as [-> | ->]; [done|]. destruct Hd as [-> | ->]; [by rewrite andb_false_r|].
    rewrite adj_cons in Hs. apply andb_true_iff in Hs as [Hs _]. by apply negb_true_iff in Hs. }
  destruct (escape1_cases c) as [->|(d & -> & Hd)]; cbn [app]; [by apply Hx; right|].
  rewrite adj_cons. cbn [negb andb bad_open]. apply Hx. left.
  unfold plain_char in Hd. rewrite !andb_true_iff, !negb_true_iff in Hd. tauto.
Qed.

Lemma escape_last_ok s : last_ok s -> last_ok (List.flat_map escape1 s).
Proof.
  unfold last_ok. induction s as [|c s IH]; [done|]. intros Hs.
  assert (adj bad_last s = true) as Hs'.
  { destruct s; [done|]. rewrite adj_cons in Hs. by apply andb_true_iff in Hs as [_ ?]. }
  specialize (IH Hs'). cbn [List.flat_map].
  assert (forall x, (x <> c_comma \/ x = c) ->
    adj bad_last (x :: List.flat_map escape1 s) = true) as Hx.
  { intros x Hx. destruct (escape_first s) as [->|(d & r & r' & E & Hd)]; [done|].
    rewrite E in *. rewrite adj_cons, IH, andb_true_r, negb_true_iff. unfold bad_last.
    destruct Hx as [Hx | ->]; [by rewrite (proj2 (Z.eqb_neq _ _) Hx)|].
    destruct Hd as [-> | ->]; [by rewrite andb_false_r|].
    rewrite adj_cons in Hs. apply andb_true_iff in Hs as [Hs _]. by apply negb_true_iff in Hs. }
  destruct (escape1_cases c) as [->|(d & -> & Hd)]; cbn [app]; [by apply Hx; right|].
  rewrite adj_cons. cbn [negb andb bad_last]. apply Hx. left.
  unfold plain_char in Hd. rewrite !andb_true_iff, !negb_true_iff in Hd.
  by apply Z.eqb_neq, Hd.
Qed.

Lemma item_str s : undamaged s = true -> item (quoted (escape_string s)) (quoted (escape_string s)).
Proof.
  unfold undamaged. rewrite andb_true_iff. intros [Hl Ho].
  rewrite escape_string_flat. apply escape_last_ok in Hl. apply escape_open_ok in Ho.
  unfold quoted. apply item_atom.
  - by apply starts_ok_cons.
  - apply ends_ok_app. by apply ends_ok_last.
  - apply open_cons; [done|]. apply open_app; [done | done |]. right. by apply starts_ok_cons.
  - unfold last_ok in *. generalize dependent (List.flat_map escape1 s). intros e Hl _.
    destruct e as [|c e _] using rev_ind; [done|].
    rewrite <- app_assoc. cbn [app]. apply (adj_app _ (c_quote :: e)); [|done|].
    + cbn [app]. destruct e; [done|]. cbn [app] in *. by rewrite adj_cons.
    + unfold bad_last. by rewrite andb_false_r.
Qed.

(** *** The serializer *)
Lemma finish_inner level i r : 1 < level -> item i r -> finish level i = i ++ [c_comma].
Proof.
  intros Hl Hi. unfold finish. destruct (1 <? level) eqn:E; [|lia].
  destruct (level =? 1) eqn:E1; [lia|].
  apply fix_open_id, open_app; [apply Hi | done | left; apply Hi].
Qed.

Lemma finish_top i r : item i r -> finish 1 i = r.
Proof.
  intros Hi. unfold finish. simpl. rewrite app_nil_r.
  replace (fix_last i) with r; [apply fix_open_id, Hi|].
  pose proof (item_fix _ _ Hi []) as H. simpl in H. by rewrite !app_nil_r in H.
Qed.

(** What the serializer has produced for [v]: [i ++ ","] inside, [r] on top. *)
Definition printed (v : jval) : Prop :=
  exists i, item i (json_ref v)
    /\ (forall level, 1 < level -> json_stringify v level = i ++ [c_comma])
    /\ json_stringify v 1 = json_ref v.

Lemma printed_atom v i :
  (forall level, json_stringify v level = finish level i) -> item i i -> json_ref v = i -> printed v.
Proof.
  intros H Hi E. exists i. rewrite E. split_and!; [done | |].
  - intros level Hl. rewrite H. by apply (finish_inner _ _ i).
  - rewrite H. by apply finish_top.
Qed.

Lemma printed_arr l : Forall printed l -> printed (VArr l).
Proof.
  intros H. destruct (decide (l = [])) as [->|Hne].
  { exists [c_lbrack; c_rbrack]. assert (item [c_lbrack; c_rbrack] [c_lbrack; c_rbrack]) as Hi.
    { by apply (item_list [] []). }
    split_and!; [done| |done]. intros level Hl. cbn [json_stringify].
    unfold finish. destruct (1 <? level) eqn:E; [|lia].
    destruct (1 <? level + 1) eqn:E'; [|lia]. destruct (level =? 1) eqn:E1; [lia|].
    destruct (level + 1 =? 1) eqn:E2; [lia|]. done. }
  assert (exists qs, Forall2 item qs (map json_ref l) /\ forall level, 1 < level ->
    (fix elements (l : list jval) : jstring :=
       match l with [] => [] | x :: l => json_stringify x level ++ elements l end) l = commas qs)
    as (qs & Hqs & He).
  { clear Hne. induction H as [|v l (i & Hi & Hin & _) _ (qs & Hqs & He)]; [by exists []|].
    exists (i :: qs). split; [by constructor|]. intros level Hl.
    rewrite Hin, He by done. done. }
  assert (item (c_lbrack :: commas qs ++ [c_rbrack]) (json_ref (VArr l))) as Hi by by apply item_list.
  exists (c_lbrack :: commas qs ++ [c_rbrack]). split_and!; [done | |].
  - intros level Hl. rewrite <- (finish_inner level _ _ Hl Hi). cbn [json_stringify].
    destruct l; [done|]. rewrite He by lia. done.
  - rewrite <- (finish_top _ _ Hi). cbn [json_stringify].
    destruct l; [done|]. rewrite He by lia. done.
Qed.

Lemma printed_obj l :
  Forall (fun p => undamaged p.1 = true /\ printed p.2) l -> printed (VObj l).
Proof.
  intros H.
  assert (exists qs, Forall2 item qs (map (fun p => quoted p.1 ++ [c_colon] ++ json_ref p.2) l)
    /\ forall level, 1 < level ->
    (fix properties (l : list (jstring * jval)) : jstring :=
       match l with
       | [] => []
       | (k, x) :: l =>
           ([c_quote] ++ k ++ [c_quote; c_colon] ++ json_stringify x level) ++ properties l
       end) l = commas qs) as (qs & Hqs & He).
  { induction H as [|[k v] l [Hk (i & Hi & Hin & _)] _ (qs & Hqs & He)]; [by exists []|].
    exists (([c_quote] ++ k ++ [c_quote; c_colon] ++ i) :: qs). split.
    - constructor; [|done]. cbn [fst snd].
      rewrite (app_assoc (quoted k)). by apply item_member.
    - intros level Hl. rewrite Hin, He by done. unfold commas. cbn [map concat].
      by rewrite <- !app_assoc. }
  assert (item (c_lbrace :: commas qs ++ [c_rbrace]) (json_ref (VObj l))) as Hi by by apply item_list.
  exists (c_lbrace :: commas qs ++ [c_rbrace]). split_and!; [done | |].
  - intros level Hl. rewrite <- (finish_inner level _ _ Hl Hi). cbn [json_stringify].
    by rewrite He by lia.
  - rewrite <- (finish_top _ _ Hi). cbn [json_stringify]. by rewrite He by lia.
Qed.

Lemma clean_printed v : clean v = true -> printed v.
Proof.
  induction v as [|src|b| |l IH|l IH|s|z] using jval_nested_ind; intros Hc; try done.
  - apply (printed_atom _ (if b then js "true" else js "false")); [done | | done].
    destruct b; by apply plain_atom.
  - apply (printed_atom _ (js "null")); [done | by apply plain_atom | done].
  - apply printed_arr. cbn [clean] in Hc.
    rewrite Forall_forall in *. intros v Hv. apply IH; [done|].
    rewrite forallb_forall in Hc. apply Hc. by apply list_elem_of_In.
  - apply printed_obj. cbn [clean] in Hc. rewrite forallb_forall in Hc.
    rewrite Forall_forall in *. intros p Hp. specialize (Hc p (proj1 (list_elem_of_In _ _) Hp)).
    apply andb_true_iff in Hc as [Hk Hv]. split; [done|]. by apply IH.
  - apply (printed_atom _ (quoted (escape_string s))); [done | by apply item_str | done].
  - apply (printed_atom _ (num_str z)); [done | apply item_num | done].
Qed.

Lemma json_stringify_clean v : clean v = true -> json_stringify v 1 = json_ref v.
Proof. intros Hc. by destruct (clean_printed v Hc) as (i & _ & _ & ?). Qed.

(** ** The JSON grammar

    RFC 8259, independently of the serializer: which texts denote a value.  A
    value may have many texts; numbers are restricted to integers without
    fraction and exponent. *)

(** A character of a string: itself, unless it is a quote, a backslash or a control
    character; one of the eight short escapes; or four hexadecimal digits. *)
Definition hex_value (c : Z) : Z := if c <=? 57 then c - 48 else if c <=? 70 then c - 55 else c - 87.
Inductive char_text : Z -> jstring -> Prop :=
  | char_plain c : 32 <= c -> c <> c_quote -> c <> c_bslash -> char_text c [c]
  | char_quote : char_text c_quote [c_bslash; c_quote]
  | char_bslash : char_text c_bslash [c_bslash; c_bslash]
  | char_slash : char_text c_slash [c_bslash; c_slash]
  | char_b : char_text 8 [c_bslash; c_b]
  | char_f : char_text 12 [c_bslash; 102]
  | char_n : char_text c_nl [c_bslash; c_n]
  | char_r : char_text c_cr [c_bslash; c_r]
  | char_t : char_text c_tab [c_bslash; c_t]
  | char_hex h1 h2 h3 h4 : Forall (fun h => is_hex h = true) [h1; h2; h3; h4] ->
      char_text (4096 * hex_value h1 + 256 * hex_value h2 + 16 * hex_value h3 + hex_value h4)
        [c_bslash; c_u; h1; h2; h3; h4].

Definition string_text (s t : jstring) : Prop :=
  exists ts, Forall2 char_text s ts /\ t = c_quote :: concat ts ++ [c_quote].

(** Decimal digits without a leading zero, and the number they are. *)
Definition natural (ds : jstring) : Prop :=
  ds <> [] /\ Forall (fun c => is_digit c = true) ds /\ (head ds = Some 48 -> ds = [48]).
Definition decimal (ds : jstring) : Z := fold_left (fun a c => 10 * a + (c - 48)) ds 0.
Inductive int_text : Z -> jstring -> Prop :=
  | int_nat ds : natural ds -> int_text (decimal ds) ds
  | int_neg ds : natural ds -> int_text (- decimal ds) (c_dash :: ds).

Definition json_white (c : Z) : bool := (c =? 32) || (c =? c_tab) || (c =? c_nl) || (c =? c_cr).

Inductive text_of : jval -> jstring -> Prop :=
  | text_null : text_of VNull (js "null")
  | text_true : text_of (VBool true) (js "true")
  | text_false : text_of (VBool false) (js "false")
  | text_int z t : int_text z t -> text_of (VNum z) t
  | text_string s t : string_text s t -> text_of (VStr s) t
  | text_array l ts : elements_of l ts -> text_of (VArr l) (c_lbrack :: join [c_comma] ts ++ [c_rbrack])
  | text_object l ts : members_of l ts -> text_of (VObj l) (c_lbrace :: join [c_comma] ts ++ [c_rbrace])
  | text_before w v t : forallb json_white w = true -> text_of v t -> text_of v (w ++ t)
  | text_after w v t : forallb json_white w = true -> text_of v t -> text_of v (t ++ w)
with elements_of : list jval -> list jstring -> Prop :=
  | elements_nil : elements_of [] []
  | elements_cons v l t ts : text_of v t -> elements_of l ts -> elements_of (v :: l) (t :: ts)
with members_of : list (jstring * jval) -> list jstring -> Prop :=
  | members_nil : members_of [] []
  | members_cons k v l kt w t ts :
      string_text k kt -> forallb json_white w = true -> text_of v t -> members_of l ts ->
      members_of ((k, v) :: l) ((kt ++ w ++ [c_colon] ++ t) :: ts).

(** Strings without a control character but tab, newline and carriage return, and
    keys without any character that has to be escaped. *)
Definition printable (s : jstring) : bool :=
  forallb (fun c => (32 <=? c) || (c =? c_tab) || (c =? c_nl) || (c =? c_cr)) s.
Definition plain_key (k : jstring) : bool :=
  forallb (fun c => (32 <=? c) && negb (c =? c_quote) && negb (c =? c_bslash)) k.

(** Values that the serializer writes as JSON: no [undefined] and no function, no
    string with a comma on the inner side of a bracket or with another control
    character, and no key that would have to be escaped. *)
Fixpoint standard (v : jval) : bool :=
  match v with
  | VUndef | VFun _ => false
  | VArr l => forallb standard l
  | VObj l => forallb (fun p => undamaged p.1 && plain_key p.1 && standard p.2) l
  | VStr s => undamaged s && printable s
  | _ => true
  end.

Lemma escape1_text c :
  (32 <=? c) || (c =? c_tab) || (c =? c_nl) || (c =? c_cr) = true -> char_text c (escape1 c).
Proof.
  intros Hc.
  assert ((c <> 92 /\ c <> 34 /\ c <> 47 /\ c <> 10 /\ c <> 13 /\ c <> 9)
    \/ c = 92 \/ c = 34 \/ c = 47 \/ c = 10 \/ c = 13 \/ c = 9) as [(? & ? & ? & ? & ? & ?)|H] by lia.
  - unfold escape1. rewrite !(proj2 (Z.eqb_neq c _)) by done. constructor; lia.
  - clear Hc. repeat destruct H as [->|H]; [..|subst c]; constructor.
Qed.

Lemma escaped_text s : printable s = true -> string_text s (quoted (escape_string s)).
Proof.
  intros Hs. exists (map escape1 s). split.
  - induction s as [|c s IH]; [constructor|]. cbn [printable forallb] in Hs.
    apply andb_true_iff in Hs as [Hc Hs]. constructor; [by apply escape1_text | by apply IH].
  - rewrite escape_string_flat, flat_map_concat_map. done.
Qed.

Lemma key_text k : plain_key k = true -> string_text k (quoted k).
Proof.
  intros Hk. exists (map (fun c => [c]) k). split.
  - induction k as [|c k IH]; [constructor|]. cbn [plain_key forallb] in Hk.
    rewrite !andb_true_iff, !negb_true_iff, Z.leb_le, !Z.eqb_neq in Hk. destruct Hk as [[[? ?] ?] Hk].
    constructor; [by constructor | by apply IH].
  - assert (concat (map (fun c => [c]) k) = k) as -> by (induction k as [|c k IH]; [done|]; simpl in *; f_equal;
      apply IH; cbn [plain_key forallb] in Hk; by apply andb_true_iff in Hk as [_ ?]). done.
Qed.

(** *** Printed numbers *)
Lemma decimal_uint dg acc :
  fold_left (fun a c => 10 * a + (c - 48)) (js (DecimalString.NilEmpty.string_of_uint dg)) (Zpos acc)
  = Zpos (Pos.of_uint_acc dg acc).
Proof.
  revert acc. induction dg; intros acc; [done|..];
    cbn [DecimalString.NilEmpty.string_of_uint js app Pos.of_uint_acc fold_left];
    literal_chars; rewrite <- IHdg; f_equal; lia.
Qed.

Lemma decimal_zero dg :
  decimal (js (DecimalString.NilEmpty.string_of_uint dg)) = Z.of_N (Pos.of_uint dg).
Proof.
  unfold decimal. induction dg; [done | exact IHdg |..];
    cbn [DecimalString.NilEmpty.string_of_uint js app Pos.of_uint fold_left]; literal_chars;
    match goal with |- fold_left _ _ ?a = _ => let v := eval vm_compute in a in change a with v end;
    by rewrite decimal_uint.
Qed.

Lemma to_uint_head p d : Pos.to_uint p <> Decimal.D0 d.
Proof.
  intros E. pose proof (DecimalPos.Unsigned.of_to p) as Hof.
  pose proof (DecimalPos.Unsigned.to_of (Pos.to_uint p)) as Hto. rewrite Hof in Hto. cbn [N.to_uint] in Hto.
  rewrite E in Hto at 2. unfold Decimal.unorm in Hto. cbn [Decimal.nzhead] in Hto.
  destruct (Decimal.nzhead d) as [| | | | | | | | | |] eqn:Ez;
    try (rewrite E in Hto; discriminate Hto).
  - rewrite E in Hto. injection Hto as ->. by rewrite E in Hof.
  - by apply DecimalFacts.nzhead_nonzero in Ez.
Qed.

Lemma natural_pos p :
  natural (js (DecimalString.NilEmpty.string_of_uint (Pos.to_uint p)))
  /\ decimal (js (DecimalString.NilEmpty.string_of_uint (Pos.to_uint p))) = Zpos p.
Proof.
  split; [|by rewrite decimal_zero, DecimalPos.Unsigned.of_to].
  pose proof (DecimalPos.Unsigned.of_to p) as Hof. pose proof (to_uint_head p) as Hh.
  assert (forall dg, Forall (fun c => is_digit c = true) (js (DecimalString.NilEmpty.string_of_uint dg))) as Hd
    by (induction dg; simpl; by constructor).
  split_and!; [|apply Hd|]; destruct (Pos.to_uint p); try done. by destruct (Hh u).
Qed.

Lemma num_text z : int_text z (num_str z).
Proof.
  unfold num_str. destruct z as [|p|p].
  - apply (int_nat [48]). split_and!; [done | by repeat constructor | done].
  - destruct (natural_pos p) as [Hn Hd]. rewrite <- Hd at 1.
    change (Z.to_int (Z.pos p)) with (Decimal.Pos (Pos.to_uint p)).
    pose proof (DecimalPos.Unsigned.of_to p) as Hof.
    unfold DecimalString.NilZero.string_of_int, DecimalString.NilZero.string_of_uint.
    destruct (Pos.to_uint p); [done|..]; by constructor.
  - destruct (natural_pos p) as [Hn Hd]. change (Zneg p) with (- Zpos p) at 1. rewrite <- Hd at 1.
    change (Z.to_int (Z.neg p)) with (Decimal.Neg (Pos.to_uint p)).
    pose proof (DecimalPos.Unsigned.of_to p) as Hof.
    unfold DecimalString.NilZero.string_of_int, DecimalString.NilZero.string_of_uint.
    destruct (Pos.to_uint p); [done|..]; by constructor.
Qed.

Lemma standard_clean v : standard v = true -> clean v = true.
Proof.
  induction v as [|src|b| |l IH|l IH|s|z] using jval_nested_ind; intros Hc; try done; cbn [standard clean] in *.
  - rewrite forallb_forall in *. rewrite Forall_forall in IH. intros v Hv.
    apply IH; [by apply list_elem_of_In | by apply Hc].
  - rewrite forallb_forall in *. rewrite Forall_forall in IH. intros p Hp.
    specialize (Hc p Hp). rewrite !andb_true_iff in *. destruct Hc as [[? ?] ?]. split; [done|].
    apply IH; [by apply list_elem_of_In | done].
  - by apply andb_true_iff in Hc as [? _].
Qed.

Lemma ref_text v : standard v = true -> text_of v (json_ref v).
Proof.
  induction v as [|src|b| |l IH|l IH|s|z] using jval_nested_ind; intros Hc; try done; cbn [standard json_ref] in *.
  - destruct b; constructor.
  - constructor.
  - apply text_array. induction IH as [|v l Hv IH IHl]; [constructor|]. cbn [forallb] in Hc.
    apply andb_true_iff in Hc as [H1 H2]. constructor; [by apply Hv | by apply IHl].
  - apply text_object. induction IH as [|[k v] l Hv IH IHl]; [constructor|]. cbn [forallb fst snd] in *.
    rewrite !andb_true_iff in Hc. destruct Hc as [[[_ H1] H2] H3].
    apply (members_cons k v l (quoted k) []); [by apply key_text | done | by apply Hv | by apply IHl].
  - apply text_string, escaped_text. by apply andb_true_iff in Hc as [_ ?].
  - apply text_int, num_text.
Qed.

(** C13: What the serializer writes for a value is a text of that value in the JSON
    grammar: for values of arrays, objects, texts, integers, booleans and [null]
    whose texts hold neither a comma on the inner side of a bracket nor a control
    character other than tab, newline and carriage return, and whose keys need no
    escape. *)
Theorem json_stringify_ref v : standard v = true -> text_of v (json_stringify v 1).
Proof. intros Hv. rewrite json_stringify_clean by by apply standard_clean. by apply ref_text. Qed.

Lemma json_stringify_ref_witness :
  standard (VObj [(js "a", VArr [VNum (-10); VBool true]); (js "b", VStr (js "x,y" ++ [c_nl; c_quote]))]) = true
  /\ text_of (VObj [(js "a", VArr [VNum (-10); VBool true]); (js "b", VStr (js "x,y" ++ [c_nl; c_quote]))])
    (json_stringify (VObj [(js "a", VArr [VNum (-10); VBool true]); (js "b", VStr (js "x,y" ++ [c_nl; c_quote]))]) 1).
Proof. split; [reflexivity|]. apply json_stringify_ref. reflexivity. Defined.

(** Keys and the other control characters are not escaped: a key with a quote in it
    ends at this quote, and a backspace is written as it is. *)
Theorem keys_not_escaped :
  json_stringify (VObj [([97; c_quote; 98], VNull)]) 1
    = [c_lbrace; c_quote; 97; c_quote; 98; c_quote; c_colon] ++ js "null" ++ [c_rbrace]
  /\ json_stringify (VStr [8]) 1 = [c_quote; 8; c_quote].
Proof. split; reflexivity. Qed.

(** ** Reading the printed history back

    [eval('(' + data + ')')] on an array literal of string literals: the part of
    the expression grammar that the printed history uses (double-quoted strings
    with single-character escapes, an optional trailing comma, white space
    between tokens).  Anything else is [None]. *)
Inductive reader :=
| RStart
| RElem
| RString (acc : jstring)
| REscape (acc : jstring)
| RAfter
| RDone.

(** Value of the escape sequence [\c]; [None] for the sequences of several
    characters and for line continuations. *)
Definition unescape (c : Z) : option Z :=
  if is_lineterm c || is_digit c || (c =? 120) || (c =? c_u) then None
  else Some (if c =? c_n then c_nl else if c =? c_r then c_cr else if c =? c_t then c_tab
             else if c =? c_b then 8 else if c =? 102 then 12 else if c =? 118 then 11 else c).

Fixpoint read (st : reader) (out : list jstring) (s : jstring) : option (list jstring) :=
  match s with
  | [] => match st with RDone => Some out | _ => None end
  | c :: s =>
      match st with
      | RString acc =>
          if c =? c_quote then read RAfter (out ++ [acc]) s
          else if c =? c_bslash then read (REscape acc) out s
          else if is_lineterm c then None
          else read (RString (acc ++ [c])) out s
      | REscape acc =>
          match unescape c with
          | Some d => read (RString (acc ++ [d])) out s
          | None => None
          end
      | RStart =>
          if is_white c then read RStart out s
          else if c =? c_lbrack then read RElem out s else None
      | RElem =>
          if is_white c then read RElem out s
          else if c =? c_quote then read (RString []) out s
          else if c =? c_rbrack then read RDone out s else None
      | RAfter =>
          if is_white c then read RAfter out s
          else if c =? c_comma then read RElem out s
          else if c =? c_rbrack then read RDone out s else None
      | RDone => if is_white c then read RDone out s else None
      end
  end.

(** src/experiments/repl/src/main/webapp/terminal/jquery.terminal-0.3.3.js:810-810
    [eval('(' + data + ')')] *)
Definition eval_strings (data : jstring) : option (list jstring) := read RStart [] data.

(** Characters that a string literal cannot hold and that the serializer does
    not escape: the two line separators. *)
Definition no_separator (s : jstring) : bool :=
  forallb (fun c => negb ((c =? 8232) || (c =? 8233))) s.

Lemma read_escaped s acc out t :
  no_separator s = true ->
  read (RString acc) out (List.flat_map escape1 s ++ t) = read (RString (acc ++ s)) out t.
Proof.
  revert acc; induction s as [|c s IH]; intros acc; [by rewrite app_nil_r|].
  cbn [no_separator forallb List.flat_map]. rewrite andb_true_iff, <- app_assoc.
  intros [Hc Hs]. specialize (IH (acc ++ [c]) Hs). rewrite <- app_assoc in IH.
  cbn [app] in IH. rewrite <- IH. clear IH. apply negb_true_iff, orb_false_iff in Hc as [H1 H2].
  unfold escape1.
  repeat match goal with |- context [if c =? ?k then _ else _] =>
    destruct (Z.eqb_spec c k) as [->|?]; [reflexivity|] end.
  cbn [app read]. unfold is_lineterm.
  rewrite H1, H2. repeat match goal with |- context [c =? ?k] =>
    rewrite (proj2 (Z.eqb_neq c k)) by done end. done.
Qed.

Lemma read_quoted s out t :
  no_separator s = true ->
  read RElem out (quoted (escape_string s) ++ t) = read RAfter (out ++ [s]) t.
Proof.
  intros Hs. rewrite escape_string_flat. unfold quoted. rewrite <- !app_assoc.
  cbn [app]. change (read (RString []) out (List.flat_map escape1 s ++ c_quote :: t)
    = read RAfter (out ++ [s]) t).
  by rewrite read_escaped.
Qed.

Lemma read_list l out :
  forallb no_separator l = true ->
  read RElem out (join [c_comma] (map json_ref (map VStr l)) ++ [c_rbrack]) = Some (out ++ l).
Proof.
  revert out; induction l as [|s l IH]; intros out Hl; [by rewrite app_nil_r|].
  cbn [forallb] in Hl. apply andb_true_iff in Hl as [Hs Hl].
  destruct l as [|s' l].
  - cbn [map join json_ref]. by rewrite read_quoted.
  - cbn [map]. rewrite join_cons2, <- !app_assoc.
    cbn [json_ref]. rewrite read_quoted by done.
    change (read RAfter (out ++ [s]) ([c_comma] ++ join [c_comma]
        (map json_ref (map VStr (s' :: l))) ++ [c_rbrack]) = Some (out ++ s :: s' :: l)).
    cbn [app]. change (read RElem (out ++ [s]) (join [c_comma]
        (map json_ref (map VStr (s' :: l))) ++ [c_rbrack]) = Some (out ++ s :: s' :: l)).
    rewrite IH by done. by rewrite <- app_assoc.
Qed.

(** Strings that survive a trip through the storage. *)
Definition storable (s : jstring) : bool := undamaged s && no_separator s.

(** The printed list evaluates to the list. *)
Lemma eval_stringify l :
  forallb storable l = true ->
  eval_strings (json_stringify (VArr (map VStr l)) 1) = Some l.
Proof.
  intros Hl. assert (forallb undamaged l = true /\ forallb no_separator l = true) as [Hu Hn].
  { rewrite !forallb_forall in *. split; intros s Hs; specialize (Hl s Hs);
      unfold storable in Hl; by apply andb_true_iff in Hl as [??]. }
  rewrite json_stringify_clean.
  - cbn [json_ref]. unfold eval_strings. cbn [app].
    change (read RElem [] (join [c_comma] (map json_ref (map VStr l)) ++ [c_rbrack]) = Some l).
    by rewrite read_list.
  - cbn [clean]. rewrite forallb_forall in *. intros v (s & <- & Hs)%List.in_map_iff.
    by apply Hu.
Qed.
(** The repair of the separators that ends the serialization also rewrites the
    contents of strings: a history whose entries hold a comma before a closing
    bracket, or after an opening one, is read back without these commas. *)
Theorem separator_repair_damage :
  eval_strings (json_stringify (VArr [VStr (js "x[1,]"); VStr (js "f({,y})"); VStr (js "a,b")]) 1)
  = Some [js "x[1]"; js "f({y})"; js "a,b"].
Proof. vm_compute. reflexivity. Qed.
End Json.
