(* ===== verification/Storage.v ===== *)
(** * The storage plugin

    [$.Storage] is [localStorage] where the browser has it and a cookie
    otherwise.  [KV] is the interface the terminal uses; [KVLaws] is what the
    plugin promises to it, and both back ends are instances.  The browser's
    cookie jar is the class [CookieJar] with the documented behaviour
    [CookieLaws]; [ListJar] is a jar that meets it. *)
From S2P Require Import Prelude JsString.

(** ** The interface *)

(** Truthiness of a stored value: [undefined], [null] and [''] are falsy. *)
Definition truthy (o : option jstring) : bool :=
  match o with Some (_ :: _) => true | _ => false end.

Class KV (S : Type) := {
  kv_get : jstring -> S -> option jstring;
  kv_set : jstring -> jstring -> S -> S;
  kv_remove : jstring -> S -> S }.

(** [kv_key], [kv_value]: the names and values the back end can hold. *)
Class KVLaws (S : Type) `{KV S} := {
  kv_wf : S -> Prop;
  kv_key : jstring -> Prop;
  kv_value : jstring -> Prop;
  kv_wf_set n v s : kv_wf s -> kv_key n -> kv_value v -> kv_wf (kv_set n v s);
  kv_wf_remove n s : kv_wf s -> kv_key n -> kv_wf (kv_remove n s);
  kv_get_set n v s :
    kv_wf s -> kv_key n -> kv_value v -> kv_get n (kv_set n v s) = Some v;
  kv_get_set_ne n n' v s :
    kv_wf s -> kv_key n -> kv_key n' -> kv_value v -> n <> n' ->
    kv_get n' (kv_set n v s) = kv_get n' s;
  kv_get_remove n s :
    kv_wf s -> kv_key n -> truthy (kv_get n (kv_remove n s)) = false;
  kv_get_remove_ne n n' s :
    kv_wf s -> kv_key n -> kv_key n' -> n <> n' ->
    kv_get n' (kv_remove n s) = kv_get n' s }.

(** The arguments of [$.Storage.set]: a name and a value, an object of strings
    in enumeration order, or anything else. *)
Inductive set_arg :=
| SetOne (n v : jstring)
| SetMany (l : list (jstring * jstring))
| SetOther.

(** ** [localStorage] *)
Module Local.

Abbreviation store := (gmap jstring jstring).

(** src/experiments/repl/src/main/webapp/terminal/jquery.terminal-0.3.3.js:333-347
    [wls(n, v)] *)
Definition wls (a : set_arg) (ls : store) : store * bool :=
  match a with
  | SetOne n v => (<[n := v]> ls, true)
  | SetMany l => (fold_left (fun ls p => <[p.1 := p.2]> ls) l ls, true)
  | SetOther => (ls, false)
  end.

(** src/experiments/repl/src/main/webapp/terminal/jquery.terminal-0.3.3.js:366-368
    [rls(n)] *)
Definition rls (n : jstring) (ls : store) : option jstring := ls !! n.

(** src/experiments/repl/src/main/webapp/terminal/jquery.terminal-0.3.3.js:384-386
    [dls(n)]: [delete] answers [true]. *)
Definition dls (n : jstring) (ls : store) : store * bool := (delete n ls, true).

#[export] Instance local_kv : KV store := {
  kv_get := rls;
  kv_set n v ls := (wls (SetOne n v) ls).1;
  kv_remove n ls := (dls n ls).1 }.

#[export] Program Instance local_laws : KVLaws store := {
  kv_wf _ := True; kv_key _ := True; kv_value _ := True }.
Solve Obligations with done.
Next Obligation. intros. simpl. unfold rls. by rewrite lookup_insert_eq. Qed.
Next Obligation. intros. simpl. unfold rls. by rewrite lookup_insert_ne. Qed.
Next Obligation. intros. simpl. unfold rls. by rewrite lookup_delete_eq. Qed.
Next Obligation. intros. simpl. unfold rls. by rewrite lookup_delete_ne. Qed.
End Local.

(** ** Cookies *)

(** [document.cookie]: reading it and assigning to it. *)
Class CookieJar (J : Type) := {
  cookie : J -> jstring;
  assign : jstring -> J -> J }.

(** First value of a name in a list of pairs. *)
Fixpoint assoc (n : jstring) (l : list (jstring * jstring)) : option jstring :=
  match l with
  | [] => None
  | (m, v) :: l => if decide (m = n) then Some v else assoc n l
  end.

(** What a cookie can hold unchanged: no semicolon, no control character, no
    space at either end; in a name, no equals sign either. *)
Definition cookie_text (s : jstring) : Prop :=
  c_semi ∉ s /\ Forall (fun c => 32 <= c) s
  /\ head s <> Some c_space /\ last s <> Some c_space.
Definition cookie_name (n : jstring) : Prop := c_eq ∉ n /\ n <> [] /\ cookie_text n.
Definition cookie_value (v : jstring) : Prop := cookie_text v.

#[export] Instance cookie_text_dec s : Decision (cookie_text s).
Proof. unfold cookie_text. apply _. Defined.
#[export] Instance cookie_name_dec n : Decision (cookie_name n).
Proof. unfold cookie_name. apply _. Defined.

Lemma cookie_value_nil : cookie_value [].
Proof. split_and!; [apply not_elem_of_nil | constructor | done | done]. Qed.
#[export] Hint Resolve cookie_value_nil : core.

Definition pair_text (p : jstring * jstring) : jstring := p.1 ++ [c_eq] ++ p.2.

(** The documented behaviour of the jar: reading gives the pairs separated by a
    semicolon and a space; assigning [n=v; ...] with an expiry date to come
    sets the value of [n] and leaves the other names alone. *)
Class CookieLaws (J : Type) `{CookieJar J} := {
  pairs : J -> list (jstring * jstring);
  jar_wf : J -> Prop;
  cookie_read j : cookie j = join (js "; ") (map pair_text (pairs j));
  pairs_ok j : jar_wf j -> Forall (fun p => cookie_name p.1 /\ cookie_value p.2) (pairs j);
  jar_wf_assign n v attributes j :
    jar_wf j -> cookie_name n -> cookie_value v ->
    jar_wf (assign (n ++ [c_eq] ++ v ++ js "; expires=" ++ attributes) j);
  assign_same n v attributes j :
    jar_wf j -> cookie_name n -> cookie_value v ->
    assoc n (pairs (assign (n ++ [c_eq] ++ v ++ js "; expires=" ++ attributes) j)) = Some v;
  assign_other n n' v attributes j :
    jar_wf j -> cookie_name n -> cookie_value v -> n <> n' ->
    assoc n' (pairs (assign (n ++ [c_eq] ++ v ++ js "; expires=" ++ attributes) j))
    = assoc n' (pairs j) }.

Module Cookie.
Section cookie.
Context {J : Type} `{CookieLaws J}.

(** [dt.toGMTString()] one year from now: the host's clock. *)
Variable in_a_year : jstring.

(** src/experiments/repl/src/main/webapp/terminal/jquery.terminal-0.3.3.js:348-365
    [wc(n, v)] *)
Definition wc (a : set_arg) (j : J) : J * bool :=
  let e := js "; expires=" ++ in_a_year in
  let one (n v : jstring) := assign (n ++ [c_eq] ++ v ++ e ++ js "; path=/") in
  match a with
  | SetOne n v => (one n v j, true)
  | SetMany l => (fold_left (fun j p => one p.1 p.2 j) l j, true)
  | SetOther => (j, false)
  end.

(** The loop [while (c.charAt(0) === ' ')]. *)
Fixpoint trim_front (c : jstring) : jstring :=
  match c with
  | x :: r => if x =? c_space then trim_front r else c
  | [] => []
  end.

Fixpoint rc_loop (nn : jstring) (ca : list jstring) : option jstring :=
  match ca with
  | [] => None
  | c :: ca =>
      let c := trim_front c in
      if indexOf nn c =? 0 then Some (substring (zlen nn) (zlen c) c) else rc_loop nn ca
  end.

(** src/experiments/repl/src/main/webapp/terminal/jquery.terminal-0.3.3.js:369-383
    [rc(n)] *)
Definition rc (n : jstring) (j : J) : option jstring :=
  rc_loop (n ++ [c_eq]) (split_char c_semi (cookie j)).

(** src/experiments/repl/src/main/webapp/terminal/jquery.terminal-0.3.3.js:387-389
    [dc(n)]: [wc(n, '', -1)]; [wc] has no third parameter. *)
Definition dc (n : jstring) (j : J) : J * bool := wc (SetOne n []) j.

Lemma trim_front_id c : head c <> Some c_space -> trim_front c = c.
Proof.
  destruct c as [|x c]; [done|]. simpl. intros Hx.
  destruct (x =? c_space) eqn:E; [|done]. apply Z.eqb_eq in E. congruence.
Qed.

Lemma indexOf_0 p s : (indexOf p s =? 0) = prefixb p s.
Proof.
  unfold indexOf, indexOf_from. rewrite Z.max_id, Z.min_l by apply zlen_nonneg.
  rewrite zdrop_nonpos by lia. destruct (prefixb p s) eqn:E.
  - destruct s; simpl in *; by rewrite E.
  - destruct (find_from p s 0) as [i|] eqn:F; [|done]. simpl. apply Z.eqb_neq. intros ->.
    destruct (find_from_Some _ _ _ _ F) as (_ & _ & Hp).
    rewrite zdrop_nonpos in Hp by lia. congruence.
Qed.

Lemma prefixb_pair n m v :
  cookie_name n -> cookie_name m ->
  prefixb (n ++ [c_eq]) (pair_text (m, v)) = bool_decide (m = n).
Proof.
  intros (Hn & _) (Hm & _). apply eq_true_iff_eq. rewrite prefixb_true, bool_decide_eq_true.
  unfold pair_text. simpl. split.
  - intros [r Hr]. rewrite <- app_assoc in Hr. simpl in Hr.
    revert m Hm Hr; induction n as [|x n IH]; intros [|y m] Hm Hr; simplify_eq/=; try done.
    + apply not_elem_of_cons in Hm as [? _]. congruence.
    + apply not_elem_of_cons in Hn as [? _]. congruence.
    + apply not_elem_of_cons in Hm as [_ Hm]. apply not_elem_of_cons in Hn as [_ Hn].
      f_equal. by apply IH.
  - intros ->. exists v. by rewrite <- app_assoc.
Qed.

Lemma trim_pair m v : cookie_name m -> trim_front (pair_text (m, v)) = pair_text (m, v).
Proof.
  intros (_ & Hm & _ & _ & Hs & _). apply trim_front_id. destruct m; [done|]. exact Hs.
Qed.

Lemma rc_loop_step n m v ca :
  cookie_name n -> cookie_name m ->
  rc_loop (n ++ [c_eq]) (pair_text (m, v) :: ca)
  = (if decide (m = n) then Some v else rc_loop (n ++ [c_eq]) ca)
  /\ rc_loop (n ++ [c_eq]) ((c_space :: pair_text (m, v)) :: ca)
  = (if decide (m = n) then Some v else rc_loop (n ++ [c_eq]) ca).
Proof.
  intros Hn Hm. cbn [rc_loop]. cbn [trim_front]. rewrite Z.eqb_refl.
  rewrite trim_pair, indexOf_0, prefixb_pair by done.
  destruct (decide (m = n)) as [->|Hne]; [|by rewrite bool_decide_false].
  rewrite bool_decide_true by done.
  assert (substring (zlen (n ++ [c_eq])) (zlen (pair_text (n, v))) (pair_text (n, v)) = v) as ->.
  { rewrite substring_over by (unfold pair_text; simpl; jslia).
    unfold pair_text. rewrite app_assoc. apply zdrop_app_len. }
  done.
Qed.

Definition pair_ok (p : jstring * jstring) : Prop := cookie_name p.1 /\ cookie_value p.2.

Lemma pair_no_semi p : pair_ok p -> c_semi ∉ pair_text p.
Proof.
  destruct p as [m v]. intros [(_ & _ & Hm & _) [Hv _]]. unfold pair_text. simpl in *.
  rewrite elem_of_app, elem_of_cons. naive_solver.
Qed.

Lemma rc_loop_rest n ps :
  cookie_name n -> Forall pair_ok ps -> ps <> [] ->
  rc_loop (n ++ [c_eq]) (split_char c_semi (c_space :: join (js "; ") (map pair_text ps)))
  = assoc n ps.
Proof.
  intros Hn HF Hne. induction HF as [|[m v] ps Hp HF IH]; [done|]. clear Hne.
  destruct ps as [|p' ps].
  - cbn [map join assoc]. rewrite split_char_none.
    + destruct (rc_loop_step n m v [] Hn (proj1 Hp)) as [_ ->]. by case_decide.
    + apply not_elem_of_cons. split; [done|]. by apply pair_no_semi.
  - change (c_space :: join (js "; ") (map pair_text ((m, v) :: p' :: ps)))
      with ((c_space :: pair_text (m, v)) ++ c_semi :: c_space ::
            join (js "; ") (map pair_text (p' :: ps))).
    rewrite split_char_app_sep.
    + destruct (rc_loop_step n m v
        (split_char c_semi (c_space :: join (js "; ") (map pair_text (p' :: ps)))) Hn (proj1 Hp))
        as [_ ->].
      cbn [assoc]. case_decide; [done|]. by apply IH.
    + apply not_elem_of_cons. split; [done|]. by apply pair_no_semi.
Qed.

(** Reading a cookie finds the value the jar has for it. *)
Lemma rc_spec n j : jar_wf j -> cookie_name n -> rc n j = assoc n (pairs j).
Proof.
  intros Hj Hn. unfold rc. rewrite cookie_read. pose proof (pairs_ok j Hj) as HF.
  destruct HF as [|[m v] ps Hp HF].
  - destruct n as [|x n]; [by destruct Hn as (_ & ? & _)|]. done.
  - destruct ps as [|p' ps].
    + cbn [map join assoc]. rewrite split_char_none by by apply pair_no_semi.
      destruct (rc_loop_step n m v [] Hn (proj1 Hp)) as [-> _]. by case_decide.
    + change (join (js "; ") (map pair_text ((m, v) :: p' :: ps)))
        with (pair_text (m, v) ++ c_semi :: c_space ::
              join (js "; ") (map pair_text (p' :: ps))).
      rewrite split_char_app_sep by by apply pair_no_semi.
      destruct (rc_loop_step n m v
        (split_char c_semi (c_space :: join (js "; ") (map pair_text (p' :: ps)))) Hn (proj1 Hp))
        as [-> _].
      cbn [assoc]. case_decide; [done|]. by apply rc_loop_rest.
Qed.
End cookie.

Section instances.
Context {J : Type} `{CookieLaws J} (in_a_year : jstring).

#[local] Instance cookie_kv : KV J := {
  kv_get := rc;
  kv_set n v j := (wc in_a_year (SetOne n v) j).1;
  kv_remove n j := (dc in_a_year n j).1 }.

(** The cookie back end meets the contract of the storage. *)
#[local] Program Instance cookie_laws : KVLaws J := {
  kv_wf := jar_wf; kv_key := cookie_name; kv_value := cookie_value }.
Next Obligation. intros. simpl. by apply jar_wf_assign. Qed.
Next Obligation. intros. simpl. by apply (jar_wf_assign n []). Qed.
Next Obligation.
  intros. simpl. rewrite rc_spec by (done || by apply jar_wf_assign). by apply assign_same.
Qed.
Next Obligation.
  intros. simpl. rewrite !rc_spec by (done || by apply jar_wf_assign). by apply assign_other.
Qed.
Next Obligation.
  intros. simpl. rewrite rc_spec by (done || by apply (jar_wf_assign n [])).
  pose proof (assign_same n [] (in_a_year ++ js "; path=/") s) as Hs.
  simpl in Hs. by rewrite Hs.
Qed.
Next Obligation.
  intros. simpl. rewrite !rc_spec by (done || by apply (jar_wf_assign n [])).
  by apply (assign_other n n' []).
Qed.

(** Removing a cookie does not remove it: its value becomes the empty string. *)
Theorem dc_keeps_cookie n j :
  jar_wf j -> cookie_name n -> rc n (dc in_a_year n j).1 = Some [].
Proof.
  intros. simpl. rewrite rc_spec by (done || by apply (jar_wf_assign n [])).
  by apply (assign_same n []).
Qed.
(** A cookie that was set is read back, and the other cookies keep their
    values. *)
Theorem cookie_roundtrip n n' v j :
  jar_wf j -> cookie_name n -> cookie_name n' -> cookie_value v ->
  rc n' (wc in_a_year (SetOne n v) j).1 = if decide (n = n') then Some v else rc n' j.
Proof.
  intros Hj Hn Hn' Hv. simpl. rewrite !rc_spec by (done || by apply jar_wf_assign).
  case_decide; subst; [by apply assign_same | by apply assign_other].
Qed.
End instances.
End Cookie.

(** ** A jar with the documented behaviour *)
Module ListJar.

(** Names in order of first assignment; no name twice. *)
Record jar := Jar { entries : list (jstring * jstring) }.

Fixpoint update (n v : jstring) (l : list (jstring * jstring)) : list (jstring * jstring) :=
  match l with
  | [] => [(n, v)]
  | (m, w) :: l => if decide (m = n) then (n, v) :: l else (m, w) :: update n v l
  end.

(** The name runs to the first equals sign, the value to the first semicolon. *)
Fixpoint before (c : Z) (s : jstring) : jstring :=
  match s with [] => [] | x :: r => if x =? c then [] else x :: before c r end.
Fixpoint after (c : Z) (s : jstring) : jstring :=
  match s with [] => [] | x :: r => if x =? c then r else after c r end.

#[export] Instance list_jar : CookieJar jar := {
  cookie j := join (js "; ") (map pair_text (entries j));
  assign s j := Jar (update (before c_eq s) (before c_semi (after c_eq s)) (entries j)) }.

Lemma before_app c a s : c ∉ a -> before c (a ++ c :: s) = a.
Proof.
  induction a as [|x a IH]; simpl; [by rewrite Z.eqb_refl|].
  intros [Hx Ha]%not_elem_of_cons. destruct (x =? c) eqn:E; [|by rewrite IH].
  apply Z.eqb_eq in E. congruence.
Qed.

Lemma after_app c a s : c ∉ a -> after c (a ++ c :: s) = s.
Proof.
  induction a as [|x a IH]; simpl; [by rewrite Z.eqb_refl|].
  intros [Hx Ha]%not_elem_of_cons. destruct (x =? c) eqn:E; [|by rewrite IH].
  apply Z.eqb_eq in E. congruence.
Qed.

Lemma assoc_update n v l : assoc n (update n v l) = Some v.
Proof.
  induction l as [|[m w] l IH]; simpl; [by rewrite decide_True|].
  case_decide; simpl; [by rewrite decide_True | by rewrite decide_False].
Qed.

Lemma assoc_update_ne n n' v l : n <> n' -> assoc n' (update n v l) = assoc n' l.
Proof.
  intros Hn. induction l as [|[m w] l IH]; simpl; [by rewrite decide_False|].
  case_decide; subst; simpl; [by rewrite !decide_False|]. by case_decide.
Qed.

Lemma parse_assign n v attributes j :
  cookie_name n -> cookie_value v ->
  assign (n ++ [c_eq] ++ v ++ js "; expires=" ++ attributes) j
  = Jar (update n v (entries j)).
Proof.
  intros (Hn & _) (Hv & _). unfold assign. simpl.
  by rewrite before_app, after_app, before_app.
Qed.

Lemma update_ok n v l :
  cookie_name n -> cookie_value v ->
  Forall (fun p => cookie_name p.1 /\ cookie_value p.2) l ->
  Forall (fun p => cookie_name p.1 /\ cookie_value p.2) (update n v l).
Proof.
  intros Hn Hv HF. induction HF as [|[m w] l Hp HF IH]; simpl; [by constructor|].
  case_decide; by constructor.
Qed.

#[export] Program Instance list_jar_laws : CookieLaws jar := {
  pairs := entries;
  jar_wf j := Forall (fun p => cookie_name p.1 /\ cookie_value p.2) (entries j) }.
Next Obligation. done. Qed.
Next Obligation. done. Qed.
Next Obligation. intros. rewrite parse_assign by done. by apply update_ok. Qed.
Next Obligation. intros. rewrite parse_assign by done. apply assoc_update. Qed.
Next Obligation. intros. rewrite parse_assign by done. by apply assoc_update_ne. Qed.

(** A jar with two cookies, for the witnesses. *)
Definition sample : jar := Jar [(js "login", js "admin"); (js "token", js "x42")].

Lemma sample_wf : jar_wf sample.
Proof.
  unfold jar_wf. simpl. repeat apply Forall_cons_2; [| |apply Forall_nil];
    (split; by apply (bool_decide_unpack _)).
Qed.

Lemma dc_keeps_cookie_witness :
  Cookie.rc (js "token") (Cookie.dc (js "Thu, 01 Jan 1970") (js "token") sample).1 = Some [].
Proof.
  apply Cookie.dc_keeps_cookie; [apply sample_wf | by apply (bool_decide_unpack _)].
Defined.

Lemma cookie_roundtrip_witness :
  Cookie.rc (js "token") (Cookie.wc (js "Thu, 01 Jan 1970") (SetOne (js "login") (js "bob")) sample).1
  = Some (js "x42").
Proof.
  rewrite Cookie.cookie_roundtrip; [reflexivity | apply sample_wf | ..];
    by apply (bool_decide_unpack _).
Defined.
End ListJar.
