(* ===== verification/History.v ===== *)
(** * The command history

    [History(name)] keeps the typed commands in a [BCycle] and saves them, as the
    serializer prints them, under [name_commands] in the storage.  The file is
    parametric in the storage: it uses the operations of [KV] and its theorems
    only the laws [KVLaws]. *)
From S2P Require Import Prelude JsString TermStruct Json Storage.

Module History.

(** src/experiments/repl/src/main/webapp/terminal/jquery.terminal-0.3.3.js:804-811
    [History]: the variables the methods close over; [key] is
    [name + 'commands']. *)
Record t := mk { enabled : bool; key : jstring; bc : BCycle.t jstring }.

Section ops.
Context {S : Type} `{KV S}.

Definition key_of (name : jstring) : jstring :=
  (match name with [] => [] | _ => name ++ [c_under] end) ++ js "commands".

(** src/experiments/repl/src/main/webapp/terminal/jquery.terminal-0.3.3.js:804-811
    [new History(name)]; [None] when evaluating the stored text fails. *)
Definition make (name : jstring) (s : S) : option t :=
  let k := key_of name in
  let init :=
    match kv_get k s with
    | Some ((_ :: _) as data) => Json.eval_strings data
    | _ => Some [[]]
    end in
  (fun l => {| enabled := true; key := k; bc := BCycle.make l |}) <$> init.

(** src/experiments/repl/src/main/webapp/terminal/jquery.terminal-0.3.3.js:819-821
    [data] *)
Definition data (h : t) : list jstring := BCycle.data (bc h).

Definition set_bc (h : t) (b : BCycle.t jstring) : t :=
  {| enabled := enabled h; key := key h; bc := b |}.

Definition print (l : list jstring) : jstring :=
  Json.json_stringify (Json.VArr (map Json.VStr l)) 1.

(** src/experiments/repl/src/main/webapp/terminal/jquery.terminal-0.3.3.js:813-818
    [append] *)
Definition append (h : t) (item : jstring) (s : S) : t * S :=
  if enabled h && negb (bool_decide (BCycle.current (bc h) = Some item)) then
    let h := set_bc h (BCycle.append (bc h) item) in
    (h, kv_set (key h) (print (data h)) s)
  else (h, s).

(** src/experiments/repl/src/main/webapp/terminal/jquery.terminal-0.3.3.js:822-824
    [next] *)
Definition next (h : t) : t * option jstring :=
  (set_bc h (BCycle.right (bc h)).1, (BCycle.right (bc h)).2).

(** src/experiments/repl/src/main/webapp/terminal/jquery.terminal-0.3.3.js:825-827
    [last] *)
Definition last (h : t) : t := set_bc h (BCycle.reset (bc h)).

(** src/experiments/repl/src/main/webapp/terminal/jquery.terminal-0.3.3.js:828-830
    [previous] *)
Definition previous (h : t) : t * option jstring :=
  (set_bc h (BCycle.left (bc h)).1, (BCycle.left (bc h)).2).

(** src/experiments/repl/src/main/webapp/terminal/jquery.terminal-0.3.3.js:831-834
    [clear] *)
Definition clear (h : t) (s : S) : t * S :=
  (set_bc h (BCycle.make []), kv_remove (key h) s).

(** src/experiments/repl/src/main/webapp/terminal/jquery.terminal-0.3.3.js:835-837
    [enable] *)
Definition enable (h : t) : t := {| enabled := true; key := key h; bc := bc h |}.

(** src/experiments/repl/src/main/webapp/terminal/jquery.terminal-0.3.3.js:838-840
    [disable] *)
Definition disable (h : t) : t := {| enabled := false; key := key h; bc := bc h |}.

(** The calls a client makes, in any order. *)
Inductive op := OAppend (item : jstring) | ONext | OLast | OPrevious | OClear | OEnable | ODisable.

Definition step (o : op) (h : t) (s : S) : t * S :=
  match o with
  | OAppend item => append h item s
  | ONext => ((next h).1, s)
  | OLast => (last h, s)
  | OPrevious => ((previous h).1, s)
  | OClear => clear h s
  | OEnable => (enable h, s)
  | ODisable => (disable h, s)
  end.

Fixpoint run (os : list op) (h : t) (s : S) : t * S :=
  match os with
  | [] => (h, s)
  | o :: os => run os (step o h s).1 (step o h s).2
  end.
End ops.

(** ** Navigation *)
Definition wf (h : t) : Prop := BCycle.wf (bc h).

Section navigation.
Context {S : Type} `{KV S}.

(** From the reset position, the [k+1]-th press of "previous" shows the
    [k+1]-th newest entry. *)
Theorem previous_walk h k :
  data h <> [] -> BCycle.pos (bc h) = 0 -> (k < length (data h))%nat ->
  (previous (Nat.iter k (fun h => (previous h).1) h)).2
  = data h !! (length (data h) - 1 - k)%nat.
Proof.
  intros Hd Hp Hk. destruct h as [e ky b]. unfold data in *. cbn [bc] in *.
  assert (BCycle.wf b) as Hw.
  { unfold BCycle.wf. rewrite Hp. split; [lia|]. destruct (BCycle.data b); [done|]. jslia. }
  assert (Nat.iter k (fun h => (previous h).1) (mk e ky b)
    = mk e ky (Nat.iter k (fun b => (BCycle.left b).1) b)) as ->.
  { clear. induction k as [|k IH]; [done|]. by rewrite !Nat.iter_succ, IH. }
  unfold previous. cbn [bc fst snd]. destruct (BCycle.left_iter b k Hw) as (Hwk & Hpk & Hdk).
  pose proof (BCycle.left_pos _ Hwk) as Hl.
  rewrite BCycle.left_snd, Hl, Hpk, Hdk, Hp, Zminus_mod_idemp_l. unfold zlen.
  assert ((0 - Z.of_nat k - 1) mod Z.of_nat (length (BCycle.data b))
    = Z.of_nat (length (BCycle.data b) - 1 - k)) as ->.
  { symmetry. apply (Z.mod_unique _ _ (-1)); lia. }
  unfold znth. rewrite decide_False by lia. by rewrite Nat2Z.id.
Qed.

(** A command that is typed is the next one recalled. *)
Lemma append_previous h item s :
  enabled h = true -> BCycle.current (bc h) <> Some item ->
  (previous (append h item s).1).2 = Some item.
Proof.
  intros He Hc. unfold append. rewrite He, bool_decide_false by done. simpl.
  unfold previous, BCycle.left, BCycle.append, BCycle.reset. simpl.
  replace (zlen (BCycle.data (bc h) ++ [item]) - 1) with (zlen (BCycle.data (bc h))) by jslia.
  apply znth_app_len.
Qed.

(** Running a recalled command again adds nothing. *)
Lemma append_current h item s :
  BCycle.current (bc h) = Some item -> append h item s = (h, s).
Proof. intros Hc. unfold append. by rewrite bool_decide_true, andb_false_r. Qed.
End navigation.

(** ** Persistence *)
Section persistence.
Context {S : Type} `{KVLaws S}.

(** The commands that a client types: the serializer must not damage them and
    the printed history must be a value that the storage can hold. *)
Variable item_ok : jstring -> Prop.
Hypothesis item_storable : forall c, item_ok c -> Json.storable c = true.
Hypothesis item_empty : item_ok [].
Hypothesis print_value : forall l, Forall item_ok l -> kv_value (print l).

Definition op_ok (o : op) : Prop :=
  match o with OAppend item => item_ok item | _ => True end.

Lemma print_read l : Forall item_ok l -> Json.eval_strings (print l) = Some l.
Proof.
  intros HF. apply Json.eval_stringify. rewrite forallb_forall. intros c Hc.
  apply item_storable. rewrite Forall_forall in HF. apply HF. by apply list_elem_of_In.
Qed.

Lemma print_nonempty l : Forall item_ok l -> exists c r, print l = c :: r.
Proof.
  intros HF. pose proof (print_read l HF) as Hr. destruct (print l); [done | eauto].
Qed.

(** What a new [History] of the same name would start from. *)
Definition reload (k : jstring) (s : S) : option (list jstring) :=
  match kv_get k s with
  | Some ((_ :: _) as data) => Json.eval_strings data
  | _ => Some [[]]
  end.

(** The saved history is the history; a cleared one is saved as no history. *)
Definition persisted (h : t) (s : S) : Prop :=
  kv_wf s /\ kv_key (key h) /\ Forall item_ok (data h)
  /\ (reload (key h) s = Some (data h) \/ (data h = [] /\ reload (key h) s = Some [[]])).

Lemma persisted_append h item s :
  item_ok item -> persisted h s -> persisted (append h item s).1 (append h item s).2.
Proof.
  intros Hi (Hw & Hk & HF & Hr). unfold append. case_match; [|done].
  assert (Forall item_ok (data h ++ [item])) as HF'.
  { apply Forall_app. split; [done | by constructor]. }
  unfold persisted. simpl. change (data (set_bc h (BCycle.append (bc h) item)))
    with (data h ++ [item]).
  split_and!; [by apply kv_wf_set; auto | done | done |]. left.
  unfold reload. rewrite kv_get_set by auto.
  destruct (print_nonempty _ HF') as (c & r & E). rewrite E, <- E. by apply print_read.
Qed.

Lemma persisted_clear h s : persisted h s -> persisted (clear h s).1 (clear h s).2.
Proof.
  intros (Hw & Hk & HF & Hr). unfold persisted, clear. simpl.
  split_and!; [by apply kv_wf_remove | done | constructor |]. right. split; [done|].
  unfold reload. pose proof (kv_get_remove _ _ Hw Hk) as Ht.
  destruct (kv_get (key h) (kv_remove (key h) s)) as [[|]|]; done.
Qed.

Lemma persisted_step o h s :
  op_ok o -> persisted h s -> persisted (step o h s).1 (step o h s).2.
Proof.
  destruct o; simpl; intros Ho Hp; try exact Hp.
  - by apply persisted_append.
  - by apply persisted_clear.
Qed.

Lemma persisted_run os h s :
  Forall op_ok os -> persisted h s -> persisted (run os h s).1 (run os h s).2.
Proof.
  intros HF. revert h s; induction HF as [|o os Ho HF IH]; intros h s Hp; [done|].
  apply IH. by apply persisted_step.
Qed.

Lemma key_step o h s : key (step o h s).1 = key h.
Proof. destruct o; simpl; try done. unfold append. by case_match. Qed.

Lemma key_run os h s : key (run os h s).1 = key h.
Proof.
  revert h s; induction os as [|o os IH]; intros h s; [done|]. simpl. by rewrite IH, key_step.
Qed.

(** C8: A history whose entries are ones that the serializer does not damage, such as
    a new one in an empty store, is used in any way, with such entries only: the
    next [History] of the same name starts from the entries this one ended with
    (from one empty entry when it was cleared), and is such a history again, so
    that the same holds for the sessions that follow.  The damaged entries are
    those with a comma next to a bracket; the storage must hold the name and the
    text that is printed. *)
Theorem history_reload name s h os :
  kv_wf s -> kv_key (key_of name) ->
  make name s = Some h -> Forall item_ok (data h) -> Forall op_ok os ->
  exists h', make name (run os h s).2 = Some h'
    /\ (data h' = data (run os h s).1 \/ (data (run os h s).1 = [] /\ data h' = [[]]))
    /\ Forall item_ok (data h') /\ kv_wf (run os h s).2.
Proof.
  intros Hw Hk Hm Hd Hos.
  assert (key h = key_of name /\ reload (key_of name) s = Some (data h)) as [Ek Er].
  { revert Hm. unfold make, reload. intros Hm.
    destruct (match kv_get (key_of name) s with Some (_ :: _) as data => _ | _ => _ end); by simplify_eq/=. }
  assert (persisted h s) as Hp by (split_and!; [done | by rewrite Ek | done | left; by rewrite Ek]).
  destruct (persisted_run os _ _ Hos Hp) as (Hw' & _ & HF & Hr). rewrite key_run, Ek in Hr.
  unfold make. unfold reload in Hr. destruct Hr as [Hr|[He Hr]]; rewrite Hr; simpl; eexists;
    (split; [reflexivity|]); (split_and!; [by auto | | done]); [exact HF | by repeat constructor].
Qed.
End persistence.

(** Two commands entered in a fresh history of [localStorage]. *)
Import Storage.Local.

Definition session : list op := [OAppend (js "help"); OPrevious; OAppend (js "SELECT 1")].

Lemma previous_walk_witness :
  (previous (previous (mk true [] (BCycle.make [js "a"; js "b"; js "c"]))).1).2 = Some (js "b").
Proof.
  exact (previous_walk (mk true [] (BCycle.make [js "a"; js "b"; js "c"])) 1
    ltac:(done) eq_refl ltac:(simpl; lia)).
Defined.

(** Two sessions: the second starts from the entries of the first. *)
Lemma history_reload_witness :
  exists h1, make (js "repl") (run session (mk true (key_of (js "repl")) (BCycle.make [[]]))
                                (∅ : store)).2 = Some h1
  /\ data h1 = [[]; js "help"; js "SELECT 1"]
  /\ exists h2, make (js "repl") (run [OAppend (js "exit")] h1
       (run session (mk true (key_of (js "repl")) (BCycle.make [[]])) (∅ : store)).2).2 = Some h2
  /\ data h2 = [[]; js "help"; js "SELECT 1"; js "exit"].
Proof.
  pose proof (@history_reload store local_kv local_laws (fun c => Json.storable c = true)
    (fun _ Hs => Hs) eq_refl (fun _ _ => I) (js "repl")) as H.
  destruct (H (∅ : store) (mk true (key_of (js "repl")) (BCycle.make [[]])) session)
    as (h1 & Hm & Hd & HF & Hw); [exact I | exact I | reflexivity | by repeat constructor | by repeat constructor |].
  assert (data h1 = [[]; js "help"; js "SELECT 1"]) as E1 by (vm_compute in Hd; by destruct Hd as [Hd|[Hd _]]).
  exists h1. split; [exact Hm|]. split; [exact E1|].
  destruct (H _ h1 [OAppend (js "exit")] Hw I Hm HF) as (h2 & Hm2 & Hd2 & _); [by repeat constructor|].
  exists h2. split; [exact Hm2|].
  assert (h1 = mk true (key_of (js "repl")) (BCycle.make [[]; js "help"; js "SELECT 1"])) as ->.
  { assert (Some h1 = Some (mk true (key_of (js "repl")) (BCycle.make [[]; js "help"; js "SELECT 1"]))) as E;
      [|by injection E]. rewrite <- Hm. vm_compute. reflexivity. }
  vm_compute in Hd2. by destruct Hd2 as [Hd2|[Hd2 _]].
Defined.
End History.
