(* ===== verification/CmdView.v ===== *)
(** * Drawing the command line

    [redraw] lays the command out over the lines of the terminal, with the
    cursor on the character at the command's position.  The elements of the page
    are the fields of [view]: the [div]s in front of the cursor line, the three
    spans of the cursor line and the [div]s after it.  The text is kept as it is
    passed to [encodeHTML]; [render] is what the page receives. *)
From S2P Require Import Prelude JsString TermText.

Module CmdView.

(** Contents of the cursor span. *)
Inductive cursor :=
| CursorEnd                    (** past the last character: ['&nbsp;'] *)
| CursorChar (c : jstring).

Record view := View {
  v_lines_before : list jstring;
  v_before : jstring;
  v_cursor : cursor;
  v_after : jstring;
  v_lines_after : list jstring }.

(** The three spans of the cursor line. *)
Record spans := Spans { s_before : jstring; s_cursor : cursor; s_after : jstring }.

Definition make_view (lb : list jstring) (s : spans) (la : list jstring) : view :=
  View lb (s_before s) (s_cursor s) (s_after s) la.

(** src/experiments/repl/src/main/webapp/terminal/jquery.terminal-0.3.3.js:878-882
    [get_splited_command_line]; [None] when [str_parts] does not return. *)
Definition get_splited_command_line (num_chars prompt_len : Z) (string : jstring)
    : option (list jstring) :=
  let first := substring 0 (num_chars - prompt_len - 1) string in
  let rest := substring_from (num_chars - prompt_len - 1) string in
  cons first <$> Term.str_parts rest num_chars.

(** src/experiments/repl/src/main/webapp/terminal/jquery.terminal-0.3.3.js:888-912
    [draw_cursor_line].  The inner test [position == string.lenght - 1] compares
    with [NaN] and is never true. *)
Definition draw_cursor_line (string : jstring) (position : Z) : spans :=
  if position =? zlen string then Spans string CursorEnd []
  else if position =? 0 then
    Spans [] (CursorChar (slice 0 1 string)) (slice_from 1 string)
  else
    Spans (slice 0 position string)
          (CursorChar (slice position (position + 1) string))
          (slice_from (position + 1) string).

Definition sum_length (l : list jstring) : Z := foldr (fun s n => zlen s + n) 0 l.

(** src/experiments/repl/src/main/webapp/terminal/jquery.terminal-0.3.3.js:933-994
    the branch of [redraw] for a command longer than the first line.  [None]
    stands for a call that does not return or reads a line that is not there. *)
Definition redraw_long (string : jstring) (position num_chars prompt_len : Z) : option view :=
  array ← get_splited_command_line num_chars prompt_len string;
  array0 ← head array;
  let first_len := zlen array0 in
  if position <? first_len then
    Some (make_view [] (draw_cursor_line array0 position) (drop 1 array))
  else if position =? first_len then
    array1 ← array !! 1%nat;
    Some (make_view [array0] (draw_cursor_line array1 0) (drop 2 array))
  else
    let num_lines := length array in
    last ← last array;
    let from_last := zlen string - position in
    if from_last <=? zlen last then
      let pos := if zlen last =? from_last then 0 else zlen last - from_last in
      Some (make_view (take (num_lines - 1) array) (draw_cursor_line last pos) [])
    else if (num_lines =? 3)%nat then
      array1 ← array !! 1%nat;
      array2 ← array !! 2%nat;
      Some (make_view [array0] (draw_cursor_line array1 (position - first_len - 1)) [array2])
    else
      let line_index := (position + prompt_len) / num_chars in
      current ← znth array line_index;
      let pos := position - sum_length (ztake line_index array) in
      if pos =? num_chars then
        current ← znth array (line_index + 1);
        Some (make_view (ztake (line_index + 1) array) (draw_cursor_line current 0)
                        (zdrop (line_index + 1 + 1) array))
      else
        Some (make_view (ztake line_index array) (draw_cursor_line current pos)
                        (zdrop (line_index + 1) array)).

(** src/experiments/repl/src/main/webapp/terminal/jquery.terminal-0.3.3.js:928-1004
    [redraw].  [num_chars] is [undefined] until the first [resize]; comparing
    with it is comparing with [NaN]. *)
Definition redraw (mask : bool) (command : jstring) (position : Z)
    (num_chars : option Z) (prompt_len : Z) : option view :=
  let string := if mask then replace_dot c_star command else command in
  match num_chars with
  | Some n =>
      if n - prompt_len - 1 <? zlen string
      then redraw_long string position n prompt_len
      else if decide (string = []) then Some (make_view [] (Spans [] CursorEnd []) [])
      else Some (make_view [] (draw_cursor_line string position) [])
  | None =>
      if decide (string = []) then Some (make_view [] (Spans [] CursorEnd []) [])
      else Some (make_view [] (draw_cursor_line string position) [])
  end.

(** src/experiments/repl/src/main/webapp/terminal/jquery.terminal-0.3.3.js:913-926
    what [html], [div] and [insertAfter] write. *)
Definition div (string : jstring) : jstring :=
  js "<div>" ++ Term.encodeHTML (Some string) ++ js "</div>".
Definition render_cursor (c : cursor) : jstring :=
  match c with
  | CursorEnd => js "&nbsp;"
  | CursorChar c => if decide (c = [c_space]) then js "&nbsp;" else Term.encodeHTML (Some c)
  end.
Definition render (v : view) : list jstring * (jstring * jstring * jstring) * list jstring :=
  (map div (v_lines_before v),
   (Term.encodeHTML (Some (v_before v)), render_cursor (v_cursor v),
    Term.encodeHTML (Some (v_after v))),
   map div (v_lines_after v)).

(** ** What the view shows *)
Definition cursor_text (c : cursor) : jstring :=
  match c with CursorEnd => [] | CursorChar c => c end.

Definition text (v : view) : jstring :=
  concat (v_lines_before v) ++ v_before v ++ cursor_text (v_cursor v) ++ v_after v
  ++ concat (v_lines_after v).

(** Number of characters in front of the cursor. *)
Definition caret (v : view) : Z := zlen (concat (v_lines_before v) ++ v_before v).

(** [shows v string position]: the view shows the whole string, with the cursor
    on one character, or past the end, at [position]. *)
Definition shows (v : view) (string : jstring) (position : Z) : Prop :=
  text v = string /\ caret v = position
  /\ (v_cursor v = CursorEnd <-> position = zlen string).

Lemma draw_cursor_line_spec s p :
  0 <= p <= zlen s ->
  s_before (draw_cursor_line s p) = ztake p s
  /\ s_before (draw_cursor_line s p) ++ cursor_text (s_cursor (draw_cursor_line s p))
     ++ s_after (draw_cursor_line s p) = s
  /\ (s_cursor (draw_cursor_line s p) = CursorEnd <-> p = zlen s).
Proof.
  intros Hp. unfold draw_cursor_line.
  destruct (Z.eqb_spec p (zlen s)) as [->|Hne]; simpl.
  { rewrite ztake_all by lia. by rewrite app_nil_r. }
  destruct (Z.eqb_spec p 0) as [->|H0]; simpl.
  - rewrite ztake_nonpos by lia. split_and!; [done | apply slice_split; lia |].
    split; [done | lia].
  - rewrite (slice_mid p), slice_0_id, slice_from_id by lia.
    split_and!; [done | | split; [done | lia]].
    rewrite app_assoc, ztake_ztake_drop by lia.
    replace (p + (p + 1 - p)) with (p + 1) by lia. apply ztake_zdrop.
Qed.

Lemma make_view_shows lb s p la string position :
  0 <= p <= zlen s -> concat lb ++ s ++ concat la = string ->
  zlen (concat lb) + p = position -> (concat la = [] \/ p < zlen s) ->
  shows (make_view lb (draw_cursor_line s p) la) string position.
Proof.
  intros Hp Hs Hpos Hla. destruct (draw_cursor_line_spec s p Hp) as (H1 & H2 & H3).
  unfold shows, text, caret, make_view. cbn [v_lines_before v_before v_cursor v_after v_lines_after].
  split_and!.
  - rewrite <- Hs. f_equal. rewrite !app_assoc. f_equal. by rewrite <- app_assoc.
  - rewrite H1, zlen_app, zlen_ztake_le by lia. done.
  - rewrite H3, <- Hs, !zlen_app. destruct Hla as [-> | Hla]; [jslia|].
    pose proof (zlen_nonneg (concat la)). lia.
Qed.

Lemma sum_length_concat l : sum_length l = zlen (concat l).
Proof. induction l as [|s l IH]; simpl; [done|]. by rewrite zlen_app, IH. Qed.

(** All columns in front of the last are full. *)
Lemma columns_take n ps j :
  Term.columns n ps -> (j < length ps)%nat -> zlen (concat (take j ps)) = Z.of_nat j * n.
Proof.
  revert j; induction ps as [|p ps IH]; intros j Hc Hj; [simpl in Hj; lia|].
  destruct j as [|j]; [done|]. destruct ps as [|q ps]; [simpl in Hj; lia|].
  destruct Hc as [Hp Hc]. cbn [take concat]. rewrite zlen_app, Hp.
  rewrite IH by (done || simpl in *; lia). lia.
Qed.

Lemma columns_lookup n ps j p :
  Term.columns n ps -> ps !! j = Some p -> (S j < length ps)%nat -> zlen p = n.
Proof.
  revert j; induction ps as [|q ps IH]; intros j Hc Hj Hl; [done|].
  destruct ps as [|r ps]; [simpl in Hl; lia|]. destruct Hc as [Hq Hc].
  destruct j as [|j]; simpl in *; [by simplify_eq|]. apply (IH j); [done | done | lia].
Qed.

Lemma concat_split {A} (l : list (list A)) j x :
  l !! j = Some x -> concat l = concat (take j l) ++ x ++ concat (drop (S j) l).
Proof.
  intros Hj. rewrite <- (take_drop_middle l j x Hj) at 1.
  by rewrite concat_app.
Qed.

(** The lines of a command of more than [num_chars - prompt_len - 1] characters. *)
Record lines_of (n prompt_len : Z) (s : jstring) (array : list jstring)
    (a0 : jstring) (ps : list jstring) : Prop := LinesOf {
  lo_array : array = a0 :: ps;
  lo_first : a0 = ztake (n - prompt_len - 1) s;
  lo_first_len : zlen a0 = n - prompt_len - 1;
  lo_concat : a0 ++ concat ps = s;
  lo_columns : Term.columns n ps;
  lo_count : zlen ps = if zlen s - (n - prompt_len - 1) <? n then 1
                       else (zlen s - (n - prompt_len - 1) + n - 1) / n;
  lo_nonempty : (0 < length ps)%nat }.

Lemma get_splited_spec n p s :
  0 <= p -> p + 1 <= n -> n - p - 1 < zlen s ->
  exists a0 ps, get_splited_command_line n p s = Some (a0 :: ps)
    /\ lines_of n p s (a0 :: ps) a0 ps.
Proof.
  intros Hp Hn Hl. unfold get_splited_command_line, substring_from.
  rewrite substring_id, zdrop_nonpos, Z.sub_0_r by lia.
  replace (Z.min (Z.max (n - p - 1) 0) (zlen s)) with (n - p - 1) by lia.
  destruct (Term.str_parts_correct (zdrop (n - p - 1) s) n) as (ps & -> & Hc & Hcol & Hcnt); [lia|].
  rewrite zlen_zdrop in Hcnt by lia.
  exists (ztake (n - p - 1) s), ps. split; [done|]. split; try done.
  - apply zlen_ztake_le. lia.
  - rewrite Hc. apply ztake_zdrop.
  - destruct ps; [|simpl; lia]. simpl in Hc. apply (f_equal zlen) in Hc.
    rewrite zlen_zdrop in Hc by lia. rewrite zlen_nil in Hc. lia.
Qed.

Section long.
Context (n p position : Z) (s : jstring) (a0 : jstring) (ps : list jstring).
Hypothesis Hn : 1 <= n.
Hypothesis Hpos : 0 <= position <= zlen s.
Hypothesis Hlines : lines_of n p s (a0 :: ps) a0 ps.
Let first_len := zlen a0.

Lemma line_lengths : zlen s = first_len + zlen (concat ps).
Proof. unfold first_len. rewrite <- zlen_app. by rewrite (lo_concat _ _ _ _ _ _ Hlines). Qed.

Lemma shows_first :
  position < first_len ->
  shows (make_view [] (draw_cursor_line a0 position) ps) s position.
Proof.
  intros H. apply make_view_shows; [subst first_len; lia | | done | by right].
  apply (lo_concat _ _ _ _ _ _ Hlines).
Qed.

(** Drawing at offset [k] of the [j]-th full line after the first. *)
Lemma shows_at j k q :
  ps !! j = Some q -> 0 <= k <= zlen q -> (concat (drop (S j) ps) = [] \/ k < zlen q) ->
  shows (make_view (take (S j) (a0 :: ps)) (draw_cursor_line q k) (drop (S (S j)) (a0 :: ps)))
    s (first_len + zlen (concat (take j ps)) + k).
Proof.
  intros Hj Hk Hla. cbn [take drop]. apply make_view_shows; [done | | | done].
  - cbn [concat]. rewrite <- app_assoc, <- (concat_split ps j q Hj).
    apply (lo_concat _ _ _ _ _ _ Hlines).
  - cbn [concat]. rewrite zlen_app. unfold first_len. lia.
Qed.

Lemma shows_last q :
  last ps = Some q -> zlen s - position <= zlen q ->
  shows (make_view (take (length (a0 :: ps) - 1) (a0 :: ps))
           (draw_cursor_line q (zlen q - (zlen s - position))) []) s position.
Proof.
  intros Hq Hle. pose proof line_lengths as Hl. unfold first_len in Hl.
  pose proof (lo_concat _ _ _ _ _ _ Hlines) as Hc.
  destruct ps as [|q' ps' _] using rev_ind; [done|].
  rewrite last_snoc in Hq. injection Hq as <-. rewrite concat_app in Hc, Hl.
  rewrite zlen_app in Hl. cbn [concat] in Hc, Hl. rewrite app_nil_r in Hc, Hl.
  apply make_view_shows; [lia | | | by left].
  - rewrite app_nil_r. cbn [length]. rewrite Nat.sub_1_r. cbn [Nat.pred].
    rewrite length_app. cbn [length]. rewrite Nat.add_1_r. cbn [take concat].
    by rewrite take_app_length, <- app_assoc.
  - cbn [length]. rewrite Nat.sub_1_r. cbn [Nat.pred].
    rewrite length_app. cbn [length]. rewrite Nat.add_1_r. cbn [take concat].
    rewrite take_app_length, zlen_app. lia.
Qed.

(** A position that is not on the last line. *)
Lemma before_last q :
  last ps = Some q -> zlen q < zlen s - position ->
  position < first_len + Z.of_nat (length ps - 1) * n.
Proof.
  intros Hq Hlt. pose proof line_lengths as Hl.
  pose proof (columns_take n ps (length ps - 1) (lo_columns _ _ _ _ _ _ Hlines)) as Ht.
  destruct ps as [|q' ps' _] using rev_ind; [done|].
  rewrite last_snoc in Hq. injection Hq as <-. rewrite length_app in *. cbn [length] in *.
  rewrite Nat.add_sub in *. rewrite <- Ht by lia. rewrite take_app_length.
  rewrite concat_app, zlen_app in Hl. cbn [concat] in Hl. rewrite app_nil_r in Hl. lia.
Qed.
End long.

(** The three-line case in which the code subtracts one too many. *)
Definition three_line_middle (n prompt_len position len : Z) : bool :=
  let f := n - prompt_len - 1 in
  (f + n <? len) && (len <=? f + 2 * n) && (f <? position) && (position <? f + n).

Lemma two_parts n p s array a0 ps :
  0 < n -> lines_of n p s array a0 ps -> n - p - 1 < zlen s ->
  length ps = 2%nat <-> (n - p - 1) + n < zlen s <= (n - p - 1) + 2 * n.
Proof.
  intros Hn H Hl. pose proof (lo_count _ _ _ _ _ _ H) as Hc. unfold zlen in Hc at 1.
  destruct (Z.ltb_spec (zlen s - (n - p - 1)) n).
  - split; [lia|]. intros. lia.
  - set (L := zlen s - (n - p - 1)) in *.
    assert (length ps = 2%nat <-> (L + n - 1) / n = 2) as -> by lia.
    split.
    + intros Hd. pose proof (Z.div_mod (L + n - 1) n ltac:(lia)).
      pose proof (Z.mod_pos_bound (L + n - 1) n Hn). rewrite Hd in *. lia.
    + intros. symmetry. apply (Z.div_unique _ _ _ (L + n - 1 - 2 * n)); lia.
Qed.

Lemma shows_middle n p position s a0 ps :
  1 <= n -> 0 <= p -> lines_of n p s (a0 :: ps) a0 ps -> 
  zlen a0 < position -> position < zlen a0 + Z.of_nat (length ps - 1) * n ->
  exists v,
    (let line_index := (position + p) / n in
     current ← znth (a0 :: ps) line_index;
     let pos := position - sum_length (ztake line_index (a0 :: ps)) in
     if pos =? n then
       current ← znth (a0 :: ps) (line_index + 1);
       Some (make_view (ztake (line_index + 1) (a0 :: ps)) (draw_cursor_line current 0)
                       (zdrop (line_index + 1 + 1) (a0 :: ps)))
     else
       Some (make_view (ztake line_index (a0 :: ps)) (draw_cursor_line current pos)
                       (zdrop (line_index + 1) (a0 :: ps)))) = Some v
    /\ shows v s position.
Proof.
  intros Hn Hp Hl Hlo Hhi. pose proof (lo_first_len _ _ _ _ _ _ Hl) as Hf.
  set (k := position - zlen a0). set (j := Z.to_nat ((k - 1) / n)).
  assert (0 <= (k - 1) / n) by (apply Z.div_pos; lia).
  pose proof (Z.div_mod (k - 1) n ltac:(lia)) as Hdm.
  pose proof (Z.mod_pos_bound (k - 1) n ltac:(lia)) as Hmb.
  assert (Z.of_nat j = (k - 1) / n) as Hj by lia.
  assert ((position + p) / n = 1 + Z.of_nat j) as Hidx.
  { rewrite Hj. symmetry. apply (Z.div_unique _ _ _ ((k - 1) mod n)); lia. }
  assert (Hjl : (j < length ps - 1)%nat) by nia.
  destruct (lookup_lt_is_Some_2 ps j ltac:(lia)) as [q Hq].
  destruct (lookup_lt_is_Some_2 ps (S j) ltac:(lia)) as [q' Hq'].
  pose proof (lo_columns _ _ _ _ _ _ Hl) as Hcol.
  pose proof (columns_lookup n ps j q Hcol Hq ltac:(lia)) as Hqn.
  pose proof (columns_take n ps j Hcol ltac:(lia)) as Htk.
  pose proof (columns_take n ps (S j) Hcol ltac:(lia)) as Htk'.
  cbv zeta. rewrite Hidx. unfold znth, ztake, zdrop.
  replace (Z.to_nat (1 + Z.of_nat j)) with (S j) by lia.
  replace (Z.to_nat (1 + Z.of_nat j + 1)) with (S (S j)) by lia.
  replace (Z.to_nat (1 + Z.of_nat j + 1 + 1)) with (S (S (S j))) by lia.
  rewrite !decide_False by lia.
  change ((a0 :: ps) !! S j) with (ps !! j). rewrite Hq. cbn [mbind option_bind].
  rewrite sum_length_concat. cbn [take concat]. rewrite zlen_app, Htk.
  destruct (Z.eqb_spec (position - (zlen a0 + Z.of_nat j * n)) n) as [Hpn|Hpn].
  - change ((a0 :: ps) !! S (S j)) with (ps !! S j). rewrite Hq'. cbn [mbind option_bind].
    eexists; split; [done|].
    replace position with (zlen a0 + zlen (concat (take (S j) ps)) + 0) by lia.
    apply (shows_at n p s a0 ps Hl (S j) 0 q' Hq'); [pose proof (zlen_nonneg q'); lia|].
    destruct (decide (S (S j) < length ps)%nat).
    + right. rewrite (columns_lookup n ps (S j) q' Hcol Hq'); lia.
    + left. by rewrite drop_ge by lia.
  - eexists; split; [done|].
    replace (position - (zlen a0 + Z.of_nat j * n)) with (k - Z.of_nat j * n) by lia.
    replace position with (zlen a0 + zlen (concat (take j ps)) + (k - Z.of_nat j * n)) by lia.
    apply (shows_at n p s a0 ps Hl j _ q Hq); [nia | right; nia].
Qed.

Lemma redraw_long_shows n p position s :
  0 <= p -> p + 1 <= n -> n - p - 1 < zlen s -> 0 <= position <= zlen s ->
  exists v, redraw_long s position n p = Some v
    /\ shows v s (if three_line_middle n p position (zlen s) then position - 1 else position).
Proof.
  intros Hp Hn Hlong Hpos. unfold redraw_long.
  destruct (get_splited_spec n p s Hp Hn Hlong) as (a0 & ps & -> & Hl).
  pose proof (lo_first_len _ _ _ _ _ _ Hl) as Hf. cbn [mbind option_bind head].
  assert (1 <= n) as Hn1 by lia. pose proof (lo_nonempty _ _ _ _ _ _ Hl) as Hne.
  destruct (Z.ltb_spec position (zlen a0)) as [Hlt|Hge].
  { eexists; split; [done|]. replace (three_line_middle _ _ _ _) with false
      by (unfold three_line_middle; symmetry; rewrite !andb_false_iff; lia).
    by apply (shows_first n p position s a0 ps Hpos Hl). }
  destruct (Z.eqb_spec position (zlen a0)) as [Heq|Hneq].
  { destruct (lookup_lt_is_Some_2 ps 0%nat Hne) as [q Hq].
    change ((a0 :: ps) !! 1%nat) with (ps !! 0%nat). rewrite Hq.
    cbn [mbind option_bind]. eexists; split; [done|].
    replace (three_line_middle _ _ _ _) with false
      by (unfold three_line_middle; symmetry; rewrite !andb_false_iff; lia).
    replace position with (zlen a0 + zlen (concat (take 0 ps)) + 0) by (rewrite take_0; cbn [concat]; rewrite zlen_nil; lia).
    apply (shows_at n p s a0 ps Hl 0 0 q Hq); [pose proof (zlen_nonneg q); lia|].
    destruct (decide (1 < length ps)%nat).
    - right. rewrite (columns_lookup n ps 0 q (lo_columns _ _ _ _ _ _ Hl) Hq); lia.
    - left. by rewrite drop_ge by lia. }
  destruct (last ps) as [q|] eqn:Hq; [|apply last_None in Hq as ->; simpl in Hne; lia].
  replace (last (a0 :: ps)) with (Some q) by (destruct ps; [done | by rewrite <- Hq]).
  cbn [mbind option_bind].
  destruct (Z.leb_spec (zlen s - position) (zlen q)) as [Hle|Hgt].
  { eexists; split; [done|].
    replace (if zlen q =? zlen s - position then 0 else zlen q - (zlen s - position))
      with (zlen q - (zlen s - position)) by (destruct (Z.eqb_spec (zlen q) (zlen s - position)); lia).
    replace (three_line_middle _ _ _ _) with false; [by apply (shows_last n p position s a0 ps Hpos Hl)|].
    symmetry. unfold three_line_middle. rewrite !andb_false_iff, !Z.ltb_ge, Z.leb_gt.
    destruct (decide (length ps = 2%nat)) as [H2|H2].
    - right. destruct ps as [|q0 [|q1 [|]]]; simplify_eq/=.
      pose proof (line_lengths n p s a0 _ Hl) as Hll.
      pose proof (lo_columns _ _ _ _ _ _ Hl) as [Hq0 _]. simpl in Hll. rewrite app_nil_r in Hll.
      rewrite zlen_app in Hll. lia.
    - rewrite (two_parts n p s _ a0 ps) in H2 by (done || lia). lia. }
  pose proof (before_last n p position s a0 ps Hl q Hq Hgt) as Hbl.
  destruct (Nat.eqb_spec (length (a0 :: ps)) 3) as [H3|H3].
  - cbn [length] in H3. assert (length ps = 2%nat) as H2 by lia.
    pose proof (proj1 (two_parts n p s _ a0 ps ltac:(lia) Hl Hlong) H2) as H2'.
    destruct ps as [|q0 [|q1 [|]]]; simplify_eq/=.
    eexists; split; [done|].
    replace (three_line_middle _ _ _ _) with true
      by (unfold three_line_middle; symmetry; rewrite !andb_true_iff; lia).
    pose proof (lo_columns _ _ _ _ _ _ Hl) as [Hq0 _].
    replace (position - 1) with (zlen a0 + zlen (concat (take 0 [q0; q])) + (position - zlen a0 - 1))
      by (cbn [take concat]; rewrite zlen_nil; lia).
    by apply (shows_at n p s a0 [q0; q] Hl 0 _ q0); [done | lia | right; lia].
  - replace (three_line_middle _ _ _ _) with false.
    + apply (shows_middle n p position s a0 ps); (done || lia).
    + symmetry. unfold three_line_middle. rewrite !andb_false_iff, !Z.ltb_ge, Z.leb_gt.
      assert (length ps <> 2%nat) as H2 by (simpl in H3; lia).
      rewrite (two_parts n p s _ a0 ps) in H2 by (done || lia). lia.
Qed.

(** The view shows the command, masked or not, with the cursor at [position] --
    one character early in the middle line of three. *)
Theorem redraw_shows mask command position n p :
  0 <= p -> p + 1 <= n -> 0 <= position <= zlen command ->
  exists v, redraw mask command position (Some n) p = Some v
    /\ shows v (if mask then replace_dot c_star command else command)
         (if three_line_middle n p position (zlen command) then position - 1 else position).
Proof.
  intros Hp Hn Hpos. unfold redraw.
  set (s := if mask then replace_dot c_star command else command).
  assert (zlen s = zlen command) as Hs by (unfold s; destruct mask; [apply zlen_replace_dot | done]).
  rewrite <- Hs in *. destruct (Z.ltb_spec (n - p - 1) (zlen s)).
  - by apply redraw_long_shows.
  - replace (three_line_middle _ _ _ _) with false
      by (unfold three_line_middle; symmetry; rewrite !andb_false_iff; lia).
    case_decide as Hd.
    + eexists; split; [done|]. rewrite Hd, zlen_nil in *. assert (position = 0) as -> by lia.
      by split_and!.
    + eexists; split; [done|]. apply make_view_shows; [done | | done | by left].
      simpl. by rewrite app_nil_r.
Qed.

(** Before the first [resize] everything is in one line. *)
Lemma redraw_unsized_shows mask command position p :
  0 <= position <= zlen command ->
  exists v, redraw mask command position None p = Some v
    /\ shows v (if mask then replace_dot c_star command else command) position.
Proof.
  intros Hpos. unfold redraw.
  set (s := if mask then replace_dot c_star command else command).
  assert (zlen s = zlen command) as Hs by (unfold s; destruct mask; [apply zlen_replace_dot | done]).
  rewrite <- Hs in *. case_decide as Hd.
  - eexists; split; [done|]. rewrite Hd, zlen_nil in *. assert (position = 0) as -> by lia. by split_and!.
  - eexists; split; [done|]. apply make_view_shows; [done | | done | by left].
    simpl. by rewrite app_nil_r.
Qed.

(** A masked command over three lines, the cursor in the middle one. *)
Lemma redraw_shows_witness :
  exists v, redraw true (js "abcdefghijklmno") 9 (Some 8) 2 = Some v
    /\ shows v (js "***************") 8 /\ three_line_middle 8 2 9 15 = true.
Proof.
  destruct (redraw_shows true (js "abcdefghijklmno") 9 8 2) as (v & Hv & Hs);
    [lia | lia | vm_compute; split; discriminate |].
  exists v. split; [exact Hv | split; [exact Hs | reflexivity]].
Defined.
End CmdView.
