(* ===== verification/Cmd.v ===== *)
(** * The command line plugin [$.fn.cmd]

    The state the plugin closes over is the record [cmd]; the methods it adds to
    the element and its two key handlers are functions on it.  What a handler
    asks of its surroundings (running the command, calling a function prompt,
    starting timers, reading the clipboard) is returned as a list of [effect]s
    in the order of the calls. *)
From S2P Require Import Prelude JsString TermText TermStruct Storage History CmdView.

Module Cmd.

(** A prompt is a string or a function, here the function's identity. *)
Inductive prompt_t := PString (s : jstring) | PFun (f : Z).

Inductive effect :=
| ECommands (command : jstring)   (** [options.commands(tmp)] *)
| EPrompt (f : Z)                 (** a function prompt is called with the callback *)
| EBlinkOn                        (** [everyTime(500, 'blink', blink)] *)
| EBlinkOff                       (** [stopTime('blink', blink)], cursor not inverted *)
| EPaste.                         (** [clip.focus()]; its value is inserted 1 ms later *)

(** What a key handler returns to the browser. *)
Inductive ret := RTrue | RFalse | RUndefined.

Record event := Event {
  which : Z; keyCode : Z; ctrlKey : bool; altKey : bool; shiftKey : bool }.

(** src/experiments/repl/src/main/webapp/terminal/jquery.terminal-0.3.3.js:855-863
    [$.fn.cmd]: the variables of the plugin and, last, what is drawn. *)
Record cmd := MkCmd {
  num_chars : option Z;
  prompt_len : option Z;
  mask : bool;
  command : jstring;
  position : Z;
  prompt : prompt_t;
  enabled : bool;
  name : jstring;
  history : History.t;
  view : option CmdView.view }.

Definition with_text (c : cmd) (s : jstring) (p : Z) : cmd :=
  MkCmd (num_chars c) (prompt_len c) (mask c) s p (prompt c) (enabled c) (name c)
        (history c) (view c).
Definition with_history (c : cmd) (h : History.t) : cmd :=
  MkCmd (num_chars c) (prompt_len c) (mask c) (command c) (position c) (prompt c)
        (enabled c) (name c) h (view c).
Definition with_name (c : cmd) (n : jstring) (h : History.t) : cmd :=
  MkCmd (num_chars c) (prompt_len c) (mask c) (command c) (position c) (prompt c)
        (enabled c) n h (view c).
Definition with_prompt (c : cmd) (p : prompt_t) (l : option Z) : cmd :=
  MkCmd (num_chars c) l (mask c) (command c) (position c) p (enabled c) (name c)
        (history c) (view c).
Definition with_enabled (c : cmd) (b : bool) : cmd :=
  MkCmd (num_chars c) (prompt_len c) (mask c) (command c) (position c) (prompt c) b
        (name c) (history c) (view c).
Definition with_mask (c : cmd) (b : bool) : cmd :=
  MkCmd (num_chars c) (prompt_len c) b (command c) (position c) (prompt c) (enabled c)
        (name c) (history c) (view c).
Definition with_num_chars (c : cmd) (n : Z) : cmd :=
  MkCmd (Some n) (prompt_len c) (mask c) (command c) (position c) (prompt c) (enabled c)
        (name c) (history c) (view c).
Definition with_view (c : cmd) (v : option CmdView.view) : cmd :=
  MkCmd (num_chars c) (prompt_len c) (mask c) (command c) (position c) (prompt c)
        (enabled c) (name c) (history c) v.

(** The view that [redraw] draws now: an undefined [num_chars] or [prompt_len]
    makes every comparison with their difference false. *)
Definition layout (c : cmd) : option CmdView.view :=
  match prompt_len c with
  | Some p => CmdView.redraw (mask c) (command c) (position c) (num_chars c) p
  | None => CmdView.redraw (mask c) (command c) (position c) None 0
  end.

Definition redraw (c : cmd) : cmd := with_view c (layout c).

(** ** The methods *)

(** src/experiments/repl/src/main/webapp/terminal/jquery.terminal-0.3.3.js:1007-1021
    [draw_prompt] *)
Definition draw_prompt (c : cmd) : cmd * list effect :=
  match prompt c with
  | PString s => (with_prompt c (prompt c) (Some (zlen s)), [])
  | PFun f => (c, [EPrompt f])
  end.

(** src/experiments/repl/src/main/webapp/terminal/jquery.terminal-0.3.3.js:1014-1017
    the callback handed to a function prompt. *)
Definition prompt_reply (c : cmd) (string : jstring) : cmd :=
  with_prompt c (prompt c) (Some (zlen string)).

(** src/experiments/repl/src/main/webapp/terminal/jquery.terminal-0.3.3.js:1205-1213
    [set]; [None] is [undefined]. *)
Definition set (c : cmd) (string : option jstring) (stay : bool) : cmd :=
  match string with
  | Some s => redraw (with_text c s (if stay then position c else zlen s))
  | None => c
  end.

(** src/experiments/repl/src/main/webapp/terminal/jquery.terminal-0.3.3.js:1214-1227
    [insert] *)
Definition insert (c : cmd) (string : jstring) (stay : bool) : cmd :=
  let cm :=
    if position c =? zlen (command c) then command c ++ string
    else if position c =? 0 then string ++ command c
    else slice 0 (position c) (command c) ++ string ++ slice_from (position c) (command c) in
  redraw (with_text c cm (if stay then position c else position c + zlen string)).

(** src/experiments/repl/src/main/webapp/terminal/jquery.terminal-0.3.3.js:1255-1262
    [position(n)] *)
Definition set_position (c : cmd) (n : Z) : cmd :=
  redraw (with_text c (command c)
    (if n <? 0 then 0 else if zlen (command c) <? n then zlen (command c) else n)).

(** src/experiments/repl/src/main/webapp/terminal/jquery.terminal-0.3.3.js:1242-1254
    [prompt(user_prompt)]; [None] is an argument that is neither string nor
    function, and the call throws. *)
Definition set_prompt (c : cmd) (user_prompt : option prompt_t) : option (cmd * list effect) :=
  match user_prompt with
  | Some p => Some (draw_prompt (with_prompt c p (prompt_len c)))
  | None => None
  end.

(** src/experiments/repl/src/main/webapp/terminal/jquery.terminal-0.3.3.js:1263-1270
    [resize(num)]; [measured] is what [change_num_chars] computes from the page. *)
Definition resize (c : cmd) (num measured : Z) : cmd :=
  redraw (with_num_chars c (if num =? 0 then measured else num)).

(** src/experiments/repl/src/main/webapp/terminal/jquery.terminal-0.3.3.js:1271-1276
    [enable] *)
Definition enable (c : cmd) : cmd * list effect :=
  if enabled c then (c, []) else (with_enabled c true, [EBlinkOn]).

(** src/experiments/repl/src/main/webapp/terminal/jquery.terminal-0.3.3.js:1280-1286
    [disable] *)
Definition disable (c : cmd) : cmd * list effect :=
  if enabled c then (with_enabled c false, [EBlinkOff]) else (c, []).

(** src/experiments/repl/src/main/webapp/terminal/jquery.terminal-0.3.3.js:1287-1294
    [mask(display)] *)
Definition set_mask (c : cmd) (display : bool) : cmd := redraw (with_mask c display).

Section storage.
Context {S : Type} `{KV S}.

(** src/experiments/repl/src/main/webapp/terminal/jquery.terminal-0.3.3.js:1194-1201
    [name(string)]: a new name loads its own history. *)
Definition set_name (c : cmd) (string : jstring) (s : S) : option cmd :=
  with_name c string <$> History.make string s.

(** src/experiments/repl/src/main/webapp/terminal/jquery.terminal-0.3.3.js:1298-1303
    the initialisation: name, prompt, [draw_prompt], [enable].
    [options.enabled] is [None] when the option is missing. *)
Definition init (opt_name : jstring) (opt_prompt : prompt_t) (opt_enabled : option bool)
    (opt_mask : bool) (s : S) : option (cmd * list effect) :=
  h ← History.make opt_name s;
  let c := MkCmd None None opt_mask [] 0 opt_prompt
             (match opt_enabled with Some b => b | None => false end) opt_name h None in
  let '(c, es) := draw_prompt c in
  match opt_enabled with
  | Some false => Some (c, es)
  | _ => let '(c, es') := enable c in Some (c, es ++ es')
  end.
End storage.

(** ** Word motions *)

(** src/experiments/repl/src/main/webapp/terminal/jquery.terminal-0.3.3.js:1080-1086
    the loop [for (var i = len; i > 0; --i)] of CTRL+LEFT. *)
Fixpoint word_left_loop (command : jstring) (i : nat) : Z :=
  match i with
  | O => 0
  | S i' =>
      if bool_decide (command !! i = Some c_space)
         && negb (bool_decide (command !! S i = Some c_space))
      then Z.of_nat i + 1
      else word_left_loop command i'
  end.

(** src/experiments/repl/src/main/webapp/terminal/jquery.terminal-0.3.3.js:1075-1087
    CTRL+LEFT: the position it moves to. *)
Definition word_left (command : jstring) (position : Z) : Z :=
  let len := position - 1 in
  let len := if bool_decide (znth command len = Some c_space) then len - 1 else len in
  word_left_loop command (Z.to_nat len).

Definition is_space (c : Z) : bool := c =? c_space.
Definition not_space (c : Z) : bool := negb (c =? c_space).

(** src/experiments/repl/src/main/webapp/terminal/jquery.terminal-0.3.3.js:1103-1103
    the leftmost match of the expression of CTRL+RIGHT, with its index: a
    character and two or more spaces, or spaces and at most one character. *)
Fixpoint match_word_right (s : jstring) (index : Z) : option (Z * jstring) :=
  match s with
  | [] => None
  | c :: r =>
      if is_space c then
        let '(sp, r') := Term.span is_space r in
        Some (index, c :: sp ++ take 1 r')
      else
        let sp := (Term.span is_space r).1 in
        if 2 <=? zlen sp then Some (index, c :: sp) else match_word_right r (index + 1)
  end.

(** src/experiments/repl/src/main/webapp/terminal/jquery.terminal-0.3.3.js:1099-1115
    CTRL+RIGHT: the position it moves to. *)
Definition word_right (command : jstring) (position : Z) : Z :=
  let position :=
    if bool_decide (znth command position = Some c_space) then position + 1 else position in
  match match_word_right (slice_from position command) 0 with
  | None => zlen command
  | Some (index, m) =>
      if forallb is_space m then zlen command
      else if bool_decide (head m = Some c_space) then
        let position := position + (index + zlen m - 1) in
        if bool_decide (last m = Some c_space) then position else position - 1
      else position + (index + 1)
  end.

(** src/experiments/repl/src/main/webapp/terminal/jquery.terminal-0.3.3.js:1175-1175
    the replacement of ALT+D: the first run of characters other than space, with
    one space after it, is dropped. *)
Definition kill_word (s : jstring) : jstring :=
  let '(sp, r) := Term.span is_space s in
  let '(w, r') := Term.span not_space r in
  match r' with
  | 32 :: r'' => if decide (w = []) then s else sp ++ r''
  | _ => sp ++ r'
  end.
End Cmd.
