(* ===== verification/CmdKeys.v ===== *)
(** * The key handlers of the command line

    [keydown] and [keypress] branch by branch, and the invariant of the editor:
    the position stays inside the command and the lines on the page spell the
    command ([shows] of [CmdView], which does not mention the layout). *)
From S2P Require Import Prelude JsString TermText TermStruct Storage History CmdView Cmd.

Module Keys.
Import Cmd.

(** What a handler leaves: the plugin's variables, the storage, its calls and
    its return value. *)
Record res (S : Type) := Res { r_cmd : cmd; r_store : S; r_eff : list effect; r_ret : ret }.
Arguments Res {S}. Arguments r_cmd {S}. Arguments r_store {S}.
Arguments r_eff {S}. Arguments r_ret {S}.

Section keys.
Context {S : Type} `{KV S}.

(** src/experiments/repl/src/main/webapp/terminal/jquery.terminal-0.3.3.js:1029-1041
    ENTER *)
Definition key_enter (c : cmd) (s : S) : res S :=
  let '(h, s) :=
    match command c with
    | [] => (history c, s)
    | _ => History.append (history c) (command c) s
    end in
  let c := with_history c (History.last h) in
  let tmp := command c in
  let c := set c (Some []) false in
  let '(c, es) := match prompt c with PFun _ => draw_prompt c | PString _ => (c, []) end in
  Res c s (es ++ [ECommands tmp]) RFalse.

(** src/experiments/repl/src/main/webapp/terminal/jquery.terminal-0.3.3.js:1044-1050
    BACKSPACE *)
Definition key_backspace (c : cmd) : cmd :=
  if negb (bool_decide (command c = [])) && (0 <? position c) then
    redraw (with_text c (slice 0 (position c - 1) (command c)
                         ++ slice (position c) (zlen (command c)) (command c))
                      (position c - 1))
  else c.

(** src/experiments/repl/src/main/webapp/terminal/jquery.terminal-0.3.3.js:1053-1060
    DELETE and CTRL+D *)
Definition key_delete (c : cmd) : cmd :=
  if negb (bool_decide (command c = [])) && (position c <? zlen (command c)) then
    redraw (with_text c (slice 0 (position c) (command c)
                         ++ slice (position c + 1) (zlen (command c)) (command c))
                      (position c))
  else c.

(** src/experiments/repl/src/main/webapp/terminal/jquery.terminal-0.3.3.js:1061-1068
    UP, CTRL+P and DOWN, CTRL+N *)
Definition key_history (c : cmd) (move : History.t -> History.t * option jstring) : cmd :=
  let '(h, line) := move (history c) in set (with_history c h) line false.

(** src/experiments/repl/src/main/webapp/terminal/jquery.terminal-0.3.3.js:1071-1094
    LEFT, CTRL+B and CTRL+LEFT *)
Definition key_left (c : cmd) (e : event) : cmd :=
  if ctrlKey e && negb (which e =? 66) then set_position c (word_left (command c) (position c))
  else if 0 <? position c then redraw (with_text c (command c) (position c - 1)) else c.

(** src/experiments/repl/src/main/webapp/terminal/jquery.terminal-0.3.3.js:1095-1122
    RIGHT, CTRL+F and CTRL+RIGHT *)
Definition key_right (c : cmd) (e : event) : cmd :=
  if ctrlKey e && negb (which e =? 70) then
    redraw (with_text c (command c) (word_right (command c) (position c)))
  else if position c <? zlen (command c) then redraw (with_text c (command c) (position c + 1))
  else c.

(** src/experiments/repl/src/main/webapp/terminal/jquery.terminal-0.3.3.js:1130-1170
    the remaining keys with CTRL. *)
Definition key_ctrl (c : cmd) (e : event) : cmd * list effect * ret :=
  let w := which e in
  if shiftKey e then (c, [], if w =? 84 then RTrue else RFalse)
  else if altKey e then (c, [], RFalse)
  else if w =? 65 then (set_position c 0, [], RFalse)
  else if w =? 69 then (set_position c (zlen (command c)), [], RFalse)
  else if (w =? 88) || (w =? 67) || (w =? 87) || (w =? 84) then (c, [], RTrue)
  else if w =? 86 then (c, [EPaste], RTrue)
  else if w =? 75 then
    (if position c =? 0 then set c (Some []) false
     else if negb (position c =? zlen (command c))
          then set c (Some (slice 0 (position c) (command c))) false
          else c, [], RFalse)
  else if w =? 17 then (c, [], RTrue)
  else (c, [], RFalse).

(** src/experiments/repl/src/main/webapp/terminal/jquery.terminal-0.3.3.js:1022-1190
    [keydown_event]; [veto] says that [options.keydown(e)] answered [false]. *)
Definition keydown (veto : bool) (e : event) (c : cmd) (s : S) : res S :=
  let w := which e in
  let ok c := Res c s [] RFalse in
  if veto then Res c s [] RFalse
  else if enabled c then
    if keyCode e =? 13 then key_enter c s
    else if w =? 32 then ok (insert c [c_space] false)
    else if w =? 8 then ok (key_backspace c)
    else if (w =? 9) && negb (ctrlKey e || altKey e) then ok (insert c [c_tab] false)
    else if (w =? 46) || ((w =? 68) && ctrlKey e) then Res (key_delete c) s [] RTrue
    else if (w =? 38) || ((w =? 80) && ctrlKey e) then ok (key_history c History.previous)
    else if (w =? 40) || ((w =? 78) && ctrlKey e) then ok (key_history c History.next)
    else if w =? 27 then ok (set c (Some []) false)
    else if (w =? 37) || ((w =? 66) && ctrlKey e) then ok (key_left c e)
    else if (w =? 39) || ((w =? 70) && ctrlKey e) then ok (key_right c e)
    else if w =? 123 then Res c s [] RTrue
    else if w =? 36 then ok (set_position c 0)
    else if w =? 35 then ok (set_position c (zlen (command c)))
    else if ctrlKey e then
      let '(c, es, r) := key_ctrl c e in Res c s es r
    else if altKey e then
      if w =? 68 then
        ok (set c (Some (slice 0 (position c) (command c)
                         ++ kill_word (slice_from (position c) (command c)))) true)
      else ok c
    else Res c s [] RTrue
  else
    if (altKey e && (w =? 68))
       || (ctrlKey e && Term.has [65; 66; 68; 69; 80; 78; 70] w)
       || Term.has [35; 36; 37; 38; 39; 40] w
    then Res c s [] RFalse
    else Res c s [] RUndefined.

(** [String.fromCharCode] *)
Definition fromCharCode (n : Z) : jstring := [n mod 65536].

(** src/experiments/repl/src/main/webapp/terminal/jquery.terminal-0.3.3.js:1305-1331
    the [keypress] handler; [result] is what [options.keypress(e)] answered
    ([None] for [undefined]), and [c] the state it left. *)
Definition keypress (result : option bool) (e : event) (c : cmd) : cmd * ret :=
  let w := which e in
  let last c := (c, if (w =? 100) && ctrlKey e then RFalse else RUndefined) in
  if ctrlKey e && (w =? 99) then (c, RTrue)
  else
    match result with
    | Some false => (c, RFalse)
    | _ =>
        if enabled c then
          if Term.has [38; 32; 13; 40; 0; 8] w && negb (keyCode e =? 123)
             && negb (((w =? 40) && shiftKey e) || ((w =? 38) && shiftKey e))
          then (c, RFalse)
          else if negb (ctrlKey e) && negb (altKey e && (w =? 100))
          then (insert c (fromCharCode w) false, RFalse)
          else last c
        else last c
    end.

(** src/experiments/repl/src/main/webapp/terminal/jquery.terminal-0.3.3.js:1154-1158
    the timer of CTRL+V: the clipboard's text is inserted. *)
Definition paste (v : jstring) (c : cmd) : cmd := insert c v false.
End keys.

(** ** Functional behaviour of the editing operations *)
Definition wf (c : cmd) : Prop := 0 <= position c <= zlen (command c).

(** The text that the page is to show. *)
Definition shown_text (c : cmd) : jstring :=
  if mask c then replace_dot c_star (command c) else command c.

(** Where the cursor is drawn on a terminal of width [n] behind a prompt of length
    [p]: at the position, but one character early in the middle line of three. *)
Definition caret_at (n p : option Z) (c : cmd) : Z :=
  match n, p with
  | Some n, Some p =>
      if CmdView.three_line_middle n p (position c) (zlen (command c)) then position c - 1 else position c
  | _, _ => position c
  end.

(** The page shows the command, laid out behind a prompt of length [p]. *)
Definition page_shows (p : option Z) (c : cmd) : Prop :=
  exists v, view c = Some v /\ CmdView.shows v (shown_text c) (caret_at (num_chars c) p c).

(** The prompt leaves room for a character in the first line. *)
Definition room (n p : option Z) : Prop :=
  match n, p with Some n, Some p => 0 <= p /\ p + 1 <= n | _, _ => True end.
Definition fits (c : cmd) : Prop := room (num_chars c) (prompt_len c).

Lemma redraw_page c : wf c -> fits c -> page_shows (prompt_len c) (redraw c).
Proof.
  unfold wf, fits, room, page_shows, caret_at, shown_text, redraw, layout. intros Hw Hf.
  cbn [view with_view num_chars mask command position].
  destruct (num_chars c) as [n|], (prompt_len c) as [p|];
    (apply CmdView.redraw_shows; lia) || by apply CmdView.redraw_unsized_shows.
Qed.

(** The three branches of [insert] are one insertion at the position. *)
Lemma insert_spec c string stay :
  wf c ->
  command (insert c string stay)
    = ztake (position c) (command c) ++ string ++ zdrop (position c) (command c)
  /\ position (insert c string stay)
    = (if stay then position c else position c + zlen string).
Proof.
  unfold wf. intros Hw. unfold insert. cbn [command position redraw with_view with_text].
  split; [| done].
  destruct (Z.eqb_spec (position c) (zlen (command c))) as [->|Hne].
  - rewrite ztake_all, zdrop_all by lia. by rewrite app_nil_r.
  - destruct (Z.eqb_spec (position c) 0) as [->|H0].
    + by rewrite ztake_nonpos, zdrop_nonpos by lia.
    + by rewrite slice_0_id, slice_from_id by lia.
Qed.

Lemma insert_wf c string stay : wf c -> wf (insert c string stay).
Proof.
  intros Hw. destruct (insert_spec c string stay Hw) as (Hc & Hp).
  unfold wf in *. rewrite Hc, Hp, !zlen_app, zlen_ztake_le, zlen_zdrop by lia.
  note_lengths. destruct stay; lia.
Qed.

Lemma backspace_spec c :
  wf c ->
  command (key_backspace c) = ztake (position c - 1) (command c) ++ zdrop (position c) (command c)
  /\ position (key_backspace c) = Z.max 0 (position c - 1).
Proof.
  unfold wf, key_backspace. intros Hw. case_bool_decide as Hc; simpl.
  - rewrite Hc in Hw |- *. change (zlen (@nil Z)) with 0 in Hw. unfold ztake, zdrop. rewrite take_nil, drop_nil.
    split; [done | lia].
  - destruct (Z.ltb_spec 0 (position c)); simpl.
    + rewrite slice_0_id, slice_to_end by lia. split; [done | lia].
    + rewrite ztake_nonpos, zdrop_nonpos by lia. split; [done | lia].
Qed.

Lemma delete_spec c :
  wf c ->
  command (key_delete c) = ztake (position c) (command c) ++ zdrop (position c + 1) (command c)
  /\ position (key_delete c) = position c.
Proof.
  unfold wf, key_delete. intros Hw. case_bool_decide as Hc; simpl.
  - rewrite Hc. unfold ztake, zdrop. by rewrite take_nil, drop_nil.
  - destruct (Z.ltb_spec (position c) (zlen (command c))); simpl.
    + by rewrite slice_0_id, slice_to_end by lia.
    + by rewrite ztake_all, zdrop_all, app_nil_r by lia.
Qed.

(** Typing a character and pressing BACKSPACE gives the command back. *)
Theorem insert_backspace c x :
  wf c ->
  command (key_backspace (insert c [x] false)) = command c
  /\ position (key_backspace (insert c [x] false)) = position c.
Proof.
  intros Hw. pose proof (insert_wf c [x] false Hw) as Hw'.
  destruct (backspace_spec _ Hw') as [Hc Hp]. destruct (insert_spec c [x] false Hw) as (Ic & Ip).
  unfold wf in Hw. rewrite Hc, Hp, Ic, Ip.
  change (zlen [x]) with 1. replace (position c + 1 - 1) with (position c) by lia.
  assert (zlen (ztake (position c) (command c)) = position c) as Hl by (apply zlen_ztake_le; lia).
  split; [|lia]. pose proof (ztake_zdrop (position c) (command c)) as Htd.
  set (A := ztake (position c) (command c)) in *. set (B := zdrop (position c) (command c)) in *.
  replace (ztake (position c) (A ++ [x] ++ B)) with A.
  2: { rewrite ztake_app_le by lia. rewrite ztake_all by lia. done. }
  rewrite (app_assoc A [x] B). replace (position c + 1) with (zlen (A ++ [x])).
  2: { rewrite zlen_app, Hl. done. }
  by rewrite zdrop_app_len.
Qed.

(** ** Word motions *)
Lemma word_left_loop_spec s i :
  0 <= word_left_loop s i <= Z.of_nat i + 1
  /\ (word_left_loop s i = 0 \/
      (znth s (word_left_loop s i - 1) = Some c_space
       /\ znth s (word_left_loop s i) <> Some c_space)).
Proof.
  induction i as [|i IH]; cbn [word_left_loop]; [split; [lia | by left]|].
  destruct (bool_decide (s !! S i = Some c_space)) eqn:E1; cbn [andb]; [|lia || (destruct IH; split; [lia|done])].
  destruct (bool_decide (s !! S (S i) = Some c_space)) eqn:E2; cbn [negb];
    [destruct IH; split; [lia|done]|].
  apply bool_decide_eq_true in E1. apply bool_decide_eq_false in E2.
  split; [lia|]. right. unfold znth. rewrite !decide_False by lia.
  replace (Z.to_nat (Z.of_nat (S i) + 1 - 1)) with (S i) by lia.
  by replace (Z.to_nat (Z.of_nat (S i) + 1)) with (S (S i)) by lia.
Qed.

(** CTRL+LEFT lands on the first character of a word, strictly to the left. *)
Lemma word_left_spec s p :
  0 < p <= zlen s ->
  0 <= word_left s p < p
  /\ (word_left s p = 0 \/ (znth s (word_left s p - 1) = Some c_space
                            /\ znth s (word_left s p) <> Some c_space)).
Proof.
  intros Hp. unfold word_left.
  set (len := if bool_decide (znth s (p - 1) = Some c_space) then p - 1 - 1 else p - 1).
  destruct (word_left_loop_spec s (Z.to_nat len)) as [Hr Hb].
  split; [|done]. destruct (bool_decide (znth s (p - 1) = Some c_space)) eqn:E; subst len.
  - split; [lia|]. destruct (decide (p = 1)) as [->|]; [|lia]. simpl. lia.
  - apply bool_decide_eq_false in E.
    destruct (decide (word_left_loop s (Z.to_nat (p - 1)) < p)); [lia|].
    destruct Hb as [Hb|[Hb _]]; [lia|]. exfalso.
    replace (word_left_loop s (Z.to_nat (p - 1)) - 1) with (p - 1) in Hb by lia. done.
Qed.

Lemma span_space s :
  exists n r, Term.span is_space s = (replicate n c_space, r)
    /\ s = replicate n c_space ++ r /\ head r <> Some c_space.
Proof.
  induction s as [|c s (n & r & E & Hs & Hr)]; [by exists 0%nat, []|]. simpl.
  destruct (is_space c) eqn:Hc; unfold is_space in Hc.
  - apply Z.eqb_eq in Hc as ->. rewrite E. exists (1 + n)%nat, r. simpl. split_and!; [done | congruence | done].
  - apply Z.eqb_neq in Hc. exists 0%nat, (c :: s). split_and!; [done | done |].
    simpl. congruence.
Qed.

(** What CTRL+RIGHT matches, in front of and behind it. *)
Lemma match_word_right_spec s k i m :
  match_word_right s k = Some (i, m) ->
  exists a b, s = a ++ m ++ b /\ zlen a = i - k /\
    ((exists n x, m = replicate (1 + n) c_space ++ [x] /\ x <> c_space /\
        (head s <> Some c_space -> 0 < zlen a))
     \/ (exists n, m = replicate (1 + n) c_space /\ b = [])
     \/ (exists n x, m = x :: replicate (2 + n) c_space /\ x <> c_space)).
Proof.
  revert k; induction s as [|c s IH]; intros k; [done|]. simpl.
  destruct (span_space s) as (n & r & E & Hs & Hr). rewrite E.
  destruct (is_space c) eqn:Hc; unfold is_space in Hc;
    [apply Z.eqb_eq in Hc as -> | apply Z.eqb_neq in Hc].
  - intros [= <- <-]. exists [], (drop 1 r). rewrite Z.sub_diag.
    split_and!; [|done|].
    + simpl. rewrite <- app_assoc, take_drop. congruence.
    + destruct r as [|x r]; simpl.
      * right; left. exists n. by rewrite app_nil_r.
      * left. exists n, x. split_and!; [done | by intros -> | done].
  - simpl. destruct (Z.leb_spec 2 (zlen (replicate n c_space))) as [Hn|Hn].
    + intros [= <- <-]. exists [], r. rewrite Z.sub_diag. split_and!; [simpl; congruence | done |].
      right; right. unfold zlen in Hn. rewrite length_replicate in Hn.
      destruct n as [|[|n]]; [lia..|]. by exists n, c.
    + intros H1. destruct (IH _ H1) as (a & b & Hab & Hl & Hcase).
      exists (c :: a), b. split_and!; [simpl; congruence | jslia |].
      destruct Hcase as [(n' & x & -> & Hx & _)|[?|?]]; [left | by right; left | by right; right].
      exists n', x. split_and!; [done | done |]. intros _. jslia.
Qed.

Lemma forallb_replicate n : forallb is_space (replicate n c_space) = true.
Proof. induction n; [done|]. by simpl. Qed.

Lemma znth_after (a m b : jstring) j :
  0 <= j < zlen m -> znth (a ++ m ++ b) (zlen a + j) = znth m j.
Proof.
  intros Hj. pose proof (zlen_nonneg a). unfold znth. rewrite !decide_False by lia.
  unfold zlen in *. rewrite lookup_app_r by lia.
  replace (Z.to_nat (Z.of_nat (length a) + j) - length a)%nat with (Z.to_nat j) by lia.
  apply lookup_app_l. lia.
Qed.

(** Where CTRL+RIGHT lands when it starts in front of [s]: the end of [s] or a
    space, and past the front unless [s] is a space and a word. *)
Lemma word_right_land s q :
  0 <= q ->
  match match_word_right s 0 with
  | None => True
  | Some (index, m) =>
      let p := if forallb is_space m then q + zlen s
        else if bool_decide (head m = Some c_space) then
          let position := q + (index + zlen m - 1) in
          if bool_decide (last m = Some c_space) then position else position - 1
        else q + (index + 1) in
      q <= p <= q + zlen s /\ (p = q + zlen s \/ znth s (p - q) = Some c_space)
      /\ (head s <> Some c_space -> s <> [] -> q < p)
  end.
Proof.
  intros Hq. destruct (match_word_right s 0) as [[i m]|] eqn:E; [|done].
  destruct (match_word_right_spec _ _ _ _ E) as (a & b & Hs & Ha & Hcase).
  rewrite Z.sub_0_r in Ha. pose proof (zlen_nonneg a). pose proof (zlen_nonneg b).
  destruct Hcase as [(n & x & Hm & Hx & Hh)|[(n & Hm & ->)|(n & x & Hm & Hx)]].
  - assert (zlen m = Z.of_nat n + 2) as Hlm.
    { rewrite Hm. unfold zlen. rewrite length_app, length_replicate. simpl. lia. }
    assert (zlen s = zlen a + zlen m + zlen b) as Hls by (rewrite Hs, !zlen_app; lia).
    replace (forallb is_space m) with false.
    2: { rewrite Hm, forallb_app, forallb_replicate. simpl. unfold is_space.
         by rewrite (proj2 (Z.eqb_neq _ _) Hx). }
    rewrite bool_decide_true by by rewrite Hm.
    rewrite bool_decide_false.
    2: { rewrite Hm, last_snoc. congruence. }
    cbv zeta. split_and!; [lia | lia | | intros H1 _; specialize (Hh H1); lia].
    right. replace (q + (i + zlen m - 1) - 1 - q) with (zlen a + Z.of_nat n) by lia.
    rewrite Hs, znth_after by lia. rewrite Hm. unfold znth. rewrite decide_False by lia.
    rewrite Nat2Z.id, lookup_app_l by (rewrite length_replicate; lia).
    by apply lookup_replicate_2; lia.
  - replace (forallb is_space m) with true by (by rewrite Hm, forallb_replicate).
    cbv zeta. pose proof (zlen_nonneg s). split_and!; [lia | lia | by left |].
    intros _ Hne. destruct s; [done|]. jslia.
  - assert (zlen m = Z.of_nat n + 3) as Hlm.
    { rewrite Hm. unfold zlen. simpl. rewrite length_replicate. lia. }
    assert (zlen s = zlen a + zlen m + zlen b) as Hls by (rewrite Hs, !zlen_app; lia).
    replace (forallb is_space m) with false.
    2: { rewrite Hm. simpl. unfold is_space. by rewrite (proj2 (Z.eqb_neq _ _) Hx). }
    rewrite bool_decide_false by (rewrite Hm; simpl; congruence).
    cbv zeta. split_and!; [lia | lia | | lia].
    right. replace (q + (i + 1) - q) with (zlen a + 1) by lia.
    rewrite Hs, znth_after by lia. by rewrite Hm.
Qed.

(** CTRL+RIGHT moves strictly to the right, to a space or to the end. *)
Lemma word_right_spec s p :
  0 <= p < zlen s ->
  p < word_right s p <= zlen s
  /\ (word_right s p = zlen s \/ znth s (word_right s p) = Some c_space).
Proof.
  intros Hp. unfold word_right.
  set (q := if bool_decide (znth s p = Some c_space) then p + 1 else p).
  assert (p <= q <= zlen s) as Hq by (unfold q; case_bool_decide; lia).
  rewrite slice_from_id by lia. pose proof (word_right_land (zdrop q s) q ltac:(lia)) as Hw.
  destruct (match_word_right (zdrop q s) 0) as [[i m]|]; [|split; [lia | by left]].
  cbv zeta in *. rewrite zlen_zdrop in Hw by lia.
  replace (q + (zlen s - q)) with (zlen s) in Hw by lia.
  destruct Hw as (H1 & H2 & H3).
  match type of H1 with _ <= ?r <= _ => set (r0 := r) in * end.
  split.
  - split; [|lia]. unfold q in H3, H1. case_bool_decide as Hsp; [lia|].
    apply H3.
    + intros Hh. apply Hsp. unfold zdrop in Hh. unfold znth. rewrite decide_False by lia.
      rewrite head_lookup, lookup_drop in Hh. by rewrite Nat.add_0_r in Hh.
    + intros Hn. apply (f_equal zlen) in Hn. rewrite zlen_zdrop in Hn by lia.
      change (zlen (@nil Z)) with 0 in Hn. lia.
  - destruct H2 as [H2|H2]; [by left | right].
    unfold znth, zdrop in *. case_decide; [done|]. rewrite decide_False by lia.
    rewrite lookup_drop in H2. rewrite <- H2. f_equal. lia.
Qed.

(** ** The invariant *)

(** The position is inside the command, the prompt still fits, and what the page
    shows is up to date: laid out as before, or drawn anew. *)
Definition keeps (c c' : cmd) : Prop :=
  wf c' /\ fits c' /\ prompt_len c' = prompt_len c
  /\ forall p, page_shows p c -> page_shows p c' \/ page_shows (prompt_len c') c'.

Definition good (c : cmd) : Prop := wf c /\ fits c.

Lemma keeps_refl c : good c -> keeps c c.
Proof. intros [Hw Hf]. split_and!; auto. Qed.

Lemma keeps_redraw c c' :
  wf c' -> fits c' -> prompt_len c' = prompt_len c -> keeps c (redraw c').
Proof. intros Hw Hf Hp. split_and!; [done..|]. intros p _. right. exact (redraw_page c' Hw Hf). Qed.

(** The text and the position are all that changes. *)
Lemma keeps_text c c' s p : good c -> 0 <= p <= zlen s ->
  num_chars c' = num_chars c -> prompt_len c' = prompt_len c -> keeps c (redraw (with_text c' s p)).
Proof.
  intros [_ Hf] Hp Hn Hl. apply keeps_redraw; [exact Hp | | exact Hl].
  unfold fits. cbn [num_chars prompt_len with_text]. by rewrite Hn, Hl.
Qed.

Lemma keeps_set c s : good c -> keeps c (set c s false).
Proof.
  intros Hg. destruct s as [s|]; [|by apply keeps_refl]. apply keeps_text; [done | jslia | done..].
Qed.

Lemma keeps_history c h : good c -> keeps c (with_history c h).
Proof. intros [Hw Hf]. split_and!; [done..|]. intros p Hp. left. exact Hp. Qed.

Lemma keeps_good c c' : keeps c c' -> good c'.
Proof. by intros (Hw & Hf & _). Qed.

Lemma keeps_trans c1 c2 c3 : keeps c1 c2 -> keeps c2 c3 -> keeps c1 c3.
Proof.
  intros (_ & _ & E2 & H2) (Hw & Hf & E3 & H3). split_and!; [done | done | congruence|].
  intros p Hp. destruct (H2 p Hp) as [H | H]; apply H3 in H as [H | H]; auto. right. by rewrite E3.
Qed.

Lemma keeps_insert c s stay : good c -> keeps c (insert c s stay).
Proof.
  intros Hg. pose proof (insert_wf c s stay (proj1 Hg)) as Hw. unfold insert in *. by apply keeps_text.
Qed.

Lemma keeps_position c n : good c -> keeps c (set_position c n).
Proof.
  intros Hg. pose proof (proj1 Hg) as Hw. unfold wf in Hw. apply keeps_text; [done | | done..].
  destruct (Z.ltb_spec n 0); [lia|]. destruct (Z.ltb_spec (zlen (command c)) n); lia.
Qed.

Lemma keeps_backspace c : good c -> keeps c (key_backspace c).
Proof.
  intros Hg. pose proof (proj1 Hg) as Hw. destruct (backspace_spec c Hw) as [Hc Hp].
  assert (wf (key_backspace c)) as Hw'.
  { unfold wf in *. rewrite Hp, Hc. pose proof (zlen_nonneg (command c)).
    rewrite zlen_app, zlen_zdrop by lia.
    destruct (decide (position c = 0)) as [->|]; [rewrite ztake_nonpos by lia; jslia|].
    rewrite zlen_ztake_le by lia. lia. }
  unfold key_backspace in *. case_match; [by apply keeps_text | by apply keeps_refl].
Qed.

Lemma keeps_delete c : good c -> keeps c (key_delete c).
Proof.
  intros Hg. pose proof (proj1 Hg) as Hw. destruct (delete_spec c Hw) as [Hc Hp].
  assert (wf (key_delete c)) as Hw'.
  { unfold wf in *. rewrite Hp, Hc, zlen_app, zlen_ztake_le by lia. note_lengths. lia. }
  unfold key_delete in *. case_match; [by apply keeps_text | by apply keeps_refl].
Qed.

Lemma keeps_left c e : good c -> keeps c (key_left c e).
Proof.
  intros Hg. pose proof (proj1 Hg) as Hw. unfold wf in Hw. unfold key_left. case_match; [by apply keeps_position|].
  destruct (Z.ltb_spec 0 (position c)); [|by apply keeps_refl]. apply keeps_text; [done | lia | done..].
Qed.

Lemma keeps_right c e : good c -> keeps c (key_right c e).
Proof.
  intros Hg. pose proof (proj1 Hg) as Hw. unfold wf in Hw. unfold key_right. case_match.
  - apply keeps_text; [done | | done..].
    destruct (decide (position c < zlen (command c))) as [Hlt|Hge].
    + destruct (word_right_spec (command c) (position c)); lia.
    + unfold word_right. rewrite bool_decide_false.
      2: { intros Hs. assert (is_Some (znth (command c) (position c))) as Hi by eauto.
           rewrite znth_is_Some in Hi. lia. }
      rewrite slice_from_id, zdrop_all by lia. simpl. lia.
  - destruct (Z.ltb_spec (position c) (zlen (command c))); [|by apply keeps_refl].
    apply keeps_text; [done | lia | done..].
Qed.

Lemma keeps_ctrl c e : good c -> keeps c (key_ctrl c e).1.1.
Proof.
  intros Hg. unfold key_ctrl. repeat case_match; cbn [fst];
    (apply keeps_position || apply keeps_set || apply keeps_refl); done.
Qed.

Section invariant.
Context {S : Type} `{KV S}.

Lemma keeps_move c move : good c -> keeps c (key_history c move).
Proof.
  intros Hg. unfold key_history. destruct (move (history c)) as [h line].
  eapply keeps_trans; [by apply (keeps_history c h) | by apply keeps_set, (keeps_good c), keeps_history].
Qed.

Lemma keeps_enter c (s : S) : good c -> keeps c (r_cmd (key_enter c s)).
Proof.
  intros Hg. unfold key_enter.
  destruct (match command c with [] => _ | _ => _ end) as [h s'].
  assert (keeps c (set (with_history c (History.last h)) (Some []) false)) as Hk.
  { eapply keeps_trans; [by apply (keeps_history c (History.last h))|].
    apply keeps_set, (keeps_good c), keeps_history, Hg. }
  unfold draw_prompt. by repeat case_match; simplify_eq/=.
Qed.

Lemma keeps_keydown veto e c (s : S) : good c -> keeps c (r_cmd (keydown veto e c s)).
Proof.
  intros Hg. unfold keydown. repeat (case_match; cbn [r_cmd]; try (by apply keeps_refl)).
  all: try (apply keeps_move || apply keeps_enter || apply keeps_insert || apply keeps_backspace
            || apply keeps_delete || apply keeps_set || apply keeps_left
            || apply keeps_right || apply keeps_position); try done.
  - match goal with H : key_ctrl c e = _ |- _ => 
      pose proof (keeps_ctrl c e Hg) as Hk; rewrite H in Hk; done end.
  - pose proof (proj1 Hg) as Hw. unfold wf in Hw. apply keeps_text; [done | | done..].
    rewrite zlen_app, slice_0_id, zlen_ztake_le by lia. note_lengths. lia.
Qed.

Lemma keeps_keypress result e c : good c -> keeps c (keypress result e c).1.
Proof.
  intros Hg. unfold keypress. repeat case_match; simpl; try (by apply keeps_refl).
  all: by apply keeps_insert.
Qed.
End invariant.

(** *** Any session of the editor *)

(** The key events, the timer of a paste, the answer of a function prompt, and the
    methods that change the state. *)
Inductive input :=
| IKeydown (veto : bool) (e : event)
| IKeypress (result : option bool) (e : event)
| IPaste (v : jstring)
| IReply (string : jstring)
| ISet (s : jstring) (stay : bool) | IInsert (s : jstring) (stay : bool)
| IPosition (n : Z) | IMask (b : bool) | IName (string : jstring)
| IPrompt (p : option prompt_t)
| IResize (num measured : Z) | IEnable | IDisable.

(** A text that is set with the cursor staying reaches the cursor; prompts, and
    widths, leave room for a character in the first line. *)
Definition allowed (i : input) (c : cmd) : Prop :=
  match i with
  | ISet s true => position c <= zlen s
  | IPrompt (Some (PString s)) | IReply s => room (num_chars c) (Some (zlen s))
  | IResize num measured => room (Some (if num =? 0 then measured else num)) (prompt_len c)
  | _ => True
  end.

(** The inputs that do not touch the prompt. *)
Definition keeps_prompt (i : input) : bool :=
  match i with IPrompt _ | IReply _ => false | _ => true end.

Section session.
Context {S : Type} `{KV S}.

Definition step (i : input) (c : cmd) (s : S) : cmd * S :=
  match i with
  | IKeydown veto e => (r_cmd (keydown veto e c s), r_store (keydown veto e c s))
  | IKeypress result e => ((keypress result e c).1, s)
  | IPaste v => (paste v c, s)
  | IReply t => (prompt_reply c t, s)
  | ISet t stay => (set c (Some t) stay, s)
  | IInsert t stay => (insert c t stay, s)
  | IPosition n => (set_position c n, s)
  | IMask b => (set_mask c b, s)
  | IName t => (default c (set_name c t s), s)
  | IPrompt p => (default c (fst <$> set_prompt c p), s)
  | IResize num measured => (resize c num measured, s)
  | IEnable => ((enable c).1, s)
  | IDisable => ((disable c).1, s)
  end.

Fixpoint run (qs : list input) (c : cmd) (s : S) : cmd * S :=
  match qs with
  | [] => (c, s)
  | i :: qs => run qs (step i c s).1 (step i c s).2
  end.

Fixpoint allowed_all (qs : list input) (c : cmd) (s : S) : Prop :=
  match qs with
  | [] => True
  | i :: qs => allowed i c /\ allowed_all qs (step i c s).1 (step i c s).2
  end.

Lemma keeps_step i c (s : S) : good c -> allowed i c -> keeps_prompt i = true -> keeps c (step i c s).1.
Proof.
  intros Hg Ha Hq. pose proof Hg as [Hw Hf]. unfold wf in Hw. destruct i; cbn [step fst]; try done.
  - by apply keeps_keydown.
  - by apply keeps_keypress.
  - by apply keeps_insert.
  - destruct stay; [|by apply keeps_set]. simpl in Ha. apply keeps_text; [done | lia | done..].
  - by apply keeps_insert.
  - by apply keeps_position.
  - by apply keeps_redraw.
  - unfold set_name. destruct (History.make _ _) as [h|]; [|by apply keeps_refl].
    split_and!; [done..|]. intros p Hp. left. exact Hp.
  - by apply keeps_redraw.
  - unfold enable. case_match; [by apply keeps_refl|]. split_and!; [done..|]. intros p Hp. left. exact Hp.
  - unfold disable. case_match; [|by apply keeps_refl]. split_and!; [done..|]. intros p Hp. left. exact Hp.
Qed.

(** A change of the prompt draws nothing. *)
Lemma prompt_step i c (s : S) :
  good c -> allowed i c -> keeps_prompt i = false ->
  good (step i c s).1 /\ forall p, page_shows p c -> page_shows p (step i c s).1.
Proof.
  intros [Hw Hf] Ha Hq. destruct i as [| | |t| | | | | |[[t|f]|]| | |]; try done;
    (split; [split; [exact Hw | first [exact Ha | exact Hf]] | by intros p Hp]).
Qed.

Lemma good_step i c (s : S) :
  good c -> allowed i c ->
  good (step i c s).1 /\ ((exists p, page_shows p c) -> exists p, page_shows p (step i c s).1).
Proof.
  intros Hg Ha. destruct (keeps_prompt i) eqn:Hq.
  - pose proof (keeps_step i c s Hg Ha Hq) as Hk. split; [by eapply keeps_good|].
    intros [p Hp]. destruct Hk as (_ & _ & _ & Hk). destruct (Hk p Hp); eauto.
  - destruct (prompt_step i c s Hg Ha Hq) as [Hg' Hk]. split; [done|]. intros [p Hp]. eauto.
Qed.

(** C6: Through any sequence of key events, pastes, answers of function prompts and
    calls of [set], [insert], [position], [mask], [name], [prompt], [resize],
    [enable] and [disable] the cursor stays inside the command, and the page shows
    exactly the command (stars for a masked one) with the cursor at its position,
    or one character early in the middle line of three.  It is laid out behind the
    prompt of the last drawing, which is the present one when the prompt was not
    changed.  Conditions: a text that is set with the cursor staying is at least
    as long as the position, and prompts leave room in the first line. *)
Theorem session_invariant qs c (s : S) :
  wf c -> fits c -> allowed_all qs c s -> (exists p, page_shows p c) ->
  wf (run qs c s).1 /\ (exists p, page_shows p (run qs c s).1)
  /\ (forallb keeps_prompt qs = true -> page_shows (prompt_len c) c ->
      page_shows (prompt_len (run qs c s).1) (run qs c s).1).
Proof.
  intros Hw Hf. revert c s Hw Hf; induction qs as [|i qs IH]; intros c s Hw Hf Ha Hs; [done|].
  destruct Ha as [Ha Hqs]. destruct (good_step i c s ltac:(done) Ha) as [[Hw' Hf'] Hs'].
  destruct (IH _ _ Hw' Hf' Hqs (Hs' Hs)) as (H1 & H2 & H3). split_and!; [done..|].
  cbn [forallb]. rewrite andb_true_iff. intros [Hq1 Hq2] Hp. apply H3; [done|].
  destruct (keeps_step i c s ltac:(done) Ha Hq1) as (_ & _ & E & Hk).
  destruct (Hk _ Hp) as [Hd|Hd]; [by rewrite E | done].
Qed.

(** A shorter text that is set with the cursor staying leaves the cursor outside. *)
Theorem set_stay_outside c t :
  zlen t < position c -> ~ wf (set c (Some t) true).
Proof. unfold wf. simpl. lia. Qed.
End session.

(** ** ENTER, and a disabled command line *)
Section enter.
Context {S : Type} `{KV S}.

(** ENTER hands the typed command over, clears the line and records the
    command, unless it is empty or the entry being shown. *)
Theorem enter_spec e c (s : S) :
  enabled c = true -> keyCode e = 13 ->
  let r := keydown false e c s in
  command (r_cmd r) = [] /\ position (r_cmd r) = 0
  /\ last (r_eff r) = Some (ECommands (command c)) /\ r_ret r = RFalse
  /\ BCycle.pos (History.bc (history (r_cmd r))) = 0
  /\ History.data (history (r_cmd r))
     = (if negb (bool_decide (command c = [])) && History.enabled (history c)
           && negb (bool_decide (BCycle.current (History.bc (history c)) = Some (command c)))
        then History.data (history c) ++ [command c] else History.data (history c)).
Proof.
  intros He Hk. unfold keydown. rewrite He, Hk. cbn [Z.eqb Pos.eqb]. unfold key_enter.
  destruct (match command c with [] => _ | _ => _ end) as [h s'] eqn:Eh.
  assert (History.data h = (if negb (bool_decide (command c = [])) && History.enabled (history c)
           && negb (bool_decide (BCycle.current (History.bc (history c)) = Some (command c)))
        then History.data (history c) ++ [command c] else History.data (history c))) as Hd.
  { destruct (command c) as [|x cm]; [by simplify_eq|]. unfold History.append in Eh.
    rewrite bool_decide_false by done. cbn [negb andb].
    by destruct (History.enabled (history c) && _); simplify_eq. }
  unfold draw_prompt. destruct (prompt c) as [p|f] eqn:Ep; cbn; rewrite ?Ep;
    (split_and!; [done..|]); exact Hd.
Qed.

(** A disabled command line changes nothing. *)
Theorem disabled_inert veto e result c (s : S) :
  enabled c = false ->
  r_cmd (keydown veto e c s) = c /\ r_store (keydown veto e c s) = s
  /\ r_eff (keydown veto e c s) = [] /\ (keypress result e c).1 = c.
Proof.
  intros He. unfold keydown, keypress. rewrite He.
  destruct veto; repeat case_match; done.
Qed.
End enter.

(** ** Word motions from the keyboard *)

(** CTRL+LEFT moves strictly to the left, to the first character of a word or to
    the start; CTRL+RIGHT strictly to the right, to a space or to the end; both
    leave the text alone. *)
Theorem ctrl_arrows_land c e :
  wf c -> ctrlKey e = true -> which e <> 66 -> which e <> 70 ->
  let l := key_left c e in
  let r := key_right c e in
  command l = command c /\ command r = command c
  /\ (0 < position c ->
      0 <= position l < position c
      /\ (position l = 0 \/ (znth (command c) (position l - 1) = Some c_space
                             /\ znth (command c) (position l) <> Some c_space)))
  /\ (position c < zlen (command c) ->
      position c < position r <= zlen (command c)
      /\ (position r = zlen (command c) \/ znth (command c) (position r) = Some c_space)).
Proof.
  intros Hw He H66 H70. unfold wf in Hw. unfold key_left, key_right. rewrite He.
  rewrite (proj2 (Z.eqb_neq _ _) H66), (proj2 (Z.eqb_neq _ _) H70). cbn [negb andb].
  split_and!; [done | done | |].
  - intros Hp. destruct (word_left_spec (command c) (position c)) as [Hr Hl]; [lia|].
    unfold set_position. cbn [position redraw with_view with_text].
    rewrite (proj2 (Z.ltb_ge _ _)) by lia. rewrite (proj2 (Z.ltb_ge _ _)) by lia. done.
  - intros Hp. cbn [position redraw with_view with_text]. apply word_right_spec. lia.
Qed.

(** ** Typing *)

(** A keystroke without CTRL and ALT, as the browser delivers it: [keydown] with
    the key's code and, unless its handler answered [false], [keypress] with
    the character. *)
Record key := Key { k_code : Z; k_shift : bool; k_char : Z }.

Section typing.
Context {S : Type} `{KV S}.

Definition stroke (k : key) (c : cmd) (s : S) : cmd * S :=
  let r := keydown false (Event (k_code k) (k_code k) false false (k_shift k)) c s in
  match r_ret r with
  | RFalse => (r_cmd r, r_store r)
  | _ => ((keypress None (Event (k_char k) (k_char k) false false (k_shift k)) (r_cmd r)).1,
          r_store r)
  end.

(** The keys that type a character: the space bar, or a key whose code is none
    of those that [keydown] handles, with a character that [keypress] accepts;
    the parenthesis and the ampersand count only with SHIFT. *)
Definition types (k : key) : Prop :=
  (k_code k = 32 /\ k_char k = c_space)
  \/ (k_code k ∉ [8; 9; 13; 27; 32; 35; 36; 37; 38; 39; 40; 46; 123]
      /\ k_char k ∉ [0; 8; 13; 32] /\ 0 <= k_char k < 65536
      /\ (k_char k ∈ [c_amp; c_lparen] -> k_shift k = true)).

Lemma stroke_inserts k c (s : S) :
  types k -> enabled c = true -> stroke k c s = (insert c [k_char k] false, s).
Proof.
  intros [[Hk Hc]|(Hk & Hc & Hr & Hs)] He; unfold stroke, keydown; rewrite He; cbn [keyCode which].
  - rewrite Hk, Hc. done.
  - repeat setoid_rewrite not_elem_of_cons in Hk. repeat setoid_rewrite not_elem_of_cons in Hc.
    destruct_and!.
    repeat match goal with
    | |- context [k_code k =? ?n] => rewrite (proj2 (Z.eqb_neq (k_code k) n)) by done
    end.
    cbn [andb orb ctrlKey altKey negb]. rewrite !andb_false_r. cbn [orb r_ret r_cmd r_store].
    unfold keypress. rewrite He. cbn [which keyCode ctrlKey altKey shiftKey andb negb].
    unfold fromCharCode. rewrite Z.mod_small by lia.
    destruct (Term.has _ (k_char k)) eqn:Eh; [|done]. apply Term.has_spec in Eh.
    assert (k_char k = c_amp \/ k_char k = c_lparen) as Hv.
    { repeat setoid_rewrite elem_of_cons in Eh. rewrite elem_of_nil in Eh. naive_solver. }
    rewrite Hs by (destruct Hv as [->| ->]; set_solver). destruct Hv as [->| ->]; done.
Qed.

Lemma insert_insert c a b :
  wf c ->
  command (insert (insert c a false) b false) = command (insert c (a ++ b) false)
  /\ position (insert (insert c a false) b false) = position (insert c (a ++ b) false).
Proof.
  intros Hw. destruct (insert_spec c a false Hw) as (Ha & Pa ).
  destruct (insert_spec _ b false (insert_wf c a false Hw)) as (Hb & Pb).
  destruct (insert_spec c (a ++ b) false Hw) as (Hab & Pab). unfold wf in Hw.
  rewrite Hb, Hab, Pb, Pab, Pa, Ha, zlen_app. split; [|lia].
  assert (zlen (ztake (position c) (command c)) = position c) as Hl by (apply zlen_ztake_le; lia).
  rewrite !app_assoc. replace (position c + zlen a) with (zlen (ztake (position c) (command c) ++ a))
    by (rewrite zlen_app; lia).
  by rewrite ztake_app_len, zdrop_app_len.
Qed.

(** Typing a text on the keyboard inserts it at the cursor, which ends behind
    it; the storage is not touched. *)
Theorem typing_text ks c (s : S) :
  wf c -> enabled c = true -> Forall types ks ->
  let r := fold_left (fun q k => stroke k q.1 q.2) ks (c, s) in
  command r.1 = ztake (position c) (command c) ++ map k_char ks ++ zdrop (position c) (command c)
  /\ position r.1 = position c + zlen (map k_char ks) /\ r.2 = s.
Proof.
  intros Hw He HF. cbv zeta. revert c Hw He.
  induction HF as [|k ks Hk HF IH]; intros c Hw He.
  - simpl. rewrite ztake_zdrop. split_and!; [done | rewrite zlen_nil; lia | done].
  - simpl. rewrite stroke_inserts by done.
    destruct (IH (insert c [k_char k] false) (insert_wf _ _ _ Hw) He) as (Hc & Hp & Hs).
    destruct (insert_spec (insert c [k_char k] false) (map k_char ks) false (insert_wf _ _ _ Hw))
      as (Ic & Ip).
    destruct (insert_spec c (k_char k :: map k_char ks) false Hw) as (Jc & Jp).
    destruct (insert_insert c [k_char k] (map k_char ks) Hw) as [Kc Kp].
    rewrite Hc, Hp, Hs. rewrite <- Ic, <- Ip, Kc, Kp. cbn [app]. rewrite Jc, Jp. done.
Qed.
End typing.

(** ** Witnesses *)

(** An enabled command line with a history of two entries, ten columns wide. *)
Definition sample (text : jstring) (p : Z) : cmd :=
  redraw (MkCmd (Some 10) (Some 2) false text p (PString (js "> ")) true (js "repl")
    (History.mk true (js "repl_commands") (BCycle.make [js "ls"; js "cd /"])) None).

Definition down (code : Z) (ctrl : bool) : event := Event code code ctrl false false.

Import Storage.Local.

Lemma session_invariant_witness :
  let r := run [IKeydown false (down 38 false); IKeydown false (down 37 true);
                IKeypress None (down 97 false); IKeydown false (down 13 false);
                IPaste (js "a long line of text"); IResize 7 7; IPosition 10;
                ISet (js "another text") true; IPrompt (Some (PString (js ">> ")))]
             (sample (js "one two") 3) (∅ : store) in
  0 <= position r.1 <= zlen (command r.1) /\ command r.1 = js "another text" /\ prompt_len r.1 = Some 3
  /\ exists p, page_shows p r.1.
Proof.
  cbv zeta. destruct (session_invariant [IKeydown false (down 38 false); IKeydown false (down 37 true);
                IKeypress None (down 97 false); IKeydown false (down 13 false);
                IPaste (js "a long line of text"); IResize 7 7; IPosition 10;
                ISet (js "another text") true; IPrompt (Some (PString (js ">> ")))]
             (sample (js "one two") 3) (∅ : store)) as (Hw & Hs & _).
  - unfold wf. vm_compute. split; discriminate.
  - vm_compute. split; discriminate.
  - vm_compute. repeat split; discriminate.
  - exists (Some 2). apply redraw_page; vm_compute; split; discriminate.
  - split; [exact Hw | split; [reflexivity | split; [reflexivity | exact Hs]]].
Defined.

Lemma set_stay_outside_witness : ~ wf (set (sample (js "one two") 5) (Some (js "ab")) true).
Proof. exact (set_stay_outside (sample (js "one two") 5) (js "ab") eq_refl). Defined.

Lemma enter_spec_witness :
  command (r_cmd (keydown false (down 13 false) (sample (js "pwd") 1) (∅ : store))) = []
  /\ History.data (history (r_cmd (keydown false (down 13 false) (sample (js "pwd") 1) (∅ : store))))
     = [js "ls"; js "cd /"; js "pwd"].
Proof.
  destruct (enter_spec (down 13 false) (sample (js "pwd") 1) (∅ : store) eq_refl eq_refl)
    as (H1 & _ & _ & _ & _ & H2).
  split; [exact H1 | exact H2].
Defined.

Lemma disabled_inert_witness :
  r_cmd (keydown false (down 65 true) (Cmd.disable (sample (js "pwd") 1)).1 (∅ : store))
  = (Cmd.disable (sample (js "pwd") 1)).1.
Proof.
  exact (proj1 (disabled_inert false (down 65 true) None (Cmd.disable (sample (js "pwd") 1)).1
    (∅ : store) eq_refl)).
Defined.

Lemma insert_backspace_witness :
  command (key_backspace (insert (sample (js "pwd") 1) [c_space] false)) = js "pwd".
Proof.
  apply (insert_backspace (sample (js "pwd") 1) c_space). unfold wf. vm_compute. split; discriminate.
Defined.

Lemma ctrl_arrows_land_witness :
  position (key_left (sample (js "ab cd ef") 7) (down 37 true)) = 6
  /\ position (key_right (sample (js "ab cd ef") 3) (down 39 true)) = 5
  /\ command (key_right (sample (js "ab cd ef") 3) (down 39 true)) = js "ab cd ef".
Proof.
  split; [reflexivity | split; [reflexivity|]].
  apply (ctrl_arrows_land (sample (js "ab cd ef") 3) (down 39 true));
    [unfold wf; vm_compute; split; discriminate | reflexivity | discriminate | discriminate].
Defined.

Lemma typing_text_witness :
  let r := fold_left (fun q k => stroke k q.1 q.2)
    [Key 76 false 108; Key 32 false 32; Key 57 true c_lparen; Key 49 false 49]
    (sample (js "ab") 1, (∅ : store)) in
  command r.1 = js "al (1b" /\ position r.1 = 5.
Proof.
  destruct (typing_text [Key 76 false 108; Key 32 false 32; Key 57 true c_lparen; Key 49 false 49]
    (sample (js "ab") 1) (∅ : store)) as (Hc & Hp & _).
  - unfold wf. vm_compute. split; discriminate.
  - reflexivity.
  - unfold types. repeat apply Forall_cons_2; [| | | |apply Forall_nil];
      by apply (bool_decide_unpack _).
  - split; [exact Hc | exact Hp].
Defined.
End Keys.
