(* ===== verification/Display.v ===== *)
(** * What the terminal prints: [draw_line], the banner and the word splitting

    The pure parts of [$.fn.terminal]: a line of output becomes one block of
    HTML, cut at the width of the terminal; the banner is chosen by the width;
    a command with arguments is cut by [split(/ */)]. *)
From S2P Require Import Prelude JsString TermText.

Module Display.

(** The element that [draw_line] appends: one [div] with the encoded text, or a
    [div] holding one [div] per row. *)
Inductive block := Single (html : jstring) | Rows (htmls : list jstring).

Definition blank (line : jstring) : bool := bool_decide (line = []) || bool_decide (line = [c_cr]).

(** src/experiments/repl/src/main/webapp/terminal/jquery.terminal-0.3.3.js:1506-1520
    [draw_line]: the rows of one line of the text; [None] when [str_parts]
    does not return. *)
Definition draw_row (num_chars : Z) (line : jstring) : option (list jstring) :=
  if blank line then Some [js "&nbsp;"]
  else if num_chars <? zlen line then
    map (fun s => Term.encodeHTML (Some s)) <$> Term.str_parts line num_chars
  else Some [Term.encodeHTML (Some line)].

Fixpoint draw_rows (num_chars : Z) (array : list jstring) : option (list jstring) :=
  match array with
  | [] => Some []
  | line :: array =>
      r ← draw_row num_chars line;
      rs ← draw_rows num_chars array;
      Some (r ++ rs)
  end.

(** src/experiments/repl/src/main/webapp/terminal/jquery.terminal-0.3.3.js:1496-1529
    [draw_line(string)]; [num_chars] is [None] until the first [resize], and a
    comparison with [undefined] is false. *)
Definition draw_line (num_chars : option Z) (string : jstring) : option block :=
  match num_chars with
  | Some n =>
      if n <? zlen string then Rows <$> draw_rows n (split_char c_nl string)
      else Some (Single (Term.encodeHTML (Some string)))
  | None => Some (Single (Term.encodeHTML (Some string)))
  end.

(** ** The banner *)
Definition version_string : jstring := js "version 0.3.3".
Definition copyright : jstring := js "Copyright (c) 2011 Jakub Jankiewicz <http://jcubic.pl>".

(** [.replace(reg, '')] for [reg = / {13}$/]: the spaces that end the string are
    dropped, when the last thirteen characters are spaces. *)
Definition strip_version (s : jstring) : jstring :=
  let n := zlen version_string in
  if (n <=? zlen s) && forallb (fun c => c =? c_space) (zdrop (zlen s - n) s)
  then ztake (zlen s - n) s else s.

(** [.replace(/ *<.*>/, '')] on a string with at most one space in front of its
    first [<]: the text from there to the last [>] is dropped. *)
Definition strip_address (s : jstring) : jstring :=
  let i := indexOf [c_lt] s in
  if i <? 0 then s
  else if prefixb [c_gt] (zdrop (lastIndexOf [c_gt] (zlen s) s) s) then
    ztake (if bool_decide (znth s (i - 1) = Some c_space) then i - 1 else i) s
    ++ zdrop (lastIndexOf [c_gt] (zlen s) s + 1) s
  else s.

(** src/experiments/repl/src/main/webapp/terminal/jquery.terminal-0.3.3.js:1368-1395
    [signatures] *)
Definition signatures : list (list jstring) := [
  [js "jQuery Terminal"; js "(c) 2011 jcubic"];
  [js "JQuery Terminal Emulator v. 0.3.3"; strip_address copyright];
  [js "JQuery Terminal Emulator version " ++ version_string; copyright];
  [js "      _______                 ________                        __";
   js "     / / _  /_ ____________ _/__  ___/______________  _____  / /";
   js " __ / / // / // / _  / _/ // / / / _  / _/     / /  \/ / _ \/ /";
   js "/  / / // / // / ___/ // // / / / ___/ // / / / / /\  / // / /__";
   js "\___/____ \\__/____/_/ \__ / /_/____/_//_/ /_/ /_/  \/\__\_\___/";
   strip_version (js "         \/          /____/                                   ")
     ++ version_string;
   copyright];
  [js "      __ _____                     ________                              __";
   js "     / // _  /__ __ _____ ___ __ _/__  ___/__ ___ ______ __ __  __ ___  / /";
   js " __ / // // // // // _  // _// // / / // _  // _//     // //  \/ // _ \/ /";
   js "/  / // // // // // ___// / / // / / // ___// / / / / // // /\  // / // /__";
   js "\___//____ \\___//____//_/ _\_  / /_//____//_/ /_/ /_//_//_/ /_/ \__\_\___/";
   strip_version (js "          \/              /____/                                          ")
     ++ version_string;
   copyright]].

(** src/experiments/repl/src/main/webapp/terminal/jquery.terminal-0.3.3.js:1637-1645
    [signature]; before the first [resize] every comparison is false and the
    last banner is chosen. *)
Definition signature (cols : option Z) : jstring :=
  let i := match cols with
           | Some cols =>
               if cols <? 15 then None else if cols <? 35 then Some 0
               else if cols <? 55 then Some 1 else if cols <? 64 then Some 2
               else if cols <? 75 then Some 3 else Some 4
           | None => Some 4
           end in
  match i with
  | Some i => join [c_nl] (default [] (znth signatures i)) ++ [c_nl]
  | None => []
  end.

(** ** [split(/ */)]

    [String.prototype.split] with a pattern that can match nothing: a piece
    ends where the pattern matches at a later position than the piece's start,
    so every character is a piece and the spaces after it are dropped. *)
Fixpoint split_spaces (skip : bool) (s : jstring) : list jstring :=
  match s with
  | [] => [[]]
  | c :: r =>
      if c =? c_space then
        if skip then split_spaces true r else [] :: split_spaces true r
      else match r with [] => [[c]] | _ => [c] :: split_spaces true r end
  end.

(** src/experiments/repl/src/main/webapp/terminal/jquery.terminal-0.3.3.js:1802-1810
    [command.match(/[^ ]* /)] and the two ways to find method and parameters. *)
Definition call_of (command : jstring) : jstring * list jstring :=
  if negb (has_char c_space command) then (command, [])
  else match split_spaces false command with
       | m :: ps => (m, ps)
       | [] => ([], [])
       end.

(** ** Theorems *)

(** How one line of the text is cut: into one row, or into consecutive parts of
    at most [n] characters; a blank line is drawn as a space. *)
Definition row_html (line : jstring) (parts : list jstring) : list jstring :=
  if blank line then [js "&nbsp;"] else map (fun s => Term.encodeHTML (Some s)) parts.

Lemma columns_le n ps : Term.columns n ps -> Forall (fun p => zlen p <= n) ps.
Proof.
  induction ps as [|p ps IH]; [by constructor|]. intros H. constructor.
  - destruct ps; simpl in H; [lia | destruct H; lia].
  - destruct ps; [by constructor|]. apply IH. by destruct H.
Qed.

Lemma draw_row_spec n line :
  0 < n ->
  exists ps, draw_row n line = Some (row_html line ps)
    /\ concat ps = line /\ Forall (fun p => zlen p <= n) ps.
Proof.
  intros Hn. unfold draw_row, row_html. destruct (blank line) eqn:Hb.
  - exists [line]. split_and!; [done | apply app_nil_r |]. repeat constructor.
    unfold blank in Hb. apply orb_true_iff in Hb as [Hb|Hb];
      apply bool_decide_eq_true in Hb; subst; [change (zlen (@nil Z)) with 0 | change (zlen [c_cr]) with 1]; lia.
  - destruct (Z.ltb_spec n (zlen line)).
    + destruct (Term.str_parts_correct line n Hn) as (ps & Hp & Hc & Hcol & _).
      exists ps. rewrite Hp. split_and!; [done | done |]. by apply columns_le.
    + exists [line]. split_and!; [done | apply app_nil_r |]. by repeat constructor.
Qed.

Lemma draw_rows_spec n array :
  0 < n ->
  exists groups, draw_rows n array = Some (concat (zip_with row_html array groups))
    /\ map (@concat Z) groups = array
    /\ Forall (Forall (fun p => zlen p <= n)) groups.
Proof.
  intros Hn. induction array as [|line array (gs & Hg & Hm & Hf)]; [by exists []|].
  destruct (draw_row_spec n line Hn) as (ps & Hp & Hc & Hl).
  exists (ps :: gs). simpl. rewrite Hp, Hg. simpl. rewrite Hc, Hm. split_and!; [done..|].
  by constructor.
Qed.

(** With a positive width every text is drawn, completely and in order: line by
    line, each row an encoded piece of at most [n] characters, and the pieces of
    a line make up the line. *)
Theorem draw_line_complete n string :
  0 < n -> n < zlen string ->
  exists groups,
    draw_line (Some n) string
      = Some (Rows (concat (zip_with row_html (split_char c_nl string) groups)))
    /\ join [c_nl] (map (@concat Z) groups) = string
    /\ Forall (Forall (fun row => zlen row <= n)) groups.
Proof.
  intros Hn Hl. destruct (draw_rows_spec n (split_char c_nl string) Hn) as (gs & Hg & Hm & Hf).
  exists gs. unfold draw_line. rewrite (proj2 (Z.ltb_lt _ _) Hl), Hg. split_and!; [done | |done].
  rewrite Hm. apply join_split_char.
Qed.

(** A terminal that was not measured yet, or has a column, draws every text. *)
Definition drawable (num_chars : option Z) : Prop :=
  match num_chars with Some n => 0 < n | None => True end.

Lemma draw_line_returns num_chars string :
  drawable num_chars -> exists b, draw_line num_chars string = Some b.
Proof.
  unfold draw_line. destruct num_chars as [n|]; [|by eexists]. intros Hn.
  destruct (draw_rows_spec n (split_char c_nl string) Hn) as (gs & Hg & _).
  rewrite Hg. destruct (n <? _); by eexists.
Qed.

Lemma draw_rows_hang n array line :
  n <= 0 -> line ∈ array -> blank line = false -> draw_rows n array = None.
Proof.
  intros Hn Hin Hb. induction array as [|a array IH]; [by apply elem_of_nil in Hin|].
  assert (draw_row n line = None) as Hd.
  { unfold draw_row. rewrite Hb. assert (line <> []) as Hne by (by intros ->).
    assert (0 < zlen line) by (destruct line; [done | jslia]).
    rewrite (proj2 (Z.ltb_lt _ _)) by lia. unfold Term.str_parts.
    rewrite (proj2 (Z.ltb_ge _ _)) by lia.
    by rewrite Term.str_parts_diverges. }
  cbn [draw_rows]. apply elem_of_cons in Hin as [->|Hin]; [by rewrite Hd|].
  rewrite IH by done. by destruct (draw_row n a).
Qed.

(** A terminal less than one character wide never finishes drawing a text with
    a visible line. *)
Theorem draw_line_hangs n string line :
  n <= 0 -> line ∈ split_char c_nl string -> blank line = false ->
  draw_line (Some n) string = None.
Proof.
  intros Hn Hin Hb. unfold draw_line.
  assert (0 < zlen string) as Hs.
  { destruct string as [|c string]; [|jslia]. simpl in Hin.
    apply list_elem_of_singleton in Hin. by subst. }
  rewrite (proj2 (Z.ltb_lt _ _)) by lia. by rewrite (draw_rows_hang n _ line).
Qed.

(** The banner fits: no line of it is longer than the terminal is wide. *)
Theorem signature_fits cols :
  Forall (fun line => zlen line <= Z.max 0 cols) (split_char c_nl (signature (Some cols))).
Proof.
  assert (forall b s, forallb (fun line => zlen line <=? b) (split_char c_nl s) = true ->
            b <= Z.max 0 cols ->
            Forall (fun line => zlen line <= Z.max 0 cols) (split_char c_nl s)) as H.
  { intros b s Hf Hb. rewrite forallb_forall in Hf. apply Forall_forall. intros l Hl.
    apply list_elem_of_In in Hl. specialize (Hf l Hl). lia. }
  unfold signature.
  destruct (Z.ltb_spec cols 15); [apply (H 0); [by vm_compute | lia]|].
  destruct (Z.ltb_spec cols 35); [apply (H 15); [by vm_compute | lia]|].
  destruct (Z.ltb_spec cols 55); [apply (H 35); [by vm_compute | lia]|].
  destruct (Z.ltb_spec cols 64); [apply (H 55); [by vm_compute | lia]|].
  destruct (Z.ltb_spec cols 75); [apply (H 64); [by vm_compute | lia]|].
  apply (H 75); [by vm_compute | lia].
Qed.


(** A command with a space is never split into words: the method is the first
    character and each further character is a parameter of its own. *)
Lemma split_spaces_head c r :
  c <> c_space -> exists ps, split_spaces false (c :: r) = [c] :: ps.
Proof.
  intros Hc. cbn [split_spaces]. rewrite (proj2 (Z.eqb_neq _ _) Hc). destruct r; eauto.
Qed.

Lemma split_spaces_skip s :
  s <> [] -> Forall (fun p => zlen p <= 1) (split_spaces true s).
Proof.
  induction s as [|c r IH]; [done|]. intros _. cbn [split_spaces].
  destruct (c =? c_space).
  - destruct r; [simpl; by repeat constructor | by apply IH].
  - destruct r; [by repeat constructor|]. constructor; [done | by apply IH].
Qed.

Theorem call_of_one_char c r :
  c <> c_space -> c_space ∈ r ->
  (call_of (c :: r)).1 = [c] /\ Forall (fun p => zlen p <= 1) (call_of (c :: r)).2.
Proof.
  intros Hc Hr. unfold call_of. rewrite (proj2 (has_char_spec _ _)) by (by right).
  cbn [negb split_spaces]. rewrite (proj2 (Z.eqb_neq _ _) Hc).
  destruct r as [|d r]; [by apply elem_of_nil in Hr|]. split; [done|]. by apply split_spaces_skip.
Qed.

(** ** Witnesses *)
Lemma draw_line_complete_witness :
  draw_line (Some 4) (js "ab" ++ [c_nl; c_nl] ++ js "cdefg")
    = Some (Rows [js "ab"; js "&nbsp;"; js "cdef"; js "g"])
  /\ exists groups,
       draw_line (Some 4) (js "ab" ++ [c_nl; c_nl] ++ js "cdefg")
         = Some (Rows (concat (zip_with row_html
             (split_char c_nl (js "ab" ++ [c_nl; c_nl] ++ js "cdefg")) groups)))
       /\ Forall (Forall (fun row => zlen row <= 4)) groups.
Proof.
  split; [reflexivity|].
  destruct (draw_line_complete 4 (js "ab" ++ [c_nl; c_nl] ++ js "cdefg")) as (gs & H & _ & Hf);
    [lia | vm_compute; reflexivity | by exists gs].
Defined.

Lemma draw_line_hangs_witness : draw_line (Some 0) (js "ok") = None.
Proof.
  apply (draw_line_hangs 0 (js "ok") (js "ok")); [lia | by apply (bool_decide_unpack _) | done].
Defined.

Lemma call_of_one_char_witness :
  call_of (js "echo hi") = (js "e", [js "c"; js "h"; js "o"; js "h"; js "i"])
  /\ (call_of (js "echo hi")).1 = js "e".
Proof.
  split; [reflexivity|].
  apply (call_of_one_char 101 (js "cho hi")); [discriminate | by apply (bool_decide_unpack _)].
Defined.
End Display.
