(* ===== verification/Terminal.v ===== *)
(** * The terminal plugin [$.fn.terminal]

    The variables that one call of the plugin closes over are the record
    [state]; its methods and handlers are written in a small monad [M] that
    threads the state, collects the calls made to the surroundings (user
    functions, requests, timers) in order, and ends with a value, with a
    JavaScript exception, or not at all ([Hang]).

    User functions (interpreters, [onStart], [login], prompts) are not run: each
    call is an [eff], and what they answer is a later event.  The calls they make
    back into the terminal are further operations. *)
From S2P Require Import Prelude JsString TermText TermStruct Json Storage History CmdView Cmd CmdKeys Display.

Module Terminal.

(** A name: [undefined], [null] or a string. *)
Inductive jname := NUndef | NNull | NStr (s : jstring).
#[export] Instance jname_dec : EqDecision jname.
Proof. solve_decision. Defined.

(** An interpreter's function: a user function, the function built for JSON-RPC
    ([url] may be [undefined]; [k] numbers the closures), the function over an
    object's methods, or a string, which cannot be called. *)
Inductive eval_t :=
| EvUser (f : Z) | EvRpc (url : option jstring) (k : Z)
| EvObject (methods : list (jstring * option Z)) | EvString (s : jstring).

(** [options.prompt]: absent, of a wrong type, or a string or function. *)
Inductive prompt_opt := PNone | PWrong | PGiven (p : Cmd.prompt_t).

(** src/experiments/repl/src/main/webapp/terminal/jquery.terminal-0.3.3.js:2074-2077
    [interpreters]: what is kept of one interpreter. *)
Record interp := Interp {
  i_name : jname; i_eval : eval_t; i_prompt : prompt_opt;
  i_onStart : option Z; i_onExit : option Z }.

(** [settings.login]: [undefined], another false value, a user function, the
    function built for JSON-RPC with its method, or a true value that is no
    function.  The default is [null], so that it is never [undefined]
    ([login_never_undefined]), for which one test of the code asks. *)
Inductive login_t :=
| LUndef | LFalsy | LUser (f : Z) | LRpc (url : jstring) (method : Json.jval) | LNoFun.
Definition login_on (l : login_t) : bool :=
  match l with LUndef | LFalsy => false | _ => true end.

Definition login_callable (l : login_t) : bool :=
  match l with LUser _ | LRpc _ _ => true | _ => false end.

(** The first argument of the plugin, and the option [login] as it was given;
    [AUndef], an option that is missing, leaves the default. *)
Inductive init_arg :=
| IString (url : jstring) | IObject (methods : list (jstring * option Z)) | IFunction (f : Z).
Inductive login_arg := AUndef | ANull | ABool (b : bool) | AString (s : jstring) | AFun (f : Z).

(** src/experiments/repl/src/main/webapp/terminal/jquery.terminal-0.3.3.js:1825-1853
    [init_eval]: the interpreter's function for the plugin's first argument. *)
Definition init_eval (a : init_arg) : eval_t :=
  match a with
  | IString url => EvRpc (Some url) 0
  | IObject methods => EvObject methods
  | IFunction f => EvUser f
  end.

(** src/experiments/repl/src/main/webapp/terminal/jquery.terminal-0.3.3.js:1856-1882
    [settings.login]: with a [url] a login function is built whatever the option
    was, as [url && typeof settings.login == 'string' || url] is [url]. *)
Definition init_login (a : init_arg) (l : login_arg) : login_t :=
  match a with
  | IString url =>
      match url with
      | [] => match l with AFun f => LUser f | AString (_ :: _) | ABool true => LNoFun | _ => LFalsy end
      | _ =>
          LRpc url match l with
                   | ABool _ => Json.VStr (js "login")
                   | AString s => Json.VStr s
                   | AFun _ => Json.VFun []
                   | ANull | AUndef => Json.VNull
                   end
      end
  | _ =>
      match l with
      | AFun f => LUser f
      | AString (_ :: _) | ABool true => LNoFun
      | _ => LFalsy
      end
  end.

(** src/experiments/repl/src/main/webapp/terminal/jquery.terminal-0.3.3.js:1704-1720
    whether [token], [login_name] and [logout] are the methods of a terminal
    with a login: the option is looked at before [init_login] replaces it. *)
Definition has_login_methods (l : login_arg) : bool :=
  match l with AFun _ | AString (_ :: _) | ABool true => true | _ => false end.

Inductive greeting := GUndef | GStr (s : jstring).

(** src/experiments/repl/src/main/webapp/terminal/jquery.terminal-0.3.3.js:1409-1431
    [settings] after the options were merged; [token_methods] says that [login]
    was a true value when the methods were defined. *)
Record settings := Settings {
  s_id : Z; s_name : jname; s_prompt : prompt_opt; s_history : bool; s_exit : bool;
  s_clear : bool; s_enabled : bool; s_login : login_t; token_methods : bool;
  s_greetings : greeting; s_onInit : option Z; s_onExit : option Z }.

(** A line of output: a text, or a function called at each drawing, either a user
    function or the terminal's own [signature]. *)
Inductive line_t := LText (s : jstring) | LFun (f : Z) | LSignature.

(** What [command_line.commands] is set to. *)
Inductive handler := HCommands | HLogin (user : option jstring).

Inductive eff :=
| XEval (f : Z) (command : jstring) | XApply (f : Z) (params : list jstring)
| XAjax (url : option jstring) (data : jstring) | XLogin (f : Z) (user passwd : jstring)
| XStart (f : Z) | XExit (f : Z) | XInit (f : Z)
| XPrompt (f : Z) | XPromptEcho (f : Z) (command : jstring)
| XGetFile (file : jstring) | XCmd (e : Cmd.effect)
| XScroll (down : bool) | XScrollEnd | XFocus | XAbort.

(** A thrown string, or an error object with its file and message. *)
Inductive exn := TString (s : jstring) | TError (file message : jstring).

Section terminal.
Context {S : Type} `{KV S}.

(** src/experiments/repl/src/main/webapp/terminal/jquery.terminal-0.3.3.js:1400-1453
    [$.fn.terminal]: the variables of the plugin; [calls] are the [id] counters
    of the JSON-RPC closures, and [store] is the browser's storage. *)
Record state := State {
  cl : Cmd.cmd; lines : list line_t; output : list Display.block; pause : bool;
  interpreters : Stack.t interp; on_enter : handler; num_chars : option Z;
  calls : gmap Z Z; closures : Z; store : S }.

Inductive outcome A :=
| Ret (x : A) (s : state) (es : list eff)
| Throw (e : exn) (s : state) (es : list eff)
| Hang.
Arguments Ret {A}. Arguments Throw {A}. Arguments Hang {A}.

Definition M A := state -> outcome A.
Definition ret {A} (x : A) : M A := fun s => Ret x s [].
Definition bind {A B} (m : M A) (k : A -> M B) : M B := fun s =>
  match m s with
  | Ret x s es =>
      match k x s with
      | Ret y s' es' => Ret y s' (es ++ es')
      | Throw e s' es' => Throw e s' (es ++ es')
      | Hang => Hang
      end
  | Throw e s es => Throw e s es
  | Hang => Hang
  end.
Definition get : M state := fun s => Ret s s [].
Definition throw {A} (e : exn) : M A := fun s => Throw e s [].
Definition emit (e : eff) : M unit := fun s => Ret () s [e].
Definition emits (es : list eff) : M unit := fun s => Ret () s es.
Definition hang {A} : M A := fun _ => Hang.
Definition upd (f : state -> state) : M unit := fun s => Ret () (f s) [].
(** [try { m } catch (e) { h(e); throw e; }] *)
Definition rethrow {A} (m : M A) (h : exn -> M unit) : M A := fun s =>
  match m s with
  | Throw e s es =>
      match h e s with
      | Ret _ s' es' => Throw e s' (es ++ es')
      | Throw e' s' es' => Throw e' s' (es ++ es')
      | Hang => Hang
      end
  | o => o
  end.
Notation "x <- m ;; k" := (bind m (fun x => k)) (at level 100, m at next level, right associativity).
Notation "m ;; k" := (bind m (fun _ => k)) (at level 100, right associativity).
Definition skip : M unit := ret tt.
Definition when (b : bool) (m : M unit) : M unit := if b then m else skip.
Definition call_opt (f : option Z) (e : Z -> eff) : M unit :=
  match f with Some f => emit (e f) | None => skip end.

Definition set_cl (c : Cmd.cmd) (s : state) : state :=
  State c (lines s) (output s) (pause s) (interpreters s) (on_enter s) (num_chars s)
    (calls s) (closures s) (store s).
Definition set_lines (l : list line_t) (s : state) : state :=
  State (cl s) l (output s) (pause s) (interpreters s) (on_enter s) (num_chars s)
    (calls s) (closures s) (store s).
Definition set_output (o : list Display.block) (s : state) : state :=
  State (cl s) (lines s) o (pause s) (interpreters s) (on_enter s) (num_chars s)
    (calls s) (closures s) (store s).
Definition set_pause (b : bool) (s : state) : state :=
  State (cl s) (lines s) (output s) b (interpreters s) (on_enter s) (num_chars s)
    (calls s) (closures s) (store s).
Definition set_interp (i : Stack.t interp) (s : state) : state :=
  State (cl s) (lines s) (output s) (pause s) i (on_enter s) (num_chars s)
    (calls s) (closures s) (store s).
Definition set_handler (h : handler) (s : state) : state :=
  State (cl s) (lines s) (output s) (pause s) (interpreters s) h (num_chars s)
    (calls s) (closures s) (store s).
Definition set_cols (n : Z) (s : state) : state :=
  State (cl s) (lines s) (output s) (pause s) (interpreters s) (on_enter s) (Some n)
    (calls s) (closures s) (store s).
Definition set_calls (m : gmap Z Z) (s : state) : state :=
  State (cl s) (lines s) (output s) (pause s) (interpreters s) (on_enter s) (num_chars s)
    m (closures s) (store s).
Definition set_closures (k : Z) (s : state) : state :=
  State (cl s) (lines s) (output s) (pause s) (interpreters s) (on_enter s) (num_chars s)
    (calls s) k (store s).
Definition set_store (x : S) (s : state) : state :=
  State (cl s) (lines s) (output s) (pause s) (interpreters s) (on_enter s) (num_chars s)
    (calls s) (closures s) x.

(** The command line's methods, run on the state. *)
Definition on_cl (f : Cmd.cmd -> Cmd.cmd) : M unit := upd (fun s => set_cl (f (cl s)) s).
Definition on_cl_eff (f : Cmd.cmd -> Cmd.cmd * list Cmd.effect) : M unit :=
  s <- get ;;
  upd (set_cl (f (cl s)).1) ;; emits (map XCmd (f (cl s)).2).
Definition on_history (f : History.t -> History.t) : M unit :=
  on_cl (fun c => Cmd.with_history c (f (Cmd.history c))).

(** [command_line.prompt(p)]: without an argument it is the getter. *)
Definition cl_prompt (p : prompt_opt) : M unit :=
  match p with
  | PNone => skip
  | PWrong => throw (TString (js "prompt must be a function or string"))
  | PGiven p => on_cl_eff (fun c => Cmd.draw_prompt (Cmd.with_prompt c p (Cmd.prompt_len c)))
  end.

(** [command_line.name(name)]: reading a damaged history throws. *)
Definition cl_name (name : jstring) : M unit :=
  s <- get ;;
  match Cmd.set_name (cl s) name (store s) with
  | Some c => upd (set_cl c)
  | None => throw (TError [] (js "SyntaxError"))
  end.

Variable cfg : settings.
(** What the page answers: the terminal's width in characters, the command line's
    own measure, and the text of a line given as a function. *)
Variables (columns cmd_columns : Z) (line_text : Z -> jstring).

(** ** Output *)
Definition text_of (cols : option Z) (l : line_t) : jstring :=
  match l with LText s => s | LFun f => line_text f | LSignature => Display.signature cols end.

(** src/experiments/repl/src/main/webapp/terminal/jquery.terminal-0.3.3.js:1496-1529
    [draw_line(string)]: the block is appended to the output. *)
Definition draw_line (string : jstring) : M unit :=
  s <- get ;;
  match Display.draw_line (num_chars s) string with
  | Some b => upd (set_output (output s ++ [b]))
  | None => hang
  end.

(** src/experiments/repl/src/main/webapp/terminal/jquery.terminal-0.3.3.js:1689-1692
    [echo] *)
Definition echo (l : line_t) : M unit :=
  upd (fun s => set_lines (lines s ++ [l]) s) ;;
  s <- get ;; draw_line (text_of (num_chars s) l).

(** src/experiments/repl/src/main/webapp/terminal/jquery.terminal-0.3.3.js:1693-1695
    [error] *)
Definition error (message : jstring) : M unit := echo (LText message).

(** src/experiments/repl/src/main/webapp/terminal/jquery.terminal-0.3.3.js:1682-1684
    the loop of [resize] over the lines. *)
Fixpoint draw_all (ls : list line_t) : M unit :=
  match ls with
  | [] => skip
  | l :: ls => s <- get ;; draw_line (text_of (num_chars s) l) ;; draw_all ls
  end.

(** src/experiments/repl/src/main/webapp/terminal/jquery.terminal-0.3.3.js:1673-1688
    [resize] *)
Definition resize : M unit :=
  upd (set_cols columns) ;;
  on_cl (fun c => Cmd.resize c columns cmd_columns) ;;
  upd (set_output []) ;;
  s <- get ;; draw_all (lines s).

(** src/experiments/repl/src/main/webapp/terminal/jquery.terminal-0.3.3.js:1542-1548
    [clear] *)
Definition clear : M unit :=
  upd (set_output []) ;; on_cl (fun c => Cmd.set c (Some []) false) ;; upd (set_lines []).

(** src/experiments/repl/src/main/webapp/terminal/jquery.terminal-0.3.3.js:1572-1574
    [rows] *)
Definition rows (s : state) : Z := zlen (lines s).

(** src/experiments/repl/src/main/webapp/terminal/jquery.terminal-0.3.3.js:1612-1626
    [enable] *)
Definition enable : M unit :=
  s <- get ;;
  when (negb (is_some (num_chars s))) resize ;;
  when (pause s) (on_cl_eff Cmd.enable ;; upd (set_pause false)).

(** src/experiments/repl/src/main/webapp/terminal/jquery.terminal-0.3.3.js:1627-1633
    [disable] *)
Definition disable : M unit := upd (set_pause true) ;; on_cl_eff Cmd.disable.

(** src/experiments/repl/src/main/webapp/terminal/jquery.terminal-0.3.3.js:1552-1558
    [pause] *)
Definition self_pause : M unit := disable.

(** src/experiments/repl/src/main/webapp/terminal/jquery.terminal-0.3.3.js:1559-1568
    [resume] *)
Definition resume : M unit := enable ;; emit XScrollEnd.

(** src/experiments/repl/src/main/webapp/terminal/jquery.terminal-0.3.3.js:1530-1536
    [show_greetings] *)
Definition show_greetings : M unit :=
  match s_greetings cfg with
  | GUndef => echo LSignature
  | GStr [] => skip
  | GStr g => echo (LText g)
  end.

(** src/experiments/repl/src/main/webapp/terminal/jquery.terminal-0.3.3.js:1456-1471
    [display_exception] *)
Definition display_exception (e : exn) (label : jstring) : M unit :=
  let l := js "&#91;" ++ label ++ js "&#93;: " in
  match e with
  | TString m => error (l ++ m)
  | TError file m => error (l ++ file ++ js ": " ++ m) ;; self_pause ;; emit (XGetFile file)
  end.

(** src/experiments/repl/src/main/webapp/terminal/jquery.terminal-0.3.3.js:1464-1469
    the reply to the request for the source file of an exception. *)
Definition file_reply (lineNumber : Z) (file : jstring) : M unit :=
  resume ;;
  error (js "&#91;" ++ num_str lineNumber ++ js "&#93;: "
         ++ default (js "undefined") (znth (split_char c_nl file) (lineNumber - 1))).

(** src/experiments/repl/src/main/webapp/terminal/jquery.terminal-0.3.3.js:1475-1490
    [valid] *)
Definition valid (label : jstring) (p : prompt_opt) : M bool :=
  match p with
  | PGiven (Cmd.PString _) => ret true
  | PGiven (Cmd.PFun f) => emit (XPrompt f) ;; ret true
  | _ => display_exception (TString (label ++ js " must be string or function"))
           (toUpperCase label) ;; ret false
  end.

(** src/experiments/repl/src/main/webapp/terminal/jquery.terminal-0.3.3.js:1885-1897
    [echo_command] *)
Definition echo_command (command : jstring) : M unit :=
  s <- get ;;
  let command := if Cmd.mask (cl s) then replace_dot c_star command else command in
  match Cmd.prompt (cl s) with
  | Cmd.PFun f => emit (XPromptEcho f command)
  | Cmd.PString p => echo (LText (p ++ [c_space] ++ command))
  end.

(** src/experiments/repl/src/main/webapp/terminal/jquery.terminal-0.3.3.js:1891-1893
    the callback that [echo_command] hands to a function prompt. *)
Definition prompt_echo_reply (string command : jstring) : M unit :=
  echo (LText (string ++ [c_space] ++ command)).

(** ** Names in the storage *)
Definition under (n : jname) : jstring :=
  match n with NStr ((_ :: _) as s) => [c_under] ++ s | _ => [] end.

(** src/experiments/repl/src/main/webapp/terminal/jquery.terminal-0.3.3.js:1713-1716
    [token]; [None] where the method was not defined. *)
Definition token (s : state) : option (option jstring) :=
  if token_methods cfg then Some (kv_get (js "token" ++ under (s_name cfg)) (store s)) else None.

(** src/experiments/repl/src/main/webapp/terminal/jquery.terminal-0.3.3.js:1717-1720
    [login_name] *)
Definition login_name (s : state) : option (option jstring) :=
  if token_methods cfg then Some (kv_get (js "login_" ++ under (s_name cfg)) (store s)) else None.

(** ** Logging in *)

(** src/experiments/repl/src/main/webapp/terminal/jquery.terminal-0.3.3.js:1934-1977
    [login]: up to the installation of the handler. *)
Definition login : M unit :=
  cl_prompt (PGiven (Cmd.PString (js "login:"))) ;;
  when (s_history cfg) (on_history History.disable) ;;
  upd (set_handler (HLogin None)).

Definition json_str (s : jstring) : Json.jval := Json.VStr s.

(** src/experiments/repl/src/main/webapp/terminal/jquery.terminal-0.3.3.js:1340-1363
    [$.jrpc]: the request that is sent. *)
Definition jrpc (url : option jstring) (id : Z) (method : Json.jval) (params : list jstring) : M unit :=
  emit (XAjax url (Json.json_stringify
    (Json.VObj [(js "jsonrpc", json_str (js "2.0")); (js "method", method);
                (js "params", Json.VArr (map Json.VStr params)); (js "id", Json.VNum id)]) 1)).

(** The next [id] of closure [k]. *)
Definition next_id (k : Z) : M Z :=
  s <- get ;;
  let id := default 1 (calls s !! k) in
  upd (set_calls (<[k := id + 1]> (calls s))) ;; ret id.

(** The closure of the authentication function. *)
Definition login_closure : Z := -1.

(** src/experiments/repl/src/main/webapp/terminal/jquery.terminal-0.3.3.js:1855-1882
    [settings.login(user, passwd, callback)] *)
Definition call_login (user passwd : jstring) : M unit :=
  match s_login cfg with
  | LUser f => emit (XLogin f user passwd)
  | LRpc url method =>
      self_pause ;;
      id <- next_id login_closure ;;
      jrpc (Some url) id method [user; passwd]
  | _ => throw (TError [] (js "settings.login is not a function"))
  end.

(** src/experiments/repl/src/main/webapp/terminal/jquery.terminal-0.3.3.js:1941-1976
    the handler that [login] installs. *)
Definition login_handler (user : option jstring) (command : jstring) : M unit :=
  rethrow (
    echo_command command ;;
    match user with
    | Some ((_ :: _) as u) =>
        on_cl (fun c => Cmd.set_mask c false) ;; self_pause ;; call_login u command
    | _ =>
        upd (set_handler (HLogin (Some command))) ;;
        cl_prompt (PGiven (Cmd.PString (js "password:"))) ;;
        on_cl (fun c => Cmd.set_mask c true)
    end) (fun e => display_exception e (js "LOGIN")).

(** [null] is written out by the concatenation in [prepare_top_interpreter]. *)
Definition name_text (n : jname) : option jstring :=
  match n with
  | NUndef => None
  | NNull => Some (js "null")
  | NStr [] => None
  | NStr s => Some s
  end.

(** src/experiments/repl/src/main/webapp/terminal/jquery.terminal-0.3.3.js:1995-2012
    [prepare_top_interpreter] *)
Definition prepare_top_interpreter : M unit :=
  s <- get ;;
  match Stack.top (interpreters s) with
  | None => throw (TError [] (js "interpreter is undefined"))
  | Some i =>
      cl_name (match name_text (i_name i) with Some n => n ++ [c_under] | None => [] end
               ++ num_str (s_id cfg)) ;;
      cl_prompt (i_prompt i) ;;
      when (s_history cfg) (on_history History.enable) ;;
      on_cl (fun c => Cmd.set c (Some []) false) ;;
      call_opt (i_onStart i) XStart
  end.

(** src/experiments/repl/src/main/webapp/terminal/jquery.terminal-0.3.3.js:2014-2020
    [initialize] *)
Definition initialize : M unit :=
  prepare_top_interpreter ;; show_greetings ;; call_opt (s_onInit cfg) XInit.

Definition set_key (n v : jstring) : M unit := upd (fun s => set_store (kv_set n v (store s)) s).
Definition remove_key (n : jstring) : M unit := upd (fun s => set_store (kv_remove n (store s)) s).

(** src/experiments/repl/src/main/webapp/terminal/jquery.terminal-0.3.3.js:1951-1970
    the callback of [settings.login]; [None] is a false value. *)
Definition login_callback (user_data : option jstring) : M unit :=
  s <- get ;;
  match on_enter s with
  | HLogin user =>
      (if truthy user_data then
         set_key (js "token" ++ under (s_name cfg)) (default [] user_data) ;;
         set_key (js "login" ++ under (s_name cfg)) (default [] user) ;;
         upd (set_handler HCommands) ;;
         initialize
       else
         error (js "Wrong password try again") ;;
         cl_prompt (PGiven (Cmd.PString (js "login:"))) ;;
         upd (set_handler (HLogin None))) ;;
      resume ;;
      when (s_history cfg) (on_history History.enable)
  | HCommands => skip
  end.

(** src/experiments/repl/src/main/webapp/terminal/jquery.terminal-0.3.3.js:1982-1991
    [logout()] *)
Definition do_logout : M unit :=
  remove_key (js "token" ++ under (s_name cfg)) ;;
  remove_key (js "login" ++ under (s_name cfg)) ;;
  when (s_history cfg) (on_history History.disable) ;;
  login.

(** ** The stack of interpreters *)
Definition pop_interp : M (option interp) :=
  s <- get ;; upd (set_interp (Stack.pop (interpreters s)).1) ;;
  ret (Stack.pop (interpreters s)).2.

(** The loop of [logout]: at most as many rounds as there are interpreters. *)
Fixpoint pop_to_one (fuel : nat) : M unit :=
  match fuel with
  | O => skip
  | Datatypes.S fuel =>
      s <- get ;;
      if 1 <? Stack.size (interpreters s) then pop_interp ;; pop_to_one fuel else skip
  end.

(** src/experiments/repl/src/main/webapp/terminal/jquery.terminal-0.3.3.js:1704-1712
    [logout], where [login] was given, and the method that throws. *)
Definition logout : M unit :=
  if token_methods cfg then
    s <- get ;;
    pop_to_one (Z.to_nat (Stack.size (interpreters s))) ;; do_logout
  else throw (TString (js "You don't have login function")).

(** src/experiments/repl/src/main/webapp/terminal/jquery.terminal-0.3.3.js:1743-1763
    [pop(string)] *)
Definition pop (string : option jstring) : M unit :=
  match string with Some c => echo_command c | None => skip end ;;
  s <- get ;;
  match Stack.top (interpreters s) with
  | None => throw (TError [] (js "interpreters.top() is undefined"))
  | Some i =>
      if decide (i_name i = s_name cfg) then
        when (login_on (s_login cfg)) (do_logout ;; call_opt (s_onExit cfg) XExit)
      else
        current <- pop_interp ;;
        prepare_top_interpreter ;;
        match current with
        | Some c => call_opt (i_onExit c) XExit
        | None => throw (TError [] (js "current is undefined"))
        end
  end.

(** The arguments of [push]: a function or a string, and the options with their
    own [eval]. *)
Inductive push_eval := PFunction (f : Z) | PString (s : jstring).
Record push_opts := PushOpts {
  o_name : jname; o_eval : option jstring; o_prompt : prompt_opt;
  o_onStart : option Z; o_onExit : option Z }.

Definition falsy_prompt (p : prompt_opt) : bool :=
  match p with PNone | PGiven (Cmd.PString []) => true | _ => false end.

(** src/experiments/repl/src/main/webapp/terminal/jquery.terminal-0.3.3.js:1724-1742
    [push(_eval, options)]: the options' own [eval] overrides. *)
Definition push (_eval : push_eval) (o : push_opts) : M unit :=
  ok <- (if falsy_prompt (o_prompt o) then ret true else valid (js "prompt") (o_prompt o)) ;;
  when ok (
    s <- get ;;
    (match _eval with PString _ => upd (set_closures (closures s + 1)) | PFunction _ => skip end) ;;
    let ev := match o_eval o with
              | Some u => EvString u
              | None => match _eval with
                        | PFunction f => EvUser f
                        | PString _ => EvRpc (o_eval o) (closures s)
                        end
              end in
    let i := Interp (o_name o) ev (o_prompt o) (o_onStart o) (o_onExit o) in
    upd (fun s => set_interp (Stack.push (interpreters s) i) s) ;;
    prepare_top_interpreter).

(** ** Running a command *)

(** src/experiments/repl/src/main/webapp/terminal/jquery.terminal-0.3.3.js:1769-1796
    [service(method, params)], the request. *)
Definition service (url : option jstring) (k : Z) (method : jstring) (params : list jstring) : M unit :=
  self_pause ;; id <- next_id k ;; jrpc url id (json_str method) params.

(** src/experiments/repl/src/main/webapp/terminal/jquery.terminal-0.3.3.js:1798-1822
    the function that [make_json_rpc_eval_fun] returns. *)
Definition rpc_eval (url : option jstring) (k : Z) (command : jstring) : M unit :=
  match command with
  | [] => skip
  | _ =>
      let '(method, params) := Display.call_of command in
      if negb (login_on (s_login cfg)) || bool_decide (method = js "help") then
        service url k method params
      else
        s <- get ;;
        match token s with
        | None => throw (TError [] (js "terminal.token is not a function"))
        | Some t =>
            if truthy t then service url k method (default [] t :: params)
            else error (js "&#91;AUTH&#93; Access denied (no token)")
        end
  end.

(** src/experiments/repl/src/main/webapp/terminal/jquery.terminal-0.3.3.js:1833-1851
    the function over the methods of an object; a method is [None] where the
    property is no function. *)
Definition object_eval (methods : list (jstring * option Z)) (command : jstring) : M unit :=
  match command with
  | [] => skip
  | _ =>
      match Display.split_spaces false command with
      | [] => skip
      | method :: params =>
          match mjoin (snd <$> List.find (fun p => bool_decide (p.1 = method)) methods) with
          | Some f => emit (XApply f params)
          | None => echo (LText (js "Command '" ++ method ++ js "' Not Found"))
          end
      end
  end.

(** [interpreter['eval'](command, self)] *)
Definition call_eval (ev : eval_t) (command : jstring) : M unit :=
  match ev with
  | EvUser f => emit (XEval f command)
  | EvRpc url k => rpc_eval url k command
  | EvObject ms => object_eval ms command
  | EvString _ => throw (TError [] (js "interpreter.eval is not a function"))
  end.

(** src/experiments/repl/src/main/webapp/terminal/jquery.terminal-0.3.3.js:1901-1929
    [commands(command)] *)
Definition commands (command : jstring) : M unit :=
  rethrow (
    s <- get ;;
    let interpreter := Stack.top (interpreters s) in
    if bool_decide (command = js "exit") && s_exit cfg then
      if Stack.size (interpreters s) =? 1 then
        if login_on (s_login cfg) then do_logout
        else echo (LText (js "You can exit from main interpeter"))
      else pop (Some (js "exit"))
    else
      echo_command command ;;
      if bool_decide (command = js "clear") && s_clear cfg then clear
      else match interpreter with
           | Some i => call_eval (i_eval i) command
           | None => throw (TError [] (js "interpreter is undefined"))
           end)
    (fun e => display_exception e (js "USER")).

(** [options.commands(command)] of the command line. *)
Definition on_command (command : jstring) : M unit :=
  s <- get ;;
  match on_enter s with
  | HCommands => commands command
  | HLogin user => login_handler user command
  end.

(** ** What the server answers *)
Inductive rpc_result :=
| RString (s : jstring) | RArray (l : list jstring) | RObject (l : list (jstring * jstring)) | ROther.

(** src/experiments/repl/src/main/webapp/terminal/jquery.terminal-0.3.3.js:1771-1789
    [service]: the success callback. *)
Definition rpc_success (error_message : option jstring) (result : rpc_result) : M unit :=
  match error_message with
  | Some m => error (js "&#91;RPC&#93; " ++ m)
  | None =>
      match result with
      | RString s => echo (LText s)
      | RArray l => echo (LText (join [c_space] l))
      | RObject l =>
          echo (LText (foldr (fun p s => p.1 ++ js ": " ++ p.2 ++ [c_nl] ++ s) [] l))
      | ROther => skip
      end
  end ;; resume.

(** src/experiments/repl/src/main/webapp/terminal/jquery.terminal-0.3.3.js:1790-1795
    [service]: the error callback. *)
Definition rpc_failure (status response : jstring) : M unit :=
  error (js "&#91;AJAX&#93; " ++ status ++ js " - Server reponse is: " ++ [c_nl] ++ response) ;;
  resume.

(** src/experiments/repl/src/main/webapp/terminal/jquery.terminal-0.3.3.js:1865-1873
    the success callback of the authentication request. *)
Definition login_success (error : bool) (result : option jstring) : M unit :=
  resume ;; login_callback (if negb error && truthy result then result else None).

(** src/experiments/repl/src/main/webapp/terminal/jquery.terminal-0.3.3.js:1873-1878
    the error callback of the authentication request. *)
Definition login_failure (status response : jstring) : M unit :=
  resume ;; error (js "&#91;AJAX&#92; Response: " ++ status ++ [c_nl] ++ response).

(** ** Keys and initialisation *)

(** src/experiments/repl/src/main/webapp/terminal/jquery.terminal-0.3.3.js:2022-2071
    [key_press(e)]; [veto] says that [settings.keypress] answered [false]. *)
Definition key_press (veto : bool) (e : Cmd.event) : M (option bool) :=
  s <- get ;;
  if veto then ret (Some false)
  else if negb (pause s) then
    if (Cmd.which e =? 100) && Cmd.ctrlKey e then
      when (s_exit cfg && bool_decide (Cmd.command (cl s) = [])) (
        if (1 <? Stack.size (interpreters s))
           || match s_login cfg with LUndef => false | _ => true end
        then pop (Some [])
        else resume ;; echo (LText [])) ;;
      ret (Some false)
    else if (Cmd.which e =? 118) && Cmd.ctrlKey e then emit XScrollEnd ;; ret (Some true)
    else if (Cmd.keyCode e =? 9) && Cmd.ctrlKey e then emit XFocus ;; ret None
    else if Cmd.keyCode e =? 34 then emit (XScroll true) ;; ret None
    else if Cmd.keyCode e =? 33 then emit (XScroll false) ;; ret None
    else emit XScrollEnd ;; ret None
  else if (Cmd.which e =? 100) && Cmd.ctrlKey e then
    emit XAbort ;; resume ;; ret (Some false)
  else ret None.

(** The commands that a key handler of the command line runs. *)
Fixpoint deliver (es : list Cmd.effect) : M unit :=
  match es with
  | [] => skip
  | Cmd.ECommands c :: es => on_command c ;; deliver es
  | e :: es => emit (XCmd e) ;; deliver es
  end.

(** A [keydown] event on the page. *)
Definition keydown (veto : bool) (e : Cmd.event) : M Cmd.ret :=
  s <- get ;;
  let r := Keys.keydown veto e (cl s) (store s) in
  upd (set_cl (Keys.r_cmd r)) ;; upd (set_store (Keys.r_store r)) ;;
  deliver (Keys.r_eff r) ;; ret (Keys.r_ret r).

(** A [keypress] event on the page. *)
Definition keypress (veto : bool) (e : Cmd.event) : M unit :=
  if Cmd.ctrlKey e && (Cmd.which e =? 99) then skip
  else
    r <- key_press veto e ;;
    on_cl (fun c => (Keys.keypress r e c).1).

(** src/experiments/repl/src/main/webapp/terminal/jquery.terminal-0.3.3.js:2073-2088
    [$.fn.terminal]: the interpreters and the command line are created, for a
    [prompt] that is a string or a function; [None] when the stored history
    cannot be read. *)
Definition create (ev : eval_t) (prompt : Cmd.prompt_t) (st : S) : option (state * list eff) :=
  match Cmd.init [] prompt None false st with
  | Some (c, es) =>
      Some (State c [] [] (negb (s_enabled cfg))
              (Stack.make (Some (Interp (s_name cfg) ev (s_prompt cfg) None None)))
              HCommands None ∅ 1 st, map XCmd es)
  | None => None
  end.

(** src/experiments/repl/src/main/webapp/terminal/jquery.terminal-0.3.3.js:1650-1653
    [insert] *)
Definition insert (string : jstring) : M unit := on_cl (fun c => Cmd.insert c string false).

(** src/experiments/repl/src/main/webapp/terminal/jquery.terminal-0.3.3.js:1654-1659
    [set_prompt] *)
Definition set_prompt (prompt : prompt_opt) : M unit :=
  ok <- valid (js "prompt") prompt ;; when ok (cl_prompt prompt).

(** src/experiments/repl/src/main/webapp/terminal/jquery.terminal-0.3.3.js:1660-1663
    [set_command] *)
Definition set_command (command : jstring) : M unit :=
  on_cl (fun c => Cmd.set c (Some command) false).

(** src/experiments/repl/src/main/webapp/terminal/jquery.terminal-0.3.3.js:1664-1667
    [set_mask] *)
Definition set_mask (display : bool) : M unit := on_cl (fun c => Cmd.set_mask c display).

(** src/experiments/repl/src/main/webapp/terminal/jquery.terminal-0.3.3.js:2094-2123
    [$.fn.terminal], the initialisation after the command line was created:
    the first [enable] or [disable], then the login or the interpreter. *)
Definition start : M unit :=
  (if s_enabled cfg then emit XFocus else disable) ;;
  s <- get ;;
  let none (o : option (option jstring)) :=
    match o with Some t => negb (truthy t) | None => false end in
  if none (token s) && none (login_name s) then login else initialize.

(** ** Invariants of the monad *)

(** [m] keeps [P], whether it returns or throws. *)
Definition after {A} (P : state -> Prop) (o : outcome A) : Prop :=
  match o with Ret _ s _ | Throw _ s _ => P s | Hang => True end.
Record keeps (P : state -> Prop) {A} (m : M A) : Prop := Keeps {
  keeps_run s : P s -> after P (m s) }.

Section keeps_rules.
Variable P : state -> Prop.

Lemma keeps_ret A (x : A) : keeps P (ret x).
Proof. by constructor. Qed.

Lemma keeps_throw A e : keeps P (A := A) (throw e).
Proof. by constructor. Qed.

Lemma keeps_emit e : keeps P (emit e).
Proof. by constructor. Qed.

Lemma keeps_emits es : keeps P (emits es).
Proof. by constructor. Qed.

Lemma keeps_upd f : (forall s, P s -> P (f s)) -> keeps P (upd f).
Proof. intros Hf. constructor. intros s Hs. by apply Hf. Qed.

Lemma after_bind A B (m : M A) (k : A -> M B) s :
  after P (m s) -> (forall x, keeps P (k x)) -> after P (bind m k s).
Proof.
  unfold bind. intros Hm Hk. destruct (m s) as [x s' es|e s' es|]; [|done|done].
  destruct (Hk x) as [Hx]. specialize (Hx s' Hm). by destruct (k x s').
Qed.

Lemma after_get B (k : state -> M B) s : after P (k s s) -> after P (bind get k s).
Proof. unfold bind, get. by destruct (k s s). Qed.

Lemma after_upd B f (k : unit -> M B) s : after P (k tt (f s)) -> after P (bind (upd f) k s).
Proof. unfold bind, upd. by destruct (k tt (f s)). Qed.

Lemma keeps_bind A B (m : M A) (k : A -> M B) :
  keeps P m -> (forall x, keeps P (k x)) -> keeps P (bind m k).
Proof. intros Hm Hk. constructor. intros s Hs. apply after_bind; [by apply Hm | done]. Qed.

(** Reading the state: the continuation may use what holds of it. *)
Lemma keeps_get B (k : state -> M B) :
  (forall s, P s -> after P (k s s)) -> keeps P (bind get k).
Proof.
  intros Hk. constructor. intros s Hs. specialize (Hk s Hs). unfold bind, get. by destruct (k s s).
Qed.

Lemma keeps_rethrow A (m : M A) h :
  keeps P m -> (forall e, keeps P (h e)) -> keeps P (rethrow m h).
Proof.
  intros [Hm] Hh. constructor. intros s Hs. specialize (Hm s Hs). unfold rethrow.
  destruct (m s) as [x s' es|e s' es|]; [done| |done].
  destruct (Hh e) as [He]. specialize (He s' Hm). by destruct (h e s').
Qed.

Lemma keeps_when b m : keeps P m -> keeps P (when b m).
Proof. by destruct b; [|intros _; apply keeps_ret]. Qed.

Lemma keeps_call_opt f e : keeps P (call_opt f e).
Proof. destruct f; [apply keeps_emit | apply keeps_ret]. Qed.

Lemma keeps_hang A : keeps P (A := A) hang.
Proof. by constructor. Qed.
End keeps_rules.

(** *** Properties that only the output, the flags and the command line's view
    can break *)
Section quiet.
Variable P : state -> Prop.
Hypothesis P_output : forall o s, P s -> P (set_output o s).
Hypothesis P_lines : forall l s, P s -> P (set_lines l s).
Hypothesis P_pause : forall b s, P s -> P (set_pause b s).
Hypothesis P_cols : forall n s, P s -> P (set_cols n s).
Hypothesis P_calls : forall m s, P s -> P (set_calls m s).
Hypothesis P_cl : forall s c,
  P s -> Cmd.history c = Cmd.history (cl s) -> P (set_cl c s).

Lemma keeps_get_id : keeps P get.
Proof. by constructor. Qed.

Lemma keeps_on_cl f : (forall c, Cmd.history (f c) = Cmd.history c) -> keeps P (on_cl f).
Proof. intros Hf. apply keeps_upd. intros s Hs. by apply P_cl. Qed.

Lemma keeps_on_cl_eff f : (forall c, Cmd.history (f c).1 = Cmd.history c) -> keeps P (on_cl_eff f).
Proof.
  intros Hf. apply keeps_get. intros s Hs. unfold bind, upd, emits. simpl. by apply P_cl.
Qed.

Lemma keeps_draw_line t : keeps P (draw_line t).
Proof.
  apply keeps_get. intros s Hs. destruct (Display.draw_line _ _); [|done].
  unfold upd. simpl. by apply P_output.
Qed.

Lemma keeps_echo l : keeps P (echo l).
Proof.
  unfold echo. apply keeps_bind; [apply keeps_upd; auto | intros _].
  apply keeps_bind; [apply keeps_get_id | intros s0; apply keeps_draw_line].
Qed.

Lemma draw_prompt_history c : Cmd.history (Cmd.draw_prompt c).1 = Cmd.history c.
Proof. unfold Cmd.draw_prompt. by case_match. Qed.

Lemma enable_history c : Cmd.history (Cmd.enable c).1 = Cmd.history c.
Proof. unfold Cmd.enable. by case_match. Qed.

Lemma disable_history c : Cmd.history (Cmd.disable c).1 = Cmd.history c.
Proof. unfold Cmd.disable. by case_match. Qed.

Lemma keeps_cl_prompt p : keeps P (cl_prompt p).
Proof.
  destruct p; [apply keeps_ret | apply keeps_throw |]. apply keeps_on_cl_eff.
  intros c. by rewrite draw_prompt_history.
Qed.

Lemma keeps_draw_all ls : keeps P (draw_all ls).
Proof.
  induction ls as [|l ls IH]; simpl; [apply keeps_ret|].
  apply keeps_bind; [apply keeps_get_id | intros s0].
  apply keeps_bind; [apply keeps_draw_line | done].
Qed.

Lemma keeps_resize : keeps P resize.
Proof.
  unfold resize. repeat (apply keeps_bind; [|intros ?]).
  - apply keeps_upd; auto.
  - by apply keeps_on_cl.
  - apply keeps_upd; auto.
  - apply keeps_get_id.
  - apply keeps_draw_all.
Qed.

Lemma keeps_disable : keeps P disable.
Proof.
  apply keeps_bind; [apply keeps_upd; auto | intros _].
  apply keeps_on_cl_eff. apply disable_history.
Qed.

Lemma keeps_enable : keeps P enable.
Proof.
  apply keeps_bind; [apply keeps_get_id | intros s0].
  apply keeps_bind; [apply keeps_when, keeps_resize | intros _].
  apply keeps_when. apply keeps_bind; [apply keeps_on_cl_eff, enable_history | intros _].
  apply keeps_upd; auto.
Qed.

Lemma keeps_resume : keeps P resume.
Proof. apply keeps_bind; [apply keeps_enable | intros _; apply keeps_emit]. Qed.

Lemma keeps_clear : keeps P clear.
Proof.
  unfold clear. repeat (apply keeps_bind; [|intros ?]).
  - apply keeps_upd; auto.
  - by apply keeps_on_cl.
  - apply keeps_upd; auto.
Qed.

Lemma keeps_display_exception e l : keeps P (display_exception e l).
Proof.
  destruct e; [apply keeps_echo|].
  apply keeps_bind; [apply keeps_echo | intros _].
  apply keeps_bind; [apply keeps_disable | intros _; apply keeps_emit].
Qed.

Lemma keeps_echo_command c : keeps P (echo_command c).
Proof.
  apply keeps_bind; [apply keeps_get_id | intros s0].
  cbv zeta. case_match; [apply keeps_echo | apply keeps_emit].
Qed.

Lemma keeps_next_id k : keeps P (next_id k).
Proof.
  apply keeps_bind; [apply keeps_get_id | intros s0]. cbv zeta.
  apply keeps_bind; [apply keeps_upd; auto | intros _; apply keeps_ret].
Qed.

Lemma keeps_service url k m ps : keeps P (service url k m ps).
Proof.
  apply keeps_bind; [apply keeps_disable | intros _].
  apply keeps_bind; [apply keeps_next_id | intros id; apply keeps_emit].
Qed.

Lemma keeps_call_login u p : keeps P (call_login u p).
Proof.
  unfold call_login. destruct (s_login cfg);
    [apply keeps_throw | apply keeps_throw | apply keeps_emit | | apply keeps_throw].
  apply keeps_bind; [apply keeps_disable | intros _].
  apply keeps_bind; [apply keeps_next_id | intros id; apply keeps_emit].
Qed.

Lemma keeps_show_greetings : keeps P show_greetings.
Proof.
  unfold show_greetings. case_match; [apply keeps_echo|].
  case_match; [apply keeps_ret | apply keeps_echo].
Qed.

Lemma keeps_valid l p : keeps P (valid l p).
Proof.
  assert (keeps P (display_exception (TString (l ++ js " must be string or function"))
           (toUpperCase l) ;; ret false)).
  { apply keeps_bind; [apply keeps_display_exception | intros _; apply keeps_ret]. }
  unfold valid. destruct p as [| |[q|f]]; [done | done | apply keeps_ret |].
  apply keeps_bind; [apply keeps_emit | intros _; apply keeps_ret].
Qed.

Lemma keeps_rpc_eval url k c : keeps P (rpc_eval url k c).
Proof.
  unfold rpc_eval. destruct c; [apply keeps_ret|]. case_match. case_match; [apply keeps_service|].
  apply keeps_bind; [apply keeps_get_id | intros s0]. case_match; [|apply keeps_throw].
  case_match; [apply keeps_service | apply keeps_echo].
Qed.

Lemma keeps_call_eval ev c : keeps P (call_eval ev c).
Proof.
  destruct ev; simpl; [apply keeps_emit | apply keeps_rpc_eval | | apply keeps_throw].
  unfold object_eval. repeat case_match;
    [apply keeps_ret | apply keeps_ret | apply keeps_emit | apply keeps_echo].
Qed.
End quiet.

(** ** Sessions *)
Inductive event :=
| IDown (veto : bool) (e : Cmd.event) | IPress (veto : bool) (e : Cmd.event)
| ILogin (user_data : option jstring)
| ILoginOk (err : bool) (result : option jstring) | ILoginFail (status response : jstring)
| IRpcOk (err : option jstring) (result : rpc_result) | IRpcFail (status response : jstring)
| IPush (_eval : push_eval) (o : push_opts) | IPop (string : option jstring) | ILogout
| IEcho (l : line_t) | IEchoReply (string command : jstring) | IPromptReply (string : jstring)
| IInsert (string : jstring) | ISetPrompt (p : prompt_opt) | ISetCommand (c : jstring)
| ISetMask (b : bool) | IClear | IPause | IResume | IResize | IFile (lineNumber : Z) (file : jstring).

Definition handle (i : event) : M unit :=
  match i with
  | IDown veto e => keydown veto e ;; skip
  | IPress veto e => keypress veto e
  | ILogin d => login_callback d
  | ILoginOk err r => login_success err r
  | ILoginFail st r => login_failure st r
  | IRpcOk err r => rpc_success err r
  | IRpcFail st r => rpc_failure st r
  | IPush ev o => push ev o
  | IPop str => pop str
  | ILogout => logout
  | IEcho l => echo l
  | IEchoReply str c => prompt_echo_reply str c
  | IPromptReply str => on_cl (fun c => Cmd.prompt_reply c str)
  | IInsert str => insert str
  | ISetPrompt p => set_prompt p
  | ISetCommand c => set_command c
  | ISetMask b => set_mask b
  | IClear => clear
  | IPause => self_pause
  | IResume => resume
  | IResize => resize
  | IFile n f => file_reply n f
  end.

(** An exception ends the handler, not the session; [None] when a handler does
    not return. *)
Fixpoint run_events (evs : list event) (s : state) : option state :=
  match evs with
  | [] => Some s
  | i :: evs =>
      match handle i s with
      | Ret _ s' _ | Throw _ s' _ => run_events evs s'
      | Hang => None
      end
  end.

Lemma keeps_events P evs s s' :
  (forall i, keeps P (handle i)) -> run_events evs s = Some s' -> P s -> P s'.
Proof.
  intros Hk. revert s. induction evs as [|i evs IH]; intros s Hr Hs; simpl in Hr; [by simplify_eq|].
  destruct (Hk i) as [Hi]. specialize (Hi s Hs). destruct (handle i s); [by eapply IH..|done].
Qed.

(** *** The main interpreter *)
Section main_interpreter.
Variable b : interp.
Hypothesis b_name : i_name b = s_name cfg.

(** The interpreter at the bottom of the stack is [b]. *)
Definition rooted (s : state) : Prop := head (Stack.data (interpreters s)) = Some b.

Lemma rooted_upd f :
  (forall s, interpreters (f s) = interpreters s) -> keeps rooted (upd f).
Proof. intros Hf. apply keeps_upd. intros s. unfold rooted. by rewrite Hf. Qed.

Ltac quiet := first
  [ apply keeps_echo | apply keeps_echo_command | apply keeps_display_exception
  | apply keeps_cl_prompt | apply keeps_resume | apply keeps_disable | apply keeps_clear
  | apply keeps_resize | apply keeps_service | apply keeps_call_login | apply keeps_show_greetings
  | apply keeps_valid | apply keeps_call_eval ]; done.

Lemma rooted_on_cl f : keeps rooted (on_cl f).
Proof. by apply rooted_upd. Qed.

Lemma rooted_cl_name n : keeps rooted (cl_name n).
Proof.
  apply keeps_get. intros s Hs. by destruct (Cmd.set_name _ _ _).
Qed.

Lemma rooted_prepare : keeps rooted prepare_top_interpreter.
Proof.
  apply keeps_bind; [by constructor | intros s0].
  destruct (Stack.top _); [|apply keeps_throw].
  apply keeps_bind; [apply rooted_cl_name | intros _].
  apply keeps_bind; [quiet | intros _].
  apply keeps_bind; [apply keeps_when, rooted_on_cl | intros _].
  apply keeps_bind; [apply rooted_on_cl | intros _; apply keeps_call_opt].
Qed.

Lemma rooted_initialize : keeps rooted initialize.
Proof.
  apply keeps_bind; [apply rooted_prepare | intros _].
  apply keeps_bind; [quiet | intros _; apply keeps_call_opt].
Qed.

Lemma rooted_login : keeps rooted login.
Proof.
  apply keeps_bind; [quiet | intros _].
  apply keeps_bind; [apply keeps_when, rooted_on_cl | intros _; by apply rooted_upd].
Qed.

Lemma rooted_do_logout : keeps rooted do_logout.
Proof.
  apply keeps_bind; [by apply rooted_upd | intros _].
  apply keeps_bind; [by apply rooted_upd | intros _].
  apply keeps_bind; [apply keeps_when, rooted_on_cl | intros _; apply rooted_login].
Qed.

(** Popping above the bottom leaves the bottom. *)
Lemma rooted_pop_above s :
  rooted s -> (1 < Stack.size (interpreters s) \/ Stack.top (interpreters s) <> Some b) ->
  after rooted (pop_interp s).
Proof.
  unfold rooted, pop_interp, bind, get, upd, ret. simpl. intros Hr Hs.
  destruct (interpreters s) as [d]. simpl in *.
  destruct d as [|x d _] using rev_ind; [done|].
  rewrite Stack.pop_snoc. simpl. destruct d as [|y d]; [|done].
  simpl in Hr. simplify_eq. destruct Hs as [Hs|Hs]; [by unfold Stack.size in Hs | done].
Qed.

Lemma rooted_pop str : keeps rooted (pop str).
Proof.
  apply keeps_bind; [destruct str; [quiet | apply keeps_ret] | intros _].
  apply keeps_get. intros s Hs. destruct (Stack.top (interpreters s)) as [i|] eqn:Et; [|done].
  case_decide as Hi.
  - destruct (keeps_when rooted (login_on (s_login cfg)) (do_logout ;; call_opt (s_onExit cfg) XExit))
      as [Hk]; [|by apply Hk].
    apply keeps_bind; [apply rooted_do_logout | intros _; apply keeps_call_opt].
  - apply after_bind; [apply rooted_pop_above; [done | right; congruence]|].
    intros cur. apply keeps_bind; [apply rooted_prepare | intros _].
    destruct cur; [apply keeps_call_opt | apply keeps_throw].
Qed.

Lemma rooted_pop_to_one n : keeps rooted (pop_to_one n).
Proof.
  induction n as [|n IH]; simpl; [apply keeps_ret|].
  apply keeps_get. intros s Hs. destruct (Z.ltb_spec 1 (Stack.size (interpreters s))); [|done].
  apply after_bind; [apply rooted_pop_above; auto | done].
Qed.

Lemma rooted_push ev o : keeps rooted (push ev o).
Proof.
  apply keeps_bind; [destruct (falsy_prompt _); [apply keeps_ret | quiet] | intros ok].
  apply keeps_when. apply keeps_bind; [by constructor | intros s0].
  apply keeps_bind; [destruct ev; [apply keeps_ret | by apply rooted_upd] | intros _].
  apply keeps_bind; [|intros _; apply rooted_prepare].
  apply keeps_upd. intros s. unfold rooted. simpl. by destruct (Stack.data _).
Qed.

Lemma rooted_login_handler u c : keeps rooted (login_handler u c).
Proof.
  apply keeps_rethrow; [|intros; quiet]. apply keeps_bind; [quiet | intros _].
  assert (keeps rooted (upd (set_handler (HLogin (Some c))) ;;
    cl_prompt (PGiven (Cmd.PString (js "password:"))) ;;
    on_cl (fun c => Cmd.set_mask c true))).
  { apply keeps_bind; [by apply rooted_upd | intros _].
    apply keeps_bind; [quiet | intros _; apply rooted_on_cl]. }
  destruct u as [[|x u]|]; [done | | done].
  apply keeps_bind; [apply rooted_on_cl | intros _].
  apply keeps_bind; [quiet | intros _; quiet].
Qed.

Lemma rooted_commands c : keeps rooted (commands c).
Proof.
  apply keeps_rethrow; [|intros; quiet].
  apply keeps_bind; [by constructor | intros s0]. cbv zeta.
  destruct (_ && _).
  - destruct (_ =? 1); [|apply rooted_pop]. destruct (login_on _); [apply rooted_do_logout | quiet].
  - apply keeps_bind; [quiet | intros _]. destruct (_ && _); [quiet|].
    destruct (Stack.top _); [quiet | apply keeps_throw].
Qed.

Lemma rooted_deliver es : keeps rooted (deliver es).
Proof.
  induction es as [|e es IH]; [apply keeps_ret|].
  assert (forall e, keeps rooted (emit (XCmd e) ;; deliver es)).
  { intros. apply keeps_bind; [apply keeps_emit | done]. }
  destruct e; simpl; try done. apply keeps_bind; [|done].
  apply keeps_bind; [by constructor | intros s0].
  destruct (on_enter s0); [apply rooted_commands | apply rooted_login_handler].
Qed.

Lemma rooted_login_callback d : keeps rooted (login_callback d).
Proof.
  apply keeps_bind; [by constructor | intros s0]. destruct (on_enter s0); [apply keeps_ret|].
  apply keeps_bind; [|intros _; apply keeps_bind; [quiet | intros _]].
  - destruct (truthy d).
    + do 3 (apply keeps_bind; [by apply rooted_upd | intros _]). apply rooted_initialize.
    + apply keeps_bind; [quiet | intros _]. apply keeps_bind; [quiet | intros _].
      by apply rooted_upd.
  - apply keeps_when, rooted_on_cl.
Qed.

Lemma rooted_key_press veto e : keeps rooted (key_press veto e).
Proof.
  apply keeps_bind; [by constructor | intros s0].
  destruct veto; [apply keeps_ret|]. destruct (negb _).
  - destruct (_ && _).
    + apply keeps_bind; [|intros _; apply keeps_ret]. apply keeps_when.
      destruct (_ || _); [apply rooted_pop|]. apply keeps_bind; [quiet | intros _; quiet].
    + repeat (destruct (_ && _) || destruct (_ =? _));
        (apply keeps_bind; [apply keeps_emit | intros _; apply keeps_ret]).
  - destruct (_ && _); [|apply keeps_ret].
    apply keeps_bind; [apply keeps_emit | intros _].
    apply keeps_bind; [quiet | intros _; apply keeps_ret].
Qed.

Lemma rooted_handle i : keeps rooted (handle i).
Proof.
  destruct i; simpl; try quiet.
  - apply keeps_bind; [|intros _; apply keeps_ret].
    apply keeps_bind; [by constructor | intros s0]. cbv zeta.
    repeat (apply keeps_bind; [by apply rooted_upd | intros _]).
    apply keeps_bind; [apply rooted_deliver | intros _; apply keeps_ret].
  - unfold keypress. destruct (_ && _); [apply keeps_ret|].
    apply keeps_bind; [apply rooted_key_press | intros r; apply rooted_on_cl].
  - apply rooted_login_callback.
  - apply keeps_bind; [quiet | intros _; apply rooted_login_callback].
  - apply keeps_bind; [quiet | intros _; quiet].
  - apply keeps_bind; [|intros _; quiet].
    destruct err; [quiet|]. destruct result; first [quiet | apply keeps_ret].
  - apply keeps_bind; [quiet | intros _; quiet].
  - apply rooted_push.
  - apply rooted_pop.
  - unfold logout. destruct (token_methods cfg); [|apply keeps_throw].
    apply keeps_bind; [by constructor | intros s0].
    apply keeps_bind; [apply rooted_pop_to_one | intros _; apply rooted_do_logout].
  - apply rooted_on_cl.
  - apply rooted_on_cl.
  - apply keeps_bind; [quiet | intros ok]. apply keeps_when. quiet.
  - apply rooted_on_cl.
  - apply rooted_on_cl.
  - apply keeps_bind; [quiet | intros _; quiet].
Qed.
End main_interpreter.

(** C7: Whatever commands, keys, pushes, pops, logouts and replies come, the main
    interpreter stays at the bottom of the stack: [exit], CTRL+D and [logout]
    never remove it. *)
Theorem main_interpreter_stays b evs s s' :
  i_name b = s_name cfg -> head (Stack.data (interpreters s)) = Some b ->
  run_events evs s = Some s' ->
  head (Stack.data (interpreters s')) = Some b /\ 1 <= Stack.size (interpreters s').
Proof.
  intros Hb Hs Hr. pose proof (keeps_events (rooted b) evs s s' (rooted_handle b Hb) Hr Hs) as H'.
  split; [done|]. unfold rooted, Stack.size in *. destruct (Stack.data (interpreters s')) as [|x l]; [done|].
  rewrite zlen_cons. pose proof (zlen_nonneg l). lia.
Qed.

(** *** The login dialog *)

(** What CTRL+D on an empty line does to the storage: it logs out once more. *)
Definition forget_login (st : S) : S :=
  kv_remove (js "login" ++ under (s_name cfg)) (kv_remove (js "token" ++ under (s_name cfg)) st).

(** The main interpreter is the one on top. *)
Definition main_on_top (s : state) : Prop :=
  exists i, Stack.top (interpreters s) = Some i /\ i_name i = s_name cfg.

(** A history that is switched off, with its entries, and the storage. *)
Definition unrecorded (d : list jstring) (st : S) (s : state) : Prop :=
  History.enabled (Cmd.history (cl s)) = false
  /\ History.data (Cmd.history (cl s)) = d /\ (exists n, store s = Nat.iter n forget_login st)
  /\ (exists u, on_enter s = HLogin u) /\ main_on_top s.

Lemma unrecorded_cl d st s c :
  unrecorded d st s -> Cmd.history c = Cmd.history (cl s) -> unrecorded d st (set_cl c s).
Proof. intros (He & Hd & Hs & Hu) Hc. unfold unrecorded. simpl. by rewrite Hc. Qed.

(** What a key does to a history that is switched off, and to the storage. *)
Lemma key_enter_history c s :
  History.enabled (Cmd.history c) = false ->
  History.enabled (Cmd.history (Keys.r_cmd (Keys.key_enter c s))) = false
  /\ History.data (Cmd.history (Keys.r_cmd (Keys.key_enter c s))) = History.data (Cmd.history c)
  /\ Keys.r_store (Keys.key_enter c s) = s.
Proof.
  intros He. unfold Keys.key_enter.
  assert (match Cmd.command c with [] => (Cmd.history c, s)
          | _ => History.append (Cmd.history c) (Cmd.command c) s end = (Cmd.history c, s)) as ->.
  { destruct (Cmd.command c); [done|]. unfold History.append. by rewrite He. }
  unfold Cmd.draw_prompt. by repeat (case_match; simplify_eq/=).
Qed.

Lemma keydown_history veto e c s :
  History.enabled (Cmd.history c) = false ->
  History.enabled (Cmd.history (Keys.r_cmd (Keys.keydown veto e c s))) = false
  /\ History.data (Cmd.history (Keys.r_cmd (Keys.keydown veto e c s))) = History.data (Cmd.history c)
  /\ Keys.r_store (Keys.keydown veto e c s) = s.
Proof.
  intros He. pose proof (key_enter_history c s He) as Hent.
  assert (Hset : forall c t b, Cmd.history (Cmd.set c t b) = Cmd.history c) by (by intros ? [] ?).
  assert (Hleft : Cmd.history (Keys.key_left c e) = Cmd.history c)
    by (unfold Keys.key_left; by repeat case_match).
  assert (Hright : Cmd.history (Keys.key_right c e) = Cmd.history c)
    by (unfold Keys.key_right; by repeat case_match).
  assert (Hbs : Cmd.history (Keys.key_backspace c) = Cmd.history c)
    by (unfold Keys.key_backspace; by repeat case_match).
  assert (Hdel : Cmd.history (Keys.key_delete c) = Cmd.history c)
    by (unfold Keys.key_delete; by repeat case_match).
  assert (Hctrl : Cmd.history (Keys.key_ctrl c e).1.1 = Cmd.history c)
    by (unfold Keys.key_ctrl; repeat case_match; simpl; rewrite ?Hset; done).
  assert (Hhist : forall move, (forall h, History.enabled (move h).1 = History.enabled h
                                /\ History.data (move h).1 = History.data h) ->
      History.enabled (Cmd.history (Keys.key_history c move)) = false
      /\ History.data (Cmd.history (Keys.key_history c move)) = History.data (Cmd.history c)).
  { intros move Hm. unfold Keys.key_history. destruct (move (Cmd.history c)) as [h l] eqn:Em.
    specialize (Hm (Cmd.history c)). rewrite Em in Hm. simpl in Hm. destruct Hm as [Hm1 Hm2].
    rewrite Hset. simpl. by rewrite Hm1, Hm2. }
  destruct (Hhist History.previous) as [Hp1 Hp2].
  { intros h. unfold History.previous, History.data. simpl. split; [done|]. unfold BCycle.left. by repeat case_match. }
  destruct (Hhist History.next) as [Hn1 Hn2].
  { intros h. unfold History.next, History.data. simpl. split; [done|]. unfold BCycle.right. by repeat case_match. }
  unfold Keys.keydown. cbv zeta. destruct veto; [done|].
  destruct (Cmd.enabled c); [|by case_match].
  destruct (Keys.key_ctrl c e) as [[c' es] r]. simpl in Hctrl.
  repeat case_match; simpl; rewrite ?Hset, ?Hleft, ?Hright, ?Hbs, ?Hdel, ?Hctrl; done.
Qed.

Section dialog.
Variables (d : list jstring) (st : S).

Ltac quiet := first
  [ apply keeps_echo_command | apply keeps_display_exception | apply keeps_cl_prompt
  | apply keeps_disable | apply keeps_call_login ];
  first [done | by apply unrecorded_cl | intros; by apply unrecorded_cl].

Lemma unrecorded_login_handler u c : keeps (unrecorded d st) (login_handler u c).
Proof.
  assert (Hm : forall b, keeps (unrecorded d st) (on_cl (fun c => Cmd.set_mask c b))).
  { intros b. apply keeps_upd. intros. by apply unrecorded_cl. }
  apply keeps_rethrow; [|intros; quiet]. apply keeps_bind; [quiet | intros _].
  assert (keeps (unrecorded d st) (upd (set_handler (HLogin (Some c))) ;;
    cl_prompt (PGiven (Cmd.PString (js "password:"))) ;;
    on_cl (fun c => Cmd.set_mask c true))).
  { apply keeps_bind; [|intros _].
    - apply keeps_upd. intros s (He & Hd & Hs & _ & Ht). split_and!; [done..| |done]. by eexists.
    - apply keeps_bind; [quiet | done]. }
  destruct u as [[|x u]|]; [done | | done].
  apply keeps_bind; [done | intros _]. apply keeps_bind; [quiet | intros _; quiet].
Qed.

Lemma unrecorded_deliver es : keeps (unrecorded d st) (deliver es).
Proof.
  induction es as [|e es IH]; [apply keeps_ret|].
  assert (forall e, keeps (unrecorded d st) (emit (XCmd e) ;; deliver es)).
  { intros. apply keeps_bind; [apply keeps_emit | done]. }
  destruct e; simpl; try done. apply keeps_bind; [|done].
  apply keeps_get. intros s Hs. destruct Hs as (He & Hd & Hst & (u & Hu) & Ht). rewrite Hu.
  destruct (unrecorded_login_handler u command) as [Hk]. apply Hk. split_and!; [done..| |done]. by eexists.
Qed.

Lemma unrecorded_keydown veto e : keeps (unrecorded d st) (handle (IDown veto e)).
Proof.
  apply keeps_bind; [|intros _; apply keeps_ret].
  apply keeps_get. intros s Hs. cbv zeta. destruct Hs as (He & Hd & Hst & (u & Hu) & Ht).
  destruct (keydown_history veto e (cl s) (store s) He) as (He' & Hd' & Hs').
  set (r := Keys.keydown veto e (cl s) (store s)) in *.
  set (s' := set_store (Keys.r_store r) (set_cl (Keys.r_cmd r) s)).
  assert (unrecorded d st s') as Hr.
  { split_and!; simpl; [done | by rewrite Hd' | by rewrite Hs' | by eexists | exact Ht]. }
  assert (keeps (unrecorded d st) (deliver (Keys.r_eff r) ;; ret (Keys.r_ret r))) as [Hk].
  { apply keeps_bind; [apply unrecorded_deliver | intros _; apply keeps_ret]. }
  specialize (Hk s' Hr). unfold bind, upd, get in *. simpl. unfold s' in Hk.
  by destruct (deliver (Keys.r_eff r) _).
Qed.

Lemma unrecorded_on_cl f :
  (forall c, Cmd.history (f c) = Cmd.history c) -> keeps (unrecorded d st) (on_cl f).
Proof. intros Hf. apply keeps_upd. intros. by apply unrecorded_cl. Qed.

(** Switching the history off. *)
Lemma unrecorded_off : keeps (unrecorded d st) (when (s_history cfg) (on_history History.disable)).
Proof. apply keeps_when, keeps_upd. intros s (He & Hd & Hr). split; [done | exact (conj Hd Hr)]. Qed.

Lemma unrecorded_do_logout : keeps (unrecorded d st) do_logout.
Proof.
  assert (forall s, unrecorded d st s -> unrecorded d st (set_store (forget_login (store s)) s)) as Hf.
  { intros s (He & Hd & (n & Hn) & Hr). split; [done|]. split; [done|]. split; [|exact Hr].
    exists (Datatypes.S n). simpl. by rewrite Hn. }
  assert (keeps (unrecorded d st) (when (s_history cfg) (on_history History.disable) ;; login)) as [Hk].
  { apply keeps_bind; [apply unrecorded_off | intros _].
    apply keeps_bind; [quiet | intros _]. apply keeps_bind; [apply unrecorded_off | intros _].
    apply keeps_upd. intros s (He & Hd & Hs & _ & Ht). split_and!; [done..| |done]. by eexists. }
  constructor. intros s Hs. apply after_upd, after_upd. apply (Hk _ (Hf s Hs)).
Qed.

Lemma unrecorded_pop str : keeps (unrecorded d st) (pop str).
Proof.
  apply keeps_bind; [destruct str; [quiet | apply keeps_ret] | intros _].
  apply keeps_get. intros s Hs. pose proof Hs as (_ & _ & _ & _ & i & Et & Hi). rewrite Et, decide_True by done.
  destruct (keeps_when (unrecorded d st) (login_on (s_login cfg)) (do_logout ;; call_opt (s_onExit cfg) XExit))
    as [Hk]; [|by apply Hk].
  apply keeps_bind; [apply unrecorded_do_logout | intros _; apply keeps_call_opt].
Qed.

Lemma unrecorded_keypress veto e : keeps (unrecorded d st) (keypress veto e).
Proof.
  assert (keeps (unrecorded d st) resume) as Hres.
  { apply keeps_resume; first [done | by apply unrecorded_cl | intros; by apply unrecorded_cl]. }
  assert (forall l, keeps (unrecorded d st) (echo l)) as Hecho.
  { intros l. apply keeps_echo; first [done | by apply unrecorded_cl | intros; by apply unrecorded_cl]. }
  unfold keypress. destruct (_ && _); [apply keeps_ret|].
  apply keeps_bind; [|intros r; apply unrecorded_on_cl].
  - apply keeps_bind; [by constructor | intros s0].
    destruct veto; [apply keeps_ret|]. destruct (negb _).
    + destruct (_ && _).
      * apply keeps_bind; [|intros _; apply keeps_ret]. apply keeps_when.
        destruct (_ || _); [apply unrecorded_pop|]. by apply keeps_bind; [|intros _].
      * repeat (destruct (_ && _) || destruct (_ =? _));
          (apply keeps_bind; [apply keeps_emit | intros _; apply keeps_ret]).
    + destruct (_ && _); [|apply keeps_ret].
      apply keeps_bind; [apply keeps_emit | intros _].
      apply keeps_bind; [done | intros _; apply keeps_ret].
  - intros c. unfold Keys.keypress. by repeat case_match.
Qed.

(** What the user and the page do to the command line while the dialog is open:
    the key events, pasted texts, drawing, echoes and the methods that set the
    command, the prompt and the mask; not [push], [pop], [logout], the answers of
    services and the answer of the login function. *)
Definition in_dialog (i : event) : bool :=
  match i with
  | IDown _ _ | IPress _ _ | IInsert _ | ISetCommand _ | ISetMask _ | IEcho _ | IEchoReply _ _
  | IPromptReply _ | ISetPrompt _ | IClear | IPause | IResume | IResize => true
  | _ => false
  end.

Lemma unrecorded_handle i : in_dialog i = true -> keeps (unrecorded d st) (handle i).
Proof.
  intros Hi. destruct i; try discriminate Hi; simpl.
  1: apply unrecorded_keydown.
  1: apply unrecorded_keypress.
  all: try (by apply unrecorded_on_cl).
  all: try (apply keeps_bind; [|intros ?; first [apply keeps_when; quiet | by apply unrecorded_on_cl]]).
  all: first [ apply keeps_echo | apply keeps_valid | apply keeps_clear | apply keeps_resume | apply keeps_resize
             | apply keeps_disable ];
    first [done | by apply unrecorded_cl | intros; by apply unrecorded_cl].
Qed.

Lemma unrecorded_run evs s s' :
  Forall (fun i => in_dialog i = true) evs -> run_events evs s = Some s' ->
  unrecorded d st s -> unrecorded d st s'.
Proof.
  intros HF. revert s. induction HF as [|i evs Hi HF IH]; intros s Hr Hs; simpl in Hr; [by simplify_eq|].
  destruct (unrecorded_handle i Hi) as [Hk]. specialize (Hk s Hs). destruct (handle i s); [by eapply IH..|done].
Qed.
End dialog.

(** C9: With the option [history] on, from the moment the terminal asks for a login
    until the login function answers, nothing that is typed is recorded: whatever
    keys are pressed, texts pasted and methods of the command line called, the
    entries of the history stay what they were, and all that can happen to the
    storage is that the token and the name of the login are removed again (CTRL+D
    on an empty line).  The main interpreter is on top, and no interpreter is
    pushed or popped meanwhile. *)
Theorem login_dialog_not_recorded s :
  s_history cfg = true -> main_on_top s ->
  exists s1 es, login s = Ret tt s1 es
  /\ forall evs s2,
       Forall (fun i => in_dialog i = true) evs -> run_events evs s1 = Some s2 ->
       History.data (Cmd.history (cl s2)) = History.data (Cmd.history (cl s))
       /\ exists n, store s2 = Nat.iter n forget_login (store s).
Proof.
  intros Hh Ht. unfold login, bind, cl_prompt, on_cl_eff, get, upd, emits, when, on_history, on_cl.
  rewrite Hh. simpl. eexists _, _. split; [done|]. intros evs s2 HF Hr.
  eapply (unrecorded_run (History.data (Cmd.history (cl s))) (store s)) in Hr as (_ & Hd & Hs & _);
    [by split | done |].
  split_and!; simpl; [done | done | by exists O | by eexists | exact Ht].
Qed.

(** The default of [settings.login] is [null]. *)
Lemma login_never_undefined a l : init_login a l <> LUndef.
Proof. unfold init_login. by repeat case_match. Qed.

(** *** Echoing *)
Lemma echo_returns l s :
  Display.drawable (num_chars s) ->
  exists b, echo l s = Ret tt (set_output (output s ++ [b]) (set_lines (lines s ++ [l]) s)) [].
Proof.
  intros Hd. destruct (Display.draw_line_returns (num_chars s) (text_of (num_chars s) l) Hd) as [b Hb].
  exists b. unfold echo, draw_line, bind, upd, get. simpl. by rewrite Hb.
Qed.

Lemma replace_dot_stars s :
  Forall (fun c => is_lineterm c = false) s -> replace_dot c_star s = replicate (length s) c_star.
Proof. induction 1 as [|c s Hc Hs IH]; [done|]. simpl. by rewrite Hc, IH. Qed.

Lemma echo_command_returns command prompt s :
  Cmd.prompt (cl s) = Cmd.PString prompt -> Display.drawable (num_chars s) ->
  exists o, echo_command command s
    = Ret tt (set_output o (set_lines (lines s ++ [LText (prompt ++ [c_space] ++
        (if Cmd.mask (cl s) then replace_dot c_star command else command))]) s)) [].
Proof.
  intros Hp Hd. unfold echo_command, bind, get. rewrite Hp.
  match goal with |- context [echo ?l] => destruct (echo_returns l s Hd) as [b Hb] end.
  rewrite Hb. by eexists.
Qed.

Lemma login_handler_user u user prompt s :
  truthy u = false -> Cmd.prompt (cl s) = Cmd.PString prompt -> Display.drawable (num_chars s) ->
  exists s1 es, login_handler u user s = Ret tt s1 es
    /\ on_enter s1 = HLogin (Some user) /\ num_chars s1 = num_chars s
    /\ Cmd.mask (cl s1) = true /\ Cmd.prompt (cl s1) = Cmd.PString (js "password:").
Proof.
  intros Hu Hp Hd. destruct (echo_command_returns user prompt s Hp Hd) as [o Ho].
  unfold login_handler, rethrow, bind at 1. rewrite Ho.
  destruct u as [[|x u]|]; try done; (eexists _, _; split; [reflexivity | done]).
Qed.

Lemma login_handler_password u pw prompt s :
  u <> [] -> Cmd.mask (cl s) = true -> Cmd.prompt (cl s) = Cmd.PString prompt ->
  Display.drawable (num_chars s) -> login_callable (s_login cfg) = true ->
  exists s2 es, login_handler (Some u) pw s = Ret tt s2 es
    /\ lines s2 = lines s ++ [LText (prompt ++ [c_space] ++ replace_dot c_star pw)]
    /\ pause s2 = true
    /\ match s_login cfg with LUser f => last es = Some (XLogin f u pw) | _ => True end.
Proof.
  intros Hu Hm Hp Hd Hl. destruct (echo_command_returns pw prompt s Hp Hd) as [o Ho].
  destruct u as [|x u]; [done|]. unfold login_handler, rethrow, bind at 1. rewrite Ho, Hm.
  unfold call_login. destruct (s_login cfg); try done;
    (eexists _, _; split; [reflexivity|]); split_and!; try done.
  cbn [app]. rewrite ?app_nil_r, last_snoc. done.
Qed.

(** The user name is echoed and the prompt asks for the password with the
    display masked; the password is then echoed as stars, one for each
    character, is handed to the login function, and nothing else is printed. *)
Theorem password_echoed_as_stars s u user pw prompt :
  on_enter s = HLogin u -> truthy u = false ->
  Cmd.prompt (cl s) = Cmd.PString prompt -> Display.drawable (num_chars s) ->
  login_callable (s_login cfg) = true -> user <> [] ->
  Forall (fun c => is_lineterm c = false) pw ->
  exists s1 es, on_command user s = Ret tt s1 es
  /\ forall c, Cmd.mask c = Cmd.mask (cl s1) -> Cmd.prompt c = Cmd.prompt (cl s1) ->
      exists s2 es2, on_command pw (set_cl c s1) = Ret tt s2 es2
        /\ lines s2 = lines s1 ++ [LText (js "password: " ++ replicate (length pw) c_star)]
        /\ pause s2 = true
        /\ match s_login cfg with LUser f => last es2 = Some (XLogin f user pw) | _ => True end.
Proof.
  intros Hu Ht Hp Hd Hl Huser Hpw.
  destruct (login_handler_user u user prompt s Ht Hp Hd) as (s1 & es & H1 & Hh & Hn & Hm & Hpr).
  exists s1, es. split; [unfold on_command, bind, get; by rewrite Hu, H1|].
  intros c Hcm Hcp. destruct (login_handler_password user pw (js "password:") (set_cl c s1))
    as (s2 & es2 & H2 & Hlines & Hpause & Hlast); cbn [cl set_cl num_chars];
    [done | congruence | by rewrite Hcp | by rewrite Hn | done |].
  exists s2, es2. unfold on_command, bind, get. simpl. rewrite Hh, H2.
  rewrite Hlines, replace_dot_stars by done. by split_and!.
Qed.

(** *** JSON-RPC interpreters *)

(** A terminal over a JSON-RPC service that was created without [login] gets a
    login function all the same, and no [token] method: every command but
    [help] ends in an exception, and no request is sent. *)
Theorem rpc_without_login_throws l url k command s :
  has_login_methods l = false -> url <> [] ->
  s_login cfg = init_login (IString url) l -> token_methods cfg = has_login_methods l ->
  command <> [] -> (Display.call_of command).1 <> js "help" ->
  rpc_eval (Some url) k command s
  = Throw (TError [] (js "terminal.token is not a function")) s [].
Proof.
  intros Hno Hurl Hlog Htok Hc Hm.
  assert (login_on (s_login cfg) = true) as Hl by (rewrite Hlog; by destruct url).
  assert (token_methods cfg = false) as Ht by congruence.
  unfold rpc_eval. destruct command as [|x command]; [done|].
  destruct (Display.call_of _) as [m ps]. cbn [fst] in Hm.
  rewrite Hl, bool_decide_false by done. unfold bind, get, token. by rewrite Ht.
Qed.

(** With a token in the storage, the request carries the method and, in front of
    the parameters, the token; the terminal is paused until the answer, and the
    next request of the interpreter gets the next identifier. *)
Theorem rpc_sends_token url k command s t :
  login_on (s_login cfg) = true -> token s = Some (Some t) -> t <> [] ->
  command <> [] -> (Display.call_of command).1 <> js "help" ->
  exists s' es, rpc_eval url k command s = Ret tt s' es
  /\ last es = Some (XAjax url (Json.json_stringify
       (Json.VObj [(js "jsonrpc", Json.VStr (js "2.0"));
                   (js "method", Json.VStr (Display.call_of command).1);
                   (js "params", Json.VArr (map Json.VStr (t :: (Display.call_of command).2)));
                   (js "id", Json.VNum (default 1 (calls s !! k)))]) 1))
  /\ pause s' = true /\ Cmd.enabled (cl s') = false
  /\ calls s' !! k = Some (default 1 (calls s !! k) + 1).
Proof.
  intros Hl Ht Hne Hc Hm. unfold rpc_eval. destruct command as [|x command]; [done|].
  destruct (Display.call_of _) as [m ps]. cbn [fst snd] in *.
  rewrite Hl, bool_decide_false by done. unfold bind at 1, get. cbn [orb negb]. rewrite Ht.
  destruct t as [|y t]; [done|]. cbn [truthy]. eexists _, _. split; [reflexivity|].
  split_and!.
  - cbn [app]. rewrite ?app_nil_r. rewrite last_snoc. done.
  - done.
  - cbn. unfold Cmd.disable. by case_match.
  - cbn. by rewrite lookup_insert_eq.
Qed.

(** [push] with a string never yields a JSON-RPC interpreter for the string: the
    function is built for the option [eval], which then overrides it. *)
Theorem push_string_ignored str o s s' es :
  push (PString str) o s = Ret tt s' es -> falsy_prompt (o_prompt o) = true ->
  Stack.top (interpreters s')
    = Some (Interp (o_name o)
        match o_eval o with Some u => EvString u | None => EvRpc None (closures s) end
        (o_prompt o) (o_onStart o) (o_onExit o)).
Proof.
  intros Hp Hf. unfold push in Hp. rewrite Hf in Hp.
  assert (forall P, (forall s, interpreters s = P -> after (fun s => interpreters s = P)
            (prepare_top_interpreter s))) as Hprep.
  { intros P s0 Hs0. assert (Hq : keeps (fun s => interpreters s = P) prepare_top_interpreter).
    { apply keeps_bind; [by constructor | intros s1]. destruct (Stack.top _); [|apply keeps_throw].
      apply keeps_bind; [|intros _].
      - apply keeps_get. intros s2 Hs2. by destruct (Cmd.set_name _ _ _).
      - apply keeps_bind; [by apply keeps_cl_prompt | intros _].
        apply keeps_bind; [by apply keeps_when, keeps_upd | intros _].
        apply keeps_bind; [by apply keeps_upd | intros _; apply keeps_call_opt]. }
    destruct Hq as [Hq]. by apply Hq. }
  unfold bind at 1, ret, when in Hp. unfold bind at 1, get in Hp. unfold bind at 1, upd at 1 in Hp.
  unfold bind at 1, upd in Hp.
  match type of Hp with context [prepare_top_interpreter ?s1] =>
    specialize (Hprep _ s1 eq_refl); destruct (prepare_top_interpreter s1) end; try done.
  simpl in Hp. simplify_eq. simpl in Hprep. rewrite Hprep. unfold Stack.push.
  rewrite Stack.top_snoc. by destruct (o_eval o).
Qed.

(** *** The token *)
Section tokens.
Context `{!KVLaws S}.

Lemma initialize_store st : keeps (fun s => store s = st) initialize.
Proof.
  apply keeps_bind; [|intros _].
  - apply keeps_bind; [by constructor | intros s1]. destruct (Stack.top _); [|apply keeps_throw].
    apply keeps_bind; [|intros _].
    + apply keeps_get. intros s2 Hs2. by destruct (Cmd.set_name _ _ _).
    + apply keeps_bind; [by apply keeps_cl_prompt | intros _].
      apply keeps_bind; [by apply keeps_when, keeps_upd | intros _].
      apply keeps_bind; [by apply keeps_upd | intros _; apply keeps_call_opt].
  - apply keeps_bind; [by apply keeps_show_greetings | intros _; apply keeps_call_opt].
Qed.

Lemma login_callback_store s user tok :
  on_enter s = HLogin (Some user) -> tok <> [] ->
  after (fun s' => store s' = kv_set (js "login" ++ under (s_name cfg)) user
                               (kv_set (js "token" ++ under (s_name cfg)) tok (store s)))
        (login_callback (Some tok) s).
Proof.
  intros Hu Ht. destruct tok as [|x tok]; [done|].
  unfold login_callback. apply after_get. rewrite Hu. cbn [truthy].
  apply after_bind.
  - do 3 apply after_upd. destruct (initialize_store (kv_set (js "login" ++ under (s_name cfg)) user
      (kv_set (js "token" ++ under (s_name cfg)) (x :: tok) (store s)))) as [Hk]. by apply Hk.
  - intros _. apply keeps_bind; [by apply keeps_resume | intros _]. by apply keeps_when, keeps_upd.
Qed.

Lemma do_logout_store s :
  after (fun s' => store s' = kv_remove (js "login" ++ under (s_name cfg))
                               (kv_remove (js "token" ++ under (s_name cfg)) (store s)))
        (do_logout s).
Proof.
  unfold do_logout. do 2 apply after_upd.
  match goal with |- after ?P _ => assert (keeps P (when (s_history cfg)
    (on_history History.disable) ;; login)) as [Hk] end; [|by apply Hk].
  apply keeps_bind; [by apply keeps_when, keeps_upd | intros _].
  apply keeps_bind; [by apply keeps_cl_prompt | intros _].
  apply keeps_bind; [by apply keeps_when, keeps_upd | intros _; by apply keeps_upd].
Qed.

Lemma under_key a b n : a ++ under n = b ++ under n -> a = b.
Proof. apply app_inv_tail. Qed.

(** When the login function grants a token, [token()] answers it, until
    [logout] after which it answers none; [login_name()] never answers the name
    that was entered: it reads another key than the one that is written. *)
Theorem token_lifecycle s s' es user tok :
  kv_wf (store s) -> (forall k, kv_key (js k ++ under (s_name cfg))) ->
  kv_value tok -> kv_value user -> token_methods cfg = true ->
  on_enter s = HLogin (Some user) -> tok <> [] ->
  login_callback (Some tok) s = Ret tt s' es ->
  token s' = Some (Some tok)
  /\ login_name s' = login_name s
  /\ after (fun s'' => exists t, token s'' = Some t /\ truthy t = false) (do_logout s').
Proof.
  intros Hw Hk Hv Hvu Hm Hu Ht Hr.
  pose proof (login_callback_store s user tok Hu Ht) as Hs. rewrite Hr in Hs. cbn [after] in Hs.
  assert (forall a b : string, js a <> js b ->
            js a ++ under (s_name cfg) <> js b ++ under (s_name cfg)) as Hne.
  { intros a b Hab Heq. apply Hab. by eapply under_key. }
  assert (kv_wf (kv_set (js "token" ++ under (s_name cfg)) tok (store s))) as Hw1
    by (apply kv_wf_set; [done | apply Hk | done]).
  assert (kv_wf (store s')) as Hw2 by (rewrite Hs; apply kv_wf_set; [done | apply Hk | done]).
  split_and!.
  - unfold token. rewrite Hm, Hs. f_equal.
    rewrite kv_get_set_ne by first [done | apply Hk | by apply Hne]. rewrite kv_get_set; [done | done | apply Hk | done].
  - unfold login_name. rewrite Hm, Hs. f_equal.
    by rewrite !kv_get_set_ne by first [done | apply Hk | by apply Hne].
  - pose proof (do_logout_store s') as Hd. unfold token. rewrite Hm.
    destruct (do_logout s') as [x s2 es2|e s2 es2|]; cbn [after] in *; [| |done];
      rewrite Hd; eexists; (split; [reflexivity|]);
      rewrite kv_get_remove_ne by first [done | apply Hk | by apply Hne | by apply kv_wf_remove; [|apply Hk]];
      (apply kv_get_remove; [done | apply Hk]).
Qed.
End tokens.
End terminal.

(** ** A concrete terminal *)
Import Storage.Local.
Arguments Ret {S A}. Arguments Throw {S A}. Arguments Hang {S A}.

(** A terminal named [t] with the user login function 7, and one over a service
    created without [login]. *)
Definition cfg_login : settings :=
  Settings 0 (NStr (js "t")) (PGiven (Cmd.PString (js ">"))) true true true true (LUser 7) true
    (GStr []) None None.
Definition cfg_rpc : settings :=
  Settings 0 NNull (PGiven (Cmd.PString (js ">"))) true true true true
    (init_login (IString (js "/rpc")) ANull) (has_login_methods ANull) (GStr []) None None.

Definition fresh_cl : Cmd.cmd :=
  Cmd.MkCmd (Some 40) (Some 1) false [] 0 (Cmd.PString (js ">")) true []
    (History.mk true (js "commands") (BCycle.make [[]])) None.

Definition main (cfg : settings) (ev : eval_t) : interp :=
  Interp (s_name cfg) ev (PGiven (Cmd.PString (js ">"))) None None.

Definition fresh (cfg : settings) (ev : eval_t) : state (S := store) :=
  State fresh_cl [] [] false (Stack.make (Some (main cfg ev))) HCommands (Some 40) ∅ 0 ∅.

Definition final {A} (o : outcome (S := store) A) (d : state (S := store)) : state (S := store) :=
  match o with Ret _ s _ | Throw _ s _ => s | Hang => d end.

(** Typing a line and pressing ENTER. *)
Definition type_line (line : jstring) : list event :=
  map (fun c => IPress false (Cmd.Event c c false false false)) line
  ++ [IDown false (Cmd.Event 13 13 false false false)].

(** The state of the terminal after its first login dialog appeared. *)
Definition asked : state (S := store) :=
  final (login cfg_login (fresh cfg_login (EvUser 1))) (fresh cfg_login (EvUser 1)).

Definition attempt (user passwd : jstring) (answer : option jstring) : list event :=
  type_line user ++ type_line passwd ++ [ILogin answer].

(** After one rejected attempt the history is recorded again although the login
    dialog goes on: the user name and the password of the next attempt are
    written, in clear, to the history in the storage; on the page the password
    is masked. *)
Theorem password_recorded_after_retry :
  (fun s' => (rls (js "commands") (Terminal.store s') ≫= Json.eval_strings,
              last (lines s'), token cfg_login s'))
    <$> run_events cfg_login 40 40 (fun _ => [])
          (attempt (js "bob") (js "oops") None
           ++ attempt (js "bob") (js "secret") (Some (js "tok"))) asked
  = Some (Some [[]; js "bob"; js "secret"],
          Some (LText (js "password: ******")), Some (Some (js "tok"))).
Proof. vm_compute. reflexivity. Qed.

(** ** Witnesses *)
Definition nested : list event :=
  [IPush (PFunction 2) (PushOpts (NStr (js "sub")) None PNone None None);
   IPush (PFunction 3) (PushOpts NUndef None PNone None None);
   IPop (Some (js "exit")); ILogout; IPop None].

Lemma main_interpreter_stays_witness :
  let s' := default asked (run_events cfg_login 40 40 (fun _ => []) nested
              (fresh cfg_login (EvUser 1))) in
  head (Stack.data (interpreters s')) = Some (main cfg_login (EvUser 1))
  /\ 1 <= Stack.size (interpreters s').
Proof.
  cbv zeta.
  apply (main_interpreter_stays cfg_login 40 40 (fun _ => []) (main cfg_login (EvUser 1)) nested
    (fresh cfg_login (EvUser 1))); [reflexivity | reflexivity | vm_compute; reflexivity].
Defined.

Lemma login_dialog_not_recorded_witness :
  exists s1 es, login cfg_login (fresh cfg_login (EvUser 1)) = Ret tt s1 es
  /\ forall s2, run_events cfg_login 40 40 (fun _ => [])
       [IPress false (Cmd.Event 98 98 false false false); IInsert (js "ob");
        IDown false (Cmd.Event 32 32 false false false); IDown false (Cmd.Event 13 13 false false false);
        IDown false (Cmd.Event 38 38 false false false); IPress false (Cmd.Event 100 100 true false false)]
       s1 = Some s2 ->
       History.data (Cmd.history (cl s2)) = [[]] /\ Terminal.store s2 = ∅.
Proof.
  destruct (login_dialog_not_recorded cfg_login 40 40 (fun _ => [])
    (fresh cfg_login (EvUser 1)) eq_refl) as (s1 & es & H1 & H2); [by eexists|].
  exists s1, es. split; [exact H1|]. intros s2 Hr.
  edestruct H2 as [Hd [n Hn]]; [|exact Hr|]; [by repeat constructor|].
  split; [exact Hd|]. etransitivity; [exact Hn|]. clear. induction n as [|n IH]; [reflexivity|].
  rewrite Nat.iter_succ, IH. vm_compute. reflexivity.
Defined.

(** With the option [history] off the command line records all the same, and the
    dialog does not switch its history off: the password is stored. *)
Theorem password_recorded_without_history :
  let cfg := Settings 0 (s_name cfg_login) (s_prompt cfg_login) false true true true (s_login cfg_login)
               (token_methods cfg_login) (s_greetings cfg_login) None None in
  match login cfg (fresh cfg_login (EvUser 1)) with
  | Ret _ s1 _ =>
      match run_events cfg 40 40 (fun _ => []) (type_line (js "bob") ++ type_line (js "secret")) s1 with
      | Some s2 => History.data (Cmd.history (cl s2)) = [[]; js "bob"; js "secret"]
      | None => False
      end
  | _ => False
  end.
Proof. vm_compute. reflexivity. Qed.

Lemma password_echoed_as_stars_witness :
  exists s1 es, on_command cfg_login (fun _ => []) (js "bob") asked = Ret tt s1 es
  /\ exists s2 es2, on_command cfg_login (fun _ => []) (js "pw1") (set_cl (cl s1) s1) = Ret tt s2 es2
    /\ lines s2 = lines s1 ++ [LText (js "password: ***")].
Proof.
  destruct (password_echoed_as_stars cfg_login (fun _ => []) asked None (js "bob") (js "pw1")
    (js "login:")) as (s1 & es & H1 & H2);
    [reflexivity | reflexivity | reflexivity | vm_compute; reflexivity | reflexivity | discriminate
    | by apply (bool_decide_unpack _) |].
  exists s1, es. split; [exact H1|].
  destruct (H2 (cl s1) eq_refl eq_refl) as (s2 & es2 & H3 & H4 & _).
  exists s2, es2. split; [exact H3 | exact H4].
Defined.

Lemma rpc_without_login_throws_witness :
  rpc_eval cfg_rpc (fun _ => []) (Some (js "/rpc")) 0 (js "status")
    (fresh cfg_rpc (EvRpc (Some (js "/rpc")) 0))
  = Throw (TError [] (js "terminal.token is not a function"))
      (fresh cfg_rpc (EvRpc (Some (js "/rpc")) 0)) [].
Proof.
  apply (rpc_without_login_throws cfg_rpc (fun _ => []) ANull);
    [reflexivity | discriminate | reflexivity | reflexivity | discriminate | vm_compute; discriminate].
Defined.

Lemma rpc_sends_token_witness :
  exists s' es, rpc_eval cfg_login (fun _ => []) (Some (js "/rpc")) 0 (js "status")
    (set_store (<[js "token_t" := js "tk"]> ∅) (fresh cfg_login (EvRpc (Some (js "/rpc")) 0)))
    = Ret tt s' es
  /\ last es = Some (XAjax (Some (js "/rpc")) (Json.json_stringify
       (Json.VObj [(js "jsonrpc", Json.VStr (js "2.0")); (js "method", Json.VStr (js "status"));
                   (js "params", Json.VArr [Json.VStr (js "tk")]); (js "id", Json.VNum 1)]) 1)).
Proof.
  destruct (rpc_sends_token cfg_login (fun _ => []) (Some (js "/rpc")) 0 (js "status")
    (set_store (<[js "token_t" := js "tk"]> ∅) (fresh cfg_login (EvRpc (Some (js "/rpc")) 0)))
    (js "tk")) as (s' & es & H1 & H2 & _);
    [reflexivity | vm_compute; reflexivity | discriminate | discriminate | vm_compute; discriminate |].
  exists s', es. split; [exact H1 | exact H2].
Defined.

Lemma push_string_ignored_witness :
  exists s' es, push cfg_login (fun _ => []) (PString (js "/service"))
      (PushOpts (NStr (js "sub")) None PNone None None) (fresh cfg_login (EvUser 1)) = Ret tt s' es
  /\ Stack.top (interpreters s')
     = Some (Interp (NStr (js "sub")) (EvRpc None 0) PNone None None).
Proof.
  eexists _, _. split; [vm_compute; reflexivity|].
  refine (push_string_ignored cfg_login (fun _ => []) (js "/service")
    (PushOpts (NStr (js "sub")) None PNone None None) (fresh cfg_login (EvUser 1)) _ _ _ eq_refl).
  vm_compute. reflexivity.
Defined.

Definition granted : state (S := store) :=
  final (login_callback cfg_login 40 40 (fun _ => []) (Some (js "tk"))
     (set_handler (HLogin (Some (js "bob"))) asked)) asked.

Lemma token_lifecycle_witness :
  token cfg_login granted = Some (Some (js "tk")) /\ login_name cfg_login granted = Some None.
Proof.
  assert (exists es, login_callback cfg_login 40 40 (fun _ => []) (Some (js "tk"))
     (set_handler (HLogin (Some (js "bob"))) asked) = Ret tt granted es) as [es Hr]
    by (eexists; vm_compute; reflexivity).
  destruct (@token_lifecycle store local_kv cfg_login 40 40 (fun _ => []) local_laws
    (set_handler (HLogin (Some (js "bob"))) asked) granted es (js "bob") (js "tk")
    I (fun _ => I) I I eq_refl eq_refl ltac:(discriminate) Hr) as (H1 & H2 & _).
  split; [exact H1 | rewrite H2; reflexivity].
Defined.
End Terminal.
