(* ===== verification/Focus.v ===== *)
(** * The ring of terminals: which one has the keyboard

    Every terminal of the page listens to the document's key events; the ring
    [terminals] decides which one is awake (not paused).  [focus] acts one
    millisecond later, from a timer, so the pending timers are part of the
    state. *)
From S2P Require Import Prelude JsString TermStruct.

Module Focus.

(** The ring of terminal numbers, for each terminal whether it is awake
    ([!pause]), and the calls of [focus] whose timer has not fired: the terminal
    and whether [toggle] is [false]. *)
Record page := Page { ring : Cycle.t Z; awake : gmap Z bool; pending : list (Z * bool) }.

Definition awake_in (p : page) (i : Z) : bool := default false (awake p !! i).

(** [enable] and [disable] of terminal [i], on the flag that makes its command
    line take keys. *)
Definition enable (i : Z) (p : page) : page := Page (ring p) (<[i := true]> (awake p)) (pending p).
Definition disable (i : Z) (p : page) : page := Page (ring p) (<[i := false]> (awake p)) (pending p).

Definition disable_front (p : page) : page :=
  match Cycle.front (ring p) with Some f => disable f p | None => p end.

Definition with_ring (r : Cycle.t Z) (p : page) : page := Page r (awake p) (pending p).

(** src/experiments/repl/src/main/webapp/terminal/jquery.terminal-0.3.3.js:1578-1588
    [next] *)
Definition next (p : page) : page :=
  if Cycle.len (ring p) =? 1 then p
  else
    let p := disable_front p in
    let '(r, n) := Cycle.rotate (ring p) in
    let p := with_ring r p in
    match n with Some n => enable n p | None => p end.

(** src/experiments/repl/src/main/webapp/terminal/jquery.terminal-0.3.3.js:1592-1609
    the timer of [focus(toggle)]. *)
Definition focus_timer (self : Z) (toggle_false : bool) (p : page) : page :=
  if Cycle.len (ring p) =? 1 then
    if toggle_false then disable self p else enable self p
  else if toggle_false then next p
  else
    let p := disable_front p in
    let p := with_ring (Cycle.set (ring p) self) p in
    enable self p.

(** src/experiments/repl/src/main/webapp/terminal/jquery.terminal-0.3.3.js:1589-1611
    [focus(toggle)] *)
Definition focus (self : Z) (toggle_false : bool) (p : page) : page :=
  Page (ring p) (awake p) (pending p ++ [(self, toggle_false)]).

(** src/experiments/repl/src/main/webapp/terminal/jquery.terminal-0.3.3.js:2094-2101
    a new terminal: it is awake when created, joins the ring, and takes the
    focus or is switched off. *)
Definition create (enabled : bool) (p : page) : page :=
  let id := Cycle.len (ring p) in
  let p := enable id (with_ring (Cycle.append (ring p) id) p) in
  if enabled then focus id false p else disable id p.

Definition empty : page := Page (Cycle.make None) ∅ [].

(** What happens on the page: a terminal is created, is clicked (or [focus()] is
    called), CTRL+TAB is pressed in it, the [k]-th pending timer fires, it is
    paused (a request starts), resumed (the answer comes). *)
Inductive event :=
| ECreate (enabled : bool) | EClick (i : Z) | ECtrlTab (i : Z) | ETimer (k : nat)
| EPause (i : Z) | EResume (i : Z).

Definition exists_in (p : page) (i : Z) : Prop := 0 <= i < Cycle.len (ring p).
#[export] Instance exists_in_dec p i : Decision (exists_in p i).
Proof. unfold exists_in. apply _. Defined.

Definition step (p : page) (e : event) : page :=
  match e with
  | ECreate en => create en p
  | EClick i => focus i false p
  | ECtrlTab i => focus i true p
  | ETimer k =>
      match pending p !! k with
      | Some (i, t) => focus_timer i t (Page (ring p) (awake p) (delete k (pending p)))
      | None => p
      end
  | EPause i => disable i p
  | EResume i => enable i p
  end.

(** An event that the page can produce in [p]; a terminal is resumed only while
    it is the front one. *)
Definition orderly (p : page) (e : event) : Prop :=
  match e with
  | EClick i | ECtrlTab i | EPause i => exists_in p i
  | EResume i => Cycle.front (ring p) = Some i
  | _ => True
  end.
#[export] Instance orderly_dec p e : Decision (orderly p e).
Proof. destruct e; simpl; apply _. Defined.

Fixpoint orderly_run (p : page) (es : list event) : Prop :=
  match es with
  | [] => True
  | e :: es => orderly p e /\ orderly_run (step p e) es
  end.

(** The ring holds the terminals in the order of their creation, pending timers
    are for existing terminals, and an awake terminal is the front one unless
    the timer that will give it the front is still pending. *)
Record wf (p : page) : Prop := Wf {
  wf_ring : Cycle.data (ring p) = seqZ 0 (Cycle.len (ring p));
  wf_pos : Cycle.data (ring p) = [] /\ Cycle.pos (ring p) = 0 \/ Cycle.wf (ring p);
  wf_pending : Forall (fun t => exists_in p t.1) (pending p);
  wf_awake i : awake_in p i = true ->
    Cycle.front (ring p) = Some i \/ (i, false) ∈ pending p }.

Lemma awake_enable i j p : awake_in (enable i p) j = if decide (i = j) then true else awake_in p j.
Proof.
  unfold awake_in, enable. simpl. case_decide; subst; [by rewrite lookup_insert_eq | by rewrite lookup_insert_ne].
Qed.

Lemma awake_disable i j p :
  awake_in (disable i p) j = if decide (i = j) then false else awake_in p j.
Proof.
  unfold awake_in, disable. simpl. case_decide; subst; [by rewrite lookup_insert_eq | by rewrite lookup_insert_ne].
Qed.

Lemma awake_disable_front j p :
  awake_in (disable_front p) j = true -> awake_in p j = true /\ Cycle.front (ring p) <> Some j.
Proof.
  unfold disable_front. destruct (Cycle.front (ring p)) as [f|] eqn:E; [|done].
  rewrite awake_disable. case_decide; [done|]. intros. split; [done | congruence].
Qed.

Lemma ring_disable_front p : ring (disable_front p) = ring p.
Proof. unfold disable_front. by case_match. Qed.
Lemma pending_disable_front p : pending (disable_front p) = pending p.
Proof. unfold disable_front. by case_match. Qed.

Lemma exists_elem p i : wf p -> exists_in p i -> i ∈ Cycle.data (ring p).
Proof. intros Hw Hi. rewrite (wf_ring p Hw). apply elem_of_seqZ. unfold exists_in in Hi. lia. Qed.

Lemma exists_wf_pos p i : wf p -> exists_in p i -> Cycle.wf (ring p).
Proof.
  intros Hw Hi. destruct (wf_pos p Hw) as [[He _]|?]; [|done].
  apply exists_elem in Hi; [|done]. rewrite He in Hi. by apply elem_of_nil in Hi.
Qed.

(** Moving pending timers around keeps what [wf] says of awake terminals. *)
Lemma wf_disable i p : wf p -> wf (disable i p).
Proof.
  intros [H1 H2 H3 H4]. constructor; simpl; [done..|].
  intros j. rewrite awake_disable. case_decide; [done|]. apply H4.
Qed.

Lemma wf_enable_front i p : wf p -> Cycle.front (ring p) = Some i -> wf (enable i p).
Proof.
  intros [H1 H2 H3 H4] Hi. constructor; simpl; [done..|].
  intros j. rewrite awake_enable. case_decide; subst; [by left | apply H4].
Qed.

Lemma wf_focus i t p : wf p -> exists_in p i -> wf (focus i t p).
Proof.
  intros [H1 H2 H3 H4] Hi. constructor; simpl; [done | done | |].
  - apply Forall_app. split; [done|]. by apply Forall_singleton.
  - intros j Hj. destruct (H4 j Hj); [by left | right]. apply elem_of_app. by left.
Qed.

(** Taking a timer off the list, and giving its terminal the front or putting it
    to sleep. *)
Lemma pending_delete p k i t j :
  pending p !! k = Some (i, t) -> (j, false) ∈ pending p ->
  (j = i /\ t = false) \/ (j, false) ∈ delete k (pending p).
Proof.
  intros Hk Hj. apply list_elem_of_lookup in Hj as [k' Hk'].
  destruct (decide (k' = k)) as [->|Hne]; [left; by simplify_eq|]. right.
  apply list_elem_of_lookup. destruct (decide (k' < k)%nat).
  - exists k'. by rewrite list_lookup_delete_lt.
  - exists (k' - 1)%nat. rewrite list_lookup_delete_ge by lia. by replace (S (k' - 1)) with k' by lia.
Qed.

Lemma rotate_result (r : Cycle.t Z) :
  Cycle.wf r -> Cycle.data (Cycle.rotate r).1 = Cycle.data r
  /\ Cycle.wf (Cycle.rotate r).1 /\ (Cycle.rotate r).2 = Cycle.front (Cycle.rotate r).1.
Proof.
  intros Hw. destruct (Cycle.rotate_pos r Hw) as [_ Hd]. split_and!; [done | by apply Cycle.wf_rotate |].
  unfold Cycle.rotate, Cycle.front, Cycle.wf in *. destruct (Z.eqb_spec (zlen (Cycle.data r)) 1); simpl; [|done].
  f_equal. lia.
Qed.

Lemma ring_single (r : Cycle.t Z) i :
  Cycle.data r = seqZ 0 (Cycle.len r) -> Cycle.wf r -> Cycle.len r = 1 -> 0 <= i < Cycle.len r ->
  Cycle.front r = Some i.
Proof.
  unfold Cycle.front, Cycle.wf, Cycle.len. intros Hr Hp H1 Hi. rewrite H1 in Hr, Hp, Hi.
  rewrite Hr. replace (Cycle.pos r) with 0 by lia. change (znth (seqZ 0 1) 0) with (Some 0).
  f_equal. lia.
Qed.

(** A ring of one: its only terminal is the front. *)
Lemma front_single p i : wf p -> exists_in p i -> Cycle.len (ring p) = 1 -> Cycle.front (ring p) = Some i.
Proof.
  intros Hw Hi H1. pose proof (exists_wf_pos p i Hw Hi) as Hp. pose proof (wf_ring p Hw) as Hr.
  by apply ring_single.
Qed.

(** The state in which the timer of terminal [i] runs. *)
Record firing (p : page) (i : Z) (t : bool) : Prop := Firing {
  f_ring : Cycle.data (ring p) = seqZ 0 (Cycle.len (ring p));
  f_pos : Cycle.wf (ring p);
  f_pending : Forall (fun t => exists_in p t.1) (pending p);
  f_exists : exists_in p i;
  f_awake j : awake_in p j = true ->
    Cycle.front (ring p) = Some j \/ (j, false) ∈ pending p \/ (j = i /\ t = false) }.

Lemma firing_wf p i t : firing p i t -> t = true \/ awake_in p i = false \/ Cycle.front (ring p) = Some i -> wf p.
Proof.
  intros [H1 H2 H3 H4 H5] Hc. constructor; [done | by right | done|].
  intros j Hj. destruct (H5 j Hj) as [?|[?|[-> ->]]]; [by left | by right |].
  left. destruct Hc as [?|[?|?]]; [done | congruence | done].
Qed.

Lemma wf_next p : Cycle.wf (ring p) -> wf p -> wf (next p).
Proof.
  intros Hp Hw. unfold next. destruct (Z.eqb_spec (Cycle.len (ring p)) 1) as [|Hne]; [done|].
  rewrite ring_disable_front. destruct (rotate_result _ Hp) as (Hd & Hwr & Hf).
  destruct (Cycle.rotate (ring p)) as [r n]. simpl in *.
  assert (wf (with_ring r (disable_front p))) as Hw'.
  { destruct Hw as [H1 H2 H3 H4]. constructor; simpl; [| by right | |].
    - unfold Cycle.len in *. rewrite Hd. exact H1.
    - rewrite pending_disable_front. eapply Forall_impl; [exact H3|].
      intros x. unfold exists_in, Cycle.len. simpl. by rewrite Hd.
    - intros j Hj. change (awake_in (disable_front p) j = true) in Hj.
      apply awake_disable_front in Hj as [Hj Hn]. rewrite pending_disable_front.
      right. destruct (H4 j Hj) as [H5|H5]; [by destruct Hn | exact H5]. }
  destruct n as [n|]; [|done]. apply wf_enable_front; [done | by rewrite Hf].
Qed.

Lemma wf_focus_timer p i t : firing p i t -> (t = true -> wf p) -> wf (focus_timer i t p).
Proof.
  intros Hf Ht. unfold focus_timer. destruct (Z.eqb_spec (Cycle.len (ring p)) 1) as [H1|Hne].
  - assert (wf p) as Hw.
    { eapply firing_wf; [done|]. right; right. destruct Hf as [R P Q E _].
      by apply ring_single. }
    destruct t; [by apply wf_disable|]. apply wf_enable_front; [done|].
    apply front_single; [done | apply Hf | done].
  - destruct t; [apply wf_next; [apply Hf | by apply Ht]|].
    destruct Hf as [R P Q E A]. rewrite ring_disable_front.
    assert (i ∈ Cycle.data (ring p)) as Hi.
    { rewrite R. apply elem_of_seqZ. unfold exists_in in E. lia. }
    destruct (Cycle.set_front _ _ Hi) as [Hfr Hd].
    constructor; simpl.
    + unfold Cycle.len in *. rewrite Hd. exact R.
    + right. by apply Cycle.wf_set.
    + rewrite pending_disable_front. eapply Forall_impl; [exact Q|].
      intros x. unfold exists_in, Cycle.len. simpl. by rewrite Hd.
    + intros j. rewrite awake_enable. case_decide as Hij; [subst; by left|].
      intros Hj. change (awake_in (disable_front p) j = true) in Hj.
      apply awake_disable_front in Hj as [Hj Hn]. rewrite pending_disable_front.
      right. destruct (A j Hj) as [?|[?|[-> _]]]; done.
Qed.

Lemma wf_create en p : wf p -> wf (create en p).
Proof.
  intros Hw. unfold create. set (id := Cycle.len (ring p)).
  destruct Hw as [R P Q A]. unfold Cycle.len in *.
  assert (zlen (Cycle.data (Cycle.append (ring p) id)) = id + 1) as Hl.
  { simpl. rewrite zlen_app. unfold id. done. }
  assert (Cycle.data (Cycle.append (ring p) id) = seqZ 0 (id + 1)) as Hr.
  { simpl. rewrite R at 1. fold id. rewrite seqZ_app by (pose proof (zlen_nonneg (Cycle.data (ring p))); lia).
    f_equal. }
  assert (Cycle.wf (Cycle.append (ring p) id)) as Hp.
  { unfold Cycle.wf. rewrite Hl. simpl. destruct P as [[P1 P2]|P]; [|unfold Cycle.wf in P; lia].
    pose proof (zlen_nonneg (Cycle.data (ring p))). lia. }
  assert (forall j, Cycle.front (ring p) = Some j -> Cycle.front (Cycle.append (ring p) id) = Some j) as Hfr.
  { intros j. unfold Cycle.front, znth. simpl. case_decide; [done|]. intros Hj.
    by apply lookup_app_l_Some. }
  assert (Forall (fun t => 0 <= t.1 < id + 1) (pending p)) as HQ.
  { eapply Forall_impl; [exact Q|]. intros x. unfold exists_in, Cycle.len. fold id. lia. }
  pose proof (zlen_nonneg (Cycle.data (ring p))) as Hnn.
  destruct en; (constructor;
    [unfold Cycle.len; cbn [focus enable disable with_ring ring]; by rewrite Hl | by right | |]);
    unfold exists_in, Cycle.len; cbn [focus enable disable with_ring ring pending];
    rewrite ?Hl.
  - apply Forall_app. split; [done|]. apply Forall_singleton. unfold id, Cycle.len. simpl. lia.
  - intros j Hj. change (awake_in (enable id p) j = true) in Hj. rewrite awake_enable in Hj.
    case_decide as Hij; [subst j; right; apply elem_of_app; right; by apply list_elem_of_singleton|].
    destruct (A j Hj); [left; by apply Hfr | right; apply elem_of_app; by left].
  - done.
  - intros j Hj. change (awake_in (disable id (enable id p)) j = true) in Hj.
    rewrite awake_disable, awake_enable in Hj. case_decide; [done|].
    destruct (A j Hj); [left; by apply Hfr | by right].
Qed.

Lemma wf_step p e : wf p -> orderly p e -> wf (step p e).
Proof.
  intros Hw Ho. destruct e as [en|i|i|k|i|i]; simpl in *.
  - by apply wf_create.
  - by apply wf_focus.
  - by apply wf_focus.
  - destruct (pending p !! k) as [[i t]|] eqn:Ek; [|done].
    assert (exists_in p i) as Hi.
    { pose proof (wf_pending p Hw) as HF. rewrite Forall_lookup in HF. apply (HF k _ Ek). }
    assert (Forall (fun t => exists_in p t.1) (delete k (pending p))) as HQ.
    { apply Forall_delete, Hw. }
    apply wf_focus_timer.
    + constructor; simpl; [apply Hw | by eapply exists_wf_pos | done | done|].
      intros j Hj. destruct (wf_awake p Hw j Hj) as [?|Hp]; [by left|].
      destruct (pending_delete p k i t j Ek Hp); auto.
    + intros ->. constructor; simpl; [apply Hw | apply Hw | done|].
      intros j Hj. destruct (wf_awake p Hw j Hj) as [?|Hp]; [by left|].
      destruct (pending_delete p k i true j Ek Hp) as [[_ ?]|?]; [done | by right].
  - by apply wf_disable.
  - by apply wf_enable_front.
Qed.

Lemma wf_run es p : wf p -> orderly_run p es -> wf (fold_left step es p).
Proof.
  revert p; induction es as [|e es IH]; intros p Hw Ho; [done|].
  destruct Ho as [Ho Hr]. apply IH; [by apply wf_step | done].
Qed.

Lemma wf_empty : wf empty.
Proof.
  constructor; simpl; [done | by left | done|]. intros i. unfold awake_in. simpl. by rewrite lookup_empty.
Qed.

(** C10: Once the timers have fired, at most one terminal of the page takes the keys,
    and it is the front one, however terminals were created, clicked, switched
    and paused -- as long as only the front one is resumed. *)
Theorem one_terminal_awake es i :
  orderly_run empty es -> pending (fold_left step es empty) = [] ->
  awake_in (fold_left step es empty) i = true ->
  Cycle.front (ring (fold_left step es empty)) = Some i.
Proof.
  intros Ho Hp Hi. destruct (wf_awake _ (wf_run es empty wf_empty Ho) i Hi) as [?|He]; [done|].
  rewrite Hp in He. by apply elem_of_nil in He.
Qed.

(** A request of a terminal that lost the focus while waiting wakes it up when
    the answer comes: then two terminals take every key. *)
Theorem late_reply_wakes_second :
  let p := fold_left step [ECreate true; ETimer 0; ECreate true; ETimer 0; EClick 0; ETimer 0;
                           EPause 0; EClick 1; ETimer 0; EResume 0] empty in
  pending p = [] /\ Cycle.front (ring p) = Some 1
  /\ awake_in p 0 = true /\ awake_in p 1 = true.
Proof. vm_compute. by split_and!. Qed.

Lemma one_terminal_awake_witness :
  let es := [ECreate true; ECreate false; ECreate true; ETimer 0; ETimer 0; EClick 1; ETimer 0;
             EPause 1; EResume 1; ECtrlTab 1; ETimer 0] in
  Cycle.front (ring (fold_left step es empty)) = Some 2.
Proof.
  cbv zeta. apply one_terminal_awake; [|reflexivity | reflexivity].
  simpl. by split_and!.
Defined.
End Focus.
