(* ===== verification/Dom.v ===== *)
(** * The document tree of the slide show

    A node is named by its path from the document, innermost index first, so
    that the parent of [i :: p] is [p] and siblings differ in the head.  The
    traversals of slidy.js are functions on paths; [pre] lists a subtree in
    document order and is what they are compared with.  [Classes] has the class
    tests of the slide show. *)
From S2P Require Import Prelude JsString.

Module Dom.

(** What a node is: an element with its name, a text, or anything else (the
    document, a comment). *)
Inductive kind := KElem (nodeName : jstring) | KText (nodeValue : jstring) | KOther.
Inductive node := Node (k : kind) (kids : list node).
Definition kind_of (n : node) : kind := match n with Node k _ => k end.
Definition kids (n : node) : list node := match n with Node _ ks => ks end.

Abbreviation ref := (list nat).

(** Induction over a node and all its children. *)
Section node_induction.
Variable P : node -> Prop.
Hypothesis P_node : forall k ks, Forall P ks -> P (Node k ks).

Fixpoint node_nested_ind (n : node) : P n :=
  match n with
  | Node k ks =>
      P_node k ks ((fix go (ks : list node) : Forall P ks :=
        match ks with
        | [] => Forall_nil_2 P
        | n :: ks => Forall_cons_2 P n ks (node_nested_ind n) (go ks)
        end) ks)
  end.
End node_induction.

Section dom.
Variable doc : node.

(** The node that a path names. *)
Fixpoint at_ (p : ref) : option node :=
  match p with
  | [] => Some doc
  | i :: p => n ← at_ p; kids n !! i
  end.

Definition is_node (p : ref) : bool := is_some (at_ p).

(** *** The properties of a DOM node that the program reads *)
Definition parentNode (p : ref) : option ref := match p with [] => None | _ :: p => Some p end.
Definition firstChild (p : ref) : option ref :=
  if is_node (0%nat :: p) then Some (0%nat :: p) else None.
Definition lastChild (p : ref) : option ref :=
  n ← at_ p; match length (kids n) with O => None | S m => Some (m :: p) end.
Definition nextSibling (p : ref) : option ref :=
  match p with
  | [] => None
  | i :: p => if is_node (S i :: p) then Some (S i :: p) else None
  end.
Definition previousSibling (p : ref) : option ref :=
  match p with
  | S i :: p => Some (i :: p)
  | _ => None
  end.

(** The loop of [nextNode]: up to the root, to the first ancestor with a next
    sibling. *)
Fixpoint climb (root p : ref) : option ref :=
  match p with
  | [] => None
  | _ :: p =>
      if decide (p = root) then None
      else match nextSibling p with
           | Some q => Some q
           | None => climb root p
           end
  end.

(** src/experiments/repl/src/main/webapp/slidy/slidy.js:1635-1658
    [nextNode(root, node)] *)
Definition nextNode (root : ref) (node : option ref) : option ref :=
  match node with
  | None => firstChild root
  | Some p =>
      match firstChild p with
      | Some q => Some q
      | None =>
          match nextSibling p with
          | Some q => Some q
          | None => climb root p
          end
      end
  end.

(** The loop [while (node.lastChild) node = node.lastChild] on the subtree [n]
    at [p]. *)
Fixpoint deepest (n : node) (p : ref) : ref :=
  match n with
  | Node _ ks =>
      (fix go (ks : list node) (i : nat) : ref :=
         match ks with
         | [] => p
         | [k] => deepest k (i :: p)
         | _ :: ks => go ks (S i)
         end) ks O
  end.

Definition deepest_at (p : ref) : ref := match at_ p with Some n => deepest n p | None => p end.

(** src/experiments/repl/src/main/webapp/slidy/slidy.js:1661-1690
    [previousNode(root, node)] *)
Definition previousNode (root : ref) (node : option ref) : option ref :=
  match node with
  | None => deepest_at <$> lastChild root
  | Some p =>
      match previousSibling p with
      | Some q => Some (deepest_at q)
      | None =>
          match parentNode p with
          | Some q => if decide (q = root) then None else Some q
          | None => None
          end
      end
  end.

(** ** Document order *)
Fixpoint pre (n : node) (p : ref) : list ref :=
  match n with
  | Node _ ks =>
      p :: (fix go (ks : list node) (i : nat) : list ref :=
              match ks with [] => [] | k :: ks => pre k (i :: p) ++ go ks (S i) end) ks O
  end.

Fixpoint pre_kids (ks : list node) (i : nat) (p : ref) : list ref :=
  match ks with [] => [] | k :: ks => pre k (i :: p) ++ pre_kids ks (S i) p end.

Lemma pre_eq k ks p : pre (Node k ks) p = p :: pre_kids ks 0 p.
Proof.
  simpl. f_equal. generalize 0%nat. induction ks as [|n ks IH]; intros i; simpl; [done|].
  by rewrite IH.
Qed.

(** The nodes below [root], in document order. *)
Definition order (root : ref) : list ref :=
  match at_ root with Some n => pre_kids (kids n) 0 root | None => [] end.

Lemma at_kid p k ks i n : at_ p = Some (Node k ks) -> ks !! i = Some n -> at_ (i :: p) = Some n.
Proof. intros Hp Hi. simpl. by rewrite Hp. Qed.

(** [l] is linked by [f] and continues with [last]. *)
Fixpoint linked (f : ref -> option ref) (l : list ref) (last : option ref) : Prop :=
  match l with
  | [] => True
  | [x] => f x = last
  | x :: ((y :: _) as l) => f x = Some y /\ linked f l last
  end.

Lemma linked_app f l y l' last :
  linked f l (Some y) -> linked f (y :: l') last -> linked f (l ++ y :: l') last.
Proof.
  induction l as [|x l IH]; [done|]. intros Hl Hl'.
  destruct l as [|z l]; [by simpl in *|]. destruct Hl. split; [done | by apply IH].
Qed.

Lemma pre_nonempty n p : exists l, pre n p = p :: l.
Proof. destruct n as [k ks]. rewrite pre_eq. by eexists. Qed.

(** What follows a subtree at [p]. *)
Definition following (root p : ref) : option ref :=
  match nextSibling p with Some q => Some q | None => climb root p end.

(** The paths of a subtree at [p] end in [p], and are all different. *)
Lemma elem_of_pre n : forall p q, q ∈ pre n p -> exists l, q = l ++ p.
Proof.
  induction n as [k ks IH] using node_nested_ind. intros p q. rewrite pre_eq.
  intros [->|Hq]%elem_of_cons; [by exists []|]. revert Hq. generalize 0%nat.
  induction IH as [|m ks Hm _ IHk]; intros i Hq; [by apply elem_of_nil in Hq|].
  simpl in Hq. apply elem_of_app in Hq as [Hq|Hq]; [|by eapply IHk].
  destruct (Hm _ _ Hq) as [l ->]. exists (l ++ [i]). by rewrite <- app_assoc.
Qed.

Lemma elem_of_pre_kids ks i p q :
  q ∈ pre_kids ks i p -> exists l j, (i <= j)%nat /\ q = l ++ j :: p.
Proof.
  revert i. induction ks as [|n ks IH]; intros i Hq; [by apply elem_of_nil in Hq|].
  simpl in Hq. apply elem_of_app in Hq as [Hq|Hq].
  - destruct (elem_of_pre _ _ _ Hq) as [l ->]. by exists l, i.
  - destruct (IH (S i) Hq) as (l & j & ? & ->). exists l, j. split; [lia | done].
Qed.

Lemma NoDup_pre_kids ks :
  Forall (fun n => forall q, NoDup (pre n q)) ks -> forall i p, NoDup (pre_kids ks i p).
Proof.
  induction 1 as [|m ks Hm _ IH]; intros i p; simpl; [constructor|].
  apply NoDup_app. split_and!; [apply Hm | | apply IH].
  intros q Hq Hq'. destruct (elem_of_pre _ _ _ Hq) as [l ->].
  destruct (elem_of_pre_kids _ _ _ _ Hq') as (l' & j & Hj & He).
  assert (l = l' /\ i :: p = j :: p) as [_ ?]; [|simplify_eq; lia].
  apply app_inj_2; [|done]. done.
Qed.

Lemma NoDup_pre n : forall p, NoDup (pre n p).
Proof.
  induction n as [k ks IH] using node_nested_ind. intros p. rewrite pre_eq. constructor.
  - intros Hp. destruct (elem_of_pre_kids _ _ _ _ Hp) as (l & j & _ & He).
    apply (f_equal length) in He. rewrite length_app in He. simpl in He. lia.
  - by apply NoDup_pre_kids.
Qed.

Lemma NoDup_order root : NoDup (order root).
Proof.
  unfold order. destruct (at_ root); [|constructor]. apply NoDup_pre_kids.
  apply Forall_forall. intros m _. apply NoDup_pre.
Qed.

(** A node below [root] is not [root]. *)
Lemma order_below root q : q ∈ order root -> exists l, l <> [] /\ q = l ++ root.
Proof.
  unfold order. destruct (at_ root); [|by intros ?%elem_of_nil].
  intros (l & j & _ & ->)%elem_of_pre_kids. exists (l ++ [j]). split; [by destruct l|].
  by rewrite <- app_assoc.
Qed.

Section forward.
Variable root : ref.

Definition next (p : ref) : option ref := nextNode root (Some p).

(** Following [next] from the children of [p], from the [i]-th on. *)
Lemma linked_from k ks0 p : 
  at_ p = Some (Node k ks0) -> (length root <= length p)%nat ->
  forall ks i, ks0 = take i ks0 ++ ks -> (i <= length ks0)%nat ->
  Forall (fun n => forall q, at_ q = Some n -> (length root < length q)%nat ->
            linked next (pre n q) (following root q)) ks ->
  linked next (pre_kids ks i p) (if decide (p = root) then None else following root p).
Proof.
  intros Hp Hr ks. induction ks as [|n ks IH]; intros i Hks Hi HF; [done|].
  inversion HF as [|? ? Hn HF']; subst.
  assert (Hlen : length (take i ks0) = i) by (rewrite length_take; lia).
  assert (Hni : ks0 !! i = Some n).
  { rewrite Hks, lookup_app_r by lia. by rewrite Hlen, Nat.sub_diag. }
  assert (Hat : at_ (i :: p) = Some n) by (by eapply at_kid).
  specialize (Hn (i :: p) Hat ltac:(simpl; lia)).
  destruct ks as [|m ks].
  - assert (following root (i :: p) = if decide (p = root) then None else following root p) as <-.
    { unfold following at 1. cbn [nextSibling climb].
      assert (is_node (S i :: p) = false) as ->.
      { unfold is_node. cbn [at_]. rewrite Hp. cbn. rewrite Hks, lookup_app_r by lia.
        rewrite Hlen. by replace (S i - i)%nat with 1%nat by lia. }
      case_decide; [done|]. unfold following. by destruct (nextSibling p). }
    simpl. by rewrite app_nil_r.
  - assert (Hm : ks0 !! S i = Some m).
    { rewrite Hks, lookup_app_r by lia. rewrite Hlen. by replace (S i - i)%nat with 1%nat by lia. }
    assert (following root (i :: p) = Some (S i :: p)) as Hfol.
    { unfold following. cbn [nextSibling]. unfold is_node. by rewrite (at_kid p k ks0 (S i) m). }
    rewrite Hfol in Hn.
    assert (Hks' : ks0 = take (S i) ks0 ++ m :: ks).
    { rewrite (take_S_r _ _ _ Hni), <- app_assoc. exact Hks. }
    assert (S i <= length ks0)%nat as Hi' by (apply lookup_lt_Some in Hm; lia).
    specialize (IH (S i) Hks' Hi' HF').
    change (pre_kids (n :: m :: ks) i p) with (pre n (i :: p) ++ pre_kids (m :: ks) (S i) p).
    destruct (pre_nonempty m (S i :: p)) as [l Hl].
    change (pre_kids (m :: ks) (S i) p) with (pre m (S i :: p) ++ pre_kids ks (S (S i)) p) in *.
    rewrite Hl in *. cbn [app] in *. by apply linked_app.
Qed.

Lemma linked_pre n :
  forall p, at_ p = Some n -> (length root < length p)%nat ->
  linked next (pre n p) (following root p).
Proof.
  induction n as [k ks IH] using node_nested_ind. intros p Hp Hr. rewrite pre_eq.
  assert (Hf : firstChild p = match ks with [] => None | _ => Some (0%nat :: p) end).
  { unfold firstChild, is_node. simpl. rewrite Hp. by destruct ks. }
  destruct ks as [|m ks].
  - cbn [linked pre_kids]. unfold next, nextNode. by rewrite Hf.
  - pose proof (linked_from k (m :: ks) p Hp ltac:(lia) (m :: ks) 0 eq_refl ltac:(simpl; lia) IH) as Hl.
    rewrite decide_False in Hl by (intros ->; lia).
    cbn [pre_kids] in *. destruct (pre_nonempty m (0%nat :: p)) as [l Hm].
    rewrite Hm in *. cbn [app linked] in *. split; [|exact Hl]. unfold next, nextNode. by rewrite Hf.
Qed.

(** [nextNode] visits the nodes below the root in document order and stops after
    the last one. *)
Lemma nextNode_linked n :
  at_ root = Some n ->
  nextNode root None = head (order root) /\ linked next (order root) None.
Proof.
  intros Hn. destruct n as [k ks]. unfold order. rewrite Hn. cbn [kids]. split.
  - unfold nextNode, firstChild, is_node. simpl. rewrite Hn. destruct ks as [|m ks]; [done|].
    simpl. destruct (pre_nonempty m (0%nat :: root)) as [l ->]. done.
  - pose proof (linked_from k ks root Hn ltac:(lia) ks 0 eq_refl ltac:(simpl; lia)) as Hl.
    rewrite decide_True in Hl by done. apply Hl. apply Forall_forall. intros m _. apply linked_pre.
Qed.
End forward.

Lemma linked_lookup f l last i x :
  linked f l last -> l !! i = Some x ->
  f x = match l !! S i with Some y => Some y | None => last end.
Proof.
  revert i. induction l as [|z l IH]; intros i Hl Hx; [done|]. destruct l as [|w l].
  - destruct i as [|i]; [|done]. simpl in *. by simplify_eq.
  - destruct Hl as [Hz Hl]. destruct i as [|i]; [simpl in *; by simplify_eq | by apply IH].
Qed.

(** ** Backwards *)
Lemma deepest_last n p : last (pre n p) = Some (deepest n p).
Proof.
  revert p. induction n as [k ks IH] using node_nested_ind. intros p. rewrite pre_eq. cbn [deepest].
  destruct ks as [|m ks]; [done|]. rewrite last_cons.
  assert (forall i, last (pre_kids (m :: ks) i p) = Some ((fix go (ks : list node) (i : nat) : ref :=
     match ks with [] => p | [k] => deepest k (i :: p) | _ :: ks => go ks (S i) end) (m :: ks) i)) as ->;
    [|done].
  revert m IH. induction ks as [|m' ks IHk]; intros m IH i.
  - cbn [pre_kids]. rewrite app_nil_r. inversion IH; subst. done.
  - inversion IH as [|? ? _ IH']; subst. cbn [pre_kids]. rewrite last_app.
    specialize (IHk m' IH' (S i)). cbn [pre_kids] in IHk. by rewrite IHk.
Qed.

Section backward.
Variable root : ref.

Definition prev (p : ref) : option ref := previousNode root (Some p).

(** [l] read backwards is linked by [prev], and comes after [first]. *)
Fixpoint back (first : option ref) (l : list ref) : Prop :=
  match l with
  | [] => True
  | x :: l => prev x = first /\ back (Some x) l
  end.

Lemma back_app first l l' :
  back first (l ++ l') <-> back first l /\ back (from_option Some first (last l)) l'.
Proof.
  revert first. induction l as [|x l IH]; intros first; simpl; [tauto|].
  rewrite IH, last_cons. destruct (last l); simpl; tauto.
Qed.

Lemma back_kids k ks0 p :
  at_ p = Some (Node k ks0) -> (length root <= length p)%nat ->
  forall ks i, ks0 = take i ks0 ++ ks -> (i <= length ks0)%nat ->
  Forall (fun n => forall q first, at_ q = Some n -> (length root < length q)%nat ->
            prev q = first -> back first (pre n q)) ks ->
  forall first, prev (i :: p) = first -> back first (pre_kids ks i p).
Proof.
  intros Hp Hr ks. induction ks as [|n ks IH]; intros i Hks Hi HF first Hfirst; [done|].
  inversion HF as [|? ? Hn HF']; subst.
  assert (Hlen : length (take i ks0) = i) by (rewrite length_take; lia).
  assert (Hni : ks0 !! i = Some n).
  { rewrite Hks, lookup_app_r by lia. by rewrite Hlen, Nat.sub_diag. }
  assert (Hat : at_ (i :: p) = Some n) by (by eapply at_kid).
  cbn [pre_kids]. apply back_app. split; [apply Hn; [done | simpl; lia | done]|].
  assert (Hi' : (S i <= length ks0)%nat) by (apply lookup_lt_Some in Hni; lia).
  apply IH; [by rewrite (take_S_r _ _ _ Hni), <- app_assoc | done | done |].
  rewrite deepest_last. unfold prev, previousNode. cbn [previousSibling].
  unfold deepest_at. by rewrite Hat.
Qed.

Lemma back_pre n :
  forall q first, at_ q = Some n -> (length root < length q)%nat -> prev q = first ->
  back first (pre n q).
Proof.
  induction n as [k ks IH] using node_nested_ind. intros q first Hq Hr Hf.
  rewrite pre_eq. split; [done|].
  eapply (back_kids k ks q Hq ltac:(lia) ks 0); [done | lia | exact IH |].
  unfold prev, previousNode. cbn [previousSibling parentNode].
  rewrite decide_False by (intros ->; lia). done.
Qed.

(** [previousNode] visits the same nodes in the opposite order. *)
Lemma previousNode_back n :
  at_ root = Some n ->
  previousNode root None = last (order root) /\ back None (order root).
Proof.
  intros Hn. destruct n as [k ks]. unfold order. rewrite Hn. cbn [kids]. split.
  - unfold previousNode, lastChild. rewrite Hn. cbn [kids].
    destruct ks as [|m ks _] using rev_ind; [done|].
    assert (forall i p, last (pre_kids (ks ++ [m]) i p) = Some (deepest m ((i + length ks)%nat :: p))) as ->.
    { clear Hn. induction ks as [|m' ks IH]; intros i p; simpl.
      - rewrite app_nil_r, Nat.add_0_r. apply deepest_last.
      - rewrite last_app, IH. by replace (S i + length ks)%nat with (i + S (length ks))%nat by lia. }
    simpl. rewrite length_app, Nat.add_1_r. simpl. unfold deepest_at. simpl. rewrite Hn. simpl.
    by rewrite list_lookup_middle.
  - eapply (back_kids k ks root Hn ltac:(lia) ks 0); [done | simpl; lia | |].
    + apply Forall_forall. intros m _. apply back_pre.
    + unfold prev, previousNode. simpl. by rewrite decide_True.
Qed.

Lemma back_lookup first l i x y :
  back first l -> l !! i = Some x -> l !! S i = Some y -> prev y = Some x.
Proof.
  revert first i. induction l as [|z l IH]; intros first i Hb Hx Hy; [done|].
  destruct Hb as [Hz Hb]. destruct i as [|i].
  - simpl in *. simplify_eq. destruct l as [|w l]; [done|]. simpl in *. simplify_eq. by destruct Hb.
  - by apply (IH (Some z) i).
Qed.
End backward.

(** C12: Both traversals walk the list [order root], forwards and backwards: from
    [null] to its two ends, and from each node to the nodes next to it. *)
Theorem traversals_inverse root n :
  at_ root = Some n ->
  nextNode root None = head (order root) /\ previousNode root None = last (order root)
  /\ forall i x, order root !! i = Some x ->
       nextNode root (Some x) = order root !! S i
       /\ previousNode root (Some x) = match i with O => None | S j => order root !! j end.
Proof.
  intros Hn. destruct (nextNode_linked root n Hn) as [Hh Hl].
  destruct (previousNode_back root n Hn) as [Hla Hb]. split_and!; [done | done |].
  intros i x Hx. split.
  - change (next root x = order root !! S i). rewrite (linked_lookup _ _ _ _ _ Hl Hx).
    by destruct (order root !! S i).
  - change (prev root x = match i with O => None | S j => order root !! j end). destruct i as [|j].
    + destruct (order root) as [|y l]; [done|]. simpl in Hx. simplify_eq. by destruct Hb.
    + assert (is_Some (order root !! j)) as [z Hz].
      { apply lookup_lt_is_Some. apply lookup_lt_Some in Hx. lia. }
      rewrite Hz. by eapply back_lookup.
Qed.
End dom.

(** A document with two slides, for the witnesses. *)
Definition sample : node :=
  Node KOther [Node (KElem (js "HTML")) [Node (KElem (js "BODY")) [
    Node (KElem (js "DIV")) [Node (KElem (js "H1")) [Node (KText (js "Intro")) []];
                             Node (KElem (js "UL")) [Node (KElem (js "LI")) [];
                                                     Node (KElem (js "LI")) []]];
    Node (KElem (js "DIV")) [Node (KElem (js "P")) []]]]].

Lemma traversals_inverse_witness :
  nextNode sample [0; 0; 0]%nat (Some [0; 0; 0; 0; 0]%nat) = Some [1; 0; 0; 0]%nat
  /\ previousNode sample [0; 0; 0]%nat (Some [1; 0; 0; 0]%nat) = Some [0; 0; 0; 0; 0]%nat.
Proof.
  destruct (traversals_inverse sample [0; 0; 0]%nat _ eq_refl) as (_ & _ & H).
  split; [apply (H 1%nat); reflexivity | apply (H 2%nat); reflexivity].
Defined.
End Dom.

(** * Class names

    slidy.js keeps its markers in the [class] attribute and tests them with
    regular expressions.  In a string literal ["\W*"] is [W*]: the patterns
    match a class that merely starts with the name. *)

Module Classes.

(** [str.match(/\w+/g)]: the maximal runs of word characters. *)
Fixpoint words (cur : jstring) (s : jstring) : list jstring :=
  match s with
  | [] => match cur with [] => [] | _ => [cur] end
  | c :: s =>
      if is_word c then words (cur ++ [c]) s
      else match cur with [] => words [] s | _ => cur :: words [] s end
  end.

(** src/experiments/repl/src/main/webapp/slidy/slidy.js:1335-1355
    [hasToken(str, token)]; [None] is the exception where a string without a
    word has no match. *)
Definition hasToken (str token : jstring) : option bool :=
  match str with
  | [] => Some false
  | _ =>
      match words [] str with
      | [] => None
      | ws => Some (bool_decide (token ∈ ws))
      end
  end.

(** The first match of [(^| )nameW*] in [s]; [start] says that [s] is the whole
    string.  The result is the text before the match and the text after. *)
Fixpoint drop_W (s : jstring) : jstring :=
  match s with 87 :: s => drop_W s | _ => s end.
Fixpoint match_class (start : bool) (name s : jstring) : option (jstring * jstring) :=
  if start && prefixb name s then Some ([], drop_W (zdrop (zlen name) s))
  else
    match s with
    | [] => None
    | c :: r =>
        if (c =? c_space) && prefixb name r then Some ([], drop_W (zdrop (zlen name) r))
        else (fun p => (c :: p.1, p.2)) <$> match_class false name r
    end.

(** src/experiments/repl/src/main/webapp/slidy/slidy.js:1366-1375
    [hasClass(element, name)], on the element's class attribute. *)
Definition hasClass (cls name : jstring) : bool := is_some (match_class true name cls).

(** src/experiments/repl/src/main/webapp/slidy/slidy.js:1377-1403
    [removeClass(element, name)]: the new class attribute. *)
Definition removeClass (cls name : jstring) : jstring :=
  match match_class true name cls with
  | Some (a, b) => a ++ b
  | None => cls
  end.

(** src/experiments/repl/src/main/webapp/slidy/slidy.js:1405-1419
    [addClass(element, name)]: the new class attribute. *)
Definition addClass (cls name : jstring) : jstring :=
  if hasClass cls name then cls else cls ++ [c_space] ++ name.

(** src/experiments/repl/src/main/webapp/slidy/slidy.js:1613-1632
    [matchingBackground(slideClass, bgClass)]; [None] where a [match] finds
    nothing and its length is read. *)
Definition matchingBackground (slideClass bgClass : jstring) : option bool :=
  if bool_decide (bgClass = js "background") then Some true
  else
    match words [] slideClass with
    | [] => None
    | ws =>
        (fix any (ws : list jstring) : option bool :=
           match ws with
           | [] => Some false
           | w :: ws => b ← hasToken bgClass w; if (b : bool) then Some true else any ws
           end) ws
    end.

(** ** What the tests mean *)

(** [match_class] finds the name at the start or behind a space. *)
Lemma match_class_Some start name s a b :
  match_class start name s = Some (a, b) ->
  (start = true /\ a = [] /\ prefixb name s = true)
  \/ exists r, s = a ++ c_space :: r /\ prefixb name r = true.
Proof.
  revert start a b. induction s as [|c s IH]; intros start a b; simpl.
  - destruct (start && prefixb name []) eqn:E; [|done]. intros; simplify_eq.
    apply andb_true_iff in E as [-> ?]. by left.
  - destruct (start && prefixb name (c :: s)) eqn:E.
    { intros; simplify_eq. apply andb_true_iff in E as [-> ?]. by left. }
    destruct (Z.eqb_spec c c_space) as [->|Hc]; simpl.
    + destruct (prefixb name s) eqn:Ep.
      { intros; simplify_eq. right. by exists s. }
      destruct (match_class false name s) as [[a' b']|] eqn:Em; simpl; [|done].
      intros; simplify_eq. destruct (IH _ _ _ Em) as [[? _]|(r & -> & ?)]; [done|].
      right. by exists r.
    + destruct (match_class false name s) as [[a' b']|] eqn:Em; simpl; [|done].
      intros; simplify_eq. destruct (IH _ _ _ Em) as [[? _]|(r & -> & ?)]; [done|].
      right. by exists r.
Qed.

Lemma match_class_behind name a r start :
  prefixb name r = true -> is_some (match_class start name (a ++ c_space :: r)) = true.
Proof.
  intros Hp. revert start. induction a as [|c a IH]; intros start; simpl.
  - destruct (start && _); [done|]. by rewrite Hp.
  - destruct (start && _); [done|]. destruct (_ && _); [done|].
    specialize (IH false). by destruct (match_class false name (a ++ c_space :: r)).
Qed.

(** [hasClass] holds exactly when a class, at the start of the attribute or
    behind a space, starts with the name; what follows the name does not
    matter. *)
Theorem hasClass_prefix cls name :
  hasClass cls name = true
  <-> prefixb name cls = true \/ exists a r, cls = a ++ c_space :: r /\ prefixb name r = true.
Proof.
  unfold hasClass. split.
  - destruct (match_class true name cls) as [[a b]|] eqn:E; [|done]. intros _.
    destruct (match_class_Some _ _ _ _ _ E) as [(_ & _ & ?)|(r & ? & ?)]; [by left|].
    right. by exists a, r.
  - intros [Hp|(a & r & -> & Hp)]; [|by apply match_class_behind].
    destruct cls; cbn [match_class]; cbn [andb]; by rewrite Hp.
Qed.

Lemma prefixb_space name a r :
  c_space ∉ name -> prefixb name (a ++ c_space :: r) = prefixb name a.
Proof.
  revert a. induction name as [|x name IH]; intros a Hn; [by destruct a, r|].
  apply not_elem_of_cons in Hn as [Hx Hn]. destruct a as [|y a]; simpl.
  - by rewrite (proj2 (Z.eqb_neq x c_space)).
  - by rewrite IH.
Qed.

Lemma prefixb_self name : prefixb name name = true.
Proof. rewrite <- (app_nil_r name) at 2. apply prefixb_app. Qed.

Lemma prefixb_from_space name r : c_space ∉ name -> name <> [] -> prefixb name (c_space :: r) = false.
Proof.
  intros Hn Hne. destruct name as [|x name]; [done|]. apply not_elem_of_cons in Hn as [Hx _].
  simpl. by rewrite (proj2 (Z.eqb_neq x c_space)).
Qed.

(** A class that is not there is found where it was added. *)
Lemma match_class_added start name cls rest :
  c_space ∉ name -> name <> [] -> match_class start name cls = None ->
  match_class start name (cls ++ c_space :: name ++ rest) = Some (cls, drop_W rest).
Proof.
  intros Hn Hne. revert start. induction cls as [|c cls IH]; intros start Hm.
  - cbn [app match_class]. rewrite prefixb_from_space, andb_false_r, prefixb_app by done.
    cbn [andb Z.eqb Pos.eqb]. by rewrite zdrop_app_len.
  - cbn [match_class app] in *.
    change (c :: cls ++ c_space :: name ++ rest) with ((c :: cls) ++ c_space :: name ++ rest).
    rewrite !prefixb_space by done.
    destruct (start && prefixb name (c :: cls)); [done|].
    destruct ((c =? c_space) && prefixb name cls); [done|].
    rewrite IH; [done|]. by destruct (match_class false name cls).
Qed.

Lemma removeClass_added cls name :
  c_space ∉ name -> name <> [] -> hasClass cls name = false ->
  removeClass (addClass cls name) name = cls /\ hasClass (addClass cls name) name = true.
Proof.
  intros Hn Hne Hc. unfold addClass, removeClass. rewrite Hc. unfold hasClass in *. cbn [app].
  rewrite <- (app_nil_r name) at 2 4.
  rewrite match_class_added by (done || by destruct (match_class true name cls)).
  by rewrite app_nil_r.
Qed.

(** Removing a class that was just added gives the attribute back. *)
Theorem remove_added cls name :
  c_space ∉ name -> name <> [] -> hasClass cls name = false ->
  removeClass (addClass cls name) name = cls /\ hasClass (addClass cls name) name = true.
Proof. apply removeClass_added. Qed.

(** The classes of two attributes put together. *)
Lemma hasClass_app cls w name :
  c_space ∉ name -> name <> [] ->
  hasClass (cls ++ c_space :: w) name = hasClass cls name || hasClass w name.
Proof.
  intros Hn Hne. unfold hasClass. generalize true at 1 2 as start.
  induction cls as [|c cls IH]; intros start; cbn [app match_class].
  - rewrite prefixb_from_space, andb_false_r by done. cbn [Z.eqb Pos.eqb andb].
    replace (prefixb name []) with false by (by destruct name). rewrite andb_false_r. cbn [is_some orb].
    destruct w as [|x w]; cbn [match_class andb].
    + by replace (prefixb name []) with false by (by destruct name).
    + destruct (prefixb name (x :: w)); [done|]. by destruct (_ && prefixb name w); destruct (match_class false name w).
  - change (c :: cls ++ c_space :: w) with ((c :: cls) ++ c_space :: w). rewrite !prefixb_space by done.
    destruct (start && _); [done|]. destruct (_ && _); [done|]. specialize (IH false).
    by destruct (match_class false name (cls ++ _)), (match_class false name cls).
Qed.

(** The pattern takes a class for another one that starts with the same
    letters. *)
Theorem hasClass_takes_prefix :
  hasClass (js "slideshow") (js "slide") = true
  /\ removeClass (js "foldedbox note") (js "folded") = js "box note".
Proof. split; vm_compute; reflexivity. Qed.

Lemma remove_added_witness :
  removeClass (addClass (js "outline item") (js "folded")) (js "folded") = js "outline item".
Proof. apply remove_added; [by apply (bool_decide_unpack _) | discriminate | reflexivity]. Defined.
End Classes.
