(* ===== verification/Slides.v ===== *)
(** * Slides and their incremental items

    The deck is the document with its class attributes and the lists of slides,
    handout notes and backgrounds collected at the start.  The incremental items
    of a slide are found by walking the tree; [items] is the list that the walk
    goes through. *)
From S2P Require Import Prelude JsString Dom.

Module Slides.
Import Dom.

(** ** Walking a list *)
Section walk.
Context {A : Type} (P : A -> Prop) `{!forall x, Decision (P x)}.

Lemma filter_reverse l : filter P (reverse l) = reverse (filter P l).
Proof.
  induction l as [|x l IH]; [done|]. rewrite reverse_cons, filter_app, IH, !filter_cons, filter_nil.
  case_decide; [by rewrite reverse_cons | by rewrite app_nil_r].
Qed.

Lemma filter_at l i k x :
  NoDup l -> l !! i = Some x -> filter P l !! k = Some x ->
  head (filter P (drop (S i) l)) = filter P l !! S k.
Proof.
  intros Hn Hi Hk. rewrite <- (take_drop_middle l i x Hi), filter_app, filter_cons in Hk |- *.
  destruct (decide (P x)) as [Hx|Hx].
  2: { exfalso. apply list_elem_of_lookup_2 in Hk. rewrite <- filter_app in Hk.
       apply list_elem_of_filter in Hk as [? _]. done. }
  assert (Hnot : x ∉ take i l).
  { rewrite <- (take_drop_middle l i x Hi) in Hn. apply NoDup_app in Hn as (_ & Hn & _).
    intros Ht. by apply (Hn x Ht), list_elem_of_here. }
  assert (Hkl : k = length (filter P (take i l))).
  { rewrite <- (take_drop_middle l i x Hi) in Hn.
    assert (NoDup (filter P (take i l) ++ x :: filter P (drop (S i) l))) as Hn'.
    { apply (NoDup_filter P) in Hn. rewrite filter_app, filter_cons in Hn.
      by rewrite decide_True in Hn. }
    eapply NoDup_lookup; [exact Hn' | exact Hk | by apply list_lookup_middle]. }
  subst k. rewrite drop_app_ge by (rewrite length_take; lia).
  rewrite length_take. apply lookup_lt_Some in Hi as Hlt.
  replace (S i - i `min` length l)%nat with 1%nat by lia. cbn [drop].
  rewrite head_lookup. rewrite lookup_app_r by lia.
  by replace (S (length (filter P (take i l))) - length (filter P (take i l)))%nat with 1%nat by lia.
Qed.
End walk.

(** ** The deck *)
Record deck := Deck {
  doc : node;
  cls : gmap ref jstring;      (** class attributes; none is the empty string *)
  slides : list ref; notes : list ref; backgrounds : list ref }.

Section deck.
Variable d : deck.

Definition class_of (p : ref) : jstring := default [] (cls d !! p).

Definition name_of (p : ref) : option jstring :=
  match kind_of <$> at_ (doc d) p with Some (KElem n) => Some n | _ => None end.

(** src/experiments/repl/src/main/webapp/slidy/slidy.js:1697-1720
    [incrementalElementList] *)
Definition okayForIncremental (n : jstring) : bool :=
  bool_decide (n ∈ [js "P"; js "PRE"; js "LI"; js "BLOCKQUOTE"; js "DT"; js "DD"; js "H2"; js "H3";
    js "H4"; js "H5"; js "H6"; js "SPAN"; js "ADDRESS"; js "TABLE"; js "TR"; js "TH"; js "TD";
    js "IMG"; js "OBJECT"]).

(** src/experiments/repl/src/main/webapp/slidy/slidy.js:1733-1745
    the test on an element and its parent in [nextIncrementalItem]. *)
Definition is_item (p parent : ref) : bool :=
  match name_of p with
  | None => false
  | Some n =>
      if bool_decide (n = js "BR") then false
      else (Classes.hasClass (class_of p) (js "incremental") && okayForIncremental n)
           || (Classes.hasClass (class_of parent) (js "incremental")
               && negb (Classes.hasClass (class_of p) (js "non-incremental")))
  end.

Definition item (p : ref) : Prop :=
  match parentNode p with Some q => is_item p q = true | None => False end.
#[export] Instance item_dec p : Decision (item p).
Proof. unfold item. destruct (parentNode p); apply _. Defined.

(** The loop [for (;;)] of the two searches; a step leads to a node not seen
    before, so as many rounds as the document has nodes are enough. *)
Fixpoint item_loop (move : option ref -> option ref) (fuel : nat) (node : option ref) : option ref :=
  match fuel with
  | O => None
  | S fuel =>
      match move node with
      | None => None
      | Some p =>
          match parentNode p with
          | None => Some p
          | Some q => if is_item p q then Some p else item_loop move fuel (Some p)
          end
      end
  end.

Definition rounds : nat := S (length (pre (doc d) [])).

(** src/experiments/repl/src/main/webapp/slidy/slidy.js:1722-1749
    [nextIncrementalItem(node)] on the slide at [root]. *)
Definition nextIncrementalItem (root : ref) (node : option ref) : option ref :=
  item_loop (nextNode (doc d) root) rounds node.

(** src/experiments/repl/src/main/webapp/slidy/slidy.js:1751-1778
    [previousIncrementalItem(node)] on the slide at [root]. *)
Definition previousIncrementalItem (root : ref) (node : option ref) : option ref :=
  item_loop (previousNode (doc d) root) rounds node.

(** The incremental items of a slide. *)
Definition items (root : ref) : list ref := filter item (order (doc d) root).

(** ** The searches walk the items *)
Lemma pre_included p n : at_ (doc d) p = Some n -> forall q, q ∈ pre n p -> q ∈ pre (doc d) [].
Proof.
  revert n. induction p as [|i p IH]; intros n Hn q Hq; [simpl in Hn; by simplify_eq|].
  simpl in Hn. destruct (at_ (doc d) p) as [m|] eqn:Em; [|done]. simpl in Hn.
  apply (IH m eq_refl). destruct m as [k ks]. rewrite pre_eq. right. simpl in Hn.
  assert (forall j, q ∈ pre n ((j + i)%nat :: p) -> q ∈ pre_kids ks j p) as H.
  { clear -Hn. revert i Hn. induction ks as [|k' ks IH]; intros i Hn j Hq; [done|].
    simpl. apply elem_of_app. destruct i as [|i].
    - left. simpl in Hn. simplify_eq. by rewrite Nat.add_0_r in Hq.
    - right. apply (IH i); [done|]. by replace (S j + i)%nat with (j + S i)%nat by lia. }
  by apply (H 0%nat).
Qed.

Lemma order_length root : (length (order (doc d) root) <= length (pre (doc d) []))%nat.
Proof.
  apply submseteq_length, NoDup_submseteq; [apply NoDup_order|]. intros q Hq.
  unfold order in Hq. destruct (at_ (doc d) root) as [[k ks]|] eqn:E; [|by apply elem_of_nil in Hq].
  eapply pre_included; [done|]. rewrite pre_eq. by right.
Qed.

Section along.
Variables (l : list ref) (move : option ref -> option ref).
Hypothesis l_nodup : NoDup l.
Hypothesis l_below : Forall (fun p => p <> []) l.
Hypothesis move_start : move None = l !! 0%nat.
Hypothesis move_next : forall i x, l !! i = Some x -> move (Some x) = l !! S i.

Lemma item_loop_along fuel i node :
  move node = l !! i -> (length l < i + fuel)%nat ->
  item_loop move fuel node = head (filter item (drop i l)).
Proof.
  revert i node. induction fuel as [|fuel IH]; intros i node Hm Hf.
  { rewrite drop_ge by lia. done. }
  cbn [item_loop]. rewrite Hm. destruct (l !! i) as [p|] eqn:Ei.
  - rewrite (drop_S _ _ _ Ei), filter_cons.
    destruct p as [|j q] eqn:Ep.
    { rewrite Forall_lookup in l_below. by specialize (l_below _ _ Ei). }
    cbn [parentNode]. assert (item (j :: q) <-> is_item (j :: q) q = true) as Hit by done.
    destruct (is_item (j :: q) q) eqn:Eit.
    + by rewrite decide_True by (by apply Hit).
    + rewrite decide_False by (rewrite Hit; done). apply IH; [by apply move_next | lia].
  - apply lookup_ge_None in Ei. by rewrite drop_ge.
Qed.

Lemma item_loop_items fuel :
  (length l < fuel)%nat ->
  item_loop move fuel None = head (filter item l)
  /\ forall k x, filter item l !! k = Some x ->
       item_loop move fuel (Some x) = filter item l !! S k.
Proof.
  intros Hf. split.
  - rewrite (item_loop_along fuel 0) by (done || lia). done.
  - intros k x Hk. assert (x ∈ l) as [i Hi]%list_elem_of_lookup.
    { apply list_elem_of_lookup_2 in Hk. by apply list_elem_of_filter in Hk as [_ ?]. }
    rewrite (item_loop_along fuel (S i)) by (by apply move_next || lia).
    by eapply filter_at.
Qed.
End along.

Lemma order_nonempty_paths root : Forall (fun p => p <> []) (order (doc d) root).
Proof.
  apply Forall_forall. intros p Hp. destruct (order_below _ _ _ Hp) as (l & Hl & ->).
  by destruct l.
Qed.

Lemma items_nodup root : NoDup (items root).
Proof. apply NoDup_filter, NoDup_order. Qed.

(** Forwards, the search goes through [items] from its start. *)
Lemma nextIncrementalItem_items root n :
  at_ (doc d) root = Some n ->
  nextIncrementalItem root None = head (items root)
  /\ forall k x, items root !! k = Some x ->
       nextIncrementalItem root (Some x) = items root !! S k.
Proof.
  intros Hn. destruct (nextNode_linked _ root n Hn) as [Hs Hl].
  apply item_loop_items.
  - apply NoDup_order.
  - apply order_nonempty_paths.
  - by rewrite Hs, head_lookup.
  - intros i x Hx. change (next (doc d) root x = order (doc d) root !! S i).
    rewrite (linked_lookup _ _ _ _ _ Hl Hx). by destruct (_ !! S i).
  - unfold rounds. pose proof (order_length root). lia.
Qed.

(** Backwards, it goes through [items] from its end. *)
Lemma previousIncrementalItem_items root n :
  at_ (doc d) root = Some n ->
  previousIncrementalItem root None = last (items root)
  /\ forall k x, items root !! k = Some x ->
       previousIncrementalItem root (Some x) = match k with O => None | S j => items root !! j end.
Proof.
  intros Hn. destruct (previousNode_back _ root n Hn) as [Hs Hb].
  assert (Hrev : filter item (reverse (order (doc d) root)) = reverse (items root))
    by apply filter_reverse.
  destruct (item_loop_items (reverse (order (doc d) root)) (previousNode (doc d) root)) with (fuel := rounds)
    as [H1 H2].
  - rewrite reverse_Permutation. apply NoDup_order.
  - rewrite reverse_Permutation. apply order_nonempty_paths.
  - rewrite Hs. by rewrite <- head_lookup, head_reverse.
  - intros i x Hx. apply reverse_lookup_Some in Hx as [Hx Hlt].
    set (l := order (doc d) root) in *.
    destruct (length l - S i)%nat as [|j] eqn:Ej.
    + rewrite (proj2 (lookup_ge_None (reverse l) (S i))) by (rewrite length_reverse; lia).
      destruct l as [|y l'] eqn:El; [done|]. simpl in Hx. simplify_eq. by destruct Hb.
    + assert (is_Some (l !! j)) as [z Hz] by (apply lookup_lt_is_Some; lia).
      change (prev (doc d) root x = reverse l !! S i).
      rewrite (back_lookup (doc d) root None l j z x Hb Hz Hx). symmetry.
      apply reverse_lookup_Some. split; [|lia]. by replace (length l - S (S i))%nat with j by lia.
  - rewrite length_reverse. unfold rounds. pose proof (order_length root). lia.
  - unfold previousIncrementalItem. rewrite H1, Hrev, head_reverse. split; [done|].
    intros k x Hk. pose proof (lookup_lt_Some _ _ _ Hk) as Hlt.
    rewrite Hrev in H2. rewrite (H2 (length (items root) - S k)%nat x).
    + destruct k as [|j].
      * apply lookup_ge_None. rewrite length_reverse. lia.
      * assert (is_Some (items root !! j)) as [z Hz] by (apply lookup_lt_is_Some; lia).
        rewrite Hz. apply reverse_lookup_Some. split; [|lia].
        by replace (length (items root) - S (S (length (items root) - S (S j))))%nat with j by lia.
    + apply reverse_lookup_Some. split; [|lia].
      by replace (length (items root) - S (length (items root) - S k))%nat with k by lia.
Qed.

(** ** Visibility *)

(** The inline style [visibility] of the nodes: visible or hidden. *)
Abbreviation style := (gmap ref bool).

(** The loop of [setVisibilityAllIncremental]. *)
Fixpoint visibility_loop (fuel : nat) (root : ref) (value : bool) (node : option ref) (v : style) : style :=
  match fuel, node with
  | S fuel, Some p =>
      visibility_loop fuel root value (nextIncrementalItem root (Some p)) (<[p := value]> v)
  | _, _ => v
  end.

(** src/experiments/repl/src/main/webapp/slidy/slidy.js:1782-1791
    [setVisibilityAllIncremental(value)] on the slide at [root]. *)
Definition setVisibilityAllIncremental (root : ref) (value : bool) (v : style) : style :=
  visibility_loop rounds root value (nextIncrementalItem root None) v.

(** src/experiments/repl/src/main/webapp/slidy/slidy.js:1795-1803
    [revealNextItem(node)]: the next item is made visible. *)
Definition revealNextItem (root : ref) (node : option ref) (v : style) : option ref * style :=
  match nextIncrementalItem root node with
  | Some p => (Some p, if is_some (name_of p) then <[p := true]> v else v)
  | None => (None, v)
  end.

(** src/experiments/repl/src/main/webapp/slidy/slidy.js:1807-1813
    [hidePreviousItem(node)] *)
Definition hidePreviousItem (root : ref) (node : option ref) (v : style) : option ref * style :=
  (previousIncrementalItem root node,
   match node with Some p => if is_some (name_of p) then <[p := false]> v else v | None => v end).

Lemma item_is_elem root p : p ∈ items root -> is_some (name_of p) = true.
Proof.
  intros Hp. apply list_elem_of_filter in Hp as [Hp _]. unfold item, is_item in Hp.
  destruct (parentNode p); [|done]. by destruct (name_of p).
Qed.

Lemma visibility_loop_items root n value fuel k v p :
  at_ (doc d) root = Some n -> (length (items root) <= k + fuel)%nat ->
  visibility_loop fuel root value (items root !! k) v !! p
  = if decide (p ∈ drop k (items root)) then Some value else v !! p.
Proof.
  intros Hn. revert k v. induction fuel as [|fuel IH]; intros k v Hf.
  - rewrite drop_ge by lia. rewrite decide_False by apply not_elem_of_nil.
    by destruct (items root !! k).
  - destruct (items root !! k) as [x|] eqn:Ek; simpl.
    + destruct (nextIncrementalItem_items root n Hn) as [_ Hnext].
      rewrite (Hnext k x Ek), (IH (S k)) by lia. rewrite (drop_S _ _ _ Ek).
      destruct (decide (p = x)) as [->|Hpx].
      * rewrite lookup_insert_eq. rewrite (decide_True (P := x ∈ x :: _)) by apply list_elem_of_here.
        by case_decide.
      * rewrite lookup_insert_ne by done. repeat case_decide; try done; set_solver.
    + rewrite decide_False; [done|]. apply lookup_ge_None in Ek. rewrite drop_ge by done.
      apply not_elem_of_nil.
Qed.

(** All items of the slide, and no other node, get the value. *)
Lemma setVisibility_spec root n value v p :
  at_ (doc d) root = Some n ->
  setVisibilityAllIncremental root value v !! p
  = if decide (p ∈ items root) then Some value else v !! p.
Proof.
  intros Hn. unfold setVisibilityAllIncremental.
  destruct (nextIncrementalItem_items root n Hn) as [-> _]. rewrite head_lookup.
  rewrite (visibility_loop_items root n); [by rewrite drop_0 | done|].
  unfold rounds, items. pose proof (order_length root).
  pose proof (length_filter item (order (doc d) root)). lia.
Qed.

(** [hidePreviousItem] undoes [revealNextItem]: revealing the next item and
    hiding it again gives back the last shown item, and every node's visibility
    but that of the item, which is hidden. *)
Theorem hide_reveal root n k x v :
  at_ (doc d) root = Some n -> items root !! k = Some x ->
  let last_shown := match k with O => None | S j => items root !! j end in
  let r := revealNextItem root last_shown v in
  r = (Some x, <[x := true]> v)
  /\ hidePreviousItem root r.1 r.2 = (last_shown, <[x := false]> v).
Proof.
  intros Hn Hk. cbv zeta.
  destruct (nextIncrementalItem_items root n Hn) as [Hn0 Hns].
  destruct (previousIncrementalItem_items root n Hn) as [_ Hps].
  assert (nextIncrementalItem root (match k with O => None | S j => items root !! j end) = Some x) as Hnx.
  { destruct k as [|j]; [by rewrite Hn0, head_lookup|].
    assert (is_Some (items root !! j)) as [z Hz].
    { apply lookup_lt_is_Some. apply lookup_lt_Some in Hk. lia. }
    by rewrite Hz, (Hns j z Hz). }
  unfold revealNextItem. rewrite Hnx. rewrite (item_is_elem root x) by (by eapply list_elem_of_lookup_2).
  split; [done|]. unfold hidePreviousItem. cbn [fst snd].
  rewrite (item_is_elem root x) by (by eapply list_elem_of_lookup_2).
  rewrite (Hps k x Hk). by rewrite insert_insert_eq.
Qed.
End deck.

(** ** Collecting the slides *)

(** The elements of a name, in document order: [getElementsByTagName]. *)
Definition by_name (d : deck) (names : list jstring) : list ref :=
  filter (fun p => match name_of d p with Some n => bool_decide (n ∈ names) | None => false end = true)
    (pre (doc d) []).

Definition divs (d : deck) : list ref := by_name d [js "DIV"; js "div"].

(** What [collectSlides] does to the page: the slides found, the inline
    [display] (and [visibility]) of the nodes it touches, and the slides that got
    two line breaks at their end. *)
Record collected := Collected { found : list ref; shown : gmap ref bool; with_breaks : list ref }.

(** src/experiments/repl/src/main/webapp/slidy/slidy.js:1466-1498
    [collectSlides] *)
Definition collectSlides (d : deck) : collected :=
  fold_left (fun c p =>
    if Classes.hasClass (class_of d p) (js "slide") then
      Collected (found c ++ [p]) (<[p := false]> (shown c)) (with_breaks c ++ [p])
    else if Classes.hasClass (class_of d p) (js "background") then
      Collected (found c) (<[p := true]> (shown c)) (with_breaks c)
    else c) (divs d) (Collected [] ∅ []).

(** src/experiments/repl/src/main/webapp/slidy/slidy.js:1501-1522
    [collectNotes] *)
Definition collectNotes (d : deck) (s : gmap ref bool) : list ref * gmap ref bool :=
  fold_left (fun c p =>
    if Classes.hasClass (class_of d p) (js "handout") then (c.1 ++ [p], <[p := false]> c.2) else c)
    (divs d) ([], s).

(** src/experiments/repl/src/main/webapp/slidy/slidy.js:1526-1551
    [collectBackgrounds]: only the unnamed backgrounds stay visible. *)
Definition collectBackgrounds (d : deck) (s : gmap ref bool) : list ref * gmap ref bool :=
  fold_left (fun c p =>
    if Classes.hasClass (class_of d p) (js "background") then
      (c.1 ++ [p],
       if bool_decide (class_of d p = js "background") then c.2 else <[p := false]> c.2)
    else c) (divs d) ([], s).

(** The deck of a document with its class attributes. *)
Definition collect (doc : node) (cls : gmap ref jstring) : deck :=
  let d := Deck doc cls [] [] [] in
  let s := collectSlides d in
  let n := collectNotes d (shown s) in
  Deck doc cls (found s) n.1 (collectBackgrounds d n.2).1.

(** Every slide is found once, in document order, and is hidden. *)
Lemma collectSlides_found d :
  found (collectSlides d)
  = filter (fun p => Classes.hasClass (class_of d p) (js "slide") = true) (divs d)
  /\ with_breaks (collectSlides d) = found (collectSlides d)
  /\ forall p, p ∈ found (collectSlides d) -> shown (collectSlides d) !! p = Some false.
Proof.
  unfold collectSlides. assert (NoDup (divs d)) as Hnd by apply NoDup_filter, NoDup_pre.
  revert Hnd. generalize (divs d). intros l Hl.
  set (P := fun p => Classes.hasClass (class_of d p) (js "slide") = true).
  set (f := fun c p => _).
  assert (forall c, with_breaks c = found c -> (forall p, p ∈ found c -> shown c !! p = Some false) ->
            (forall p, p ∈ found c -> p ∉ l) ->
            found (fold_left f l c) = found c ++ filter P l
            /\ with_breaks (fold_left f l c) = found (fold_left f l c)
            /\ forall p, p ∈ found (fold_left f l c) -> shown (fold_left f l c) !! p = Some false) as H.
  { induction Hl as [|x l Hx Hl IH]; intros c Hb Hs Hf; simpl.
    - rewrite filter_nil, app_nil_r. done.
    - destruct (decide (P x)) as [HP|HP].
      + rewrite filter_cons_True by done.
        assert (f c x = Collected (found c ++ [x]) (<[x:=false]> (shown c)) (with_breaks c ++ [x])) as ->
          by (unfold f, P in *; by rewrite HP).
        match goal with |- context [fold_left f l ?c'] => destruct (IH c') as (H1 & H2 & H3) end; simpl.
        * by rewrite Hb.
        * intros p Hp. destruct (decide (p = x)) as [->|]; [by rewrite lookup_insert_eq|].
          rewrite lookup_insert_ne by done. apply Hs. set_solver.
        * intros p Hp. apply elem_of_app in Hp as [Hp|Hp]; [specialize (Hf p Hp); set_solver|].
          apply list_elem_of_singleton in Hp. by subst.
        * split_and!; [|done|done]. rewrite H1. simpl. by rewrite <- app_assoc.
      + rewrite filter_cons_False by done.
        assert (found (f c x) = found c /\ with_breaks (f c x) = with_breaks c
                /\ forall p, p <> x -> shown (f c x) !! p = shown c !! p) as (F1 & F2 & F3).
        { unfold f, P in *. rewrite (not_true_is_false _ HP). case_match; [|done].
          split_and!; [done..|]. intros p Hp. simpl. by rewrite lookup_insert_ne. }
        destruct (IH (f c x)) as (H1 & H2 & H3).
        * by rewrite F1, F2.
        * intros p Hp. rewrite F1 in Hp. rewrite F3; [by apply Hs|]. intros ->.
          specialize (Hf x Hp). set_solver.
        * intros p Hp. rewrite F1 in Hp. specialize (Hf p Hp). set_solver.
        * split_and!; [by rewrite H1, F1 | done | done]. }
  apply H; [done | | ]; intros p Hp; by apply elem_of_nil in Hp.
Qed.

(** *** Implicit slides *)

(** The children of the body after the headings were wrapped: kept as they are,
    or a new [div] of class [slide] with a heading and what followed it. *)
Inductive part := Keep (n : node) | Wrapped (heading : node) (content : list node).

Definition part_nodes (p : part) : list node :=
  match p with Keep n => [n] | Wrapped h c => h :: c end.

Definition named (names : list jstring) (n : node) : bool :=
  match kind_of n with KElem m => bool_decide (m ∈ names) | _ => false end.
Definition is_h1 (n : node) : bool := named [js "H1"; js "h1"] n.
Definition ends_slide (n : node) : bool := named [js "H1"; js "h1"; js "DIV"; js "div"] n.

Fixpoint take_content (l : list node) : list node * list node :=
  match l with
  | [] => ([], [])
  | n :: l => if ends_slide n then ([], n :: l) else (n :: (take_content l).1, (take_content l).2)
  end.

Lemma take_content_app l : (take_content l).1 ++ (take_content l).2 = l.
Proof. induction l as [|n l IH]; simpl; [done|]. case_match; simpl; [done | by rewrite IH]. Qed.

Lemma take_content_length l : (length (take_content l).2 <= length l)%nat.
Proof. rewrite <- (take_content_app l) at 2. rewrite length_app. lia. Qed.

(** src/experiments/repl/src/main/webapp/slidy/slidy.js:1426-1463
    [wrapImplicitSlides], on the children of the body; each round consumes a
    child, so their number is enough fuel. *)
Fixpoint wrap_loop (fuel : nat) (l : list node) : list part :=
  match fuel, l with
  | S fuel, n :: l =>
      if is_h1 n then
        let '(content, rest) := take_content l in Wrapped n content :: wrap_loop fuel rest
      else Keep n :: wrap_loop fuel l
  | _, _ => []
  end.
Definition wrapImplicitSlides (l : list node) : list part := wrap_loop (length l) l.

(** Wrapping loses nothing and keeps the order; afterwards no [h1] is a child of
    the body, and a wrapped slide holds exactly one heading, its first node, and
    no [div]. *)
Theorem wrap_correct l :
  concat (map part_nodes (wrapImplicitSlides l)) = l
  /\ Forall (fun p => match p with
                      | Keep n => is_h1 n = false
                      | Wrapped h c => is_h1 h = true /\ Forall (fun n => ends_slide n = false) c
                      end) (wrapImplicitSlides l).
Proof.
  unfold wrapImplicitSlides. assert (forall fuel, (length l <= fuel)%nat ->
    concat (map part_nodes (wrap_loop fuel l)) = l
    /\ Forall (fun p => match p with
                        | Keep n => is_h1 n = false
                        | Wrapped h c => is_h1 h = true /\ Forall (fun n => ends_slide n = false) c
                        end) (wrap_loop fuel l)) as H; [|by apply H].
  intros fuel. revert l. induction fuel as [|fuel IH]; intros l Hl.
  { destruct l; [done | simpl in Hl; lia]. }
  destruct l as [|n l]; [done|]. cbn [wrap_loop]. simpl in Hl. destruct (is_h1 n) eqn:En.
  - pose proof (take_content_app l) as Ha. pose proof (take_content_length l) as Hlen.
    assert (Forall (fun n => ends_slide n = false) (take_content l).1) as Hc.
    { clear. induction l as [|m l IH]; simpl; [constructor|]. case_match; simpl; by constructor. }
    destruct (take_content l) as [c rest]. simpl in *. destruct (IH rest ltac:(lia)) as [H1 H2].
    split; [by rewrite H1, Ha | by constructor].
  - destruct (IH l ltac:(lia)) as [H1 H2]. simpl. split; [by rewrite H1 | by constructor].
Qed.

(** ** Witnesses *)
Definition deck1 : deck :=
  Deck sample (list_to_map [([0; 0; 0]%nat, js "slide"); ([1; 0; 0]%nat, js "slide");
                            ([1; 0; 0; 0]%nat, js "incremental")])
       [[0; 0; 0]; [1; 0; 0]]%nat [] [].

Lemma hide_reveal_witness :
  items deck1 [0; 0; 0]%nat = [[0; 1; 0; 0; 0]; [1; 1; 0; 0; 0]]%nat
  /\ hidePreviousItem deck1 [0; 0; 0]%nat (Some [1; 1; 0; 0; 0]%nat) (<[[1; 1; 0; 0; 0]%nat := true]> ∅)
     = (Some [0; 1; 0; 0; 0]%nat, <[[1; 1; 0; 0; 0]%nat := false]> ∅).
Proof.
  split; [reflexivity|].
  exact (proj2 (hide_reveal deck1 [0; 0; 0]%nat _ 1 [1; 1; 0; 0; 0]%nat ∅ eq_refl eq_refl)).
Defined.

Lemma wrap_correct_witness_list :
  wrapImplicitSlides [Node (KElem (js "H1")) []; Node (KText (js "a")) []; Node (KElem (js "DIV")) []]
  = [Wrapped (Node (KElem (js "H1")) []) [Node (KText (js "a")) []]; Keep (Node (KElem (js "DIV")) [])].
Proof. reflexivity. Qed.
End Slides.
