(* ===== verification/Location.v ===== *)
(** * The slide number in the address

    slidy.js keeps the current slide in the fragment of the page's address, as
    [#(2)] for the second slide, and reads it back at the start, on links and
    every 200 ms. *)
From S2P Require Import Prelude JsString Dom Slides.
From Stdlib Require DecimalPos.

Module Location.
Import Dom Slides.

(** ** Built-in functions *)
Definition hex_digit (c : Z) : option Z :=
  if is_digit c then Some (c - 48)
  else if (97 <=? c) && (c <=? 102) then Some (c - 87)
  else if (65 <=? c) && (c <=? 70) then Some (c - 55)
  else None.

Definition hex2 (a b : Z) : option Z :=
  x ← hex_digit a; y ← hex_digit b; Some (16 * x + y).

(** [unescape(s)] *)
Fixpoint unescape (s : jstring) : jstring :=
  match s with
  | 37 :: ((a :: ((b :: r) as s2)) as s1) =>
      match hex2 a b with
      | Some v => v :: unescape r
      | None =>
          match a, s2 with
          | 117, b :: c :: d :: e :: r =>
              match hex2 b c, hex2 d e with
              | Some v, Some w => (256 * v + w) :: unescape r
              | _, _ => 37 :: unescape s1
              end
          | _, _ => 37 :: unescape s1
          end
      end
  | c :: r => c :: unescape r
  | [] => []
  end.

(** The digits at the start of a string, as a number; [None] without a digit. *)
Fixpoint digits (radix : Z) (acc : option Z) (s : jstring) : option Z :=
  match s with
  | [] => acc
  | c :: s =>
      match hex_digit c with
      | Some v => if v <? radix then digits radix (Some (radix * default 0 acc + v)) s else acc
      | None => acc
      end
  end.

Fixpoint skip_white (s : jstring) : jstring :=
  match s with c :: r => if is_white c then skip_white r else s | [] => [] end.

(** [parseInt(s)]; [None] is [NaN]. *)
Definition parseInt (s : jstring) : option Z :=
  let s := skip_white s in
  let '(sign, s) := match s with
                    | c :: r => if c =? 45 then (-1, r) else if c =? 43 then (1, r) else (1, s)
                    | [] => (1, s)
                    end in
  let o := match s with
           | a :: b :: r =>
               if (a =? 48) && ((b =? 120) || (b =? 88)) then digits 16 None r else digits 10 None s
           | _ => digits 10 None s
           end in
  (fun v => sign * v) <$> o.

(** ** Addresses *)

(** src/experiments/repl/src/main/webapp/slidy/slidy.js:1857-1870
    [pageAddress(uri)] *)
Definition pageAddress (uri : jstring) : jstring :=
  let i := indexOf [c_hash] uri in
  let i := if i <? 0 then indexOf (js "%23") uri else i in
  if i <? 0 then uri else substr 0 i uri.

Definition slide_hash (slidenum : Z) : jstring := js "#(" ++ num_str (slidenum + 1) ++ js ")".

(** src/experiments/repl/src/main/webapp/slidy/slidy.js:1903-1907
    [setLocation]: the address of a slide. *)
Definition slide_uri (slidenum : Z) (href : jstring) : jstring :=
  if 0 <=? slidenum then pageAddress href ++ slide_hash slidenum else pageAddress href.

(** [location.hash] *)
Definition location_hash (href : jstring) : jstring :=
  let i := indexOf [c_hash] href in
  if i <? 0 then [] else let h := slice_from i href in if bool_decide (h = [c_hash]) then [] else h.

(** [s.match(/\((\d)+\)/)] and the same with square brackets: an opening
    bracket, digits and a closing bracket somewhere in [s]. *)
Fixpoint digits_then (seen : bool) (close : Z) (s : jstring) : bool :=
  match s with
  | [] => false
  | c :: r => if is_digit c then digits_then true close r else seen && (c =? close)
  end.
Fixpoint has_number (op close : Z) (s : jstring) : bool :=
  match s with
  | [] => false
  | c :: r => ((c =? op) && digits_then false close r) || has_number op close r
  end.

(** The loop over the target's ancestors. *)
Fixpoint enclosing_slide (d : deck) (p : ref) : option ref :=
  if match name_of d p with Some n => bool_decide (toLowerCase n = js "div") | None => false end
     && Classes.hasClass (class_of d p) (js "slide")
  then Some p
  else match p with [] => None | _ :: q => enclosing_slide d q end.

Fixpoint index_of (p : ref) (l : list ref) (i : Z) : option Z :=
  match l with
  | [] => None
  | q :: l => if decide (p = q) then Some i else index_of p l (i + 1)
  end.

(** src/experiments/repl/src/main/webapp/slidy/slidy.js:1973-1981
    the slide number in an anchor like [(2)]; [None] is [NaN]. *)
Definition anchor_number (d : deck) (anchor : jstring) : option Z :=
  (fun num =>
     let num := if zlen (slides d) <? num then 1 else num in
     if num - 1 <? 0 then 0 else num - 1)
  <$> parseInt (substring 1 (zlen anchor - 1) anchor).

(** src/experiments/repl/src/main/webapp/slidy/slidy.js:1949-2034
    [findSlideNumber(uri)]; [by_id] is [document.getElementById], and [None]
    is [NaN]. *)
Definition findSlideNumber (d : deck) (by_id : jstring -> option ref) (uri : jstring) : option Z :=
  let i := indexOf [c_hash] uri in
  if i <? 0 then Some 0
  else
    let anchor := unescape (substr_from (i + 1) uri) in
    match by_id anchor with
    | None =>
        if has_number c_lparen c_rparen anchor then anchor_number d anchor
        else if has_number c_lbrack c_rbrack anchor then anchor_number d anchor
        else Some 0
    | Some target =>
        match enclosing_slide d target with
        | None => Some 0
        | Some slide => Some (default 0 (index_of slide (slides d) 0))
        end
    end.

(** ** Theorems *)
Lemma index_of_range p l i n : index_of p l i = Some n -> i <= n < i + zlen l.
Proof.
  revert i. induction l as [|q l IH]; intros i; simpl; [done|]. rewrite zlen_cons.
  pose proof (zlen_nonneg l). case_decide; [intros; simplify_eq; lia|].
  intros Hi. specialize (IH _ Hi). lia.
Qed.

Lemma findSlideNumber_bounds d by_id uri n :
  slides d <> [] -> findSlideNumber d by_id uri = Some n -> 0 <= n < zlen (slides d).
Proof.
  intros Hne. assert (0 < zlen (slides d)) as Hl.
  { destruct (slides d) as [|x l]; [done|]. unfold zlen. simpl. lia. }
  assert (forall a, anchor_number d a = Some n -> 0 <= n < zlen (slides d)) as Ha.
  { intros a. unfold anchor_number. destruct (parseInt _) as [v|]; simpl; [|done].
    intros Hs. injection Hs as <-. destruct (Z.ltb_spec (zlen (slides d)) v);
      match goal with |- context [?x <? 0] => destruct (Z.ltb_spec x 0) end; lia. }
  unfold findSlideNumber. case_match; [intros; simplify_eq; lia|].
  case_match.
  - case_match; [|intros; simplify_eq; lia]. intros; simplify_eq.
    destruct (index_of _ _ _) eqn:Ei; simpl; [|lia]. apply index_of_range in Ei. lia.
  - case_match; [apply Ha|]. case_match; [apply Ha|]. intros; simplify_eq. lia.
Qed.

(** A slide number read from an address is the number of a slide. *)
Theorem findSlideNumber_range d by_id uri n :
  slides d <> [] -> findSlideNumber d by_id uri = Some n -> 0 <= n < zlen (slides d).
Proof. apply findSlideNumber_bounds. Qed.

(** *** Decimal numbers are read back *)
Lemma digits_step c v acc s :
  hex_digit c = Some v -> v < 10 ->
  digits 10 (Some acc) (c :: s) = digits 10 (Some (10 * acc + v)) s.
Proof. intros Hc Hv. cbn [digits]. rewrite Hc. by rewrite (proj2 (Z.ltb_lt _ _)). Qed.

(** What may follow a number: nothing, or a character that ends it. *)
Definition stops (r : jstring) : Prop :=
  match r with [] => True | c :: _ => is_digit c = false /\ c <> 120 /\ c <> 88 end.

Lemma digits_stop acc r : stops r -> digits 10 acc r = acc.
Proof.
  destruct r as [|c r]; [done|]. intros (Hc & _ & _). cbn [digits]. unfold hex_digit. rewrite Hc.
  unfold is_digit in Hc. repeat case_match; try done; simplify_eq; lia.
Qed.

Lemma digits_uint dg acc r :
  stops r ->
  digits 10 (Some (Zpos acc)) (js (DecimalString.NilEmpty.string_of_uint dg) ++ r)
  = Some (Zpos (Pos.of_uint_acc dg acc)).
Proof.
  intros Hr. revert acc.
  induction dg as [|dg IH|dg IH|dg IH|dg IH|dg IH|dg IH|dg IH|dg IH|dg IH|dg IH]; intros acc;
    [by apply digits_stop|..]; cbn [DecimalString.NilEmpty.string_of_uint js app Pos.of_uint_acc];
    literal_chars; (erewrite digits_step; [|reflexivity|lia]); rewrite <- IH; f_equal; f_equal; lia.
Qed.

Lemma digits_zero dg r :
  stops r ->
  digits 10 (Some 0) (js (DecimalString.NilEmpty.string_of_uint dg) ++ r) = Some (Z.of_N (Pos.of_uint dg)).
Proof.
  intros Hr.
  induction dg as [|dg IH|dg _|dg _|dg _|dg _|dg _|dg _|dg _|dg _|dg _];
    [by apply digits_stop | exact IH | ..];
    cbn [DecimalString.NilEmpty.string_of_uint js app Pos.of_uint]; literal_chars;
    (erewrite digits_step; [|reflexivity|lia]); by apply digits_uint.
Qed.

Lemma digits_some dg r :
  dg <> Decimal.Nil -> stops r ->
  digits 10 None (js (DecimalString.NilEmpty.string_of_uint dg) ++ r) = Some (Z.of_N (Pos.of_uint dg)).
Proof. intros Hd Hr. rewrite <- (digits_zero dg r Hr). by destruct dg. Qed.

Lemma num_str_pos p :
  num_str (Zpos p) = js (DecimalString.NilEmpty.string_of_uint (Pos.to_uint p))
  /\ Pos.to_uint p <> Decimal.Nil.
Proof.
  pose proof (DecimalPos.Unsigned.of_to p) as Hof.
  assert (Pos.to_uint p <> Decimal.Nil) as Hn by (intros Hn; by rewrite Hn in Hof).
  split; [|done]. unfold num_str. change (Z.to_int (Z.pos p)) with (Decimal.Pos (Pos.to_uint p)).
  unfold DecimalString.NilZero.string_of_int, DecimalString.NilZero.string_of_uint.
  by destruct (Pos.to_uint p).
Qed.

Lemma digit_chars dg : Forall (fun c => is_digit c = true) (js (DecimalString.NilEmpty.string_of_uint dg)).
Proof. induction dg; simpl; by constructor. Qed.

Lemma num_str_digits p : Forall (fun c => is_digit c = true) (num_str (Zpos p)) /\ num_str (Zpos p) <> [].
Proof.
  destruct (num_str_pos p) as [-> Hn]. split; [apply digit_chars|]. by destruct (Pos.to_uint p).
Qed.

(** [parseInt] reads a printed number. *)
Lemma parseInt_num p r : stops r -> parseInt (num_str (Zpos p) ++ r) = Some (Zpos p).
Proof.
  intros Hr. destruct (num_str_digits p) as [Hd Hne]. destruct (num_str_pos p) as [Hs Hn].
  assert (digits 10 None (num_str (Zpos p) ++ r) = Some (Zpos p)) as Hdig.
  { rewrite Hs, digits_some by done. by rewrite DecimalPos.Unsigned.of_to. }
  destruct (num_str (Zpos p)) as [|c s] eqn:E; [done|].
  inversion Hd as [|? ? Hc Hd']; subst. unfold is_digit in Hc.
  unfold parseInt. cbn [app skip_white].
  replace (is_white c) with false by (unfold is_white; lia).
  replace (c =? 45) with false by lia. replace (c =? 43) with false by lia.
  assert (match s ++ r with
          | b :: r' => if (c =? 48) && ((b =? 120) || (b =? 88)) then digits 16 None r'
                       else digits 10 None (c :: s ++ r)
          | [] => digits 10 None (c :: s ++ r)
          end = digits 10 None (c :: s ++ r)) as Hx.
  { assert (forall b r', s ++ r = b :: r' -> ((b =? 120) || (b =? 88)) = false) as Hb.
    { intros b r' Hsr. destruct s as [|b' s]; simpl in Hsr; simplify_eq.
      - destruct Hr as (_ & ? & ?). lia.
      - inversion Hd' as [|? ? Hb _]; subst. unfold is_digit in Hb. lia. }
    destruct (s ++ r) as [|b r']; [done|]. rewrite (Hb b r' eq_refl). by rewrite andb_false_r. }
  cbn [app] in Hdig. rewrite Hx, Hdig. cbn [fmap option_fmap option_map]. by rewrite Z.mul_1_l.
Qed.

(** ** The fragment *)
Lemma unescape_plain s : Forall (fun c => c <> 37) s -> unescape s = s.
Proof.
  induction 1 as [|c s Hc Hs IH]; [done|]. cbn [unescape].
  destruct c as [|c|c]; try (by rewrite IH). do 6 (destruct c as [c|c|]; try (by rewrite IH)).
Qed.

Lemma pageAddress_no_hash uri : c_hash ∉ pageAddress uri.
Proof.
  unfold pageAddress. destruct (decide (c_hash ∈ uri)) as [Hin|Hn].
  - destruct (before_char _ _ Hin) as (a & r & -> & Ha). rewrite indexOf_char by done.
    pose proof (zlen_nonneg a). rewrite (proj2 (Z.ltb_ge (zlen a) 0)) by lia.
    rewrite (proj2 (Z.ltb_ge (zlen a) 0)) by lia. unfold substr.
    rewrite clamp_id by jslia. rewrite zdrop_nonpos by lia. by rewrite ztake_app_len.
  - rewrite (indexOf_absent c_hash uri Hn). cbn [Z.ltb Z.compare]. case_match; [done|].
    intros Hc. apply Hn. unfold substr, ztake, zdrop in Hc.
    apply list_elem_of_In, In_nth_error in Hc as [i Hi].
    apply list_elem_of_In. eapply List.nth_error_In in Hi.
    apply list_elem_of_In, elem_of_take in Hi as (j & Hj & _).
    apply list_elem_of_In. rewrite lookup_drop in Hj. by eapply list_elem_of_lookup_2.
Qed.

(** The fragment that [setLocation] writes names the slide. *)
Lemma findSlideNumber_hash d by_id uri n :
  c_hash ∉ uri -> 0 <= n < zlen (slides d) ->
  by_id (js "(" ++ num_str (n + 1) ++ js ")") = None ->
  findSlideNumber d by_id (uri ++ slide_hash n) = Some n.
Proof.
  intros Hh Hn Hid.
  unfold slide_hash, findSlideNumber.
  change (js "#(" ++ num_str (n + 1) ++ js ")")
    with (c_hash :: js "(" ++ num_str (n + 1) ++ js ")").
  set (frag := js "(" ++ num_str (n + 1) ++ js ")") in *.
  rewrite indexOf_char by done.
  pose proof (zlen_nonneg (uri)).
  rewrite (proj2 (Z.ltb_ge (zlen (uri)) 0)) by lia.
  assert (substr_from (zlen (uri) + 1) (uri ++ c_hash :: frag) = frag) as ->.
  { unfold substr_from. rewrite clamp_id by jslia.
    replace (uri ++ c_hash :: frag) with ((uri ++ [c_hash]) ++ frag)
      by by rewrite <- app_assoc.
    replace (zlen (uri) + 1) with (zlen (uri ++ [c_hash])) by jslia.
    by rewrite zdrop_app_len. }
  destruct (n + 1) as [|p|p] eqn:Ep; [lia| |lia].
  destruct (num_str_digits p) as [Hd Hne].
  assert (unescape frag = frag) as ->.
  { apply unescape_plain. unfold frag. apply Forall_app; split; [by repeat constructor|].
    apply Forall_app; split; [|by repeat constructor].
    eapply Forall_impl; [exact Hd|]. intros c. unfold is_digit. lia. }
  rewrite Hid.
  assert (has_number c_lparen c_rparen frag = true) as ->.
  { unfold frag. change (js "(" ++ num_str (Z.pos p) ++ js ")") with (c_lparen :: num_str (Z.pos p) ++ [c_rparen]).
    cbn [has_number]. rewrite Z.eqb_refl. cbn [andb].
    assert (forall s seen, Forall (fun c => is_digit c = true) s -> seen = true \/ s <> [] ->
              digits_then seen c_rparen (s ++ [c_rparen]) = true) as ->; [|done|done|by right].
    intros s. induction s as [|c s IH]; intros seen Hs Hsn; simpl.
    - destruct Hsn as [->|?]; done.
    - inversion Hs as [|? ? Hc Hs']; subst. rewrite Hc. apply IH; [done | by left]. }
  unfold anchor_number.
  assert (substring 1 (zlen frag - 1) frag = num_str (Z.pos p)) as ->.
  { unfold frag. change (js "(") with [c_lparen]. change (js ")") with [c_rparen].
    rewrite substring_id by (autorewrite with jslen; note_lengths; lia).
    change (zdrop 1 ([c_lparen] ++ num_str (Z.pos p) ++ [c_rparen])) with (num_str (Z.pos p) ++ [c_rparen]).
    replace (zlen ([c_lparen] ++ num_str (Z.pos p) ++ [c_rparen]) - 1 - 1) with (zlen (num_str (Z.pos p)))
      by (autorewrite with jslen; note_lengths; lia).
    by rewrite ztake_app_len. }
  rewrite <- (app_nil_r (num_str _)), parseInt_num by done. cbn [fmap option_fmap option_map].
  rewrite (proj2 (Z.ltb_ge (zlen (slides d)) (Z.pos p))) by lia.
  rewrite (proj2 (Z.ltb_ge (Z.pos p - 1) 0)) by lia. f_equal. lia.
Qed.

(** The address that [setLocation] writes is read back as the same slide, unless
    an element of the page has the fragment as its identifier. *)
Theorem location_roundtrip d by_id href n :
  0 <= n < zlen (slides d) -> by_id (js "(" ++ num_str (n + 1) ++ js ")") = None ->
  findSlideNumber d by_id (slide_uri n href) = Some n.
Proof.
  intros Hn Hid. unfold slide_uri. rewrite (proj2 (Z.leb_le 0 n)) by lia.
  apply findSlideNumber_hash; [apply pageAddress_no_hash | done | done].
Qed.

(** ** Witnesses *)
Lemma findSlideNumber_range_witness :
  findSlideNumber deck1 (fun _ => None) (js "talk.html#(9)") = Some 0
  /\ 0 <= 0 < zlen (slides deck1).
Proof.
  split; [reflexivity|].
  exact (findSlideNumber_range deck1 (fun _ => None) (js "talk.html#(9)") 0 ltac:(discriminate) eq_refl).
Defined.

Lemma location_roundtrip_witness :
  slide_uri 1 (js "talk.html#(9)") = js "talk.html#(2)"
  /\ findSlideNumber deck1 (fun _ => None) (slide_uri 1 (js "talk.html#(9)")) = Some 1.
Proof.
  split; [reflexivity|].
  exact (location_roundtrip deck1 (fun _ => None) (js "talk.html#(9)") 1 ltac:(by vm_compute) eq_refl).
Defined.
End Location.
