(* ===== verification/Localize.v ===== *)
(** * Localisation

    The texts of slidy.js's own user interface in thirteen languages, and the
    [localize] method that every string gets. *)
From S2P Require Import Prelude JsString.

Module Localize.

(** The source is UTF-8; a string holds 16-bit code units.  All characters of the
    tables have one unit. *)
Fixpoint utf8_units (bytes : list Z) : jstring :=
  match bytes with
  | a :: ((b :: ((c :: r3) as r2)) as r1) =>
      if a <? 128 then a :: utf8_units r1
      else if a <? 224 then ((a - 192) * 64 + (b - 128)) :: utf8_units r2
      else ((a - 224) * 4096 + (b - 128) * 64 + (c - 128)) :: utf8_units r3
  | [a; b] => if a <? 128 then [a; b] else [(a - 192) * 64 + (b - 128)]
  | _ => bytes
  end.
Definition utf8 (s : string) : jstring := utf8_units (js s).

(** src/experiments/repl/src/main/webapp/slidy/slidy.js:84-85
    [helpText] *)
Definition helpText : jstring :=
  js "Navigate with mouse click, space bar, Cursor Left/Right, " ++
  js "or Pg Up and Pg Dn. Use S and B to change font size.".

(** src/experiments/repl/src/main/webapp/slidy/slidy.js:108-120
    [strings_es] *)
Definition strings_es : list (jstring * jstring) :=
  [(js "slide", utf8 "pág.");
   (js "help?", utf8 "Ayuda");
   (js "contents?", utf8 "Índice");
   (js "table of contents", utf8 "tabla de contenidos");
   (js "Table of Contents", utf8 "Tabla de Contenidos");
   (js "restart presentation", utf8 "Reiniciar presentación");
   (js "restart?", utf8 "Inicio");
   (helpText,
     utf8 "Utilice el ratón, barra espaciadora, teclas Izda/Dcha, " ++
     utf8 "o Re pág y Av pág. Use S y B para cambiar el tamaño de fuente.")].

(** src/experiments/repl/src/main/webapp/slidy/slidy.js:122-134
    [strings_ca] *)
Definition strings_ca : list (jstring * jstring) :=
  [(js "slide", utf8 "pàg..");
   (js "help?", utf8 "Ajuda");
   (js "contents?", utf8 "Índex");
   (js "table of contents", utf8 "taula de continguts");
   (js "Table of Contents", utf8 "Taula de Continguts");
   (js "restart presentation", utf8 "Reiniciar presentació");
   (js "restart?", utf8 "Inici");
   (helpText,
     utf8 "Utilitzi el ratolí, barra espaiadora, tecles Esq./Dta. " ++
     utf8 "o Re pàg y Av pàg. Usi S i B per canviar grandària de font.")].

(** src/experiments/repl/src/main/webapp/slidy/slidy.js:136-148
    [strings_nl] *)
Definition strings_nl : list (jstring * jstring) :=
  [(js "slide", utf8 "pagina");
   (js "help?", utf8 "Help?");
   (js "contents?", utf8 "Inhoud?");
   (js "table of contents", utf8 "inhoudsopgave");
   (js "Table of Contents", utf8 "Inhoudsopgave");
   (js "restart presentation", utf8 "herstart presentatie");
   (js "restart?", utf8 "Herstart?");
   (helpText,
     utf8 "Navigeer d.m.v. het muis, spatiebar, Links/Rechts toetsen, " ++
     utf8 "of PgUp en PgDn. Gebruik S en B om de karaktergrootte te veranderen.")].

(** src/experiments/repl/src/main/webapp/slidy/slidy.js:150-162
    [strings_de] *)
Definition strings_de : list (jstring * jstring) :=
  [(js "slide", utf8 "Seite");
   (js "help?", utf8 "Hilfe");
   (js "contents?", utf8 "Übersicht");
   (js "table of contents", utf8 "Inhaltsverzeichnis");
   (js "Table of Contents", utf8 "Inhaltsverzeichnis");
   (js "restart presentation", utf8 "Präsentation neu starten");
   (js "restart?", utf8 "Neustart");
   (helpText,
     utf8 "Benutzen Sie die Maus, Leerschlag, die Cursortasten links/rechts oder " ++
     utf8 "Page up/Page Down zum Wechseln der Seiten und S und B für die Schriftgrösse.")].

(** src/experiments/repl/src/main/webapp/slidy/slidy.js:164-176
    [strings_pl] *)
Definition strings_pl : list (jstring * jstring) :=
  [(js "slide", utf8 "slajd");
   (js "help?", utf8 "pomoc?");
   (js "contents?", utf8 "spis treści?");
   (js "table of contents", utf8 "spis treści");
   (js "Table of Contents", utf8 "Spis Treści");
   (js "restart presentation", utf8 "Restartuj prezentację");
   (js "restart?", utf8 "restart?");
   (helpText,
     utf8 "Zmieniaj slajdy klikając myszą, naciskając spację, strzałki lewo/prawo" ++
     utf8 "lub PgUp / PgDn. Użyj klawiszy S i B, aby zmienić rozmiar czczionki.")].

(** src/experiments/repl/src/main/webapp/slidy/slidy.js:178-191
    [strings_fr] *)
Definition strings_fr : list (jstring * jstring) :=
  [(js "slide", utf8 "page");
   (js "help?", utf8 "Aide");
   (js "contents?", utf8 "Index");
   (js "table of contents", utf8 "table des matières");
   (js "Table of Contents", utf8 "Table des matières");
   (js "restart presentation", utf8 "Recommencer l'exposé");
   (js "restart?", utf8 "Début");
   (helpText,
     utf8 "Naviguez avec la souris, la barre d'espace, les flèches " ++
     utf8 "gauche/droite ou les touches Pg Up, Pg Dn. Utilisez " ++
     utf8 "les touches S et B pour modifier la taille de la police.")].

(** src/experiments/repl/src/main/webapp/slidy/slidy.js:193-207
    [strings_hu] *)
Definition strings_hu : list (jstring * jstring) :=
  [(js "slide", utf8 "oldal");
   (js "help?", utf8 "segítség");
   (js "contents?", utf8 "tartalom");
   (js "table of contents", utf8 "tartalomjegyzék");
   (js "Table of Contents", utf8 "Tartalomjegyzék");
   (js "restart presentation", utf8 "bemutató újraindítása");
   (js "restart?", utf8 "újraindítás");
   (helpText,
     utf8 "Az oldalak közti lépkedéshez kattintson az egérrel, vagy " ++
     utf8 "használja a szóköz, a bal, vagy a jobb nyíl, illetve a Page Down, " ++
     utf8 "Page Up billentyűket. Az S és a B billentyűkkel változtathatja " ++
     utf8 "a szöveg méretét.")].

(** src/experiments/repl/src/main/webapp/slidy/slidy.js:209-221
    [strings_it] *)
Definition strings_it : list (jstring * jstring) :=
  [(js "slide", utf8 "pag.");
   (js "help?", utf8 "Aiuto");
   (js "contents?", utf8 "Indice");
   (js "table of contents", utf8 "indice");
   (js "Table of Contents", utf8 "Indice");
   (js "restart presentation", utf8 "Ricominciare la presentazione");
   (js "restart?", utf8 "Inizio");
   (helpText,
     utf8 "Navigare con mouse, barra spazio, frecce sinistra/destra o " ++
     utf8 "PgUp e PgDn. Usare S e B per cambiare la dimensione dei caratteri.")].

(** src/experiments/repl/src/main/webapp/slidy/slidy.js:223-236
    [strings_el] *)
Definition strings_el : list (jstring * jstring) :=
  [(js "slide", utf8 "σελίδα");
   (js "help?", utf8 "βοήθεια;");
   (js "contents?", utf8 "περιεχόμενα;");
   (js "table of contents", utf8 "πίνακας περιεχομένων");
   (js "Table of Contents", utf8 "Πίνακας Περιεχομένων");
   (js "restart presentation", utf8 "επανεκκίνηση παρουσίασης");
   (js "restart?", utf8 "επανεκκίνηση;");
   (helpText,
     utf8 "Πλοηγηθείτε με το κλίκ του ποντικιού, το space, τα βέλη αριστερά/δεξιά, " ++
     utf8 "ή Page Up και Page Down. Χρησιμοποιήστε τα πλήκτρα S και B για να αλλάξετε " ++
     utf8 "το μέγεθος της γραμματοσειράς.")].

(** src/experiments/repl/src/main/webapp/slidy/slidy.js:238-250
    [strings_ja] *)
Definition strings_ja : list (jstring * jstring) :=
  [(js "slide", utf8 "スライド");
   (js "help?", utf8 "ヘルプ");
   (js "contents?", utf8 "目次");
   (js "table of contents", utf8 "目次を表示");
   (js "Table of Contents", utf8 "目次");
   (js "restart presentation", utf8 "最初から再生");
   (js "restart?", utf8 "最初から");
   (helpText,
     utf8 "マウス左クリック ・ スペース ・ 左右キー " ++
     utf8 "または Page Up ・ Page Downで操作， S ・ Bでフォントサイズ変更")].

(** src/experiments/repl/src/main/webapp/slidy/slidy.js:252-264
    [strings_zh] *)
Definition strings_zh : list (jstring * jstring) :=
  [(js "slide", utf8 "幻灯片");
   (js "help?", utf8 "帮助?");
   (js "contents?", utf8 "内容?");
   (js "table of contents", utf8 "目录");
   (js "Table of Contents", utf8 "目录");
   (js "restart presentation", utf8 "重新启动展示");
   (js "restart?", utf8 "重新启动?");
   (helpText,
     utf8 "用鼠标点击, 空格条, 左右箭头, Pg Up 和 Pg Dn 导航. " ++
     utf8 "用 S, B 改变字体大小.")].

(** src/experiments/repl/src/main/webapp/slidy/slidy.js:266-278
    [strings_ru] *)
Definition strings_ru : list (jstring * jstring) :=
  [(js "slide", utf8 "слайд");
   (js "help?", utf8 "помощь?");
   (js "contents?", utf8 "содержание?");
   (js "table of contents", utf8 "оглавление");
   (js "Table of Contents", utf8 "Оглавление");
   (js "restart presentation", utf8 "перезапустить презентацию");
   (js "restart?", utf8 "перезапуск?");
   (helpText,
     utf8 "Перемещайтесь кликая мышкой, используя клавишу пробел, стрелки" ++
     utf8 "влево/вправо или Pg Up и Pg Dn. Клавиши S и B меняют размер шрифта.")].

(** src/experiments/repl/src/main/webapp/slidy/slidy.js:280-293
    [strings_sv] *)
Definition strings_sv : list (jstring * jstring) :=
  [(js "slide", utf8 "sida");
   (js "help?", utf8 "hjälp");
   (js "contents?", utf8 "innehåll");
   (js "table of contents", utf8 "innehållsförteckning");
   (js "Table of Contents", utf8 "Innehållsförteckning");
   (js "restart presentation", utf8 "visa presentationen från början");
   (js "restart?", utf8 "börja om");
   (helpText,
     utf8 "Bläddra med ett klick med vänstra musknappen, mellanslagstangenten, " ++
     utf8 "vänster- och högerpiltangenterna eller tangenterna Pg Up, Pg Dn. " ++
     utf8 "Använd tangenterna S och B för att ändra textens storlek.")].

(** src/experiments/repl/src/main/webapp/slidy/slidy.js:297-311
    [localize] *)
Definition tables : list (jstring * list (jstring * jstring)) :=
  [(js "es", strings_es); (js "ca", strings_ca); (js "nl", strings_nl); (js "de", strings_de);
   (js "pl", strings_pl); (js "fr", strings_fr); (js "hu", strings_hu); (js "it", strings_it);
   (js "el", strings_el); (js "jp", strings_ja); (js "zh", strings_zh); (js "ru", strings_ru);
   (js "sv", strings_sv)].

(** [o[k]] on the own properties of an object. *)
Fixpoint prop {A} (k : jstring) (o : list (jstring * A)) : option A :=
  match o with
  | [] => None
  | (k', v) :: o => if decide (k = k') then Some v else prop k o
  end.

(** [s = lookup[this]; if (s) return s] with the table of a language. *)
Definition in_table (lg s : jstring) : option jstring :=
  t ← prop lg tables;
  match prop s t with
  | Some [] => None
  | r => r
  end.

(** src/experiments/repl/src/main/webapp/slidy/slidy.js:395-429
    [localize()], with the page's [lang]. *)
Definition localize (lang s : jstring) : jstring :=
  match s with
  | [] => s
  | _ =>
      match in_table lang s with
      | Some r => r
      | None =>
          match split_char c_dash lang with
          | lg :: _ :: _ => default s (in_table lg s)
          | _ => s
          end
      end
  end.

(** ** Theorems *)

(** The texts of the user interface that are localised. *)
Definition ui_texts : list jstring :=
  [js "slide"; js "help?"; js "contents?"; js "table of contents"; js "Table of Contents";
   js "restart presentation"; js "restart?"; helpText].

Lemma in_table_complete lg s :
  lg ∈ tables.*1 -> s ∈ ui_texts -> is_Some (in_table lg s).
Proof.
  assert (forallb (fun lg => forallb (fun s => is_some (in_table lg s)) ui_texts) tables.*1 = true) as H
    by (vm_compute; reflexivity).
  intros Hl Hs. rewrite forallb_forall in H. apply list_elem_of_In in Hl. specialize (H _ Hl). cbv beta in H.
  rewrite forallb_forall in H. apply list_elem_of_In in Hs. specialize (H _ Hs). cbv beta in H.
  by destruct (in_table lg s).
Qed.

Lemma langs_no_dash : Forall (fun k => c_dash ∉ k) tables.*1.
Proof. by apply (bool_decide_unpack _); vm_compute. Qed.

(** A regional language code falls back to the language: in every language of the
    tables and each of its regions, every text of the user interface is
    translated, to the same text. *)
Theorem localize_region lg region s :
  lg ∈ tables.*1 -> s ∈ ui_texts ->
  in_table lg s = Some (localize lg s) /\ localize (lg ++ c_dash :: region) s = localize lg s.
Proof.
  intros Hl Hs. destruct (in_table_complete lg s Hl Hs) as [r Hr].
  assert (Forall (fun s => s <> []) ui_texts) as Hne by (by apply (bool_decide_unpack _); vm_compute).
  rewrite Forall_forall in Hne. specialize (Hne _ Hs).
  pose proof langs_no_dash as Hd. rewrite Forall_forall in Hd. specialize (Hd _ Hl). cbv beta in Hd.
  assert (in_table (lg ++ c_dash :: region) s = None) as Hn.
  { unfold in_table. assert (prop (lg ++ c_dash :: region) tables = None) as ->; [|done].
    generalize langs_no_dash. generalize tables. intros l. induction l as [|[k v] l IH]; intros H; [done|].
    simpl in *. inversion H as [|? ? Hk Hl']; subst. rewrite decide_False; [by apply IH|].
    intros <-. apply Hk, elem_of_app. right. apply list_elem_of_here. }
  unfold localize. destruct s as [|c s]; [done|]. rewrite Hr, Hn. split; [done|].
  rewrite split_char_app_sep by done. destruct (split_char c_dash region) as [|w ws] eqn:E.
  - by destruct (split_char_nonempty c_dash region).
  - by rewrite Hr.
Qed.

(** The Japanese table is filed under [jp]; the language code of Japanese, [ja],
    is not found and its pages keep the English texts. *)
Theorem japanese_untranslated s :
  localize (js "ja") s = s /\ localize (js "ja-JP") s = s
  /\ localize (js "jp") (js "slide") = utf8 "スライド".
Proof.
  assert (in_table (js "ja") s = None) as H1 by done.
  assert (in_table (js "ja-JP") s = None) as H2 by done.
  unfold localize. rewrite H1, H2. split_and!; [by destruct s | | vm_compute; reflexivity].
  change (split_char c_dash (js "ja-JP")) with [js "ja"; js "JP"]. cbv beta iota. rewrite ?H1. by destruct s.
Qed.

Lemma localize_region_witness :
  in_table (js "sv") (js "slide") = Some (localize (js "sv") (js "slide"))
  /\ localize (js "sv-FI") (js "slide") = localize (js "sv") (js "slide").
Proof.
  apply (localize_region (js "sv") (js "FI") (js "slide")).
  - vm_compute. repeat first [apply list_elem_of_here | apply list_elem_of_further].
  - apply list_elem_of_here.
Defined.
End Localize.
