(* ===== verification/Outline.v ===== *)
(** * Foldable outlines

    A list item inside a list of class [outline] can be folded: its block level
    children are hidden.  The mutable attributes of the page (classes, inline
    styles and the properties that slidy.js adds to elements) form the state
    [outl]; the tree itself does not change.  Children are shown exactly when their
    item counts as unfolded, unless they were hidden before. *)
From S2P Require Import Prelude JsString Dom Slides.

Module Outline.
Import Dom Slides.

(** ** State *)
Record outl := Outl {
  cls : gmap ref jstring;          (** class attributes *)
  disp : gmap ref jstring;         (** inline [style.display] *)
  vis : gmap ref bool;                     (** inline [style.visibility] *)
  saved : gmap ref jstring;        (** [node.display] *)
  visible : gmap ref bool;         (** [item.visible] *)
  can_fold : gmap ref bool;        (** [item.foldable] *)
  tabindex : gmap ref jstring;     (** the attribute [tabindex] *)
  outline : option ref             (** the outline with the focus *)
}.

Definition get_cls (o : outl) (p : ref) : jstring := default [] (cls o !! p).
Definition set_cls (p : ref) (c : jstring) (o : outl) : outl :=
  Outl (<[p := c]> (cls o)) (disp o) (vis o) (saved o) (visible o) (can_fold o) (tabindex o) (outline o).
Definition set_visible (p : ref) (b : bool) (o : outl) : outl :=
  Outl (cls o) (disp o) (vis o) (saved o) (<[p := b]> (visible o)) (can_fold o) (tabindex o) (outline o).
Definition set_can_fold (p : ref) (b : bool) (o : outl) : outl :=
  Outl (cls o) (disp o) (vis o) (saved o) (visible o) (<[p := b]> (can_fold o)) (tabindex o) (outline o).
Definition set_tabindex (p : ref) (t : jstring) (o : outl) : outl :=
  Outl (cls o) (disp o) (vis o) (saved o) (visible o) (can_fold o) (<[p := t]> (tabindex o)) (outline o).
Definition set_outline (f : option ref) (o : outl) : outl :=
  Outl (cls o) (disp o) (vis o) (saved o) (visible o) (can_fold o) (tabindex o) f.

Section outline.
Variable doc : node.
(** [getElementStyle(node, "display", "display")]: the display the browser
    computes for a node. *)
Variable computed : outl -> ref -> jstring.

(** ** Folding *)

(** src/experiments/repl/src/main/webapp/slidy/slidy.js:2820-2829
    [isBlock(elem)] *)
Definition isBlock (tag : jstring) : bool :=
  bool_decide (tag ∈ [js "OL"; js "UL"; js "P"; js "LI"; js "TABLE"; js "PRE"; js "H1"; js "H2";
    js "H3"; js "H4"; js "H5"; js "H6"; js "BLOCKQUOTE"; js "ADDRESS"]).

Definition nodeName (p : ref) : option jstring :=
  match kind_of <$> at_ doc p with Some (KElem n) => Some n | _ => None end.

(** The nodes from [firstChild] through [nextSibling]. *)
Definition children (p : ref) : list ref :=
  match at_ doc p with
  | Some n => (fun i => i :: p) <$> seq 0 (length (kids n))
  | None => []
  end.

Definition block_kids (p : ref) : list ref :=
  filter (fun c => match nodeName c with Some n => isBlock n | None => false end = true) (children p).

(** src/experiments/repl/src/main/webapp/slidy/slidy.js:2638-2654
    [foldable(item)] *)
Definition foldable (item : ref) : bool :=
  match nodeName item with
  | None => false
  | Some _ =>
      existsb (fun c => match nodeName c with Some n => isBlock n | None => false end) (children item)
  end.

Definition fold_child (o : outl) (c : ref) : outl :=
  Outl (cls o) (<[c := js "none"]> (disp o)) (<[c := false]> (vis o)) (<[c := computed o c]> (saved o))
       (visible o) (can_fold o) (tabindex o) (outline o).

(** src/experiments/repl/src/main/webapp/slidy/slidy.js:2656-2680
    [fold(item)] *)
Definition fold (item : ref) (o : outl) : outl :=
  let o := set_cls item (Classes.removeClass (get_cls o item) (js "unfolded")) o in
  let o := set_cls item (Classes.addClass (get_cls o item) (js "folded")) o in
  set_visible item false (fold_left fold_child (block_kids item) o).

(** [node.display ? node.display : "block"] *)
Definition shown_display (o : outl) (c : ref) : jstring :=
  match saved o !! c with
  | Some ((_ :: _) as d) => d
  | _ => js "block"
  end.

Definition unfold_child (o : outl) (c : ref) : outl :=
  Outl (cls o) (<[c := shown_display o c]> (disp o)) (<[c := true]> (vis o)) (saved o)
       (visible o) (can_fold o) (tabindex o) (outline o).

(** src/experiments/repl/src/main/webapp/slidy/slidy.js:2682-2705
    [unfold(item)] *)
Definition unfold (item : ref) (o : outl) : outl :=
  let o := set_cls item (Classes.addClass (get_cls o item) (js "unfolded")) o in
  let o := set_cls item (Classes.removeClass (get_cls o item) (js "folded")) o in
  set_visible item true (fold_left unfold_child (block_kids item) o).

(** ** The start *)

(** The elements of a name, in document order: [getElementsByTagName]. *)
Definition elements (name : jstring) : list ref :=
  filter (fun p => bool_decide (nodeName p = Some name) = true) (pre doc []).

(** src/experiments/repl/src/main/webapp/slidy/slidy.js:2602-2635
    a round of the loop of [initOutliner]: an item of an outline. *)
Definition init_item (o : outl) (target : ref) : outl :=
  match parentNode target with
  | None => o
  | Some parent =>
      if negb (Classes.hasClass (get_cls o parent) (js "outline")) then o
      else if foldable target then
        let o := set_can_fold target true o in
        let o := match tabindex o !! target with
                 | Some (_ :: _) => o
                 | _ => set_tabindex target (js "0") o
                 end in
        if Classes.hasClass (get_cls o target) (js "expand") then unfold target o else fold target o
      else
        let o := set_cls target (Classes.addClass (get_cls o target) (js "nofold")) o in
        let o := set_visible target true o in
        set_can_fold target false o
  end.

(** src/experiments/repl/src/main/webapp/slidy/slidy.js:2596-2636
    [initOutliner] *)
Definition initOutliner (o : outl) : outl := fold_left init_item (elements (js "LI")) o.

(** ** Events *)

(** Away from a text node, to its parent. *)
Definition event_target (target : ref) : ref :=
  match kind_of <$> at_ doc target with
  | Some (KText _) => default target (parentNode target)
  | _ => target
  end.

(** [while (target && target.visible == undefined) target = target.parentNode] *)
Fixpoint with_visible (o : outl) (target : ref) : option ref :=
  if is_some (visible o !! target) then Some target
  else match target with [] => None | _ :: p => with_visible o p end.

(** src/experiments/repl/src/main/webapp/slidy/slidy.js:2707-2751
    [outlineClick(e)]: whether the event goes on to its default action, and the
    new state. *)
Definition outlineClick (target : ref) (rightclick : bool) (o : outl) : bool * outl :=
  match with_visible o (event_target target) with
  | None => (true, o)
  | Some item =>
      if rightclick then (false, o)
      else
        match can_fold o !! item, visible o !! item with
        | Some true, Some true => (false, fold item o)
        | Some true, _ => (false, unfold item o)
        | _, _ => (false, o)
        end
  end.

(** src/experiments/repl/src/main/webapp/slidy/slidy.js:896-907
    the key Enter in [keyDown]: the outline with the focus is folded or
    unfolded; [false] when there is none. *)
Definition enter_key (o : outl) : bool * outl :=
  match outline o with
  | None => (false, o)
  | Some item =>
      (true, match visible o !! item with Some true => fold item o | _ => unfold item o end)
  end.

(** What the user does to the outlines: clicks, the key Enter, and moving the
    focus, which only foldable items take. *)
Inductive event := Click (target : ref) (rightclick : bool) | Enter | OnFocus (item : ref) | OnBlur.

(** src/experiments/repl/src/main/webapp/slidy/slidy.js:2617-2618
    [onfocus] and [onblur] are only set on foldable items. *)
Definition handle (o : outl) (e : event) : outl :=
  match e with
  | Click t r => (outlineClick t r o).2
  | Enter => (enter_key o).2
  | OnFocus item => match can_fold o !! item with Some true => set_outline (Some item) o | _ => o end
  | OnBlur => set_outline None o
  end.

(** ** Lemmas *)
Lemma block_kids_below p c : c ∈ block_kids p -> exists i, c = i :: p.
Proof.
  unfold block_kids, children. intros [_ Hc]%list_elem_of_filter.
  destruct (at_ doc p); [|by apply elem_of_nil in Hc].
  apply list_elem_of_fmap in Hc as (i & -> & _). by exists i.
Qed.

Lemma block_kids_nodup p : NoDup (block_kids p).
Proof.
  unfold block_kids, children. apply NoDup_filter. destruct (at_ doc p); [|constructor].
  apply NoDup_fmap_2; [|apply NoDup_seq]. by intros ? ? [= ->].
Qed.

Lemma foldable_iff p : nodeName p <> None -> foldable p = true <-> block_kids p <> [].
Proof.
  unfold foldable, block_kids. destruct (nodeName p); [intros _|done].
  induction (children p) as [|c k IH]; simpl; [split; done|]. rewrite filter_cons.
  destruct (match nodeName c with Some n => isBlock n | None => false end) eqn:Ec.
  - by rewrite decide_True.
  - rewrite decide_False by done. done.
Qed.

(** Folding and unfolding the children touches them and nothing else. *)
Lemma fold_children_spec l o :
  NoDup l ->
  let o' := fold_left fold_child l o in
  cls o' = cls o /\ visible o' = visible o /\ can_fold o' = can_fold o /\ tabindex o' = tabindex o
  /\ outline o' = outline o
  /\ forall c, (c ∈ l -> disp o' !! c = Some (js "none") /\ vis o' !! c = Some false)
               /\ (c ∉ l -> disp o' !! c = disp o !! c /\ vis o' !! c = vis o !! c
                            /\ saved o' !! c = saved o !! c).
Proof.
  intros Hl. cbv zeta. revert o. induction Hl as [|x l' Hx Hl IH]; intros o; simpl.
  { split_and!; try done. intros c. split; [by intros ?%elem_of_nil | done]. }
  destruct (IH (fold_child o x)) as (-> & -> & -> & -> & -> & H).
  split_and!; try done. intros c. destruct (H c) as [Hin Hout]. split.
  - intros Hc. destruct (decide (c ∈ l')) as [|Hn]; [by apply Hin|].
    apply elem_of_cons in Hc as [->|]; [|done]. destruct (Hout Hn) as (-> & -> & _). simpl.
    by rewrite !lookup_insert_eq.
  - intros [Hcx Hn]%not_elem_of_cons. destruct (Hout Hn) as (-> & -> & ->). simpl.
    by rewrite !lookup_insert_ne.
Qed.

Lemma unfold_children_spec l o :
  NoDup l ->
  let o' := fold_left unfold_child l o in
  cls o' = cls o /\ visible o' = visible o /\ can_fold o' = can_fold o /\ tabindex o' = tabindex o
  /\ outline o' = outline o /\ saved o' = saved o
  /\ forall c, (c ∈ l -> disp o' !! c = Some (shown_display o c) /\ vis o' !! c = Some true)
               /\ (c ∉ l -> disp o' !! c = disp o !! c /\ vis o' !! c = vis o !! c).
Proof.
  intros Hl. cbv zeta. revert o. induction Hl as [|x l' Hx Hl IH]; intros o; simpl.
  { split_and!; try done. intros c. split; [by intros ?%elem_of_nil | done]. }
  destruct (IH (unfold_child o x)) as (-> & -> & -> & -> & -> & -> & H).
  split_and!; try done. intros c. destruct (H c) as [Hin Hout]. split.
  - intros Hc. destruct (decide (c ∈ l')) as [Hin'|Hn].
    { destruct (Hin Hin') as [-> ->]. done. }
    apply elem_of_cons in Hc as [->|]; [|done]. destruct (Hout Hn) as (-> & ->). simpl.
    by rewrite !lookup_insert_eq.
  - intros [Hcx Hn]%not_elem_of_cons. destruct (Hout Hn) as (-> & ->). simpl.
    by rewrite !lookup_insert_ne.
Qed.

(** The state of an item and the style of its block level children agree. *)
Definition agrees (o : outl) : Prop :=
  forall p (b : bool), visible o !! p = Some b -> forall c, c ∈ block_kids p ->
    vis o !! c = Some b
    /\ disp o !! c = Some (if b then shown_display o c else js "none").

Lemma kids_apart p q c : c ∈ block_kids p -> p <> q -> c ∉ block_kids q.
Proof.
  intros (i & ->)%block_kids_below Hpq (j & Hj)%block_kids_below. by simplify_eq.
Qed.

Lemma fold_agrees p o : agrees o -> agrees (fold p o).
Proof.
  intros Ho q b Hq c Hc. unfold fold in *.
  match goal with |- context [fold_left fold_child _ ?x] => set (o1 := x) in * end.
  destruct (fold_children_spec (block_kids p) o1 (block_kids_nodup p)) as (_ & Hv & _ & _ & _ & H).
  unfold set_visible in *. cbn [visible vis disp saved] in *. rewrite Hv in Hq.
  destruct (H c) as [Hin Hout]. destruct (decide (p = q)) as [->|Hpq].
  - rewrite lookup_insert_eq in Hq. simplify_eq. by destruct (Hin Hc) as [-> ->].
  - rewrite lookup_insert_ne in Hq by done.
    destruct Hout as (H1 & H2 & H3); [by eapply kids_apart|].
    destruct (Ho q b Hq c Hc) as [Hvis Hdisp]. unfold shown_display in *. cbn [saved].
    by rewrite H1, H2, H3.
Qed.

Lemma unfold_agrees p o : agrees o -> agrees (unfold p o).
Proof.
  intros Ho q b Hq c Hc. unfold unfold in *.
  match goal with |- context [fold_left unfold_child _ ?x] => set (o1 := x) in * end.
  destruct (unfold_children_spec (block_kids p) o1 (block_kids_nodup p)) as (_ & Hv & _ & _ & _ & Hs & H).
  unfold set_visible in *. unfold shown_display. cbn [visible vis disp saved] in *. rewrite Hv in Hq.
  rewrite Hs. destruct (H c) as [Hin Hout]. destruct (decide (p = q)) as [->|Hpq].
  - rewrite lookup_insert_eq in Hq. simplify_eq. by destruct (Hin Hc) as [-> ->].
  - rewrite lookup_insert_ne in Hq by done.
    destruct Hout as (H1 & H2); [by eapply kids_apart|].
    destruct (Ho q b Hq c Hc) as [Hvis Hdisp]. by rewrite H1, H2.
Qed.

Lemma init_agrees o target : nodeName target <> None -> agrees o -> agrees (init_item o target).
Proof.
  intros Hn Ho. unfold init_item. destruct (parentNode target); [|done].
  destruct (negb _); [done|]. destruct (foldable target) eqn:Ef.
  - destruct (Classes.hasClass _ _); [apply unfold_agrees | apply fold_agrees]; by repeat case_match.
  - intros p b Hp c Hc. unfold set_can_fold, set_visible, set_cls in *. cbn in Hp.
    destruct (decide (target = p)) as [->|Hne].
    + apply not_true_iff_false in Ef. rewrite foldable_iff in Ef by done.
      destruct (block_kids p); [by apply elem_of_nil in Hc | by destruct Ef].
    + rewrite lookup_insert_ne in Hp by done. by apply (Ho p b Hp c Hc).
Qed.

Lemma initOutliner_agrees o : visible o = ∅ -> agrees (initOutliner o).
Proof.
  intros Hv. assert (agrees o) as Ho by (intros p b Hp; by rewrite Hv, lookup_empty in Hp).
  unfold initOutliner. assert (Forall (fun p => nodeName p <> None) (elements (js "LI"))) as Hl.
  { apply Forall_forall. intros p [Hp%bool_decide_eq_true _]%list_elem_of_filter. by rewrite Hp. }
  clear Hv. revert o Ho. induction Hl as [|p l Hp Hl IH]; intros o Ho; [done|]. by apply IH, init_agrees.
Qed.

(** *** What is shown *)

(** No style sheet hides a block level child: the computed display is [none] only
    where the inline one is. *)
Definition not_hidden : Prop :=
  forall o p c, c ∈ block_kids p -> disp o !! c <> Some (js "none") -> computed o c <> js "none".

(** The children of items that are not folded are not hidden, and no saved display
    hides them. *)
Definition revealable (o : outl) : Prop :=
  (forall p c, c ∈ block_kids p -> visible o !! p <> Some false -> disp o !! c <> Some (js "none"))
  /\ forall c, saved o !! c <> Some (js "none").

Lemma fold_children_revealable l o p :
  not_hidden -> NoDup l -> (forall c, c ∈ l -> c ∈ block_kids p /\ disp o !! c <> Some (js "none")) ->
  (forall c, saved o !! c <> Some (js "none")) ->
  forall c, saved (fold_left fold_child l o) !! c <> Some (js "none").
Proof.
  intros Hh Hl. revert o. induction Hl as [|x l' Hx Hl IH]; intros o Hd Hs; [done|]. simpl. apply IH.
  - intros c Hc. destruct (Hd c) as [H1 H2]; [by right|]. split; [done|]. simpl.
    rewrite lookup_insert_ne; [done|]. by intros ->.
  - intros c. simpl. destruct (decide (x = c)) as [->|Hne]; [|by rewrite lookup_insert_ne].
    rewrite lookup_insert_eq. intros [= E]. destruct (Hd c ltac:(left)) as [H1 H2]. by apply (Hh o p c).
Qed.

Lemma fold_revealable p o :
  not_hidden -> revealable o -> visible o !! p <> Some false -> revealable (fold p o).
Proof.
  intros Hh [Hd Hs] Hp. unfold fold.
  match goal with |- context [fold_left fold_child _ ?x] => set (o1 := x) in * end.
  destruct (fold_children_spec (block_kids p) o1 (block_kids_nodup p)) as (_ & Hv & _ & _ & _ & H). split.
  - intros q c Hc. unfold set_visible. cbn [visible disp]. rewrite Hv.
    destruct (decide (p = q)) as [->|Hpq]; [by rewrite lookup_insert_eq|]. rewrite lookup_insert_ne by done.
    destruct (H c) as [_ Hout]. destruct Hout as (H1 & _ & _); [by eapply kids_apart|]. rewrite H1. by apply Hd.
  - cbn [set_visible saved]. apply (fold_children_revealable _ _ p Hh (block_kids_nodup p)); [|done].
    intros c Hc. split; [done|]. by apply (Hd p).
Qed.

Lemma shown_display_none o c : saved o !! c <> Some (js "none") -> shown_display o c <> js "none".
Proof. unfold shown_display. intros H E. destruct (saved o !! c) as [[|x d]|] eqn:Es; try done. by rewrite E in H. Qed.

Lemma unfold_revealable p o : revealable o -> revealable (unfold p o).
Proof.
  intros [Hd Hs]. unfold unfold.
  match goal with |- context [fold_left unfold_child _ ?x] => set (o1 := x) in * end.
  destruct (unfold_children_spec (block_kids p) o1 (block_kids_nodup p)) as (_ & Hv & _ & _ & _ & Hsv & H). split.
  - intros q c Hc. unfold set_visible. cbn [visible disp]. rewrite Hv. destruct (H c) as [Hin Hout].
    destruct (decide (p = q)) as [->|Hpq].
    + intros _. destruct (Hin Hc) as [-> _]. intros [= E]. by apply (shown_display_none o1 c (Hs c)).
    + rewrite lookup_insert_ne by done. destruct Hout as (-> & _); [by eapply kids_apart|]. by apply Hd.
  - intros c. cbn [set_visible saved]. rewrite Hsv. apply Hs.
Qed.

Lemma init_revealable o target :
  not_hidden -> nodeName target <> None -> visible o !! target <> Some false -> revealable o ->
  revealable (init_item o target).
Proof.
  intros Hh Hn Hv Ho. unfold init_item. destruct (parentNode target); [|done].
  destruct (negb _); [done|]. destruct (foldable target) eqn:Ef.
  - destruct (Classes.hasClass _ _); [apply unfold_revealable | apply fold_revealable]; try done; by repeat case_match.
  - destruct Ho as [Hd Hs]. split; [|done]. intros p c Hc. cbn [set_can_fold set_visible set_cls visible disp].
    destruct (decide (target = p)) as [->|Hne]; [|rewrite lookup_insert_ne by done; by apply Hd].
    apply not_true_iff_false in Ef. rewrite foldable_iff in Ef by done.
    destruct (block_kids p); [by apply elem_of_nil in Hc | by destruct Ef].
Qed.

(** Only its item is marked in a round. *)
Lemma init_visible o target p : p <> target -> visible (init_item o target) !! p = visible o !! p.
Proof.
  intros Hp. unfold init_item, fold, unfold. destruct (parentNode target); [|done]. destruct (negb _); [done|].
  destruct (foldable target); [|cbn; by rewrite lookup_insert_ne].
  destruct (Classes.hasClass _ _); cbn [set_visible visible]; rewrite lookup_insert_ne by done;
    [match goal with |- context [fold_left unfold_child ?l ?x] =>
       destruct (unfold_children_spec l x (block_kids_nodup target)) as (_ & -> & _) end
    |match goal with |- context [fold_left fold_child ?l ?x] =>
       destruct (fold_children_spec l x (block_kids_nodup target)) as (_ & -> & _) end]; by repeat case_match.
Qed.

Lemma initOutliner_revealable o :
  not_hidden -> visible o = ∅ -> revealable o -> revealable (initOutliner o).
Proof.
  intros Hh Hv Ho. unfold initOutliner.
  assert (Forall (fun p => nodeName p <> None) (elements (js "LI"))) as Hl.
  { apply Forall_forall. intros p [Hp%bool_decide_eq_true _]%list_elem_of_filter. by rewrite Hp. }
  assert (NoDup (elements (js "LI"))) as Hnd by apply NoDup_filter, NoDup_pre.
  assert (forall p, p ∈ elements (js "LI") -> visible o !! p <> Some false) as Hf
    by (intros p _; by rewrite Hv, lookup_empty).
  clear Hv. revert o Ho Hf. induction Hl as [|p l Hp Hl IH]; intros o Ho Hf; [done|]. simpl.
  apply NoDup_cons in Hnd as [Hpl Hnd]. apply IH; [done | apply init_revealable; [done..| |done]; apply Hf; left|].
  intros q Hq. rewrite init_visible by (intros ->; done). apply Hf. by right.
Qed.

Lemma handle_agrees o e : agrees o -> agrees (handle o e).
Proof.
  intros Ho. destruct e as [t r| |p|]; simpl.
  - unfold outlineClick. repeat case_match; simpl; auto using fold_agrees, unfold_agrees.
  - unfold enter_key. repeat case_match; simpl; auto using fold_agrees, unfold_agrees.
  - repeat case_match; done.
  - done.
Qed.

Lemma handle_revealable o e : not_hidden -> revealable o -> revealable (handle o e).
Proof.
  intros Hh Ho. destruct e as [t r| |p|]; simpl.
  - unfold outlineClick. repeat case_match; simpl; auto using unfold_revealable.
    apply fold_revealable; [done..|]. congruence.
  - unfold enter_key. repeat case_match; simpl; auto using unfold_revealable.
    apply fold_revealable; [done..|]. congruence.
  - repeat case_match; done.
  - done.
Qed.

(** C11: On a page whose style sheets hide no block level child of an item, and with
    no such child hidden at the start: through any clicks, keys and moves of the
    focus, the block level children of every item of an outline are shown, that is
    visible and displayed, exactly when the item counts as unfolded. *)
Theorem outline_consistent o events :
  not_hidden -> visible o = ∅ -> saved o = ∅ ->
  (forall p c, c ∈ block_kids p -> disp o !! c <> Some (js "none")) ->
  let o' := fold_left handle events (initOutliner o) in
  forall p (unfolded : bool), visible o' !! p = Some unfolded -> forall c, c ∈ block_kids p ->
    vis o' !! c = Some unfolded
    /\ exists d, disp o' !! c = Some d /\ (d <> js "none" <-> unfolded = true).
Proof.
  intros Hh Hv Hs Hd o'. assert (agrees o' /\ revealable o') as [Ha Hr].
  { unfold o'. assert (revealable o) as Hr0 by (split; [eauto | intros c; by rewrite Hs, lookup_empty]).
    generalize (initOutliner_agrees o Hv) (initOutliner_revealable o Hh Hv Hr0). generalize (initOutliner o).
    clear - Hh. induction events as [|e es IH]; intros o Ho Hr; [done|].
    apply IH; [by apply handle_agrees | by apply handle_revealable]. }
  intros p b Hb c Hc. destruct (Ha p b Hb c Hc) as [H1 H2]. split; [done|]. eexists. split; [exact H2|].
  destruct b; split; try done. intros _. apply shown_display_none, Hr.
Qed.

(** A child that a style sheet hides when its item is folded for the first time
    stays hidden: [fold] saves the display that it computes, and unfolding writes
    [none] although the item then counts as unfolded. *)
Theorem hidden_child_stays item c o :
  c ∈ block_kids item -> (forall o', computed o' c = js "none") ->
  visible (unfold item (fold item o)) !! item = Some true
  /\ disp (unfold item (fold item o)) !! c = Some (js "none").
Proof.
  intros Hc Hn. unfold unfold, fold.
  match goal with |- context [fold_left fold_child _ ?x] => set (o1 := x) end.
  match goal with |- context [fold_left unfold_child _ ?x] => set (o2 := x) end.
  destruct (unfold_children_spec (block_kids item) o2 (block_kids_nodup item)) as (_ & Hv & _ & _ & _ & _ & H).
  cbn [set_visible visible disp]. split; [by rewrite lookup_insert_eq|].
  destruct (H c) as [Hin _]. destruct (Hin Hc) as [-> _]. f_equal.
  assert (saved o2 !! c = Some (js "none")) as E.
  { subst o2. unfold set_cls, set_visible. cbn [saved]. clear H Hv Hin. generalize o1 (block_kids_nodup item). clear o1.
    induction (block_kids item) as [|x l IH]; intros o1 Hnd; [by apply elem_of_nil in Hc|]. simpl.
    apply NoDup_cons in Hnd as [Hx Hnd]. destruct (decide (c = x)) as [->|Hne]; [|apply IH; set_solver].
    destruct (fold_children_spec l (fold_child o1 x) Hnd) as (_ & _ & _ & _ & _ & H).
    destruct (H x) as [_ Hout]. destruct (Hout Hx) as (_ & _ & ->). simpl. by rewrite lookup_insert_eq, Hn. }
  unfold shown_display. by rewrite E.
Qed.

(** The mark in the class attribute of an item. *)
Definition marked (base : jstring) (b : bool) : jstring :=
  base ++ c_space :: js (if b then "unfolded" else "folded").

Definition unmarked (base : jstring) : Prop :=
  Classes.hasClass base (js "folded") = false /\ Classes.hasClass base (js "unfolded") = false.

Lemma fold_mark base :
  unmarked base ->
  Classes.addClass (Classes.removeClass (marked base true) (js "unfolded")) (js "folded")
  = marked base false.
Proof.
  intros [H1 H2]. assert (marked base true = Classes.addClass base (js "unfolded")) as ->
    by (unfold Classes.addClass; by rewrite H2).
  rewrite (proj1 (Classes.removeClass_added base (js "unfolded")
    ltac:(by apply (bool_decide_unpack _); vm_compute) ltac:(done) H2)).
  unfold Classes.addClass. by rewrite H1.
Qed.

Lemma unfold_mark base :
  unmarked base ->
  Classes.removeClass (Classes.addClass (marked base false) (js "unfolded")) (js "folded")
  = marked base true.
Proof.
  intros [H1 H2]. unfold Classes.addClass, marked.
  rewrite Classes.hasClass_app, H2 by (done || by apply (bool_decide_unpack _); vm_compute).
  change (Classes.hasClass (js "folded") (js "unfolded")) with false. cbn [orb].
  rewrite <- app_assoc. cbn [app]. unfold Classes.removeClass, Classes.hasClass in *.
  rewrite Classes.match_class_added
    by (done || (by destruct (Classes.match_class true (js "folded") base)) || by apply (bool_decide_unpack _); vm_compute).
  reflexivity.
Qed.

(** What is used of the browser: an inline [display] is the computed one. *)
Hypothesis computed_inline : forall o c d, disp o !! c = Some d -> d <> [] -> computed o c = d.

Lemma shown_display_nonempty o c : shown_display o c <> [].
Proof. unfold shown_display. destruct (saved o !! c) as [[|]|]; done. Qed.

(** The children's display is saved by [fold]. *)
Lemma fold_children_saved l o c :
  NoDup l -> c ∈ l -> (forall d, disp o !! c = Some d -> d <> [] ->
    saved (fold_left fold_child l o) !! c = Some d).
Proof.
  intros Hl Hc d Hd Hne. revert o Hd. induction Hl as [|x l' Hx Hl IH]; intros o Hd; [by apply elem_of_nil in Hc|].
  simpl. destruct (decide (c = x)) as [->|Hcx].
  - destruct (fold_children_spec l' (fold_child o x) Hl) as (_ & _ & _ & _ & _ & H).
    destruct (H x) as [_ Hout]. destruct (Hout Hx) as (_ & _ & ->). simpl. rewrite lookup_insert_eq.
    f_equal. by apply computed_inline.
  - apply IH; [set_solver|]. simpl. by rewrite lookup_insert_ne.
Qed.

Lemma fold_spec item o :
  let o' := fold item o in
  cls o' = <[item := Classes.addClass (Classes.removeClass (get_cls o item) (js "unfolded")) (js "folded")]> (cls o)
  /\ visible o' = <[item := false]> (visible o)
  /\ can_fold o' = can_fold o /\ tabindex o' = tabindex o /\ outline o' = outline o
  /\ forall c, (c ∈ block_kids item -> forall d, disp o !! c = Some d -> d <> [] -> saved o' !! c = Some d)
               /\ (c ∉ block_kids item -> disp o' !! c = disp o !! c /\ vis o' !! c = vis o !! c).
Proof.
  cbv zeta. unfold fold. pose proof (block_kids_nodup item) as Hn.
  match goal with |- context [fold_left fold_child _ ?x] => set (o1 := x) in * end.
  destruct (fold_children_spec (block_kids item) o1 Hn) as (Hc & Hv & Hf & Ht & Ho & H).
  unfold set_visible. cbn [cls visible can_fold tabindex outline disp vis saved].
  rewrite Hc, Hv, Hf, Ht, Ho. split_and!; try done.
  - subst o1. unfold set_cls, get_cls. cbn [cls]. by rewrite lookup_insert_eq, insert_insert_eq.
  - intros c. split.
    + intros Hin d Hd Hne. by apply fold_children_saved.
    + intros Hnot. destruct (H c) as [_ Hout]. destruct (Hout Hnot) as (-> & -> & _). done.
Qed.

Lemma unfold_spec item o :
  let o' := unfold item o in
  cls o' = <[item := Classes.removeClass (Classes.addClass (get_cls o item) (js "unfolded")) (js "folded")]> (cls o)
  /\ visible o' = <[item := true]> (visible o)
  /\ can_fold o' = can_fold o /\ tabindex o' = tabindex o /\ outline o' = outline o
  /\ forall c, (c ∈ block_kids item -> disp o' !! c = Some (shown_display o c) /\ vis o' !! c = Some true)
               /\ (c ∉ block_kids item -> disp o' !! c = disp o !! c /\ vis o' !! c = vis o !! c).
Proof.
  cbv zeta. unfold unfold. pose proof (block_kids_nodup item) as Hn.
  match goal with |- context [fold_left unfold_child _ ?x] => set (o1 := x) in * end.
  destruct (unfold_children_spec (block_kids item) o1 Hn) as (Hc & Hv & Hf & Ht & Ho & Hs & H).
  unfold set_visible. cbn [cls visible can_fold tabindex outline disp vis saved].
  rewrite Hc, Hv, Hf, Ht, Ho. split_and!; try done.
  subst o1. unfold set_cls, get_cls. cbn [cls]. by rewrite lookup_insert_eq, insert_insert_eq.
Qed.

(** Folding an unfolded item and unfolding it again restores the page: every
    class, inline style and flag is as before; only the saved displays may
    differ. *)
Theorem toggle_twice o item base :
  agrees o -> visible o !! item = Some true ->
  cls o !! item = Some (marked base true) -> unmarked base ->
  exists saved', unfold item (fold item o)
    = Outl (cls o) (disp o) (vis o) saved' (visible o) (can_fold o) (tabindex o) (outline o).
Proof.
  intros Ho Hv Hc Hb.
  destruct (fold_spec item o) as (F1 & F2 & F3 & F4 & F5 & F6).
  destruct (unfold_spec item (fold item o)) as (U1 & U2 & U3 & U4 & U5 & U6).
  exists (saved (unfold item (fold item o))).
  rewrite F1 in U1. rewrite F2 in U2. rewrite F3 in U3. rewrite F4 in U4. rewrite F5 in U5.
  assert (get_cls o item = marked base true) as Hg by (unfold get_cls; by rewrite Hc).
  assert (get_cls (fold item o) item = marked base false) as Hg'
    by (unfold get_cls; by rewrite F1, lookup_insert_eq, Hg; apply fold_mark).
  rewrite Hg, Hg', fold_mark, unfold_mark in U1 by done.
  rewrite insert_insert_eq, insert_id in U1 by done. rewrite insert_insert_eq, insert_id in U2 by done.
  destruct (unfold item (fold item o)) as [c d v s vi cf ti ou]; cbn [cls disp vis saved visible can_fold tabindex outline] in *.
  subst. f_equal; apply map_eq; intros k; destruct (U6 k) as [Uin Uout], (F6 k) as [Fin Fout];
    (destruct (decide (k ∈ block_kids item)) as [Hk|Hk];
      [destruct (Uin Hk) as [Hd' Hv'], (Ho item true Hv k Hk) as [Hkv Hkd]
      |destruct (Uout Hk) as [Hd' Hv'], (Fout Hk) as [Hd2 Hv2]; congruence]).
  - rewrite Hd', Hkd. f_equal. unfold shown_display at 1.
    rewrite (Fin Hk _ Hkd (shown_display_nonempty o k)). pose proof (shown_display_nonempty o k).
    by destruct (shown_display o k).
  - congruence.
Qed.
End outline.

(** ** Witnesses *)
Definition el (n : string) (ks : list node) : node := Node (KElem (js n)) ks.
Definition outline_doc : node :=
  Node KOther [el "UL" [el "LI" [Node (KText (js "one")) []; el "UL" [el "LI" [Node (KText (js "two")) []]]]]].
Definition computed1 (o : outl) (c : ref) : jstring :=
  match disp o !! c with Some ((_ :: _) as d) => d | _ => js "list-item" end.
Definition outl1 : outl :=
  Outl {[ [0%nat] := js "outline"; [0; 0]%nat := js "item expand" ]} ∅ ∅ ∅ ∅ ∅ ∅ None.

(** Clicking on an unfolded item hides its list; the key Enter shows it again. *)
Lemma outline_consistent_witness :
  let run es := fold_left (handle outline_doc computed1) es (initOutliner outline_doc computed1 outl1) in
  visible (run [Click [0; 0; 0]%nat false]) !! [0; 0]%nat = Some false
  /\ (exists d, disp (run [Click [0; 0; 0]%nat false]) !! [1; 0; 0]%nat = Some d
       /\ (d <> js "none" <-> false = true))
  /\ visible (run [Click [0; 0; 0]%nat false; OnFocus [0; 0]%nat; Enter]) !! [0; 0]%nat = Some true
  /\ (exists d, disp (run [Click [0; 0; 0]%nat false; OnFocus [0; 0]%nat; Enter]) !! [1; 0; 0]%nat = Some d
       /\ (d <> js "none" <-> true = true)).
Proof.
  assert (forall es b, visible (fold_left (handle outline_doc computed1) es
            (initOutliner outline_doc computed1 outl1)) !! [0; 0]%nat = Some b ->
          exists d, disp (fold_left (handle outline_doc computed1) es
            (initOutliner outline_doc computed1 outl1)) !! [1; 0; 0]%nat = Some d /\ (d <> js "none" <-> b = true)) as H.
  { intros es b Hb.
    refine (proj2 (outline_consistent outline_doc computed1 outl1 es _ eq_refl eq_refl _ [0; 0]%nat b Hb [1; 0; 0]%nat _)).
    - intros o p c _ Hn E. apply Hn. unfold computed1 in E.
      destruct (disp o !! c) as [[|]|]; [discriminate E | by rewrite E | discriminate E].
    - intros p c _. cbn [disp outl1]. by rewrite lookup_empty.
    - by decided. }
  cbv zeta. split; [vm_compute; reflexivity|]. split; [apply H; vm_compute; reflexivity|].
  split; [vm_compute; reflexivity | apply H; vm_compute; reflexivity].
Defined.

Lemma hidden_child_stays_witness :
  disp (unfold outline_doc [0; 0]%nat (fold outline_doc (fun _ _ => js "none") [0; 0]%nat outl1)) !! [1; 0; 0]%nat
  = Some (js "none").
Proof.
  refine (proj2 (hidden_child_stays outline_doc (fun _ _ => js "none") [0; 0]%nat [1; 0; 0]%nat outl1 _ (fun _ => eq_refl))).
  by decided.
Defined.

Lemma toggle_twice_witness :
  let o := initOutliner outline_doc computed1 outl1 in
  cls o !! [0; 0]%nat = Some (js "item expand unfolded")
  /\ exists saved', unfold outline_doc [0; 0]%nat (fold outline_doc computed1 [0; 0]%nat o)
    = Outl (cls o) (disp o) (vis o) saved' (visible o) (can_fold o) (tabindex o) (outline o).
Proof.
  split; [vm_compute; reflexivity|]. apply (toggle_twice outline_doc computed1) with (base := js "item expand").
  - intros o c d Hd Hne. unfold computed1. rewrite Hd. by destruct d.
  - by apply initOutliner_agrees.
  - vm_compute; reflexivity.
  - vm_compute; reflexivity.
  - split; vm_compute; reflexivity.
Defined.
End Outline.
