(* ===== verification/Contents.v ===== *)
(** * Table of contents, headings and the toolbar

    What slidy.js builds at the start: the name of each slide, taken from its
    first heading, the table of contents with a link to every slide, and the
    toolbar; and what it reads from the [meta] elements. *)
From S2P Require Import Prelude JsString Dom Slides Location Localize.

Module Contents.
Import Dom Slides.

(** ** Text *)

(** src/experiments/repl/src/main/webapp/slidy/slidy.js:2059-2079
    [findHeading(node)] *)
Fixpoint findHeading (n : node) : option node :=
  match n with
  | Node (KElem name) ks =>
      if bool_decide (name = js "H1") || bool_decide (name = js "h1") then Some n
      else
        (fix go (ks : list node) : option node :=
           match ks with
           | [] => None
           | k :: ks => match findHeading k with Some h => Some h | None => go ks end
           end) ks
  | _ => None
  end.

(** src/experiments/repl/src/main/webapp/slidy/slidy.js:2082-2107
    [extractText(node)] *)
Fixpoint extractText (n : node) : jstring :=
  match n with
  | Node (KText v) _ => v
  | Node (KElem _) ks =>
      (fix go (text : jstring) (ks : list node) : jstring :=
         match ks with [] => text | k :: ks => go (text ++ extractText k) ks end) [] ks
  | Node KOther _ => []
  end.

(** The nodes of a subtree in document order, without what is below a node that
    is not an element. *)
Fixpoint flat (n : node) : list node :=
  match n with
  | Node (KElem _) ks => n :: flat_map flat ks
  | _ => [n]
  end.

Definition text_of (n : node) : jstring := match kind_of n with KText v => v | _ => [] end.

(** The text of a node is the concatenation of the texts below it, in document
    order. *)
Lemma extractText_flat n : extractText n = concat (map text_of (flat n)).
Proof.
  induction n as [k ks IH] using node_nested_ind. destruct k as [name|v|]; [|by cbn; rewrite app_nil_r|done].
  cbn [extractText flat]. cbn [map concat]. change (text_of (Node (KElem name) ks)) with ([] : jstring).
  generalize ([] : jstring) as text. induction IH as [|k ks Hk _ IH]; intros text; [by rewrite app_nil_r|].
  rewrite IH. cbn [flat_map]. by rewrite map_app, concat_app, Hk, app_assoc.
Qed.

(** The heading is the first [h1] in document order. *)
Lemma findHeading_flat n : findHeading n = head (filter (fun m => is_h1 m = true) (flat n)).
Proof.
  induction n as [k ks IH] using node_nested_ind. destruct k as [name|v|]; [|done|done].
  cbn [findHeading flat]. rewrite filter_cons.
  assert (is_h1 (Node (KElem name) ks) = bool_decide (name = js "H1") || bool_decide (name = js "h1")) as Hh.
  { apply eq_true_iff_eq. unfold is_h1, named. cbn [kind_of].
    rewrite orb_true_iff, !bool_decide_eq_true. set_solver. }
  rewrite <- Hh. destruct (is_h1 (Node (KElem name) ks)) eqn:E; [by rewrite decide_True|].
  rewrite decide_False by done. clear Hh E.
  induction IH as [|k ks Hk _ IH]; [done|]. cbn [flat_map]. rewrite filter_app, Hk, IH.
  by destruct (filter _ (flat k)).
Qed.

(** Headings and their text are found in document order: the heading of a slide
    is the first [h1] below it, and its text the concatenation of the text nodes
    below the heading. *)
Theorem heading_text n :
  findHeading n = head (filter (fun m => is_h1 m = true) (flat n))
  /\ extractText n = concat (map text_of (flat n)).
Proof. split; [apply findHeading_flat | apply extractText_flat]. Qed.

(** ** The [meta] elements *)

(** The attributes [name] and [content] of the [meta] elements. *)
Definition metas := list (option jstring * option jstring).

(** src/experiments/repl/src/main/webapp/slidy/slidy.js:2111-2126
    [findCopyright] *)
Fixpoint findCopyright (meta : metas) : option jstring :=
  match meta with
  | [] => None
  | (name, content) :: meta =>
      if bool_decide (name = Some (js "copyright")) then content else findCopyright meta
  end.

(** [1 * content] for a string: decimal digits with an optional sign between
    white space; the empty string and [null] are 0.  [None] is [NaN].  Fractions,
    exponents and hexadecimal numbers are not read. *)
Definition to_number (content : option jstring) : option Z :=
  match content with
  | None => Some 0
  | Some s =>
      let s := Location.skip_white (reverse (Location.skip_white (reverse s))) in
      let '(sign, ds) := match s with
                         | c :: r => if c =? 45 then (-1, r) else if c =? 43 then (1, r) else (1, s)
                         | [] => (1, s)
                         end in
      if forallb is_digit ds
      then match ds with
           | [] => match s with [] => Some 0 | _ => None end
           | _ => (fun v => sign * v) <$> Location.digits 10 None ds
           end
      else None
  end.

(** src/experiments/repl/src/main/webapp/slidy/slidy.js:2128-2143
    [findSizeAdjust] *)
Fixpoint findSizeAdjust (meta : metas) : option Z :=
  match meta with
  | [] => Some 1
  | (name, content) :: meta =>
      if bool_decide (name = Some (js "font-size-adjustment")) then to_number content
      else findSizeAdjust meta
  end.

(** ** The toolbar *)

(** The parts of the toolbar in the order of the document; [Left] and [Right] are
    the boxes that a browser with good layout gets. *)
Inductive part :=
  | Right (ps : list part) | Left (ps : list part)
  | Eos (text : jstring) | Link (href title text : jstring) | Gap (text : jstring)
  | Span (text : jstring) | Counter (text : jstring).

Definition helpPage : jstring := js "http://www.w3.org/Talks/Tools/Slidy/help.html".

(** src/experiments/repl/src/main/webapp/slidy/slidy.js:2145-2298
    [addToolbar]: what it holds. *)
Definition addToolbar (ns_pos : bool) (lang : jstring) (meta : metas) : list part :=
  let loc s := Localize.localize lang (js s) in
  let counter := Counter (loc "slide"%string ++ js " n/m") in
  let help := Link helpPage (Localize.localize lang Localize.helpText) (loc "help?"%string) in
  let contents := Link (js "javascript:toggleTableOfContents()") (loc "table of contents"%string)
                    (loc "contents?"%string) in
  let start := Link (js "javascript:firstSlide()") (loc "restart presentation"%string)
                 (loc "restart?"%string) in
  let gap := Gap [c_space] in
  let copyright := match findCopyright meta with
                   | Some ((_ :: _) as text) => [Span text]
                   | _ => []
                   end in
  if ns_pos then
    [Right [counter]; Left ([Eos (js "* "); help; gap; contents; gap; start] ++ copyright)]
  else
    [Eos (js "&nbsp;&nbsp;*&nbsp;"); help; gap; contents; gap; start] ++ copyright ++ [counter].

Section contents.
Variables (d : deck) (title lang : jstring).

(** src/experiments/repl/src/main/webapp/slidy/slidy.js:2038-2056
    [slideName(index)]; the three [replace] calls leave [name] as it is.
    [None] is the exception where the slide's node is not there. *)
Definition slideName (index : Z) : jstring :=
  let default_name := title ++ js "(" ++ num_str (index + 1) ++ js ")" in
  match h ← (s ← znth (slides d) index; at_ (doc d) s); findHeading h with
  | Some h => match extractText h with [] => default_name | name => name end
  | None => default_name
  end.

(** ** The table of contents *)

(** An entry: the number before the link, and the link's attributes, class and
    properties. *)
Record entry := Entry {
  e_num : jstring; e_href : jstring; e_class : jstring; e_name : jstring;
  e_previous : option Z; e_next : option Z;   (** indices of other entries *)
  e_br : bool }.                              (** followed by a line break *)

Record toc := Toc { toc_class : jstring; toc_heading : jstring * jstring; entries : list entry }.

Definition toc_href (i : Z) : jstring := js "#(" ++ num_str (i + 1) ++ js ")".

(** A round of the loop of [tableOfContents]; the link [next] of the entry
    before is set when the entry is made. *)
Definition add_entry (es : list entry) (i : Z) (slide : ref) : list entry :=
  let es := match reverse es with
            | [] => []
            | e :: r => reverse (Entry (e_num e) (e_href e) (e_class e) (e_name e) (e_previous e) (Some i) (e_br e) :: r)
            end in
  es ++ [Entry (num_str (i + 1) ++ js ". ") (toc_href i)
           (if Classes.hasClass (class_of d slide) (js "title") then Classes.addClass [] (js "titleslide") else [])
           (slideName i) (if i =? 0 then None else Some (i - 1)) None (i <? zlen (slides d) - 1)].

Fixpoint toc_loop (es : list entry) (i : Z) (l : list ref) : list entry :=
  match l with
  | [] => es
  | s :: l => toc_loop (add_entry es i s) (i + 1) l
  end.

(** src/experiments/repl/src/main/webapp/slidy/slidy.js:2488-2543
    [tableOfContents]: its classes, heading and entries. *)
Definition tableOfContents : toc :=
  Toc (Classes.addClass [] (js "toc"))
      (Classes.addClass [] (js "toc-heading"), Localize.localize lang (js "Table of Contents"))
      (toc_loop [] 0 (slides d)).

(** Entry [i] of a table with [n] entries. *)
Definition entry_at (n i : Z) (slide : ref) : entry :=
  Entry (num_str (i + 1) ++ js ". ") (toc_href i)
    (if Classes.hasClass (class_of d slide) (js "title") then js " titleslide" else [])
    (slideName i) (if i =? 0 then None else Some (i - 1)) (if i =? n - 1 then None else Some (i + 1))
    (i <? zlen (slides d) - 1).

Fixpoint entries_from (n i : Z) (l : list ref) : list entry :=
  match l with [] => [] | s :: l => entry_at n i s :: entries_from n (i + 1) l end.

Lemma entries_from_app n i l k :
  entries_from n i (l ++ k) = entries_from n i l ++ entries_from n (i + zlen l) k.
Proof.
  revert i. induction l as [|s l IH]; intros i; simpl; [by rewrite Z.add_0_r|].
  rewrite IH. do 3 f_equal. rewrite zlen_cons. lia.
Qed.

Lemma entries_from_total n m i l :
  i + zlen l < n -> i + zlen l < m -> entries_from n i l = entries_from m i l.
Proof.
  revert i. induction l as [|s l IH]; intros i Hn Hm; [done|]. rewrite zlen_cons in *.
  pose proof (zlen_nonneg l). simpl. rewrite IH by lia. f_equal. unfold entry_at.
  by rewrite (proj2 (Z.eqb_neq i (n - 1))), (proj2 (Z.eqb_neq i (m - 1))) by lia.
Qed.

Lemma add_entry_entries l s :
  add_entry (entries_from (zlen l) 0 l) (zlen l) s = entries_from (zlen l + 1) 0 (l ++ [s]).
Proof.
  rewrite entries_from_app. unfold add_entry. f_equal.
  - destruct l as [|x l] using rev_ind; [done|]. clear IHl.
    rewrite !entries_from_app, reverse_app. cbn [entries_from]. rewrite reverse_singleton. cbn [app].
    rewrite zlen_app, zlen_cons, zlen_nil. rewrite reverse_cons, reverse_involutive.
    f_equal; [apply entries_from_total; lia|]. unfold entry_at. cbn [e_num e_href e_class e_name e_previous e_br].
    rewrite (proj2 (Z.eqb_neq (0 + zlen l) (zlen l + (1 + 0) + 1 - 1))) by lia.
    done.
  - cbn [entries_from]. unfold entry_at. rewrite Z.add_0_l.
    rewrite (proj2 (Z.eqb_eq (zlen l) (zlen l + 1 - 1))) by lia. by destruct (Classes.hasClass _ _).
Qed.

Lemma toc_loop_entries l k :
  toc_loop (entries_from (zlen l) 0 l) (zlen l) k = entries_from (zlen l + zlen k) 0 (l ++ k).
Proof.
  revert l. induction k as [|s k IH]; intros l; cbn [toc_loop]; [rewrite app_nil_r; f_equal; jslia|].
  rewrite add_entry_entries. replace (zlen l + 1) with (zlen (l ++ [s])) by jslia.
  rewrite IH, <- app_assoc. cbn [app]. f_equal. jslia.
Qed.

Lemma entries_from_lookup n i l k :
  entries_from n i l !! k = entry_at n (i + Z.of_nat k) <$> l !! k.
Proof.
  revert i k. induction l as [|x l IH]; intros i k; [done|]. destruct k as [|k]; simpl.
  - by rewrite Z.add_0_r.
  - rewrite IH. by replace (i + 1 + Z.of_nat k) with (i + Z.pos (Pos.of_succ_nat k)) by lia.
Qed.

(** The table has one entry per slide, in the order of the slides.  Entry [i]
    links to slide [i], the links [previous] and [next] lead to its neighbours,
    and its name is the slide's. *)
Theorem toc_complete by_id (i : nat) slide :
  slides d !! i = Some slide -> by_id (js "(" ++ num_str (Z.of_nat i + 1) ++ js ")") = None ->
  length (entries tableOfContents) = length (slides d)
  /\ exists e, entries tableOfContents !! i = Some e
     /\ Location.findSlideNumber d by_id (e_href e) = Some (Z.of_nat i)
     /\ e_name e = slideName (Z.of_nat i)
     /\ e_previous e = (match i with O => None | S j => Some (Z.of_nat j) end)
     /\ e_next e = (if decide (S i = length (slides d)) then None else Some (Z.of_nat (S i))).
Proof.
  intros Hi Hid. cbn [tableOfContents entries].
  change (toc_loop [] 0 (slides d)) with (toc_loop (entries_from (zlen (@nil ref)) 0 []) (zlen (@nil ref)) (slides d)).
  rewrite toc_loop_entries. cbn [app]. rewrite zlen_nil, Z.add_0_l. split.
  { generalize (zlen (slides d)) at 1 as n. generalize 0 as k. clear.
    induction (slides d) as [|x l IH]; intros k n; simpl; [done | by rewrite IH]. }
  rewrite entries_from_lookup, Hi. eexists. split; [done|]. cbn [entry_at e_href e_name e_previous e_next].
  pose proof (lookup_lt_Some _ _ _ Hi) as Hlt. rewrite Z.add_0_l. split_and!.
  - apply (Location.findSlideNumber_hash d by_id []); [apply not_elem_of_nil | unfold zlen; lia | done].
  - done.
  - destruct i as [|j]; [done|]. rewrite (proj2 (Z.eqb_neq _ _)) by lia. f_equal. lia.
  - unfold zlen. case_decide.
    + by rewrite (proj2 (Z.eqb_eq _ _)) by lia.
    + rewrite (proj2 (Z.eqb_neq _ _)) by lia. f_equal. lia.
Qed.
End contents.

(** ** Witnesses *)
Lemma toc_complete_witness :
  length (entries (tableOfContents deck1 (js "Talk") (js "en"))) = 2%nat
  /\ exists e, entries (tableOfContents deck1 (js "Talk") (js "en")) !! 0%nat = Some e
     /\ e_name e = js "Intro" /\ e_next e = Some 1
     /\ Location.findSlideNumber deck1 (fun _ => None) (e_href e) = Some 0.
Proof.
  destruct (toc_complete deck1 (js "Talk") (js "en") (fun _ => None) 0%nat [0; 0; 0]%nat eq_refl eq_refl)
    as (Hl & e & He & Hn & Hname & _ & Hnext).
  split; [exact Hl|]. exists e. split_and!; [exact He | by rewrite Hname; vm_compute | by rewrite Hnext | exact Hn].
Defined.
End Contents.
