(* ===== verification/Show.v ===== *)
(** * The slide show

    The state of slidy.js after the page is loaded, and its handlers.  [show]
    gathers the global variables of the program, the attributes of the page that
    it changes, and the parts of the browser it writes to; [M] is a state monad
    with exceptions, since the program dereferences undefined slides when the
    slide number is out of range. *)
From S2P Require Import Prelude JsString Dom Slides Location Localize Outline Contents.

Module Show.
Import Dom Slides.
Import Outline (outl, cls, disp, vis).

(** ** Numbers

    The slide number is an integer or [NaN], [None] here. *)
Abbreviation num := (option Z).
Definition num_lt (a b : num) : bool := match a, b with Some x, Some y => x <? y | _, _ => false end.
Definition num_eq (a b : num) : bool := match a, b with Some x, Some y => x =? y | _, _ => false end.
Definition num_add (a : num) (k : Z) : num := (fun x => x + k) <$> a.
Definition num_text (a : num) : jstring := match a with Some x => num_str x | None => js "NaN" end.

(** ** State *)

(** The table of contents: its inline style, with the property [visible] that
    the program tests in two places. *)
Record toc_style := TocStyle { t_visibility : jstring; t_display : jstring; t_visible : option jstring }.

(** Where the keyboard focus was put last. *)
Inductive focus := OnWindow | OnHelp | OnToc (entry : Z).

(** A media object: its [type], the attributes [width] and [height] and the
    saved properties [initialWidth] and [initialHeight].  A computed length is
    [Pct n p], the number [n * (p / 100)], with [None] for [NaN]; [n] counts
    thirds of a pixel. *)
Inductive length_attr := Text (s : jstring) | Pct (thirds : Z) (p : option Z).
Record media := Media {
  m_type : option jstring; m_width : option length_attr; m_height : option length_attr;
  initialWidth : option length_attr; initialHeight : option length_attr }.

Record nav := Nav {
  slidenum : num; lastShown : option ref;
  eos : option jstring;                (** colour of the end of slide mark *)
  viewAll : bool }.

Record addr := Addr { href : jstring; doc_title : jstring; counter : jstring }.

Record layout := Layout {
  position : gmap ref jstring; border : gmap ref jstring; page_break : gmap ref jstring }.

Record look := Look {
  sizeIndex : Z; fontSize : jstring; lastWidth : Z; lastHeight : Z; objects : list media }.

Record ui := Ui {
  tb_display : jstring; tb_visibility : jstring; wantToolbar : bool;
  pending : nat;                       (** timers that will call [showToolbar] *)
  scrollhack : bool; mouseClickEnabled : bool; selectedTextLen : Z;
  toc : option toc_style; at_focus : focus; alerts : list jstring }.

Record show := MkShow {
  nv : nav; page : outl; lay : layout; ad : addr; lk : look; us : ui }.

(** *** The monad *)
Definition M (A : Type) : Type := show -> option A * show.
#[export] Instance M_ret : MRet M := fun A a s => (Some a, s).
#[export] Instance M_bind : MBind M := fun A B k m s =>
  match m s with
  | (Some a, s) => k a s
  | (None, s) => (None, s)
  end.
Definition throw {A} : M A := fun s => (None, s).
Definition get {A} (f : show -> A) : M A := fun s => (Some (f s), s).
Definition modify (f : show -> show) : M unit := fun s => (Some tt, f s).
Definition when (b : bool) (m : M unit) : M unit := if b then m else mret tt.
(** [try { m } catch (e) { }] *)
Definition try_ (m : M unit) : M unit := fun s => (Some tt, (m s).2).

Fixpoint each {A} (l : list A) (f : A -> M unit) : M unit :=
  match l with
  | [] => mret tt
  | x :: l => f x;; each l f
  end.

(** *** Assignments *)
Definition on_nav (f : nav -> nav) : M unit :=
  modify (fun s => MkShow (f (nv s)) (page s) (lay s) (ad s) (lk s) (us s)).
Definition on_page (f : outl -> outl) : M unit :=
  modify (fun s => MkShow (nv s) (f (page s)) (lay s) (ad s) (lk s) (us s)).
Definition on_lay (f : layout -> layout) : M unit :=
  modify (fun s => MkShow (nv s) (page s) (f (lay s)) (ad s) (lk s) (us s)).
Definition on_ad (f : addr -> addr) : M unit :=
  modify (fun s => MkShow (nv s) (page s) (lay s) (f (ad s)) (lk s) (us s)).
Definition on_lk (f : look -> look) : M unit :=
  modify (fun s => MkShow (nv s) (page s) (lay s) (ad s) (f (lk s)) (us s)).
Definition on_us (f : ui -> ui) : M unit :=
  modify (fun s => MkShow (nv s) (page s) (lay s) (ad s) (lk s) (f (us s))).

Definition set_slidenum (n : num) : M unit :=
  on_nav (fun v => Nav n (lastShown v) (eos v) (viewAll v)).
Definition set_lastShown (p : option ref) : M unit :=
  on_nav (fun v => Nav (slidenum v) p (eos v) (viewAll v)).
Definition set_viewAll (b : bool) : M unit :=
  on_nav (fun v => Nav (slidenum v) (lastShown v) (eos v) b).
Definition set_page (d : gmap ref jstring -> gmap ref jstring) (v : gmap ref bool -> gmap ref bool) : M unit :=
  on_page (fun o => Outline.Outl (cls o) (d (disp o)) (v (vis o)) (Outline.saved o) (Outline.visible o)
                      (Outline.can_fold o) (Outline.tabindex o) (Outline.outline o)).
(** [p.style.display = d; p.style.visibility = v] *)
Definition style_node (d : jstring) (v : bool) (p : ref) : M unit := set_page (<[p := d]>) (<[p := v]>).
Definition set_vis (v : gmap ref bool) : M unit := set_page (fun d => d) (fun _ => v).
Definition set_position (p : ref) (x : jstring) : M unit :=
  on_lay (fun l => Layout (<[p := x]> (position l)) (border l) (page_break l)).
Definition set_border (p : ref) (x : jstring) : M unit :=
  on_lay (fun l => Layout (position l) (<[p := x]> (border l)) (page_break l)).
Definition set_page_break (p : ref) (x : jstring) : M unit :=
  on_lay (fun l => Layout (position l) (border l) (<[p := x]> (page_break l))).
Definition set_href (h : jstring) : M unit := on_ad (fun a => Addr h (doc_title a) (counter a)).
Definition set_title (t : jstring) : M unit := on_ad (fun a => Addr (href a) t (counter a)).
Definition set_counter (c : jstring) : M unit := on_ad (fun a => Addr (href a) (doc_title a) c).
Definition set_toolbar (d v : jstring) : M unit :=
  on_us (fun u => Ui d v (wantToolbar u) (pending u) (scrollhack u) (mouseClickEnabled u)
                    (selectedTextLen u) (toc u) (at_focus u) (alerts u)).
Definition set_tb_display (d : jstring) : M unit :=
  on_us (fun u => Ui d (tb_visibility u) (wantToolbar u) (pending u) (scrollhack u) (mouseClickEnabled u)
                    (selectedTextLen u) (toc u) (at_focus u) (alerts u)).
Definition set_wantToolbar (b : bool) : M unit :=
  on_us (fun u => Ui (tb_display u) (tb_visibility u) b (pending u) (scrollhack u) (mouseClickEnabled u)
                    (selectedTextLen u) (toc u) (at_focus u) (alerts u)).
(** [setTimeout(showToolbar, ...)] *)
Definition later_showToolbar : M unit :=
  on_us (fun u => Ui (tb_display u) (tb_visibility u) (wantToolbar u) (S (pending u)) (scrollhack u)
                    (mouseClickEnabled u) (selectedTextLen u) (toc u) (at_focus u) (alerts u)).
Definition set_scrollhack (b : bool) : M unit :=
  on_us (fun u => Ui (tb_display u) (tb_visibility u) (wantToolbar u) (pending u) b
                    (mouseClickEnabled u) (selectedTextLen u) (toc u) (at_focus u) (alerts u)).
Definition set_mouseClickEnabled (b : bool) : M unit :=
  on_us (fun u => Ui (tb_display u) (tb_visibility u) (wantToolbar u) (pending u) (scrollhack u)
                    b (selectedTextLen u) (toc u) (at_focus u) (alerts u)).
Definition set_selectedTextLen (n : Z) : M unit :=
  on_us (fun u => Ui (tb_display u) (tb_visibility u) (wantToolbar u) (pending u) (scrollhack u)
                    (mouseClickEnabled u) n (toc u) (at_focus u) (alerts u)).
Definition set_toc (t : option toc_style) : M unit :=
  on_us (fun u => Ui (tb_display u) (tb_visibility u) (wantToolbar u) (pending u) (scrollhack u)
                    (mouseClickEnabled u) (selectedTextLen u) t (at_focus u) (alerts u)).
Definition set_focus (f : focus) : M unit :=
  on_us (fun u => Ui (tb_display u) (tb_visibility u) (wantToolbar u) (pending u) (scrollhack u)
                    (mouseClickEnabled u) (selectedTextLen u) (toc u) f (alerts u)).
Definition alert (a : jstring) : M unit :=
  on_us (fun u => Ui (tb_display u) (tb_visibility u) (wantToolbar u) (pending u) (scrollhack u)
                    (mouseClickEnabled u) (selectedTextLen u) (toc u) (at_focus u) (alerts u ++ [a])).
Definition set_sizeIndex (i : Z) : M unit :=
  on_lk (fun l => Look i (fontSize l) (lastWidth l) (lastHeight l) (objects l)).
Definition set_fontSize (f : jstring) : M unit :=
  on_lk (fun l => Look (sizeIndex l) f (lastWidth l) (lastHeight l) (objects l)).
Definition set_last_size (w h : Z) : M unit :=
  on_lk (fun l => Look (sizeIndex l) (fontSize l) w h (objects l)).
Definition set_objects (o : list media) : M unit :=
  on_lk (fun l => Look (sizeIndex l) (fontSize l) (lastWidth l) (lastHeight l) o).

(** ** The browser *)
Record browser := Browser { ns_pos : bool; ie : bool; ie7 : bool; ie8 : bool; khtml : bool; opera : bool }.

(** How the background colour of a slide is read: [element.currentStyle],
    [getComputedStyle] (which may give nothing), or neither. *)
Inductive style_api :=
  | CurrentStyle (f : show -> ref -> jstring)
  | ComputedStyle (f : show -> ref -> option jstring)
  | NoStyle.

Section show.
Variables (b : browser) (d0 : deck) (title lang : jstring).
Variable by_id : jstring -> option ref.          (** [document.getElementById] *)
Variable computed : outl -> ref -> jstring.      (** computed [display] *)
Variable bg : style_api.

(** The deck with the classes as they are now. *)
Definition deck_of (s : show) : deck :=
  Deck (doc d0) (cls (page s)) (slides d0) (notes d0) (backgrounds d0).
Definition nslides : Z := zlen (slides d0).

(** [slides[n]]; [None] is [undefined]. *)
Definition slide_at (n : num) : option ref := i ← n; znth (slides d0) i.
Definition current (s : show) : option ref := slide_at (slidenum (nv s)).

(** ** Incremental items of the current slide

    Without a current slide a search from [null] fails; from a node it goes
    through the whole document, where the one backwards can reach the document
    itself. *)
Definition previousItem_undefined (d : deck) (p : ref) : option ref :=
  item_loop d (fun node => match node with
                           | None => None
                           | Some p => match previousSibling p with
                                       | Some q => Some (deepest_at (doc d) q)
                                       | None => parentNode p
                                       end
                           end) (rounds d) (Some p).

Definition next_item (node : option ref) : M (option ref) := fun s =>
  match current s, node with
  | Some r, _ => (Some (nextIncrementalItem (deck_of s) r node), s)
  | None, Some p => (Some (nextIncrementalItem (deck_of s) [] (Some p)), s)
  | None, None => (None, s)
  end.

Definition previous_item (node : option ref) : M (option ref) := fun s =>
  match current s, node with
  | Some r, _ => (Some (previousIncrementalItem (deck_of s) r node), s)
  | None, Some p => (Some (previousItem_undefined (deck_of s) p), s)
  | None, None => (None, s)
  end.

(** [revealNextItem(node)] and [hidePreviousItem(node)] *)
Definition write_vis (p : option ref) (v : bool) : M unit := fun s =>
  match p with
  | Some p => if is_some (name_of (deck_of s) p)
              then on_page (fun o => Outline.Outl (cls o) (disp o) (<[p := v]> (vis o)) (Outline.saved o)
                     (Outline.visible o) (Outline.can_fold o) (Outline.tabindex o) (Outline.outline o)) s
              else (Some tt, s)
  | None => (Some tt, s)
  end.
Definition reveal_next (node : option ref) : M (option ref) :=
  p ← next_item node; write_vis p true;; mret p.
Definition hide_previous (node : option ref) : M (option ref) :=
  write_vis node false;; previous_item node.

(** [setVisibilityAllIncremental(value)] *)
Definition all_items (value : bool) : M unit := fun s =>
  match current s with
  | Some r => set_vis (Slides.setVisibilityAllIncremental (deck_of s) r value (vis (page s))) s
  | None => (None, s)
  end.

(** ** Showing and hiding *)

(** src/experiments/repl/src/main/webapp/slidy/slidy.js:1602-1610
    [hideBackgrounds] *)
Definition hideBackgrounds : M unit := each (backgrounds d0) (style_node (js "none") false).

(** The background colour that [syncBackground] finds; [None] is [undefined]:
    without a way to read the style the code compares where it means to
    assign. *)
Definition bgColor (s : show) (p : ref) : option jstring :=
  match bg with
  | CurrentStyle f => Some (f s p)
  | ComputedStyle f => Some (default (js "transparent") (f s p))
  | NoStyle => None
  end.

(** src/experiments/repl/src/main/webapp/slidy/slidy.js:1554-1600
    [syncBackground(slide)] *)
Definition syncBackground (slide : option ref) : M unit :=
  match slide with
  | None => throw
  | Some p =>
      c ← get (fun s => bgColor s p);
      if bool_decide (c = Some (js "transparent")) then
        slideClass ← get (fun s => Outline.get_cls (page s) p);
        each (backgrounds d0) (fun q =>
          bgClass ← get (fun s => Outline.get_cls (page s) q);
          match Classes.matchingBackground slideClass bgClass with
          | None => throw
          | Some true => style_node (js "block") true q
          | Some false => style_node (js "none") false q
          end)
      else hideBackgrounds
  end.

(** src/experiments/repl/src/main/webapp/slidy/slidy.js:1205-1211
    [showSlide(slide)], but for the scroll position of the window. *)
Definition showSlide (slide : option ref) : M unit :=
  syncBackground slide;;
  match slide with None => throw | Some p => style_node (js "block") true p end.

(** src/experiments/repl/src/main/webapp/slidy/slidy.js:1213-1217
    [hideSlide(slide)] *)
Definition hideSlide (slide : option ref) : M unit :=
  match slide with None => throw | Some p => style_node (js "none") false p end.

(** src/experiments/repl/src/main/webapp/slidy/slidy.js:1199-1203
    [setEosStatus(state)] *)
Definition setEosStatus (state : bool) : M unit :=
  on_nav (fun v => Nav (slidenum v) (lastShown v)
    (match eos v with
     | Some _ => Some (if state then js "rgb(240,240,240)" else js "red")
     | None => None
     end) (viewAll v)).

(** ** The toolbar *)

(** src/experiments/repl/src/main/webapp/slidy/slidy.js:578-621
    [showToolbar], but for its offsets from the edges of the window. *)
Definition showToolbar : M unit :=
  w ← get (fun s => wantToolbar (us s));
  when w (set_toolbar (js "block") (js "visible"));;
  set_scrollhack false;;
  when (negb (opera b)) (set_focus OnHelp).

(** src/experiments/repl/src/main/webapp/slidy/slidy.js:623-628
    [hideToolbar] *)
Definition hideToolbar : M unit := set_toolbar (js "none") (js "hidden");; set_focus OnWindow.

(** src/experiments/repl/src/main/webapp/slidy/slidy.js:568-575
    [refreshToolbar(interval)] *)
Definition refreshToolbar : M unit :=
  when (negb (ns_pos b) && negb (ie7 b)) (hideToolbar;; later_showToolbar).

(** src/experiments/repl/src/main/webapp/slidy/slidy.js:631-648
    [toggleToolbar] *)
Definition toggleToolbar : M unit :=
  va ← get (fun s => viewAll (nv s));
  when (negb va)
    (d ← get (fun s => tb_display (us s));
     if bool_decide (d = js "none")
     then set_toolbar (js "block") (js "visible");; set_wantToolbar true
     else set_toolbar (js "none") (js "hidden");; set_wantToolbar false).

(** src/experiments/repl/src/main/webapp/slidy/slidy.js:550-565
    [scrolled]; its guard asks for the toolbar, which is there once the show
    has started. *)
Definition scrolled : M unit :=
  when (negb (ns_pos b) && negb (ie7 b))
    (set_tb_display (js "none");;
     sh ← get (fun s => scrollhack (us s));
     va ← get (fun s => viewAll (nv s));
     when (negb sh && negb va) (later_showToolbar;; set_scrollhack true)).

(** ** The address *)

(** [location.hash = h] *)
Definition set_hash (h : jstring) : M unit :=
  on_ad (fun a =>
    let i := indexOf [c_hash] (href a) in
    let before := if i <? 0 then href a else ztake i (href a) in
    let h := match h with 35 :: r => r | _ => h end in
    Addr (before ++ c_hash :: h) (doc_title a) (counter a)).

(** src/experiments/repl/src/main/webapp/slidy/slidy.js:1872-1876
    [showSlideNumber] *)
Definition showSlideNumber : M unit :=
  n ← get (fun s => slidenum (nv s));
  set_counter (Localize.localize lang (js "slide") ++ js " " ++ num_text (num_add n 1) ++ js "/" ++ num_str nslides).

(** src/experiments/repl/src/main/webapp/slidy/slidy.js:1934-1943
    [pushHash(hash)]: the address; the frame it writes calls [onFrameLoaded]. *)
Definition pushHash (hash : jstring) : M unit :=
  set_hash (match hash with [] => js "#(1)" | _ => hash end).

(** src/experiments/repl/src/main/webapp/slidy/slidy.js:1926-1931
    [onFrameLoaded(hash)] *)
Definition onFrameLoaded (hash : jstring) : M unit :=
  set_hash hash;;
  h ← get (fun s => href (ad s));
  set_href (Location.pageAddress h ++ hash).

Definition doc_title_of (n : num) : jstring := title ++ js " (" ++ num_text (num_add n 1) ++ js ")".

(** src/experiments/repl/src/main/webapp/slidy/slidy.js:1901-1923
    [setLocation] *)
Definition setLocation : M unit :=
  h ← get (fun s => href (ad s));
  n ← get (fun s => slidenum (nv s));
  let text := js "(" ++ num_text (num_add n 1) ++ js ")" in
  let hash := c_hash :: text in
  let uri := Location.pageAddress h in
  let uri := if match n with Some x => 0 <=? x | None => false end then uri ++ hash else uri in
  when (ie b && negb (ie8 b)) (pushHash hash);;
  h ← get (fun s => href (ad s));
  when (negb (bool_decide (uri = h))) (set_href uri);;
  let hash := if khtml b then text else hash in
  lh ← get (fun s => Location.location_hash (href (ad s)));
  when (negb (ie b) && negb (bool_decide (lh = hash)) && negb (bool_decide (lh = []))) (set_hash hash);;
  set_title (doc_title_of n);;
  showSlideNumber.

(** ** Moving through the slides *)
Definition is_null (p : option ref) : bool := negb (is_some p).

(** [lastShown = previousIncrementalItem(null)] *)
Definition last_to_end : M unit := p ← previous_item None; set_lastShown p.

(** [setEosStatus(!nextIncrementalItem(lastShown))] *)
Definition update_eos : M unit :=
  l ← get (fun s => lastShown (nv s));
  p ← next_item l; setEosStatus (is_null p).

(** [slide = slides[slidenum]] *)
Definition this_slide : M (option ref) := get current.
Definition hide_current : M unit := p ← this_slide; hideSlide p.

(** src/experiments/repl/src/main/webapp/slidy/slidy.js:1059-1088
    [previousSlide(incremental)] *)
Definition previousSlide (incremental : bool) : M unit :=
  va ← get (fun s => viewAll (nv s));
  when (negb va) (
    n ← get (fun s => slidenum (nv s));
    last ← get (fun s => lastShown (nv s));
    (if (incremental || num_eq n (Some 0)) && negb (is_null last) then
       p ← hide_previous last; set_lastShown p;; setEosStatus false
     else when (num_lt (Some 0) n) (
       hide_current;;
       set_slidenum (num_add n (-1));;
       slide ← this_slide;
       all_items true;; last_to_end;; setEosStatus true;; showSlide slide));;
    setLocation;;
    when (negb (ns_pos b)) refreshToolbar).

(** src/experiments/repl/src/main/webapp/slidy/slidy.js:1090-1123
    [nextSlide(incremental)] *)
Definition nextSlide (incremental : bool) : M unit :=
  va ← get (fun s => viewAll (nv s));
  when (negb va) (
    last ← get (fun s => lastShown (nv s));
    n ← get (fun s => slidenum (nv s));
    when (incremental || num_eq n (Some (nslides - 1))) (p ← reveal_next last; set_lastShown p);;
    shown ← get (fun s => lastShown (nv s));
    (if (negb incremental || is_null shown) && num_lt n (Some (nslides - 1)) then
       hide_current;;
       set_slidenum (num_add n 1);;
       slide ← this_slide;
       set_lastShown None;; all_items false;; showSlide slide
     else if is_null shown then when (negb (is_null last) && incremental) (set_lastShown last)
     else mret tt);;
    setLocation;;
    update_eos;;
    when (negb (ns_pos b)) refreshToolbar).

(** src/experiments/repl/src/main/webapp/slidy/slidy.js:1127-1148
    [firstSlide] *)
Definition firstSlide : M unit :=
  va ← get (fun s => viewAll (nv s));
  when (negb va) (
    n ← get (fun s => slidenum (nv s));
    when (negb (num_eq n (Some 0))) (
      hide_current;;
      set_slidenum (Some 0);;
      slide ← this_slide;
      set_lastShown None;; all_items false;; showSlide slide);;
    update_eos;;
    setLocation).

(** src/experiments/repl/src/main/webapp/slidy/slidy.js:1153-1181
    [lastSlide] *)
Definition lastSlide : M unit :=
  va ← get (fun s => viewAll (nv s));
  when (negb va) (
    set_lastShown None;;
    n ← get (fun s => slidenum (nv s));
    (if num_lt n (Some (nslides - 1)) then
       hide_current;;
       set_slidenum (Some (nslides - 1));;
       slide ← this_slide;
       all_items true;; last_to_end;; showSlide slide
     else all_items true;; last_to_end);;
    setEosStatus true;;
    setLocation).

(** src/experiments/repl/src/main/webapp/slidy/slidy.js:1184-1197
    [gotoSlide(num)] *)
Definition gotoSlide (n : num) : M unit :=
  hide_current;;
  set_slidenum n;;
  slide ← this_slide;
  set_lastShown None;; all_items false;; update_eos;;
  set_title (doc_title_of n);;
  showSlide slide;;
  showSlideNumber.

(** src/experiments/repl/src/main/webapp/slidy/slidy.js:1881-1894
    [checkLocation], called every 200 ms. *)
Definition checkLocation : M unit :=
  hash ← get (fun s => Location.location_hash (href (ad s)));
  n ← get (fun s => slidenum (nv s));
  if num_lt (Some 0) n && (bool_decide (hash = []) || bool_decide (hash = [c_hash])) then gotoSlide (Some 0)
  else when ((2 <? zlen hash) && negb (bool_decide (hash = js "#(" ++ num_text (num_add n 1) ++ js ")")))
    match Location.parseInt (substr_from 2 hash) with
    | Some k => gotoSlide (Some (k - 1))
    | None => mret tt
    end.

(** src/experiments/repl/src/main/webapp/slidy/slidy.js:1827-1855
    [clickedAnchor], on an anchor with the address [to]; [no_target] says that
    its [target] is [null]. *)
Definition clickedAnchor (to : jstring) (no_target : bool) : M unit :=
  h ← get (fun s => href (ad s));
  if bool_decide (Location.pageAddress to = Location.pageAddress h) then
    n ← get (fun s => slidenum (nv s));
    d ← get deck_of;
    let newslidenum := Location.findSlideNumber d by_id to in
    when (negb (num_eq newslidenum n)) (
      hide_current;;
      set_slidenum newslidenum;;
      slide ← this_slide;
      showSlide slide;; setLocation)
  else when no_target (set_href to).

(** ** All slides at once *)

(** [slides[0]], ..., with their numbers. *)
Fixpoint numbered (i : Z) (l : list ref) : list (Z * ref) :=
  match l with [] => [] | p :: l => (i, p) :: numbered (i + 1) l end.

(** src/experiments/repl/src/main/webapp/slidy/slidy.js:1258-1297
    [showAllSlides] *)
Definition showAllSlides : M unit :=
  each (numbered 0 (slides d0)) (fun '(i, p) =>
    set_position p (js "relative");;
    set_border p (js "solid thin black");;
    set_page_break p (if i =? 0 then js "avoid" else js "always");;
    all_items true;;
    showSlide (Some p));;
  each (notes d0) (fun p => showSlide (Some p));;
  hideBackgrounds.

(** src/experiments/repl/src/main/webapp/slidy/slidy.js:1300-1331
    [singleSlideView] *)
Definition singleSlideView : M unit :=
  each (numbered 0 (slides d0)) (fun '(i, p) =>
    n ← get (fun s => slidenum (nv s));
    set_position p (js "absolute");;
    set_border p (js "none");;
    if num_eq (Some i) n then showSlide (Some p) else hideSlide (Some p));;
  all_items true;;
  last_to_end;;
  each (notes d0) (fun p => hideSlide (Some p)).

(** src/experiments/repl/src/main/webapp/slidy/slidy.js:1241-1255
    [toggleView] *)
Definition toggleView : M unit :=
  va ← get (fun s => viewAll (nv s));
  if va : bool then singleSlideView;; showToolbar;; set_viewAll false
  else showAllSlides;; hideToolbar;; set_viewAll true.

(** src/experiments/repl/src/main/webapp/slidy/slidy.js:1219-1223
    [beforePrint] *)
Definition beforePrint : M unit := showAllSlides;; hideToolbar.

(** src/experiments/repl/src/main/webapp/slidy/slidy.js:1225-1232
    [afterPrint] *)
Definition afterPrint : M unit :=
  va ← get (fun s => viewAll (nv s));
  when (negb va) (singleSlideView;; showToolbar).

(** ** The size of the text *)

(** src/experiments/repl/src/main/webapp/slidy/slidy.js:89-90
    [sizes] *)
Definition sizes : list jstring :=
  [js "10pt"; js "12pt"; js "14pt"; js "16pt"; js "18pt"; js "20pt"; js "22pt"; js "24pt";
   js "26pt"; js "28pt"; js "30pt"; js "32pt"].

(** [document.body.style.fontSize = sizes[sizeIndex]]; an undefined size is
    written as the text [undefined], which is no size and changes nothing. *)
Definition apply_size : M unit :=
  i ← get (fun s => sizeIndex (lk s));
  match znth sizes i with Some z => set_fontSize z | None => mret tt end.

(** Hide and show the current slide. *)
Definition reflow : M unit :=
  slide ← this_slide;
  hideSlide slide;; showSlide slide.

(** src/experiments/repl/src/main/webapp/slidy/slidy.js:740-753
    [smaller] *)
Definition smaller : M unit :=
  i ← get (fun s => sizeIndex (lk s));
  when (0 <? i) (set_sizeIndex (i - 1));;
  set_tb_display (js "none");;
  apply_size;; reflow;; later_showToolbar.

(** src/experiments/repl/src/main/webapp/slidy/slidy.js:755-768
    [bigger] *)
Definition bigger : M unit :=
  i ← get (fun s => sizeIndex (lk s));
  when (i <? zlen sizes - 1) (set_sizeIndex (i + 1));;
  set_tb_display (js "none");;
  apply_size;; reflow;; later_showToolbar.

(** [s.charAt(s.length-1) == "%"], and [parseInt(s.slice(0, s.length-1))] *)
Definition is_percent (a : option length_attr) : bool :=
  match a with Some (Text s) => bool_decide (last s = Some 37) | _ => false end.
Definition percent (thirds : Z) (a : option length_attr) : option length_attr :=
  match a with
  | Some (Text s) => Some (Pct thirds (Location.parseInt (slice 0 (zlen s - 1) s)))
  | _ => a
  end.

(** [if (!obj.initialWidth) obj.initialWidth = obj.getAttribute("width")] *)
Definition initial (saved now : option length_attr) : option length_attr :=
  match saved with Some (Text []) | None => now | _ => saved end.

(** A round of the loop of [adjustObjectDimensions]. *)
Definition adjust_media (w h : Z) (m : media) : media :=
  if bool_decide (m_type m = Some (js "image/svg+xml"))
     || bool_decide (m_type m = Some (js "application/x-shockwave-flash")) then
    let iw := initial (initialWidth m) (m_width m) in
    let ih := initial (initialHeight m) (m_height m) in
    Media (m_type m) (if is_percent iw then percent w iw else m_width m)
          (if is_percent ih then percent h ih else m_height m) iw ih
  else m.

(** src/experiments/repl/src/main/webapp/slidy/slidy.js:773-803
    [adjustObjectDimensions(width, height)], in thirds of a pixel. *)
Definition adjustObjectDimensions (w h : Z) : M unit :=
  o ← get (fun s => objects (lk s));
  set_objects (map (adjust_media w h) o).

(** The width that [resized] works with, in thirds of a pixel: at most 4/3 of
    the height.  [width/height > 1.05*1024/768] is [width > 1.4 * height]; for
    integers the rounding of the quotients does not change the comparison. *)
Definition view_width (width height : Z) : Z :=
  if negb (height =? 0) && (7 * height <? 5 * width) then 4 * height else 3 * width.

Definition size_for (w3 sizeIndex : Z) : Z :=
  if 3300 <=? w3 then 5
  else if 3000 <=? w3 then 4
  else if 2400 <=? w3 then 3
  else if 1800 <=? w3 then 2
  else if negb (w3 =? 0) then 0
  else sizeIndex.

(** src/experiments/repl/src/main/webapp/slidy/slidy.js:480-548
    [resized], with the inner width and height of the window; [adjustment] is
    [sizeAdjustment]. *)
Definition resized (adjustment : num) (width height : Z) : M unit :=
  let w3 := view_width width height in
  lw ← get (fun s => lastWidth (lk s));
  lh ← get (fun s => lastHeight (lk s));
  when (negb (w3 =? lw) || negb (height =? lh)) (
    i ← get (fun s => sizeIndex (lk s));
    let i := size_for w3 i in
    set_sizeIndex (match adjustment with
                   | Some a => if (0 <=? i + a) && (i + a <? zlen sizes) then i + a else i
                   | None => i
                   end);;
    adjustObjectDimensions w3 (3 * height);;
    apply_size;;
    set_last_size w3 height;;
    reflow;;
    refreshToolbar).

(** ** The table of contents *)

(** src/experiments/repl/src/main/webapp/slidy/slidy.js:2300-2306
    [isShownToc] *)
Definition isShownToc (s : show) : bool :=
  match toc (us s) with Some t => bool_decide (t_visible t = Some (js "visible")) | None => false end.

(** [try { if (!opera) helpAnchor.focus(); } catch (e) { }] *)
Definition focus_help : M unit := try_ (when (negb (opera b)) (set_focus OnHelp)).

(** src/experiments/repl/src/main/webapp/slidy/slidy.js:2326-2342
    [hideTableOfContents] *)
Definition hideTableOfContents : M unit :=
  t ← get (fun s => toc (us s));
  match t with
  | Some t =>
      when (negb (bool_decide (t_visibility t = js "hidden")))
        (set_toc (Some (TocStyle (js "hidden") (js "none") (t_visible t)));; focus_help)
  | None => mret tt
  end.

(** src/experiments/repl/src/main/webapp/slidy/slidy.js:2308-2324
    [showTableOfContents]; [toc.focus] gives the focus to the first entry. *)
Definition showTableOfContents : M unit :=
  t ← get (fun s => toc (us s));
  match t with
  | Some t =>
      if negb (bool_decide (t_visibility t = js "visible"))
      then set_toc (Some (TocStyle (js "visible") (js "block") (t_visible t)));;
           when (0 <? nslides) (set_focus (OnToc 0))
      else hideTableOfContents
  | None => mret tt
  end.

(** src/experiments/repl/src/main/webapp/slidy/slidy.js:2344-2353
    [toggleTableOfContents] *)
Definition toggleTableOfContents : M unit :=
  t ← get (fun s => toc (us s));
  match t with
  | Some t =>
      if negb (bool_decide (t_visible t = Some (js "visible"))) then showTableOfContents
      else hideTableOfContents
  | None => mret tt
  end.

(** The jump of a table entry to the slide of its address. *)
Definition goto_uri (uri : jstring) : M unit :=
  hide_current;;
  d ← get deck_of;
  set_slidenum (Location.findSlideNumber d by_id uri);;
  slide ← this_slide;
  set_lastShown None;; setLocation;; all_items false;; update_eos;; showSlide slide;;
  focus_help.

(** src/experiments/repl/src/main/webapp/slidy/slidy.js:2356-2405
    [gotoEntry(e)]: a click on an entry, with the attribute [href] of what was
    clicked. *)
Definition gotoEntry (uri : option jstring) : M unit :=
  match uri with
  | Some ((_ :: _) as uri) => goto_uri uri
  | _ => mret tt
  end;;
  hideTableOfContents.

(** A key event. *)
Record key_event := Key { key : Z; ctrlKey : bool; altKey : bool; metaKey : bool; shiftKey : bool }.

(** src/experiments/repl/src/main/webapp/slidy/slidy.js:2408-2480
    [gotoTocEntry(event)] on the entry [e]; the result is [true] unless the event
    is cancelled. *)
Definition gotoTocEntry (e : Contents.entry) (k : key_event) : M bool :=
  if (key k =? 0) || ctrlKey k || altKey k then mret true
  else if key k =? 13 then
    match Contents.e_href e with
    | [] => mret tt
    | uri => goto_uri uri
    end;;
    hideTableOfContents;; mret false
  else
    match Contents.e_next e, Contents.e_previous e with
    | Some i, p => if key k =? 40 then set_focus (OnToc i);; mret false
                   else match p with
                        | Some j => if key k =? 38 then set_focus (OnToc j);; mret false else mret true
                        | None => mret true
                        end
    | None, Some j => if key k =? 38 then set_focus (OnToc j);; mret false else mret true
    | None, None => mret true
    end.

(** src/experiments/repl/src/main/webapp/slidy/slidy.js:2552-2567
    a click on the table itself. *)
Definition clickedToc : M unit :=
  n ← get (fun s => selectedTextLen (us s));
  when (n <=? 0) hideTableOfContents.

(** ** Events *)

(** The key Enter: folds or unfolds the outline with the focus. *)
Definition fold_focused : M bool := fun s =>
  let '(done, o) := Outline.enter_key (doc d0) computed (page s) in
  (Some done, MkShow (nv s) o (lay s) (ad s) (lk s) (us s)).

(** [return cancel(event)] after an action. *)
Definition cancelled (m : M unit) : M bool := m;; mret false.

(** [if (viewAll) return true;] before an action of [Page Up] and [Page Down]. *)
Definition unless_all (m : M unit) : M bool :=
  va ← get (fun s => viewAll (nv s));
  if va : bool then mret true else cancelled m.

(** The rest of [keyDown] after the table of contents was dismissed. *)
Definition key_action (k : key_event) : M bool :=
  let c := key k in
  if c =? 34 then unless_all (nextSlide false)
  else if c =? 33 then unless_all (previousSlide false)
  else if c =? 32 then cancelled (nextSlide true)
  else if c =? 37 then cancelled (previousSlide (negb (shiftKey k)))
  else if c =? 36 then cancelled firstSlide
  else if c =? 35 then cancelled lastSlide
  else if c =? 39 then cancelled (nextSlide (negb (shiftKey k)))
  else if c =? 13 then done ← fold_focused; mret (negb done)
  else if c =? 188 then cancelled smaller
  else if c =? 190 then cancelled bigger
  else if (c =? 189) || (c =? 109) then cancelled smaller
  else if (c =? 187) || (c =? 191) || (c =? 107) then cancelled bigger
  else if c =? 83 then cancelled smaller
  else if c =? 66 then cancelled bigger
  else if c =? 90 then cancelled lastSlide
  else if c =? 70 then cancelled toggleToolbar
  else if c =? 65 then cancelled toggleView
  else if c =? 75 then
    cancelled (e ← get (fun s => mouseClickEnabled (us s));
               set_mouseClickEnabled (negb e);;
               alert ((if negb e then js "enabled" else js "disabled") ++ js " mouse click advance"))
  else if (c =? 84) || (c =? 67) then cancelled showTableOfContents
  else if c =? 72 then cancelled (set_href Contents.helpPage)
  else mret true.

(** src/experiments/repl/src/main/webapp/slidy/slidy.js:820-978
    [keyDown(event)]; the result is [false] when the event was cancelled. *)
Definition keyDown (k : key_event) : M bool :=
  if key k =? 0 then mret true
  else if ctrlKey k || altKey k || metaKey k then mret true
  else
    let c := key k in
    shown ← get isShownToc;
    if shown && negb (c =? 9) && negb (c =? 16) && negb (c =? 38) && negb (c =? 40) then
      hideTableOfContents;;
      if (c =? 27) || (c =? 84) || (c =? 67) then mret false else key_action k
    else key_action k.

(** src/experiments/repl/src/main/webapp/slidy/slidy.js:982-985
    [mouseButtonUp(e)], with the length of the selected text. *)
Definition mouseButtonUp (selected : Z) : M unit := set_selectedTextLen selected.

(** The left button, from [e.which] and [e.button] with 0 for an absent value. *)
Definition is_leftclick (which button : Z) : bool :=
  if negb (which =? 0) then which =? 1 else if negb (button =? 0) then false else true.

(** The elements that want the clicks for themselves. *)
Definition wants_clicks (n : jstring) : bool :=
  bool_decide (n ∈ [js "EMBED"; js "OBJECT"; js "VIDEO"; js "INPUT"; js "TEXTAREA"; js "SELECT"; js "OPTION"]).

(** src/experiments/repl/src/main/webapp/slidy/slidy.js:989-1057
    [mouseButtonClick(e)]; the result is [false] when the event was cancelled. *)
Definition mouseButtonClick (target : ref) (which button : Z) : M bool :=
  let target := Outline.event_target (doc d0) target in
  let leftclick := is_leftclick which button in
  sel ← get (fun s => selectedTextLen (us s));
  if 0 <? sel then mret false
  else
    hideTableOfContents;;
    enabled ← get (fun s => mouseClickEnabled (us s));
    if enabled && leftclick
       && negb (match name_of d0 target with Some n => wants_clicks n | None => false end)
    then nextSlide true;; mret false
    else mret true.

(** A click on an outline. *)
Definition outline_click (target : ref) (rightclick : bool) : M bool := fun s =>
  let '(r, o) := Outline.outlineClick (doc d0) computed target rightclick (page s) in
  (Some r, MkShow (nv s) o (lay s) (ad s) (lk s) (us s)).

(** What happens to the page while it is shown. *)
Inductive event :=
  | KeyDown (k : key_event)
  | MouseUp (selected : Z)
  | MouseClick (target : ref) (which button : Z)
  | OutlineClick (target : ref) (rightclick : bool)
  | OutlineFocus (item : ref) | OutlineBlur
  | AnchorClick (to : jstring) (no_target : bool)
  | EntryClick (uri : option jstring)
  | EntryKey (e : Contents.entry) (k : key_event)
  | TocClick | TocToggle | Restart
  | Poll                                  (** the timer of [checkLocation] *)
  | Navigate (fragment : jstring)         (** the user changes the fragment, or goes back *)
  | ToolbarTimer                          (** a timer of [showToolbar] *)
  | Resize (width height : Z) | Scroll | Print.

Definition ignore {A} (m : M A) : M unit := _ ← m; mret tt.

Definition handle (adjustment : num) (e : event) : M unit :=
  match e with
  | KeyDown k => ignore (keyDown k)
  | MouseUp n => mouseButtonUp n
  | MouseClick t w u => ignore (mouseButtonClick t w u)
  | OutlineClick t r => ignore (outline_click t r)
  | OutlineFocus item => on_page (fun o => Outline.handle (doc d0) computed o (Outline.OnFocus item))
  | OutlineBlur => on_page (fun o => Outline.handle (doc d0) computed o Outline.OnBlur)
  | AnchorClick to nt => clickedAnchor to nt
  | EntryClick uri => gotoEntry uri
  | EntryKey e k => ignore (gotoTocEntry e k)
  | TocClick => clickedToc
  | TocToggle => toggleTableOfContents
  | Restart => firstSlide
  | Poll => checkLocation
  | Navigate f => h ← get (fun s => href (ad s)); set_href (Location.pageAddress h ++ f)
  | ToolbarTimer => showToolbar
  | Resize w h => resized adjustment w h
  | Scroll => scrolled
  | Print => beforePrint;; afterPrint
  end.

(** ** The start *)

(** The page when the document is loaded: class attributes only. *)
Definition fresh_page (c : gmap ref jstring) (d : gmap ref jstring) (v : gmap ref bool) : outl :=
  Outline.Outl c d v ∅ ∅ ∅ ∅ None.

(** The styles that [collectSlides], [collectNotes] and [collectBackgrounds]
    leave: hidden nodes are [none] and invisible; a background found by
    [collectSlides] is a block. *)
Definition collected_page : outl :=
  let m := (collectBackgrounds d0 (collectNotes d0 (shown (collectSlides d0))).2).2 in
  fresh_page (Slides.cls d0) ((fun v : bool => if v then js "block" else js "none") <$> m)
    (filter (fun x => x.2 = false) m).

(** src/experiments/repl/src/main/webapp/slidy/slidy.js:343-391
    [startup], after the slides were collected, in a window of the given size
    with the text size adjustment of the page. *)
Definition startup (adjustment : num) (width height : Z) : M unit :=
  on_nav (fun v => Nav (slidenum v) (lastShown v) (Some []) (viewAll v));;
  setEosStatus false;;
  h ← get (fun s => href (ad s));
  d ← get deck_of;
  set_slidenum (Location.findSlideNumber d by_id h);;
  on_page (Outline.initOutliner (doc d0) computed);;
  when (0 <? nslides) (
    n ← get (fun s => slidenum (nv s));
    slide ← this_slide;
    match slide with None => throw | Some p => set_position p (js "absolute") end;;
    (if num_lt (Some 0) n then all_items true;; last_to_end;; setEosStatus true
     else set_lastShown None;; all_items false;; update_eos);;
    setLocation);;
  set_toc (Some (TocStyle [] [] None));;
  hideTableOfContents;;
  singleSlideView;;
  setLocation;;
  resized adjustment width height;;
  showToolbar.
End show.
End Show.
