(* ===== verification/ShowLogic.v ===== *)
(** * Reasoning about the slide show

    Triples for the monad of [Show], what a well formed deck is, and the effect
    of the basic operations on what is displayed ([View]). *)
From S2P Require Import Prelude JsString Dom Slides Location Localize Outline Contents Show.

Module Logic.
Import Dom Slides Show.
Import Outline (outl, cls, disp, vis).

(** ** Triples: the program does not throw, and leads from [P] to [Q]. *)
Definition triple {A} (P : show -> Prop) (m : M A) (Q : A -> show -> Prop) : Prop :=
  forall s, P s -> exists a s', m s = (Some a, s') /\ Q a s'.

Section rules.
Context {A B : Type}.
Implicit Types (P : show -> Prop).

Lemma triple_ret P (a : A) Q : (forall s, P s -> Q a s) -> triple P (mret a) Q.
Proof. intros H s Hs. exists a, s. split; [done | by apply H]. Qed.

Lemma triple_bind P (m : M A) R (k : A -> M B) Q :
  triple P m R -> (forall a, triple (R a) (k a) Q) -> triple P (m ≫= k) Q.
Proof.
  intros Hm Hk s Hs. destruct (Hm s Hs) as (a & s1 & Em & H1).
  destruct (Hk a s1 H1) as (c & s2 & Ek & H2). exists c, s2. split; [|done].
  unfold mbind, M_bind. by rewrite Em.
Qed.

Lemma triple_get P (f : show -> A) (Q : A -> show -> Prop) :
  (forall s, P s -> Q (f s) s) -> triple P (get f) Q.
Proof. intros H s Hs. exists (f s), s. split; [done | by apply H]. Qed.

(** What was read is known. *)
Lemma triple_read P (f : show -> A) (v : A) (k : A -> M B) Q :
  (forall s, P s -> f s = v) -> triple P (k v) Q -> triple P (get f ≫= k) Q.
Proof.
  intros Hf Hk s Hs. destruct (Hk s Hs) as (a & s' & E & H). exists a, s'. split; [|done].
  unfold mbind, M_bind, get. by rewrite (Hf s Hs).
Qed.

Lemma triple_get_bind P (f : show -> A) (k : A -> M B) Q :
  (forall v, triple (fun s => P s /\ f s = v) (k v) Q) -> triple P (get f ≫= k) Q.
Proof.
  intros Hk s Hs. destruct (Hk (f s) s (conj Hs eq_refl)) as (a & s' & E & H). by exists a, s'.
Qed.

Lemma triple_conseq P P' (m : M A) (Q Q' : A -> show -> Prop) :
  triple P' m Q' -> (forall s, P s -> P' s) -> (forall a s, Q' a s -> Q a s) -> triple P m Q.
Proof.
  intros Hm HP HQ s Hs. destruct (Hm s (HP s Hs)) as (a & s' & E & H). exists a, s'. auto.
Qed.

Lemma triple_pure P (phi : Prop) (m : M A) Q :
  (phi -> triple P m Q) -> triple (fun s => P s /\ phi) m Q.
Proof. intros H s [Hs Hp]. by apply H. Qed.
End rules.

Lemma triple_modify (P : show -> Prop) f (Q : unit -> show -> Prop) :
  (forall s, P s -> Q tt (f s)) -> triple P (modify f) Q.
Proof. intros H s Hs. exists tt, (f s). split; [done | by apply H]. Qed.

Lemma triple_seq P (m : M unit) R {B} (k : M B) (Q : B -> show -> Prop) :
  triple P m (fun _ => R) -> triple R k Q -> triple P (m;; k) Q.
Proof. intros Hm Hk. eapply triple_bind; [exact Hm|]. by intros []. Qed.

Lemma triple_when P c (m : M unit) (Q : show -> Prop) :
  (c = true -> triple P m (fun _ => Q)) -> (c = false -> forall s, P s -> Q s) ->
  triple P (when c m) (fun _ => Q).
Proof. intros Ht Hf. destruct c; simpl; [by apply Ht | apply triple_ret; by apply Hf]. Qed.

Lemma triple_each {A} P (l : list A) (f : A -> M unit) :
  (forall x, x ∈ l -> triple P (f x) (fun _ => P)) -> triple P (each l f) (fun _ => P).
Proof.
  induction l as [|x l IH]; intros H; simpl; [by apply triple_ret|].
  eapply triple_seq; [apply H, list_elem_of_here|]. apply IH. intros y Hy. apply H. by right.
Qed.

(** ** Programs that leave the slides and the page alone *)

(** A relation between the states before and after, which does not look at the
    layout, the address, the text size and the toolbar. *)
Class Frame (R : relation show) : Prop := {
  frame_refl :: Reflexive R;
  frame_trans :: Transitive R;
  frame_outside : forall s l a k u, R s (MkShow (nv s) (page s) l a k u)
}.

(** Everything that matters for the slides but the end of slide mark. *)
Definition same_view (s s' : show) : Prop :=
  page s' = page s /\ slidenum (nv s') = slidenum (nv s) /\ lastShown (nv s') = lastShown (nv s)
  /\ viewAll (nv s') = viewAll (nv s).
#[export] Instance same_view_frame : Frame same_view.
Proof.
  split; [by intros s | | done]. intros s t u (A1 & A2 & A3 & A4) (B1 & B2 & B3 & B4).
  unfold same_view. split_and!; congruence.
Qed.

(** The mark too. *)
Definition same_core (s s' : show) : Prop := nv s' = nv s /\ page s' = page s.
#[export] Instance same_core_frame : Frame same_core.
Proof. split; [by intros s | | done]. intros s t u [A1 A2] [B1 B2]. split; congruence. Qed.

Definition respects (R : relation show) {A} (m : M A) : Prop :=
  forall s, exists a s', m s = (Some a, s') /\ R s s'.
Abbreviation keeps := (respects same_view).
Abbreviation calm := (respects same_core).

Section frame.
Context (R : relation show) `{!Frame R}.

Lemma fr_ret {A} (a : A) : respects R (mret a).
Proof. intros s. by exists a, s. Qed.
Lemma fr_get {A} (f : show -> A) : respects R (get f).
Proof. intros s. by exists (f s), s. Qed.
Lemma fr_bind {A B} (m : M A) (k : A -> M B) : respects R m -> (forall a, respects R (k a)) -> respects R (m ≫= k).
Proof.
  intros Hm Hk s. destruct (Hm s) as (a & s1 & E1 & H1). destruct (Hk a s1) as (c & s2 & E2 & H2).
  exists c, s2. unfold mbind, M_bind. rewrite E1. split; [done | by transitivity s1].
Qed.
Lemma fr_when c m : respects R m -> respects R (when c m).
Proof. intros H. destruct c; [done | apply fr_ret]. Qed.
Lemma fr_ad f : respects R (on_ad f).
Proof. intros s. eexists tt, _. split; [reflexivity | apply frame_outside]. Qed.
Lemma fr_lk f : respects R (on_lk f).
Proof. intros s. eexists tt, _. split; [reflexivity | apply frame_outside]. Qed.
Lemma fr_us f : respects R (on_us f).
Proof. intros s. eexists tt, _. split; [reflexivity | apply frame_outside]. Qed.
Lemma fr_lay f : respects R (on_lay f).
Proof. intros s. eexists tt, _. split; [reflexivity | apply frame_outside]. Qed.
Lemma fr_try m : respects R m -> respects R (try_ m).
Proof. intros H s. destruct (H s) as (a & s' & E & Hs). exists tt, s'. unfold try_. by rewrite E. Qed.

Lemma respects_triple {A} (m : M A) P :
  respects R m -> (forall s s', P s -> R s s' -> P s') -> triple P m (fun _ => P).
Proof. intros Hm HP s Hs. destruct (Hm s) as (a & s' & E & H). exists a, s'. split; [done | by eapply HP]. Qed.
End frame.

Abbreviation kv_ret := (fr_ret same_view).
Abbreviation kv_get := (fr_get same_view).
Abbreviation kv_bind := (fr_bind same_view).
Abbreviation kv_when := (fr_when same_view).
Abbreviation keeps_ad := (fr_ad same_view).
Abbreviation keeps_lk := (fr_lk same_view).
Abbreviation keeps_us := (fr_us same_view).
Abbreviation keeps_lay := (fr_lay same_view).
Abbreviation keeps_try := (fr_try same_view).

Create HintDb keeps.
#[export] Hint Resolve fr_ret fr_get fr_when fr_ad fr_lk fr_us fr_lay fr_try : keeps.
#[export] Hint Extern 0 (Frame _) => typeclasses eauto : keeps.
Ltac keeps :=
  repeat first
    [ progress auto with keeps nocore
    | apply fr_bind; [try typeclasses eauto .. | intro]
    | apply fr_when; try typeclasses eauto
    | apply fr_try; try typeclasses eauto
    | match goal with |- respects _ (match ?x with _ => _ end) => destruct x end ].

Lemma keeps_setEosStatus x : keeps (setEosStatus x).
Proof. intros s. by eexists tt, _. Qed.

Section keepers.
Variables (b : browser) (d0 : deck) (title lang : jstring).
Context (R : relation show) `{!Frame R}.

Lemma fr_showToolbar : respects R (showToolbar b).
Proof. unfold showToolbar, set_toolbar, set_scrollhack, set_focus. keeps. Qed.
Lemma fr_hideToolbar : respects R hideToolbar.
Proof. unfold hideToolbar, set_toolbar, set_focus. keeps. Qed.
#[local] Hint Resolve fr_hideToolbar : keeps.
Lemma fr_refreshToolbar : respects R (refreshToolbar b).
Proof. unfold refreshToolbar, later_showToolbar. keeps. Qed.
Lemma fr_showSlideNumber : respects R (showSlideNumber d0 lang).
Proof. unfold showSlideNumber, set_counter. keeps. Qed.
#[local] Hint Resolve fr_showSlideNumber : keeps.
Lemma fr_setLocation : respects R (setLocation b d0 title lang).
Proof. unfold setLocation, pushHash, set_hash, set_href, set_title. keeps. Qed.
Lemma fr_set_title t : respects R (set_title t).
Proof. by apply fr_ad. Qed.
Lemma fr_hideTableOfContents : respects R (hideTableOfContents b).
Proof. unfold hideTableOfContents, focus_help, set_toc, set_focus. keeps. Qed.
#[local] Hint Resolve fr_hideTableOfContents : keeps.
Lemma fr_showTableOfContents : respects R (showTableOfContents b d0).
Proof. unfold showTableOfContents, set_toc, set_focus. keeps. Qed.
End keepers.
#[export] Hint Resolve keeps_setEosStatus fr_showToolbar fr_hideToolbar fr_refreshToolbar
  fr_showSlideNumber fr_setLocation fr_set_title fr_hideTableOfContents
  fr_showTableOfContents : keeps.

(** The instances for [keeps]. *)
Section keeps.
Variables (b : browser) (d0 : deck) (title lang : jstring).
Lemma keeps_showToolbar : keeps (showToolbar b).
Proof. auto with keeps. Qed.
Lemma keeps_hideToolbar : keeps hideToolbar.
Proof. auto with keeps. Qed.
Lemma keeps_refreshToolbar : keeps (refreshToolbar b).
Proof. auto with keeps. Qed.
Lemma keeps_showSlideNumber : keeps (showSlideNumber d0 lang).
Proof. auto with keeps. Qed.
Lemma keeps_setLocation : keeps (setLocation b d0 title lang).
Proof. auto with keeps. Qed.
Lemma keeps_set_title t : keeps (set_title t).
Proof. auto with keeps. Qed.
Lemma keeps_hideTableOfContents : keeps (hideTableOfContents b).
Proof. auto with keeps. Qed.
Lemma keeps_showTableOfContents : keeps (showTableOfContents b d0).
Proof. auto with keeps. Qed.
End keeps.
End Logic.

(** * What the slide show displays

    [view n va D] describes a state: the current slide is [n], [va] says whether
    all slides are shown at once, and [D] which slides are displayed.  The
    lemmas give the effect of every operation on it. *)

Module View.
Import Dom Slides Show Logic.
Import Outline (outl, cls, disp, vis).

(** ** Well formed decks *)
Section wf.
Variable d0 : deck.

Definition div_name (n : jstring) : Prop := n = js "DIV" \/ n = js "div".

(** What a deck needs so that slides do not get in each other's way: the slides
    are distinct [div]s, not nested, not backgrounds or notes, backgrounds lie
    outside the slides, and no slide is itself an incremental item. *)
Record wf_deck : Prop := {
  wf_some : slides d0 <> [];
  wf_nodup : NoDup (slides d0);
  wf_div : forall p, p ∈ slides d0 -> exists n, Outline.nodeName (doc d0) p = Some n /\ div_name n;
  wf_bg_div : forall p, p ∈ backgrounds d0 -> exists n, Outline.nodeName (doc d0) p = Some n /\ div_name n;
  wf_note_div : forall p, p ∈ notes d0 -> exists n, Outline.nodeName (doc d0) p = Some n /\ div_name n;
  wf_apart : forall p, p ∈ slides d0 -> p ∉ backgrounds d0 /\ p ∉ notes d0;
  wf_flat : forall p q, p ∈ slides d0 -> q ∈ slides d0 ++ backgrounds d0 -> q ∉ order (doc d0) p;
  wf_parent : forall p, p ∈ slides d0 -> exists q, parentNode p = Some q
              /\ Outline.nodeName (doc d0) q <> Some (js "LI")
              /\ Classes.hasClass (class_of d0 q) (js "incremental") = false;
  wf_match : forall p q, p ∈ slides d0 ++ notes d0 -> q ∈ backgrounds d0 ->
             is_Some (Classes.matchingBackground (class_of d0 p) (class_of d0 q))
}.

Definition is_div (p : ref) : bool :=
  match Outline.nodeName (doc d0) p with
  | Some n => bool_decide (n = js "DIV") || bool_decide (n = js "div")
  | None => false
  end.
Definition parent_ok (p : ref) : bool :=
  match parentNode p with
  | Some q => negb (bool_decide (Outline.nodeName (doc d0) q = Some (js "LI")))
              && negb (Classes.hasClass (class_of d0 q) (js "incremental"))
  | None => false
  end.

(** The same as a test. *)
Definition wf_deckb : bool :=
  negb (bool_decide (slides d0 = [])) && bool_decide (NoDup (slides d0))
  && forallb is_div (slides d0 ++ backgrounds d0 ++ notes d0)
  && forallb (fun p => bool_decide (p ∉ backgrounds d0) && bool_decide (p ∉ notes d0)) (slides d0)
  && forallb (fun p => forallb (fun q => bool_decide (q ∉ order (doc d0) p)) (slides d0 ++ backgrounds d0)) (slides d0)
  && forallb parent_ok (slides d0)
  && forallb (fun p => forallb (fun q =>
       is_some (Classes.matchingBackground (class_of d0 p) (class_of d0 q))) (backgrounds d0)) (slides d0 ++ notes d0).

Lemma forallb_elem {A} (f : A -> bool) l : forallb f l = true -> forall x, x ∈ l -> f x = true.
Proof. rewrite forallb_forall. intros H x Hx. by apply H, list_elem_of_In. Qed.

Lemma is_div_true p : is_div p = true -> exists n, Outline.nodeName (doc d0) p = Some n /\ div_name n.
Proof.
  unfold is_div, div_name. destruct (Outline.nodeName _ _) as [n|]; [|done].
  rewrite orb_true_iff, !bool_decide_eq_true. by exists n.
Qed.

Lemma wf_deckb_true : wf_deckb = true -> wf_deck.
Proof.
  unfold wf_deckb. rewrite !andb_true_iff. intros ((((((H1 & H2) & H3) & H4) & H5) & H6) & H7).
  apply negb_true_iff, bool_decide_eq_false in H1. apply bool_decide_eq_true in H2.
  pose proof (forallb_elem _ _ H3) as D3. split.
  - done.
  - done.
  - intros p Hp. apply is_div_true, D3. set_solver.
  - intros p Hp. apply is_div_true, D3. set_solver.
  - intros p Hp. apply is_div_true, D3. set_solver.
  - intros p Hp. pose proof (forallb_elem _ _ H4 p Hp) as H. cbv beta in H.
    by rewrite andb_true_iff, !bool_decide_eq_true in H.
  - intros p q Hp Hq. pose proof (forallb_elem _ _ H5 p Hp) as H. cbv beta in H.
    pose proof (forallb_elem _ _ H q Hq) as H'. by apply bool_decide_eq_true in H'.
  - intros p Hp. pose proof (forallb_elem _ _ H6 p Hp) as H. unfold parent_ok in H.
    destruct (parentNode p) as [q|]; [|done]. apply andb_true_iff in H as [Ha Hb]. exists q.
    apply negb_true_iff, bool_decide_eq_false in Ha. by apply negb_true_iff in Hb.
  - intros p q Hp Hq. pose proof (forallb_elem _ _ H7 p Hp) as H. cbv beta in H.
    pose proof (forallb_elem _ _ H q Hq) as H'. by apply is_some_true.
Qed.
End wf.

Section view.
Variables (d0 : deck) (bg : style_api).
Hypothesis wf : wf_deck d0.

Record view (n : Z) (va : bool) (D : ref -> bool) (s : show) : Prop := {
  v_num : slidenum (nv s) = Some n;
  v_range : 0 <= n < nslides d0;
  v_all : viewAll (nv s) = va;
  v_disp : forall p, p ∈ slides d0 ->
           disp (page s) !! p = Some (if D p then js "block" else js "none")
           /\ vis (page s) !! p = Some (D p);
  v_cls : forall p, Outline.nodeName (doc d0) p <> Some (js "LI") ->
          cls (page s) !! p = Slides.cls d0 !! p;
  v_visible : forall p, is_Some (Outline.visible (page s) !! p) -> Outline.nodeName (doc d0) p = Some (js "LI");
  v_can_fold : forall p, is_Some (Outline.can_fold (page s) !! p) -> Outline.nodeName (doc d0) p = Some (js "LI");
  v_outline : forall p, Outline.outline (page s) = Some p -> Outline.nodeName (doc d0) p = Some (js "LI");
  v_last : forall p, lastShown (nv s) = Some p -> p ∉ slides d0
}.

Definition upd (D : ref -> bool) (p : ref) (v : bool) (q : ref) : bool := if decide (q = p) then v else D q.
Definition only (n : Z) (p : ref) : bool := bool_decide (znth (slides d0) n = Some p).

Lemma view_ext n va D D' s : (forall p, p ∈ slides d0 -> D p = D' p) -> view n va D s -> view n va D' s.
Proof. intros H []. split; try done. intros p Hp. rewrite <- H by done. auto. Qed.

Lemma view_same n va D s s' : view n va D s -> same_view s s' -> view n va D s'.
Proof.
  intros [] (E1 & E2 & E3 & E4). split; rewrite ?E1, ?E2, ?E3, ?E4; done.
Qed.

Lemma view_keeps {A} (m : M A) n va D : keeps m -> triple (view n va D) m (fun _ => view n va D).
Proof. intros Hm. apply (respects_triple same_view); [done|]. intros. by eapply view_same. Qed.

Lemma div_not_li p n : Outline.nodeName (doc d0) p = Some n -> div_name n ->
  Outline.nodeName (doc d0) p <> Some (js "LI").
Proof. intros -> [-> | ->]; by intros [=]. Qed.

Lemma slide_class n va D s p :
  view n va D s -> p ∈ slides d0 ++ notes d0 ++ backgrounds d0 ->
  Outline.get_cls (page s) p = class_of d0 p.
Proof.
  intros Hv Hp. unfold Outline.get_cls, class_of. rewrite (v_cls _ _ _ _ Hv); [done|].
  rewrite !elem_of_app in Hp.
  assert (exists m, Outline.nodeName (doc d0) p = Some m /\ div_name m) as (m & Hm & Hd).
  { destruct Hp as [Hp|[Hp|Hp]]; [by apply (wf_div _ wf) | by apply (wf_note_div _ wf) | by apply (wf_bg_div _ wf)]. }
  by eapply div_not_li.
Qed.

(** *** Items *)
Lemma item_loop_result d move fuel node p :
  item_loop d move fuel node = Some p -> parentNode p = None \/ item d p.
Proof.
  revert node. induction fuel as [|fuel IH]; intros node; simpl; [done|].
  destruct (move node) as [q|]; [|done]. destruct (parentNode q) as [r|] eqn:Er; [|by intros [= <-]; left].
  destruct (is_item d q r) eqn:Ei; [|apply IH]. intros [= <-]. right. unfold item. by rewrite Er.
Qed.

Lemma slide_not_item n va D s p : view n va D s -> p ∈ slides d0 -> ~ item (deck_of d0 s) p.
Proof.
  intros Hv Hp Hi. destruct (wf_parent _ wf p Hp) as (q & Hq & Hli & Hinc).
  destruct (wf_div _ wf p Hp) as (m & Hm & Hd). unfold item in Hi. rewrite Hq in Hi.
  unfold is_item in Hi. change (name_of (deck_of d0 s) p) with (Outline.nodeName (doc d0) p) in Hi. rewrite Hm in Hi.
  assert (class_of (deck_of d0 s) q = class_of d0 q) as Hc.
  { unfold class_of, deck_of. cbn [Slides.cls]. by rewrite (v_cls _ _ _ _ Hv). }
  rewrite Hc, Hinc in Hi. destruct (bool_decide _); [done|].
  rewrite andb_false_l, orb_false_r in Hi. apply andb_true_iff in Hi as [_ Hok].
  destruct Hd as [-> | ->]; by vm_compute in Hok.
Qed.

Lemma found_not_slide n va D s move fuel node p :
  view n va D s -> item_loop (deck_of d0 s) move fuel node = Some p -> p ∉ slides d0.
Proof.
  intros Hv Hl Hp. destruct (item_loop_result _ _ _ _ _ Hl) as [Hr|Hi].
  - destruct (wf_parent _ wf p Hp) as (q & Hq & _). congruence.
  - by eapply slide_not_item.
Qed.

Lemma next_item_view n va D node :
  triple (view n va D) (next_item d0 node)
    (fun a s => view n va D s /\ forall p, a = Some p -> p ∉ slides d0).
Proof.
  intros s Hv. unfold next_item, current, slide_at. rewrite (v_num _ _ _ _ Hv). cbn [mbind option_bind].
  destruct (znth (slides d0) n) as [r|] eqn:Er.
  - eexists _, s. split; [done|]. split; [done|]. intros p Hp. by eapply found_not_slide.
  - apply znth_None in Er. pose proof (v_range _ _ _ _ Hv). unfold nslides in *. lia.
Qed.

Lemma previous_item_view n va D node :
  triple (view n va D) (previous_item d0 node)
    (fun a s => view n va D s /\ forall p, a = Some p -> p ∉ slides d0).
Proof.
  intros s Hv. unfold previous_item, current, slide_at. rewrite (v_num _ _ _ _ Hv). cbn [mbind option_bind].
  destruct (znth (slides d0) n) as [r|] eqn:Er.
  - eexists _, s. split; [done|]. split; [done|]. intros p Hp. by eapply found_not_slide.
  - apply znth_None in Er. pose proof (v_range _ _ _ _ Hv). unfold nslides in *. lia.
Qed.

(** *** Assignments *)
Lemma set_lastShown_view n va D p :
  (forall q, p = Some q -> q ∉ slides d0) ->
  triple (view n va D) (set_lastShown p) (fun _ => view n va D).
Proof. intros Hp. apply triple_modify. intros s []. by split. Qed.

Lemma set_slidenum_view n m va D :
  0 <= m < nslides d0 -> triple (view n va D) (set_slidenum (Some m)) (fun _ => view m va D).
Proof. intros Hm. apply triple_modify. intros s []. by split. Qed.

Lemma set_viewAll_view n va va' D : triple (view n va D) (set_viewAll va') (fun _ => view n va' D).
Proof. apply triple_modify. intros s []. by split. Qed.

Lemma style_node_view n va D p (v : bool) :
  triple (view n va D) (style_node (if v then js "block" else js "none") v p) (fun _ => view n va (upd D p v)).
Proof.
  apply triple_modify. intros s []. split; try done. intros q Hq. simpl. unfold upd.
  destruct (decide (q = p)) as [->|Hne]; [by rewrite !lookup_insert_eq|].
  rewrite !lookup_insert_ne by done. auto.
Qed.

Lemma write_vis_view n va D p v :
  (forall q, p = Some q -> q ∉ slides d0) ->
  triple (view n va D) (write_vis d0 p v) (fun _ => view n va D).
Proof.
  intros Hp s Hv. destruct p as [p|]; [|by exists tt, s]. unfold write_vis.
  destruct (is_some _); [|by exists tt, s]. exists tt. eexists. split; [reflexivity|].
  destruct Hv. split; try done. intros q Hq. simpl. specialize (Hp p eq_refl).
  rewrite lookup_insert_ne by (intros ->; done). auto.
Qed.

Lemma slide_node p : p ∈ slides d0 -> exists x, at_ (doc d0) p = Some x.
Proof.
  intros Hp. destruct (wf_div _ wf p Hp) as (m & Hm & _). unfold Outline.nodeName in Hm.
  destruct (at_ (doc d0) p) as [x|]; [by exists x | done].
Qed.

Lemma current_slide n va D s :
  view n va D s -> exists p, current d0 s = Some p /\ p ∈ slides d0 /\ only n p = true
    /\ forall q, q ∈ slides d0 -> q <> p -> only n q = false.
Proof.
  intros Hv. pose proof (v_range _ _ _ _ Hv) as Hr. unfold nslides in Hr.
  destruct (znth_is_Some (slides d0) n) as [_ [p Hp]]; [done|].
  exists p. unfold current, slide_at. rewrite (v_num _ _ _ _ Hv). cbn [mbind option_bind]. split_and!; [done| | |].
  - by eapply znth_elem.
  - unfold only. by rewrite bool_decide_eq_true.
  - intros q _ Hne. unfold only. rewrite bool_decide_eq_false. congruence.
Qed.

Lemma all_items_view n va D v : triple (view n va D) (all_items d0 v) (fun _ => view n va D).
Proof.
  intros s Hv. destruct (current_slide _ _ _ _ Hv) as (r & Hr & Hin & _). unfold all_items. rewrite Hr.
  exists tt. eexists. split; [reflexivity|]. destruct (slide_node r Hin) as [x Hx].
  pose proof (fun p => slide_not_item n va D s p Hv) as Hno. pose proof Hv as Hv'. destruct Hv'. split; try done.
  intros p Hp. simpl. split; [by apply v_disp0|].
  rewrite (Slides.setVisibility_spec (deck_of d0 s) r x) by done.
  rewrite decide_False; [by apply v_disp0|]. intros [Hi _]%list_elem_of_filter. by eapply Hno.
Qed.

(** *** Slides *)
Lemma style_background n va D p (v : bool) :
  p ∈ backgrounds d0 -> triple (view n va D) (style_node (if v then js "block" else js "none") v p) (fun _ => view n va D).
Proof.
  intros Hp. eapply triple_conseq; [apply style_node_view | done |]. intros ? s. apply view_ext.
  intros q Hq. unfold upd. destruct (decide (q = p)) as [->|]; [|done].
  by destruct (wf_apart _ wf p Hq).
Qed.

Lemma hideBackgrounds_view n va D : triple (view n va D) (hideBackgrounds d0) (fun _ => view n va D).
Proof. apply triple_each. intros p Hp. by apply (style_background n va D p false). Qed.

Lemma syncBackground_view n va D p :
  p ∈ slides d0 ++ notes d0 -> triple (view n va D) (syncBackground d0 bg (Some p)) (fun _ => view n va D).
Proof.
  intros Hp. unfold syncBackground. apply triple_get_bind. intros c.
  destruct (bool_decide _);
    [|eapply triple_conseq; [apply hideBackgrounds_view | intros s [Hv _]; exact Hv | intros ? s Hs; exact Hs]].
  apply (triple_read _ _ (class_of d0 p)).
  { intros s [Hv _]. eapply slide_class; [done | set_solver]. }
  eapply triple_conseq; [|intros s [Hv _]; exact Hv | intros ? s Hs; exact Hs]. apply triple_each. intros q Hq.
  apply (triple_read _ _ (class_of d0 q)). { intros s Hv. eapply slide_class; [done | set_solver]. }
  destruct (wf_match _ wf p q Hp Hq) as [[] ->]; [by apply (style_background n va D q true) | by apply (style_background n va D q false)].
Qed.

Lemma showSlide_view n va D p :
  p ∈ slides d0 ++ notes d0 -> triple (view n va D) (showSlide d0 bg (Some p)) (fun _ => view n va (upd D p true)).
Proof.
  intros Hp. unfold showSlide. eapply triple_seq; [by apply syncBackground_view|].
  by apply (style_node_view n va D p true).
Qed.

Lemma hideSlide_view n va D p :
  triple (view n va D) (hideSlide (Some p)) (fun _ => view n va (upd D p false)).
Proof. by apply (style_node_view n va D p false). Qed.

Definition none_shown : ref -> bool := fun _ => false.

Lemma hide_current_view n va :
  triple (view n va (only n)) (hide_current d0) (fun _ => view n va none_shown).
Proof.
  intros s Hv. destruct (current_slide _ _ _ _ Hv) as (p & Hc & Hp & Ho & Hno).
  unfold hide_current, this_slide, get, mbind, M_bind. rewrite Hc.
  destruct (hideSlide_view n va (only n) p s Hv) as ([] & s' & E & Hs). exists tt, s'. split; [done|].
  eapply view_ext; [|exact Hs]. intros q Hq. unfold upd, none_shown. case_decide; [done|]. by apply Hno.
Qed.

Lemma show_slide_view n m va p :
  znth (slides d0) n = Some p -> 0 <= m < nslides d0 ->
  triple (view m va none_shown) (showSlide d0 bg (Some p)) (fun _ => view m va (only n)).
Proof.
  intros Hn Hm. eapply triple_conseq; [apply (showSlide_view m va none_shown p) | done |].
  - apply elem_of_app. left. by eapply znth_elem.
  - intros ? s. apply view_ext. intros q Hq. unfold upd, none_shown, only. rewrite Hn.
    case_decide; [subst; by rewrite bool_decide_eq_true_2 | rewrite bool_decide_eq_false_2; congruence].
Qed.

(** *** Outlines *)
Lemma block_not_slide item p : p ∈ Outline.block_kids (doc d0) item -> p ∉ slides d0.
Proof.
  intros [Hb _]%list_elem_of_filter Hp. destruct (wf_div _ wf p Hp) as (m & Hm & Hd). rewrite Hm in Hb.
  destruct Hd as [-> | ->]; by vm_compute in Hb.
Qed.

(** A change of the page inside an outline item. *)
Definition inside (item : ref) (o o' : outl) : Prop :=
  (forall p, p <> item -> cls o' !! p = cls o !! p)
  /\ (forall p, p ∉ Outline.block_kids (doc d0) item -> disp o' !! p = disp o !! p /\ vis o' !! p = vis o !! p)
  /\ (forall p, p <> item -> Outline.visible o' !! p = Outline.visible o !! p)
  /\ (forall p, p <> item -> Outline.can_fold o' !! p = Outline.can_fold o !! p)
  /\ Outline.outline o' = Outline.outline o.

#[export] Instance inside_refl item : Reflexive (inside item).
Proof. intros o. split_and!; auto. Qed.
#[export] Instance inside_trans item : Transitive (inside item).
Proof.
  intros o o1 o2 (A1 & A2 & A3 & A4 & A5) (B1 & B2 & B3 & B4 & B5). split_and!.
  - intros p Hp. by rewrite B1, A1.
  - intros p Hp. destruct (A2 p Hp), (B2 p Hp). split; congruence.
  - intros p Hp. by rewrite B3, A3.
  - intros p Hp. by rewrite B4, A4.
  - congruence.
Qed.

Section outlines.
Variable computed : outl -> ref -> jstring.

Lemma inside_attr item o o' :
  (forall p, p <> item -> cls o' !! p = cls o !! p) -> disp o' = disp o -> vis o' = vis o ->
  (forall p, p <> item -> Outline.visible o' !! p = Outline.visible o !! p) ->
  (forall p, p <> item -> Outline.can_fold o' !! p = Outline.can_fold o !! p) ->
  Outline.outline o' = Outline.outline o -> inside item o o'.
Proof. intros H1 H2 H3 H4 H5 H6. unfold inside. rewrite H2, H3. split_and!; auto. Qed.

Lemma set_cls_inside item c o : inside item o (Outline.set_cls item c o).
Proof. apply inside_attr; try done. intros p Hp. simpl. by rewrite lookup_insert_ne. Qed.
Lemma set_visible_inside item v o : inside item o (Outline.set_visible item v o).
Proof. apply inside_attr; try done. intros p Hp. simpl. by rewrite lookup_insert_ne. Qed.
Lemma set_can_fold_inside item v o : inside item o (Outline.set_can_fold item v o).
Proof. apply inside_attr; try done. intros p Hp. simpl. by rewrite lookup_insert_ne. Qed.
Lemma set_tabindex_inside item v o : inside item o (Outline.set_tabindex item v o).
Proof. by apply inside_attr. Qed.

Lemma fold_inside item o : inside item o (Outline.fold (doc d0) computed item o).
Proof.
  unfold Outline.fold. cbv zeta. etransitivity; [|apply set_visible_inside].
  match goal with |- inside _ _ (fold_left _ _ ?x) =>
    transitivity x; [etransitivity; apply set_cls_inside | generalize x; intros o1] end.
  destruct (Outline.fold_children_spec computed (Outline.block_kids (doc d0) item) o1
    (Outline.block_kids_nodup _ _)) as (H1 & H2 & H3 & _ & H5 & H).
  unfold inside. rewrite H1, H2, H3, H5. split_and!; try done.
  intros p Hp. destruct (H p) as [_ Hout]. by destruct (Hout Hp) as (-> & -> & _).
Qed.

Lemma unfold_inside item o : inside item o (Outline.unfold (doc d0) item o).
Proof.
  unfold Outline.unfold. cbv zeta. etransitivity; [|apply set_visible_inside].
  match goal with |- inside _ _ (fold_left _ _ ?x) =>
    transitivity x; [etransitivity; apply set_cls_inside | generalize x; intros o1] end.
  destruct (Outline.unfold_children_spec (Outline.block_kids (doc d0) item) o1
    (Outline.block_kids_nodup _ _)) as (H1 & H2 & H3 & _ & H5 & _ & H).
  unfold inside. rewrite H1, H2, H3, H5. split_and!; try done.
  intros p Hp. destruct (H p) as [_ Hout]. by destruct (Hout Hp) as (-> & ->).
Qed.

Lemma init_inside item o : inside item o (Outline.init_item (doc d0) computed o item).
Proof.
  unfold Outline.init_item. cbv zeta. destruct (parentNode item); [|done]. destruct (negb _); [done|].
  destruct (Outline.foldable _ _).
  - set (o1 := Outline.set_can_fold item true o).
    transitivity o1; [apply set_can_fold_inside|].
    set (o2 := match Outline.tabindex o1 !! item with Some (_ :: _) => o1 | _ => _ end).
    transitivity o2; [unfold o2; repeat case_match; try done; apply set_tabindex_inside|].
    destruct (Classes.hasClass _ _); [apply unfold_inside | apply fold_inside].
  - etransitivity; [apply set_cls_inside|]. etransitivity; [apply set_visible_inside|]. apply set_can_fold_inside.
Qed.

(** A change inside an item of an outline leaves the slides as they are. *)
Lemma view_inside n va D s item o' :
  view n va D s -> Outline.nodeName (doc d0) item = Some (js "LI") -> inside item (page s) o' ->
  view n va D (MkShow (nv s) o' (lay s) (ad s) (lk s) (us s)).
Proof.
  intros [H1 H2 H3 H4 H5 H6 H7 H8 H9] Hli (I1 & I2 & I3 & I4 & I5).
  split; simpl; try done.
  - intros p Hp. destruct (I2 p) as [-> ->]; [|auto]. intros Hb. by apply (block_not_slide item p).
  - intros p Hp. rewrite I1; [auto|]. by intros ->.
  - intros p Hp. destruct (decide (p = item)) as [->|Hne]; [done|]. apply H6. by rewrite <- I3.
  - intros p Hp. destruct (decide (p = item)) as [->|Hne]; [done|]. apply H7. by rewrite <- I4.
  - by rewrite I5.
Qed.
End outlines.
End view.
End View.
