(* ===== verification/ShowSafe.v ===== *)
(** * One slide at a time

    Every operation and every event leaves exactly the current slide displayed,
    unless all slides are shown at once. *)
From S2P Require Import Prelude JsString Dom Slides Location Localize Outline Contents Show ShowLogic.

Module Safe.
Import Dom Slides Show Logic View.
Import Outline (outl, cls, disp, vis).

Section safe.
Variables (b : browser) (d0 : deck) (title lang : jstring).
Variable by_id : jstring -> option ref.
Variable computed : outl -> ref -> jstring.
Variable bg : style_api.
Hypothesis wf : wf_deck d0.

Abbreviation view := (view d0).
Abbreviation only := (only d0).

(** A state where the slide [n] is the only one displayed, or where all are. *)
Definition right_at (n : Z) (va : bool) (s : show) : Prop :=
  exists D, view n va D s /\ (va = false -> forall p, p ∈ slides d0 -> D p = only n p).
Definition right (s : show) : Prop := exists n va, right_at n va s.

Lemma right_single n s : right_at n false s -> view n false (only n) s.
Proof. intros (D & Hv & HD). eapply view_ext; [|done]. by apply HD. Qed.
Lemma single_right n s : view n false (only n) s -> right s.
Proof. intros Hv. by exists n, false, (only n). Qed.
Lemma all_right n D s : view n true D s -> right s.
Proof. intros Hv. by exists n, true, D. Qed.

Lemma right_keeps {A} (m : M A) : keeps m -> triple right m (fun _ => right).
Proof.
  intros Hm. apply (respects_triple same_view); [done|]. intros s s' (n & va & D & Hv & HD) Hs.
  exists n, va, D. split; [by eapply view_same | done].
Qed.

Lemma with_slide {B} n va D (k : option ref -> M B) Q :
  (forall p, znth (slides d0) n = Some p -> p ∈ slides d0 -> triple (view n va D) (k (Some p)) Q) ->
  triple (view n va D) (this_slide d0 ≫= k) Q.
Proof.
  intros H s Hv. destruct (current_slide d0 n va D s Hv) as (p & Hc & Hp & _).
  unfold this_slide, get, mbind, M_bind. rewrite Hc. apply (H p); [|done|done].
  unfold current, slide_at in Hc. by rewrite (v_num _ _ _ _ _ Hv) in Hc.
Qed.

(** Cases on whether all slides are shown. *)
Lemma right_cases {A} (m : M A) (Q : A -> show -> Prop) :
  (forall n, triple (view n false (only n)) m Q) -> (forall n D, triple (view n true D) m Q) ->
  triple right m Q.
Proof.
  intros H1 H2 s (n & va & Hr). destruct va.
  - destruct Hr as (D & Hv & _). by apply (H2 n D).
  - by apply (H1 n), right_single.
Qed.

Lemma unless_viewAll m :
  (forall n, triple (view n false (only n)) m (fun _ => right)) ->
  triple right (va ← get (fun s => viewAll (nv s)); when (negb va) m) (fun _ => right).
Proof.
  intros H. apply right_cases.
  - intros n. apply (triple_read _ _ false); [by intros s []|]. apply H.
  - intros n D. apply (triple_read _ _ true); [by intros s []|].
    apply triple_ret. intros s. apply all_right.
Qed.

(** The item found is no slide, and [lastShown] may become it. *)
Lemma last_to_end_view n va D : triple (view n va D) (last_to_end d0) (fun _ => view n va D).
Proof.
  eapply triple_bind; [by apply previous_item_view|]. intros p s [Hv Hp]. by apply (set_lastShown_view d0 n va D p).
Qed.

Lemma update_eos_view n va D : triple (view n va D) (update_eos d0) (fun _ => view n va D).
Proof.
  apply triple_get_bind. intros l.
  eapply triple_bind; [eapply triple_conseq; [by apply next_item_view | by intros s [Hv _] | intros ? s Hs; exact Hs]|].
  intros p. eapply triple_conseq; [by apply view_keeps, keeps_setEosStatus | by intros s [Hv _] | intros ? s Hs; exact Hs].
Qed.

Lemma refresh_when n va D : triple (view n va D) (when (negb (ns_pos b)) (refreshToolbar b)) (fun _ => view n va D).
Proof. apply view_keeps, kv_when, keeps_refreshToolbar. Qed.

Lemma setLocation_view n va D : triple (view n va D) (setLocation b d0 title lang) (fun _ => view n va D).
Proof. apply view_keeps, keeps_setLocation. Qed.

Definition no_slide (p : option ref) : Prop := forall q, p = Some q -> q ∉ slides d0.

(** [lastShown] is no slide. *)
Lemma with_last {B} n va D (k : option ref -> M B) Q :
  (forall l, no_slide l -> triple (view n va D) (k l) Q) ->
  triple (view n va D) (get (fun s => lastShown (nv s)) ≫= k) Q.
Proof.
  intros H s Hv. unfold get, mbind, M_bind. apply (H (lastShown (nv s))); [|done].
  intros q. by apply (v_last _ _ _ _ _ Hv).
Qed.

Lemma hide_previous_view n va D l :
  no_slide l -> triple (view n va D) (hide_previous d0 l) (fun p s => view n va D s /\ no_slide p).
Proof. intros Hl. eapply triple_seq; [by apply write_vis_view | by apply previous_item_view]. Qed.

Lemma reveal_next_view n va D l :
  triple (view n va D) (reveal_next d0 l) (fun p s => view n va D s /\ no_slide p).
Proof.
  eapply triple_bind; [by apply next_item_view|]. intros p s [Hv Hp].
  destruct (write_vis_view d0 n va D p true Hp s Hv) as ([] & s' & E & Hs).
  exists p, s'. split; [|done]. unfold mbind, M_bind. by rewrite E.
Qed.

(** One slide is displayed, the current one. *)
Definition single (s : show) : Prop := exists n, view n false (only n) s.

Lemma single_is_right s : single s -> right s.
Proof. intros [n Hn]. by eapply single_right. Qed.

Lemma single_keeps {A} (m : M A) : keeps m -> triple single m (fun _ => single).
Proof.
  intros Hm. apply (respects_triple same_view); [done|]. intros s s' [n Hv] Hs. exists n. by eapply view_same.
Qed.

Lemma single_eos : triple single (update_eos d0) (fun _ => single).
Proof.
  intros s [n Hv]. destruct (update_eos_view n false _ s Hv) as (a & s' & E & Hs). exists a, s'. split; [done | by exists n].
Qed.

(** From a state with one slide displayed to the next such state. *)
Lemma single_from n (m : M unit) : triple (view n false (only n)) m (fun _ => single) ->
  triple (view n false (only n)) m (fun _ => right).
Proof. intros H. eapply triple_conseq; [exact H | done | intros ?; apply single_is_right]. Qed.

Lemma view_single n s : view n false (only n) s -> single s.
Proof. by exists n. Qed.

Lemma to_single n (m : M unit) :
  triple (view n false (only n)) m (fun _ => view n false (only n)) ->
  triple (view n false (only n)) m (fun _ => single).
Proof. intros H. eapply triple_conseq; [exact H | done | intros ?; apply view_single]. Qed.

Lemma with_range {A} n va D (m : M A) Q :
  (0 <= n < nslides d0 -> triple (view n va D) m Q) -> triple (view n va D) m Q.
Proof. intros H s Hv. apply H; [by eapply v_range | done]. Qed.

Lemma show_single n p :
  znth (slides d0) n = Some p -> 0 <= n < nslides d0 ->
  triple (view n false (none_shown)) (showSlide d0 bg (Some p)) (fun _ => single).
Proof.
  intros Hn Hr. eapply triple_conseq; [by apply show_slide_view | done|]. intros ? s Hv. by exists n.
Qed.

Ltac step := eapply triple_seq;
  [first [ by apply all_items_view | apply last_to_end_view | apply update_eos_view | apply setLocation_view
         | apply set_lastShown_view; done | by apply view_keeps, keeps_setEosStatus
         | by apply view_keeps, keeps_set_title | by apply hide_current_view
         | apply set_slidenum_view; lia ]|].

Lemma previousSlide_right i : triple right (previousSlide b d0 title lang bg i) (fun _ => right).
Proof.
  apply unless_viewAll. intros n. apply single_from. 
  apply (triple_read _ _ (Some n)); [by intros s []|]. apply with_last. intros last Hlast.
  eapply triple_seq with (R := single).
  - destruct (_ && _).
    + apply to_single. eapply triple_bind; [by apply hide_previous_view|].
      intros p. apply triple_pure. intros Hp. step. by apply view_keeps, keeps_setEosStatus.
    + apply triple_when; [intros Hn | intros _ s; apply view_single].
      apply Z.ltb_lt in Hn. apply with_range. intros Hr.
      change (num_add (Some n) (-1)) with (Some (n + -1)).
      step. step. apply with_slide. intros p Hp Hin. step. step. step.
      apply show_single; [done | lia].
  - eapply triple_seq; [apply single_keeps, keeps_setLocation|].
    apply single_keeps, kv_when, keeps_refreshToolbar.
Qed.

Lemma nextSlide_right i : triple right (nextSlide b d0 title lang bg i) (fun _ => right).
Proof.
  apply unless_viewAll. intros n. apply single_from. apply with_last. intros last Hlast.
  apply (triple_read _ _ (Some n)); [by intros s []|].
  eapply triple_seq with (R := view n false (only n)).
  { apply triple_when; [intros _ | done].
    eapply triple_bind; [apply reveal_next_view|]. intros p. apply triple_pure. intros Hp.
    by apply set_lastShown_view. }
  apply with_last. intros shown Hshown. eapply triple_seq with (R := single).
  - destruct ((_ || _) && _) eqn:Ec.
    + apply with_range. intros Hr. apply andb_true_iff in Ec as [_ Hn]. apply Z.ltb_lt in Hn.
      change (num_add (Some n) 1) with (Some (n + 1)).
      step. step. apply with_slide. intros p Hp Hin. step. step. apply show_single; [done | lia].
    + apply to_single. destruct (is_null shown); [|by apply triple_ret].
      apply triple_when; [intros _; by apply set_lastShown_view | done].
  - eapply triple_seq; [apply single_keeps, keeps_setLocation|].
    eapply triple_seq; [apply single_eos|]. apply single_keeps, kv_when, keeps_refreshToolbar.
Qed.

Lemma firstSlide_right : triple right (firstSlide b d0 title lang bg) (fun _ => right).
Proof.
  apply unless_viewAll. intros n. apply single_from. apply (triple_read _ _ (Some n)); [by intros s []|].
  apply with_range. intros Hr. eapply triple_seq with (R := single).
  - apply triple_when; [intros _ | intros _ s; apply view_single].
    step. step. apply with_slide. intros p Hp Hin. step. step. apply show_single; [done | lia].
  - eapply triple_seq; [apply single_eos|]. apply single_keeps, keeps_setLocation.
Qed.

Lemma lastSlide_right : triple right (lastSlide b d0 title lang bg) (fun _ => right).
Proof.
  apply unless_viewAll. intros n. apply single_from. apply with_range. intros Hr. step.
  apply (triple_read _ _ (Some n)); [by intros s []|].
  eapply triple_seq with (R := single).
  - destruct (num_lt _ _).
    + step. step. apply with_slide. intros p Hp Hin. step. step. apply show_single; [done | lia].
    + apply to_single. step. apply last_to_end_view.
  - eapply triple_seq; [apply single_keeps, keeps_setEosStatus|]. apply single_keeps, keeps_setLocation.
Qed.

(** *** States where nothing is said about what is displayed *)
Definition some_view (n : Z) (va : bool) (s : show) : Prop := exists D, view n va D s.

Lemma triple_ex {A X} (P : X -> show -> Prop) (m : M A) Q :
  (forall x, triple (P x) m Q) -> triple (fun s => exists x, P x s) m Q.
Proof. intros H s [x Hs]. by apply (H x). Qed.

Lemma to_some {A} n va D (m : M A) D' :
  triple (view n va D) m (fun _ => view n va D') -> triple (view n va D) m (fun _ => some_view n va).
Proof. intros H. eapply triple_conseq; [exact H | done|]. intros ? s Hv. by exists D'. Qed.

Lemma hide_current_some n va : triple (some_view n va) (hide_current d0) (fun _ => some_view n va).
Proof. apply triple_ex. intros D. apply with_slide. intros p _ _. eapply to_some, hideSlide_view. Qed.

Lemma showSlide_some n va p :
  p ∈ slides d0 ++ notes d0 -> triple (some_view n va) (showSlide d0 bg (Some p)) (fun _ => some_view n va).
Proof. intros Hp. apply triple_ex. intros D. by eapply to_some, showSlide_view. Qed.

(** A step that changes no slide's display. *)
Lemma some_frame {A} n m va va' (c : M A) :
  (forall D, triple (view n va D) c (fun _ => view m va' D)) -> triple (some_view n va) c (fun _ => some_view m va').
Proof.
  intros H. apply triple_ex. intros D. eapply triple_conseq; [apply H | done|]. intros ? s Hv. by exists D.
Qed.

Lemma with_slide_some {B} n va (k : option ref -> M B) Q :
  (forall p, znth (slides d0) n = Some p -> p ∈ slides d0 -> triple (some_view n va) (k (Some p)) Q) ->
  triple (some_view n va) (this_slide d0 ≫= k) Q.
Proof.
  intros H. apply triple_ex. intros D. apply with_slide. intros p Hp Hin s Hv.
  apply (H p Hp Hin). by exists D.
Qed.

Lemma some_right n s : some_view n true s -> right s.
Proof. intros [D Hv]. by eapply all_right. Qed.

Ltac some_step := eapply triple_seq;
  [first [ apply hide_current_some
         | apply some_frame; intros ?;
           first [ by apply all_items_view | apply last_to_end_view | apply update_eos_view | apply setLocation_view
                 | apply set_lastShown_view; done | by apply view_keeps, keeps_setEosStatus
                 | by apply view_keeps, keeps_set_title | apply set_slidenum_view; lia ] ]|].

(** *** Jumps *)
Lemma gotoSlide_right m :
  0 <= m < nslides d0 -> triple right (gotoSlide d0 title lang bg (Some m)) (fun _ => right).
Proof.
  intros Hm. apply right_cases.
  - intros n. apply single_from. step. step. apply with_slide. intros p Hp Hin. step. step. step. step.
    eapply triple_seq; [by apply show_single|]. apply single_keeps, keeps_showSlideNumber.
  - intros n D. eapply triple_conseq with (P' := some_view n true); [|by exists D | intros ? s; apply (some_right m)].
    some_step. some_step. apply with_slide_some. intros p Hp Hin. some_step. some_step. some_step. some_step.
    eapply triple_seq; [apply showSlide_some; set_solver|].
    apply some_frame. intros D'. apply view_keeps, keeps_showSlideNumber.
Qed.

(** An address that names a slide number, rather than [NaN], whatever the classes
    of the page are. *)
Definition good_uri (uri : jstring) : Prop :=
  forall s, Location.findSlideNumber (deck_of d0 s) by_id uri <> None.

Lemma with_number {B} P uri (k : deck -> M B) Q :
  good_uri uri ->
  (forall d m, Location.findSlideNumber d by_id uri = Some m -> 0 <= m < nslides d0 -> triple P (k d) Q) ->
  triple P (get (deck_of d0) ≫= k) Q.
Proof.
  intros Hg H s Hs. unfold get, mbind, M_bind.
  destruct (Location.findSlideNumber (deck_of d0 s) by_id uri) as [m|] eqn:E; [|by destruct (Hg s)].
  apply (H _ m); [done | | done].
  apply (Location.findSlideNumber_bounds (deck_of d0 s) by_id uri m); [|done]. apply (wf_some _ wf).
Qed.

Lemma keeps_focus_help : keeps (focus_help b).
Proof. unfold focus_help, set_focus. keeps. Qed.

Lemma goto_uri_right uri : good_uri uri -> triple right (goto_uri b d0 title lang by_id bg uri) (fun _ => right).
Proof.
  intros Hg. unfold goto_uri. apply right_cases.
  - intros n. step. apply (with_number _ uri); [done|]. intros d m -> Hm.
    step. apply with_slide. intros p Hp Hin. step. step. step. step.
    eapply triple_seq; [by apply show_single|].
    eapply triple_conseq; [apply single_keeps, keeps_focus_help | done | intros ?; apply single_is_right].
  - intros n D. eapply triple_conseq with (P' := some_view n true) (Q' := fun _ => right); [|by exists D | done].
    some_step. apply (with_number _ uri); [done|]. intros d m -> Hm.
    eapply triple_conseq with (Q' := fun _ => some_view m true); [|done | intros ? s; apply some_right].
    some_step. apply with_slide_some. intros p Hp Hin. some_step. some_step. some_step. some_step.
    eapply triple_seq; [apply showSlide_some; set_solver|].
    apply some_frame. intros D'. apply view_keeps, keeps_focus_help.
Qed.

Lemma clickedAnchor_right to no_target :
  good_uri to -> triple right (clickedAnchor b d0 title lang by_id bg to no_target) (fun _ => right).
Proof.
  intros Hg. unfold clickedAnchor. apply triple_get_bind. intros h.
  eapply triple_conseq; [|intros s [Hr _]; exact Hr | intros ? s Hs; exact Hs].
  destruct (bool_decide _).
  2: { apply right_keeps, kv_when. apply keeps_ad. }
  apply right_cases.
  - intros n. apply (triple_read _ _ (Some n)); [by intros s []|].
    apply (with_number _ to); [done|]. intros d m -> Hm.
    apply triple_when; [intros _ | intros _ s; apply single_right].
    step. step. apply with_slide. intros p Hp Hin. eapply triple_seq; [by apply show_single|].
    eapply triple_conseq; [apply single_keeps, keeps_setLocation | done | intros ?; apply single_is_right].
  - intros n D. apply (triple_read _ _ (Some n)); [by intros s []|].
    apply (with_number _ to); [done|]. intros d m -> Hm.
    apply triple_when; [intros _ | intros _ s; apply all_right].
    eapply triple_conseq with (P' := some_view n true) (Q' := fun _ => some_view m true);
      [|by exists D | intros ? s; apply some_right].
    some_step. some_step. apply with_slide_some. intros p Hp Hin.
    eapply triple_seq; [apply showSlide_some; set_solver|].
    apply some_frame. intros D'. apply setLocation_view.
Qed.

(** The poll of the address is safe as long as the fragment has no number of a
    slide that does not exist. *)
Definition good_hash (h : jstring) : Prop :=
  match Location.parseInt (substr_from 2 h) with Some k => 1 <= k <= nslides d0 | None => True end.

Lemma checkLocation_right h :
  good_hash h ->
  triple (fun s => right s /\ Location.location_hash (href (ad s)) = h) (checkLocation d0 title lang bg) (fun _ => right).
Proof.
  intros Hh. unfold checkLocation. apply (triple_read _ _ h); [by intros s [_ ?]|].
  eapply triple_conseq; [|intros s [Hr _]; exact Hr | intros ? s Hs; exact Hs].
  apply triple_get_bind. intros n. eapply triple_conseq; [|intros s [Hr _]; exact Hr | intros ? s Hs; exact Hs].
  assert (0 < nslides d0) as H0.
  { unfold nslides. pose proof (wf_some _ wf). destruct (slides d0) as [|x l]; [done|]. rewrite zlen_cons.
    pose proof (zlen_nonneg l). lia. }
  destruct (_ && _); [apply gotoSlide_right; lia|].
  apply triple_when; [|done]. intros _. unfold good_hash in Hh.
  destruct (Location.parseInt _) as [k|]; [apply gotoSlide_right; lia | by apply triple_ret].
Qed.

(** *** The size of the text *)
Lemma hide_nth n va p :
  znth (slides d0) n = Some p ->
  triple (view n va (only n)) (hideSlide (Some p)) (fun _ => view n va none_shown).
Proof.
  intros Hp. eapply triple_conseq; [apply hideSlide_view | done |]. intros ? s. apply view_ext.
  intros q Hq. unfold upd, none_shown, View.only. case_decide; [done|].
  rewrite bool_decide_eq_false. congruence.
Qed.

Lemma hideSlide_some n va p : triple (some_view n va) (hideSlide (Some p)) (fun _ => some_view n va).
Proof. apply triple_ex. intros D. eapply to_some, hideSlide_view. Qed.

Lemma reflow_right : triple right (reflow d0 bg) (fun _ => right).
Proof.
  unfold reflow. apply right_cases.
  - intros n. apply single_from, with_range. intros Hr. apply with_slide. intros p Hp Hin.
    eapply triple_seq; [by apply hide_nth | by apply show_single].
  - intros n D. eapply triple_conseq with (P' := some_view n true); [|by exists D | intros ? s; apply (some_right n)].
    apply with_slide_some. intros p Hp Hin.
    eapply triple_seq; [apply hideSlide_some | apply showSlide_some; set_solver].
Qed.

Lemma keeps_apply_size : keeps apply_size.
Proof. unfold apply_size, set_fontSize. keeps. Qed.

Ltac right_step := eapply triple_seq; [first [ apply reflow_right
  | apply right_keeps; unfold set_sizeIndex, set_tb_display, later_showToolbar, set_last_size, adjustObjectDimensions, set_objects;
    auto using keeps_apply_size with keeps nocore; keeps ]|].

Lemma smaller_right : triple right (smaller d0 bg) (fun _ => right).
Proof.
  apply triple_get_bind. intros i. eapply triple_conseq; [|intros s [Hr _]; exact Hr | intros ? s Hs; exact Hs].
  right_step. right_step. right_step. right_step. apply right_keeps, keeps_us.
Qed.

Lemma bigger_right : triple right (bigger d0 bg) (fun _ => right).
Proof.
  apply triple_get_bind. intros i. eapply triple_conseq; [|intros s [Hr _]; exact Hr | intros ? s Hs; exact Hs].
  right_step. right_step. right_step. right_step. apply right_keeps, keeps_us.
Qed.

(** Reading a part of the state. *)
Lemma right_get {A B} (f : show -> A) (k : A -> M B) (Q : B -> show -> Prop) :
  (forall v, triple right (k v) Q) -> triple right (get f ≫= k) Q.
Proof.
  intros H. apply triple_get_bind. intros v.
  eapply triple_conseq; [apply (H v) | intros s [Hr _]; exact Hr | intros ? s Hs; exact Hs].
Qed.

Lemma resized_right adj w h : triple right (resized b d0 bg adj w h) (fun _ => right).
Proof.
  unfold resized. apply right_get. intros lw. apply right_get. intros lh.
  apply triple_when; [intros _ | done]. apply right_get. intros i.
  right_step. right_step. right_step. right_step. right_step. apply right_keeps, keeps_refreshToolbar.
Qed.

(** *** All slides at once, and back *)
Definition single_body (x : Z * ref) : M unit :=
  let '(i, p) := x in
  n ← get (fun s => slidenum (nv s));
  set_position p (js "absolute");;
  set_border p (js "none");;
  if num_eq (Some i) n then showSlide d0 bg (Some p) else hideSlide (Some p).

Lemma single_body_view n va D i p :
  znth (slides d0) i = Some p -> 0 <= n < nslides d0 ->
  triple (view n va D) (single_body (i, p)) (fun _ => view n va (upd D p (only n p))).
Proof.
  intros Hp Hn. unfold single_body. apply (triple_read _ _ (Some n)); [by intros s []|].
  eapply triple_seq; [apply view_keeps, keeps_lay|]. eapply triple_seq; [apply view_keeps, keeps_lay|].
  unfold num_eq. destruct (Z.eqb_spec i n) as [->|Hne].
  - replace (only n p) with true by (unfold View.only; by rewrite bool_decide_eq_true_2).
    apply (showSlide_view d0 bg wf n va D p). apply elem_of_app. left. by eapply znth_elem.
  - replace (only n p) with false; [apply hideSlide_view|].
    unfold View.only. symmetry. rewrite bool_decide_eq_false. intros Hp'. apply Hne.
    unfold znth in *. repeat case_decide; try done.
    pose proof (NoDup_lookup _ _ _ _ (wf_nodup _ wf) Hp Hp'). lia.
Qed.

Lemma single_loop n va l : forall done D,
  slides d0 = done ++ l -> 0 <= n < nslides d0 -> (forall p, p ∈ done -> D p = only n p) ->
  triple (view n va D) (each (numbered (zlen done) l) single_body) (fun _ => view n va (only n)).
Proof.
  induction l as [|p l IH]; intros dn D Hs Hn HD; cbn [numbered each].
  - apply triple_ret. intros s. apply view_ext. intros q Hq. apply HD. rewrite Hs, app_nil_r in Hq. done.
  - eapply triple_seq; [apply single_body_view; [rewrite Hs; apply znth_app_len | done]|].
    replace (zlen dn + 1) with (zlen (dn ++ [p])) by jslia.
    apply IH; [by rewrite <- app_assoc | done |]. intros q Hq. unfold upd.
    case_decide; [by subst|]. apply HD. set_solver.
Qed.

Lemma singleSlideView_view n va D : triple (view n va D) (singleSlideView d0 bg) (fun _ => view n va (only n)).
Proof.
  apply with_range. intros Hn. unfold singleSlideView.
  eapply triple_seq; [apply (single_loop n va (slides d0) []); [done | done | by intros p ?%elem_of_nil]|].
  step. step. apply triple_each. intros p Hp.
  eapply triple_conseq; [apply hideSlide_view | done|]. intros ? s. apply view_ext. intros q Hq.
  unfold upd. case_decide; [subst | done]. by destruct (wf_apart _ wf p Hq).
Qed.

Lemma showAllSlides_some n va : triple (some_view n va) (showAllSlides d0 bg) (fun _ => some_view n va).
Proof.
  unfold showAllSlides. eapply triple_seq; [|eapply triple_seq].
  - apply triple_each. intros [i p] Hip.
    assert (p ∈ slides d0) as Hp.
    { revert Hip. generalize 0. induction (slides d0) as [|q l IH]; intros k Hip; [by apply elem_of_nil in Hip|].
      apply elem_of_cons in Hip as [[= -> ->]|Hip]; [left | right; by eapply IH]. }
    eapply triple_seq; [apply some_frame; intros D; apply view_keeps, keeps_lay|].
    eapply triple_seq; [apply some_frame; intros D; apply view_keeps, keeps_lay|].
    eapply triple_seq; [apply some_frame; intros D; apply view_keeps, keeps_lay|].
    some_step. apply showSlide_some. set_solver.
  - apply triple_each. intros p Hp. apply showSlide_some. set_solver.
  - apply some_frame. intros D. by apply hideBackgrounds_view.
Qed.

Lemma toggleView_right : triple right (toggleView b d0 bg) (fun _ => right).
Proof.
  unfold toggleView. apply right_cases.
  - intros n. apply (triple_read _ _ false); [by intros s []|].
    eapply triple_conseq with (P' := some_view n false) (Q' := fun _ => some_view n true);
      [|intros s Hv; by exists (only n) | intros ? s; apply some_right].
    eapply triple_seq; [apply showAllSlides_some|].
    eapply triple_seq; [apply some_frame; intros D; apply view_keeps, keeps_hideToolbar|].
    apply some_frame. intros D. apply set_viewAll_view.
  - intros n D. apply (triple_read _ _ true); [by intros s []|].
    eapply triple_seq; [apply singleSlideView_view|].
    eapply triple_seq; [apply view_keeps, keeps_showToolbar|].
    eapply triple_conseq; [apply set_viewAll_view | done | intros ? s; apply single_right].
Qed.

Lemma print_right : triple right (beforePrint d0 bg;; afterPrint b d0 bg) (fun _ => right).
Proof.
  intros s (n & va & D & Hv & HD).
  assert (triple (some_view n va) (beforePrint d0 bg) (fun _ => some_view n va)) as Hb.
  { unfold beforePrint. eapply triple_seq; [apply showAllSlides_some|].
    apply some_frame. intros D'. apply view_keeps, keeps_hideToolbar. }
  revert s Hv. clear HD. intros s Hv.
  assert (triple (some_view n va) (afterPrint b d0 bg) (fun _ => right)) as Ha.
  { apply triple_ex. intros D'. unfold afterPrint. apply (triple_read _ _ va); [by intros ? []|]. destruct va.
    - apply triple_ret. intros s'. apply all_right.
    - eapply triple_seq; [apply singleSlideView_view|].
      eapply triple_conseq; [apply view_keeps, keeps_showToolbar | done | intros ? s'; apply single_right]. }
  apply (triple_seq (some_view n va) _ _ _ _ Hb Ha). by exists D.
Qed.

(** *** Events *)

(** A change of the page inside a list item. *)
Lemma page_inside s item o' :
  right s -> Outline.nodeName (doc d0) item = Some (js "LI") -> inside d0 item (page s) o' ->
  right (MkShow (nv s) o' (lay s) (ad s) (lk s) (us s)).
Proof.
  intros (n & va & D & Hv & HD) Hli Hi. exists n, va, D. split; [|done]. by eapply view_inside.
Qed.

Lemma fold_focused_right : triple right (fold_focused d0 computed) (fun _ => right).
Proof.
  intros s Hr. unfold fold_focused, Outline.enter_key.
  destruct (Outline.outline (page s)) as [item|] eqn:Eo; [|by eexists _, _; split; [done|]; destruct s].
  assert (Outline.nodeName (doc d0) item = Some (js "LI")) as Hli.
  { destruct Hr as (n & va & D & Hv & _). by apply (v_outline _ _ _ _ _ Hv). }
  eexists _, _. split; [done|]. apply (page_inside _ item); [done | done|].
  repeat case_match; try apply unfold_inside; apply fold_inside.
Qed.

Lemma with_visible_some o target item :
  Outline.with_visible o target = Some item -> is_Some (Outline.visible o !! item).
Proof.
  induction target as [|i p IH]; cbn [Outline.with_visible]; destruct (is_some _) eqn:E.
  - intros [= <-]. by apply is_some_true.
  - done.
  - intros [= <-]. by apply is_some_true.
  - done.
Qed.

Lemma outline_click_right t r : triple right (outline_click d0 computed t r) (fun _ => right).
Proof.
  intros s Hr. unfold outline_click, Outline.outlineClick.
  destruct (Outline.with_visible _ _) as [item|] eqn:Ew; [|by eexists _, _; split; [done|]; destruct s].
  assert (Outline.nodeName (doc d0) item = Some (js "LI")) as Hli.
  { destruct Hr as (n & va & D & Hv & _). apply (v_visible _ _ _ _ _ Hv). by eapply with_visible_some. }
  assert (right (MkShow (nv s) (page s) (lay s) (ad s) (lk s) (us s))) as Hs by (by destruct s).
  pose proof (page_inside s item _ Hr Hli (fold_inside d0 computed item (page s))) as Hf.
  pose proof (page_inside s item _ Hr Hli (unfold_inside d0 item (page s))) as Hu.
  destruct r; [|destruct (Outline.can_fold (page s) !! item) as [[]|], (Outline.visible (page s) !! item) as [[]|]];
    by eexists _, _.
Qed.

Lemma ignore_right {A} (m : M A) : triple right m (fun _ => right) -> triple right (ignore m) (fun _ => right).
Proof. intros H. eapply triple_bind; [exact H|]. intros a. by apply triple_ret. Qed.

Lemma cancelled_right m : triple right m (fun _ => right) -> triple right (cancelled m) (fun _ => right).
Proof. intros H. eapply triple_seq; [exact H | by apply triple_ret]. Qed.

Lemma unless_all_right m : triple right m (fun _ => right) -> triple right (unless_all m) (fun _ => right).
Proof. intros H. apply right_get. intros []; [by apply triple_ret | by apply cancelled_right]. Qed.

Lemma keeps_toggleToolbar : keeps toggleToolbar.
Proof. unfold toggleToolbar, set_toolbar, set_wantToolbar. keeps. Qed.

Lemma key_action_right k : triple right (key_action b d0 title lang computed bg k) (fun _ => right).
Proof.
  unfold key_action. repeat match goal with |- triple _ (if ?c then _ else _) _ => destruct c end;
    try (by apply triple_ret);
    try apply unless_all_right; try apply cancelled_right;
    auto using previousSlide_right, nextSlide_right, firstSlide_right, lastSlide_right, smaller_right, bigger_right, toggleView_right.
  - eapply triple_bind; [apply fold_focused_right|]. intros x. by apply triple_ret.
  - apply right_keeps, keeps_toggleToolbar.
  - apply right_get. intros e. eapply triple_seq; [apply right_keeps, keeps_us | apply right_keeps, keeps_us].
  - apply right_keeps, keeps_showTableOfContents.
  - apply right_keeps, keeps_ad.
Qed.

Lemma keyDown_right k : triple right (keyDown b d0 title lang computed bg k) (fun _ => right).
Proof.
  unfold keyDown. destruct (key k =? 0); [by apply triple_ret|]. destruct (_ || _ || _); [by apply triple_ret|].
  apply right_get. intros sh. destruct (_ && _); [|apply key_action_right].
  eapply triple_seq; [apply right_keeps, keeps_hideTableOfContents|].
  destruct (_ || _); [by apply triple_ret | apply key_action_right].
Qed.

Lemma mouseButtonClick_right t w u : triple right (mouseButtonClick b d0 title lang bg t w u) (fun _ => right).
Proof.
  unfold mouseButtonClick. apply right_get. intros sel. destruct (_ <? _); [by apply triple_ret|].
  eapply triple_seq; [apply right_keeps, keeps_hideTableOfContents|]. apply right_get. intros en.
  destruct (_ && _); [|by apply triple_ret].
  eapply triple_seq; [apply nextSlide_right | by apply triple_ret].
Qed.

Lemma gotoEntry_right uri :
  match uri with Some u => good_uri u | None => True end ->
  triple right (gotoEntry b d0 title lang by_id bg uri) (fun _ => right).
Proof.
  intros Hg. unfold gotoEntry. eapply triple_seq with (R := right); [|apply right_keeps, keeps_hideTableOfContents].
  destruct uri as [[|c u]|]; [by apply triple_ret | by apply goto_uri_right | by apply triple_ret].
Qed.

Lemma gotoTocEntry_right e k :
  good_uri (Contents.e_href e) ->
  triple right (gotoTocEntry b d0 title lang by_id bg e k) (fun _ => right).
Proof.
  intros Hg. unfold gotoTocEntry. destruct (_ || _ || _); [by apply triple_ret|].
  destruct (key k =? 13).
  - eapply triple_seq with (R := right).
    + destruct (Contents.e_href e); [by apply triple_ret | by apply goto_uri_right].
    + eapply triple_seq; [apply right_keeps, keeps_hideTableOfContents | by apply triple_ret].
  - apply right_keeps. unfold set_focus. keeps.
Qed.

(** What an event asks for: addresses that do not lead to [NaN], and for the poll
    a fragment that names no slide that does not exist. *)
Definition allowed (s : show) (e : event) : Prop :=
  match e with
  | AnchorClick to _ => good_uri to
  | EntryClick (Some u) => good_uri u
  | EntryKey e _ => good_uri (Contents.e_href e)
  | Poll => good_hash (Location.location_hash (href (ad s)))
  | _ => True
  end.

Lemma triple_at {A} s (m : M A) :
  right s -> triple right m (fun _ => right) -> exists a s', m s = (Some a, s') /\ right s'.
Proof. intros Hr H. by apply H. Qed.

Lemma handle_right adj e s :
  right s -> allowed s e ->
  exists s', handle b d0 title lang by_id computed bg adj e s = (Some tt, s') /\ right s'.
Proof.
  intros Hr Ha.
  assert (exists a s', handle b d0 title lang by_id computed bg adj e s = (Some a, s') /\ right s') as ([] & s' & H);
    [|by exists s'].
  destruct e; simpl in *.
  - by apply triple_at, ignore_right, keyDown_right.
  - apply triple_at, right_keeps, keeps_us. done.
  - by apply triple_at, ignore_right, mouseButtonClick_right.
  - by apply triple_at, ignore_right, outline_click_right.
  - destruct Hr as (n & va & D & Hv & HD). eexists tt, _. split; [done|]. exists n, va, D. split; [|done].
    destruct (Outline.can_fold (page s) !! item0) as [[]|] eqn:Ef; try (by destruct s).
    pose proof (v_can_fold _ _ _ _ _ Hv item0) as Hli. destruct Hv. split; simpl; try done.
    intros p [= <-]. apply Hli. by rewrite Ef.
  - destruct Hr as (n & va & D & Hv & HD). eexists tt, _. split; [done|]. exists n, va, D. split; [|done].
    destruct Hv. by split.
  - by apply triple_at, clickedAnchor_right.
  - apply triple_at, gotoEntry_right; [done | by destruct uri].
  - by apply triple_at, ignore_right, gotoTocEntry_right.
  - apply triple_at; [done|]. apply right_get. intros n. apply right_keeps, kv_when, keeps_hideTableOfContents.
  - apply triple_at; [done|]. apply right_get. intros [t|]; [|by apply triple_ret].
    apply right_keeps. destruct (negb _); [apply keeps_showTableOfContents | apply keeps_hideTableOfContents].
  - by apply triple_at, firstSlide_right.
  - by apply (checkLocation_right _ Ha).
  - apply triple_at; [done|]. apply right_get. intros h. apply right_keeps, keeps_ad.
  - by apply triple_at, right_keeps, keeps_showToolbar.
  - by apply triple_at, resized_right.
  - apply triple_at, right_keeps; [done|]. unfold scrolled, set_tb_display, later_showToolbar, set_scrollhack. keeps.
  - by apply triple_at, print_right.
Qed.

(** *** The start *)

(** The lists of the deck are the ones that the program collects. *)
Definition collected_deck : Prop :=
  slides d0 = found (collectSlides d0)
  /\ notes d0 = (collectNotes d0 (shown (collectSlides d0))).1
  /\ backgrounds d0 = (collectBackgrounds d0 (collectNotes d0 (shown (collectSlides d0))).2).1.

(** The loops of the collectors leave what they do not collect. *)
Lemma collector_frame (l : list ref) (test : ref -> bool) (write : ref -> gmap ref bool -> gmap ref bool) found0 m0 p :
  (forall q m, q <> p -> write q m !! p = m !! p) ->
  let r := fold_left (fun c q => if test q then (c.1 ++ [q], write q c.2) else c) l (found0, m0) in
  p ∉ r.1 -> r.2 !! p = m0 !! p.
Proof.
  intros Hw. cbv zeta. revert found0 m0. induction l as [|q l IH]; intros f0 m0; simpl; [done|].
  destruct (test q); [|apply IH]. intros Hp. rewrite (IH _ _ Hp). apply Hw. intros ->.
  apply Hp. clear. generalize (write p m0). assert (forall f1 m, p ∈ f1 ->
    p ∈ (fold_left (fun c q => if test q then (c.1 ++ [q], write q c.2) else c) l (f1, m)).1) as H.
  { induction l as [|q l IH]; intros f1 m Hp; simpl; [done|]. destruct (test q); apply IH; set_solver. }
  intros m. apply H. set_solver.
Qed.

Lemma collected_hidden p :
  collected_deck -> p ∈ slides d0 ->
  disp (collected_page d0) !! p = Some (js "none") /\ vis (collected_page d0) !! p = Some false.
Proof.
  intros (Es & En & Eb) Hp. destruct (wf_apart _ wf p Hp) as [Hb Hn].
  destruct (collectSlides_found d0) as (_ & _ & Hs).
  assert (shown (collectSlides d0) !! p = Some false) as H0 by (apply Hs; by rewrite <- Es).
  unfold collected_page. cbn [disp vis fresh_page].
  set (m1 := (collectNotes d0 (shown (collectSlides d0))).2) in *.
  assert (m1 !! p = Some false) as H1.
  { rewrite <- H0. unfold m1, collectNotes.
    apply (collector_frame _ (fun q => Classes.hasClass (class_of d0 q) (js "handout")) (fun q m => <[q := false]> m)).
    - intros q m Hq. by rewrite lookup_insert_ne.
    - rewrite En in Hn. exact Hn. }
  assert ((collectBackgrounds d0 m1).2 !! p = Some false) as H2.
  { rewrite <- H1. unfold collectBackgrounds.
    apply (collector_frame _ (fun q => Classes.hasClass (class_of d0 q) (js "background"))
      (fun q m => if bool_decide (class_of d0 q = js "background") then m else <[q := false]> m)).
    - intros q m Hq. destruct (bool_decide _); [done | by rewrite lookup_insert_ne].
    - rewrite Eb in Hb. exact Hb. }
  split.
  - rewrite lookup_fmap, H2. done.
  - by rewrite map_lookup_filter_Some.
Qed.

(** The state before the start, at an address and with the globals as declared. *)
Definition initial_show (h : jstring) (objs : list media) (tb : bool) : show :=
  MkShow (Nav (Some 0) None None false) (collected_page d0) (Layout ∅ ∅ ∅) (Addr h title [])
    (Look 0 [] 0 0 objs) (Ui [] [] tb 0 false true 0 None OnWindow []).

Lemma initial_view h objs tb : collected_deck -> view 0 false none_shown (initial_show h objs tb).
Proof.
  intros Hc. split; simpl; try done.
  - pose proof (wf_some _ wf). unfold nslides. destruct (slides d0) as [|x l]; [done|]. rewrite zlen_cons.
    pose proof (zlen_nonneg l). lia.
  - intros p Hp. by apply collected_hidden.
  - intros p [? Hp]. by rewrite lookup_empty in Hp.
  - intros p [? Hp]. by rewrite lookup_empty in Hp.
Qed.

Lemma initOutliner_view n va D :
  triple (view n va D) (on_page (Outline.initOutliner (doc d0) computed)) (fun _ => view n va D).
Proof.
  apply triple_modify. intros s Hv. unfold Outline.initOutliner.
  assert (Forall (fun p => Outline.nodeName (doc d0) p = Some (js "LI")) (Outline.elements (doc d0) (js "LI"))) as Hl.
  { apply Forall_forall. intros p [Hp%bool_decide_eq_true _]%list_elem_of_filter. done. }
  revert s Hv. induction Hl as [|p l Hp Hl IH]; intros s Hv; simpl; [by destruct s|].
  pose proof (view_inside d0 wf n va D s p _ Hv Hp (init_inside d0 computed p (page s))) as Hv'.
  apply (IH _ Hv').
Qed.

Lemma startup_right h objs tb adj w hh :
  collected_deck -> good_uri h ->
  exists s, startup b d0 title lang by_id computed bg adj w hh (initial_show h objs tb) = (Some tt, s) /\ right s.
Proof.
  intros Hc Hg. pose proof (initial_view h objs tb Hc) as Hv.
  assert (triple (fun s => view 0 false none_shown s /\ href (ad s) = h)
    (startup b d0 title lang by_id computed bg adj w hh) (fun _ => right)) as H.
  2: { destruct (H (initial_show h objs tb)) as ([] & s & E & Hs); [done|]. by exists s. }
  unfold startup. eapply triple_seq with (R := fun s => view 0 false none_shown s /\ href (ad s) = h).
  { apply triple_modify. intros s [[] Hh]. split; [by split | exact Hh]. }
  eapply triple_seq with (R := fun s => view 0 false none_shown s /\ href (ad s) = h).
  { apply triple_modify. intros s [[] Hh]. split; [by split | exact Hh]. }
  apply (triple_read _ _ h); [by intros s [_ ?]|].
  eapply triple_conseq with (P' := view 0 false none_shown) (Q' := fun _ => right); [|by intros s [? _] | done].
  apply (with_number _ h); [done|]. intros d m -> Hm.
  eapply triple_seq; [by apply set_slidenum_view|]. eapply triple_seq; [apply initOutliner_view|].
  eapply triple_seq with (R := view m false none_shown).
  { apply triple_when; [intros _ | done]. apply (triple_read _ _ (Some m)); [by intros s []|].
    apply with_slide. intros p Hp Hin. eapply triple_seq; [apply view_keeps, keeps_lay|].
    eapply triple_seq with (R := view m false none_shown); [|apply setLocation_view].
    destruct (num_lt _ _).
    - step. step. apply view_keeps, keeps_setEosStatus.
    - step. step. apply update_eos_view. }
  eapply triple_seq; [apply view_keeps, keeps_us|].
  eapply triple_seq; [apply view_keeps, keeps_hideTableOfContents|].
  eapply triple_seq; [apply singleSlideView_view|]. eapply triple_seq; [apply setLocation_view|].
  eapply triple_seq; [|apply right_keeps, keeps_showToolbar].
  eapply triple_conseq; [apply resized_right | intros s; apply single_right | done].
Qed.

(** ** The theorem *)

(** The current slide is displayed and visible, the others are neither. *)
Definition one_slide (s : show) : Prop :=
  exists n, slidenum (nv s) = Some n /\ 0 <= n < nslides d0
  /\ (viewAll (nv s) = false -> forall i p, znth (slides d0) i = Some p ->
        disp (page s) !! p = Some (if i =? n then js "block" else js "none")
        /\ vis (page s) !! p = Some (i =? n)).

Lemma right_one_slide s : right s -> one_slide s.
Proof.
  intros (n & va & D & Hv & HD). exists n. split; [apply (v_num _ _ _ _ _ Hv)|]. split; [apply (v_range _ _ _ _ _ Hv)|].
  intros Hva i p Hp. rewrite (v_all _ _ _ _ _ Hv) in Hva. subst.
  destruct (v_disp _ _ _ _ _ Hv p) as [-> ->]; [by eapply znth_elem|].
  rewrite (HD eq_refl p) by (by eapply znth_elem).
  assert (only n p = (i =? n)) as ->; [|done].
  unfold View.only. apply eq_true_iff_eq. rewrite bool_decide_eq_true, Z.eqb_eq. split; [|by intros ->].
  intros Hp'. unfold znth in *. repeat case_decide; try done.
  pose proof (NoDup_lookup _ _ _ _ (wf_nodup _ wf) Hp Hp'). lia.
Qed.

(** The states that the show reaches by allowed events after its start. *)
Inductive reached (adj : num) (h : jstring) : show -> Prop :=
  | reached_start objs tb w hh s :
      startup b d0 title lang by_id computed bg adj w hh (initial_show h objs tb) = (Some tt, s) -> reached adj h s
  | reached_event s e s' :
      reached adj h s -> allowed s e ->
      (handle b d0 title lang by_id computed bg adj e s).2 = s' -> reached adj h s'.

(** C1: After the start and through any allowed events, exactly the current slide is
    displayed (unless all are shown at once); the program throws no exception,
    neither at the start nor on any allowed event. *)
Theorem one_slide_shown adj h objs tb w hh s :
  collected_deck -> good_uri h -> reached adj h s ->
  one_slide s
  /\ is_Some (startup b d0 title lang by_id computed bg adj w hh (initial_show h objs tb)).1
  /\ forall e, allowed s e -> is_Some (handle b d0 title lang by_id computed bg adj e s).1.
Proof.
  intros Hc Hg Hr. assert (right s) as Hs.
  { induction Hr as [objs' tb' w' hh' s E | s e s' Hr IH Ha E].
    - destruct (startup_right h objs' tb' adj w' hh' Hc Hg) as (s' & E' & Hs). congruence.
    - destruct (handle_right adj e s IH Ha) as (s2 & E2 & H2). rewrite E2 in E. by subst. }
  split_and!; [by apply right_one_slide | |].
  - destruct (startup_right h objs tb adj w hh Hc Hg) as (s' & -> & _). done.
  - intros e Ha. by destruct (handle_right adj e s Hs Ha) as (s' & -> & _).
Qed.
End safe.

(** ** Witnesses *)

(** A talk: a slide with two incremental items, a slide, a background for the
    first slide and a note. *)
Definition talk_doc : node :=
  Node KOther [Outline.el "HTML" [Outline.el "BODY" [
    Outline.el "DIV" [Outline.el "H1" [Node (KText (js "Intro")) []];
                      Outline.el "UL" [Outline.el "LI" []; Outline.el "LI" []]];
    Outline.el "DIV" [Outline.el "P" []];
    Outline.el "DIV" [];
    Outline.el "DIV" [Outline.el "P" []]]]].
Definition talk : deck :=
  collect talk_doc (list_to_map [([0; 0; 0]%nat, js "slide cover"); ([1; 0; 0]%nat, js "slide");
    ([2; 0; 0]%nat, js "background cover"); ([3; 0; 0]%nat, js "handout");
    ([1; 0; 0; 0]%nat, js "incremental")]).

Definition modern : browser := Browser true false false false false false.
Definition no_id : jstring -> option ref := fun _ => None.
Definition block : outl -> ref -> jstring := fun _ _ => js "block".
Definition see_through : style_api := ComputedStyle (fun _ _ => Some (js "transparent")).

Lemma talk_wf : wf_deck talk.
Proof. apply wf_deckb_true. vm_compute. reflexivity. Qed.

Lemma talk_collected : collected_deck talk.
Proof. split; [|split]; vm_compute; reflexivity. Qed.

Definition start_talk (h : jstring) : option unit * show :=
  startup modern talk (js "Talk") (js "en") no_id block see_through (Some 1) 1024 768
    (initial_show talk (js "Talk") h [] true).

Lemma talk_starts : (start_talk (js "talk.html#(2)")).1 = Some tt.
Proof. vm_compute. reflexivity. Qed.

Lemma one_slide_shown_witness :
  one_slide talk (start_talk (js "talk.html#(2)")).2
  /\ slidenum (nv (start_talk (js "talk.html#(2)")).2) = Some 1
  /\ is_Some (handle modern talk (js "Talk") (js "en") no_id block see_through (Some 1) Poll
                (start_talk (js "talk.html#(2)")).2).1.
Proof.
  assert (good_uri talk no_id (js "talk.html#(2)")) as Hg by (intros s; vm_compute; discriminate).
  assert (reached modern talk (js "Talk") (js "en") no_id block see_through (Some 1) (js "talk.html#(2)")
            (start_talk (js "talk.html#(2)")).2) as Hr.
  { apply (reached_start _ _ _ _ _ _ _ _ _ [] true 1024 768).
    pose proof talk_starts as Ht. unfold start_talk in *.
    destruct (startup _ _ _ _ _ _ _ _ _ _ _) as [r s]. cbn [fst] in Ht. by rewrite Ht. }
  destruct (one_slide_shown modern talk (js "Talk") (js "en") no_id block see_through talk_wf (Some 1)
    (js "talk.html#(2)") [] true 1024 768 _ talk_collected Hg Hr) as (H1 & _ & H3).
  split; [exact H1|]. split; [vm_compute; reflexivity|].
  apply H3. vm_compute. split; discriminate.
Defined.
End Safe.
