(* ===== verification/ShowNav.v ===== *)
(** * Stepping through a talk

    The abstract machine of a talk has a slide and the number of its incremental
    items that are shown.  The navigation of the slide show refines it: the
    current slide, the items that are visible, [lastShown] and the end of slide
    mark follow the machine step by step. *)
From S2P Require Import Prelude JsString Dom Slides Location Localize Outline Contents Show ShowLogic ShowSafe.

Module Nav.
Import Dom Slides Show Logic View.
Import Outline (outl, cls, disp, vis).

(** ** The abstract machine *)
Section machine.
Variables (N : Z) (len : Z -> nat).    (** number of slides; items of a slide *)

Abbreviation spot := (Z * nat)%type.

Definition a_next (a : spot) : spot :=
  let '(n, k) := a in
  if (k <? len n)%nat then (n, S k) else if n <? N - 1 then (n + 1, 0%nat) else a.
Definition a_prev (a : spot) : spot :=
  let '(n, k) := a in
  match k with
  | S j => (n, j)
  | O => if 0 <? n then (n - 1, len (n - 1)) else a
  end.
Definition a_pageup (a : spot) : spot :=
  let '(n, k) := a in if 0 <? n then (n - 1, len (n - 1)) else (n, pred k).
(** Page Down has no place to go from a last slide whose items are all shown. *)
Definition a_pagedown (a : spot) : option spot :=
  let '(n, k) := a in
  if n <? N - 1 then Some (n + 1, 0%nat)
  else if (k <? len n)%nat then Some (n, S k)
  else if (len n =? 0)%nat then Some a else None.
Definition a_first (a : spot) : spot := if a.1 =? 0 then a else (0, 0%nat).
Definition a_last : spot := (N - 1, len (N - 1)).

Inductive move := Next | Prev | PageUp | PageDown | First | Last.

Definition a_step (a : spot) (e : move) : option spot :=
  match e with
  | Next => Some (a_next a) | Prev => Some (a_prev a) | PageUp => Some (a_pageup a)
  | PageDown => a_pagedown a | First => Some (a_first a) | Last => Some a_last
  end.

Definition a_run (es : list move) (a : spot) : option spot :=
  foldl (fun o e => a ← o; a_step a e) (Some a) es.

Definition valid (a : spot) : Prop := 0 <= a.1 < N /\ (a.2 <= len a.1)%nat.

Lemma prev_next a : valid a -> a <> a_last -> a_prev (a_next a) = a.
Proof.
  destruct a as [n k]. intros [Hn Hk] Hl. simpl in *. destruct (Nat.ltb_spec k (len n)); [done|].
  assert (k = len n) as -> by lia. destruct (Z.ltb_spec n (N - 1)).
  - simpl. rewrite (proj2 (Z.ltb_lt 0 (n + 1))) by lia. by replace (n + 1 - 1) with n by lia.
  - exfalso. apply Hl. unfold a_last. by replace (N - 1) with n by lia.
Qed.

Lemma next_prev a : valid a -> a <> (0, 0%nat) -> a_next (a_prev a) = a.
Proof.
  destruct a as [n k]. intros [Hn Hk] Hl. simpl in *. destruct k as [|k]; simpl.
  - destruct (Z.ltb_spec 0 n); [|by replace n with 0 in Hl by lia]. simpl.
    rewrite Nat.ltb_irrefl, (proj2 (Z.ltb_lt (n - 1) (N - 1))) by lia. f_equal. lia.
  - by rewrite (proj2 (Nat.ltb_lt k (len n))) by lia.
Qed.

(** The steps before a spot. *)
Fixpoint rank (n : nat) : nat :=
  match n with O => O | S n => (rank n + S (len (Z.of_nat n)))%nat end.

(** The place of a spot in the walk. *)
Definition place (a : spot) : nat := (rank (Z.to_nat a.1) + a.2)%nat.

Lemma rank_lt m n : (m < n)%nat -> (rank m + S (len (Z.of_nat m)) <= rank n)%nat.
Proof.
  induction n as [|n IH]; intros H; [lia|]. simpl.
  destruct (decide (m = n)) as [->|]; [lia|]. assert (m < n)%nat by lia. specialize (IH ltac:(done)). lia.
Qed.

Lemma place_inj a a' : valid a -> valid a' -> place a = place a' -> a = a'.
Proof.
  destruct a as [n k], a' as [n' k']. unfold valid, place. cbn [fst snd]. intros [Hn Hk] [Hn' Hk'] E.
  assert (Z.to_nat n = Z.to_nat n').
  { destruct (lt_eq_lt_dec (Z.to_nat n) (Z.to_nat n')) as [[H|]|H]; [exfalso | done | exfalso];
      apply rank_lt in H; rewrite Z2Nat.id in H by lia; lia. }
  assert (n = n') by lia. subst. f_equal. lia.
Qed.

Lemma place_next a : valid a -> a <> a_last -> valid (a_next a) /\ place (a_next a) = S (place a).
Proof.
  destruct a as [n k]. intros [Hn Hk] Hl. unfold valid, place. simpl in *. destruct (Nat.ltb_spec k (len n)); simpl; [lia|].
  assert (k = len n) as -> by lia. destruct (Z.ltb_spec n (N - 1)); simpl.
  - replace (Z.to_nat (n + 1)) with (S (Z.to_nat n)) by lia. simpl. rewrite Z2Nat.id by lia. lia.
  - exfalso. apply Hl. unfold a_last. by replace (N - 1) with n by lia.
Qed.

Lemma place_prev a : valid a -> a <> (0, 0%nat) -> valid (a_prev a) /\ S (place (a_prev a)) = place a.
Proof.
  intros Ha H0. pose proof (next_prev a Ha H0) as E.
  assert (valid (a_prev a)) as Hv.
  { destruct a as [n [|k]], Ha as [Hn Hk]; simpl in *; [destruct (Z.ltb_spec 0 n) |]; split; simpl; lia. }
  split; [done|]. destruct (decide (a_prev a = a_last)) as [El|Hl].
  - exfalso. rewrite El in E. unfold a_next, a_last in E. rewrite Nat.ltb_irrefl, Z.ltb_irrefl in E.
    destruct a as [n [|k]], Ha as [Hn Hk]; simpl in *.
    + destruct (Z.ltb_spec 0 n); [|by replace n with 0 in H0 by lia]. unfold a_last in *. simplify_eq. lia.
    + unfold a_last in *. simplify_eq. lia.
  - by rewrite <- (proj2 (place_next _ Hv Hl)), E.
Qed.

Lemma place_last a : valid a -> (place a <= place a_last)%nat.
Proof.
  destruct a as [n k]. unfold valid, place, a_last. cbn [fst snd]. intros [Hn Hk].
  destruct (decide (n = N - 1)) as [->|]; [lia|]. pose proof (rank_lt (Z.to_nat n) (Z.to_nat (N - 1)) ltac:(lia)) as H.
  rewrite Z2Nat.id in H by lia. lia.
Qed.

(** Steps forwards and backwards lead from any spot to any other. *)
Lemma next_to a a' :
  valid a -> valid a' -> (place a <= place a')%nat -> Nat.iter (place a' - place a) a_next a = a'.
Proof.
  intros Ha Ha' Hle. remember (place a' - place a)%nat as j eqn:Ej. revert a Ha Hle Ej.
  induction j as [|j IH]; intros a Ha Hle Ej; [simpl; apply place_inj; [done..|lia]|].
  rewrite Nat.iter_succ_r. assert (a <> a_last) as Hl.
  { intros ->. pose proof (place_last a' Ha'). lia. }
  destruct (place_next a Ha Hl) as [Hv Hp]. apply IH; [done | lia..].
Qed.

Lemma prev_to a a' :
  valid a -> valid a' -> (place a' <= place a)%nat -> Nat.iter (place a - place a') a_prev a = a'.
Proof.
  intros Ha Ha' Hle. remember (place a - place a')%nat as j eqn:Ej. revert a Ha Hle Ej.
  induction j as [|j IH]; intros a Ha Hle Ej; [simpl; apply place_inj; [done..|lia]|].
  rewrite Nat.iter_succ_r. assert (a <> (0, 0%nat)) as Hl.
  { intros ->. unfold place in Ej at 1. simpl in Ej. lia. }
  destruct (place_prev a Ha Hl) as [Hv Hp]. apply IH; [done | lia..].
Qed.
End machine.

Section nav.
Variables (b : browser) (d0 : deck) (title lang : jstring) (bg : style_api).
Hypothesis wf : wf_deck d0.
Variable C : gmap ref jstring.      (** the class attributes, which navigation does not change *)

Definition deckC : deck := Deck (doc d0) C (slides d0) (notes d0) (backgrounds d0).
Definition root_of (n : Z) : ref := default [] (znth (slides d0) n).
Definition its (n : Z) : list ref := items deckC (root_of n).
Definition n_items (n : Z) : nat := length (its n).
Definition last_of (n : Z) (k : nat) : option ref := match k with O => None | S j => its n !! j end.
Definition upto (n : Z) (k : nat) (p : ref) : bool := bool_decide (p ∈ take k (its n)).
Definition eos_color (finished : bool) : option jstring :=
  Some (if finished then js "rgb(240,240,240)" else js "red").

(** Slide [n] is current, [D] are displayed, [last] is the last item shown, and
    [V] tells the visibility of its items, when it is known. *)
Record spot (n : Z) (D : ref -> bool) (last : option ref) (V : option (ref -> bool)) (s : show) : Prop := {
  sp_view : view d0 n false D s;
  sp_cls : cls (page s) = C;
  sp_last : lastShown (nv s) = last;
  sp_eos : is_Some (eos (nv s));
  sp_items : match V with
             | Some f => forall p, p ∈ its n -> vis (page s) !! p = Some (f p)
             | None => True
             end
}.

(** The state of the show at a spot of the machine. *)
Definition at_spot (a : Z * nat) (s : show) : Prop :=
  spot a.1 (only d0 a.1) (last_of a.1 a.2) (Some (upto a.1 a.2)) s
  /\ valid (nslides d0) n_items a
  /\ eos (nv s) = eos_color (a.2 =? n_items a.1)%nat.

Lemma root_slide n : 0 <= n < nslides d0 -> znth (slides d0) n = Some (root_of n) /\ root_of n ∈ slides d0.
Proof.
  intros Hn. unfold root_of. destruct (znth_is_Some (slides d0) n) as [_ [p Hp]]; [done|].
  rewrite Hp. split; [done | by eapply znth_elem].
Qed.

Lemma its_apart n p : 0 <= n < nslides d0 -> p ∈ its n -> p ∉ slides d0 ++ backgrounds d0.
Proof.
  intros Hn Hp Hin. destruct (root_slide n Hn) as [_ Hr].
  apply (wf_flat _ wf (root_of n) p Hr Hin). by apply list_elem_of_filter in Hp as [_ ?].
Qed.

Lemma spot_current n D l V s : spot n D l V s -> current d0 s = Some (root_of n) /\ deck_of d0 s = deckC.
Proof.
  intros [Hv Hc _ _ _]. destruct (root_slide n (v_range _ _ _ _ _ Hv)) as [Hr _].
  unfold current, slide_at, deck_of, deckC. rewrite (v_num _ _ _ _ _ Hv), Hc. by rewrite <- Hr.
Qed.

Lemma spot_core n D l V s s' : spot n D l V s -> same_core s s' -> spot n D l V s'.
Proof.
  intros [H1 H2 H3 H4 H5] [E1 E2]. split; rewrite ?E1, ?E2; try done.
  eapply view_same; [done|]. unfold same_view. by rewrite E1, E2.
Qed.

Lemma spot_calm {A} (m : M A) n D l V : calm m -> triple (spot n D l V) m (fun _ => spot n D l V).
Proof. intros Hm. apply (respects_triple same_core); [done|]. intros s s'. apply spot_core. Qed.

Definition with_eos n D l V (e : option jstring) (s : show) : Prop := spot n D l V s /\ eos (nv s) = e.

Lemma with_eos_calm {A} (m : M A) n D l V e : calm m -> triple (with_eos n D l V e) m (fun _ => with_eos n D l V e).
Proof.
  intros Hm. apply (respects_triple same_core); [done|]. intros s s' [Hs He] Hc.
  split; [by eapply spot_core | destruct Hc as [E _]; by rewrite E].
Qed.

Lemma spot_eos n D l V x :
  triple (spot n D l V) (setEosStatus x) (fun _ s => spot n D l V s /\ eos (nv s) = eos_color x).
Proof.
  apply triple_modify. intros s [H1 H2 H3 [c H4] H5]. split; [|simpl; by rewrite H4].
  split; simpl; try done; [|rewrite H4; by eexists]. eapply view_same; [done|]. by split_and!.
Qed.

Lemma spot_next n D l V node :
  triple (spot n D l V) (next_item d0 node)
    (fun a s => spot n D l V s /\ a = nextIncrementalItem deckC (root_of n) node).
Proof.
  intros s Hs. destruct (spot_current _ _ _ _ _ Hs) as [Hc Hd]. unfold next_item. rewrite Hc, Hd.
  by eexists _, s.
Qed.

Lemma spot_previous n D l V node :
  triple (spot n D l V) (previous_item d0 node)
    (fun a s => spot n D l V s /\ a = previousIncrementalItem deckC (root_of n) node).
Proof.
  intros s Hs. destruct (spot_current _ _ _ _ _ Hs) as [Hc Hd]. unfold previous_item. rewrite Hc, Hd.
  by eexists _, s.
Qed.

Lemma spot_range n D l V {A} (m : M A) Q :
  (0 <= n < nslides d0 -> triple (spot n D l V) m Q) -> triple (spot n D l V) m Q.
Proof. intros H s Hs. apply H; [by eapply v_range, sp_view | done]. Qed.

Lemma spot_lastShown n D l V p :
  (forall q, p = Some q -> q ∉ slides d0) ->
  triple (spot n D l V) (set_lastShown p) (fun _ => spot n D p V).
Proof.
  intros Hp s [H1 H2 H3 H4 H5]. destruct (set_lastShown_view d0 n false D p Hp s H1) as ([] & s' & E & Hv).
  exists tt, s'. split; [done|]. injection E as <-. by split.
Qed.

Lemma spot_write n D l f p v :
  p ∈ its n -> triple (spot n D l (Some f)) (write_vis d0 (Some p) v) (fun _ => spot n D l (Some (upd f p v))).
Proof.
  intros Hp. apply spot_range. intros Hn s Hs. pose proof (its_apart n p Hn Hp) as Ha.
  destruct (write_vis_view d0 n false D (Some p) v ltac:(intros q [= <-]; set_solver) s (sp_view _ _ _ _ _ Hs))
    as ([] & s' & E & Hv).
  exists tt, s'. split; [done|]. unfold write_vis in E.
  destruct (spot_current _ _ _ _ _ Hs) as [_ Hd]. rewrite Hd, (item_is_elem deckC (root_of n) p Hp) in E.
  injection E as <-. destruct Hs as [H1 H2 H3 H4 H5]. split; simpl; try done.
  intros q Hq. unfold upd. case_decide; [subst; by rewrite lookup_insert_eq|]. rewrite lookup_insert_ne by done. auto.
Qed.

Lemma spot_all n D l V v : triple (spot n D l V) (all_items d0 v) (fun _ => spot n D l (Some (fun _ => v))).
Proof.
  apply spot_range. intros Hn s Hs. destruct (spot_current _ _ _ _ _ Hs) as [Hc Hd].
  destruct (all_items_view d0 wf n false D v s (sp_view _ _ _ _ _ Hs)) as ([] & s' & E & Hv).
  exists tt, s'. split; [done|]. unfold all_items in E. rewrite Hc, Hd in E. injection E as <-.
  destruct (root_slide n Hn) as [_ Hr]. destruct (slide_node d0 wf (root_of n) Hr) as [x Hx].
  destruct Hs as [H1 H2 H3 H4 H5]. split; simpl; try done.
  intros p Hp. rewrite (setVisibility_spec deckC (root_of n) x) by done. by rewrite decide_True.
Qed.

Lemma spot_slidenum n m D l V :
  0 <= m < nslides d0 -> triple (spot n D l V) (set_slidenum (Some m)) (fun _ => spot m D l None).
Proof.
  intros Hm s [H1 H2 H3 H4 H5]. destruct (set_slidenum_view d0 n m false D Hm s H1) as ([] & s' & E & Hv).
  exists tt, s'. split; [done|]. injection E as <-. by split.
Qed.

(** *** Programs that only write the style of some nodes *)
Definition styles_only {A} (S : list ref) (m : M A) : Prop :=
  forall s, nv (m s).2 = nv s /\ cls (page (m s).2) = cls (page s)
    /\ forall p, p ∉ S -> vis (page (m s).2) !! p = vis (page s) !! p.

Lemma styles_ret {A} S (a : A) : styles_only S (mret a).
Proof. by intros s. Qed.
Lemma styles_throw {A} S : styles_only S (@throw A).
Proof. by intros s. Qed.
Lemma styles_bind {A B} S (m : M A) (k : A -> M B) :
  styles_only S m -> (forall a, styles_only S (k a)) -> styles_only S (m ≫= k).
Proof.
  intros Hm Hk s. specialize (Hm s). unfold mbind, M_bind. destruct (m s) as [[a|] s1]; simpl in *; [|done].
  destruct Hm as (A1 & A2 & A3), (Hk a s1) as (B1 & B2 & B3). split_and!; [congruence..|].
  intros p Hp. by rewrite B3, A3.
Qed.
Lemma styles_each {A} S (l : list A) f : (forall x, x ∈ l -> styles_only S (f x)) -> styles_only S (each l f).
Proof.
  induction l as [|x l IH]; intros H; simpl; [apply styles_ret|].
  apply styles_bind; [apply H, list_elem_of_here|]. intros _. apply IH. intros y Hy. apply H. by right.
Qed.
Lemma styles_node S d v p : p ∈ S -> styles_only S (style_node d v p).
Proof.
  intros Hp s. simpl. split_and!; [done..|]. intros q Hq. rewrite lookup_insert_ne; [done|]. by intros ->.
Qed.

Lemma styles_showSlide p S : p ∈ S -> backgrounds d0 ⊆ S -> styles_only S (showSlide d0 bg (Some p)).
Proof.
  intros Hp Hb. unfold showSlide. apply styles_bind; [|intros _; by apply styles_node].
  unfold syncBackground. apply styles_bind; [by intros s|]. intros c.
  destruct (bool_decide _); [apply styles_bind; [by intros s|]; intros cl|]; apply styles_each; intros q Hq.
  - apply styles_bind; [by intros s|]. intros cq.
    destruct (Classes.matchingBackground _ _) as [[]|]; [apply styles_node; set_solver.. | apply styles_throw].
  - apply styles_node. set_solver.
Qed.

Lemma spot_styles n D D' l V (m : M unit) S :
  (forall p, p ∈ its n -> p ∉ S) -> styles_only S m ->
  triple (view d0 n false D) m (fun _ => view d0 n false D') ->
  triple (spot n D l V) m (fun _ => spot n D' l V).
Proof.
  intros HS Hm Ht s Hs. destruct (Ht s (sp_view _ _ _ _ _ Hs)) as ([] & s' & E & Hv). exists tt, s'. split; [done|].
  destruct (Hm s) as (E1 & E2 & E3). rewrite E in E1, E2, E3. simpl in *.
  destruct Hs as [H1 H2 H3 H4 H5]. split; rewrite ?E1, ?E2; try done.
  destruct V as [f|]; [|done]. intros p Hp. rewrite E3 by auto. auto.
Qed.

Lemma spot_hide n l V : triple (spot n (only d0 n) l V) (hide_current d0) (fun _ => spot n none_shown l V).
Proof.
  apply spot_range. intros Hn. apply spot_styles with (S := slides d0).
  - intros p Hp Hin. apply (its_apart n p Hn Hp). set_solver.
  - intros s. unfold hide_current, this_slide, get, mbind, M_bind. destruct (current d0 s) as [p|] eqn:E; [|done].
    apply (styles_node (slides d0)). unfold current, slide_at in E. destruct (slidenum (nv s)); [|done].
    by eapply znth_elem.
  - by apply hide_current_view.
Qed.

Lemma spot_show n l V p :
  znth (slides d0) n = Some p ->
  triple (spot n none_shown l V) (showSlide d0 bg (Some p)) (fun _ => spot n (only d0 n) l V).
Proof.
  intros Hp. apply spot_range. intros Hn. apply spot_styles with (S := slides d0 ++ backgrounds d0).
  - intros q Hq Hin. by apply (its_apart n q Hn Hq).
  - apply styles_showSlide; [|set_solver]. apply elem_of_app. left. by eapply znth_elem.
  - by apply show_slide_view.
Qed.

Lemma spot_slide {B} n D l V (k : option ref -> M B) Q :
  (forall p, znth (slides d0) n = Some p -> triple (spot n D l V) (k (Some p)) Q) ->
  triple (spot n D l V) (this_slide d0 ≫= k) Q.
Proof.
  intros H s Hs. destruct (spot_current _ _ _ _ _ Hs) as [Hc _].
  destruct (root_slide n (v_range _ _ _ _ _ (sp_view _ _ _ _ _ Hs))) as [Hr _].
  unfold this_slide, get, mbind, M_bind. rewrite Hc. by apply H.
Qed.

(** *** The items *)
Lemma next_its n k :
  0 <= n < nslides d0 -> (k <= n_items n)%nat ->
  nextIncrementalItem deckC (root_of n) (last_of n k) = its n !! k.
Proof.
  intros Hn Hk. destruct (root_slide n Hn) as [_ Hr]. destruct (slide_node d0 wf _ Hr) as [x Hx].
  destruct (nextIncrementalItem_items deckC (root_of n) x Hx) as [H0 Hs].
  destruct k as [|j]; simpl; [by rewrite H0, head_lookup|].
  destruct (lookup_lt_is_Some_2 (its n) j) as [y Hy]; [unfold n_items in Hk; lia|].
  rewrite Hy. by apply Hs.
Qed.

Lemma previous_its n k :
  0 <= n < nslides d0 -> (k < n_items n)%nat ->
  previousIncrementalItem deckC (root_of n) (its n !! k) = last_of n k.
Proof.
  intros Hn Hk. destruct (root_slide n Hn) as [_ Hr]. destruct (slide_node d0 wf _ Hr) as [x Hx].
  destruct (previousIncrementalItem_items deckC (root_of n) x Hx) as [_ Hs].
  destruct (lookup_lt_is_Some_2 (its n) k) as [y Hy]; [done|]. rewrite Hy. rewrite (Hs k y Hy). by destruct k.
Qed.

Lemma previous_its_end n :
  0 <= n < nslides d0 -> previousIncrementalItem deckC (root_of n) None = last_of n (n_items n).
Proof.
  intros Hn. destruct (root_slide n Hn) as [_ Hr]. destruct (slide_node d0 wf _ Hr) as [x Hx].
  destruct (previousIncrementalItem_items deckC (root_of n) x Hx) as [-> _].
  rewrite last_lookup. unfold n_items, last_of. change (items deckC (root_of n)) with (its n).
  destruct (its n) as [|y l]; done.
Qed.

Lemma item_no_slide n q k : 0 <= n < nslides d0 -> its n !! k = Some q -> q ∉ slides d0.
Proof.
  intros Hn Hq. apply list_elem_of_lookup_2, (its_apart n q Hn) in Hq. set_solver.
Qed.

Lemma last_no_slide n k q : 0 <= n < nslides d0 -> last_of n k = Some q -> q ∉ slides d0.
Proof. intros Hn. destruct k as [|j]; [done|]. by apply item_no_slide. Qed.

Lemma upto_step n k p q : its n !! k = Some p -> q ∈ its n -> upd (upto n k) p true q = upto n (S k) q.
Proof.
  intros Hp Hq. unfold upd, upto. rewrite (take_S_r _ _ _ Hp).
  case_decide; [subst; symmetry; rewrite bool_decide_eq_true; set_solver|].
  apply bool_decide_ext. rewrite elem_of_app, list_elem_of_singleton. naive_solver.
Qed.

Lemma upto_back n k p q : its n !! k = Some p -> q ∈ its n -> upd (upto n (S k)) p false q = upto n k q.
Proof.
  intros Hp Hq. unfold upd, upto. rewrite (take_S_r _ _ _ Hp). case_decide; [subst|].
  - symmetry. rewrite bool_decide_eq_false. intros Hin.
    assert (NoDup (its n)) as Hnd by apply items_nodup.
    rewrite <- (take_drop_middle _ _ _ Hp) in Hnd. apply NoDup_app in Hnd as (_ & Hd & _).
    apply (Hd p Hin), list_elem_of_here.
  - apply bool_decide_ext. rewrite elem_of_app, list_elem_of_singleton. naive_solver.
Qed.

Lemma upto_all n q : q ∈ its n -> upto n (n_items n) q = true.
Proof. intros Hq. unfold upto, n_items. rewrite firstn_all. by apply bool_decide_eq_true. Qed.
Lemma upto_none n q : upto n 0 q = false.
Proof. unfold upto. apply bool_decide_eq_false. simpl. apply not_elem_of_nil. Qed.

Lemma spot_ext n D l f g s :
  (forall p, p ∈ its n -> f p = g p) -> spot n D l (Some f) s -> spot n D l (Some g) s.
Proof. intros H [H1 H2 H3 H4 H5]. split; try done. intros p Hp. rewrite <- H by done. auto. Qed.

(** *** The steps *)
Abbreviation ready n k := (spot n (only d0 n) (last_of n k) (Some (upto n k))).
Abbreviation marked_at n k :=
  (with_eos n (only d0 n) (last_of n k) (Some (upto n k)) (eos_color (k =? n_items n)%nat)).

Lemma triple_pre {A} (P P' : show -> Prop) (m : M A) Q :
  (forall s, P s -> P' s) -> triple P' m Q -> triple P m Q.
Proof. intros HP H s Hs. by apply H, HP. Qed.

Lemma triple_post {A} (P : show -> Prop) (m : M A) (Q Q' : A -> show -> Prop) :
  triple P m Q' -> (forall a s, Q' a s -> Q a s) -> triple P m Q.
Proof. intros H HQ. eapply triple_conseq; [exact H | done | exact HQ]. Qed.

Lemma marked_calm {A} (m : M A) n k : calm m -> triple (marked_at n k) m (fun _ => marked_at n k).
Proof. apply with_eos_calm. Qed.

Lemma null_lookup n k : (k <= n_items n)%nat -> is_null (its n !! k) = (k =? n_items n)%nat.
Proof.
  intros Hk. unfold is_null, n_items in *. destruct (its n !! k) eqn:E; simpl; symmetry.
  - apply lookup_lt_Some in E. apply Nat.eqb_neq. lia.
  - apply lookup_ge_None in E. apply Nat.eqb_eq. lia.
Qed.

Lemma update_eos_sets n D k V :
  (k <= n_items n)%nat ->
  triple (spot n D (last_of n k) V) (update_eos d0)
    (fun _ s => spot n D (last_of n k) V s /\ eos (nv s) = eos_color (k =? n_items n)%nat).
Proof.
  intros Hk. apply spot_range. intros Hn. unfold update_eos.
  apply (triple_read _ _ (last_of n k)); [by intros s []|].
  eapply triple_bind; [apply spot_next|]. intros p. apply triple_pure. intros ->.
  rewrite next_its, null_lookup by done. apply spot_eos.
Qed.

Lemma update_eos_marks n k :
  (k <= n_items n)%nat -> triple (ready n k) (update_eos d0) (fun _ => marked_at n k).
Proof. apply update_eos_sets. Qed.

(** Showing the slide keeps the mark. *)
Lemma show_keeps_eos n k V p e :
  znth (slides d0) n = Some p ->
  triple (fun s => spot n none_shown (last_of n k) V s /\ eos (nv s) = e) (showSlide d0 bg (Some p))
    (fun _ s => spot n (only d0 n) (last_of n k) V s /\ eos (nv s) = e).
Proof.
  intros Hp s [Hs He]. destruct (spot_show n _ _ p Hp s Hs) as ([] & s2 & E2 & H2). exists tt, s2.
  split; [done|]. split; [done|].
  destruct (styles_showSlide p (p :: backgrounds d0) ltac:(set_solver) ltac:(set_solver) s) as (En & _ & _).
  rewrite E2 in En. simpl in En. by rewrite En, He.
Qed.

Lemma setLocation_calm : calm (setLocation b d0 title lang).
Proof. auto with keeps. Qed.
Lemma refresh_calm : calm (when (negb (ns_pos b)) (refreshToolbar b)).
Proof. auto with keeps. Qed.

Definition good_spot (n : Z) (k : nat) : Prop := 0 <= n < nslides d0 /\ (k <= n_items n)%nat.

Lemma marked_spot n k s : good_spot n k -> marked_at n k s -> at_spot (n, k) s.
Proof. intros Hg [H1 H2]. split; [done | by split]. Qed.

Lemma ready_null n k s : (k <= n_items n)%nat -> ready n k s -> is_null (lastShown (nv s)) = (k =? 0)%nat.
Proof.
  intros Hk Hs. rewrite (sp_last _ _ _ _ _ Hs). destruct k as [|j]; [done|]. simpl.
  destruct (lookup_lt_is_Some_2 (its n) j) as [y ->]; [unfold n_items in Hk; lia | done].
Qed.

(** The end of [nextSlide]. *)
Lemma next_end n k :
  good_spot n k ->
  triple (ready n k) (setLocation b d0 title lang;; update_eos d0;; when (negb (ns_pos b)) (refreshToolbar b))
    (fun _ => at_spot (n, k)).
Proof.
  intros Hg. eapply triple_seq; [apply spot_calm, setLocation_calm|].
  eapply triple_seq; [apply update_eos_marks, Hg|].
  eapply triple_post; [apply marked_calm, refresh_calm|]. intros ? s. by apply marked_spot.
Qed.

(** Revealing the next item. *)
Lemma reveal_item n k :
  good_spot n k -> (k < n_items n)%nat ->
  triple (ready n k) (p ← reveal_next d0 (last_of n k); set_lastShown p) (fun _ => ready n (S k)).
Proof.
  intros [Hn _] Hk. destruct (lookup_lt_is_Some_2 (its n) k Hk) as [x Hx].
  unfold reveal_next. eapply triple_bind with (R := fun p s => p = Some x /\
    spot n (only d0 n) (last_of n k) (Some (upd (upto n k) x true)) s).
  - eapply triple_bind; [apply spot_next|]. intros p. apply triple_pure. intros ->.
    rewrite next_its, Hx by (done || lia). eapply triple_seq; [apply spot_write; by eapply list_elem_of_lookup_2|].
    by apply triple_ret.
  - intros p s [-> Hs]. revert s Hs. eapply triple_post.
    + apply spot_lastShown. intros q [= <-]. by eapply item_no_slide.
    + intros ? s Hs. simpl. rewrite Hx. eapply spot_ext; [|exact Hs]. intros q Hq. by apply upto_step.
Qed.

(** Nothing is left to reveal. *)
Lemma reveal_none n :
  0 <= n < nslides d0 ->
  triple (ready n (n_items n)) (p ← reveal_next d0 (last_of n (n_items n)); set_lastShown p)
    (fun _ => spot n (only d0 n) None (Some (upto n (n_items n)))).
Proof.
  intros Hn. unfold reveal_next. eapply triple_bind with (R := fun p s => p = None /\ ready n (n_items n) s).
  - eapply triple_bind; [apply spot_next|]. intros p. apply triple_pure. intros ->.
    rewrite next_its by done. rewrite (lookup_ge_None_2 (its n)) by (unfold n_items; lia).
    eapply triple_seq; [by intros s Hs; eexists tt, s|]. by apply triple_ret.
  - intros p s [-> Hs]. revert s Hs. by apply spot_lastShown.
Qed.

(** The move to the next slide. *)
Lemma advance n l V :
  n < nslides d0 - 1 ->
  triple (spot n (only d0 n) l V)
    (hide_current d0;; set_slidenum (num_add (Some n) 1);; slide ← this_slide d0;
     set_lastShown None;; all_items d0 false;; showSlide d0 bg slide)
    (fun _ => ready (n + 1) 0).
Proof.
  intros Hlt. apply spot_range. intros Hn. change (num_add (Some n) 1) with (Some (n + 1)).
  eapply triple_seq; [apply spot_hide|]. eapply triple_seq; [apply spot_slidenum; lia|].
  apply spot_slide. intros p Hp. eapply triple_seq; [by apply spot_lastShown|].
  eapply triple_seq; [apply spot_all|]. eapply triple_post; [by apply spot_show|].
  intros ? s. apply spot_ext. intros q _. by rewrite upto_none.
Qed.

Lemma enter_single {B} n D l V (k : bool -> M B) Q :
  triple (spot n D l V) (k false) Q -> triple (spot n D l V) (get (fun s => viewAll (nv s)) ≫= k) Q.
Proof. intros H. apply (triple_read _ _ false); [|done]. intros s Hs. by apply (v_all _ _ _ _ _ (sp_view _ _ _ _ _ Hs)). Qed.
Lemma enter_last {B} n D l V (k : option ref -> M B) Q :
  triple (spot n D l V) (k l) Q -> triple (spot n D l V) (get (fun s => lastShown (nv s)) ≫= k) Q.
Proof. intros H. apply (triple_read _ _ l); [|done]. by intros s []. Qed.
Lemma enter_num {B} n D l V (k : num -> M B) Q :
  triple (spot n D l V) (k (Some n)) Q -> triple (spot n D l V) (get (fun s => slidenum (nv s)) ≫= k) Q.
Proof. intros H. apply (triple_read _ _ (Some n)); [|done]. intros s Hs. apply (v_num _ _ _ _ _ (sp_view _ _ _ _ _ Hs)). Qed.

Lemma null_last n k : (k <= n_items n)%nat -> is_null (last_of n k) = (k =? 0)%nat.
Proof.
  intros Hk. destruct k as [|j]; [done|]. simpl.
  destruct (lookup_lt_is_Some_2 (its n) j) as [y ->]; [unfold n_items in Hk; lia | done].
Qed.

(** [nextSlide] with an item left to reveal. *)
Lemma next_reveals i n k :
  good_spot n k -> (k < n_items n)%nat -> i = true \/ n = nslides d0 - 1 ->
  triple (ready n k) (nextSlide b d0 title lang bg i) (fun _ => at_spot (n, S k)).
Proof.
  intros Hg Hk Hi. destruct Hg as [Hn Hk']. unfold nextSlide. apply enter_single. cbn [negb when].
  apply enter_last, enter_num.
  replace (i || num_eq (Some n) (Some (nslides d0 - 1))) with true
    by (destruct Hi as [-> | ->]; [done | unfold num_eq; by rewrite Z.eqb_refl, orb_true_r]).
  eapply triple_seq; [by apply reveal_item|]. apply enter_last.
  rewrite null_last by lia. cbn [Nat.eqb]. rewrite orb_false_r.
  replace (negb i && num_lt (Some n) (Some (nslides d0 - 1))) with false.
  2: { destruct Hi as [-> | ->]; [done|]. unfold num_lt. by rewrite Z.ltb_irrefl, andb_false_r. }
  eapply triple_seq; [by apply triple_ret|]. apply next_end. split; [done | lia].
Qed.

(** [nextSlide] that goes to the next slide. *)
Lemma next_advances i n k :
  good_spot n k -> n < nslides d0 - 1 -> i = false \/ k = n_items n ->
  triple (ready n k) (nextSlide b d0 title lang bg i) (fun _ => at_spot (n + 1, 0%nat)).
Proof.
  intros [Hn Hk] Hlt Hi. unfold nextSlide. apply enter_single. cbn [negb when]. apply enter_last, enter_num.
  cbn [num_eq num_lt]. rewrite (proj2 (Z.eqb_neq n (nslides d0 - 1))), (proj2 (Z.ltb_lt n (nslides d0 - 1))), orb_false_r by lia.
  eapply triple_seq with (R := fun s => exists l, spot n (only d0 n) l (Some (upto n k)) s /\ (i = true -> l = None)).
  - destruct i; simpl.
    + destruct Hi as [?|Hi]; [done|]. rewrite Hi.
      eapply triple_post; [by apply reveal_none|]. intros ? s Hs. by exists None.
    + apply triple_ret. intros s Hs. by exists (last_of n k).
  - intros s (l & Hs & Hl). revert s Hs. apply enter_last.
    replace (negb i || is_null l) with true by (destruct i; [by rewrite Hl | done]). cbn [andb].
    eapply triple_seq; [by apply advance|]. apply next_end. split; [lia | apply Nat.le_0_l].
Qed.

(** [nextSlide(true)] at the end of the talk. *)
Lemma next_stays n :
  n = nslides d0 - 1 -> 0 <= n < nslides d0 ->
  triple (ready n (n_items n)) (nextSlide b d0 title lang bg true) (fun _ => at_spot (n, n_items n)).
Proof.
  intros Hl Hn. unfold nextSlide. apply enter_single. cbn [negb when orb]. apply enter_last, enter_num.
  eapply triple_seq; [by apply reveal_none|]. apply enter_last. cbn [is_null is_some negb orb num_lt].
  rewrite (proj2 (Z.ltb_ge n (nslides d0 - 1))) by lia. cbn [andb]. rewrite andb_true_r.
  eapply triple_seq with (R := ready n (n_items n)).
  - apply triple_when.
    + intros _. apply spot_lastShown. intros q. by apply last_no_slide.
    + intros E s Hs. apply negb_false_iff in E. rewrite null_last in E by done. apply Nat.eqb_eq in E.
      rewrite E in *. done.
  - apply next_end. split; [done | lia].
Qed.

(** [nextSlide(false)] at the end of a talk whose last slide has no items. *)
Lemma pagedown_stays n :
  n = nslides d0 - 1 -> 0 <= n < nslides d0 -> n_items n = 0%nat ->
  triple (ready n 0) (nextSlide b d0 title lang bg false) (fun _ => at_spot (n, 0%nat)).
Proof.
  intros Hl Hn H0. unfold nextSlide. apply enter_single. cbn [negb when orb]. apply enter_last, enter_num.
  cbn [num_eq num_lt]. rewrite (proj2 (Z.eqb_eq n (nslides d0 - 1))) by lia.
  eapply triple_seq; [pose proof (reveal_none n Hn) as Hr; rewrite H0 in Hr; exact Hr|].
  apply enter_last. rewrite (proj2 (Z.ltb_ge n (nslides d0 - 1))) by lia. cbn [is_null is_some negb orb andb].
  rewrite andb_false_r. eapply triple_seq with (R := ready n 0); [by apply triple_ret|].
  apply (next_end n 0). split; [done | lia].
Qed.

(** The end of [previousSlide]. *)
Lemma previous_end n k :
  good_spot n k ->
  triple (marked_at n k) (setLocation b d0 title lang;; when (negb (ns_pos b)) (refreshToolbar b))
    (fun _ => at_spot (n, k)).
Proof.
  intros Hg. eapply triple_seq; [apply marked_calm, setLocation_calm|].
  eapply triple_post; [apply marked_calm, refresh_calm|]. intros ? s. by apply marked_spot.
Qed.

Lemma spot_to_end n D l V :
  triple (spot n D l V) (last_to_end d0) (fun _ => spot n D (last_of n (n_items n)) V).
Proof.
  apply spot_range. intros Hn. unfold last_to_end. eapply triple_bind; [apply spot_previous|]. intros p.
  apply triple_pure. intros ->. rewrite previous_its_end by done. apply spot_lastShown.
  intros q. by apply last_no_slide.
Qed.

(** [previousSlide] that hides an item. *)
Lemma previous_hides i n k :
  good_spot n (S k) -> i = true \/ n = 0 ->
  triple (ready n (S k)) (previousSlide b d0 title lang bg i) (fun _ => at_spot (n, k)).
Proof.
  intros [Hn Hk] Hi. unfold previousSlide. apply enter_single. cbn [negb when]. apply enter_num, enter_last.
  rewrite null_last by done. cbn [Nat.eqb negb]. rewrite andb_true_r.
  replace (i || num_eq (Some n) (Some 0)) with true by (destruct Hi as [-> | ->]; [done | by rewrite orb_true_r]).
  destruct (lookup_lt_is_Some_2 (its n) k) as [x Hx]; [unfold n_items in Hk; lia|]. cbn [last_of]. rewrite Hx.
  eapply triple_seq with (R := marked_at n k); [|apply previous_end; split; [done | lia]].
  unfold hide_previous. eapply triple_bind with (R := fun p s => p = last_of n k /\
    spot n (only d0 n) (Some x) (Some (upd (upto n (S k)) x false)) s).
  - eapply triple_seq; [apply spot_write; by eapply list_elem_of_lookup_2|].
    eapply triple_post; [apply spot_previous|]. intros p s [Hs ->]. split; [|done].
    rewrite <- Hx. by apply previous_its.
  - intros p s [-> Hs]. revert s Hs.
    eapply triple_seq; [apply spot_lastShown; intros q; by apply last_no_slide|].
    eapply triple_post; [apply spot_eos|]. intros ? s [Hs He]. split.
    + eapply spot_ext; [|exact Hs]. intros q Hq. by apply upto_back.
    + rewrite He. unfold n_items in *. by rewrite (proj2 (Nat.eqb_neq _ _)) by lia.
Qed.

(** [previousSlide] that goes to the slide before. *)
Lemma previous_goes i n k :
  good_spot n k -> 0 < n -> i = false \/ k = 0%nat ->
  triple (ready n k) (previousSlide b d0 title lang bg i) (fun _ => at_spot (n - 1, n_items (n - 1))).
Proof.
  intros [Hn Hk] H0 Hi. unfold previousSlide. apply enter_single. cbn [negb when]. apply enter_num, enter_last.
  rewrite null_last by done. cbn [num_eq num_lt]. rewrite (proj2 (Z.eqb_neq n 0)), orb_false_r, (proj2 (Z.ltb_lt 0 n)) by lia.
  replace (i && negb (k =? 0)%nat) with false by (destruct Hi as [-> | ->]; [done | by rewrite andb_false_r]).
  cbn [when]. change (num_add (Some n) (-1)) with (Some (n + -1)). replace (n + -1) with (n - 1) by lia.
  assert (0 <= n - 1 < nslides d0) as Hm by lia.
  eapply triple_seq with (R := marked_at (n - 1) (n_items (n - 1))); [|apply previous_end; split; [lia | done]].
  eapply triple_seq; [apply spot_hide|]. eapply triple_seq; [by apply spot_slidenum|].
  apply spot_slide. intros p Hp. eapply triple_seq; [apply spot_all|]. eapply triple_seq; [apply spot_to_end|].
  eapply triple_seq; [apply spot_eos|]. eapply triple_post; [by apply show_keeps_eos|].
  intros ? s [Hs He]. split; [|by rewrite He, Nat.eqb_refl].
  eapply spot_ext; [|exact Hs]. intros q Hq. by rewrite upto_all.
Qed.

(** [previousSlide] at the start. *)
Lemma previous_stays i : 
  triple (at_spot (0, 0%nat)) (previousSlide b d0 title lang bg i) (fun _ => at_spot (0, 0%nat)).
Proof.
  intros s (Hs & [Hn Hk] & He). simpl in *.
  assert (triple (marked_at 0 0) (previousSlide b d0 title lang bg i) (fun _ => at_spot (0, 0%nat))) as H.
  2: { apply H. by split. }
  clear s Hs He. unfold previousSlide.
  apply (triple_read _ _ false); [intros s [Hs _]; apply (v_all _ _ _ _ _ (sp_view _ _ _ _ _ Hs))|]. cbn [negb when].
  apply (triple_read _ _ (Some 0)); [intros s [Hs _]; apply (v_num _ _ _ _ _ (sp_view _ _ _ _ _ Hs))|].
  apply (triple_read _ _ None); [intros s [Hs _]; apply (sp_last _ _ _ _ _ Hs)|].
  cbn [is_null is_some negb num_eq num_lt]. rewrite andb_false_r. cbn [Z.ltb Z.compare when].
  eapply triple_seq with (R := marked_at 0 0); [by apply triple_ret|]. apply previous_end. by split.
Qed.

Lemma first_goes n k :
  good_spot n k -> n <> 0 ->
  triple (ready n k) (firstSlide b d0 title lang bg) (fun _ => at_spot (0, 0%nat)).
Proof.
  intros [Hn Hk] H0. unfold firstSlide. apply enter_single. cbn [negb when]. apply enter_num.
  cbn [num_eq]. rewrite (proj2 (Z.eqb_neq n 0)) by done. cbn [negb when].
  eapply triple_seq with (R := ready 0 0).
  - eapply triple_seq; [apply spot_hide|]. eapply triple_seq; [apply spot_slidenum; lia|].
    apply spot_slide. intros p Hp. eapply triple_seq; [by apply spot_lastShown|].
    eapply triple_seq; [apply spot_all|]. eapply triple_post; [by apply spot_show|].
    intros ? s. apply spot_ext. intros q _. by rewrite upto_none.
  - eapply triple_seq; [apply (update_eos_marks 0 0); lia|].
    eapply triple_post; [apply marked_calm, setLocation_calm|]. intros ? s. apply marked_spot. split; lia.
Qed.

(** On the first slide nothing is hidden. *)
Lemma first_stays k :
  good_spot 0 k -> triple (ready 0 k) (firstSlide b d0 title lang bg) (fun _ => at_spot (0, k)).
Proof.
  intros [Hn Hk]. unfold firstSlide. apply enter_single. cbn [negb when]. apply enter_num.
  cbn [num_eq Z.eqb negb when]. eapply triple_seq with (R := ready 0 k); [by apply triple_ret|].
  eapply triple_seq; [by apply update_eos_marks|].
  eapply triple_post; [apply marked_calm, setLocation_calm|]. intros ? s. apply marked_spot. by split.
Qed.

Lemma last_goes n l V :
  triple (spot n (only d0 n) l V) (lastSlide b d0 title lang bg)
    (fun _ => at_spot (nslides d0 - 1, n_items (nslides d0 - 1))).
Proof.
  apply spot_range. intros Hn. set (m := nslides d0 - 1). assert (0 <= m < nslides d0) as Hm by (unfold m; lia).
  unfold lastSlide. apply enter_single. cbn [negb when].
  eapply triple_seq; [by apply spot_lastShown|]. apply enter_num. cbn [num_lt].
  eapply triple_seq with (R := ready m (n_items m)).
  - destruct (Z.ltb_spec n (nslides d0 - 1)).
    + eapply triple_seq; [apply spot_hide|]. eapply triple_seq; [by apply spot_slidenum|].
      apply spot_slide. intros p Hp. eapply triple_seq; [apply spot_all|]. eapply triple_seq; [apply spot_to_end|].
      eapply triple_post; [by apply spot_show|]. intros ? s. apply spot_ext. intros q Hq. by rewrite upto_all.
    + replace n with m in * by (unfold m; lia). eapply triple_seq; [apply spot_all|].
      eapply triple_post; [apply spot_to_end|]. intros ? s. apply spot_ext. intros q Hq. by rewrite upto_all.
  - eapply triple_seq with (R := marked_at m (n_items m)).
    { eapply triple_post; [apply spot_eos|]. intros ? s [Hs He]. split; [done|]. by rewrite He, Nat.eqb_refl. }
    eapply triple_post; [apply marked_calm, setLocation_calm|]. intros ? s. apply marked_spot. by split.
Qed.

(** [gotoSlide] shows a slide with nothing revealed. *)
Lemma goto_goes n k m :
  good_spot n k -> 0 <= m < nslides d0 ->
  triple (ready n k) (gotoSlide d0 title lang bg (Some m)) (fun _ => at_spot (m, 0%nat)).
Proof.
  intros _ Hm. unfold gotoSlide. eapply triple_seq; [apply spot_hide|]. eapply triple_seq; [by apply spot_slidenum|].
  apply spot_slide. intros p Hp. eapply triple_seq; [by apply spot_lastShown|].
  eapply triple_seq; [apply spot_all|].
  eapply triple_seq; [apply (update_eos_sets m none_shown 0); lia|].
  eapply triple_seq; [apply with_eos_calm; auto with keeps|].
  eapply triple_seq; [by apply show_keeps_eos|].
  eapply triple_post; [apply with_eos_calm; auto with keeps|].
  intros ? s [Hs He]. apply marked_spot; [split; [done | lia]|]. split; [|done].
  eapply spot_ext; [|exact Hs]. intros q _. by rewrite upto_none.
Qed.

(** ** Keys *)
Section keys.
Variable computed : outl -> ref -> jstring.

Definition key_of (e : move) : key_event :=
  Key (match e with Next => 32 | Prev => 37 | PageUp => 33 | PageDown => 34 | First => 36 | Last => 35 end)
      false false false false.

Definition press (e : move) (s : show) : option show :=
  match keyDown b d0 title lang computed bg (key_of e) s with (Some _, s') => Some s' | _ => None end.
Definition press_all (es : list move) (s : show) : option show :=
  foldl (fun o e => s ← o; press e s) (Some s) es.

Definition nav_op (e : move) : M unit :=
  match e with
  | Next => nextSlide b d0 title lang bg true
  | Prev => previousSlide b d0 title lang bg true
  | PageUp => previousSlide b d0 title lang bg false
  | PageDown => nextSlide b d0 title lang bg false
  | First => firstSlide b d0 title lang bg
  | Last => lastSlide b d0 title lang bg
  end.

(** Each operation follows the machine. *)
Lemma nav_op_step a e a' :
  a_step (nslides d0) n_items a e = Some a' ->
  triple (at_spot a) (nav_op e) (fun _ => at_spot a').
Proof.
  destruct a as [n k]. intros Ha s Hat. destruct (Hat) as (Hs & [Hn Hk] & _). simpl in Hn, Hk, Hs.
  assert (good_spot n k) as Hg by done.
  destruct e; unfold a_step, a_next, a_prev, a_pageup, a_pagedown, a_first, a_last in Ha; cbn [nav_op].
  - destruct (Nat.ltb_spec k (n_items n)); simplify_eq; [by apply (next_reveals true n k Hg); auto|].
    assert (k = n_items n) as -> by lia. destruct (Z.ltb_spec n (nslides d0 - 1)); simplify_eq.
    + by apply (next_advances true n (n_items n) Hg); auto.
    + apply (next_stays n); [lia | done | done].
  - destruct k as [|k]; simplify_eq; [|by apply (previous_hides true n k Hg); auto].
    destruct (Z.ltb_spec 0 n); simplify_eq; [by apply (previous_goes true n 0 Hg); auto|].
    assert (n = 0) as -> by lia. by apply previous_stays.
  - destruct (Z.ltb_spec 0 n); simplify_eq; [by apply (previous_goes false n k Hg); auto|].
    assert (n = 0) as -> by lia. destruct k as [|k]; [by apply previous_stays|].
    by apply (previous_hides false 0 k Hg); auto.
  - destruct (Z.ltb_spec n (nslides d0 - 1)); simplify_eq; [by apply (next_advances false n k Hg); auto|].
    assert (n = nslides d0 - 1) as Hl by lia. revert Ha.
    destruct (Nat.ltb_spec k (n_items n)); [intros [= <-]; by apply (next_reveals false n k Hg); auto|].
    destruct (Nat.eqb_spec (n_items n) 0) as [Hz|]; intros [= <-].
    assert (k = 0%nat) as -> by lia. by apply pagedown_stays.
  - cbn [fst] in Ha. destruct (Z.eqb_spec n 0) as [->|]; simplify_eq; [by apply first_stays | by apply (first_goes n k)].
  - simplify_eq. by apply (last_goes n (last_of n k) (Some (upto n k))).
Qed.

Lemma at_spot_calm {A} (m : M A) a : calm m -> triple (at_spot a) m (fun _ => at_spot a).
Proof.
  intros Hm. apply (respects_triple same_core); [done|]. intros s s' (Hs & Hv & He) Hc.
  split_and!; [by eapply spot_core | done | destruct Hc as [E _]; by rewrite E].
Qed.

(** A key pressed in any state with one slide displayed, given what its operation does. *)
Lemma press_from (P : show -> Prop) e a :
  (forall s, P s -> viewAll (nv s) = false) ->
  (forall m : M unit, calm m -> triple P m (fun _ => P)) ->
  triple P (nav_op e) (fun _ => at_spot a) ->
  forall s, P s -> exists s', press e s = Some s' /\ at_spot a s'.
Proof.
  intros Hva Hcalm Hop s Hs. unfold press.
  assert (triple P (keyDown b d0 title lang computed bg (key_of e)) (fun r s => r = false /\ at_spot a s)) as H.
  2: { destruct (H s Hs) as (r & s' & -> & _ & H'). by exists s'. }
  clear s Hs. assert (triple P (key_action b d0 title lang computed bg (key_of e)) (fun r s => r = false /\ at_spot a s)) as Hk.
  { assert (triple P (cancelled (nav_op e)) (fun r s => r = false /\ at_spot a s)) as Hc.
    { eapply triple_seq; [exact Hop|]. by apply triple_ret. }
    destruct e; try exact Hc; (apply (triple_read _ _ false); [done | exact Hc]). }
  unfold keyDown. replace (key (key_of e) =? 0) with false by (by destruct e). cbn [ctrlKey altKey metaKey key_of orb].
  apply triple_get_bind. intros sh. eapply triple_pre with (P' := P); [by intros s [? _]|].
  destruct (_ && _); [|exact Hk].
  eapply triple_seq; [apply Hcalm; auto with keeps|].
  replace (_ || _ || _) with false by (by destruct e). exact Hk.
Qed.

Lemma press_step a e a' s :
  at_spot a s -> a_step (nslides d0) n_items a e = Some a' ->
  exists s', press e s = Some s' /\ at_spot a' s'.
Proof.
  intros Hs Ha. revert s Hs. apply press_from; [| |by apply nav_op_step].
  - intros s [Hs _]. apply (v_all _ _ _ _ _ (sp_view _ _ _ _ _ Hs)).
  - intros m. apply at_spot_calm.
Qed.

Lemma navigation_runs a es a' s :
  at_spot a s -> a_run (nslides d0) n_items es a = Some a' ->
  exists s', press_all es s = Some s' /\ at_spot a' s'.
Proof.
  unfold a_run, press_all. revert a s. induction es as [|e es IH]; intros a s Hs; simpl.
  - intros [= <-]. by exists s.
  - destruct (a_step _ _ a e) as [a1|] eqn:E.
    + destruct (press_step a e a1 s Hs E) as (s1 & -> & H1). by apply IH.
    + intros H. exfalso. revert H. clear. induction es as [|e' es IH]; simpl; [done | exact IH].
Qed.

(** C2: The keys of the slide show refine the machine: at a spot of the machine, as
    long as the machine has a step for every key, the show has one too, and ends
    at the machine's spot: its slide is displayed, exactly the first items are
    visible, and the end of slide mark is right. *)
Theorem navigation_refines a es a' s :
  at_spot a s -> a_run (nslides d0) n_items es a = Some a' ->
  exists s', press_all es s = Some s' /\ at_spot a' s'.
Proof. apply navigation_runs. Qed.

Lemma press_ready n k e a :
  triple (ready n k) (nav_op e) (fun _ => at_spot a) ->
  forall s, ready n k s -> exists s', press e s = Some s' /\ at_spot a s'.
Proof.
  apply press_from; [intros s Hs; apply (v_all _ _ _ _ _ (sp_view _ _ _ _ _ Hs)) | intros m; apply spot_calm].
Qed.

Lemma run_iter e f a j :
  (forall a, a_step (nslides d0) n_items a e = Some (f a)) ->
  a_run (nslides d0) n_items (replicate j e) a = Some (Nat.iter j f a).
Proof.
  intros Hf. unfold a_run. revert a. induction j as [|j IH]; intros a; [done|].
  cbn [replicate foldl mbind option_bind]. rewrite Hf, IH. by rewrite <- Nat.iter_succ_r.
Qed.

Abbreviation spot_place := (place n_items).

(** The space bar and the Left key walk from a spot to any other; the end of slide
    mark of the first one need not be right. *)
Lemma walk_on a a' s :
  good_spot a.1 a.2 -> ready a.1 a.2 s -> valid (nslides d0) n_items a' -> (spot_place a < spot_place a')%nat ->
  exists s', press_all (replicate (spot_place a' - spot_place a) Next) s = Some s' /\ at_spot a' s'.
Proof.
  destruct a as [n k]. cbn [fst snd]. intros Hg Hs Ha' Hlt. pose proof Hg as [Hn Hk].
  assert (valid (nslides d0) n_items (n, k)) as Hv by done.
  assert ((n, k) <> a_last (nslides d0) n_items) as Hl.
  { intros E. pose proof (place_last _ _ _ Ha'). rewrite <- E in *. lia. }
  destruct (place_next _ _ _ Hv Hl) as [Hv' Hp].
  destruct (press_ready n k Next (a_next (nslides d0) n_items (n, k))) with (s := s) as (s1 & E1 & H1); [|done|].
  { cbn [a_next nav_op]. destruct (Nat.ltb_spec k (n_items n)); [by apply next_reveals; auto|].
    assert (k = n_items n) as -> by lia. destruct (Z.ltb_spec n (nslides d0 - 1)); [by apply next_advances; auto|].
    apply next_stays; lia. }
  replace (spot_place a' - spot_place (n, k))%nat with (S (spot_place a' - S (spot_place (n, k)))) by lia.
  rewrite <- Hp. unfold press_all. cbn [replicate foldl mbind option_bind]. rewrite E1.
  destruct (navigation_runs _ (replicate (spot_place a' - spot_place (a_next (nslides d0) n_items (n, k))) Next) a' s1 H1)
    as (s2 & E2 & H2); [|by exists s2].
  rewrite (run_iter _ (a_next (nslides d0) n_items)) by done. f_equal. apply next_to; [done..|lia].
Qed.

Lemma walk_back a a' s :
  good_spot a.1 a.2 -> ready a.1 a.2 s -> valid (nslides d0) n_items a' -> (spot_place a' < spot_place a)%nat ->
  exists s', press_all (replicate (spot_place a - spot_place a') Prev) s = Some s' /\ at_spot a' s'.
Proof.
  destruct a as [n k]. cbn [fst snd]. intros Hg Hs Ha' Hlt. pose proof Hg as [Hn Hk].
  assert (valid (nslides d0) n_items (n, k)) as Hv by done.
  assert ((n, k) <> (0, 0%nat)) as Hl by (intros [= -> ->]; unfold place in Hlt at 2; simpl in Hlt; lia).
  destruct (place_prev (nslides d0) n_items _ Hv Hl) as [Hv' Hp].
  destruct (press_ready n k Prev (a_prev n_items (n, k))) with (s := s) as (s1 & E1 & H1); [|done|].
  { cbn [a_prev nav_op]. destruct k as [|k]; [|by apply previous_hides; auto].
    destruct (Z.ltb_spec 0 n); [by apply previous_goes; auto|]. exfalso. apply Hl. f_equal. lia. }
  replace (spot_place (n, k) - spot_place a')%nat with (S (pred (spot_place (n, k)) - spot_place a')) by lia.
  rewrite <- Hp. cbn [pred]. unfold press_all. cbn [replicate foldl mbind option_bind]. rewrite E1.
  destruct (navigation_runs _ (replicate (spot_place (a_prev n_items (n, k)) - spot_place a') Prev) a' s1 H1)
    as (s2 & E2 & H2); [|by exists s2].
  rewrite (run_iter _ (a_prev n_items)) by done. f_equal. apply (prev_to (nslides d0)); [done..|lia].
Qed.

(** Left undoes the space bar everywhere but at the end of the talk, and the
    space bar undoes Left everywhere but at its start. *)
Theorem left_undoes_space a s :
  at_spot a s ->
  (a <> a_last (nslides d0) n_items -> exists s', press_all [Next; Prev] s = Some s' /\ at_spot a s')
  /\ (a <> (0, 0%nat) -> exists s', press_all [Prev; Next] s = Some s' /\ at_spot a s').
Proof.
  intros Hs. destruct (Hs) as (_ & Hv & _). split; intros Ha.
  - apply (navigation_runs a [Next; Prev] a s Hs). unfold a_run. cbn [foldl mbind option_bind a_step].
    by rewrite (prev_next _ _ a Hv Ha).
  - apply (navigation_runs a [Prev; Next] a s Hs). unfold a_run. cbn [foldl mbind option_bind a_step].
    by rewrite (next_prev _ _ a Hv Ha).
Qed.

(** The End key leads to a spot of the machine from every state with one slide
    displayed. *)
Lemma end_key n s :
  view d0 n false (only d0 n) s -> cls (page s) = C -> is_Some (eos (nv s)) ->
  exists s', press Last s = Some s' /\ at_spot (a_last (nslides d0) n_items) s'.
Proof.
  intros Hv Hc He. assert (spot n (only d0 n) (lastShown (nv s)) None s) as Hs by (by split).
  revert s Hv Hc He Hs. intros s _ _ _. generalize (lastShown (nv s)). intros l Hs.
  refine (press_from (spot n (only d0 n) l None) Last _ _ _ _ s Hs); [| |apply last_goes].
  - intros s1 H1. apply (v_all _ _ _ _ _ (sp_view _ _ _ _ _ H1)).
  - intros m. apply spot_calm.
Qed.
End keys.
End nav.
End Nav.
