(* ===== verification/ShowAddr.v ===== *)
(** * The slide show and the address of the page

    [setLocation] writes the current slide into the address, the poll of the
    address reads it back, and the history of the browser moves the show through
    it.  From the slide on which a talk opens, the navigation keys lead to every
    other place of it. *)
From S2P Require Import Prelude JsString Dom Slides Location Localize Outline Contents Show ShowLogic ShowSafe ShowNav.

Module Address.
Import Dom Slides Show Logic View Nav.
Import Outline (outl, cls, disp, vis).

(** ** Addresses with a fragment *)
Lemma location_hash_app u r :
  c_hash ∉ u -> r <> [] -> Location.location_hash (u ++ c_hash :: r) = c_hash :: r.
Proof.
  intros Hu Hr. unfold Location.location_hash. rewrite indexOf_char by done.
  pose proof (zlen_nonneg u). rewrite (proj2 (Z.ltb_ge (zlen u) 0)) by lia.
  unfold slice_from. rewrite clamp_id by jslia. rewrite zdrop_app_len.
  rewrite bool_decide_eq_false_2; [done|]. by intros [= ->].
Qed.

Lemma pageAddress_app u r : c_hash ∉ u -> Location.pageAddress (u ++ c_hash :: r) = u.
Proof.
  intros Hu. unfold Location.pageAddress. rewrite indexOf_char by done.
  pose proof (zlen_nonneg u). rewrite !(proj2 (Z.ltb_ge (zlen u) 0)) by lia.
  unfold substr. rewrite clamp_id by jslia. rewrite zdrop_nonpos by lia. by rewrite ztake_app_len.
Qed.

Definition fragment (n : Z) : jstring := js "(" ++ num_str (n + 1) ++ js ")".
Lemma slide_hash_fragment n : Location.slide_hash n = c_hash :: fragment n.
Proof. reflexivity. Qed.
Lemma fragment_ne n : fragment n <> [].
Proof. done. Qed.

Section address.
Variables (b : browser) (d0 : deck) (title lang : jstring) (bg : style_api).

(** [location.hash = h] on an address. *)
Definition with_hash (h u : jstring) : jstring :=
  let i := indexOf [c_hash] u in
  (if i <? 0 then u else ztake i u) ++ c_hash :: match h with 35 :: r => r | _ => h end.

Lemma with_hash_app u r h : c_hash ∉ u -> with_hash h (u ++ c_hash :: r) = u ++ c_hash :: match h with 35 :: r => r | _ => h end.
Proof.
  intros Hu. unfold with_hash. rewrite indexOf_char by done. pose proof (zlen_nonneg u).
  rewrite (proj2 (Z.ltb_ge (zlen u) 0)) by lia. by rewrite ztake_app_len.
Qed.

(** Once the slide is in the address, writing its fragment again changes
    nothing. *)
Lemma with_hash_same h n :
  with_hash (c_hash :: fragment n) (Location.slide_uri n h) = Location.slide_uri n h
  /\ with_hash (fragment n) (Location.slide_uri n h) = Location.slide_uri n h \/ n < 0.
Proof.
  destruct (Z.ltb_spec n 0) as [|Hn]; [by right|]. left.
  unfold Location.slide_uri. rewrite (proj2 (Z.leb_le 0 n)) by lia. rewrite slide_hash_fragment.
  rewrite !with_hash_app by apply Location.pageAddress_no_hash. done.
Qed.

(** What [setLocation] leaves, in every browser. *)
Definition located (n : Z) (s : show) : show :=
  MkShow (nv s) (page s) (lay s)
    (Addr (Location.slide_uri n (href (ad s))) (doc_title_of title (Some n))
       (Localize.localize lang (js "slide") ++ js " " ++ num_str (n + 1) ++ js "/" ++ num_str (nslides d0)))
    (lk s) (us s).

(** The same state at another address. *)
Definition at_href (h : jstring) (s : show) : show :=
  MkShow (nv s) (page s) (lay s) (Addr h (doc_title (ad s)) (counter (ad s))) (lk s) (us s).

Lemma run_seq {A} (m : M unit) (k : M A) s s' : m s = (Some tt, s') -> (m;; k) s = k s'.
Proof. intros E. unfold mbind, M_bind. by rewrite E. Qed.
Lemma run_get {A B} (f : show -> A) (k : A -> M B) s : (get f ≫= k) s = k (f s) s.
Proof. reflexivity. Qed.
Lemma run_set_hash h s : set_hash h s = (Some tt, at_href (with_hash h (href (ad s))) s).
Proof. reflexivity. Qed.

Lemma setLocation_located n s :
  slidenum (nv s) = Some n -> 0 <= n -> setLocation b d0 title lang s = (Some tt, located n s).
Proof.
  intros Hn H0. unfold located. set (u := Location.slide_uri n (href (ad s))).
  assert (u = Location.pageAddress (href (ad s)) ++ c_hash :: fragment n) as Hu.
  { unfold u, Location.slide_uri. by rewrite (proj2 (Z.leb_le 0 n)) by lia. }
  assert (Location.location_hash u = c_hash :: fragment n) as Hh.
  { rewrite Hu. apply location_hash_app; [apply Location.pageAddress_no_hash | apply fragment_ne]. }
  destruct (with_hash_same (href (ad s)) n) as [[W1 W2]|]; [|lia]. fold u in W1, W2.
  unfold setLocation, get, mbind at 1 2, M_bind at 1 2. rewrite Hn. cbn [num_add fmap option_fmap option_map num_text].
  rewrite (proj2 (Z.leb_le 0 n)) by lia. fold (fragment n). change (c_hash :: js "(" ++ num_str (n + 1) ++ js ")") with (c_hash :: fragment n).
  change (js "(" ++ num_str (n + 1) ++ js ")") with (fragment n). rewrite <- Hu.
  assert (exists h1, when (ie b && negb (ie8 b)) (pushHash (c_hash :: fragment n)) s = (Some tt, at_href h1 s)) as [h1 E1].
  { destruct (_ && _); [by eexists; apply run_set_hash | exists (href (ad s)); by destruct s as [? ? ? [] ? ?]]. }
  rewrite (run_seq _ _ _ _ E1). unfold mbind at 1, M_bind at 1.
  assert (when (negb (bool_decide (u = href (ad (at_href h1 s))))) (set_href u) (at_href h1 s) = (Some tt, at_href u s)) as E2.
  { destruct (bool_decide_reflect (u = href (ad (at_href h1 s)))) as [->|]; reflexivity. }
  rewrite (run_seq _ _ _ _ E2). unfold mbind at 1, M_bind at 1. cbn [href ad at_href].
  match goal with |- context [when ?c (set_hash ?h)] =>
    assert (when c (set_hash h) (at_href u s) = (Some tt, at_href u s)) as E3 end.
  { destruct (_ && _ && _); [|reflexivity]. unfold when. rewrite run_set_hash. cbn [href ad at_href].
    destruct (khtml b); by rewrite ?W1, ?W2. }
  rewrite (run_seq _ _ _ _ E3). erewrite run_seq by reflexivity.
  unfold showSlideNumber. rewrite run_get. cbn [nv at_href]. rewrite Hn. reflexivity.
Qed.

(** C5: The slide written to the address is settled: the poll leaves the show as it
    is, and writing it again changes nothing. *)
Theorem setLocation_settles by_id n s :
  slidenum (nv s) = Some n -> 0 <= n < nslides d0 ->
  by_id (fragment n) = None ->
  exists s', setLocation b d0 title lang s = (Some tt, s')
    /\ checkLocation d0 title lang bg s' = (Some tt, s')
    /\ setLocation b d0 title lang s' = (Some tt, s')
    /\ Location.findSlideNumber (deck_of d0 s') by_id (href (ad s')) = Some n.
Proof.
  intros Hn H0 Hid. exists (located n s). split; [apply setLocation_located; [done | lia]|].
  assert (href (ad (located n s)) = Location.pageAddress (href (ad s)) ++ c_hash :: fragment n) as Hu.
  { cbn [located href ad]. unfold Location.slide_uri. by rewrite (proj2 (Z.leb_le 0 n)) by lia. }
  assert (slidenum (nv (located n s)) = Some n) as Hn' by done.
  split_and!.
  - unfold checkLocation, mbind, M_bind, get. rewrite Hn', Hu.
    rewrite location_hash_app by (apply Location.pageAddress_no_hash || apply fragment_ne).
    replace (num_lt (Some 0) (Some n) && _) with false by (symmetry; apply andb_false_r).
    change (js "#(" ++ num_text (num_add (Some n) 1) ++ js ")") with (c_hash :: fragment n).
    rewrite (bool_decide_eq_true_2 (c_hash :: fragment n = _)) by done. by rewrite andb_false_r.
  - rewrite (setLocation_located n) by (done || lia). f_equal. unfold located. cbn [nv page lay ad lk us href].
    do 2 f_equal. unfold Location.slide_uri. rewrite (proj2 (Z.leb_le 0 n)) by lia. rewrite slide_hash_fragment.
    by rewrite pageAddress_app by apply Location.pageAddress_no_hash.
  - rewrite Hu. apply (Location.findSlideNumber_hash (deck_of d0 (located n s)) by_id);
      [apply Location.pageAddress_no_hash | done | done].
Qed.

(** *** The poll after the fragment changed *)
Lemma zlen_fragment n : 2 < zlen (c_hash :: fragment n).
Proof.
  assert (num_str (n + 1) <> []) as Hne.
  2: { change (fragment n) with (c_lparen :: num_str (n + 1) ++ [c_rparen]).
       destruct (num_str (n + 1)) as [|c r]; [done|]. autorewrite with jslen. note_lengths. lia. }
  intros E. unfold num_str in E. destruct (n + 1) as [|p|p]; [done| |].
  - change (Z.to_int (Z.pos p)) with (Decimal.Pos (Pos.to_uint p)) in E.
    unfold DecimalString.NilZero.string_of_int, DecimalString.NilZero.string_of_uint in E.
    by destruct (Pos.to_uint p).
  - done.
Qed.

Lemma parse_fragment n : 0 <= n -> Location.parseInt (substr_from 2 (c_hash :: fragment n)) = Some (n + 1).
Proof.
  intros Hn. pose proof (zlen_fragment n). unfold substr_from. rewrite clamp_id by lia.
  change (zdrop 2 (c_hash :: fragment n)) with (num_str (n + 1) ++ js ")").
  destruct (n + 1) as [|p|p] eqn:E; [lia| |lia]. by apply Location.parseInt_num.
Qed.

Lemma num_str_inj m n : 0 <= m -> 0 <= n -> num_str (m + 1) = num_str (n + 1) -> m = n.
Proof.
  intros Hm Hn E. destruct (m + 1) as [|p|p] eqn:Em; [lia| |lia]. destruct (n + 1) as [|q|q] eqn:En; [lia| |lia].
  assert (Some (Z.pos p) = Some (Z.pos q)) as H; [|simplify_eq; lia].
  rewrite <- (Location.parseInt_num p []), <- (Location.parseInt_num q []) by done. by rewrite E.
Qed.

(** The poll with the fragment of another slide in the address. *)
Lemma poll_jumps s n m :
  slidenum (nv s) = Some n -> 0 <= n -> 0 <= m -> m <> n ->
  Location.location_hash (href (ad s)) = c_hash :: fragment m ->
  checkLocation d0 title lang bg s = gotoSlide d0 title lang bg (Some m) s.
Proof.
  intros Hn H0 Hm Hne Hh. unfold checkLocation. rewrite !run_get, Hh, Hn.
  rewrite (bool_decide_eq_false_2 (c_hash :: fragment m = [])) by done.
  rewrite (bool_decide_eq_false_2 (c_hash :: fragment m = [c_hash])) by done.
  rewrite andb_false_r. rewrite (proj2 (Z.ltb_lt 2 _)) by apply zlen_fragment.
  rewrite bool_decide_eq_false_2.
  - cbn [andb negb when]. rewrite parse_fragment by done. by replace (m + 1 - 1) with m by lia.
  - intros E. apply Hne. change (js "#(" ++ num_text (num_add (Some n) 1) ++ js ")") with (c_hash :: fragment n) in E.
    injection E as E. apply num_str_inj; [done..|]. by apply app_inv_tail in E.
Qed.

Hypothesis wf : wf_deck d0.
Variable C : gmap ref jstring.

(** Another address changes nothing else. *)
Lemma at_spot_href a h s : at_spot d0 C a s -> at_spot d0 C a (at_href h s).
Proof. intros (H1 & H2 & H3). split; [by eapply spot_core | by split]. Qed.
Lemma view_href n va D h s : view d0 n va D s -> view d0 n va D (at_href h s).
Proof. intros H. by eapply view_same. Qed.

(** The back button, or any change of the fragment, to the address of a slide:
    the poll shows that slide, with none of its items revealed; for the current
    slide it changes nothing. *)
Theorem back_button m n k s :
  at_spot d0 C (n, k) s -> 0 <= m < nslides d0 ->
  Location.location_hash (href (ad s)) = c_hash :: fragment m ->
  exists s', checkLocation d0 title lang bg s = (Some tt, s')
    /\ at_spot d0 C (if m =? n then (n, k) else (m, 0%nat)) s'.
Proof.
  intros Hs Hm Hh. destruct (Hs) as (Hsp & [Hn Hk] & _). cbn [fst snd] in *.
  pose proof (v_num _ _ _ _ _ (sp_view _ _ _ _ _ _ _ Hsp)) as Hnum.
  destruct (Z.eqb_spec m n) as [->|Hne].
  - exists s. split; [|done]. unfold checkLocation. rewrite !run_get, Hh, Hnum.
    rewrite (bool_decide_eq_false_2 (c_hash :: fragment n = [])) by done.
    rewrite (bool_decide_eq_false_2 (c_hash :: fragment n = [c_hash])) by done.
    change (js "#(" ++ num_text (num_add (Some n) 1) ++ js ")") with (c_hash :: fragment n).
    rewrite (bool_decide_eq_true_2 (c_hash :: fragment n = _)) by done. by rewrite !andb_false_r.
  - rewrite (poll_jumps s n m) by (done || lia).
    destruct (goto_goes d0 title lang bg wf C n k m ltac:(by split) Hm s Hsp) as ([] & s' & E & H). by exists s'.
Qed.

(** C4: The address of a slide that does not exist: the poll hides the current slide
    and throws; nothing is displayed any more. *)
Theorem missing_slide_throws m n s :
  view d0 n false (only d0 n) s -> nslides d0 <= m ->
  Location.location_hash (href (ad s)) = c_hash :: fragment m ->
  exists s', checkLocation d0 title lang bg s = (None, s')
    /\ slidenum (nv s') = Some m
    /\ forall p, p ∈ slides d0 -> disp (page s') !! p = Some (js "none").
Proof.
  intros Hv Hm Hh. pose proof (v_range _ _ _ _ _ Hv) as Hn.
  rewrite (poll_jumps s n m) by (done || lia || apply (v_num _ _ _ _ _ Hv)).
  destruct (hide_current_view d0 n false s Hv) as ([] & s1 & E1 & H1).
  eexists. split; [|split].
  - unfold gotoSlide. rewrite (run_seq _ _ _ _ E1). erewrite run_seq by reflexivity.
    unfold mbind at 1, M_bind at 1, this_slide, get. erewrite run_seq by reflexivity.
    unfold mbind at 1, M_bind at 1, all_items.
    assert (znth (slides d0) m = None) as Hz by (apply znth_None; right; exact Hm).
    unfold current at 1, slide_at at 1. cbn [nv slidenum mbind option_bind]. rewrite Hz. reflexivity.
  - reflexivity.
  - intros p Hp. cbn [page]. by destruct (v_disp _ _ _ _ _ H1 p Hp) as [-> _].
Qed.
End address.

(** ** Where the talk starts *)
Import Safe.

Section start.
Variables (b : browser) (d0 : deck) (title lang : jstring).
Variable by_id : jstring -> option ref.
Variable computed : outl -> ref -> jstring.
Variable bg : style_api.
Hypothesis wf : wf_deck d0.

(** The class attributes once the outlines are initialised; they stay. *)
Definition start_classes : gmap ref jstring := cls (Outline.initOutliner (doc d0) computed (collected_page d0)).

(** No note is an incremental item of a slide. *)
Definition notes_apart : Prop := forall n p, p ∈ its d0 start_classes n -> p ∉ notes d0.
Hypothesis Hnotes : notes_apart.

Abbreviation spotC := (spot d0 start_classes).
Abbreviation itemsC := (n_items d0 start_classes).
Abbreviation readyC n k := (spotC n (only d0 n) (last_of d0 start_classes n k) (Some (upto d0 start_classes n k))).
Abbreviation some_spot n D := (fun s => exists l V, spotC n D l V s).

Lemma some_spot_calm {A} (m : M A) n D : calm m -> triple (some_spot n D) m (fun _ => some_spot n D).
Proof.
  intros Hm s (l & V & Hs). destruct (spot_calm _ _ m n D l V Hm s Hs) as (a & s' & E & H'). exists a, s'. eauto.
Qed.

(** The loop of [singleSlideView] writes styles of slides and backgrounds only. *)
Lemma single_loop_spot n l V :
  triple (spotC n none_shown l V) (each (numbered 0 (slides d0)) (single_body d0 bg)) (fun _ => spotC n (only d0 n) l V).
Proof.
  apply spot_range. intros Hn. apply spot_styles with (S := slides d0 ++ backgrounds d0).
  - intros p Hp Hin. by apply (its_apart d0 wf _ n p Hn Hp).
  - apply styles_each. intros [i p] Hip.
    assert (p ∈ slides d0) as Hp.
    { revert Hip. generalize 0. induction (slides d0) as [|q r IH]; intros k Hip; [by apply elem_of_nil in Hip|].
      apply elem_of_cons in Hip as [[= -> ->]|Hip]; [left | right; by eapply IH]. }
    unfold single_body. do 3 (apply styles_bind; [by intros s|]; intros ?).
    destruct (num_eq _ _); [apply styles_showSlide; set_solver | apply styles_node; set_solver].
  - apply (single_loop d0 title by_id bg wf n false (slides d0) []); [done | done | by intros p ?%elem_of_nil].
Qed.

Lemma notes_loop_spot n l V :
  triple (spotC n (only d0 n) l V) (each (notes d0) (fun p => hideSlide (Some p))) (fun _ => spotC n (only d0 n) l V).
Proof.
  apply spot_styles with (S := notes d0); [apply Hnotes | apply styles_each; intros p Hp; by apply styles_node|].
  apply triple_each. intros p Hp. eapply triple_conseq; [apply hideSlide_view | done|].
  intros ? s. apply view_ext. intros q Hq. unfold upd. case_decide; [subst | done]. by destruct (wf_apart _ wf p Hq).
Qed.

Lemma single_view_ready n :
  triple (some_spot n none_shown) (singleSlideView d0 bg) (fun _ => readyC n (itemsC n)).
Proof.
  intros s (l & V & Hs). revert s Hs. unfold singleSlideView.
  eapply triple_seq; [apply single_loop_spot|].
  eapply triple_seq; [by apply spot_all|]. eapply triple_seq; [by apply spot_to_end|].
  eapply triple_post; [apply notes_loop_spot|]. intros ? s. apply spot_ext. intros q Hq. by rewrite upto_all.
Qed.

Lemma resized_ready adj w h n l V :
  triple (spotC n (only d0 n) l V) (resized b d0 bg adj w h) (fun _ => spotC n (only d0 n) l V).
Proof.
  unfold resized. do 2 (apply triple_get_bind; intros ?; eapply triple_pre; [intros s [H _]; exact H|]).
  apply triple_when; [intros _ | done].
  apply triple_get_bind; intros i; eapply triple_pre; [intros s [H _]; exact H|].
  eapply triple_seq; [apply spot_calm; unfold set_sizeIndex; keeps|].
  eapply triple_seq; [apply spot_calm; unfold adjustObjectDimensions, set_objects; keeps|].
  eapply triple_seq; [apply spot_calm; unfold apply_size, set_fontSize; keeps|].
  eapply triple_seq; [apply spot_calm; unfold set_last_size; keeps|].
  eapply triple_seq; [|apply spot_calm; auto with keeps].
  intros s Hs. destruct (spot_hide d0 wf _ n l V s Hs) as ([] & s1 & E1 & H1).
  pose proof (sp_view _ _ _ _ _ _ _ Hs) as Hv. destruct (spot_current _ _ _ _ _ _ _ Hs) as [Hc _].
  destruct (root_slide d0 n (v_range _ _ _ _ _ Hv)) as [Hr _].
  destruct (spot_show d0 bg wf _ n l V _ Hr s1 H1) as ([] & s2 & E2 & H2). exists tt, s2. split; [|done].
  revert E1. unfold reflow, hide_current, this_slide, get, mbind, M_bind. rewrite Hc. by intros ->.
Qed.

(** What [startup] leaves: the slide of the address, all its items visible and the
    last of them the last one shown. *)
Lemma startup_ready h objs tb adj w hh :
  collected_deck d0 -> good_uri d0 by_id h ->
  exists m s, startup b d0 title lang by_id computed bg adj w hh (initial_show d0 title h objs tb) = (Some tt, s)
    /\ 0 <= m < nslides d0 /\ readyC m (itemsC m) s.
Proof.
  intros Hc Hg. pose proof (initial_view d0 title wf h objs tb Hc) as Hv.
  assert (triple (fun s => view d0 0 false none_shown s /\ page s = collected_page d0 /\ href (ad s) = h)
    (startup b d0 title lang by_id computed bg adj w hh)
    (fun _ s => exists m, 0 <= m < nslides d0 /\ readyC m (itemsC m) s)) as H.
  2: { destruct (H (initial_show d0 title h objs tb)) as ([] & s & E & m & Hs); [done|]. by exists m, s. }
  clear Hv. unfold startup.
  eapply triple_seq with (R := fun s => view d0 0 false none_shown s /\ page s = collected_page d0
    /\ href (ad s) = h /\ is_Some (eos (nv s))).
  { apply triple_modify. intros s (Hv & Hp & Hh). split_and!; [|done..|by eexists].
    eapply view_same; [exact Hv | by split_and!]. }
  eapply triple_seq with (R := fun s => view d0 0 false none_shown s /\ page s = collected_page d0
    /\ href (ad s) = h /\ is_Some (eos (nv s))).
  { apply triple_modify. intros s (Hv & Hp & Hh & [c Hc']). split_and!; [|done..|simpl; rewrite Hc'; by eexists].
    eapply view_same; [exact Hv | by split_and!]. }
  apply (triple_read _ _ h); [by intros s (_ & _ & ? & _)|].
  apply (with_number d0 by_id wf _ h); [done|]. intros d m -> Hm.
  eapply triple_seq with (R := fun s => view d0 m false none_shown s /\ page s = collected_page d0 /\ is_Some (eos (nv s))).
  { intros s (Hv & Hp & _ & He). destruct (set_slidenum_view d0 0 m false none_shown Hm s Hv) as ([] & s' & E & Hv').
    exists tt, s'. split; [done|]. injection E as <-. done. }
  eapply triple_seq with (R := some_spot m none_shown).
  { intros s (Hv & Hp & He). destruct (initOutliner_view d0 computed wf m false none_shown s Hv) as ([] & s' & E & Hv').
    exists tt, s'. split; [done|]. injection E as <-. exists (lastShown (nv s)), None. split; try done.
    cbn [page]. by rewrite Hp. }
  eapply triple_post with (Q' := fun _ => readyC m (itemsC m)); [|intros ? s Hs; by exists m].
  eapply triple_seq with (R := some_spot m none_shown).
  - apply triple_when; [intros _ | done]. intros s (l & V & Hs). revert s Hs.
    apply (triple_read _ _ (Some m)); [intros s Hs; apply (v_num _ _ _ _ _ (sp_view _ _ _ _ _ _ _ Hs))|].
    apply spot_slide. intros p Hp. eapply triple_seq; [apply spot_calm; unfold set_position; keeps|].
    eapply triple_seq with (R := some_spot m none_shown); [|apply some_spot_calm; auto with keeps].
    destruct (num_lt _ _).
    + eapply triple_seq; [by apply spot_all|]. eapply triple_seq; [by apply spot_to_end|].
      eapply triple_post; [apply spot_eos|]. intros ? s [Hs _]. eauto.
    + eapply triple_seq; [by apply spot_lastShown|]. eapply triple_seq; [by apply spot_all|].
      eapply triple_post; [apply (update_eos_sets d0 wf start_classes m none_shown 0); lia|]. intros ? s [Hs _]. eauto.
  - eapply triple_seq; [apply some_spot_calm; unfold set_toc; keeps|].
    eapply triple_seq; [apply some_spot_calm; auto with keeps|].
    eapply triple_seq; [apply single_view_ready|].
    eapply triple_seq; [apply spot_calm; auto with keeps|].
    eapply triple_seq; [apply resized_ready | apply spot_calm; auto with keeps].
Qed.

Abbreviation spot_place := (place itemsC).

End start.

Definition started : show := (start_talk (js "talk.html")).2.

(** A talk that starts on its first slide shows all incremental items of it at
    once: [startup] hides them, and [singleSlideView] makes them visible again;
    the end of slide mark still says that there is more to come. *)
Theorem start_reveals_all :
  items talk [0; 0; 0]%nat = [[0; 1; 0; 0; 0]; [1; 1; 0; 0; 0]]%nat
  /\ vis (page started) !! [0; 1; 0; 0; 0]%nat = Some true
  /\ vis (page started) !! [1; 1; 0; 0; 0]%nat = Some true
  /\ lastShown (nv started) = Some [1; 1; 0; 0; 0]%nat
  /\ eos (nv started) = Some (js "red").
Proof. vm_compute. repeat split. Qed.

(** ** Witnesses *)
Abbreviation talk_press := (press modern talk (js "Talk") (js "en") see_through block).
Abbreviation talk_keys := (press_all modern talk (js "Talk") (js "en") see_through block).
Abbreviation C0 := (Slides.cls talk).
Abbreviation talk_spot := (at_spot talk C0).

Lemma started_view : view talk 0 false (only talk 0) started.
Proof.
  destruct (startup_right modern talk (js "Talk") (js "en") no_id block see_through talk_wf (js "talk.html") [] true
    (Some 1) 1024 768 talk_collected) as (s & E & n & va & Hr); [intros s; vm_compute; discriminate|].
  assert (started = s) as -> by (unfold started, start_talk; by rewrite E).
  assert (va = false) as ->.
  { destruct Hr as (D & Hv & _). rewrite <- (v_all _ _ _ _ _ Hv).
    transitivity (viewAll (nv started)); [unfold started, start_talk; by rewrite E | vm_compute; reflexivity]. }
  apply right_single in Hr. assert (n = 0) as ->; [|exact Hr].
  assert (Some n = Some 0) as H; [|congruence]. rewrite <- (v_num _ _ _ _ _ Hr).
  transitivity (slidenum (nv started)); [unfold started, start_talk; by rewrite E | vm_compute; reflexivity].
Qed.

(** The talk after the keys End and Home. *)
Definition at_end : show := default started (talk_press Last started).
Definition at_home : show := default started (talk_press First at_end).

Lemma at_end_spot : talk_spot (1, 0%nat) at_end.
Proof.
  destruct (end_key modern talk (js "Talk") (js "en") see_through talk_wf C0 block 0 started started_view)
    as (s & E & H); [vm_compute; reflexivity | vm_compute; by eexists|].
  unfold at_end. rewrite E. exact H.
Qed.

Lemma at_home_spot : talk_spot (0, 0%nat) at_home.
Proof.
  destruct (press_step modern talk (js "Talk") (js "en") see_through talk_wf C0 block (1, 0%nat) First (0, 0%nat)
    at_end at_end_spot eq_refl) as (s & E & H).
  unfold at_home. rewrite E. exact H.
Qed.

#[local] Opaque started at_end at_home.

Lemma navigation_refines_witness :
  exists s, talk_keys [Next; Next; Next; Prev; Prev] at_home = Some s /\ talk_spot (0, 1%nat) s.
Proof.
  exact (navigation_refines modern talk (js "Talk") (js "en") see_through talk_wf C0 block (0, 0%nat)
    [Next; Next; Next; Prev; Prev] (0, 1%nat) at_home at_home_spot eq_refl).
Defined.


Lemma left_undoes_space_witness : exists s, talk_keys [Next; Prev] at_home = Some s /\ talk_spot (0, 0%nat) s.
Proof.
  destruct (left_undoes_space modern talk (js "Talk") (js "en") see_through talk_wf C0 block (0, 0%nat) at_home
    at_home_spot) as [H _].
  apply H. by vm_compute.
Defined.

Lemma setLocation_settles_witness :
  exists s', setLocation modern talk (js "Talk") (js "en") at_home = (Some tt, s')
    /\ checkLocation talk (js "Talk") (js "en") see_through s' = (Some tt, s').
Proof.
  destruct (setLocation_settles modern talk (js "Talk") (js "en") see_through no_id 0 at_home) as (s' & H1 & H2 & _).
  - vm_compute. reflexivity.
  - vm_compute. split; [discriminate | reflexivity].
  - reflexivity.
  - exists s'. split; [exact H1 | exact H2].
Defined.

Lemma back_button_witness :
  exists s', checkLocation talk (js "Talk") (js "en") see_through (at_href (js "talk.html#(2)") at_home) = (Some tt, s')
    /\ talk_spot (1, 0%nat) s'.
Proof.
  pose proof (back_button talk (js "Talk") (js "en") see_through talk_wf C0 1 0 0 (at_href (js "talk.html#(2)") at_home)) as H.
  destruct H as (s' & E & Hs).
  - apply at_spot_href, at_home_spot.
  - by vm_compute.
  - reflexivity.
  - exists s'. split; [exact E | exact Hs].
Defined.

Lemma missing_slide_throws_witness :
  exists s', checkLocation talk (js "Talk") (js "en") see_through (at_href (js "talk.html#(7)") at_home) = (None, s')
    /\ slidenum (nv s') = Some 6.
Proof.
  destruct (missing_slide_throws talk (js "Talk") (js "en") see_through 6 0 (at_href (js "talk.html#(7)") at_home))
    as (s' & H1 & H2 & _).
  - apply view_href, (sp_view _ _ _ _ _ _ _ (proj1 at_home_spot)).
  - vm_compute. discriminate.
  - reflexivity.
  - exists s'. split; [exact H1 | exact H2].
Defined.
End Address.
