(* ===== verification/ProtoText.v ===== *)
(** * The string methods of Prototype

    The pages of the Rails applications load Prototype, which extends the
    built-in strings.  The global search and replace [gsub] takes a pattern and a
    function of the match; a pattern is here the function that the regular
    expression engine computes, from a text to its leftmost match. *)
From S2P Require Import Prelude JsString Json.

Module Text.

(** ** Regular expressions of the language *)

(** What [str.match(re)] returns: [m.index], [m.input], [m[0]] and the groups
    [m[1]]... *)
Record rmatch := Match {
  m_index : Z; m_input : jstring; m_text : jstring; m_groups : list (option jstring) }.
Definition regex := jstring -> option rmatch.

(** What a pattern matches at the front of a text, with its groups. *)
Definition matcher := jstring -> option (jstring * list (option jstring)).

Fixpoint leftmost_from (at_ : matcher) (input : jstring) (k : Z) (s : jstring) : option rmatch :=
  match at_ s with
  | Some (t, g) => Some (Match k input t g)
  | None => match s with [] => None | _ :: s' => leftmost_from at_ input (k + 1) s' end
  end.
Definition leftmost (at_ : matcher) : regex := fun s => leftmost_from at_ s 0 s.

(** [[...]] and a literal text. *)
Definition class (p : Z -> bool) : matcher := fun s =>
  match s with c :: _ => if p c then Some ([c], []) else None | [] => None end.
Definition literal (w : jstring) : matcher := fun s => if prefixb w s then Some (w, []) else None.

(** [s.replace(re, f)] with the flag [g], for a pattern that looks neither at the
    text before the match nor at the ends of the text, and whose matches are not
    empty: [skip] characters of the last match are still to be dropped. *)
Fixpoint replace_g (at_ : matcher) (f : jstring -> list (option jstring) -> jstring)
    (skip : nat) (s : jstring) : jstring :=
  match s with
  | [] => []
  | c :: s' =>
      match skip with
      | S k => replace_g at_ f k s'
      | O =>
          match at_ s with
          | Some (t, g) => f t g ++ replace_g at_ f (length t - 1) s'
          | None => c :: replace_g at_ f 0 s'
          end
      end
  end.
Definition replace_all (at_ : matcher) (r : jstring) (s : jstring) : jstring :=
  replace_g at_ (fun _ _ => r) 0 s.

(** The longest prefix of characters in a class, and the rest. *)
Fixpoint span (p : Z -> bool) (s : jstring) : jstring * jstring :=
  match s with
  | c :: s' => if p c then let '(a, r) := span p s' in (c :: a, r) else ([], s)
  | [] => ([], [])
  end.

(** ** Outcomes

    A call returns, throws, or (a loop that has not ended within its fuel)
    does not return. *)
Inductive outcome (A : Type) := Returns (a : A) | Throws | Diverges.
Arguments Returns {A} _.
Arguments Throws {A}.
Arguments Diverges {A}.

#[global] Instance outcome_ret : MRet outcome := fun A a => Returns a.
#[global] Instance outcome_bind : MBind outcome := fun A B f m =>
  match m with Returns a => f a | Throws => Throws | Diverges => Diverges end.

(** The calls for the elements of a list, in order. *)
Section mapM.
Context {A B : Type} (f : A -> outcome B).
Fixpoint mapM_out (l : list A) : outcome (list B) :=
  match l with
  | [] => mret []
  | x :: l => y ← f x; ys ← mapM_out l; mret (y :: ys)
  end.

Lemma mapM_out_all (P : B -> Prop) l :
  Forall (fun x => exists y, f x = Returns y /\ P y) l ->
  exists ys, mapM_out l = Returns ys /\ Forall P ys.
Proof.
  induction 1 as [|x l (y & Hy & HP) _ (ys & Hys & HF)]; [by exists []|].
  exists (y :: ys). split; [|by constructor]. cbn. by rewrite Hy, Hys.
Qed.
End mapM.

(** ** Values in texts *)

(** [String(value)]: a function is its source text. *)
Fixpoint to_string (v : Json.jval) : jstring :=
  match v with
  | Json.VUndef => js "undefined"
  | Json.VFun source => source
  | Json.VBool b => if b then js "true" else js "false"
  | Json.VNull => js "null"
  | Json.VArr l =>
      join [c_comma]
        (map (fun x => match x with Json.VUndef | Json.VNull => [] | _ => to_string x end) l)
  | Json.VObj _ => js "[object Object]"
  | Json.VStr s => s
  | Json.VNum z => num_str z
  end.

Definition nullish (v : Json.jval) : bool :=
  match v with Json.VUndef | Json.VNull => true | _ => false end.

(** src/piql/scadr/src/main/rails/public/javascripts/prototype.js:329-331
    [String.interpret(value)] *)
Definition interpret (value : Json.jval) : jstring := if nullish value then [] else to_string value.

(** ** Global substitution *)
Section gsub.
Context {St : Type}.
Variables (pattern : regex) (replacement : rmatch -> St -> outcome (Json.jval * St)).

(** src/piql/scadr/src/main/rails/public/javascripts/prototype.js:343-357
    [gsub(pattern, replacement)]: the loop; the replacement is a closure with
    variables of its own. *)
Fixpoint gsub_loop (fuel : nat) (result source : jstring) (st : St) : outcome (jstring * St) :=
  match fuel with
  | O => Diverges
  | S fuel =>
      if 0 <? zlen source then
        match pattern source with
        | Some m =>
            let result := result ++ slice 0 (m_index m) source in
            r ← replacement m st;
            let result := result ++ interpret r.1 in
            gsub_loop fuel result (slice_from (m_index m + zlen (m_text m)) source) r.2
        | None => gsub_loop fuel (result ++ source) [] st
        end
      else Returns (result, st)
  end.
End gsub.

(** Every turn but the last two takes a character. *)
Definition enough (s : jstring) : nat := S (S (length s)).

(** src/piql/scadr/src/main/rails/public/javascripts/prototype.js:343-357
    [gsub(pattern, replacement)] with a replacement that keeps no state. *)
Definition gsub (pattern : regex) (replacement : rmatch -> outcome Json.jval) (this : jstring)
  : outcome jstring :=
  r ← gsub_loop pattern (fun m st => v ← replacement m; mret (v, st)) (enough this) [] this tt;
  mret r.1.

(** src/piql/scadr/src/main/rails/public/javascripts/prototype.js:359-367
    [sub(pattern, replacement, count)] *)
Definition sub (pattern : regex) (replacement : rmatch -> outcome Json.jval) (count : option Z)
    (this : jstring) : outcome jstring :=
  let count := default 1 count in
  r ← gsub_loop pattern
    (fun m count =>
       let count := count - 1 in
       if count <? 0 then mret (Json.VStr (m_text m), count)
       else v ← replacement m; mret (v, count))
    (enough this) [] this count;
  mret r.1.

(** src/piql/scadr/src/main/rails/public/javascripts/prototype.js:369-372
    [scan(pattern, iterator)]: the iterator is called with every match; here the
    calls are listed. *)
Definition scan (pattern : regex) (this : jstring) : outcome (jstring * list rmatch) :=
  r ← gsub_loop pattern (fun m calls => mret (Json.VUndef, calls ++ [m])) (enough this) [] this [];
  mret (this, r.2).

(** ** Templates *)

(** [#{...}]: the expression up to the first closing brace on the line. *)
Definition tmpl_body : matcher := fun s =>
  match s with
  | c :: d :: r =>
      if (c =? c_hash) && (d =? c_lbrace) then
        let '(e, r) := span (fun x => negb ((x =? c_rbrace) || is_lineterm x)) r in
        match r with
        | x :: _ => if x =? c_rbrace then Some (c :: d :: e ++ [x], [Some e]) else None
        | [] => None
        end
      else None
  | _ => None
  end.

(** A character in front of it; [.] and the two alternatives after it match all
    but two line separators. *)
Definition tmpl_at : matcher := fun s =>
  match s with
  | c :: r =>
      if (c =? 8232) || (c =? 8233) then None
      else match tmpl_body r with
           | Some (t, g) => Some (c :: t, Some [c] :: Some t :: g)
           | None => None
           end
  | [] => None
  end.

(** src/piql/scadr/src/main/rails/public/javascripts/prototype.js:593-593
    [Template.Pattern]: at the front of the text nothing need precede. *)
Definition Pattern : regex := fun s =>
  match tmpl_body s with
  | Some (t, g) => Some (Match 0 s t (Some [] :: Some t :: g))
  | None => leftmost tmpl_at s
  end.

(** The end of one step of a path: the end of the text, a dot or a bracket. *)
Definition path_end (s : jstring) : option jstring :=
  match s with
  | [] => Some []
  | c :: _ => if (c =? 46) || (c =? c_lbrack) then Some [c] else None
  end.

(** The text in brackets: the shortest that is closed by a bracket with no
    backslash before it, where the step ends. *)
Fixpoint bracketed (acc s : jstring) : option (jstring * jstring) :=
  match s with
  | [] => None
  | c :: r =>
      let closes :=
        (c =? c_rbrack) && match last acc with Some x => negb (x =? c_bslash) | None => false end in
      match (if closes then path_end r else None) with
      | Some g => Some (acc, g)
      | None =>
          match last acc with
          | Some x => if is_lineterm x then None else bracketed (acc ++ [c]) r
          | None => bracketed (acc ++ [c]) r
          end
      end
  end.

(** src/piql/scadr/src/main/rails/public/javascripts/prototype.js:576-576
    [pattern]: the path expression, its three groups. *)
Definition path_step (expr : jstring) : option (jstring * jstring * jstring) :=
  match span (fun c => negb ((c =? 46) || (c =? c_lbrack))) expr with
  | ([], _) =>
      match expr with
      | c :: r =>
          if c =? c_lbrack then
            match bracketed [] r with
            | Some (e, g) => Some (c :: e ++ [c_rbrack], e, g)
            | None =>
                match r with
                | d :: r =>
                    if d =? c_rbrack then (fun g => ([c; d], [], g)) <$> path_end r else None
                | [] => None
                end
            end
          else None
      | [] => None
      end
  | (a, r) => (fun g => (a, [], g)) <$> path_end r
  end.

Section Template.
(** What an object answers for a property that is not its own: the methods of
    the built-in prototypes and those that scripts add to them. *)
Variable inherited : Json.jval -> jstring -> Json.jval.

Fixpoint assoc (k : jstring) (l : list (jstring * Json.jval)) : option Json.jval :=
  match l with
  | [] => None
  | (k', v) :: l => if bool_decide (k = k') then Some v else assoc k l
  end.

(** The index that a property name denotes. *)
Definition array_index (k : jstring) (len : Z) : option Z :=
  List.find (fun i => bool_decide (num_str i = k)) (seqZ 0 len).

(** [ctx[comp]] *)
Definition get_prop (v : Json.jval) (k : jstring) : Json.jval :=
  let own :=
    match v with
    | Json.VObj l => assoc k l
    | Json.VArr l =>
        match array_index k (zlen l) with
        | Some i => znth l i
        | None => if bool_decide (k = js "length") then Some (Json.VNum (zlen l)) else None
        end
    | Json.VStr s =>
        match array_index k (zlen s) with
        | Some i => Some (Json.VStr (charAt i s))
        | None => if bool_decide (k = js "length") then Some (Json.VNum (zlen s)) else None
        end
    | _ => None
    end in
  default (inherited v k) own.

(** src/piql/scadr/src/main/rails/public/javascripts/prototype.js:578-585
    [evaluate(object)]: the path [expr] from [ctx], one component a turn. *)
Fixpoint walk (fuel : nat) (ctx : Json.jval) (expr : jstring) : outcome Json.jval :=
  match fuel with
  | O => Diverges
  | S fuel =>
      match path_step expr with
      | None => mret ctx
      | Some (g1, g2, g3) =>
          comp ← (if prefixb [c_lbrack] g1
                  then gsub (leftmost (literal [c_bslash; c_rbrack]))
                         (fun _ => mret (Json.VStr [c_rbrack])) g2
                  else mret g1);
          let ctx := get_prop ctx comp in
          if nullish ctx || bool_decide (g3 = []) then mret ctx
          else walk fuel ctx
                 (substring_from (if bool_decide (g3 = [c_lbrack]) then zlen g1 else zlen g1 + 1) expr)
      end
  end.

Definition group (i : nat) (m : rmatch) : option jstring := mjoin (m_groups m !! i).

(** src/piql/scadr/src/main/rails/public/javascripts/prototype.js:570-588
    [evaluate(object)]: the replacement of one match of the pattern. *)
Definition tmpl_replacement (object : Json.jval) (m : rmatch) : outcome Json.jval :=
  if nullish object then mret (Json.VStr []) else
  let before := default [] (group 0 m) in
  if bool_decide (before = [c_bslash]) then
    mret (match group 1 m with Some t => Json.VStr t | None => Json.VUndef end)
  else
    let expr := default (js "undefined") (group 2 m) in
    match path_step expr with
    | None => mret (Json.VStr before)
    | Some _ =>
        ctx ← walk (S (length expr)) object expr;
        mret (Json.VStr (before ++ interpret ctx))
    end.

(** src/piql/scadr/src/main/rails/public/javascripts/prototype.js:566-591
    [evaluate(object)]: the first test reads a property of [object].  An object
    with a method [toTemplateReplacements] (a hash) is given by its contents. *)
Definition evaluate (pattern : regex) (template : jstring) (object : Json.jval) : outcome jstring :=
  if nullish object then Throws
  else gsub pattern (tmpl_replacement object) template.

(** The array of a match, for a template. *)
Definition match_object (m : rmatch) : Json.jval :=
  let elems := Json.VStr (m_text m)
    :: map (fun g => match g with Some t => Json.VStr t | None => Json.VUndef end) (m_groups m) in
  Json.VObj (imap (fun i v => (num_str (Z.of_nat i), v)) elems
    ++ [(js "length", Json.VNum (zlen elems)); (js "index", Json.VNum (m_index m));
        (js "input", Json.VStr (m_input m))]).

(** src/piql/scadr/src/main/rails/public/javascripts/prototype.js:545-549
    [prepareReplacement(replacement)] for a text. *)
Definition prepareReplacement (replacement : jstring) (m : rmatch) : outcome Json.jval :=
  s ← evaluate Pattern replacement (match_object m); mret (Json.VStr s).

(** src/piql/scadr/src/main/rails/public/javascripts/prototype.js:531-533
    [interpolate(object, pattern)] *)
Definition interpolate (this : jstring) (object : Json.jval) (pattern : option regex) : outcome jstring :=
  evaluate (default Pattern pattern) this object.

(** ** Names *)

(** One or more capitals, then a capital and a small letter: the longest run that
    ends so. *)
Definition acronym_at : matcher := fun s =>
  let '(caps, r) := span is_upper s in
  match rev caps, r with
  | u :: _ :: _, l :: _ =>
      if is_lower l then
        let front := removelast caps in Some (front ++ [u; l], [Some front; Some [u; l]])
      else None
  | _, _ => None
  end.

(** A small letter or digit, then a capital. *)
Definition hump_at : matcher := fun s =>
  match s with
  | a :: b :: _ =>
      if (is_lower a || is_digit a) && is_upper b then Some ([a; b], [Some [a]; Some [b]]) else None
  | _ => None
  end.

(** src/piql/scadr/src/main/rails/public/javascripts/prototype.js:470-472
    [underscore()] *)
Definition underscore (this : jstring) : outcome jstring :=
  s ← gsub (leftmost (literal (js "::"))) (prepareReplacement (js "/")) this;
  s ← gsub (leftmost acronym_at) (prepareReplacement (js "#{1}_#{2}")) s;
  s ← gsub (leftmost hump_at) (prepareReplacement (js "#{1}_#{2}")) s;
  s ← gsub (leftmost (literal (js "-"))) (prepareReplacement (js "_")) s;
  mret (toLowerCase s).

(** src/piql/scadr/src/main/rails/public/javascripts/prototype.js:474-476
    [dasherize()] *)
Definition dasherize (this : jstring) : outcome jstring :=
  gsub (leftmost (literal (js "_"))) (prepareReplacement (js "-")) this.
End Template.

(** src/piql/scadr/src/main/rails/public/javascripts/prototype.js:452-464
    [camelize()] *)
Definition camelize (this : jstring) : jstring :=
  let parts := split_char c_dash this in
  match parts with
  | [] => []
  | [p] => p
  | p :: ps =>
      let up (w : jstring) := toUpperCase (charAt 0 w) ++ substring_from 1 w in
      let camelized := if bool_decide (charAt 0 this = [c_dash]) then up p else p in
      fold_left (fun camelized w => camelized ++ up w) ps camelized
  end.

(** src/piql/scadr/src/main/rails/public/javascripts/prototype.js:466-468
    [capitalize()] *)
Definition capitalize (this : jstring) : jstring :=
  toUpperCase (charAt 0 this) ++ toLowerCase (substring_from 1 this).

(** ** Substitution: termination and reference definition *)

(** A match lies in the text, and takes at least one character with what is
    skipped before it. *)
Definition match_in (s : jstring) (m : rmatch) (a b : jstring) : Prop :=
  s = a ++ m_text m ++ b /\ zlen a = m_index m.
Definition advancing (p : regex) : Prop :=
  forall s m, s <> [] -> p s = Some m -> exists a b, match_in s m a b /\ a ++ m_text m <> [].

Section gsub_facts.
Context {St : Type}.
Variables (pattern : regex) (replacement : rmatch -> St -> outcome (Json.jval * St)).

Lemma gsub_step fuel result s m a b st :
  s <> [] -> pattern s = Some m -> match_in s m a b ->
  gsub_loop pattern replacement (S fuel) result s st
  = r ← replacement m st;
    gsub_loop pattern replacement fuel (result ++ a ++ interpret r.1) b r.2.
Proof.
  intros Hs Hp [E Ha]. cbn [gsub_loop].
  rewrite (proj2 (Z.ltb_lt 0 (zlen s))) by (destruct s; [done | jslia]).
  rewrite Hp. rewrite <- Ha, E. rewrite slice_0_id by jslia. rewrite ztake_app_len.
  rewrite slice_from_id by jslia. rewrite app_assoc, <- zlen_app, zdrop_app_len.
  destruct (replacement m st) as [r| |]; cbn; by rewrite <- ?app_assoc.
Qed.

Lemma gsub_nil fuel result st :
  gsub_loop pattern replacement (S fuel) result [] st = Returns (result, st).
Proof. done. Qed.

Lemma gsub_rest fuel result s st :
  s <> [] -> pattern s = None ->
  gsub_loop pattern replacement (S (S fuel)) result s st = Returns (result ++ s, st).
Proof.
  intros Hs Hp. cbn [gsub_loop].
  rewrite (proj2 (Z.ltb_lt 0 (zlen s))) by (destruct s; [done | jslia]). by rewrite Hp.
Qed.

Hypothesis total : forall m st, exists r, replacement m st = Returns r.

Lemma gsub_loop_returns fuel result s st :
  advancing pattern -> (length s + 1 < fuel)%nat ->
  exists r, gsub_loop pattern replacement fuel result s st = Returns r.
Proof.
  intros Hadv. revert result s st. induction fuel as [|fuel IH]; intros result s st Hf; [lia|].
  destruct s as [|c s]; [by eexists|].
  destruct (pattern (c :: s)) as [m|] eqn:E.
  - destruct (Hadv (c :: s) m ltac:(done) E) as (a & b & Hm & Hne).
    rewrite (gsub_step _ _ (c :: s) _ _ _ _ ltac:(done) E Hm).
    destruct (total m st) as [r ->]. apply IH. destruct Hm as [Hs _].
    apply (f_equal length) in Hs. rewrite !length_app in Hs.
    assert (0 < length (a ++ m_text m))%nat by (destruct (a ++ m_text m); simpl; [done | lia]).
    rewrite length_app in *. lia.
  - destruct fuel as [|fuel]; [simpl in Hf; lia|]. by rewrite gsub_rest; eauto.
Qed.

(** A pattern that matches the empty text at the front is tried again on the
    same text. *)
Lemma gsub_loop_hangs fuel result s st m :
  s <> [] -> pattern s = Some m -> m_index m = 0 -> m_text m = [] ->
  gsub_loop pattern replacement fuel result s st = Diverges.
Proof.
  intros Hs Hp H0 Ht. revert result st. induction fuel as [|fuel IH]; intros result st; [done|].
  rewrite (gsub_step _ _ s m [] s) by (done || by (unfold match_in; rewrite Ht, H0)).
  destruct (total m st) as [r ->]. apply IH.
Qed.
End gsub_facts.

(** What a match at the front must be for [replace_g]. *)
Definition solid (at_ : matcher) : Prop :=
  forall s t g, at_ s = Some (t, g) -> t <> [] /\ exists b, s = t ++ b.

Lemma class_solid p : solid (class p).
Proof.
  intros [|c s] t g; [done|]. cbn. case_match; [|done]. intros [= <- <-]. split; [done|]. by exists s.
Qed.

Lemma literal_solid w : w <> [] -> solid (literal w).
Proof.
  intros Hw s t g. unfold literal. case_match eqn:E; [|done]. intros [= <- <-].
  split; [done|]. by apply prefixb_true.
Qed.

Lemma leftmost_from_in at_ input k s m :
  leftmost_from at_ input k s = Some m ->
  exists a b, s = a ++ b /\ zlen a = m_index m - k /\ at_ b = Some (m_text m, m_groups m).
Proof.
  revert k. induction s as [|c s IH]; intros k; cbn [leftmost_from];
    destruct (at_ _) as [[t g]|] eqn:E; intros H; simplify_eq/=.
  - exists [], []. split_and!; [done | by rewrite zlen_nil; lia | done].
  - exists [], (c :: s). split_and!; [done | by rewrite zlen_nil; lia | done].
  - destruct (IH _ H) as (a & b & -> & Ha & Hb). exists (c :: a), b.
    split_and!; [done | jslia | done].
Qed.

Lemma leftmost_advancing at_ : solid at_ -> advancing (leftmost at_).
Proof.
  intros Hat s m _ H. destruct (leftmost_from_in _ _ _ _ _ H) as (a & b & -> & Ha & Hb).
  destruct (Hat _ _ _ Hb) as (Hne & b' & ->). exists a, b'.
  split; [split; [done | lia]|]. by intros [_ ?]%app_nil.
Qed.

Section reference.
Variables (at_ : matcher) (f : jstring -> list (option jstring) -> jstring).

Lemma replace_g_skip s n : replace_g at_ f n s = replace_g at_ f 0 (drop n s).
Proof. revert n. induction s as [|c s IH]; intros [|n]; [done..|]. apply IH. Qed.

Lemma replace_g_match t g b :
  t <> [] -> at_ (t ++ b) = Some (t, g) ->
  replace_g at_ f 0 (t ++ b) = f t g ++ replace_g at_ f 0 b.
Proof.
  destruct t as [|c t]; [done|]. intros _ E. cbn [app replace_g] in *. rewrite E. f_equal.
  cbn [length]. rewrite replace_g_skip. f_equal. rewrite Nat.sub_succ, Nat.sub_0_r.
  apply drop_app_length.
Qed.

Lemma replace_g_leftmost input k s m :
  solid at_ -> leftmost_from at_ input k s = Some m ->
  exists a b, s = a ++ m_text m ++ b /\ zlen a = m_index m - k
    /\ at_ (m_text m ++ b) = Some (m_text m, m_groups m)
    /\ replace_g at_ f 0 s = a ++ f (m_text m) (m_groups m) ++ replace_g at_ f 0 b.
Proof.
  intros Hat. revert k. induction s as [|c s IH]; intros k; cbn [leftmost_from];
    destruct (at_ _) as [[t g]|] eqn:E; intros H; simplify_eq/=.
  - destruct (Hat _ _ _ E) as (Hne & b & Hb). by destruct t.
  - destruct (Hat _ _ _ E) as (Hne & b & Hb). exists [], b.
    split_and!; [done | by rewrite zlen_nil; lia | by rewrite <- Hb |].
    change (match at_ (c :: s) with Some (t0, g0) => f t0 g0 ++ replace_g at_ f (length t0 - 1) s
      | None => c :: replace_g at_ f 0 s end) with (replace_g at_ f 0 (c :: s)).
    rewrite Hb in E |- *. by apply replace_g_match.
  - destruct (IH _ H) as (a & b & Hs & Ha & Hm & Hr). exists (c :: a), b.
    split_and!; [by rewrite Hs | jslia | done | by rewrite E, Hr].
Qed.

Lemma replace_g_none input k s : leftmost_from at_ input k s = None -> replace_g at_ f 0 s = s.
Proof.
  revert k. induction s as [|c s IH]; intros k; [done|]. cbn [leftmost_from replace_g].
  destruct (at_ (c :: s)) as [[t g]|]; [done|]. intros H. f_equal. by eapply IH.
Qed.
End reference.

(** A replacement without state that looks only at the text and the groups of
    the matches of a pattern. *)
Definition computes (at_ : matcher) (replacement : rmatch -> outcome Json.jval)
    (f : jstring -> list (option jstring) -> jstring) : Prop :=
  forall s m, at_ s = Some (m_text m, m_groups m) ->
    exists v, replacement m = Returns v /\ interpret v = f (m_text m) (m_groups m).

Lemma gsub_replace_g at_ replacement f s :
  solid at_ -> computes at_ replacement f ->
  gsub (leftmost at_) replacement s = Returns (replace_g at_ f 0 s).
Proof.
  intros Hat Hf. unfold gsub.
  cut (forall fuel result s, (length s + 1 < fuel)%nat ->
    gsub_loop (leftmost at_) (fun m st => v ← replacement m; mret (v, st)) fuel result s tt
    = Returns (result ++ replace_g at_ f 0 s, tt)).
  { intros H. rewrite H by (unfold enough; lia). done. }
  induction fuel as [|fuel IH]; intros result u Hu; [lia|].
  destruct u as [|c u]; [cbn; by rewrite app_nil_r|].
  destruct (leftmost at_ (c :: u)) as [m|] eqn:E.
  - destruct (replace_g_leftmost at_ f _ _ _ _ Hat E) as (a & b & Hs & Ha & Hm & Hr).
    rewrite (gsub_step _ _ _ _ _ m a b) by (done || (split; [done | lia])).
    destruct (Hf _ m Hm) as (v & -> & Hv). cbn [mbind outcome_bind mret outcome_ret fst snd].
    rewrite IH, Hr, Hv; [by rewrite <- !app_assoc|].
    destruct (Hat _ _ _ Hm) as [Hne _]. apply (f_equal length) in Hs. rewrite !length_app in Hs.
    destruct (m_text m); [done | simpl in *; lia].
  - destruct fuel as [|fuel]; [simpl in Hu; lia|]. rewrite gsub_rest by done.
    by rewrite (replace_g_none _ _ _ _ _ E).
Qed.

Lemma replace_g_never at_ f s :
  (forall a b, s = a ++ b -> b <> [] -> at_ b = None) -> replace_g at_ f 0 s = s.
Proof.
  induction s as [|c s IH]; intros H; [done|]. cbn [replace_g].
  rewrite (H [] (c :: s)) by done. f_equal. apply IH. intros a b -> Hb. by apply (H (c :: a)).
Qed.

Lemma replace_g_class p f s :
  replace_g (class p) f 0 s = List.flat_map (fun c => if p c then f [c] [] else [c]) s.
Proof.
  induction s as [|c s IH]; [done|]. cbn [replace_g class List.flat_map].
  destruct (p c); cbn [length]; [|by rewrite IH]. cbn [Nat.sub]. by rewrite IH.
Qed.

Lemma replace_g_char c f s :
  replace_g (literal [c]) f 0 s = List.flat_map (fun x => if x =? c then f [c] [] else [x]) s.
Proof.
  induction s as [|x s IH]; [done|]. cbn [replace_g List.flat_map].
  assert (literal [c] (x :: s) = if x =? c then Some ([c], []) else None) as ->.
  { unfold literal. cbn [prefixb]. by rewrite andb_true_r, (Z.eqb_sym c x). }
  destruct (x =? c); cbn [length Nat.sub]; by rewrite IH.
Qed.

(** ** What templates compute *)
Section template_facts.
Variable inherited : Json.jval -> jstring -> Json.jval.
Abbreviation evaluate := (evaluate inherited).

Lemma tmpl_body_hash s : c_hash ∉ s -> tmpl_body s = None.
Proof.
  destruct s as [|c [|d r]]; [done..|]. intros [H _]%not_elem_of_cons. cbn.
  by rewrite (proj2 (Z.eqb_neq c c_hash)) by done.
Qed.

Lemma tmpl_at_hash s : c_hash ∉ s -> tmpl_at s = None.
Proof.
  destruct s as [|c r]; [done|]. intros [_ H]%not_elem_of_cons. unfold tmpl_at.
  rewrite tmpl_body_hash by done. by case_match.
Qed.

Lemma leftmost_never at_ s :
  (forall a b, s = a ++ b -> at_ b = None) -> leftmost at_ s = None.
Proof.
  unfold leftmost. generalize s at 2 as input. generalize 0 as k. 
  induction s as [|c s IH]; intros k input H; cbn [leftmost_from]; rewrite (H [] _) by done; [done|].
  apply IH. intros a b ->. by apply (H (c :: a)).
Qed.

Lemma Pattern_hash s : c_hash ∉ s -> Pattern s = None.
Proof.
  intros H. unfold Pattern. rewrite tmpl_body_hash by done. apply leftmost_never.
  intros a b ->. apply tmpl_at_hash. set_solver.
Qed.

(** A text without the mark of an expression is its own evaluation. *)
Lemma evaluate_plain s object :
  c_hash ∉ s -> nullish object = false -> evaluate Pattern s object = Returns s.
Proof.
  intros H Ho. unfold Text.evaluate, gsub. rewrite Ho.
  destruct s as [|c s]; [done|]. unfold enough. rewrite gsub_rest by (done || by apply Pattern_hash). done.
Qed.

Lemma prepare_plain s m : c_hash ∉ s -> prepareReplacement inherited s m = Returns (Json.VStr s).
Proof. intros H. unfold prepareReplacement. by rewrite evaluate_plain. Qed.

(** The replacement of the two patterns of [underscore]. *)
Lemma prepare_split m a b :
  m_groups m = [Some a; Some b] ->
  prepareReplacement inherited (js "#{1}_#{2}") m = Returns (Json.VStr (a ++ c_under :: b)).
Proof.
  destruct m as [k i t g]. cbn [m_groups]. intros ->.
  transitivity (Returns (Json.VStr ((a ++ []) ++ [c_under] ++ b))).
  - by vm_compute.
  - by rewrite app_nil_r.
Qed.
End template_facts.

(** A template: texts, each followed by an expression, which a backslash may
    protect, and a last text. *)
Record piece := Piece { p_text : jstring; p_escaped : bool; p_name : jstring }.
Definition mark (n : jstring) : jstring := c_hash :: c_lbrace :: n ++ [c_rbrace].
Definition source (p : piece) : jstring :=
  p_text p ++ (if p_escaped p then [c_bslash] else []) ++ mark (p_name p).

Definition plain_char (c : Z) : bool :=
  negb ((c =? c_hash) || (c =? c_bslash) || (c =? 8232) || (c =? 8233)).
Definition name_char (c : Z) : bool :=
  negb ((c =? 46) || (c =? c_lbrack) || (c =? c_rbrace) || is_lineterm c).
Definition good_piece (p : piece) : bool :=
  forallb plain_char (p_text p) && forallb name_char (p_name p)
  && negb (bool_decide (p_name p = [])).

(** The value of a piece. *)
Definition shown (inherited : Json.jval -> jstring -> Json.jval) (object : Json.jval) (p : piece)
  : jstring :=
  p_text p ++ if p_escaped p then mark (p_name p)
              else interpret (get_prop inherited object (p_name p)).

Lemma span_stop p a c r : forallb p a = true -> p c = false -> span p (a ++ c :: r) = (a, c :: r).
Proof.
  intros Ha Hc. induction a as [|x a IH]; cbn [app span]; [by rewrite Hc|].
  cbn [forallb] in Ha. apply andb_true_iff in Ha as [-> Ha]. by rewrite IH.
Qed.
Lemma span_all p a : forallb p a = true -> span p a = (a, []).
Proof.
  intros Ha. induction a as [|x a IH]; cbn [span]; [done|].
  cbn [forallb] in Ha. apply andb_true_iff in Ha as [-> Ha]. by rewrite IH.
Qed.

Lemma tmpl_body_mark n r :
  forallb name_char n = true -> tmpl_body (mark n ++ r) = Some (mark n, [Some n]).
Proof.
  intros Hn. unfold mark. cbn [app tmpl_body]. rewrite !Z.eqb_refl. cbn [andb].
  rewrite <- app_assoc. cbn [app]. rewrite span_stop; [by rewrite Z.eqb_refl| |done].
  rewrite forallb_forall in *. intros x Hx. specialize (Hn x Hx). unfold name_char in Hn.
  destruct (x =? c_rbrace); [by rewrite !orb_true_r in Hn|]. cbn [orb].
  destruct (is_lineterm x); [by rewrite !orb_true_r in Hn | done].
Qed.

Lemma leftmost_at at_ a m r :
  (forall a1 a2, a = a1 ++ a2 -> a2 <> [] -> at_ (a2 ++ r) = None) ->
  at_ r = Some m ->
  leftmost at_ (a ++ r) = Some (Match (zlen a) (a ++ r) m.1 m.2).
Proof.
  unfold leftmost. generalize (a ++ r) at 1 3 as input. intros input.
  replace (zlen a) with (0 + zlen a) by lia. generalize 0 as k.
  induction a as [|c a IH]; intros k H Hr; cbn [app].
  - destruct m as [t g], r; cbn [leftmost_from]; rewrite Hr; cbn [fst snd]; rewrite zlen_nil;
      do 2 f_equal; lia.
  - cbn [leftmost_from]. change (c :: a ++ r) with ((c :: a) ++ r). rewrite (H [] (c :: a)) by done.
    rewrite IH; [do 2 f_equal; jslia | | done].
    intros a1 a2 -> Hne. by apply (H (c :: a1)).
Qed.

Lemma tmpl_body_head c s : c <> c_hash -> tmpl_body (c :: s) = None.
Proof. intros H. destruct s; cbn; [done|]. by rewrite (proj2 (Z.eqb_neq c c_hash)) by done. Qed.

(** Characters that may stand in front of an expression. *)
Definition fore_char (c : Z) : bool := negb ((c =? c_hash) || (c =? 8232) || (c =? 8233)).
Lemma fore_hash c : fore_char c = true -> c <> c_hash.
Proof. intros H ->. done. Qed.
Lemma plain_fore c : plain_char c = true -> fore_char c = true.
Proof.
  unfold plain_char, fore_char. destruct (c =? c_hash), (c =? c_bslash), (c =? 8232); done.
Qed.

Lemma tmpl_at_fore c s : fore_char c = true ->
  tmpl_at (c :: s) = match tmpl_body s with
    | Some (t, g) => Some (c :: t, Some [c] :: Some t :: g) | None => None end.
Proof.
  unfold fore_char. cbn [tmpl_at]. destruct (c =? c_hash), (c =? 8232), (c =? 8233); done.
Qed.

Lemma Pattern_mark n r :
  forallb name_char n = true ->
  Pattern (mark n ++ r) = Some (Match 0 (mark n ++ r) (mark n) [Some []; Some (mark n); Some n]).
Proof. intros Hn. unfold Pattern. by rewrite tmpl_body_mark. Qed.

Lemma Pattern_after a c n r :
  forallb fore_char (a ++ [c]) = true -> forallb name_char n = true ->
  Pattern (a ++ c :: mark n ++ r)
  = Some (Match (zlen a) (a ++ c :: mark n ++ r) (c :: mark n) [Some [c]; Some (mark n); Some n]).
Proof.
  intros Ha Hn. rewrite forallb_app in Ha. apply andb_true_iff in Ha as [Ha Hc].
  cbn [forallb] in Hc. rewrite andb_true_r in Hc.
  assert (forall a1 a2, a = a1 ++ a2 -> tmpl_body (a2 ++ c :: mark n ++ r) = None) as Hb.
  { intros a1 a2 ->. rewrite forallb_app in Ha. apply andb_true_iff in Ha as [_ Ha].
    destruct a2 as [|x a2]; cbn [app].
    - by apply tmpl_body_head, fore_hash.
    - cbn [forallb] in Ha. apply andb_true_iff in Ha as [Hx _]. by apply tmpl_body_head, fore_hash. }
  unfold Pattern. rewrite (Hb [] a) by done.
  rewrite (leftmost_at tmpl_at a (c :: mark n, [Some [c]; Some (mark n); Some n])); [done| |].
  - intros a1 [|x a2] -> Hne; [done|]. cbn [app]. rewrite tmpl_at_fore.
    + by rewrite (Hb (a1 ++ [x]) a2) by (by rewrite <- app_assoc).
    + rewrite forallb_app in Ha. apply andb_true_iff in Ha as [_ Ha]. cbn in Ha.
      by apply andb_true_iff in Ha as [? _].
  - rewrite tmpl_at_fore by done. by rewrite tmpl_body_mark.
Qed.

Section render.
Variables (inherited : Json.jval -> jstring -> Json.jval) (object : Json.jval).
Hypothesis Ho : nullish object = false.

Lemma walk_name fuel n :
  n <> [] -> forallb name_char n = true ->
  path_step n = Some (n, [], []) /\ walk inherited (S fuel) object n = Returns (get_prop inherited object n).
Proof.
  intros Hne Hn.
  assert (path_step n = Some (n, [], [])) as E.
  { unfold path_step. rewrite span_all; [by destruct n|].
    rewrite forallb_forall in *. intros x Hx. specialize (Hn x Hx). unfold name_char in Hn.
    destruct ((x =? 46) || (x =? c_lbrack)); done. }
  split; [done|]. cbn [walk]. rewrite E.
  assert (prefixb [c_lbrack] n = false) as ->.
  { destruct n as [|x n]; [done|]. cbn [prefixb]. rewrite andb_true_r. apply Z.eqb_neq. by intros <-. }
  cbn. by rewrite orb_true_r.
Qed.

Lemma replace_mark k i t b n :
  n <> [] -> forallb name_char n = true ->
  tmpl_replacement inherited object (Match k i t [Some b; Some (mark n); Some n])
  = Returns (Json.VStr (if bool_decide (b = [c_bslash]) then mark n
                       else b ++ interpret (get_prop inherited object n))).
Proof.
  intros Hne Hn.
  transitivity (if bool_decide (b = [c_bslash]) then Returns (Json.VStr (mark n)) else
    match path_step n with
    | None => Returns (Json.VStr b)
    | Some _ => ctx ← walk inherited (S (length n)) object n; mret (Json.VStr (b ++ interpret ctx))
    end).
  { unfold tmpl_replacement. by rewrite Ho. }
  destruct (walk_name (length n) n Hne Hn) as [-> ->]. by case_match.
Qed.

Lemma render_piece fuel result p r :
  good_piece p = true ->
  gsub_loop Pattern (fun m st => v ← tmpl_replacement inherited object m; mret (v, st))
    (S fuel) result (source p ++ r) tt
  = gsub_loop Pattern (fun m st => v ← tmpl_replacement inherited object m; mret (v, st))
    fuel (result ++ shown inherited object p) r tt.
Proof.
  destruct p as [l esc n]. unfold good_piece, source, shown. cbn [p_text p_escaped p_name].
  rewrite !andb_true_iff, negb_true_iff, bool_decide_eq_false. intros [[Hl Hn] Hne].
  assert (forallb fore_char l = true) as Hf.
  { rewrite forallb_forall in *. intros x Hx. by apply plain_fore, Hl. }
  assert (exists a b, l ++ (if esc then [c_bslash] else []) = a ++ b /\ (a = [] /\ b = [] \/ exists c, b = [c])
    /\ (b = [c_bslash] <-> esc = true) /\ forallb fore_char (a ++ b) = true
    /\ a ++ (if esc then [] else b) = l) as (a & b & E & Hb & He & Hab & Hla).
  { destruct esc.
    - exists l, [c_bslash]. split_and!; [done | by right; eexists | done | | apply app_nil_r].
      by rewrite forallb_app, Hf.
    - destruct l as [|x l _] using rev_ind; [exists [], []; naive_solver|].
      exists l, [x]. rewrite app_nil_r. split_and!; [done | by right; eexists | | done | done].
      split; [intros [= ->] | done]. rewrite forallb_app in Hl. by rewrite andb_false_r in Hl. }
  rewrite app_assoc, E, <- !app_assoc.
  assert (exists k i, Pattern (a ++ b ++ mark n ++ r)
      = Some (Match k i (b ++ mark n) [Some b; Some (mark n); Some n]) /\ zlen a = k) as (k & i & HP & Hk).
  { destruct Hb as [[-> ->]|[c ->]]; cbn [app].
    - rewrite Pattern_mark by done. eauto.
    - rewrite Pattern_after by done. eauto. }
  assert (a ++ b ++ mark n ++ r <> []) as Hs by by destruct a, b.
  rewrite (gsub_step _ _ _ _ _ _ a r _ Hs HP).
  - rewrite replace_mark by done. cbn. f_equal. f_equal. destruct esc.
    + rewrite (bool_decide_eq_true_2 (b = _)) by tauto. by rewrite <- Hla, app_nil_r.
    + rewrite (bool_decide_eq_false_2 (b = _)) by naive_solver. by rewrite <- Hla, <- app_assoc.
  - split; cbn [m_text]; [by rewrite <- app_assoc | done].
Qed.

Lemma render_pieces ps tail fuel result :
  forallb good_piece ps = true -> c_hash ∉ tail -> (length ps + 1 < fuel)%nat ->
  gsub_loop Pattern (fun m st => v ← tmpl_replacement inherited object m; mret (v, st))
    fuel result (concat (map source ps) ++ tail) tt
  = Returns (result ++ concat (map (shown inherited object) ps) ++ tail, tt).
Proof.
  intros Hps Ht. revert fuel result. induction ps as [|p ps IH]; intros fuel result Hf; cbn [map concat].
  - cbn [app]. destruct tail as [|x tail]; [destruct fuel; [simpl in Hf; lia | cbn; by rewrite app_nil_r]|].
    destruct fuel as [|[|fuel]]; [simpl in Hf; lia..|]. by apply gsub_rest, Pattern_hash.
  - cbn [forallb] in Hps. apply andb_true_iff in Hps as [Hp Hps].
    destruct fuel as [|fuel]; [lia|]. rewrite <- app_assoc, render_piece by done.
    rewrite IH by (done || simpl in Hf; lia). by rewrite <- !app_assoc.
Qed.

Lemma source_length p : (0 < length (source p))%nat.
Proof. unfold source, mark. rewrite !length_app. simpl. lia. Qed.

(** C17: Evaluating a template replaces each expression by the property of the object
    that it names, an absent or null one by nothing, drops the backslash of a
    protected expression, and leaves every other text as it is. *)
Theorem template_renders ps tail :
  forallb good_piece ps = true -> c_hash ∉ tail ->
  evaluate inherited Pattern (concat (map source ps) ++ tail) object
  = Returns (concat (map (shown inherited object) ps) ++ tail).
Proof.
  intros Hps Ht. unfold evaluate, gsub. rewrite Ho, render_pieces; [done..|].
  unfold enough. rewrite length_app.
  assert (length ps <= length (concat (map source ps)))%nat; [|lia].
  clear. induction ps as [|p ps IH]; [done|]. cbn [map concat length]. rewrite length_app.
  pose proof (source_length p). lia.
Qed.
End render.

(** ** Claims on the substitution *)

(** [gsub] agrees with the [replace] of the language, with the flag [g], for every
    pattern that takes its matches from the front of the remaining text and never
    matches the empty text, and every replacement without state. *)
Theorem gsub_agrees at_ replacement f s :
  solid at_ -> computes at_ replacement f ->
  gsub (leftmost at_) replacement s = Returns (replace_g at_ f 0 s).
Proof. apply gsub_replace_g. Qed.

(** The loop of [gsub] ends when every match, with the text in front of it, takes
    a character; when the pattern matches the empty text at the front of what is
    left, it never ends. *)
Theorem gsub_ends pattern replacement s :
  (forall m, exists v, replacement m = Returns v) ->
  (advancing pattern -> exists r, gsub pattern replacement s = Returns r)
  /\ (forall m, s <> [] -> pattern s = Some m -> m_index m = 0 -> m_text m = [] ->
      forall fuel result,
        gsub_loop pattern (fun m st => v ← replacement m; mret (v, st)) fuel result s tt = Diverges).
Proof.
  intros Ht.
  assert (forall m (st : unit), exists r, (v ← replacement m; mret (v, st)) = Returns r) as Ht'.
  { intros m st. destruct (Ht m) as [v ->]. by eexists. }
  split.
  - intros Hp. destruct (gsub_loop_returns pattern _ Ht' (enough s) [] s tt Hp) as [r Hr].
    { unfold enough. lia. }
    unfold gsub. rewrite Hr. by eexists.
  - intros m Hs Hm H0 Htx fuel result. by eapply gsub_loop_hangs.
Qed.

Definition no_inherited (v : Json.jval) (k : jstring) : Json.jval := Json.VUndef.

Lemma gsub_agrees_witness :
  gsub (leftmost (literal (js "ab"))) (fun _ => mret (Json.VStr (js "b"))) (js "xababay")
  = Returns (js "xbbay").
Proof.
  refine (eq_trans (gsub_agrees (literal (js "ab")) _ (fun _ _ => js "b") (js "xababay") _ _) _).
  - by apply literal_solid.
  - intros s m _. by exists (Json.VStr (js "b")).
  - by vm_compute.
Defined.

(** The star of a class: it matches everywhere, also the empty text. *)
Definition star (p : Z -> bool) : matcher := fun s => Some ((span p s).1, []).

Lemma gsub_ends_witness :
  (exists r, gsub (leftmost (class is_digit)) (fun _ => mret Json.VUndef) (js "a1b22") = Returns r)
  /\ forall fuel result,
       gsub_loop (leftmost (star is_digit)) (fun m st => v ← mret Json.VUndef; mret (v, st))
         fuel result (js "a1") tt = Diverges.
Proof.
  split.
  - destruct (gsub_ends (leftmost (class is_digit)) (fun _ => mret Json.VUndef) (js "a1b22")) as [H _].
    + intros m. by exists Json.VUndef.
    + apply H, leftmost_advancing, class_solid.
  - destruct (gsub_ends (leftmost (star is_digit)) (fun _ => mret Json.VUndef) (js "a1")) as [_ H].
    + intros m. by exists Json.VUndef.
    + by eapply H.
Defined.

Definition greeting : list piece :=
  [Piece (js "Dear ") false (js "name"); Piece (js ", ") true (js "name");
   Piece (js " has ") false (js "n"); Piece [] false (js "missing")].
Definition recipient : Json.jval := Json.VObj [(js "name", Json.VStr (js "Ann")); (js "n", Json.VNum 4)].

Lemma template_renders_witness :
  evaluate no_inherited Pattern (js "Dear #{name}, \#{name} has #{n}#{missing}letters") recipient
  = Returns (js "Dear Ann, #{name} has 4letters").
Proof.
  refine (eq_trans (template_renders no_inherited recipient _ greeting (js "letters") _ _) _);
    [done | by vm_compute | decided | by vm_compute].
Defined.
End Text.
