(* ===== verification/ProtoStr.v ===== *)
(** * Plain string methods of Prototype

    Trimming, cutting, repeating and comparing strings, the conversion between
    the naming styles, and the methods that escape and strip markup. *)
From S2P Require Import Prelude JsString Json ProtoText.

Module Str.
Import Text.

(** src/piql/scadr/src/main/rails/public/javascripts/prototype.js:374-379
    [truncate(length, truncation)] *)
Definition truncate (length : option Z) (truncation : option jstring) (this : jstring) : jstring :=
  let length := match length with Some n => if n =? 0 then 30 else n | None => 30 end in
  let truncation := default (js "...") truncation in
  if length <? zlen this then slice 0 (length - zlen truncation) this ++ truncation else this.

Definition drop_white (s : jstring) : jstring := (span is_white s).2.

(** src/piql/scadr/src/main/rails/public/javascripts/prototype.js:381-383
    [strip()] *)
Definition strip (this : jstring) : jstring := rev (drop_white (rev (drop_white this))).

(** src/piql/scadr/src/main/rails/public/javascripts/prototype.js:439-441
    [toArray()] *)
Definition toArray (this : jstring) : list jstring := map (fun c => [c]) this.

(** [String.fromCharCode(n)] and [s.charCodeAt(i)], [NaN] being [None]. *)
Definition fromCharCode (n : option Z) : jstring :=
  match n with Some n => [n mod 65536] | None => [0] end.
Definition charCodeAt (i : Z) (s : jstring) : option Z := znth s i.

(** src/piql/scadr/src/main/rails/public/javascripts/prototype.js:443-446
    [succ()] *)
Definition succ (this : jstring) : jstring :=
  slice 0 (zlen this - 1) this
  ++ fromCharCode ((fun c => c + 1) <$> charCodeAt (zlen this - 1) this).

(** src/piql/scadr/src/main/rails/public/javascripts/prototype.js:448-450
    [times(count)] *)
Definition times (count : Z) (this : jstring) : jstring :=
  if count <? 1 then [] else join this (replicate (Z.to_nat (count + 1)) []).

(** src/piql/scadr/src/main/rails/public/javascripts/prototype.js:510-512
    [include(pattern)] *)
Definition include (pattern this : jstring) : bool := -1 <? indexOf pattern this.

(** src/piql/scadr/src/main/rails/public/javascripts/prototype.js:514-516
    [startsWith(pattern)] *)
Definition startsWith (pattern this : jstring) : bool := indexOf pattern this =? 0.

(** src/piql/scadr/src/main/rails/public/javascripts/prototype.js:518-521
    [endsWith(pattern)] *)
Definition endsWith (pattern this : jstring) : bool :=
  let d := zlen this - zlen pattern in
  (0 <=? d) && (lastIndexOf pattern (zlen this) this =? d).

(** src/piql/scadr/src/main/rails/public/javascripts/prototype.js:523-525
    [empty()] *)
Definition empty (this : jstring) : bool := bool_decide (this = []).

(** src/piql/scadr/src/main/rails/public/javascripts/prototype.js:527-529
    [blank()] *)
Definition blank (this : jstring) : bool := forallb is_white this.

(** [s.split(/\s+/)] *)
Fixpoint split_white (cur s : jstring) (inside : bool) : list jstring :=
  match s with
  | [] => [cur]
  | c :: s =>
      if is_white c then if inside then split_white cur s true else cur :: split_white [] s true
      else split_white (cur ++ [c]) s false
  end.

(** src/piql/scadr/src/main/rails/public/javascripts/prototype.js:946-950
    [$w(string)] *)
Definition dollar_w (string : jstring) : list jstring :=
  let string := strip string in
  match string with [] => [] | _ => split_white [] string false end.

(** ** Markup *)

(** [/<\/?[^>]+>/]: a less-than sign, at least one character, a greater-than
    sign; the slash is one of the characters if nothing follows it. *)
Definition tag_at : matcher := fun s =>
  match s with
  | c :: r =>
      if c =? c_lt then
        match span (fun x => negb (x =? c_gt)) r with
        | ((_ :: _) as body, g :: _) => Some (c :: body ++ [g], [])
        | _ => None
        end
      else None
  | [] => None
  end.

(** src/piql/scadr/src/main/rails/public/javascripts/prototype.js:385-387
    [stripTags()] *)
Definition stripTags (this : jstring) : jstring := replace_all tag_at [] this.

Fixpoint prefix_ci (p s : jstring) : bool :=
  match p, s with
  | [], _ => true
  | a :: p, b :: s => (lower1 a =? lower1 b) && prefix_ci p s
  | _, [] => false
  end.

(** The shortest text in front of a closing script tag. *)
Fixpoint script_body (s : jstring) : option jstring :=
  if prefix_ci (js "</script>") s then Some []
  else match s with [] => None | c :: s => cons c <$> script_body s end.

(** src/piql/scadr/src/main/rails/public/javascripts/prototype.js:32-32
    [Prototype.ScriptFragment], without distinction of case. *)
Definition ScriptFragment : matcher := fun s =>
  if prefix_ci (js "<script") s then
    match span (fun x => negb (x =? c_gt)) (drop 7 s) with
    | (attrs, g :: r) =>
        match script_body r with
        | Some body =>
            Some (take 7 s ++ attrs ++ g :: body ++ take 9 (drop (length body) r), [Some body])
        | None => None
        end
    | _ => None
    end
  else None.

(** src/piql/scadr/src/main/rails/public/javascripts/prototype.js:389-391
    [stripScripts()] *)
Definition stripScripts (this : jstring) : jstring := replace_all ScriptFragment [] this.

(** [s.match(re)] with the flag [g]: the texts of all matches. *)
Fixpoint match_all (at_ : matcher) (skip : nat) (s : jstring) : list jstring :=
  match s with
  | [] => []
  | _ :: s' =>
      match skip with
      | S k => match_all at_ k s'
      | O => match at_ s with
             | Some (t, _) => t :: match_all at_ (length t - 1) s'
             | None => match_all at_ 0 s'
             end
      end
  end.

(** src/piql/scadr/src/main/rails/public/javascripts/prototype.js:393-399
    [extractScripts()] *)
Definition extractScripts (this : jstring) : list jstring :=
  map (fun scriptTag =>
         match leftmost ScriptFragment scriptTag with
         | Some m => default [] (group 0 m)
         | None => []
         end) (match_all ScriptFragment 0 this).

(** src/piql/scadr/src/main/rails/public/javascripts/prototype.js:537-539
    [escapeHTML()], in WebKit and Internet Explorer *)
Definition escapeHTML (this : jstring) : jstring :=
  replace_char c_gt (js "&gt;") (replace_char c_lt (js "&lt;") (replace_char c_amp (js "&amp;") this)).

(** src/piql/scadr/src/main/rails/public/javascripts/prototype.js:540-542
    [unescapeHTML()], in WebKit and Internet Explorer *)
Definition unescapeHTML (this : jstring) : jstring :=
  replace_all (literal (js "&gt;")) [c_gt]
    (replace_all (literal (js "&lt;")) [c_lt]
       (replace_all (literal (js "&amp;")) [c_amp] (stripTags this))).

(** ** Naming styles *)
Section names.
Variable inherited : Json.jval -> jstring -> Json.jval.

Lemma acronym_solid : solid acronym_at.
Proof.
  intros s t g. unfold acronym_at. destruct (span is_upper s) as [caps r] eqn:E.
  destruct (rev caps) as [|u [|v l]] eqn:Er; [done..|]. destruct r as [|x r]; [done|].
  case_match; [|done]. intros [= <- <-]. split; [by destruct (removelast caps)|]. exists r.
  assert (caps = removelast caps ++ [u]) as Hc.
  { apply (f_equal (@rev Z)) in Er. rewrite rev_involutive in Er. cbn [rev] in Er. rewrite Er.
    by rewrite removelast_last. }
  assert (s = caps ++ x :: r) as ->.
  { clear -E. revert caps E. induction s as [|c s IH]; intros caps; cbn [span]; [by intros [=]|].
    case_match; [|by intros [= <- -> ->]]. destruct (span is_upper s) as [a b] eqn:Es.
    intros [= <- ->]. cbn [app]. f_equal. by apply IH. }
  rewrite Hc at 1. by rewrite <- !app_assoc.
Qed.

Lemma hump_solid : solid hump_at.
Proof.
  intros [|a [|b s]] t g; cbn; [done..|]. case_match; [|done]. intros [= <- <-].
  split; [done|]. by exists s.
Qed.

(** The three steps of [underscore], and [dasherize], without the templates. *)
Definition split_at (t : jstring) (g : list (option jstring)) : jstring :=
  match g with [Some a; Some b] => a ++ c_under :: b | _ => t end.

Lemma underscore_steps s :
  underscore inherited s = Returns (toLowerCase
    (replace_all (literal (js "-")) (js "_")
      (replace_g hump_at split_at 0
        (replace_g acronym_at split_at 0 (replace_all (literal (js "::")) (js "/") s))))).
Proof.
  unfold underscore.
  assert (forall w r u, w <> [] -> c_hash ∉ r ->
    gsub (leftmost (literal w)) (prepareReplacement inherited r) u = Returns (replace_all (literal w) r u)) as Hl.
  { intros w r u Hw Hr. apply gsub_replace_g; [by apply literal_solid|]. intros v m _.
    exists (Json.VStr r). by rewrite prepare_plain. }
  assert (forall at_ u, solid at_ -> (forall v t g, at_ v = Some (t, g) -> exists a b, g = [Some a; Some b]) ->
    gsub (leftmost at_) (prepareReplacement inherited (js "#{1}_#{2}")) u
    = Returns (replace_g at_ split_at 0 u)) as Hs.
  { intros at_ u Hat Hg. apply gsub_replace_g; [done|]. intros v m Hm.
    destruct (Hg _ _ _ Hm) as (a & b & E). exists (Json.VStr (a ++ c_under :: b)).
    split; [by apply prepare_split | by rewrite E]. }
  rewrite Hl by (done || decided). cbn [mbind outcome_bind].
  rewrite Hs; [|apply acronym_solid|]; cbn [mbind outcome_bind].
  - rewrite Hs; [|apply hump_solid|]; cbn [mbind outcome_bind].
    + rewrite Hl by (done || decided). done.
    + intros [|a [|b v]] t g; cbn; [done..|]. case_match; [|done]. intros [= <- <-]. eauto.
  - intros v t g. unfold acronym_at. repeat case_match; try done. intros [= <- <-]. eauto.
Qed.

Lemma dasherize_step s : dasherize inherited s = Returns (replace_char c_under [c_dash] s).
Proof.
  unfold dasherize. rewrite (gsub_replace_g _ _ (fun _ _ => [c_dash])).
  - f_equal. apply replace_g_char.
  - by apply literal_solid.
  - intros v m _. exists (Json.VStr [c_dash]). rewrite prepare_plain; [done|].
    decided.
Qed.

(** Words of small letters. *)
Definition word (w : jstring) : bool := forallb is_lower w && negb (bool_decide (w = [])).
Definition long_word (w : jstring) : bool := word w && (1 <? zlen w).
Definition up (w : jstring) : jstring :=
  match w with [] => [] | c :: w => upper1 c :: w end.
Definition humps (ws : list jstring) : jstring := concat (map up ws).

Lemma is_lower_range c : is_lower c = true <-> 97 <= c <= 122.
Proof. unfold is_lower. rewrite andb_true_iff, !Z.leb_le. done. Qed.
Lemma is_upper_range c : is_upper c = true <-> 65 <= c <= 90.
Proof. unfold is_upper. rewrite andb_true_iff, !Z.leb_le. done. Qed.
Lemma lower_upper c : is_lower c = true -> is_upper (upper1 c) = true /\ lower1 (upper1 c) = c.
Proof.
  intros H. unfold upper1. rewrite H. apply is_lower_range in H as ?.
  assert (is_upper (c - 32) = true) as Hu by (apply is_upper_range; lia).
  split; [done|]. unfold lower1. rewrite Hu. lia.
Qed.
Lemma lower_not_upper c : is_lower c = true -> is_upper c = false.
Proof. rewrite is_lower_range. intros H. apply not_true_iff_false. rewrite is_upper_range. lia. Qed.

Lemma camelize_words w ws :
  word w = true -> forallb word ws = true ->
  camelize (join [c_dash] (w :: ws)) = w ++ humps ws.
Proof.
  intros Hw Hws.
  assert (forall v, word v = true -> c_dash ∉ v) as Hd.
  { intros v [Hv _]%andb_true_iff Hin. rewrite forallb_forall in Hv.
    apply list_elem_of_In in Hin. by apply Hv in Hin. }
  assert (split_char c_dash (join [c_dash] (w :: ws)) = w :: ws) as E.
  { apply split_join. intros v [->|Hin]%elem_of_cons; [by apply Hd|]. apply Hd.
    rewrite forallb_forall in Hws. apply Hws. by apply list_elem_of_In. }
  unfold camelize. rewrite E. destruct ws as [|v ws]; [cbn; by rewrite app_nil_r|].
  assert (bool_decide (charAt 0 (join [c_dash] (w :: v :: ws)) = [c_dash]) = false) as ->.
  { apply bool_decide_eq_false. destruct w as [|c w]; [done|]. cbn. intros [= ->]. done. }
  assert (forall ws acc, forallb word ws = true ->
    fold_left (fun camelized w => camelized ++ toUpperCase (charAt 0 w) ++ substring_from 1 w) ws acc
    = acc ++ humps ws) as Hf.
  { clear. induction ws as [|v ws IH]; intros acc H; cbn [fold_left]; [by rewrite app_nil_r|].
    cbn [forallb] in H. apply andb_true_iff in H as [Hv H]. rewrite IH by done.
    unfold humps. cbn [map concat]. rewrite <- !app_assoc. f_equal.
    destruct v as [|c v]; [done|]. cbn. unfold substring_from. rewrite zlen_cons.
    rewrite Z.min_l by (pose proof (zlen_nonneg v); lia). done. }
  by apply Hf.
Qed.
End names.

Lemma word_cons c w : word (c :: w) = true -> is_lower c = true /\ forallb is_lower w = true.
Proof. unfold word. cbn [forallb]. rewrite !andb_true_iff. tauto. Qed.

(** A word that begins with a capital and goes on with small letters. *)
Lemma long_up v : long_word v = true ->
  exists C w, up v = C :: w /\ is_upper C = true /\ word w = true /\ v = lower1 C :: w.
Proof.
  unfold long_word. rewrite andb_true_iff. intros [Hv Hl%Z.ltb_lt].
  destruct v as [|c [|d v]]; [done | jslia |]. destruct (word_cons _ _ Hv) as [Hc Hv'].
  destruct (lower_upper c Hc) as [H1 H2]. exists (upper1 c), (d :: v).
  split_and!; [done | done | | by rewrite H2].
  unfold word. by rewrite Hv'.
Qed.

(** In a camel-case name no capital follows another: it holds no acronym. *)
Lemma no_acronym w ws :
  word w = true -> forallb long_word ws = true ->
  replace_g acronym_at split_at 0 (w ++ humps ws) = w ++ humps ws.
Proof.
  intros Hw Hws. apply replace_g_never.
  enough (forall a x y b, w ++ humps ws = a ++ x :: y :: b -> is_upper x = true -> is_upper y = false) as H.
  { intros a b E Hb. unfold acronym_at. destruct b as [|x [|y b]]; [done | cbn; by destruct (is_upper x) |].
    cbn [span]. destruct (is_upper x) eqn:Hx; [|done]. by rewrite (H _ _ _ _ E Hx). }
  revert w Hw. induction ws as [|v ws IH]; intros w Hw.
  - unfold humps. cbn [map concat]. rewrite app_nil_r. intros a x y b -> Hx. exfalso.
    unfold word in Hw. rewrite forallb_app in Hw. cbn [forallb] in Hw.
    destruct (is_lower x) eqn:Hl; [by rewrite lower_not_upper in Hx|].
    by rewrite !andb_false_r in Hw.
  - cbn [forallb] in Hws. apply andb_true_iff in Hws as [Hv Hws]. specialize (IH Hws).
    destruct (long_up v Hv) as (C & u & Hu & HC & Hwu & _).
    unfold humps. cbn [map concat]. rewrite Hu. change (concat (map up ws)) with (humps ws).
    clear Hv Hu. revert w Hw.
    assert (forall w, forallb is_lower w = true -> forall a x y b,
      w ++ (C :: u) ++ humps ws = a ++ x :: y :: b -> is_upper x = true -> is_upper y = false) as H.
    { induction w as [|c w IHw]; intros Hw a x y b E Hx.
      - destruct a as [|c a].
        + cbn [app] in E. injection E as -> E. destruct u as [|d u]; [done|].
          injection E as <- _. apply word_cons in Hwu as [Hd _]. by apply lower_not_upper.
        + cbn [app] in E. injection E as _ E. by apply (IH _ Hwu a x y b).
      - cbn [forallb] in Hw. apply andb_true_iff in Hw as [Hc Hw]. destruct a as [|c' a].
        + injection E as -> _. by rewrite lower_not_upper in Hx.
        + injection E as _ E. by apply (IHw Hw a x y b). }
    intros w Hw. apply H. unfold word in Hw. by apply andb_true_iff in Hw as [??].
Qed.

Definition under_humps (ws : list jstring) : jstring := concat (map (fun w => c_under :: up w) ws).

Lemma humps_split w ws :
  word w = true -> forallb long_word ws = true ->
  replace_g hump_at split_at 0 (w ++ humps ws) = w ++ under_humps ws.
Proof.
  revert w. induction ws as [|v ws IH]; intros w Hw Hws.
  - unfold humps, under_humps. cbn [map concat]. rewrite !app_nil_r. apply replace_g_never.
    intros a [|x [|y b]] -> Hb; [done..|]. unfold hump_at.
    assert (is_upper y = false) as ->; [|by rewrite andb_false_r].
    unfold word in Hw. rewrite forallb_app in Hw. cbn [forallb] in Hw.
    rewrite !andb_true_iff in Hw. apply lower_not_upper. tauto.
  - cbn [forallb] in Hws. apply andb_true_iff in Hws as [Hv Hws].
    destruct (long_up v Hv) as (C & u & Hu & HC & Hwu & _).
    unfold humps, under_humps. cbn [map concat]. rewrite Hu.
    change (concat (map up ws)) with (humps ws).
    change (concat (map (fun w => c_under :: up w) ws)) with (under_humps ws).
    specialize (IH u Hwu Hws). clear Hv Hu v.
    induction w as [|c w IHw]; [done|]. apply word_cons in Hw as [Hc Hw].
    destruct w as [|d w].
    + change ([c] ++ (C :: u) ++ humps ws) with ([c; C] ++ u ++ humps ws).
      rewrite (replace_g_match hump_at split_at [c; C] [Some [c]; Some [C]] (u ++ humps ws)); [|done|].
      * rewrite IH. done.
      * unfold hump_at. cbn [app]. by rewrite Hc, HC.
    + cbn [app] in IHw |- *. cbn [replace_g]. unfold hump_at at 1.
      assert (is_lower d = true) as Hd by (cbn [forallb] in Hw; by apply andb_true_iff in Hw as [??]).
      rewrite (lower_not_upper d Hd), andb_false_r. f_equal. apply IHw.
      unfold word. by rewrite Hw.
Qed.

(** Characters of a name in the two styles. *)
Definition name_letter (c : Z) : bool := is_lower c || is_upper c || (c =? c_under).
Lemma name_absent c s : forallb name_letter s = true -> name_letter c = false -> c ∉ s.
Proof.
  rewrite forallb_forall. intros H Hc Hin. apply list_elem_of_In in Hin. by rewrite (H c Hin) in Hc.
Qed.

Lemma word_letters w : word w = true -> forallb name_letter w = true.
Proof.
  unfold word. intros [Hw _]%andb_true_iff. rewrite forallb_forall in *. intros x Hx.
  unfold name_letter. by rewrite (Hw x Hx).
Qed.

Lemma humps_letters w ws :
  word w = true -> forallb long_word ws = true ->
  forallb name_letter (w ++ humps ws) = true /\ forallb name_letter (w ++ under_humps ws) = true.
Proof.
  intros Hw Hws. rewrite !forallb_app, (word_letters w Hw). cbn [andb].
  induction ws as [|v ws IH]; [done|]. cbn [forallb] in Hws. apply andb_true_iff in Hws as [Hv Hws].
  destruct (IH Hws) as [IH1 IH2]. destruct (long_up v Hv) as (C & u & Hu & HC & Hwu & _).
  unfold humps, under_humps in *. cbn [map concat]. rewrite !forallb_app, IH1, IH2, Hu.
  cbn [forallb]. rewrite (word_letters u Hwu). unfold name_letter. by rewrite HC, orb_true_r.
Qed.

Lemma lower_word w : forallb is_lower w = true -> toLowerCase w = w.
Proof.
  induction w as [|c w IH]; [done|]. cbn [forallb toLowerCase map]. intros [Hc Hw]%andb_true_iff.
  f_equal; [|by apply IH]. unfold lower1. by rewrite lower_not_upper.
Qed.

Lemma lower_humps w ws :
  word w = true -> forallb long_word ws = true ->
  toLowerCase (w ++ under_humps ws) = w ++ concat (map (cons c_under) ws).
Proof.
  intros Hw Hws. unfold toLowerCase. rewrite map_app. f_equal.
  - unfold word in Hw. apply andb_true_iff in Hw as [Hw _]. by apply lower_word.
  - induction ws as [|v ws IH]; [done|]. cbn [forallb] in Hws. apply andb_true_iff in Hws as [Hv Hws].
    unfold under_humps in *. cbn [map concat]. rewrite map_app, IH by done. f_equal.
    destruct (long_up v Hv) as (C & u & -> & HC & Hwu & ->). cbn [map]. f_equal. f_equal.
    unfold word in Hwu. apply andb_true_iff in Hwu as [Hu _]. by apply lower_word.
Qed.

Lemma join_concat (sep : Z) w ws : join [sep] (w :: ws) = w ++ concat (map (cons sep) ws).
Proof.
  revert w. induction ws as [|v ws IH]; intros w; [by rewrite app_nil_r|].
  change (join [sep] (w :: v :: ws)) with (w ++ [sep] ++ join [sep] (v :: ws)). by rewrite IH.
Qed.

Lemma long_is_word ws : forallb long_word ws = true -> forallb word ws = true.
Proof.
  rewrite !forallb_forall. intros H x Hx. specialize (H x Hx). unfold long_word in H.
  by apply andb_true_iff in H as [??].
Qed.

Lemma undo_dashes w ws :
  word w = true -> forallb long_word ws = true ->
  replace_char c_under [c_dash] (w ++ concat (map (cons c_under) ws)) = join [c_dash] (w :: ws).
Proof.
  intros Hw Hws. rewrite join_concat, replace_char_app.
  assert (forall v, word v = true -> c_under ∉ v) as Hd.
  { intros v [Hv _]%andb_true_iff Hin. rewrite forallb_forall in Hv.
    apply list_elem_of_In in Hin. by apply Hv in Hin. }
  rewrite replace_char_none by auto. f_equal. apply long_is_word in Hws.
  induction ws as [|v ws IH]; [done|]. cbn [forallb] in Hws. apply andb_true_iff in Hws as [Hv Hws].
  cbn [map concat]. rewrite replace_char_app, IH by done. f_equal.
  change (c_under :: v) with ([c_under] ++ v). rewrite replace_char_app, (replace_char_none c_under [c_dash] v) by auto. done.
Qed.

(** A dashed name, such as that of a style property, survives the change to
    camel case and back, when every word but the first has two letters or more. *)
Theorem names_roundtrip inherited w ws :
  word w = true -> forallb long_word ws = true ->
  (u ← underscore inherited (camelize (join [c_dash] (w :: ws))); dasherize inherited u)
  = Returns (join [c_dash] (w :: ws)).
Proof.
  intros Hw Hws. rewrite camelize_words by auto using long_is_word.
  rewrite underscore_steps. cbn [mbind outcome_bind]. rewrite dasherize_step.
  destruct (humps_letters w ws Hw Hws) as [H1 H2].
  assert (forall c d s r, forallb name_letter s = true -> name_letter c = false ->
    replace_all (literal (c :: d)) r s = s) as Hn.
  { intros c d s r Hs Hc. apply replace_g_never. intros a [|x b] -> Hb; [done|].
    unfold literal. cbn [prefixb]. rewrite forallb_app in Hs. cbn [forallb] in Hs.
    rewrite !andb_true_iff in Hs. destruct Hs as (_ & Hx & _).
    destruct (Z.eqb_spec c x) as [->|]; [congruence | done]. }
  rewrite (Hn 58 [58]) by done. rewrite no_acronym, humps_split by done.
  rewrite (Hn 45 []) by done. rewrite lower_humps by done. by rewrite undo_dashes.
Qed.

Lemma names_roundtrip_witness :
  (u ← underscore no_inherited (camelize (js "border-top-width")); dasherize no_inherited u)
  = Returns (js "border-top-width").
Proof.
  exact (names_roundtrip no_inherited (js "border") [js "top"; js "width"] eq_refl eq_refl).
Defined.

(** ** Escaping and unescaping *)
Definition esc (c : Z) : jstring :=
  if c =? c_amp then js "&amp;" else if c =? c_lt then js "&lt;" else if c =? c_gt then js "&gt;" else [c].

Lemma escapeHTML_flat s : escapeHTML s = List.flat_map esc s.
Proof.
  unfold escapeHTML. unfold replace_char at 3. rewrite !replace_char_flat_map.
  apply List.flat_map_ext. intros c. unfold esc.
  destruct (Z.eqb_spec c c_amp) as [->|]; [done|]. rewrite replace_char1.
  destruct (Z.eqb_spec c c_lt) as [->|]; [done|]. by rewrite replace_char1.
Qed.

Lemma esc_no_lt s : c_lt ∉ List.flat_map esc s.
Proof.
  induction s as [|c s IH]; [apply not_elem_of_nil|]. cbn [List.flat_map]. rewrite elem_of_app.
  intros [H|H]; [|done]. revert H. unfold esc.
  repeat case_match; [decided..|].
  intros E%list_elem_of_singleton. by subst c.
Qed.

Lemma stripTags_none s : c_lt ∉ s -> stripTags s = s.
Proof.
  intros H. apply replace_g_never. intros a [|x b] -> Hb; [done|]. unfold tag_at.
  assert (x <> c_lt) by set_solver. by rewrite (proj2 (Z.eqb_neq x c_lt)) by done.
Qed.

Section entity.
Variables (k : Z) (w : jstring).
Hypothesis Hw : c_amp ∉ w.
Abbreviation entity := (c_amp :: w).

Lemma entity_here s : replace_all (literal entity) [k] (entity ++ s) = k :: replace_all (literal entity) [k] s.
Proof.
  unfold replace_all. rewrite (replace_g_match _ _ entity []); [done | done |].
  unfold literal. by rewrite prefixb_app.
Qed.
Lemma entity_skip c s : prefixb entity (c :: s) = false ->
  replace_all (literal entity) [k] (c :: s) = c :: replace_all (literal entity) [k] s.
Proof. intros H. unfold replace_all. cbn [replace_g]. unfold literal at 1. by rewrite H. Qed.
Lemma entity_skips a s : c_amp ∉ a ->
  replace_all (literal entity) [k] (a ++ s) = a ++ replace_all (literal entity) [k] s.
Proof.
  induction a as [|x a IH]; intros H; [done|]. apply not_elem_of_cons in H as [Hx Ha]. cbn [app].
  rewrite entity_skip, IH; [done | done |]. cbn [prefixb]. by rewrite (proj2 (Z.eqb_neq c_amp x)) by done.
Qed.
End entity.

(** Replacing an entity in a text whose characters were expanded by [F]: the
    expansions of [k] are undone, with the entities that the text held before. *)
Section expansion.
Variables (k : Z) (w : jstring) (F F' : Z -> jstring).
Abbreviation entity := (c_amp :: w).
Hypothesis Hw : c_amp ∉ w.
Hypothesis Hk : k ∉ entity.
Hypothesis HFk : F k = entity.
Hypothesis HF'k : F' k = [k].
Hypothesis HF' : forall c, c <> k -> F' c = F c.
Hypothesis HFe : forall c, c ∈ entity -> F c = [c].
Hypothesis HF : forall c, F c = [c] \/
  (c ∉ entity /\ exists x, F c = c_amp :: x /\ c_amp ∉ x /\ (c <> k -> forall r, prefixb w (x ++ r) = false)).

Lemma prefix_expanded p u :
  (forall x, x ∈ p -> x ∈ w) -> prefixb p (List.flat_map F u) = prefixb p u.
Proof.
  revert p. induction u as [|c u IH]; intros p Hp; [by destruct p|]. cbn [List.flat_map].
  destruct p as [|q p]; [done|].
  destruct (HF c) as [->|(Hc & x & -> & _ & _)]; cbn [app prefixb].
  - f_equal. apply IH. intros y Hy. apply Hp. by apply list_elem_of_further.
  - assert (q ∈ w) as Hq by (apply Hp; by apply list_elem_of_here).
    rewrite (proj2 (Z.eqb_neq q c_amp)) by set_solver.
    by rewrite (proj2 (Z.eqb_neq q c)) by set_solver.
Qed.

Lemma flat_plain a : (forall x, x ∈ a -> x ∈ entity) -> List.flat_map F a = a.
Proof.
  induction a as [|c a IH]; intros H; [done|]. cbn [List.flat_map].
  rewrite HFe by (apply H, list_elem_of_here). cbn [app]. f_equal. apply IH.
  intros x Hx. by apply H, list_elem_of_further.
Qed.

Lemma replace_expanded s :
  replace_all (literal entity) [k] (List.flat_map F s)
  = List.flat_map F' (replace_all (literal entity) [k] s).
Proof.
  induction s as [s IH] using (induction_ltof1 _ (@length Z)). unfold ltof in IH.
  destruct s as [|c s]; [done|]. cbn [List.flat_map].
  destruct (decide (c = k)) as [->|Hc].
  - rewrite HFk, entity_here, entity_skip, IH; [by cbn [List.flat_map]; rewrite HF'k | simpl; lia |].
    cbn [prefixb]. rewrite (proj2 (Z.eqb_neq c_amp k)); [done|]. set_solver.
  - destruct (prefixb entity (c :: s)) eqn:E.
    + apply prefixb_true in E as [r E].
      change (F c ++ List.flat_map F s) with (List.flat_map F (c :: s)).
      rewrite E, List.flat_map_app, flat_plain, !entity_here by done.
      cbn [List.flat_map]. rewrite HF'k. cbn [app]. f_equal. apply IH.
      rewrite E, length_app. simpl. lia.
    + rewrite (entity_skip _ _ c s E). cbn [List.flat_map]. rewrite (HF' c Hc).
      rewrite <- (IH s) by (simpl; lia).
      destruct (HF c) as [HFc|(Hce & x & HFc & Hx & Hpre)]; rewrite HFc.
      * cbn [app]. apply entity_skip. cbn [prefixb] in E |- *. rewrite prefix_expanded; [done|].
        by intros.
      * cbn [app]. rewrite entity_skip by (cbn [prefixb]; rewrite Z.eqb_refl; by apply Hpre).
        by rewrite entity_skips.
Qed.
End expansion.

Definition esc_lt_gt (c : Z) : jstring := if c =? c_lt then js "&lt;" else if c =? c_gt then js "&gt;" else [c].
Definition esc_gt (c : Z) : jstring := if c =? c_gt then js "&gt;" else [c].

Lemma entity_amp c u s :
  (c <> c_amp \/ exists d, head u = Some d /\ d <> 97) -> c_amp ∉ u ->
  replace_all (literal (js "&amp;")) [c_amp] ((c :: u) ++ s)
  = (c :: u) ++ replace_all (literal (js "&amp;")) [c_amp] s.
Proof.
  intros Hc Hu. change (js "&amp;") with (c_amp :: js "amp;"). cbn [app].
  rewrite entity_skip, entity_skips; [done | done |]. cbn [prefixb].
  destruct (Z.eqb_spec c_amp c) as [<-|]; [|done].
  destruct Hc as [|(d & Hd & Hne)]; [done|]. destruct u as [|d' u]; [done|]. injection Hd as ->.
  change (js "amp;") with [97; 109; 112; 59]. cbn [app prefixb].
  by rewrite (proj2 (Z.eqb_neq 97 d)) by done.
Qed.

Lemma unescape_amp s :
  replace_all (literal (js "&amp;")) [c_amp] (List.flat_map esc s) = List.flat_map esc_lt_gt s.
Proof.
  induction s as [|c s IH]; [done|]. cbn [List.flat_map]. unfold esc at 1, esc_lt_gt at 1.
  destruct (Z.eqb_spec c c_amp) as [->|Hc].
  - change (js "&amp;") with (c_amp :: js "amp;") in *. rewrite entity_here. by rewrite IH.
  - rewrite <- IH. repeat case_match.
    + apply (entity_amp c_amp (js "lt;")); [right; by exists 108|]. decided.
    + apply (entity_amp c_amp (js "gt;")); [right; by exists 103|]. decided.
    + apply (entity_amp c []); [by left | apply not_elem_of_nil].
Qed.

Lemma flat_map_single (s : jstring) : List.flat_map (fun c => [c]) s = s.
Proof. induction s as [|c s IH]; cbn; [done | by f_equal]. Qed.

(** What unescaping an escaped text gives: the text with the entities that it
    held itself unescaped, too. *)
Theorem unescape_escape s :
  unescapeHTML (escapeHTML s)
  = replace_all (literal (js "&gt;")) [c_gt] (replace_all (literal (js "&lt;")) [c_lt] s).
Proof.
  unfold unescapeHTML. rewrite escapeHTML_flat, stripTags_none by apply esc_no_lt.
  rewrite unescape_amp.
  rewrite (replace_expanded c_lt (js "lt;") esc_lt_gt esc_gt); [|decided|decided|done|done| | |].
  - rewrite (replace_expanded c_gt (js "gt;") esc_gt (fun c => [c])); [|decided|decided|done|done| | |].
    + apply flat_map_single.
    + intros c Hc. unfold esc_gt. by rewrite (proj2 (Z.eqb_neq c c_gt)) by done.
    + intros c Hc. unfold esc_gt. case_match eqn:E; [|done]. apply Z.eqb_eq in E as ->.
      exfalso. revert Hc. decided.
    + intros c. unfold esc_gt. destruct (Z.eqb_spec c c_gt) as [->|]; [right|by left].
      split; [decided|]. exists (js "gt;"). split_and!; [done | decided | done].
  - intros c Hc. unfold esc_lt_gt, esc_gt. by rewrite (proj2 (Z.eqb_neq c c_lt)) by done.
  - intros c Hc. unfold esc_lt_gt. repeat case_match; [| |done].
    + apply Z.eqb_eq in H as ->. exfalso. revert Hc. decided.
    + apply Z.eqb_eq in H0 as ->. exfalso. revert Hc. decided.
  - intros c. unfold esc_lt_gt. destruct (Z.eqb_spec c c_lt) as [->|].
    + right. split; [decided|]. exists (js "lt;"). split_and!; [done | decided | done].
    + destruct (Z.eqb_spec c c_gt) as [->|]; [right|by left].
      split; [decided|]. exists (js "gt;"). split_and!; [done | decided | done].
Qed.

(** The source text of a script survives the removal of scripts, when the text
    that is left closes up to a new one. *)
Example stripScripts_reassembles :
  stripScripts (js "<scr<script></script>ipt>steal()</script>") = js "<script>steal()</script>".
Proof. by vm_compute. Qed.

(** ** Tests *)
Lemma find_last_spec p s k :
  find_last p s k = -1 /\ (forall j, (j <= k)%nat -> prefixb p (drop j s) = false)
  \/ exists i, (i <= k)%nat /\ find_last p s k = Z.of_nat i /\ prefixb p (drop i s) = true
      /\ forall j, (i < j <= k)%nat -> prefixb p (drop j s) = false.
Proof.
  induction k as [|k IH]; cbn [find_last].
  - destruct (prefixb p (drop 0 s)) eqn:E.
    + right. exists 0%nat. split_and!; [lia | done | done | intros; lia].
    + left. split; [done|]. intros j Hj. by replace j with 0%nat by lia.
  - destruct (prefixb p (drop (S k) s)) eqn:E.
    + right. exists (S k). split_and!; [lia | done | done | intros; lia].
    + destruct IH as [[-> H]|(i & Hi & -> & Hp & H)].
      * left. split; [done|]. intros j Hj. destruct (decide (j = S k)) as [->|]; [done | apply H; lia].
      * right. exists i. split_and!; [lia | done | done |]. intros j Hj.
        destruct (decide (j = S k)) as [->|]; [done | apply H; lia].
Qed.

Lemma suffix_at p s i :
  zlen p + i = zlen s -> 0 <= i -> prefixb p (zdrop i s) = true <-> exists r, s = r ++ p.
Proof.
  intros Hl Hi. rewrite prefixb_true. split.
  - intros [r Hr]. exists (ztake i s). rewrite <- (ztake_zdrop i s) at 1. f_equal. rewrite Hr.
    assert (zlen r = 0) as ->%zlen_zero by (apply (f_equal zlen) in Hr; rewrite zlen_zdrop in Hr; jslia).
    by rewrite app_nil_r.
  - intros [r ->]. exists []. rewrite app_nil_r. replace i with (zlen r) by jslia. apply zdrop_app_len.
Qed.

Lemma indexOf_spec p s :
  (indexOf p s = -1 /\ forall j, 0 <= j <= zlen s -> prefixb p (zdrop j s) = false)
  \/ exists i, indexOf p s = i /\ 0 <= i <= zlen s /\ prefixb p (zdrop i s) = true
      /\ forall j, 0 <= j < i -> prefixb p (zdrop j s) = false.
Proof.
  unfold indexOf, indexOf_from. rewrite Z.min_l by jslia. rewrite zdrop_nonpos by lia.
  change (Z.max 0 0) with 0.
  destruct (find_from p s 0) as [i|] eqn:E; cbn [opt_index].
  - right. exists i. destruct (find_from_Some _ _ _ _ E) as (H1 & H2 & H3).
    rewrite Z.sub_0_r in *. split_and!; [done | lia | lia | done |].
    intros j Hj. rewrite <- (Z.sub_0_r j). by eapply find_from_least.
  - left. split; [done|]. intros j Hj. by eapply find_from_None.
Qed.

(** [startsWith], [endsWith] and [include] tell whether a string begins with,
    ends with, or holds another. *)
Theorem string_tests p s :
  (startsWith p s = true <-> exists r, s = p ++ r)
  /\ (endsWith p s = true <-> exists r, s = r ++ p)
  /\ (include p s = true <-> exists a b, s = a ++ p ++ b).
Proof.
  split_and!.
  - unfold startsWith. rewrite Z.eqb_eq, <- prefixb_true.
    destruct (indexOf_spec p s) as [[-> H]|(i & -> & Hi & Hp & H)].
    + split; [done|]. rewrite <- (zdrop_nonpos 0 s) by lia. by rewrite H by jslia.
    + split; [by intros ->; rewrite zdrop_nonpos in Hp|]. intros H0.
      destruct (decide (0 < i)); [|lia]. rewrite <- (zdrop_nonpos 0 s) in H0 by lia.
      by rewrite H in H0 by lia.
  - unfold endsWith. rewrite andb_true_iff, Z.leb_le, Z.eqb_eq.
    unfold lastIndexOf. rewrite Z.min_r by jslia.
    split.
    + intros [H0 E]. apply (suffix_at p s (zlen s - zlen p)); [lia | done |].
      destruct (find_last_spec p s (Z.to_nat (zlen s))) as [[H1 _]|(i & _ & H1 & Hp & _)]; [lia|].
      unfold zdrop. replace (Z.to_nat (zlen s - zlen p)) with i by lia. done.
    + intros [r ->]. rewrite zlen_app. split; [jslia|].
      destruct (find_last_spec p (r ++ p) (Z.to_nat (zlen r + zlen p))) as [[_ H1]|(i & Hi & -> & Hp & H1)].
      * specialize (H1 (length r) ltac:(unfold zlen; lia)). rewrite drop_app_length in H1.
        by rewrite <- (app_nil_r p) in H1 at 2; rewrite prefixb_app in H1.
      * destruct (decide (i < length r)%nat).
        { specialize (H1 (length r) ltac:(unfold zlen; lia)). rewrite drop_app_length in H1.
          by rewrite <- (app_nil_r p) in H1 at 2; rewrite prefixb_app in H1. }
        apply prefixb_true in Hp as [t Ht]. apply (f_equal length) in Ht.
        rewrite length_drop, !length_app in Ht. unfold zlen in *. lia.
  - unfold include. rewrite Z.ltb_lt.
    destruct (indexOf_spec p s) as [[-> H]|(i & -> & Hi & Hp & H)].
    + split; [lia|]. intros (a & b & ->). exfalso.
      specialize (H (zlen a) ltac:(jslia)). by rewrite zdrop_app_len, prefixb_app in H.
    + split; [|lia]. intros _. apply prefixb_true in Hp as [b Hb]. exists (ztake i s), b.
      rewrite <- Hb. by rewrite ztake_zdrop.
Qed.

(** A truncated string is no longer than asked, ends with the mark, and keeps the
    beginning; a string that fits is left alone. *)
Theorem truncate_fits n t s :
  0 < n -> zlen t <= n ->
  zlen (truncate (Some n) (Some t) s) <= n
  /\ (zlen s <= n -> truncate (Some n) (Some t) s = s)
  /\ (n < zlen s -> exists r, s = ztake (n - zlen t) s ++ r
        /\ truncate (Some n) (Some t) s = ztake (n - zlen t) s ++ t).
Proof.
  intros Hn Ht. unfold truncate. rewrite (proj2 (Z.eqb_neq n 0)) by lia.
  change (default (js "...") (Some t)) with t.
  destruct (Z.ltb_spec n (zlen s)).
  - rewrite slice_0_id by jslia. split_and!.
    + rewrite zlen_app, zlen_ztake_le by jslia. lia.
    + lia.
    + intros _. exists (zdrop (n - zlen t) s). by rewrite ztake_zdrop.
  - split_and!; [done | done | lia].
Qed.

Lemma truncate_fits_witness :
  0 < 10 /\ truncate (Some 10) (Some (js "...")) (js "A long subject line") = js "A long ...".
Proof.
  split; [done|]. destruct (truncate_fits 10 (js "...") (js "A long subject line")) as (_ & _ & H);
    [done | by vm_compute |]. destruct H as (r & _ & ->); [by vm_compute|]. by vm_compute.
Defined.

(** ** Lists of words *)
Definition dense (w : jstring) : Prop := w <> [] /\ forall c, c ∈ w -> is_white c = false.

Lemma drop_white_dense w s : dense w -> drop_white (w ++ s) = w ++ s.
Proof.
  intros [Hne Hw]. destruct w as [|c w]; [done|]. unfold drop_white. cbn [app span].
  by rewrite Hw by apply list_elem_of_here.
Qed.

Lemma strip_dense w : dense w -> strip w = w.
Proof.
  intros H. unfold strip. rewrite <- (app_nil_r w), drop_white_dense, app_nil_r by done.
  assert (dense (rev w)) as Hr.
  { destruct H as [Hne Hw]. split.
    - destruct w as [|c w]; [done|]. cbn [rev]. by destruct (rev w).
    - intros c Hc. apply Hw. apply list_elem_of_In in Hc. apply list_elem_of_In. by apply in_rev. }
  rewrite <- (app_nil_r (rev w)), drop_white_dense, app_nil_r by done. apply rev_involutive.
Qed.

Lemma dense_rev w : dense w -> dense (rev w).
Proof.
  intros [Hne Hw]. split.
  - destruct w as [|c w]; [done|]. cbn [rev]. by destruct (rev w).
  - intros c Hc. apply Hw. apply list_elem_of_In in Hc. apply list_elem_of_In. by apply in_rev.
Qed.

Lemma split_word w cur s b :
  dense w -> split_white cur (w ++ s) b = split_white (cur ++ w) s false.
Proof.
  intros [Hne Hw]. revert cur b. induction w as [|c w IH]; intros cur b; [done|]. cbn [app split_white].
  rewrite Hw by apply list_elem_of_here.
  destruct w as [|d w]; [done|]. rewrite IH; [by rewrite <- app_assoc | done |].
  intros x Hx. by apply Hw, list_elem_of_further.
Qed.

Lemma join_space w v ws : join [c_space] (w :: v :: ws) = w ++ c_space :: join [c_space] (v :: ws).
Proof. done. Qed.

Lemma split_words w ws cur b :
  dense w -> Forall dense ws ->
  split_white cur (join [c_space] (w :: ws)) b = (cur ++ w) :: ws.
Proof.
  intros Hw Hws. revert w cur b Hw. induction Hws as [|v ws Hv Hws IH]; intros w cur b Hw.
  - cbn [join]. rewrite <- (app_nil_r w) at 1. rewrite split_word by done. done.
  - rewrite join_space, split_word by done. cbn [split_white]. change (is_white c_space) with true.
    cbn [app]. by rewrite IH.
Qed.

Lemma join_ends w ws : dense w -> Forall dense ws -> exists a v, join [c_space] (w :: ws) = a ++ v /\ dense v.
Proof.
  intros Hw Hws. revert w Hw. induction Hws as [|v ws Hv Hws IH]; intros w Hw.
  - exists [], w. done.
  - destruct (IH v Hv) as (a & u & E & Hu). exists (w ++ c_space :: a), u.
    rewrite join_space, E. by rewrite <- app_assoc.
Qed.

(** [$w] reads back the words of a text that joins them with spaces. *)
Theorem words_roundtrip ws : Forall dense ws -> dollar_w (join [c_space] ws) = ws.
Proof.
  destruct ws as [|w ws]; [done|]. intros [Hw Hws]%Forall_cons.
  assert (strip (join [c_space] (w :: ws)) = join [c_space] (w :: ws)) as E.
  { unfold strip. assert (exists r, join [c_space] (w :: ws) = w ++ r) as [r Hr].
    { destruct ws as [|v ws]; [exists []; by rewrite app_nil_r|]. rewrite join_space. eauto. }
    rewrite Hr at 1. rewrite drop_white_dense, <- Hr by done.
    destruct (join_ends w ws Hw Hws) as (a & v & -> & Hv).
    rewrite rev_app_distr, drop_white_dense by by apply dense_rev.
    by rewrite rev_app_distr, !rev_involutive. }
  unfold dollar_w. rewrite E. destruct (join [c_space] (w :: ws)) as [|c s] eqn:Ej.
  - destruct Hw as [Hne _]. destruct w; [done|]. by destruct ws.
  - rewrite <- Ej. by apply split_words.
Qed.

Lemma words_roundtrip_witness : dollar_w (js "abs round ceil floor") = [js "abs"; js "round"; js "ceil"; js "floor"].
Proof.
  apply (words_roundtrip [js "abs"; js "round"; js "ceil"; js "floor"]).
  repeat apply Forall_cons_2; [..|apply Forall_nil_2];
    (split; [done|]; intros c Hc; repeat (apply elem_of_cons in Hc as [->|Hc]; [done|]); by apply elem_of_nil in Hc).
Defined.
End Str.
