(* ===== verification/JsUri.v ===== *)
(** * URI encoding of the language

    [encodeURIComponent] and [decodeURIComponent]: a text becomes the UTF-8
    octets of its characters, every octet that is not an unreserved character
    written as [%XX].  Both throw on malformed input: a surrogate without its
    partner, or octets that are not the encoding of a character. *)
From S2P Require Import Prelude JsString ProtoText.

Module Uri.
Import Text.

Notation c_percent := 37.

(** Letters, digits and the marks [-_.!~*'()]. *)
Definition unreserved (c : Z) : bool :=
  is_digit c || is_upper c || is_lower c || bool_decide (c ∈ js "-_.!~*'()").

Definition hex_digit (n : Z) : Z := if n <? 10 then 48 + n else 55 + n.
Definition hex_val (c : Z) : option Z :=
  if is_digit c then Some (c - 48)
  else if (65 <=? c) && (c <=? 70) then Some (c - 55)
  else if (97 <=? c) && (c <=? 102) then Some (c - 87)
  else None.

Definition octet (b : Z) : jstring := [c_percent; hex_digit (b / 16); hex_digit (b mod 16)].

(** The octets of a character. *)
Definition utf8 (v : Z) : list Z :=
  if v <? 128 then [v]
  else if v <? 2048 then [192 + v / 64; 128 + v mod 64]
  else if v <? 65536 then [224 + v / 4096; 128 + v / 64 mod 64; 128 + v mod 64]
  else [240 + v / 262144; 128 + v / 4096 mod 64; 128 + v / 64 mod 64; 128 + v mod 64].

Definition high_surrogate (c : Z) : bool := (55296 <=? c) && (c <=? 56319).
Definition low_surrogate (c : Z) : bool := (56320 <=? c) && (c <=? 57343).
Definition pair_value (c d : Z) : Z := (c - 55296) * 1024 + (d - 56320) + 65536.

Definition escaped (v : Z) : jstring := concat (map octet (utf8 v)).

Fixpoint encodeURIComponent (s : jstring) : outcome jstring :=
  match s with
  | [] => mret []
  | c :: r =>
      if unreserved c then r ← encodeURIComponent r; mret (c :: r)
      else if low_surrogate c then Throws
      else if high_surrogate c then
        match r with
        | d :: r =>
            if low_surrogate d then r ← encodeURIComponent r; mret (escaped (pair_value c d) ++ r)
            else Throws
        | [] => Throws
        end
      else r ← encodeURIComponent r; mret (escaped c ++ r)
  end.

(** [%XX] at the front of a text. *)
Definition read_octet (s : jstring) : option (Z * jstring) :=
  match s with
  | p :: a :: b :: r =>
      if p =? c_percent then
        x ← hex_val a; y ← hex_val b; Some (x * 16 + y, r)
      else None
  | _ => None
  end.

(** The next [n] octets, each the continuation of a character: their bits. *)
Fixpoint continuation (n : nat) (v : Z) (s : jstring) : option (Z * jstring) :=
  match n with
  | O => Some (v, s)
  | S n =>
      '(b, s) ← read_octet s;
      if (128 <=? b) && (b <? 192) then continuation n (v * 64 + (b - 128)) s else None
  end.

(** The code units of a character; [least] is the first that needs so many
    octets. *)
Definition units (least v : Z) : option jstring :=
  if v <? least then None
  else if v <? 65536 then if high_surrogate v || low_surrogate v then None else Some [v]
  else if v <=? 1114111 then Some [55296 + (v - 65536) / 1024; 56320 + (v - 65536) mod 1024]
  else None.

(** One character, plain or escaped, of a nonempty text. *)
Definition read_char (s : jstring) : option (jstring * jstring) :=
  match s with
  | [] => None
  | c :: r =>
      if c =? c_percent then
        '(b, r) ← read_octet s;
        if b <? 128 then Some ([b], r)
        else
          '(n, v, least) ←
            (if b <? 192 then None
             else if b <? 224 then Some (1%nat, b - 192, 128)
             else if b <? 240 then Some (2%nat, b - 224, 2048)
             else if b <? 248 then Some (3%nat, b - 240, 65536)
             else None);
          '(v, r) ← continuation n v r;
          u ← units least v;
          Some (u, r)
      else Some ([c], r)
  end.

(** Every character takes a code unit of the text. *)
Fixpoint decode_loop (fuel : nat) (s : jstring) : outcome jstring :=
  match s, fuel with
  | [], _ => mret []
  | _, O => Diverges
  | _, S fuel =>
      match read_char s with
      | Some (u, r) => t ← decode_loop fuel r; mret (u ++ t)
      | None => Throws
      end
  end.
Definition decodeURIComponent (s : jstring) : outcome jstring := decode_loop (length s) s.

(** ** Round trip *)
Definition unit16 (c : Z) : Prop := 0 <= c < 65536.

Lemma hex_digit_val n : 0 <= n < 16 -> hex_val (hex_digit n) = Some n.
Proof.
  intros H. unfold hex_digit, hex_val, is_digit.
  repeat case_match; simplify_eq; try (f_equal; lia); exfalso;
    rewrite ?andb_true_iff, ?andb_false_iff, ?Z.leb_le, ?Z.leb_gt, ?Z.ltb_lt, ?Z.ltb_ge in *; lia.
Qed.

Lemma read_octet_octet b r : 0 <= b < 256 -> read_octet (octet b ++ r) = Some (b, r).
Proof.
  intros H. unfold octet. cbn [app read_octet]. rewrite Z.eqb_refl.
  rewrite !hex_digit_val by (Z.to_euclidean_division_equations; lia). cbn.
  do 2 f_equal. Z.to_euclidean_division_equations; lia.
Qed.

(** A character that is not half of a surrogate pair. *)
Definition scalar (v : Z) : Prop := 0 <= v <= 1114111 /\ (v < 55296 \/ 57343 < v).
Definition units_of (v : Z) : jstring :=
  if v <? 65536 then [v] else [55296 + (v - 65536) / 1024; 56320 + (v - 65536) mod 1024].

Lemma continuation_step n v b r :
  0 <= b < 64 -> continuation (S n) v (octet (128 + b) ++ r) = continuation n (v * 64 + b) r.
Proof.
  intros H. cbn [continuation]. rewrite read_octet_octet by lia. cbn.
  rewrite (proj2 (Z.leb_le 128 (128 + b))), (proj2 (Z.ltb_lt (128 + b) 192)) by lia. cbn.
  f_equal. lia.
Qed.

Lemma units_scalar least v : scalar v -> least <= v -> units least v = Some (units_of v).
Proof.
  intros [Hv Hs] Hl. unfold units, units_of, high_surrogate, low_surrogate.
  rewrite (proj2 (Z.ltb_ge v least)) by lia.
  destruct (Z.ltb_spec v 65536).
  - destruct ((55296 <=? v) && (v <=? 56319) || (56320 <=? v) && (v <=? 57343)) eqn:E; [|done].
    rewrite orb_true_iff, !andb_true_iff, !Z.leb_le in E. lia.
  - by rewrite (proj2 (Z.leb_le v 1114111)) by lia.
Qed.

Ltac decide_octet :=
  repeat match goal with
  | |- context [?a <? ?b] =>
      (rewrite (proj2 (Z.ltb_lt a b)) by (Z.to_euclidean_division_equations; lia))
      || (rewrite (proj2 (Z.ltb_ge a b)) by (Z.to_euclidean_division_equations; lia))
  end.

Lemma read_char_lead b r :
  0 <= b < 256 -> read_char (octet b ++ r)
  = if b <? 128 then Some ([b], r)
    else
      '(n, v, least) ←
        (if b <? 192 then None
         else if b <? 224 then Some (1%nat, b - 192, 128)
         else if b <? 240 then Some (2%nat, b - 224, 2048)
         else if b <? 248 then Some (3%nat, b - 240, 65536)
         else None);
      '(v, r) ← continuation n v r;
      u ← units least v;
      Some (u, r).
Proof.
  intros H. pose proof (read_octet_octet b r H) as E. unfold octet in *. cbn [app read_char] in *.
  rewrite Z.eqb_refl, E. done.
Qed.

Lemma read_char_escaped v r : scalar v -> read_char (escaped v ++ r) = Some (units_of v, r).
Proof.
  intros Hs. destruct (Hs) as [Hv _]. unfold escaped, utf8.
  destruct (Z.ltb_spec v 128); [|destruct (Z.ltb_spec v 2048); [|destruct (Z.ltb_spec v 65536)]];
    cbn [map concat]; rewrite <- ?app_assoc; rewrite read_char_lead
      by (Z.to_euclidean_division_equations; lia); decide_octet; cbn [mbind option_bind].
  - unfold units_of. by rewrite (proj2 (Z.ltb_lt v 65536)) by lia.
  - rewrite continuation_step by (Z.to_euclidean_division_equations; lia). cbn [continuation app mbind option_bind].
    replace ((192 + v / 64 - 192) * 64 + v mod 64) with v by (Z.to_euclidean_division_equations; lia).
    by rewrite units_scalar.
  - rewrite !continuation_step by (Z.to_euclidean_division_equations; lia). cbn [continuation app mbind option_bind].
    replace (((224 + v / 4096 - 224) * 64 + v / 64 mod 64) * 64 + v mod 64) with v
      by (Z.to_euclidean_division_equations; lia).
    by rewrite units_scalar.
  - rewrite !continuation_step by (Z.to_euclidean_division_equations; lia). cbn [continuation app mbind option_bind].
    replace ((((240 + v / 262144 - 240) * 64 + v / 4096 mod 64) * 64 + v / 64 mod 64) * 64 + v mod 64)
      with v by (Z.to_euclidean_division_equations; lia).
    by rewrite units_scalar.
Qed.

Lemma read_octet_shorter s b r : read_octet s = Some (b, r) -> (length r + 3 = length s)%nat.
Proof.
  destruct s as [|p [|a [|c s]]]; cbn; [done..|]. case_match; [|done].
  destruct (hex_val a), (hex_val c); cbn; try done. intros [= _ <-]. lia.
Qed.

Lemma continuation_shorter n v s w r : continuation n v s = Some (w, r) -> (length r <= length s)%nat.
Proof.
  revert v s. induction n as [|n IH]; intros v s; cbn [continuation]; [by intros [= _ <-]|].
  destruct (read_octet s) as [[b s']|] eqn:E; cbn [mbind option_bind]; [|done].
  case_match; [|done]. intros Hc%IH. apply read_octet_shorter in E. lia.
Qed.

Lemma read_char_shorter s u r : read_char s = Some (u, r) -> (length r < length s)%nat.
Proof.
  destruct s as [|c s]; [done|]. unfold read_char. case_match; [|intros [= _ <-]; simpl; lia].
  destruct (read_octet (c :: s)) as [[b t]|] eqn:E; cbn [mbind option_bind]; [|done].
  apply read_octet_shorter in E. case_match; [intros [= _ <-]; lia|].
  match goal with |- context [mbind _ (if ?x then ?y else ?z)] => destruct (if x then y else z) as [[[n v] least]|] end;
    cbn [mbind option_bind]; [|done].
  destruct (continuation n v t) as [[w t']|] eqn:Ec; cbn [mbind option_bind]; [|done].
  apply continuation_shorter in Ec. destruct (units least w); cbn [mbind option_bind]; [|done].
  intros [= _ <-]. lia.
Qed.

Lemma decode_fuel f g s :
  (length s <= f)%nat -> (length s <= g)%nat -> decode_loop f s = decode_loop g s.
Proof.
  revert g s. induction f as [|f IH]; intros g s Hf Hg.
  - destruct s; [by destruct g | simpl in Hf; lia].
  - destruct s as [|c s]; [by destruct g|]. destruct g as [|g]; [simpl in Hg; lia|].
    cbn [decode_loop]. destruct (read_char (c :: s)) as [[u r]|] eqn:E; [|done].
    apply read_char_shorter in E. simpl in *. by rewrite (IH g r) by lia.
Qed.

Lemma decode_step s u r :
  read_char s = Some (u, r) ->
  decodeURIComponent s = t ← decodeURIComponent r; mret (u ++ t).
Proof.
  intros E. pose proof (read_char_shorter _ _ _ E) as Hl. unfold decodeURIComponent.
  destruct s as [|c s]; [done|]. cbn [length decode_loop]. rewrite E.
  by rewrite (decode_fuel (length s) (length r) r) by (simpl in *; lia).
Qed.

(** Every text comes to an end. *)
Lemma decode_ends s : decodeURIComponent s <> Diverges.
Proof.
  unfold decodeURIComponent. generalize (le_n (length s)). generalize (length s) at 2 3 as f.
  intros f. revert s. induction f as [|f IH]; intros s Hf; [by destruct s; simpl in Hf; [|lia]|].
  destruct s as [|c s]; [done|]. cbn [decode_loop].
  destruct (read_char (c :: s)) as [[u r]|] eqn:E; [|done]. apply read_char_shorter in E.
  specialize (IH r ltac:(simpl in *; lia)). by destruct (decode_loop f r).
Qed.

Lemma pair_scalar c d :
  high_surrogate c = true -> low_surrogate d = true ->
  scalar (pair_value c d) /\ units_of (pair_value c d) = [c; d].
Proof.
  unfold high_surrogate, low_surrogate. rewrite !andb_true_iff, !Z.leb_le. intros Hc Hd.
  unfold scalar, units_of, pair_value. split; [lia|].
  rewrite (proj2 (Z.ltb_ge _ _)) by lia. do 2 f_equal; [|f_equal]; Z.to_euclidean_division_equations; lia.
Qed.

Lemma unit_scalar c :
  unit16 c -> high_surrogate c = false -> low_surrogate c = false -> scalar c /\ units_of c = [c].
Proof.
  unfold unit16, high_surrogate, low_surrogate. rewrite !andb_false_iff, !Z.leb_gt. intros H H1 H2.
  unfold scalar, units_of. rewrite (proj2 (Z.ltb_lt c 65536)) by lia. split; [lia | done].
Qed.

Lemma encode_cases s e (P : jstring -> jstring -> Prop) :
  P [] [] ->
  (forall c s e, unreserved c = true -> encodeURIComponent s = Returns e -> P s e -> P (c :: s) (c :: e)) ->
  (forall u v s e, scalar v -> units_of v = u -> encodeURIComponent s = Returns e -> P s e ->
     P (u ++ s) (escaped v ++ e)) ->
  Forall unit16 s -> encodeURIComponent s = Returns e -> P s e.
Proof.
  intros H0 H1 H2. revert e. induction s as [s IH] using (induction_ltof1 _ (@length Z)). unfold ltof in IH.
  intros e Hs. destruct s as [|c s]; cbn [encodeURIComponent]; [by intros [= <-]|].
  apply Forall_cons in Hs as [Hc Hs]. destruct (unreserved c) eqn:Eu.
  { destruct (encodeURIComponent s) as [e'| |] eqn:E; cbn; try done. intros [= <-].
    apply H1; [done | done |]. apply IH; [simpl; lia | done | done]. }
  destruct (low_surrogate c) eqn:El; [done|]. destruct (high_surrogate c) eqn:Eh.
  - destruct s as [|d s]; [done|]. destruct (low_surrogate d) eqn:Ed; [|done].
    apply Forall_cons in Hs as [Hd Hs]. destruct (pair_scalar c d Eh Ed) as [Hv Hu].
    destruct (encodeURIComponent s) as [e'| |] eqn:E; cbn; try done. intros [= <-].
    apply (H2 [c; d]); [done..|]. apply IH; [simpl; lia | done | done].
  - destruct (unit_scalar c Hc Eh El) as [Hv Hu].
    destruct (encodeURIComponent s) as [e'| |] eqn:E; cbn; try done. intros [= <-].
    apply (H2 [c]); [done..|]. apply IH; [simpl; lia | done | done].
Qed.

Lemma decode_encode s e :
  Forall unit16 s -> encodeURIComponent s = Returns e -> decodeURIComponent e = Returns s.
Proof.
  intros Hs He. revert Hs He. apply (encode_cases s e (fun s e => decodeURIComponent e = Returns s)).
  - done.
  - clear. intros c s e Hc _ IH. rewrite (decode_step _ [c] e), IH; [done|]. unfold read_char.
    rewrite (proj2 (Z.eqb_neq c c_percent)); [done|]. by intros ->.
  - clear. intros u v s e Hv <- _ IH. by rewrite (decode_step _ _ _ (read_char_escaped v e Hv)), IH.
Qed.

(** Characters of an encoded text. *)
Definition uri_char (c : Z) : bool := unreserved c || (c =? c_percent).

Lemma hex_digit_unreserved n : 0 <= n < 16 -> uri_char (hex_digit n) = true.
Proof.
  intros H. unfold hex_digit, uri_char, unreserved, is_digit, is_upper.
  destruct (Z.ltb_spec n 10).
  - by rewrite (proj2 (Z.leb_le 48 (48 + n))), (proj2 (Z.leb_le (48 + n) 57)) by lia.
  - rewrite (proj2 (Z.leb_le 65 (55 + n))), (proj2 (Z.leb_le (55 + n) 90)) by lia.
    by rewrite orb_true_r.
Qed.

Lemma utf8_bytes v : scalar v -> Forall (fun b => 0 <= b < 256) (utf8 v).
Proof.
  intros [Hv _]. unfold utf8. repeat case_match; repeat apply Forall_cons_2; try apply Forall_nil_2;
    rewrite ?Z.ltb_lt, ?Z.ltb_ge in *; Z.to_euclidean_division_equations; lia.
Qed.

Lemma encode_chars s e :
  Forall unit16 s -> encodeURIComponent s = Returns e -> forallb uri_char e = true.
Proof.
  intros Hs He. revert Hs He. apply (encode_cases s e (fun s e => forallb uri_char e = true)).
  - done.
  - clear. intros c s e Hc _ IH. cbn [forallb]. unfold uri_char at 1. by rewrite Hc.
  - clear. intros u v s e Hv _ _ IH. rewrite forallb_app, IH, andb_true_r. unfold escaped.
    pose proof (utf8_bytes v Hv) as Hb. induction Hb as [|b l Hb _ IHb]; [done|].
    cbn [map concat]. rewrite forallb_app, IHb, andb_true_r. unfold octet. cbn [forallb].
    by rewrite !hex_digit_unreserved by (Z.to_euclidean_division_equations; lia).
Qed.

#[global] Arguments encodeURIComponent _ : simpl never.
#[global] Arguments decodeURIComponent _ : simpl never.
End Uri.
