(* ===== verification/ProtoQuery.v ===== *)
(** * Hashes and query strings of Prototype

    A [Hash] wraps an object: its own properties in the order in which they were
    added, which is the order of enumeration.  [toQueryString] and
    [toQueryParams] translate between objects and the query part of an address;
    Ajax requests pass through both. *)
From S2P Require Import Prelude JsString Json ProtoText ProtoStr JsUri.

Module Query.
Import Text Str Uri.

(** ** Objects *)
Definition object := list (jstring * Json.jval).

(** [o[k] = v]: an own property keeps its place. *)
Fixpoint set_own (k : jstring) (v : Json.jval) (o : object) : object :=
  match o with
  | [] => [(k, v)]
  | (k', v') :: o => if bool_decide (k = k') then (k, v) :: o else (k', v') :: set_own k v o
  end.

Fixpoint delete_own (k : jstring) (o : object) : object :=
  match o with
  | [] => []
  | (k', v') :: o => if bool_decide (k = k') then o else (k', v') :: delete_own k o
  end.

(** The members of [Object.prototype]; all but [__proto__] are functions.  What a
    parameter of that name does to the prototype of the hash is left out. *)
Definition proto_keys : list jstring :=
  [js "constructor"; js "toString"; js "toLocaleString"; js "valueOf"; js "hasOwnProperty";
   js "isPrototypeOf"; js "propertyIsEnumerable"; js "__proto__"; js "__defineGetter__"; js "__defineSetter__";
   js "__lookupGetter__"; js "__lookupSetter__"].

Section Query.
(** The source texts of these functions, which the engine chooses. *)
Variable builtin : jstring -> jstring.

Definition inherited (k : jstring) : option Json.jval :=
  if bool_decide (k ∈ proto_keys) then Some (Json.VFun (builtin k)) else None.

(** [o[k]] and [k in o] *)
Definition get_any (k : jstring) (o : object) : option Json.jval :=
  match assoc k o with Some v => Some v | None => inherited k end.

(** ** Hash *)

(** src/piql/scadr/src/main/rails/public/javascripts/prototype.js:1005-1007
    [initialize(object)]: a copy of the enumerable properties. *)
Definition initialize (o : object) : object := fold_left (fun h p => set_own p.1 p.2 h) o [].

(** src/piql/scadr/src/main/rails/public/javascripts/prototype.js:1018-1020
    [set(key, value)]: the hash, and the value. *)
Definition set (key : jstring) (value : Json.jval) (h : object) : object * Json.jval :=
  (set_own key value h, value).

(** src/piql/scadr/src/main/rails/public/javascripts/prototype.js:1022-1026
    [get(key)]: [None] is [undefined]; a value identical to the inherited member
    is taken for it. *)
Definition get (key : jstring) (h : object) : option Json.jval :=
  match assoc key h, inherited key with
  | Some (Json.VFun s), Some (Json.VFun s') =>
      if bool_decide (s = s') then None else Some (Json.VFun s)
  | v, _ => v
  end.

(** src/piql/scadr/src/main/rails/public/javascripts/prototype.js:1028-1032
    [unset(key)]: the hash, and the value it had. *)
Definition unset (key : jstring) (h : object) : object * option Json.jval :=
  (delete_own key h, get_any key h).

(** src/piql/scadr/src/main/rails/public/javascripts/prototype.js:1034-1036
    [toObject()] *)
Definition toObject (h : object) : object := initialize h.

(** src/piql/scadr/src/main/rails/public/javascripts/prototype.js:1038-1040
    [keys()] *)
Definition keys (h : object) : list jstring := map fst h.

(** src/piql/scadr/src/main/rails/public/javascripts/prototype.js:1042-1044
    [values()] *)
Definition values (h : object) : list Json.jval := map snd h.

(** src/piql/scadr/src/main/rails/public/javascripts/prototype.js:1057-1062
    [update(object)] *)
Definition update (o : object) (h : object) : object :=
  fold_left (fun result pair => (set pair.1 pair.2 result).1) (initialize o) h.

(** src/piql/scadr/src/main/rails/public/javascripts/prototype.js:1086-1088
    [clone()] *)
Definition clone (h : object) : object := initialize h.

(** src/piql/scadr/src/main/rails/public/javascripts/prototype.js:1053-1055
    [merge(object)] *)
Definition merge (o : object) (h : object) : object := update o (clone h).

(** src/piql/scadr/src/main/rails/public/javascripts/prototype.js:999-1002
    [toQueryPair(key, value)] *)
Definition toQueryPair (key : jstring) (value : Json.jval) : outcome jstring :=
  match value with
  | Json.VUndef => mret key
  | _ => e ← encodeURIComponent (interpret value); mret (key ++ c_eq :: e)
  end.

(** src/piql/scadr/src/main/rails/public/javascripts/prototype.js:1064-1074
    [toQueryString()]: the pairs of one property. *)
Definition query_pairs (pair : jstring * Json.jval) : outcome (list jstring) :=
  key ← encodeURIComponent pair.1;
  match pair.2 with
  | Json.VArr values => mapM_out (toQueryPair key) values
  | Json.VObj _ => mret []
  | value => p ← toQueryPair key value; mret [p]
  end.

(** src/piql/scadr/src/main/rails/public/javascripts/prototype.js:1064-1074
    [toQueryString()] *)
Definition toQueryString (h : object) : outcome jstring :=
  pairs ← mapM_out query_pairs h; mret (join [c_amp] (concat pairs)).

(** ** Reading a query *)

(** The first group of the pattern of line 420, characters other than the
    question mark and the hash, then perhaps a fragment, then the end: the first
    position from which the pattern reaches the end of the text. *)
Fixpoint query_part (s : jstring) : jstring :=
  let '(a, r) := span (fun c => negb ((c =? 63) || (c =? c_hash))) s in
  match r with
  | [] => a
  | c :: t =>
      if (c =? c_hash) && forallb (fun x => negb (is_lineterm x)) t then a
      else match s with [] => [] | _ :: s => query_part s end
  end.

(** src/piql/scadr/src/main/rails/public/javascripts/prototype.js:429-433
    [toQueryParams(separator)]: a value for a key. *)
Definition push_value (hash : object) (key : jstring) (value : Json.jval) : object :=
  match get_any key hash with
  | Some (Json.VArr l) => set_own key (Json.VArr (l ++ [value])) hash
  | Some v => set_own key (Json.VArr [v; value]) hash
  | None => set_own key value hash
  end.

(** src/piql/scadr/src/main/rails/public/javascripts/prototype.js:423-435
    [toQueryParams(separator)]: what one pair does to the object. *)
Definition read_pair (hash : object) (pair : jstring) : outcome object :=
  match split_char c_eq pair with
  | [] | [] :: _ => mret hash
  | k :: rest =>
      key ← decodeURIComponent k;
      value ←
        match rest with
        | [] => mret Json.VUndef
        | [v] => v ← decodeURIComponent v; mret (Json.VStr v)
        | _ => v ← decodeURIComponent (join [c_eq] rest); mret (Json.VStr v)
        end;
      mret (push_value hash key value)
  end.

Fixpoint fold_out {A B} (f : A -> B -> outcome A) (l : list B) (a : A) : outcome A :=
  match l with
  | [] => mret a
  | x :: l => a ← f a x; fold_out f l a
  end.

(** src/piql/scadr/src/main/rails/public/javascripts/prototype.js:419-437
    [toQueryParams(separator)], for a separator of one character. *)
Definition toQueryParams (separator : option Z) (this : jstring) : outcome object :=
  fold_out read_pair (split_char (default c_amp separator) (query_part (strip this))) [].
End Query.

(** ** Round trip *)

(** The texts that a property is sent as; [None] is a key without a value. *)
Definition text1 (v : Json.jval) : option jstring :=
  match v with Json.VUndef => None | _ => Some (interpret v) end.
Definition texts (v : Json.jval) : list (option jstring) :=
  match v with
  | Json.VArr l => map text1 l
  | Json.VObj _ => []
  | _ => [text1 v]
  end.

(** What is read back: strings, an array when there are several values. *)
Definition val_of (t : option jstring) : Json.jval :=
  match t with Some s => Json.VStr s | None => Json.VUndef end.
Definition received (p : jstring * Json.jval) : object :=
  match texts p.2 with
  | [] => []
  | [t] => [(p.1, val_of t)]
  | ts => [(p.1, Json.VArr (map val_of ts))]
  end.

Definition text_ok (t : option jstring) : Prop :=
  match t with Some s => Forall unit16 s | None => True end.
Definition property_ok (p : jstring * Json.jval) : Prop :=
  p.1 <> [] /\ p.1 ∉ proto_keys /\ Forall unit16 p.1 /\ Forall text_ok (texts p.2).

(** The pair of an encoded key and a text. *)
Definition pair_of (ek : jstring) (t : option jstring) (p : jstring) : Prop :=
  match t with
  | None => p = ek
  | Some s => exists e, encodeURIComponent s = Returns e /\ p = ek ++ c_eq :: e
  end.

Lemma toQueryPair_of ek v p : toQueryPair ek v = Returns p -> pair_of ek (text1 v) p.
Proof.
  destruct v; unfold toQueryPair, text1, pair_of; [by intros [= <-]|..];
    match goal with |- context [encodeURIComponent ?x] => generalize x; intros t end;
    destruct (encodeURIComponent t) as [e| |] eqn:E; try done; intros [= <-]; by exists e.
Qed.

Lemma mapM_pairs ek l ps :
  mapM_out (toQueryPair ek) l = Returns ps -> Forall2 (pair_of ek) (map text1 l) ps.
Proof.
  revert ps. induction l as [|v l IH]; intros ps; cbn [mapM_out map]; [intros [= <-]; constructor|].
  destruct (toQueryPair ek v) as [p| |] eqn:E; cbn; try done.
  destruct (mapM_out (toQueryPair ek) l) as [ps'| |]; cbn; try done. intros [= <-].
  constructor; [by apply toQueryPair_of | by apply IH].
Qed.

Lemma query_pairs_of k v ps :
  query_pairs (k, v) = Returns ps ->
  exists ek, encodeURIComponent k = Returns ek /\ Forall2 (pair_of ek) (texts v) ps.
Proof.
  unfold query_pairs. cbn [fst snd]. destruct (encodeURIComponent k) as [ek| |]; cbn [mbind outcome_bind]; try done.
  intros H. exists ek. split; [done|]. unfold texts.
  assert (forall v, (p ← toQueryPair ek v; mret [p]) = Returns ps -> Forall2 (pair_of ek) [text1 v] ps) as Hone.
  { clear. intros v. destruct (toQueryPair ek v) as [p| |] eqn:E; try done. intros [= <-].
    repeat constructor. by apply toQueryPair_of. }
  destruct v; try by apply Hone.
  - by apply mapM_pairs.
  - injection H as <-. constructor.
Qed.

(** Characters of a query. *)
Definition query_char (c : Z) : bool := uri_char c || (c =? c_eq) || (c =? c_amp).

Lemma uri_char_not c d : uri_char c = true -> uri_char d = false -> c <> d.
Proof. intros H1 H2 ->. congruence. Qed.

Lemma uri_absent d s : forallb uri_char s = true -> uri_char d = false -> d ∉ s.
Proof.
  rewrite forallb_forall. intros Hs Hd Hin. apply list_elem_of_In in Hin. by rewrite (Hs d Hin) in Hd.
Qed.

Lemma encode_nonempty k ek :
  Forall unit16 k -> encodeURIComponent k = Returns ek -> k <> [] -> ek <> [].
Proof. intros Hk E Hne ->. apply decode_encode in E; [|done]. by injection E as <-. Qed.

Section read.
Variable builtin : jstring -> jstring.
Abbreviation push_value := (push_value builtin).

Lemma read_pair_of hash k ek t p :
  k <> [] -> Forall unit16 k -> encodeURIComponent k = Returns ek -> text_ok t -> pair_of ek t p ->
  read_pair builtin hash p = Returns (push_value hash k (val_of t)).
Proof.
  intros Hne Hk Ek Ht Hp.
  assert (ek <> []) as Hek by by eapply encode_nonempty.
  assert (c_eq ∉ ek) as Heq by (eapply uri_absent; [by eapply encode_chars | done]).
  unfold read_pair. destruct t as [s|]; cbn [pair_of] in Hp.
  - destruct Hp as (e & Ee & ->).
    assert (c_eq ∉ e) as He by (eapply uri_absent; [by eapply encode_chars | done]).
    rewrite split_char_app_sep, split_char_none by done. destruct ek as [|x ek]; [done|].
    rewrite (decode_encode k _ Hk Ek). cbn [mbind outcome_bind].
    by rewrite (decode_encode s e Ht Ee).
  - subst p. rewrite split_char_none by done. destruct ek as [|x ek]; [done|].
    by rewrite (decode_encode k _ Hk Ek).
Qed.

Definition push_all (hash : object) (k : jstring) (ts : list (option jstring)) : object :=
  fold_left (fun h t => push_value h k (val_of t)) ts hash.

Lemma read_pairs_of hash k ek ts ps :
  k <> [] -> Forall unit16 k -> encodeURIComponent k = Returns ek -> Forall text_ok ts ->
  Forall2 (pair_of ek) ts ps ->
  fold_out (read_pair builtin) ps hash = Returns (push_all hash k ts).
Proof.
  intros Hne Hk Ek Hts HF. revert hash Hts. induction HF as [|t p ts ps Hp _ IH]; intros hash Hts; [done|].
  apply Forall_cons in Hts as [Ht Hts]. cbn [fold_out].
  rewrite (read_pair_of hash k ek t p) by done. cbn [mbind outcome_bind]. by rewrite IH.
Qed.

Lemma fold_out_app {A B} (f : A -> B -> outcome A) l l' a :
  fold_out f (l ++ l') a = b ← fold_out f l a; fold_out f l' b.
Proof.
  revert a. induction l as [|x l IH]; intros a; [done|]. cbn [app fold_out].
  destruct (f a x); cbn [mbind outcome_bind]; [apply IH | done..].
Qed.

Lemma assoc_absent k (h : object) : k ∉ map fst h -> assoc k h = None.
Proof.
  induction h as [|[k' v] h IH]; [done|]. cbn [map fst assoc]. intros [Hk Hh]%not_elem_of_cons.
  by rewrite bool_decide_eq_false_2, IH.
Qed.
Lemma assoc_last k v (h : object) : k ∉ map fst h -> assoc k (h ++ [(k, v)]) = Some v.
Proof.
  induction h as [|[k' v'] h IH]; cbn [app map fst assoc].
  - by rewrite bool_decide_eq_true_2.
  - intros [Hk Hh]%not_elem_of_cons. by rewrite bool_decide_eq_false_2, IH.
Qed.
Lemma set_own_absent k v (h : object) : k ∉ map fst h -> set_own k v h = h ++ [(k, v)].
Proof.
  induction h as [|[k' v'] h IH]; [done|]. cbn [app map fst set_own]. intros [Hk Hh]%not_elem_of_cons.
  by rewrite bool_decide_eq_false_2, IH.
Qed.
Lemma set_last k v w (h : object) : k ∉ map fst h -> set_own k w (h ++ [(k, v)]) = h ++ [(k, w)].
Proof.
  induction h as [|[k' v'] h IH]; cbn [app map fst set_own].
  - by rewrite bool_decide_eq_true_2.
  - intros [Hk Hh]%not_elem_of_cons. by rewrite bool_decide_eq_false_2, IH.
Qed.

(** The values of one key, one after the other. *)
Lemma push_array k l ts (h : object) :
  k ∉ map fst h ->
  push_all (h ++ [(k, Json.VArr l)]) k ts = h ++ [(k, Json.VArr (l ++ map val_of ts))].
Proof.
  intros Hk. revert l. induction ts as [|t ts IH]; intros l; [by rewrite app_nil_r|].
  unfold push_all in *. cbn [fold_left map].
  assert (push_value (h ++ [(k, Json.VArr l)]) k (val_of t) = h ++ [(k, Json.VArr (l ++ [val_of t]))]) as ->.
  { unfold Query.push_value, get_any. by rewrite assoc_last, set_last. }
  by rewrite IH, <- app_assoc.
Qed.

Lemma push_key k v (h : object) :
  k ∉ map fst h -> k ∉ proto_keys -> push_all h k (texts v) = h ++ received (k, v).
Proof.
  intros Hk Hp. unfold received. cbn [fst snd].
  destruct (texts v) as [|t [|u ts]]; [by rewrite app_nil_r|..];
    unfold push_all; cbn [fold_left];
    assert (push_value h k (val_of t) = h ++ [(k, val_of t)]) as ->
      by (unfold Query.push_value, get_any, inherited;
          by rewrite assoc_absent, bool_decide_eq_false_2, set_own_absent); [done|].
  assert (push_value (h ++ [(k, val_of t)]) k (val_of u) = h ++ [(k, Json.VArr [val_of t; val_of u])]) as ->.
  { unfold Query.push_value, get_any. rewrite assoc_last, !set_last by done. by destruct t. }
  change (push_all (h ++ [(k, Json.VArr [val_of t; val_of u])]) k ts
    = h ++ [(k, Json.VArr (map val_of (t :: u :: ts)))]).
  by rewrite push_array.
Qed.

Lemma received_keys k v x : x ∈ map fst (received (k, v)) -> x = k.
Proof.
  unfold received. cbn [fst snd]. destruct (texts v) as [|t [|u ts]]; cbn [map fst];
    [by intros ?%elem_of_nil | by intros ?%list_elem_of_singleton..].
Qed.

Lemma read_all h pairs acc :
  mapM_out query_pairs h = Returns pairs ->
  NoDup (map fst h) -> Forall property_ok h -> (forall k, k ∈ map fst h -> k ∉ map fst acc) ->
  fold_out (read_pair builtin) (concat pairs) acc = Returns (acc ++ concat (map received h)).
Proof.
  revert pairs acc. induction h as [|[k v] h IH]; intros pairs acc; cbn [mapM_out map fst].
  - intros [= <-] _ _ _. cbn. by rewrite app_nil_r.
  - destruct (query_pairs (k, v)) as [ps| |] eqn:E; cbn [mbind outcome_bind]; try done.
    destruct (mapM_out query_pairs h) as [pairs'| |] eqn:Eh; cbn [mbind outcome_bind]; try done.
    intros [= <-] [Hk Hnd]%NoDup_cons [Hok Hall]%Forall_cons Hacc.
    destruct Hok as (Hne & Hproto & Hu & Ht). cbn [fst snd] in *.
    destruct (query_pairs_of k v ps E) as (ek & Ek & HF).
    cbn [concat]. rewrite fold_out_app, (read_pairs_of acc k ek (texts v)) by done.
    cbn [mbind outcome_bind]. rewrite push_key by (done || apply Hacc, list_elem_of_here).
    rewrite IH; [by rewrite <- app_assoc | done | done | done |].
    intros x Hx. rewrite map_app. intros [H|H]%elem_of_app.
    + revert H. by apply Hacc, list_elem_of_further.
    + apply received_keys in H as ->. done.
Qed.
End read.

(** ** The query as a text *)
Lemma pair_chars ek t p :
  forallb uri_char ek = true -> text_ok t -> pair_of ek t p ->
  forallb (fun c => uri_char c || (c =? c_eq)) p = true.
Proof.
  assert (forall s, forallb uri_char s = true -> forallb (fun c => uri_char c || (c =? c_eq)) s = true) as H.
  { intros s. rewrite !forallb_forall. intros Hs x Hx. by rewrite (Hs x Hx). }
  intros Hk Ht. destruct t as [s|]; cbn [pair_of].
  - intros (e & Ee & ->). rewrite forallb_app, (H ek Hk). cbn [forallb].
    rewrite (H e) by by eapply encode_chars. by rewrite orb_true_r.
  - intros ->. by apply H.
Qed.

Lemma pairs_chars h pairs p :
  mapM_out query_pairs h = Returns pairs -> Forall property_ok h -> p ∈ concat pairs ->
  forallb (fun c => uri_char c || (c =? c_eq)) p = true.
Proof.
  revert pairs. induction h as [|[k v] h IH]; intros pairs; cbn [mapM_out].
  - intros [= <-] _ Hp. by apply elem_of_nil in Hp.
  - destruct (query_pairs (k, v)) as [ps| |] eqn:E; cbn [mbind outcome_bind]; try done.
    destruct (mapM_out query_pairs h) as [pairs'| |] eqn:Eh; cbn [mbind outcome_bind]; try done.
    intros [= <-] [Hok Hall]%Forall_cons. cbn [concat]. intros [Hp|Hp]%elem_of_app; [|by eapply IH].
    destruct Hok as (_ & _ & Hu & Ht). cbn [fst snd] in *.
    destruct (query_pairs_of k v ps E) as (ek & Ek & HF).
    assert (forallb uri_char ek = true) as Hek by by eapply encode_chars.
    clear -Hp Ht HF Hek. induction HF as [|t q ts ps Hq _ IH]; [by apply elem_of_nil in Hp|].
    apply Forall_cons in Ht as [Ht Hts]. apply elem_of_cons in Hp as [->|Hp]; [|by apply IH].
    by eapply pair_chars.
Qed.

Lemma join_chars (P : Z -> bool) sep ws :
  P sep = true -> (forall w, w ∈ ws -> forallb P w = true) -> forallb P (join [sep] ws) = true.
Proof.
  intros Hs H. destruct ws as [|w ws]; [done|]. rewrite join_concat, forallb_app, (H w) by apply list_elem_of_here.
  cbn [andb]. assert (forall v, v ∈ ws -> forallb P v = true) as H' by (intros v Hv; by apply H, list_elem_of_further).
  clear H. induction ws as [|v ws IH]; [done|]. cbn [map concat]. rewrite forallb_app. cbn [forallb].
  rewrite Hs, (H' v) by apply list_elem_of_here. apply IH. intros u Hu. by apply H', list_elem_of_further.
Qed.

Lemma query_char_dense q : forallb query_char q = true -> q <> [] -> dense q.
Proof.
  intros Hq Hne. split; [done|]. intros c Hc. rewrite forallb_forall in Hq.
  apply list_elem_of_In in Hc. apply Hq in Hc.
  destruct (is_white c) eqn:E; [|done]. exfalso. revert Hc E. unfold query_char, uri_char, unreserved,
    is_white, is_digit, is_upper, is_lower.
  destruct (decide (c ∈ js "-_.!~*'()")) as [Hin|Hin].
  - repeat (apply elem_of_cons in Hin as [->|Hin]; [done|]). by apply elem_of_nil in Hin.
  - rewrite bool_decide_eq_false_2 by done. rewrite !orb_true_iff, !andb_true_iff, !Z.leb_le, !Z.eqb_eq. lia.
Qed.

Lemma query_part_id q : forallb query_char q = true -> query_part q = q.
Proof.
  intros Hq. destruct q as [|c q]; [done|].
  unfold query_part. rewrite span_all; [done|]. rewrite forallb_forall in *. intros x Hx. apply Hq in Hx.
  destruct (Z.eqb_spec x 63) as [->|]; [done|]. by destruct (Z.eqb_spec x c_hash) as [->|].
Qed.

Lemma query_text h q :
  Forall property_ok h -> toQueryString h = Returns q -> forallb query_char q = true.
Proof.
  intros Hok. unfold toQueryString. destruct (mapM_out query_pairs h) as [pairs| |] eqn:E; try done.
  intros [= <-]. apply join_chars; [done|]. intros p Hin. pose proof (pairs_chars h pairs p E Hok Hin) as Hp.
  rewrite forallb_forall in *. intros x Hx. unfold query_char. by rewrite (Hp x Hx).
Qed.

(** Reading a text that ends with a query, after the last question mark. *)
Lemma read_after builtin url q :
  forallb query_char q = true -> dense (url ++ q) -> query_part (url ++ q) = q ->
  toQueryParams builtin None (url ++ q) = toQueryParams builtin None q.
Proof.
  intros Hq Hd Hp. unfold toQueryParams. rewrite strip_dense, Hp by done.
  assert (strip q = q) as ->; [|by rewrite query_part_id].
  destruct q as [|c r]; [done|]. by apply strip_dense, query_char_dense.
Qed.

Lemma query_read builtin h q :
  NoDup (keys h) -> Forall property_ok h -> toQueryString h = Returns q ->
  toQueryParams builtin None q = Returns (concat (map received h)).
Proof.
  intros Hnd Hok Hq. pose proof (query_text h q Hok Hq) as Hqc. revert Hq.
  unfold toQueryString. destruct (mapM_out query_pairs h) as [pairs| |] eqn:E; try done.
  intros [= <-]. pose proof (read_all builtin h pairs [] E Hnd Hok (fun k _ => not_elem_of_nil k)) as Hread.
  unfold toQueryParams.
  assert (strip (join [c_amp] (concat pairs)) = join [c_amp] (concat pairs)) as ->.
  { destruct (join [c_amp] (concat pairs)) as [|c r] eqn:Ej; [done|]. apply strip_dense.
    by apply query_char_dense. }
  rewrite query_part_id by done. change (default c_amp None) with c_amp.
  destruct (concat pairs) as [|p ps] eqn:Ec; [exact Hread|].
  rewrite split_join; [done|]. intros v Hv Hin.
  assert (forallb (fun c => uri_char c || (c =? c_eq)) v = true) as Hp by (eapply pairs_chars; [done..|by rewrite Ec]).
  rewrite forallb_forall in Hp. apply list_elem_of_In in Hin. by apply Hp in Hin.
Qed.

(** C14: What a hash sends in a query is read back: every key with its value as a
    string, several values as an array of strings, [undefined] as a key without
    a value; an empty array and a nested object are not sent at all. *)
Theorem query_roundtrip builtin h q :
  NoDup (keys h) -> Forall property_ok h -> toQueryString h = Returns q ->
  toQueryParams builtin None q = Returns (concat (map received h)).
Proof. apply query_read. Qed.

Definition sample : object :=
  [(js "q", Json.VStr (js "a&b = c")); (js "tag", Json.VArr [Json.VStr (js "x"); Json.VNum 3; Json.VUndef]);
   (js "page", Json.VNum 12); (js "flag", Json.VUndef); (js "none", Json.VNull); (js "skip", Json.VArr [])].
Definition sent : jstring := js "q=a%26b%20%3D%20c&tag=x&tag=3&tag&page=12&flag&none=".

Lemma query_roundtrip_witness :
  toQueryString sample = Returns sent
  /\ toQueryParams (fun _ => []) None sent
     = Returns [(js "q", Json.VStr (js "a&b = c"));
                (js "tag", Json.VArr [Json.VStr (js "x"); Json.VStr (js "3"); Json.VUndef]);
                (js "page", Json.VStr (js "12")); (js "flag", Json.VUndef); (js "none", Json.VStr [])].
Proof.
  assert (toQueryString sample = Returns sent) as Hs by by vm_compute.
  split; [exact Hs|]. refine (eq_trans (query_roundtrip (fun _ => []) sample sent _ _ Hs) _).
  - decided.
  - unfold sample. repeat apply Forall_cons_2; [..|apply Forall_nil_2];
      (split; [done|]); (split; [decided|]); (split; [unfold unit16; decided|]);
      repeat (apply Forall_cons_2 || apply Forall_nil_2); try done; unfold text_ok, unit16; decided.
  - by vm_compute.
Defined.

(** A parameter with the name of a member of [Object.prototype] comes out as a
    list that begins with the member itself. *)
Example inherited_param builtin :
  toQueryParams builtin None (js "valueOf=1")
  = Returns [(js "valueOf", Json.VArr [Json.VFun (builtin (js "valueOf")); Json.VStr (js "1")])].
Proof. reflexivity. Qed.

(** ** Merging hashes *)
Lemma assoc_set k k' v (h : object) :
  assoc k (set_own k' v h) = if bool_decide (k = k') then Some v else assoc k h.
Proof.
  induction h as [|[j w] h IH]; cbn [set_own assoc]; [by case_bool_decide|].
  destruct (decide (k' = j)) as [->|Hne].
  - rewrite (bool_decide_eq_true_2 (j = j)) by done. cbn [assoc]. by case_bool_decide.
  - rewrite (bool_decide_eq_false_2 (k' = j)) by done. cbn [assoc]. rewrite IH.
    destruct (decide (k = j)) as [->|]; [|by rewrite !(bool_decide_eq_false_2 (k = j))].
    by rewrite (bool_decide_eq_true_2 (j = j)), (bool_decide_eq_false_2 (j = k')).
Qed.

Lemma assoc_fold k (o h : object) :
  NoDup (map fst o) ->
  assoc k (fold_left (fun h p => set_own p.1 p.2 h) o h)
  = match assoc k o with Some v => Some v | None => assoc k h end.
Proof.
  revert h. induction o as [|[j v] o IH]; intros h; [done|]. cbn [map fst fold_left assoc].
  intros [Hj Ho]%NoDup_cons. rewrite IH, assoc_set by done.
  case_bool_decide as E; [|done]. subst. by rewrite assoc_absent.
Qed.

Lemma initialize_absent (o h : object) :
  NoDup (map fst o) -> (forall k, k ∈ map fst o -> k ∉ map fst h) ->
  fold_left (fun h p => set_own p.1 p.2 h) o h = h ++ o.
Proof.
  revert h. induction o as [|[j v] o IH]; intros h; cbn [map fst fold_left]; [by rewrite app_nil_r|].
  intros [Hj Ho]%NoDup_cons Hh. rewrite set_own_absent by apply Hh, list_elem_of_here.
  rewrite IH; [by rewrite <- app_assoc | done |]. intros k Hk. rewrite map_app.
  intros [H|H]%elem_of_app; [revert H; by apply Hh, list_elem_of_further|].
  apply list_elem_of_singleton in H. by subst.
Qed.

(** A copy is the object itself. *)
Lemma initialize_id (o : object) : NoDup (map fst o) -> initialize o = o.
Proof. intros H. unfold initialize. rewrite initialize_absent; [done | done |]. intros k _. apply not_elem_of_nil. Qed.

(** Merging leaves the hash alone and answers for the merged object first. *)
Theorem merge_lookup k o h :
  NoDup (map fst o) -> NoDup (map fst h) ->
  assoc k (merge o h) = match assoc k o with Some v => Some v | None => assoc k h end.
Proof.
  intros Ho Hh. unfold merge, update, clone, set. cbn [fst]. rewrite !initialize_id by done.
  by apply assoc_fold.
Qed.
End Query.
