(* ===== verification/ProtoEnum.v ===== *)
(** * Enumerable

    The methods that Prototype gives every collection are written with [each] and
    a closure over local variables; they leave the iteration early by throwing
    [$break], which [each] catches.  The iterators are functions of the caller:
    they may change the state [S] of the page and throw exceptions [E] of their
    own.  Collections are arrays, whose elements the iterators do not change. *)
From Stdlib Require Import Sorting.Sorted.
From S2P Require Import Prelude.

Module Enum.

(** ** Calls that change a state and may throw *)
Inductive exn (E : Type) := Break | Raised (e : E).
Arguments Break {E}.
Arguments Raised {E} _.

Inductive res (E A : Type) := Val (a : A) | Exn (e : exn E).
Arguments Val {E A} _.
Arguments Exn {E A} _.

Definition M (E T A : Type) : Type := T -> res E A * T.

#[global] Instance M_ret E T : MRet (M E T) := fun A a s => (Val a, s).
#[global] Instance M_bind E T : MBind (M E T) := fun A B f m s =>
  match m s with (Val a, s) => f a s | (Exn e, s) => (Exn e, s) end.

Definition throw {E T A} (e : exn E) : M E T A := fun s => (Exn e, s).

Section Enumerable.
Context {E S : Type}.

(** A closure has local variables [L] beside the state: a call of the caller's
    function leaves them alone. *)
Definition lift {L A} (m : M E S A) : M E (L * S) A := fun s =>
  let '(r, t) := m s.2 in (r, (s.1, t)).
Definition var {L} : M E (L * S) L := fun s => (Val s.1, s).
Definition assign {L} (l : L) : M E (L * S) unit := fun s => (Val tt, (l, s.2)).

(** A method: its local variables, its body, and the result read from them. *)
Definition locally {L A} (l : L) (m : M E (L * S) A) : M E S A := fun s =>
  let '(r, s) := m (l, s) in (r, s.2).

Section each.
Context {A : Type}.

(** src/piql/scadr/src/main/rails/public/javascripts/prototype.js:842-845
    [_each(iterator)], with the index that [each] counts. *)
Fixpoint _each {T} (iterator : A -> Z -> M E T unit) (index : Z) (this : list A) : M E T unit :=
  match this with
  | [] => mret tt
  | x :: this => iterator x index;; _each iterator (index + 1) this
  end.

(** src/piql/scadr/src/main/rails/public/javascripts/prototype.js:598-608
    [each(iterator, context)] *)
Definition each {T} (iterator : A -> Z -> M E T unit) (this : list A) : M E T unit := fun s =>
  match _each iterator 0 this s with
  | (Exn Break, s) => (Val tt, s)
  | r => r
  end.

(** src/piql/scadr/src/main/rails/public/javascripts/prototype.js:618-626
    [all(iterator, context)]; the answers of the iterator are taken as booleans. *)
Definition all (iterator : A -> Z -> M E S bool) (this : list A) : M E S bool :=
  locally true (
    each (T := (bool * S)%type) (fun value index =>
      result ← var (L := bool);
      result ← (if result : bool then lift (iterator value index) else mret false);
      assign result;;
      if result : bool then mret tt else throw Break) this;;
    var).

(** src/piql/scadr/src/main/rails/public/javascripts/prototype.js:628-636
    [any(iterator, context)] *)
Definition any (iterator : A -> Z -> M E S bool) (this : list A) : M E S bool :=
  locally false (
    each (T := (bool * S)%type) (fun value index =>
      result ← lift (iterator value index);
      assign result;;
      if result : bool then throw Break else mret tt) this;;
    var).

(** src/piql/scadr/src/main/rails/public/javascripts/prototype.js:638-645
    [collect(iterator, context)] *)
Definition collect {B} (iterator : A -> Z -> M E S B) (this : list A) : M E S (list B) :=
  locally [] (
    each (T := ((list B) * S)%type) (fun value index =>
      r ← lift (iterator value index);
      results ← var (L := (list B)); assign (results ++ [r])) this;;
    var).

(** src/piql/scadr/src/main/rails/public/javascripts/prototype.js:647-656
    [detect(iterator, context)] *)
Definition detect (iterator : A -> Z -> M E S bool) (this : list A) : M E S (option A) :=
  locally None (
    each (T := ((option A) * S)%type) (fun value index =>
      found ← lift (iterator value index);
      if found : bool then assign (Some value);; throw Break else mret tt) this;;
    var).

(** src/piql/scadr/src/main/rails/public/javascripts/prototype.js:658-665
    [findAll(iterator, context)] *)
Definition findAll (iterator : A -> Z -> M E S bool) (this : list A) : M E S (list A) :=
  locally [] (
    each (T := ((list A) * S)%type) (fun value index =>
      found ← lift (iterator value index);
      if found : bool then results ← var (L := (list A)); assign (results ++ [value]) else mret tt) this;;
    var).

(** src/piql/scadr/src/main/rails/public/javascripts/prototype.js:667-679
    [grep(filter, iterator, context)]: [matches] is [filter.match]. *)
Definition grep {B} (matches : A -> M E S bool) (iterator : A -> Z -> M E S B) (this : list A)
  : M E S (list B) :=
  locally [] (
    each (T := ((list B) * S)%type) (fun value index =>
      found ← lift (matches value);
      if found : bool
      then r ← lift (iterator value index); results ← var (L := (list B)); assign (results ++ [r])
      else mret tt) this;;
    var).

(** src/piql/scadr/src/main/rails/public/javascripts/prototype.js:703-708
    [inject(memo, iterator, context)] *)
Definition inject {B} (memo : B) (iterator : B -> A -> Z -> M E S B) (this : list A) : M E S B :=
  locally memo (
    each (T := (B * S)%type) (fun value index =>
      memo ← var (L := B); memo ← lift (iterator memo value index); assign memo) this;;
    var).

(** src/piql/scadr/src/main/rails/public/javascripts/prototype.js:710-715
    [invoke(method)]: [method] calls the method of an element. *)
Definition invoke {B} (method : A -> M E S B) (this : list A) : M E S (list B) :=
  collect (fun value _ => method value) this.

(** src/piql/scadr/src/main/rails/public/javascripts/prototype.js:717-726
    [max(iterator, context)], for numbers *)
Definition max (iterator : A -> Z -> M E S Z) (this : list A) : M E S (option Z) :=
  locally None (
    each (T := ((option Z) * S)%type) (fun value index =>
      value ← lift (iterator value index);
      result ← var (L := (option Z));
      if match result with Some r => r <=? value | None => true end then assign (Some value)
      else mret tt) this;;
    var).

(** src/piql/scadr/src/main/rails/public/javascripts/prototype.js:728-737
    [min(iterator, context)], for numbers *)
Definition min (iterator : A -> Z -> M E S Z) (this : list A) : M E S (option Z) :=
  locally None (
    each (T := ((option Z) * S)%type) (fun value index =>
      value ← lift (iterator value index);
      result ← var (L := (option Z));
      if match result with Some r => value <? r | None => true end then assign (Some value)
      else mret tt) this;;
    var).

(** src/piql/scadr/src/main/rails/public/javascripts/prototype.js:739-747
    [partition(iterator, context)] *)
Definition partition (iterator : A -> Z -> M E S bool) (this : list A) : M E S (list A * list A) :=
  locally ([], []) (
    each (T := ((list A * list A) * S)%type) (fun value index =>
      b ← lift (iterator value index);
      '(trues, falses) ← var (L := (list A * list A));
      assign (if b : bool then (trues ++ [value], falses) else (trues, falses ++ [value]))) this;;
    var).

(** src/piql/scadr/src/main/rails/public/javascripts/prototype.js:749-755
    [pluck(property)]: [property] reads the property of an element. *)
Definition pluck {B} (property : A -> B) (this : list A) : M E S (list B) :=
  locally [] (
    each (T := ((list B) * S)%type) (fun value _ => results ← var (L := (list B)); assign (results ++ [property value])) this;;
    var).

(** src/piql/scadr/src/main/rails/public/javascripts/prototype.js:757-764
    [reject(iterator, context)] *)
Definition reject (iterator : A -> Z -> M E S bool) (this : list A) : M E S (list A) :=
  locally [] (
    each (T := ((list A) * S)%type) (fun value index =>
      found ← lift (iterator value index);
      if found : bool then mret tt else results ← var (L := (list A)); assign (results ++ [value])) this;;
    var).

(** src/piql/scadr/src/main/rails/public/javascripts/prototype.js:778-780
    [toArray()] *)
Definition toArray (this : list A) : M E S (list A) := collect (fun value _ => mret value) this.

(** src/piql/scadr/src/main/rails/public/javascripts/prototype.js:793-795
    [size()] *)
Definition size (this : list A) : M E S Z := l ← toArray this; mret (zlen l).
End each.

(** src/piql/scadr/src/main/rails/public/javascripts/prototype.js:681-693
    [include(object)], for an array of numbers or of strings, for which [==] and
    [===] agree. *)
Definition include {A} `{EqDecision A} (object : A) (this : list A) : M E S bool :=
  if bool_decide (object ∈ this) then mret true else
  locally false (
    each (T := (bool * S)%type) (fun value _ =>
      if bool_decide (value = object) then assign true;; throw Break else mret tt) this;;
    var).

(** src/piql/scadr/src/main/rails/public/javascripts/prototype.js:766-776
    [sortBy(iterator, context)]: [sort] is the sorting of the engine, given the
    comparison. *)
Definition sortBy {A} (sort : forall C, (C -> C -> Z) -> list C -> list C)
    (iterator : A -> Z -> M E S Z) (this : list A) : M E S (list A) :=
  pairs ← collect (fun value index => criteria ← iterator value index; mret (value, criteria)) this;
  pluck fst (sort (A * Z)%type (fun left right =>
    let a := left.2 in let b := right.2 in if a <? b then -1 else if b <? a then 1 else 0) pairs).

(** src/piql/scadr/src/main/rails/public/javascripts/prototype.js:782-791
    [zip()]: the collections beside [this], and the iterator; [None] past the end
    of a collection. *)
Definition zip {A B} (collections : list (list A)) (iterator : list (option A) -> M E S B)
    (this : list A) : M E S (list B) :=
  collect (fun _ index => row ← pluck (fun c => znth c index) (this :: collections); iterator row) this.

(** src/piql/scadr/src/main/rails/public/javascripts/prototype.js:610-616
    [eachSlice(number, iterator, context)]: the loop that cuts the slices. *)
Fixpoint slices_loop {A} (fuel : nat) (number index : Z) (slices : list (list A)) (array : list A)
  : option (list (list A)) :=
  match fuel with
  | O => None
  | Datatypes.S fuel =>
      let index := index + number in
      if index <? zlen array
      then slices_loop fuel number index (slices ++ [ztake number (zdrop index array)]) array
      else Some slices
  end.
Definition slices {A} (number : Z) (array : list A) : list (list A) :=
  default [] (slices_loop (Datatypes.S (length array)) number (- number) [] array).

(** src/piql/scadr/src/main/rails/public/javascripts/prototype.js:610-616
    [eachSlice(number, iterator, context)]: below one the array itself. *)
Definition eachSlice {A B} (number : Z) (iterator : list A -> Z -> M E S B) (this : list A)
  : M E S (list A + list B) :=
  array ← toArray this;
  if number <? 1 then mret (inl array)
  else r ← collect iterator (slices number array); mret (inr r).

(** src/piql/scadr/src/main/rails/public/javascripts/prototype.js:695-701
    [inGroupsOf(number, fillWith)] *)
Definition inGroupsOf {A} (number : Z) (fillWith : A) (this : list A)
  : M E S (list A + list (list A)) :=
  eachSlice number
    (fun slice _ => mret (slice ++ replicate (Z.to_nat (number - zlen slice)) fillWith)) this.
End Enumerable.

(** ** Leaving early

    The three methods that stop at the first element that decides are direct
    recursions: what the iterator throws passes through, but for [$break], which
    ends the call with what is known so far. *)
Section early.
Context {E W A : Type}.
Implicit Types (it : A -> Z -> M E W bool) (l : list A) (s : W).

Fixpoint all_rec it (i : Z) l : M E W bool := fun s =>
  match l with
  | [] => (Val true, s)
  | x :: l =>
      match it x i s with
      | (Val true, s) => all_rec it (i + 1) l s
      | (Val false, s) => (Val false, s)
      | (Exn Break, s) => (Val true, s)
      | (Exn (Raised e), s) => (Exn (Raised e), s)
      end
  end.

Fixpoint any_rec it (i : Z) l : M E W bool := fun s =>
  match l with
  | [] => (Val false, s)
  | x :: l =>
      match it x i s with
      | (Val true, s) => (Val true, s)
      | (Val false, s) => any_rec it (i + 1) l s
      | (Exn Break, s) => (Val false, s)
      | (Exn (Raised e), s) => (Exn (Raised e), s)
      end
  end.

Fixpoint detect_rec it (i : Z) l : M E W (option A) := fun s =>
  match l with
  | [] => (Val None, s)
  | x :: l =>
      match it x i s with
      | (Val true, s) => (Val (Some x), s)
      | (Val false, s) => detect_rec it (i + 1) l s
      | (Exn Break, s) => (Val None, s)
      | (Exn (Raised e), s) => (Exn (Raised e), s)
      end
  end.

(** The loop [each] starts, from any index. *)
Definition each_from {T} (f : A -> Z -> M E T unit) (i : Z) l : M E T unit := fun (s : T) =>
  match _each f i l s with (Exn Break, s) => (Val tt, s) | r => r end.

Lemma each_from_cons {T} (f : A -> Z -> M E T unit) i x l (s : T) :
  each_from f i (x :: l) s =
  match f x i s with
  | (Val _, s) => each_from f (i + 1) l s
  | (Exn Break, s) => (Val tt, s)
  | (Exn (Raised e), s) => (Exn (Raised e), s)
  end.
Proof.
  unfold each_from. cbn [_each]. unfold mbind, M_bind. by destruct (f x i s) as [[?|[|?]] ?].
Qed.

Lemma all_loop it i l s :
  locally true (each_from (fun value index =>
      result ← var (L := bool);
      result ← (if result : bool then lift (it value index) else mret false);
      assign result;;
      if result : bool then mret tt else throw Break) i l;; var) s
  = all_rec it i l s.
Proof.
  revert i s. induction l as [|x l IH]; intros i s; [done|].
  cbn [all_rec]. specialize (IH (i + 1)). unfold locally, mbind, M_bind in IH |- *.
  rewrite each_from_cons. cbn [var lift fst snd]. unfold lift at 1. cbn [fst snd].
  destruct (it x i s) as [[[|]|[|e]] s'] eqn:Ex; cbn; [apply IH | done..].
Qed.

Lemma any_loop it i l s :
  locally false (each_from (fun value index =>
      result ← lift (L := bool) (it value index);
      assign result;;
      if result : bool then throw Break else mret tt) i l;; var) s
  = any_rec it i l s.
Proof.
  revert i s. induction l as [|x l IH]; intros i s; [done|].
  cbn [any_rec]. specialize (IH (i + 1)). unfold locally, mbind, M_bind in IH |- *.
  rewrite each_from_cons. unfold lift at 1. cbn [fst snd].
  destruct (it x i s) as [[[|]|[|e]] s'] eqn:Ex; cbn; [done | apply IH | done..].
Qed.

Lemma detect_loop it i l s :
  locally None (each_from (fun value index =>
      found ← lift (L := option A) (it value index);
      if found : bool then assign (Some value);; throw Break else mret tt) i l;; var) s
  = detect_rec it i l s.
Proof.
  revert i s. induction l as [|x l IH]; intros i s; [done|].
  cbn [detect_rec]. specialize (IH (i + 1)). unfold locally, mbind, M_bind in IH |- *.
  rewrite each_from_cons. unfold lift at 1. cbn [fst snd].
  destruct (it x i s) as [[[|]|[|e]] s'] eqn:Ex; cbn; [done | apply IH | done..].
Qed.

(** [all], [any] and [detect] call the iterator on the elements in order up to
    the first that decides, and nothing more; an exception of the iterator ends
    the call, [$break] with the answer so far. *)
Theorem early_exit it l s :
  all it l s = all_rec it 0 l s
  /\ any it l s = any_rec it 0 l s
  /\ detect it l s = detect_rec it 0 l s.
Proof. split_and!; [apply all_loop | apply any_loop | apply detect_loop]. Qed.
End early.

(** ** Iterators without effects *)
Section pure.
Context {E W A B : Type}.
Implicit Types (l : list A) (s : W).

(** A loop that changes its variable by a function, and nothing else. *)
Lemma each_fold {L} (f : A -> Z -> M E (L * W) unit) (g : L -> A -> L) i l a s :
  (forall x i a s, f x i (a, s) = (Val tt, (g a x, s))) ->
  locally a (each_from f i l;; var (L := L)) s = (Val (fold_left g l a), s).
Proof.
  intros Hf. unfold locally, mbind, M_bind.
  assert (forall i a, each_from f i l (a, s) = (Val tt, (fold_left g l a, s))) as H.
  { induction l as [|x l IH]; intros j b; [done|]. rewrite each_from_cons, Hf. apply IH. }
  by rewrite H.
Qed.

Lemma fold_snoc {C} (g : A -> list C) l a :
  fold_left (fun r x => r ++ g x) l a = a ++ List.flat_map g l.
Proof.
  revert a. induction l as [|x l IH]; intros a; cbn [fold_left List.flat_map]; [by rewrite app_nil_r|].
  by rewrite IH, app_assoc.
Qed.

Lemma collect_pure (f : A -> B) l s : collect (E := E) (fun x _ => mret (f x)) l s = (Val (map f l), s).
Proof.
  unfold collect. change (each ?f l) with (each_from f 0 l).
  rewrite (each_fold _ (fun r x => r ++ [f x])) by done. rewrite fold_snoc. cbn [app].
  assert (List.flat_map (fun x => [f x]) l = map f l) as ->; [|done].
  induction l as [|x l IH]; cbn; [done | by f_equal].
Qed.

(** An iterator that answers by a predicate, whatever it does to get there. *)
Lemma findAll_value (it : A -> Z -> M E W bool) (p : A -> bool) l s :
  (forall x i s, it x i s = (Val (p x), s)) -> findAll it l s = (Val (List.filter p l), s).
Proof.
  intros Hp. unfold findAll. change (each ?f l) with (each_from f 0 l).
  rewrite (each_fold _ (fun r x => r ++ if p x then [x] else [])).
  - rewrite fold_snoc. cbn [app]. do 2 f_equal. induction l as [|x l IH]; cbn; [done|].
    rewrite IH. by destruct (p x).
  - intros x i a t. unfold mbind, M_bind, lift. cbn [fst snd]. rewrite Hp.
    destruct (p x); cbn; [done | by rewrite app_nil_r].
Qed.

Lemma findAll_pure (p : A -> bool) l s :
  findAll (E := E) (fun x _ => mret (p x)) l s = (Val (List.filter p l), s)
  /\ reject (E := E) (fun x _ => mret (p x)) l s = (Val (List.filter (fun x => negb (p x)) l), s).
Proof.
  split; [by apply findAll_value|]. unfold reject. change (each ?f l) with (each_from f 0 l).
  rewrite (each_fold _ (fun r x => r ++ if p x then [] else [x])).
  - rewrite fold_snoc. cbn [app]. do 2 f_equal. induction l as [|x l IH]; cbn; [done|].
    rewrite IH. by destruct (p x).
  - intros x i a t. cbn. destruct (p x); cbn; [by rewrite app_nil_r | done].
Qed.

Lemma partition_pure (p : A -> bool) l s :
  partition (E := E) (fun x _ => mret (p x)) l s
  = (Val (List.filter p l, List.filter (fun x => negb (p x)) l), s).
Proof.
  unfold partition. change (each ?f l) with (each_from f 0 l).
  rewrite (each_fold _ (fun r x => if p x then (r.1 ++ [x], r.2) else (r.1, r.2 ++ [x]))).
  - do 2 f_equal. cut (forall a b, fold_left (fun r x => if p x then (r.1 ++ [x], r.2) else (r.1, r.2 ++ [x])) l (a, b)
      = (a ++ List.filter p l, b ++ List.filter (fun x => negb (p x)) l)); [by intros ->|].
    induction l as [|x l IH]; intros a b; cbn; [by rewrite !app_nil_r|].
    destruct (p x); cbn; by rewrite IH, <- app_assoc.
  - intros x i [a b] t. cbn. by destruct (p x).
Qed.

Lemma inject_pure (g : B -> A -> B) b l s :
  inject (E := E) b (fun m x _ => mret (g m x)) l s = (Val (fold_left g l b), s).
Proof. unfold inject. change (each ?f l) with (each_from f 0 l). by rewrite (each_fold _ g). Qed.

Lemma tests_pure (p : A -> bool) l s :
  all (E := E) (fun x _ => mret (p x)) l s = (Val (forallb p l), s)
  /\ any (E := E) (fun x _ => mret (p x)) l s = (Val (existsb p l), s)
  /\ detect (E := E) (fun x _ => mret (p x)) l s = (Val (List.find p l), s).
Proof.
  unfold all, any, detect. change (each ?f l) with (each_from f 0 l).
  rewrite (all_loop (fun x _ => mret (p x))), (any_loop (fun x _ => mret (p x))),
    (detect_loop (fun x _ => mret (p x))).
  generalize 0 as i. induction l as [|x l IH]; intros i; [done|]. cbn.
  destruct (IH (i + 1)) as (H1 & H2 & H3). destruct (p x); cbn; by rewrite ?H1, ?H2, ?H3.
Qed.

(** With iterators that only compute, the methods are the functions on lists of
    the same purpose, and leave the state alone. *)
Theorem enumerable_pure (p : A -> bool) (f : A -> B) (g : B -> A -> B) b l s :
  all (E := E) (fun x _ => mret (p x)) l s = (Val (forallb p l), s)
  /\ any (E := E) (fun x _ => mret (p x)) l s = (Val (existsb p l), s)
  /\ detect (E := E) (fun x _ => mret (p x)) l s = (Val (List.find p l), s)
  /\ collect (E := E) (fun x _ => mret (f x)) l s = (Val (map f l), s)
  /\ findAll (E := E) (fun x _ => mret (p x)) l s = (Val (List.filter p l), s)
  /\ reject (E := E) (fun x _ => mret (p x)) l s = (Val (List.filter (fun x => negb (p x)) l), s)
  /\ partition (E := E) (fun x _ => mret (p x)) l s
     = (Val (List.filter p l, List.filter (fun x => negb (p x)) l), s)
  /\ inject (E := E) b (fun m x _ => mret (g m x)) l s = (Val (fold_left g l b), s).
Proof.
  destruct (tests_pure p l s) as (? & ? & ?). destruct (findAll_pure p l s).
  split_and!; [done..| apply collect_pure | done | done | apply partition_pure | apply inject_pure].
Qed.

End pure.

(** ** Slices *)
Section slices.
Context {A : Type}.
Implicit Types (l : list A).

(** Slices of [n] elements, the last of at least one. *)
Definition cut_in (n : Z) (ss : list (list A)) : Prop :=
  Forall (fun x => 0 < zlen x <= n) ss
  /\ (forall k x, ss !! k = Some x -> (S k < length ss)%nat -> zlen x = n).

Lemma cut_in_cons n x ss :
  0 < zlen x <= n -> (ss <> [] -> zlen x = n) -> cut_in n ss -> cut_in n (x :: ss).
Proof.
  intros Hx Hne [HF Hk]. split; [by constructor|]. intros [|k] y; cbn [lookup list_lookup length].
  - intros [= <-] Hl. apply Hne. by destruct ss; [simpl in Hl; lia|].
  - intros Hy Hl. apply (Hk k); [done | lia].
Qed.

Lemma slices_loop_spec fuel n i acc l :
  0 < n -> 0 <= i + n -> zlen l - (i + n) <= (Z.of_nat fuel - 1) * n -> (0 < fuel)%nat ->
  exists ss, slices_loop fuel n i acc l = Some (acc ++ ss) /\ concat ss = zdrop (i + n) l /\ cut_in n ss.
Proof.
  intros Hn. revert i acc. induction fuel as [|fuel IH]; intros i acc Hi Hf H0; [lia|].
  cbn [slices_loop]. destruct (Z.ltb_spec (i + n) (zlen l)) as [Hlt|Hge].
  - assert (0 < fuel)%nat by (destruct fuel; [lia | lia]).
    destruct (IH (i + n) (acc ++ [ztake n (zdrop (i + n) l)])) as (ss & -> & Hc & Hcut); [lia | lia | done |].
    exists (ztake n (zdrop (i + n) l) :: ss). split_and!.
    + by rewrite <- app_assoc.
    + cbn [concat]. rewrite Hc, <- (zdrop_zdrop n (i + n) l) by lia. apply ztake_zdrop.
    + apply cut_in_cons; [|intros Hne|done]; rewrite zlen_ztake, zlen_zdrop by lia; [lia|].
      destruct ss as [|y ss]; [done|]. destruct Hcut as [[Hy _]%Forall_cons _].
      apply (f_equal zlen) in Hc. cbn [concat] in Hc. rewrite zlen_app in Hc.
      rewrite zlen_zdrop_any in Hc by lia. pose proof (zlen_nonneg (concat ss)). lia.
  - exists []. rewrite app_nil_r. split_and!; [done | by rewrite zdrop_all by lia |].
    split; [constructor | intros k x Hx; by rewrite lookup_nil in Hx].
Qed.

Lemma slices_spec n l : 0 < n -> concat (slices n l) = l /\ cut_in n (slices n l).
Proof.
  intros Hn. unfold slices.
  destruct (slices_loop_spec (S (length l)) n (- n) [] l) as (ss & -> & Hc & Hcut);
    [done | lia | unfold zlen; nia | lia |].
  cbn. rewrite Hc, Z.add_opp_diag_l, zdrop_nonpos by lia. done.
Qed.

(** [eachSlice] cuts the collection in slices of the given size, in order and
    without loss, and only the last may be shorter. *)
Theorem eachSlice_cuts {E W} n l (s : W) :
  0 < n -> exists ss, eachSlice (E := E) n (fun x _ => mret x) l s = (Val (inr ss), s)
    /\ concat ss = l /\ cut_in n ss.
Proof.
  intros Hn. exists (slices n l). split; [|by apply slices_spec].
  unfold eachSlice, toArray, mbind, M_bind. rewrite collect_pure.
  rewrite (proj2 (Z.ltb_ge n 1)) by lia. rewrite collect_pure. cbn. by rewrite !map_id.
Qed.

(** [inGroupsOf] fills the last slice up: all groups have the given size, and
    they hold the collection followed by the filling. *)
Theorem inGroupsOf_fills {E W} n (x : A) l (s : W) :
  0 < n -> exists gs k, inGroupsOf (E := E) n x l s = (Val (inr gs), s)
    /\ concat gs = l ++ replicate k x /\ Z.of_nat k < n /\ Forall (fun g => zlen g = n) gs.
Proof.
  intros Hn. unfold inGroupsOf, eachSlice, toArray, mbind, M_bind. rewrite collect_pure.
  rewrite (proj2 (Z.ltb_ge n 1)) by lia. cbn [fst snd]. rewrite map_id, collect_pure.
  destruct (slices_spec n l Hn) as [Hc Hcut]. revert Hc Hcut. generalize (slices n l) as ss. intros ss Hc Hcut.
  set (fill := fun g : list A => g ++ replicate (Z.to_nat (n - zlen g)) x).
  cut (exists k, concat (map fill ss) = concat ss ++ replicate k x /\ Z.of_nat k < n
    /\ Forall (fun g => zlen g = n) (map fill ss)).
  { rewrite Hc. intros (k & H1 & H2 & H3). exists (map fill ss), k. split_and!; done. }
  clear Hc l s. induction ss as [|g ss IH]; [exists 0%nat; split_and!; [done | lia | constructor]|].
  destruct Hcut as [[Hg HF]%Forall_cons Hk].
  assert (zlen (fill g) = n) as Hfg.
  { unfold fill. rewrite zlen_app. unfold zlen at 2. rewrite length_replicate. lia. }
  destruct ss as [|h ss].
  - exists (Z.to_nat (n - zlen g)). cbn. rewrite !app_nil_r. split_and!; [done | lia | by repeat constructor].
  - destruct IH as (k & H1 & H2 & H3).
    { split; [done|]. intros j y Hy Hl. apply (Hk (S j)); [done | simpl in *; lia]. }
    exists k. assert (fill g = g) as Hid.
    { unfold fill. rewrite (Hk 0%nat g) by (done || simpl; lia). rewrite Z.sub_diag. apply app_nil_r. }
    cbn [map concat] in *. rewrite Hid in *. rewrite H1, app_assoc.
    split_and!; [done | done | by constructor].
Qed.
End slices.

Lemma eachSlice_cuts_witness :
  eachSlice (E := Empty_set) 3 (fun x _ => mret x) [1; 2; 3; 4; 5; 6; 7] tt
  = (Val (inr [[1; 2; 3]; [4; 5; 6]; [7]]), tt)
  /\ concat [[1; 2; 3]; [4; 5; 6]; [7]] = [1; 2; 3; 4; 5; 6; 7].
Proof.
  destruct (eachSlice_cuts (E := Empty_set) 3 [1; 2; 3; 4; 5; 6; 7] tt) as (ss & H & Hc & _); [done|].
  assert (ss = [[1; 2; 3]; [4; 5; 6]; [7]]) as -> by (vm_compute in H; by injection H).
  by split.
Defined.

Lemma inGroupsOf_fills_witness :
  exists gs, inGroupsOf (E := Empty_set) 3 0 [1; 2; 3; 4] tt = (Val (inr gs), tt)
    /\ concat gs = [1; 2; 3; 4; 0; 0].
Proof.
  destruct (inGroupsOf_fills (E := Empty_set) 3 0 [1; 2; 3; 4] tt) as (gs & k & H & Hc & Hk & _); [done|].
  exists gs. split; [exact H|]. vm_compute in H. injection H as <-. reflexivity.
Defined.

(** ** Sorting *)

(** What the sorting of the language promises: a permutation, in order when the
    comparison is that of a total preorder. *)
Class Sorting (sort : forall C, (C -> C -> Z) -> list C -> list C) : Prop := {
  sort_permutes : forall C (cmp : C -> C -> Z) l, sort C cmp l ≡ₚ l;
  sort_orders : forall C (key : C -> Z) l,
    StronglySorted (fun a b => key a <= key b)
      (sort C (fun a b => if key a <? key b then -1 else if key b <? key a then 1 else 0) l) }.

Section sortBy.
Context {E W A : Type} (sort : forall C, (C -> C -> Z) -> list C -> list C) `{!Sorting sort}.

(** [sortBy] reorders the collection by what the iterator says of its elements. *)
Theorem sortBy_sorts (f : A -> Z) l (s : W) :
  exists r, sortBy (E := E) sort (fun x _ => mret (f x)) l s = (Val r, s)
    /\ r ≡ₚ l /\ StronglySorted (fun a b => f a <= f b) r.
Proof.
  set (sorted := sort (A * Z)%type (fun a b => if a.2 <? b.2 then -1 else if b.2 <? a.2 then 1 else 0)
    (map (fun x => (x, f x)) l)).
  exists (map fst sorted). split_and!.
  - assert (collect (E := E) (fun value index => criteria ← (fun (x : A) (_ : Z) => mret (f x)) value index;
        mret (value, criteria)) l s = (Val (map (fun x => (x, f x)) l), s)) as Hc
      by exact (collect_pure (fun x => (x, f x)) l s).
    unfold sortBy, mbind at 1, M_bind at 1. rewrite Hc.
    unfold pluck. change (each ?f ?l) with (each_from f 0 l).
    rewrite (each_fold _ (fun r x => r ++ [x.1])) by done. rewrite fold_snoc. cbn [app].
    change (fun left right : A * Z => let a := left.2 in let b := right.2 in if a <? b then -1 else if b <? a then 1 else 0)
      with (fun a b : A * Z => if a.2 <? b.2 then -1 else if b.2 <? a.2 then 1 else 0).
    fold sorted. assert (List.flat_map (fun x : A * Z => [x.1]) sorted = map fst sorted) as ->; [|done].
    induction sorted as [|x t IH]; cbn; [done | by f_equal].
  - unfold sorted. rewrite (sort_permutes (A * Z) _ (map (fun x => (x, f x)) l)), map_map. cbn [fst]. by rewrite map_id.
  - assert (Forall (fun p => p.2 = f p.1) sorted) as Hf.
    { unfold sorted. rewrite (sort_permutes (A * Z) _ (map (fun x => (x, f x)) l)).
      apply Forall_forall. intros p Hp%list_elem_of_In. apply List.in_map_iff in Hp as (x & <- & _). done. }
    pose proof (sort_orders (A * Z) snd (map (fun x => (x, f x)) l)) as Hs. fold sorted in Hs.
    induction Hs as [|p t _ IH Hp]; [constructor|]. apply Forall_cons in Hf as [Hpf Hf].
    cbn [map]. constructor; [by apply IH|]. rewrite Forall_map. rewrite Forall_forall in *.
    intros q Hq. rewrite <- Hpf, <- (Hf q Hq). by apply Hp.
Qed.
End sortBy.

(** A sorting that keeps the promise. *)
Fixpoint insert {C} (cmp : C -> C -> Z) (x : C) (l : list C) : list C :=
  match l with
  | [] => [x]
  | y :: l => if cmp x y <? 0 then x :: y :: l else y :: insert cmp x l
  end.
Definition insertion_sort (C : Type) (cmp : C -> C -> Z) (l : list C) : list C :=
  foldr (insert cmp) [] l.

Lemma insert_permutes {C} cmp (x : C) l : insert cmp x l ≡ₚ x :: l.
Proof.
  induction l as [|y l IH]; cbn [insert]; [done|]. case_match; [done|].
  rewrite IH. apply Permutation_swap.
Qed.

#[local] Instance insertion_sorting : Sorting insertion_sort.
Proof.
  split; intros C.
  - intros cmp l. unfold insertion_sort. induction l as [|x l IH]; cbn; [done|]. by rewrite insert_permutes, IH.
  - intros key l. set (cmp := fun a b : C => if key a <? key b then -1 else if key b <? key a then 1 else 0). unfold insertion_sort.
    assert (forall x y, (cmp x y <? 0) = (key x <? key y)) as Hcmp.
    { intros x y. unfold cmp. by repeat case_match. }
    induction l as [|x l IH]; cbn [foldr]; [constructor|]. generalize dependent (foldr (insert cmp) [] l).
    intros t Ht. induction Ht as [|y t Ht IHt Hy]; cbn [insert]; [by repeat constructor|].
    rewrite Hcmp. destruct (Z.ltb_spec (key x) (key y)).
    + constructor; [by constructor|]. constructor; [lia|]. rewrite Forall_forall in *.
      intros z Hz. specialize (Hy z Hz). lia.
    + constructor; [done|]. rewrite insert_permutes. by constructor.
Qed.

Lemma sortBy_sorts_witness :
  exists r, sortBy (E := Empty_set) insertion_sort (fun x _ => mret (- x)) [2; 5; 1; 4] tt = (Val r, tt)
    /\ r = [5; 4; 2; 1].
Proof.
  destruct (sortBy_sorts (E := Empty_set) insertion_sort (fun x => - x) [2; 5; 1; 4] tt) as (r & H & _ & _).
  exists r. split; [exact H|]. vm_compute in H. by injection H as <-.
Defined.
End Enum.
