(* ===== verification/ProtoArray.v ===== *)
(** * Arrays

    The methods that Prototype adds to arrays, on top of [Enumerable].  Elements
    that are compared are taken to be numbers or strings of one type, on which
    [==] and [===] are equality. *)
From Stdlib Require Import Sorting.Sorted.
From S2P Require Import Prelude ProtoEnum.

Module Arr.
Import Enum.

(** A call without effects. *)
Definition P := M Empty_set unit.
Definition run {A} (m : P A) : option A := match m tt with (Val a, _) => Some a | _ => None end.

Section methods.
Context {A : Type}.
Implicit Types (this : list A).

(** src/piql/scadr/src/main/rails/public/javascripts/prototype.js:847-850
    [clear()] *)
Definition clear (this : list A) : list A := [].

(** src/piql/scadr/src/main/rails/public/javascripts/prototype.js:852-854
    [first()] *)
Definition first (this : list A) : option A := znth this 0.

(** src/piql/scadr/src/main/rails/public/javascripts/prototype.js:856-858
    [last()] *)
Definition last (this : list A) : option A := znth this (zlen this - 1).

(** src/piql/scadr/src/main/rails/public/javascripts/prototype.js:902-904
    [clone()] *)
Definition clone (this : list A) : list A := [] ++ this.

(** src/piql/scadr/src/main/rails/public/javascripts/prototype.js:906-908
    [size()] *)
Definition size (this : list A) : Z := zlen this.

(** src/piql/scadr/src/main/rails/public/javascripts/prototype.js:880-882
    [reverse(inline)]: the result, and the array itself afterwards. *)
Definition reverse (inline : bool) (this : list A) : list A * list A :=
  if inline then (rev this, rev this) else (rev (clone this), this).

(** src/piql/scadr/src/main/rails/public/javascripts/prototype.js:884-886
    [reduce()]: the array, or its only element. *)
Definition reduce (this : list A) : list A + option A :=
  if 1 <? zlen this then inl this else inr (znth this 0).

(** src/piql/scadr/src/main/rails/public/javascripts/prototype.js:860-864
    [compact()]: [None] is [undefined] or [null]. *)
Definition compact (this : list (option A)) : P (list (option A)) :=
  findAll (fun value _ => mret (is_some value)) this.
End methods.

(** Arrays in arrays. *)
Inductive nest (A : Type) := Leaf (a : A) | Node (l : list (nest A)).
Arguments Leaf {A} _.
Arguments Node {A} _.

(** src/piql/scadr/src/main/rails/public/javascripts/prototype.js:866-871
    [flatten()] *)
Fixpoint flatten {A} (this : nest A) : list (nest A) :=
  match this with
  | Leaf a => [Leaf a]
  | Node l => fold_left (fun array value => array ++ flatten value) l []
  end.

Section equality.
Context {A : Type} `{EqDecision A}.
Implicit Types (this : list A).

(** src/piql/scadr/src/main/rails/public/javascripts/prototype.js:873-878
    [without()] *)
Definition without (values this : list A) : P (list A) :=
  findAll (fun value _ => b ← include value values; mret (negb b)) this.

(** src/piql/scadr/src/main/rails/public/javascripts/prototype.js:888-894
    [uniq(sorted)] *)
Definition uniq (sorted : bool) (this : list A) : P (list A) :=
  inject [] (fun array value index =>
    add ← (if index =? 0 then mret true
           else if sorted then mret (negb (bool_decide (last array = Some value)))
           else b ← include value array; mret (negb b));
    mret (if add : bool then array ++ [value] else array)) this.

(** src/piql/scadr/src/main/rails/public/javascripts/prototype.js:896-900
    [intersect(array)]: [detect] answers with the element that it finds, and
    [truthy] is what a condition makes of it. *)
Definition intersect (truthy : A -> bool) (array this : list A) : P (list A) :=
  this ← uniq false this;
  findAll (fun item _ =>
    found ← detect (fun value _ => mret (bool_decide (item = value))) array;
    mret match found with Some v => truthy v | None => false end) this.

(** src/piql/scadr/src/main/rails/public/javascripts/prototype.js:927-934
    [indexOf(item, i)], for old engines: the loop; nothing is at a negative
    index. *)
Fixpoint indexOf_loop (item : A) (i : Z) (this : list A) : Z :=
  match this with
  | [] => -1
  | x :: this => if bool_decide (x = item) then i else indexOf_loop item (i + 1) this
  end.

(** src/piql/scadr/src/main/rails/public/javascripts/prototype.js:927-934
    [indexOf(item, i)] *)
Definition indexOf (item : A) (i : Z) (this : list A) : Z :=
  let i := if i <? 0 then zlen this + i else i in
  indexOf_loop item (Z.max i 0) (zdrop i this).

(** src/piql/scadr/src/main/rails/public/javascripts/prototype.js:936-940
    [lastIndexOf(item, i)], for old engines; [None] is no index. *)
Definition lastIndexOf (item : A) (i : option Z) (this : list A) : Z :=
  let i := match i with
           | None => zlen this
           | Some i => (if i <? 0 then zlen this + i else i) + 1
           end in
  let clamped := if i <? 0 then Z.max 0 (zlen this + i) else i in
  let n := indexOf item 0 (rev (ztake clamped this)) in
  if n <? 0 then n else i - n - 1.
End equality.

(** ** Sets of elements *)
Section facts.
Context {A : Type} `{EqDecision A}.
Implicit Types (l r : list A).

Lemma include_pure {E W} (x : A) l (s : W) :
  include (E := E) x l s = (Val (bool_decide (x ∈ l)), s).
Proof.
  unfold include. case_bool_decide as Hin; [done|].
  change (each ?f l) with (each_from f 0 l). generalize 0 as i.
  induction l as [|y l IH]; intros i; [done|]. apply not_elem_of_cons in Hin as [Hy Hl].
  specialize (IH Hl (i + 1)). unfold locally, mbind, M_bind in IH |- *. rewrite each_from_cons.
  rewrite bool_decide_eq_false_2 by congruence. exact IH.
Qed.

(** One turn of [uniq]. *)
Definition uniq_add (sorted : bool) (array : list A) (value : A) : list A :=
  if (if sorted then bool_decide (last array = Some value) else bool_decide (value ∈ array))
  then array else array ++ [value].

Lemma uniq_fold sorted l : run (uniq sorted l) = Some (fold_left (uniq_add sorted) l []).
Proof.
  unfold run, uniq, inject. change (each ?f l) with (each_from f 0 l).
  assert (forall i a (s : unit), (i = 0 -> a = []) -> 0 <= i ->
    locally (E := Empty_set) a (each_from (fun value index =>
      memo ← var (L := list A);
      memo ← lift (add ← (if index =? 0 then mret true
           else if sorted then mret (negb (bool_decide (last memo = Some value)))
           else b ← include value memo; mret (negb b));
        mret (if add : bool then memo ++ [value] else memo));
      assign memo) i l;; var) s = (Val (fold_left (uniq_add sorted) l a), s)) as H.
  2: { by rewrite H. }
  induction l as [|x l IH]; intros i a s Hi H0; [done|]. cbn [fold_left].
  rewrite <- (IH (i + 1) (uniq_add sorted a x) s) by lia.
  unfold locally, mbind, M_bind. rewrite each_from_cons. cbn [var lift fst snd].
  unfold lift. cbn [fst snd]. destruct (Z.eqb_spec i 0) as [->|Hne].
  - rewrite (Hi eq_refl). unfold uniq_add. destruct sorted; reflexivity.
  - unfold uniq_add. destruct sorted.
    + cbn. by case_bool_decide.
    + rewrite include_pure. cbn. by case_bool_decide.
Qed.

(** [uniq] keeps the first of equal elements, in the order of the array. *)
Theorem uniq_spec l :
  exists r, run (uniq false l) = Some r /\ NoDup r /\ (forall x, x ∈ r <-> x ∈ l) /\ sublist r l.
Proof.
  rewrite uniq_fold. eexists. split; [done|].
  cut (forall a, NoDup a -> exists t, fold_left (uniq_add false) l a = a ++ t /\ NoDup (a ++ t)
    /\ (forall x, x ∈ a ++ t <-> x ∈ a ++ l) /\ sublist t l).
  { intros H. destruct (H [] (NoDup_nil_2)) as (t & -> & ? & ? & ?). done. }
  induction l as [|x l IH]; intros a Ha; cbn [fold_left].
  - exists []. rewrite app_nil_r. done.
  - unfold uniq_add at 2. case_bool_decide as Hx.
    + destruct (IH a Ha) as (t & -> & Hn & Ht & Hs). exists t. split_and!; [done | done | |by apply sublist_cons].
      intros y. rewrite Ht, !elem_of_app, elem_of_cons. naive_solver.
    + destruct (IH (a ++ [x])) as (t & -> & Hn & Ht & Hs).
      { apply NoDup_app. split_and!; [done | | apply NoDup_singleton].
        intros y Hy ->%list_elem_of_singleton. done. }
      exists (x :: t). rewrite <- app_assoc in Hn |- *. split_and!; [done | done | | by apply sublist_skip].
      intros y. specialize (Ht y). rewrite <- !app_assoc in Ht. exact Ht.
Qed.

Lemma filter_elem (p : A -> bool) l x : x ∈ List.filter p l <-> x ∈ l /\ p x = true.
Proof. rewrite !list_elem_of_In. apply filter_In. Qed.

(** [intersect] answers with the common elements that count as true: zero and
    the empty string are lost, since [detect] returns the element it finds. *)
Theorem intersect_spec truthy m l :
  exists r, run (intersect truthy m l) = Some r /\ NoDup r
    /\ forall x, x ∈ r <-> x ∈ l /\ x ∈ m /\ truthy x = true.
Proof.
  destruct (uniq_spec l) as (u & Hu & Hn & Hm & _). unfold run in Hu.
  destruct (uniq false l tt) as [[u'|e] []] eqn:E; [|done]. injection Hu as ->.
  set (p := fun x : A => bool_decide (x ∈ m) && truthy x).
  assert (forall (x : A) (i : Z) (s : unit), (found ← detect (fun value _ => mret (bool_decide (x = value))) m;
    mret (M := P) match found with Some v => truthy v | None => false end) s = mret (M := P) (p x) s) as Hp.
  { intros x i s. destruct (tests_pure (E := Empty_set) (W := unit) (fun value => bool_decide (x = value)) m s) as (_ & _ & Hd).
    unfold mbind, M_bind. rewrite Hd. unfold p. case_bool_decide as Hin.
    - destruct (List.find _ m) as [v|] eqn:Ef.
      + apply find_some in Ef as [_ Ev]. apply bool_decide_eq_true in Ev as <-. done.
      + apply list_elem_of_In in Hin. apply (find_none _ _ Ef) in Hin.
        by apply bool_decide_eq_false in Hin.
    - destruct (List.find _ m) as [v|] eqn:Ef; [|done].
      apply find_some in Ef as [Hv Ev]. apply bool_decide_eq_true in Ev as <-.
      by apply list_elem_of_In in Hv. }
  exists (List.filter p u). split_and!.
  - unfold run, intersect, mbind at 1, M_bind at 1. rewrite E.
    by rewrite (findAll_value _ p) by exact Hp.
  - apply NoDup_ListNoDup, List.NoDup_filter. by apply NoDup_ListNoDup.
  - intros x. rewrite filter_elem, Hm. unfold p. rewrite andb_true_iff, bool_decide_eq_true. tauto.
Qed.
End facts.

(** On numbers in order, comparing with the last element only is enough. *)
Theorem uniq_sorted l :
  StronglySorted Z.le l -> run (uniq true l) = run (uniq false l).
Proof.
  intros Hs. rewrite !uniq_fold. f_equal.
  cut (forall a, StronglySorted Z.le l -> StronglySorted Z.le a ->
    (forall x y, x ∈ a -> y ∈ l -> x <= y) ->
    fold_left (uniq_add true) l a = fold_left (uniq_add false) l a).
  { intros H. apply H; [done | constructor | by intros x y ?%elem_of_nil]. }
  clear Hs. induction l as [|x l IH]; intros a Hl Ha Hle; [done|]. cbn [fold_left].
  apply StronglySorted_inv in Hl as [Hl Hx].
  assert (bool_decide (last a = Some x) = bool_decide (x ∈ a)) as E.
  { apply bool_decide_ext. unfold last. split.
    - apply znth_elem.
    - intros Hin. destruct a as [|y a _] using rev_ind; [by apply elem_of_nil in Hin|].
      rewrite zlen_app. replace (zlen a + zlen [y] - 1) with (zlen a) by jslia. rewrite znth_app_len.
      assert (y <= x) by (apply Hle; [set_solver | apply list_elem_of_here]).
      apply elem_of_app in Hin as [Hin| ->%list_elem_of_singleton]; [|done].
      assert (x <= y); [|f_equal; lia]. clear -Ha Hin. induction a as [|z a IHa]; [by apply elem_of_nil in Hin|].
      cbn [app] in Ha. apply StronglySorted_inv in Ha as [Ha Hz].
      apply elem_of_cons in Hin as [->|Hin]; [|by apply IHa].
      rewrite Forall_forall in Hz. apply Hz. set_solver. }
  assert (uniq_add true a x = uniq_add false a x) as -> by by unfold uniq_add; rewrite E.
  clear E.
  apply IH; [done | |].
  - unfold uniq_add. cbn beta iota. case_bool_decide; [done|].
    assert (Forall (fun z => z <= x) a) as Hax.
    { apply Forall_forall. intros z Hz. apply Hle; [done | apply list_elem_of_here]. }
    clear -Ha Hax. induction Ha as [|z a Ha IHa Hz]; cbn [app]; [by repeat constructor|].
    apply Forall_cons in Hax as [Hzx Hax]. constructor; [by apply IHa|]. apply Forall_app. split; [done|].
    by repeat constructor.
  - intros z y Hz Hy. unfold uniq_add in Hz. cbn beta iota in Hz. rewrite Forall_forall in Hx.
    case_bool_decide; [apply Hle; [done | by apply list_elem_of_further]|].
    apply elem_of_app in Hz as [Hz|Hz]; [apply Hle; [done | by apply list_elem_of_further]|].
    apply list_elem_of_singleton in Hz as ->. by apply Hx.
Qed.

Lemma uniq_sorted_witness : run (uniq true [1; 1; 2; 5; 5; 7]) = Some [1; 2; 5; 7].
Proof.
  refine (eq_trans (uniq_sorted [1; 1; 2; 5; 5; 7] _) _).
  - repeat (constructor || apply Forall_cons_2 || lia).
  - by vm_compute.
Defined.

(** The replacement of [lastIndexOf] counts back from an index past the end. *)
Example lastIndexOf_past_end : lastIndexOf 1 (Some 5) [1; 2] = 4.
Proof. reflexivity. Qed.

(** ** Nested arrays *)
Section nest_ind.
Context {A : Type} (P : nest A -> Prop).
Hypotheses (HL : forall a, P (Leaf a)) (HN : forall l, Forall P l -> P (Node l)).
Fixpoint nest_nested_ind (n : nest A) : P n :=
  match n with
  | Leaf a => HL a
  | Node l => HN l ((fix go (l : list (nest A)) : Forall P l :=
      match l with [] => Forall_nil_2 P | x :: l => Forall_cons_2 P x l (nest_nested_ind x) (go l) end) l)
  end.
End nest_ind.

(** The elements from left to right, at any depth. *)
Fixpoint leaves {A} (n : nest A) : list A :=
  match n with Leaf a => [a] | Node l => concat (map leaves l) end.

(** A flattened array holds the elements at every depth, in order, and no array. *)
Theorem flatten_leaves {A} (n : nest A) : flatten n = map Leaf (leaves n).
Proof.
  induction n as [a|l IH] using nest_nested_ind; [done|]. cbn [flatten leaves].
  assert (forall acc, fold_left (fun array value => array ++ flatten value) l acc
    = acc ++ map Leaf (concat (map leaves l))) as ->; [|done].
  induction IH as [|x l Hx _ IHl]; intros acc; cbn [fold_left map concat]; [by rewrite app_nil_r|].
  by rewrite IHl, Hx, map_app, app_assoc.
Qed.
End Arr.
