(* ===== verification/ProtoRange.v ===== *)
(** * Numbers and ranges

    [$R(start, end, exclusive)] enumerates the values from [start] by [succ], for
    every type that has [succ] and an order: numbers and strings.  The loop that
    does it ends when the order says so, which it may never do. *)
From S2P Require Import Prelude JsString Json ProtoText ProtoStr ProtoEnum.

Module Range.
Import Enum.

(** ** Numbers *)

(** The digits of a natural number, least first, in a radix up to 36. *)
Definition digit (d : Z) : Z := if d <? 10 then 48 + d else 87 + d.
Fixpoint digits (fuel : nat) (radix n : Z) : jstring :=
  match fuel with
  | O => []
  | S fuel => digit (n mod radix) :: if n <? radix then [] else digits fuel radix (n / radix)
  end.

(** [n.toString(radix)] *)
Definition toString (radix n : Z) : jstring :=
  let text m := rev (digits (S (Z.to_nat (Z.log2 m))) radix m) in
  if n <? 0 then c_dash :: text (- n) else text n.

(** src/piql/scadr/src/main/rails/public/javascripts/prototype.js:980-983
    [toPaddedString(length, radix)]: no radix, or zero, is ten. *)
Definition toPaddedString (length : Z) (radix : option Z) (n : Z) : jstring :=
  let string := toString (match radix with Some r => if r =? 0 then 10 else r | None => 10 end) n in
  Str.times (length - zlen string) (js "0") ++ string.

(** src/piql/scadr/src/main/rails/public/javascripts/prototype.js:967-969
    [toColorPart()] *)
Definition toColorPart (n : Z) : jstring := toPaddedString 2 (Some 16) n.

(** ** Ranges *)

(** What [ObjectRange] asks of its values. *)
Class Steps (V : Type) := { succ : V -> V; ltb : V -> V -> bool }.
Definition leb {V} `{Steps V} (x y : V) : bool := negb (ltb y x).

(** The largest integer from which counting by one goes on. *)
Definition max_safe : Z := 2 ^ 53.

(** src/piql/scadr/src/main/rails/public/javascripts/prototype.js:971-973
    [succ()] of a number: at the limit the sum is rounded back. *)
Definition num_succ (n : Z) : Z := if n =? max_safe then n else n + 1.
#[global] Instance num_steps : Steps Z := {| succ := num_succ; ltb := Z.ltb |}.

(** The order of strings, by code units. *)
Fixpoint str_ltb (s t : jstring) : bool :=
  match s, t with
  | _, [] => false
  | [], _ :: _ => true
  | a :: s, b :: t => (a <? b) || ((a =? b) && str_ltb s t)
  end.
#[global] Instance str_steps : Steps jstring := {| succ := Str.succ; ltb := str_ltb |}.

(** src/piql/scadr/src/main/rails/public/javascripts/prototype.js:1095-1099
    [initialize(start, end, exclusive)] *)
Record range (V : Type) := Range { start : V; end_ : V; exclusive : bool }.
Arguments Range {V} _ _ _.
Arguments start {V} _.
Arguments end_ {V} _.
Arguments exclusive {V} _.

Section range.
Context {V : Type} `{Steps V} {E T : Type}.

(** src/piql/scadr/src/main/rails/public/javascripts/prototype.js:1109-1115
    [include(value)] *)
Definition include (r : range V) (value : V) : bool :=
  if ltb value (start r) then false
  else if exclusive r then ltb value (end_ r)
  else leb value (end_ r).

(** src/piql/scadr/src/main/rails/public/javascripts/prototype.js:1101-1107
    [_each(iterator)]: the loop; [None] if it has not ended within the fuel. *)
Fixpoint each_loop (fuel : nat) (r : range V) (iterator : V -> M E T unit) (value : V) (s : T)
  : option (res E unit * T) :=
  match fuel with
  | O => None
  | S fuel =>
      if include r value then
        match iterator value s with
        | (Val _, s) => each_loop fuel r iterator (succ value) s
        | (Exn e, s) => Some (Exn e, s)
        end
      else Some (Val tt, s)
  end.

(** src/piql/scadr/src/main/rails/public/javascripts/prototype.js:1101-1107
    [_each(iterator)] *)
Definition _each (fuel : nat) (r : range V) (iterator : V -> M E T unit) : T -> option (res E unit * T) :=
  each_loop fuel r iterator (start r).

(** The loop visits the values of a list if they are one the successor of the
    other, all in the range, and the next is not. *)
Fixpoint chain (r : range V) (v : V) (l : list V) : Prop :=
  match l with
  | [] => include r v = false
  | x :: l => v = x /\ include r v = true /\ chain r (succ v) l
  end.

Lemma each_chain fuel r iterator v l i s :
  chain r v l -> (length l < fuel)%nat ->
  each_loop fuel r iterator v s = Some (Enum._each (fun x _ => iterator x) i l s).
Proof.
  revert v i s fuel. induction l as [|x l IH]; intros v i s [|fuel]; cbn [chain length each_loop]; try lia.
  - by intros ->.
  - intros (-> & -> & Hc) Hl. cbn [Enum._each]. unfold mbind, M_bind.
    destruct (iterator x s) as [[[]|e] s']; [|done]. apply IH; [done | lia].
Qed.
End range.

(** src/piql/scadr/src/main/rails/public/javascripts/prototype.js:975-978
    [times(iterator, context)] *)
Definition times {E T} (fuel : nat) (n : Z) (iterator : Z -> M E T unit) : T -> option (res E unit * T) :=
  _each fuel (Range 0 n true) iterator.

(** ** Ranges of numbers *)
Lemma include_num a b ex v :
  include (Range a b ex) v = true <-> a <= v /\ v <= (if ex then b - 1 else b).
Proof.
  unfold include, leb. cbn [start end_ exclusive ltb num_steps].
  destruct (Z.ltb_spec v a), ex; rewrite ?negb_true_iff, ?Z.ltb_lt, ?Z.ltb_ge;
    split; try done; lia.
Qed.

Lemma num_chain (a b : Z) ex n :
  a + Z.of_nat n = (if ex : bool then b else b + 1) -> a + Z.of_nat n <= max_safe -> forall a0, a0 <= a ->
  chain (Range a0 b ex) a (seqZ a (Z.of_nat n)).
Proof.
  intros Hn Hs a0 H0. revert a Hn Hs H0. induction n as [|n IH]; intros a Hn Hs H0.
  - cbn [chain seqZ]. apply not_true_iff_false. rewrite include_num. destruct ex; lia.
  - rewrite seqZ_cons by lia. cbn [chain]. split_and!; [done | apply include_num; destruct ex; lia |].
    cbn [succ num_steps]. unfold num_succ. rewrite (proj2 (Z.eqb_neq a max_safe)) by lia.
    replace (Z.pred (Z.of_nat (S n))) with (Z.of_nat n) by lia. apply IH; lia.
Qed.

(** A range of numbers up to 2^53 calls the iterator on the numbers from its
    start to its end, in order, and ends. *)
Theorem number_range {E T} (it : Z -> M E T unit) a b ex fuel s :
  let n := (if ex : bool then b - a else b + 1 - a) in
  b <= max_safe - 1 -> n < Z.of_nat fuel -> (0 < fuel)%nat ->
  _each fuel (Range a b ex) it s = Some (Enum._each (fun x _ => it x) 0 (seqZ a n) s).
Proof.
  intros n Hb Hf H0. unfold _each. cbn [start].
  destruct (decide (0 <= n)) as [Hn|Hn].
  - apply each_chain; [|rewrite length_seqZ; lia]. rewrite <- (Z2Nat.id n) by done.
    apply num_chain; [| |lia]; unfold n in *; destruct ex; lia.
  - rewrite seqZ_nil by lia. apply (each_chain _ _ _ _ []); [|simpl; lia]. cbn [chain].
    apply not_true_iff_false. rewrite include_num. unfold n in *. destruct ex; lia.
Qed.

(** A range that reaches beyond 2^53 never ends: the loop comes to a number that
    is its own successor. *)
Theorem number_range_stuck {E T} (it : Z -> M E T unit) a b ex fuel s :
  a <= max_safe -> max_safe < b -> (forall x s, exists s', it x s = (Val tt, s')) ->
  _each fuel (Range a b ex) it s = None.
Proof.
  intros Ha Hb Hit. unfold _each. cbn [start].
  cut (forall v, a <= v <= max_safe -> each_loop fuel (Range a b ex) it v s = None).
  { intros H. apply H. lia. }
  revert s. induction fuel as [|fuel IH]; intros s v Hv; [done|]. cbn [each_loop].
  rewrite (proj2 (include_num a b ex v)) by (destruct ex; lia).
  destruct (Hit v s) as [s' ->]. apply IH. cbn [succ num_steps]. unfold num_succ.
  destruct (Z.eqb_spec v max_safe); lia.
Qed.

Definition collect_all : Z -> M Empty_set (list Z) unit := fun x s => (Val tt, s ++ [x]).

Lemma number_range_witness :
  _each 10 (Range 3 7 false) collect_all [] = Some (Val tt, [3; 4; 5; 6; 7]).
Proof. refine (eq_trans (number_range collect_all 3 7 false 10 [] _ _ _) _); [done | done | lia | done]. Defined.

Lemma number_range_stuck_witness :
  forall fuel, _each fuel (Range 9007199254740990 9007199254740994 false) collect_all [] = None.
Proof. intros fuel. apply (number_range_stuck collect_all); [done | done |]. intros x s. by eexists. Defined.

(** ** Ranges of strings *)
Lemma str_ltb_last p c d : str_ltb (p ++ [c]) (p ++ [d]) = (c <? d).
Proof.
  induction p as [|a p IH]; cbn [app str_ltb]; [by rewrite andb_false_r, orb_false_r|].
  by rewrite Z.ltb_irrefl, Z.eqb_refl, IH.
Qed.

Lemma succ_last p c : Str.succ (p ++ [c]) = p ++ [(c + 1) mod 65536].
Proof.
  unfold Str.succ. replace (zlen (p ++ [c]) - 1) with (zlen p) by jslia.
  rewrite slice_0_id by jslia. rewrite ztake_app_len. unfold Str.charCodeAt. by rewrite znth_app_len.
Qed.

(** The elements in front of the first that fails. *)
Fixpoint while_true {A} (ok : A -> bool) (l : list A) : list A :=
  match l with
  | [] => []
  | x :: l => if ok x then x :: while_true ok l else []
  end.

Section strings.
Variables (p : jstring) (c : Z) (e : jstring) (ex : bool).
Abbreviation r := (Range (p ++ [c]) e ex).

Lemma string_chain n k :
  0 < c <= k -> k + Z.of_nat n = 65536 ->
  chain r (p ++ [k mod 65536]) (while_true (include r) (map (fun k => p ++ [k]) (seqZ k (Z.of_nat n)))).
Proof.
  revert k. induction n as [|n IH]; intros k Hk Hn.
  - rewrite seqZ_nil by lia. cbn [map while_true chain]. replace (k mod 65536) with 0 by (replace k with 65536 by lia; done).
    unfold include. change (ltb (p ++ [0]) (start r)) with (str_ltb (p ++ [0]) (p ++ [c])).
    rewrite str_ltb_last. by rewrite (proj2 (Z.ltb_lt 0 c)) by lia.
  - rewrite seqZ_cons by lia. cbn [map while_true]. rewrite Z.mod_small by lia.
    destruct (include r (p ++ [k])) eqn:E; cbn [chain]; [|done]. split_and!; [done | done |].
    cbn [succ str_steps]. rewrite succ_last. replace (Z.pred (Z.of_nat (S n))) with (Z.of_nat n) by lia.
    apply IH; lia.
Qed.
End strings.

(** The strings that a range can visit. *)
Definition last_steps (p : jstring) (c : Z) : list jstring := map (fun k => p ++ [k]) (seqZ c (65536 - c)).

(** A range of strings counts the last code unit up, as long as the string is
    not past the end, and stops at the latest when it wraps around. *)
Theorem string_range {E T} (it : jstring -> M E T unit) p c e ex fuel s :
  let visited := while_true (include (Range (p ++ [c]) e ex)) (last_steps p c) in
  0 < c < 65536 -> (length visited < fuel)%nat ->
  _each fuel (Range (p ++ [c]) e ex) it s = Some (Enum._each (fun x _ => it x) 0 visited s).
Proof.
  intros visited Hc Hf. apply each_chain; [|done]. cbn [start].
  pose proof (string_chain p c e ex (Z.to_nat (65536 - c)) c ltac:(lia) ltac:(lia)) as H.
  rewrite Z2Nat.id, Z.mod_small in H by lia. exact H.
Qed.

Definition collect_strings : jstring -> M Empty_set (list jstring) unit := fun x s => (Val tt, s ++ [x]).

Lemma string_range_witness :
  _each 10 (Range (js "x8") (js "x;") false) collect_strings []
  = Some (Val tt, [js "x8"; js "x9"; js "x:"; js "x;"]).
Proof.
  refine (eq_trans (string_range collect_strings (js "x") 56 (js "x;") false 10 [] _ _) _).
  - done.
  - apply Nat.ltb_lt. reflexivity.
  - reflexivity.
Defined.

(** ** Padded numbers *)
Lemma digits_length fuel radix n : (0 < fuel)%nat -> (0 < length (digits fuel radix n))%nat.
Proof. destruct fuel; [lia|]. intros _. simpl. lia. Qed.

(** The value of digits, least first. *)
Definition digit_val (c : Z) : Z := if c <? 58 then c - 48 else c - 87.
Fixpoint value (radix : Z) (ds : jstring) : Z :=
  match ds with [] => 0 | d :: ds => digit_val d + radix * value radix ds end.

Lemma digit_val_digit d : 0 <= d < 36 -> digit_val (digit d) = d.
Proof. intros H. unfold digit_val, digit. destruct (Z.ltb_spec d 10); case_match; lia. Qed.

Lemma digits_value fuel radix n :
  2 <= radix <= 36 -> 0 <= n -> n < 2 ^ Z.of_nat fuel -> value radix (digits fuel radix n) = n.
Proof.
  intros Hr. revert n. induction fuel as [|fuel IH]; intros n Hn Hf; [cbn in *; lia|].
  cbn [digits value]. pose proof (Z.mod_pos_bound n radix ltac:(lia)).
  rewrite digit_val_digit by lia. destruct (Z.ltb_spec n radix).
  - rewrite Z.mod_small by lia. cbn [value]. lia.
  - rewrite IH; [rewrite (Z.div_mod n radix) at 3; lia | apply Z.div_pos; lia |].
    rewrite Nat2Z.inj_succ, Z.pow_succ_r in Hf by lia.
    apply Z.div_lt_upper_bound; [lia|]. nia.
Qed.

(** A padded number has at least the length asked for, and still denotes the
    number. *)
Theorem padded_number len radix n :
  2 <= radix <= 36 -> 0 <= n ->
  let s := toPaddedString len (Some radix) n in
  zlen s = Z.max len (zlen (toString radix n)) /\ value radix (rev s) = n.
Proof.
  intros Hr Hn. cbn zeta. unfold toPaddedString. rewrite (proj2 (Z.eqb_neq radix 0)) by lia.
  assert (value radix (rev (toString radix n)) = n) as Hv.
  { unfold toString. rewrite (proj2 (Z.ltb_ge n 0)) by lia. rewrite rev_involutive.
    apply digits_value; [done | done |]. rewrite Nat2Z.inj_succ, Z2Nat.id by apply Z.log2_nonneg.
    destruct (decide (n = 0)) as [->|]; [done|]. apply Z.log2_spec. lia. }
  generalize dependent (toString radix n). intros t Ht.
  assert (exists k, Str.times (len - zlen t) (js "0") = replicate k 48 /\ Z.of_nat k = Z.max 0 (len - zlen t))
    as (k & -> & Hk).
  { unfold Str.times. destruct (Z.ltb_spec (len - zlen t) 1); [exists 0%nat; split; [done | lia]|].
    exists (Z.to_nat (len - zlen t)). split; [|lia].
    replace (Z.to_nat (len - zlen t + 1)) with (S (Z.to_nat (len - zlen t))) by lia.
    generalize (Z.to_nat (len - zlen t)) as j. induction j as [|j IH]; [done|].
    change (join (js "0") (replicate (S (S j)) [])) with (js "0" ++ join (js "0") (replicate (S j) [])).
    by rewrite IH. }
  split; [rewrite zlen_app; unfold zlen at 1; rewrite length_replicate; lia|].
  rewrite rev_app_distr, <- Ht. generalize (rev t) as u. clear. intros u.
  induction u as [|d u IH]; cbn [app value]; [|by rewrite IH].
  assert (forall l, (forall d, d ∈ l -> d = 48) -> value radix l = 0) as H.
  { clear. induction l as [|d l IH]; intros H; [done|]. cbn [value].
    rewrite (H d) by apply list_elem_of_here. rewrite IH; [cbn; lia|].
    intros x Hx. by apply H, list_elem_of_further. }
  apply H. intros d Hd. apply list_elem_of_In, in_rev, list_elem_of_In in Hd.
  by apply elem_of_replicate in Hd as [? _].
Qed.

Lemma padded_number_witness : toColorPart 10 = js "0a" /\ value 16 (rev (toColorPart 10)) = 10.
Proof.
  destruct (padded_number 2 16 10) as [_ H]; [done | done |]. split; [reflexivity|]. exact H.
Defined.
End Range.
