(* ===== verification/ProtoJson.v ===== *)
(** * JSON in Prototype

    [toJSON] prints strings, numbers, arrays and objects as literals of the
    language; [evalJSON] reads them back with [eval], if asked to only after the
    test [isJSON] on the text. *)
From S2P Require Import Prelude JsString Json ProtoText ProtoStr ProtoRange ProtoQuery.

Module PJson.
Import Text Str.

(** ** Printing *)

(** src/piql/scadr/src/main/rails/public/javascripts/prototype.js:332-339
    [String.specialChar] *)
Definition specialChar (c : Z) : option jstring :=
  if c =? 8 then Some (js "\b") else if c =? c_tab then Some (js "\t")
  else if c =? c_nl then Some (js "\n") else if c =? 12 then Some (js "\f")
  else if c =? c_cr then Some (js "\r") else if c =? c_bslash then Some (js "\\")
  else None.

Definition control (c : Z) : bool := ((0 <=? c) && (c <=? 31)) || (c =? c_bslash).

(** src/piql/scadr/src/main/rails/public/javascripts/prototype.js:479-482
    [inspect(useDoubleQuotes)]: the replacement of a character. *)
Definition escape_control (c : Z) : jstring :=
  match specialChar c with
  | Some character => character
  | None => js "\u00" ++ Range.toPaddedString 2 (Some 16) c
  end.

(** src/piql/scadr/src/main/rails/public/javascripts/prototype.js:478-485
    [inspect(useDoubleQuotes)] *)
Definition inspect (useDoubleQuotes : bool) (this : jstring) : outcome jstring :=
  escapedString ← gsub (leftmost (class control))
    (fun m => mret (match m_text m with c :: _ => Json.VStr (escape_control c) | [] => Json.VUndef end)) this;
  mret (if useDoubleQuotes
        then c_quote :: replace_char c_quote [c_bslash; c_quote] escapedString ++ [c_quote]
        else c_apos :: replace_char c_apos [c_bslash; c_apos] escapedString ++ [c_apos]).

(** src/piql/scadr/src/main/rails/public/javascripts/prototype.js:487-489
    [toJSON()] of a string *)
Definition str_toJSON (this : jstring) : outcome jstring := inspect true this.

(** src/piql/scadr/src/main/rails/public/javascripts/prototype.js:985-987
    [toJSON()] of a number, which is finite here *)
Definition num_toJSON (this : Z) : jstring := num_str this.

(** The values that are not [undefined]. *)
Definition defined {A} (l : list (option A)) : list A := omap id l.

(** src/piql/scadr/src/main/rails/public/javascripts/prototype.js:124-145
    [Object.toJSON(object)], with [toJSON()] of arrays at lines 914-921; [None]
    is [undefined]. *)
Fixpoint toJSON (object : Json.jval) : outcome (option jstring) :=
  match object with
  | Json.VUndef | Json.VFun _ => mret None
  | Json.VBool b => mret (Some (if b then js "true" else js "false"))
  | Json.VNull => mret (Some (js "null"))
  | Json.VStr s => t ← str_toJSON s; mret (Some t)
  | Json.VNum z => mret (Some (num_toJSON z))
  | Json.VArr l =>
      results ← mapM_out toJSON l;
      mret (Some (c_lbrack :: join (js ", ") (defined results) ++ [c_rbrack]))
  | Json.VObj l =>
      results ← mapM_out (fun p : jstring * Json.jval =>
        value ← toJSON p.2;
        match value with
        | Some value => property ← str_toJSON p.1; mret (Some (property ++ js ": " ++ value))
        | None => mret None
        end) l;
      mret (Some (c_lbrace :: join (js ", ") (defined results) ++ [c_rbrace]))
  end.

(** src/piql/scadr/src/main/rails/public/javascripts/prototype.js:914-921
    [toJSON()] of an array *)
Definition arr_toJSON (this : list Json.jval) : outcome (option jstring) := toJSON (Json.VArr this).

(** src/piql/scadr/src/main/rails/public/javascripts/prototype.js:1082-1084
    [toJSON()] of a hash *)
Definition hash_toJSON (this : Query.object) : outcome (option jstring) :=
  toJSON (Json.VObj (Query.toObject this)).

(** ** Reading *)

(** [/\\./], the backslash with the character after it. *)
Definition escape_at : matcher := fun s =>
  match s with
  | b :: c :: _ => if (b =? c_bslash) && negb (is_lineterm c) then Some ([b; c], []) else None
  | _ => None
  end.

Definition string_char (c : Z) : bool :=
  negb ((c =? c_quote) || (c =? c_bslash) || (c =? c_nl) || (c =? c_cr)).

(** A string literal without escapes. *)
Definition string_at : matcher := fun s =>
  match s with
  | q :: r =>
      if q =? c_quote then
        match span string_char r with
        | (a, e :: _) => if e =? c_quote then Some (q :: a ++ [e], []) else None
        | (_, []) => None
        end
      else None
  | [] => None
  end.

(** The characters of numbers, of the punctuation and of the three words. *)
Definition json_char (c : Z) : bool :=
  bool_decide (c ∈ js ",:{}[].-+Eaefln") || is_digit c || ((114 <=? c) && (c <=? 117))
  || (c =? c_space) || (c =? c_nl) || (c =? c_cr) || (c =? c_tab).

(** src/piql/scadr/src/main/rails/public/javascripts/prototype.js:495-500
    [isJSON()] *)
Definition isJSON (this : jstring) : bool :=
  if blank this then false else
  let str := replace_all string_at [] (replace_all escape_at [64] this) in
  forallb json_char str.

(** src/piql/scadr/src/main/rails/public/javascripts/prototype.js:33-33
    [Prototype.JSONFilter]: the whole text, without the spaces at the end. *)
Definition JSONFilter : regex := fun s =>
  let body := rev (drop_white (rev s)) in
  if prefixb (js "/*-secure-") s && prefixb (js "/*") (rev body) && (12 <=? zlen body)
  then Some (Match 0 s s [Some (slice 10 (zlen body - 2) body)]) else None.

Section eval.
Variable inherited : Json.jval -> jstring -> Json.jval.
(** [eval(text)] of the engine. *)
Variable eval : jstring -> outcome Json.jval.

(** src/piql/scadr/src/main/rails/public/javascripts/prototype.js:491-493
    [unfilterJSON(filter)] *)
Definition unfilterJSON (filter : option regex) (this : jstring) : outcome jstring :=
  sub (default JSONFilter filter) (prepareReplacement inherited (js "#{1}")) None this.

(** src/piql/scadr/src/main/rails/public/javascripts/prototype.js:502-508
    [evalJSON(sanitize)]; it throws a [SyntaxError] where [eval] throws. *)
Definition evalJSON (sanitize : bool) (this : jstring) : outcome Json.jval :=
  json ← unfilterJSON None this;
  if negb sanitize || isJSON json then eval (c_lparen :: json ++ [c_rparen]) else Throws.
End eval.

(** ** What [inspect] writes *)
Definition quote1 (q c : Z) : jstring :=
  if control c then escape_control c else if c =? q then [c_bslash; q] else [c].

Lemma control_range c : control c = true <-> 0 <= c <= 31 \/ c = c_bslash.
Proof. unfold control. rewrite orb_true_iff, andb_true_iff, !Z.leb_le, Z.eqb_eq. done. Qed.

(** A fact about all control characters, by cases. *)
Lemma control_cases (P : Z -> bool) :
  forallb P (c_bslash :: seqZ 0 32) = true -> forall c, control c = true -> P c = true.
Proof.
  rewrite forallb_forall. intros H c Hc. apply H. apply control_range in Hc as [Hc| ->]; [|by left].
  right. apply list_elem_of_In, elem_of_seqZ. lia.
Qed.

Lemma inspect_double s :
  inspect true s = Returns (c_quote :: List.flat_map (quote1 c_quote) s ++ [c_quote]).
Proof.
  unfold inspect.
  rewrite (gsub_replace_g _ _ (fun t _ => match t with c :: _ => escape_control c | [] => [] end)).
  - cbn [mbind outcome_bind]. rewrite replace_g_class, replace_char_flat_map.
    do 3 f_equal. apply List.flat_map_ext. intros c. unfold quote1.
    destruct (control c) eqn:Hc; [|by rewrite replace_char1].
    apply replace_char_none.
    revert c Hc. assert (forall c, control c = true -> negb (bool_decide (c_quote ∈ escape_control c)) = true) as H.
    { apply control_cases. by vm_compute. }
    intros c Hc Hin. specialize (H c Hc). by rewrite bool_decide_eq_true_2 in H.
  - apply class_solid.
  - intros t m Hm. destruct (m_text m) as [|c t']; [by eexists|]. by eexists.
Qed.

(** ** The two replacements of [isJSON] *)
Abbreviation drop_escapes := (replace_all escape_at [64]).
Abbreviation drop_strings := (replace_all string_at []).

(** A text that the replacements turn into [w], whatever follows it. *)
Definition reduces (t w : jstring) : Prop :=
  exists u, (forall r, drop_escapes (t ++ r) = u ++ drop_escapes r)
    /\ (forall r, drop_strings (u ++ r) = w ++ drop_strings r).

Lemma reduces_app a b v w : reduces a v -> reduces b w -> reduces (a ++ b) (v ++ w).
Proof.
  intros (u1 & H1 & H2) (u2 & H3 & H4). exists (u1 ++ u2). split; intros r.
  - by rewrite <- !app_assoc, H1, H3.
  - by rewrite <- !app_assoc, H2, H4.
Qed.

Lemma drop_escapes_char c r : c <> c_bslash -> drop_escapes (c :: r) = c :: drop_escapes r.
Proof.
  intros H. unfold replace_all. cbn [replace_g]. unfold escape_at at 1.
  destruct r; [done|]. by rewrite (proj2 (Z.eqb_neq c c_bslash)) by done.
Qed.

Lemma drop_escapes_escape d r : is_lineterm d = false -> drop_escapes (c_bslash :: d :: r) = 64 :: drop_escapes r.
Proof.
  intros H. unfold replace_all.
  change (c_bslash :: d :: r) with ([c_bslash; d] ++ r). rewrite (replace_g_match _ _ _ []); [done | done |].
  unfold escape_at. cbn [app]. by rewrite H.
Qed.

Lemma drop_strings_char c r : c <> c_quote -> drop_strings (c :: r) = c :: drop_strings r.
Proof.
  intros H. unfold replace_all. cbn [replace_g]. unfold string_at at 1.
  by rewrite (proj2 (Z.eqb_neq c c_quote)) by done.
Qed.

Lemma drop_strings_string a r :
  forallb string_char a = true -> drop_strings (c_quote :: a ++ c_quote :: r) = drop_strings r.
Proof.
  intros Ha. unfold replace_all.
  replace (c_quote :: a ++ c_quote :: r) with ((c_quote :: a ++ [c_quote]) ++ r)
    by (cbn [app]; by rewrite <- app_assoc).
  rewrite (replace_g_match _ _ _ []); [done | done |].
  unfold string_at. cbn [app]. rewrite Z.eqb_refl, <- app_assoc. cbn [app].
  rewrite span_stop by done. by rewrite Z.eqb_refl.
Qed.

Lemma reduces_char c : c <> c_bslash -> c <> c_quote -> reduces [c] [c].
Proof.
  intros H1 H2. exists [c]. split; intros r; cbn [app]; [by apply drop_escapes_char | by apply drop_strings_char].
Qed.

(** The inside of a string literal: characters, and escapes. *)
Inductive body : jstring -> Prop :=
| body_nil : body []
| body_char c b : string_char c = true -> body b -> body (c :: b)
| body_escape d b : is_lineterm d = false -> body b -> body (c_bslash :: d :: b).

Lemma body_app a b : body a -> body b -> body (a ++ b).
Proof. intros Ha Hb. induction Ha; cbn [app]; [done | by apply body_char | by apply body_escape]. Qed.

Lemma body_drop b : body b ->
  exists u, forallb string_char u = true /\ forall r, drop_escapes (b ++ r) = u ++ drop_escapes r.
Proof.
  induction 1 as [|c b Hc _ (u & Hu & H)|d b Hd _ (u & Hu & H)].
  - exists []. done.
  - exists (c :: u). cbn [forallb]. rewrite Hc, Hu. split; [done|]. intros r. cbn [app].
    rewrite drop_escapes_char, H; [done|]. intros ->. done.
  - exists (64 :: u). cbn [forallb]. rewrite Hu. split; [done|]. intros r. cbn [app].
    by rewrite drop_escapes_escape, H.
Qed.

Lemma reduces_quoted b : body b -> reduces (c_quote :: b ++ [c_quote]) [].
Proof.
  intros (u & Hu & H)%body_drop. exists (c_quote :: u ++ [c_quote]). split; intros r; cbn [app].
  - rewrite drop_escapes_char by done. rewrite <- !app_assoc, H. cbn [app]. by rewrite drop_escapes_char by done.
  - rewrite <- app_assoc. cbn [app]. by apply drop_strings_string.
Qed.

Lemma quote1_body c : body (quote1 c_quote c).
Proof.
  unfold quote1. destruct (control c) eqn:Hc.
  - revert c Hc.
    assert (forall c, control c = true -> match escape_control c with
      | b :: d :: r => (b =? c_bslash) && negb (is_lineterm d) && forallb string_char r | _ => false end = true) as H.
    { apply control_cases. by vm_compute. }
    intros c Hc. specialize (H c Hc). destruct (escape_control c) as [|b [|d r]]; [done..|].
    apply andb_true_iff in H as [[->%Z.eqb_eq Hd%negb_true_iff]%andb_true_iff Hr].
    apply body_escape; [done|]. clear -Hr. induction r as [|x r IH]; [constructor|].
    cbn [forallb] in Hr. apply andb_true_iff in Hr as [Hx Hr]. apply body_char; [done | by apply IH].
  - destruct (Z.eqb_spec c c_quote) as [->|Hq]; [by apply body_escape; [|constructor]|].
    apply body_char; [|constructor]. unfold string_char. apply negb_true_iff.
    rewrite (proj2 (Z.eqb_neq c c_quote)) by done. cbn [orb].
    destruct (Z.eqb_spec c c_bslash) as [->|]; [done|].
    destruct (Z.eqb_spec c c_nl) as [->|]; [done|]. by destruct (Z.eqb_spec c c_cr) as [->|].
Qed.

(** ** [isJSON] accepts what [toJSON] prints *)
Definition json_text (t : jstring) : Prop := exists w, reduces t w /\ forallb json_char w = true.

Lemma json_text_app a b : json_text a -> json_text b -> json_text (a ++ b).
Proof.
  intros (v & Hv & Hcv) (w & Hw & Hcw). exists (v ++ w). split; [by apply reduces_app|].
  by rewrite forallb_app, Hcv, Hcw.
Qed.
Lemma json_text_nil : json_text [].
Proof. exists []. split; [|done]. exists []. done. Qed.
Lemma json_text_cons c t : json_char c = true -> json_text t -> json_text (c :: t).
Proof.
  intros Hc. apply (json_text_app [c]). exists [c]. split; [|cbn; by rewrite Hc].
  apply reduces_char; intros ->; done.
Qed.
Lemma json_text_chars t : forallb json_char t = true -> json_text t.
Proof.
  induction t as [|c t IH]; [by intros; apply json_text_nil|]. cbn [forallb].
  intros [Hc Ht]%andb_true_iff. apply json_text_cons; auto.
Qed.

Lemma json_text_string s t : str_toJSON s = Returns t -> json_text t.
Proof.
  unfold str_toJSON. rewrite inspect_double. intros [= <-]. exists []. split; [|done].
  apply reduces_quoted. induction s as [|c s IH]; cbn [List.flat_map]; [constructor|].
  apply body_app; [apply quote1_body | done].
Qed.

Lemma json_text_join l : Forall json_text l -> json_text (join (js ", ") l).
Proof.
  induction 1 as [|t l Ht Hl IH]; [apply json_text_nil|]. destruct l as [|u l]; [done|].
  change (join (js ", ") (t :: u :: l)) with (t ++ js ", " ++ join (js ", ") (u :: l)).
  apply json_text_app; [done|]. apply json_text_app; [by apply json_text_chars | done].
Qed.

Lemma uint_digits d : forallb is_digit (js (DecimalString.NilEmpty.string_of_uint d)) = true.
Proof. induction d; simpl; done. Qed.

Lemma json_text_num z : json_text (num_str z).
Proof.
  apply json_text_chars.
  assert (forall s, forallb is_digit s = true -> forallb json_char s = true) as H.
  { intros s. rewrite !forallb_forall. intros Hs x Hx. unfold json_char. rewrite (Hs x Hx). by rewrite orb_true_r. }
  unfold num_str, DecimalString.NilZero.string_of_int, DecimalString.NilZero.string_of_uint.
  destruct (Z.to_int z) as [d|d]; destruct d; simpl; try done; by apply H, uint_digits.
Qed.

(** What is printed, if anything: a text of JSON that does not begin with a space. *)
Definition printable (o : option jstring) : Prop :=
  match o with Some t => json_text t /\ blank t = false | None => True end.

Lemma json_text_defined l : Forall printable l -> Forall json_text (defined l).
Proof.
  unfold defined. induction 1 as [|[t|] l Ht _ IH]; cbn; [constructor | constructor; [apply Ht | done] | done].
Qed.

Lemma num_str_not_blank z : blank (num_str z) = false.
Proof.
  unfold num_str, DecimalString.NilZero.string_of_int, DecimalString.NilZero.string_of_uint.
  destruct (Z.to_int z) as [d|d]; destruct d; done.
Qed.

Lemma str_toJSON_returns s : exists t, str_toJSON s = Returns t /\ json_text t /\ blank t = false.
Proof.
  eexists. split; [apply inspect_double|]. split; [|done]. eapply json_text_string.
  unfold str_toJSON. apply inspect_double.
Qed.

Lemma toJSON_printable v : exists o, toJSON v = Returns o /\ printable o.
Proof.
  induction v as [|s|b| |l IH|l IH|s|z] using Json.jval_nested_ind.
  - by exists None.
  - by exists None.
  - eexists. split; [reflexivity|]. destruct b; (split; [by apply json_text_chars | done]).
  - eexists. split; [reflexivity|]. split; [by apply json_text_chars | done].
  - destruct (mapM_out_all toJSON printable l IH) as (rs & Hrs & HF).
    eexists. cbn [toJSON]. rewrite Hrs. split; [reflexivity|]. split; [|done].
    apply json_text_cons; [done|]. apply json_text_app; [|by apply json_text_chars].
    by apply json_text_join, json_text_defined.
  - edestruct (mapM_out_all (fun p : jstring * Json.jval =>
        value ← toJSON p.2;
        match value with
        | Some value => property ← str_toJSON p.1; mret (Some (property ++ js ": " ++ value))
        | None => mret None
        end) printable l) as (rs & Hrs & HF).
    { eapply Forall_impl; [exact IH|]. intros [k v] (o & Ho & Hp). cbn [fst snd] in *. rewrite Ho.
      cbn [mbind outcome_bind]. destruct o as [t|]; [|by exists None].
      destruct (str_toJSON_returns k) as (tk & -> & Hk & Hb). eexists. split; [reflexivity|].
      destruct Hp as [Ht _]. split.
      - apply json_text_app; [done|]. apply json_text_app; [by apply json_text_chars | done].
      - unfold blank in *. rewrite forallb_app. by rewrite Hb. }
    eexists. cbn [toJSON]. rewrite Hrs. split; [reflexivity|]. split; [|done].
    apply json_text_cons; [done|]. apply json_text_app; [|by apply json_text_chars].
    by apply json_text_join, json_text_defined.
  - destruct (str_toJSON_returns s) as (t & Ht & ? & ?). exists (Some t). cbn [toJSON]. rewrite Ht. done.
  - eexists. split; [reflexivity|]. split; [apply json_text_num | apply num_str_not_blank].
Qed.

(** [toJSON] returns for every value, and what it prints passes [isJSON]: data
    that were printed are not turned down when they are read with the test. *)
Theorem toJSON_isJSON v :
  exists o, toJSON v = Returns o /\ match o with Some t => isJSON t = true | None => True end.
Proof.
  destruct (toJSON_printable v) as (o & Ho & Hp). exists o. split; [done|].
  destruct o as [t|]; [|done]. destruct Hp as [(w & (u & H1 & H2) & Hw) Hb].
  unfold isJSON. rewrite Hb. specialize (H1 []). specialize (H2 []).
  change (drop_escapes []) with (@nil Z) in H1. change (drop_strings []) with (@nil Z) in H2.
  rewrite !app_nil_r in H1. rewrite !app_nil_r in H2. by rewrite H1, H2.
Qed.

(** ** Reading a string literal *)
Definition hex_val (c : Z) : option Z :=
  if is_digit c then Some (c - 48)
  else if (97 <=? c) && (c <=? 102) then Some (c - 87)
  else if (65 <=? c) && (c <=? 70) then Some (c - 55) else None.

(** The inside of a string literal of the language up to the closing quote:
    its value, and the text behind it. *)
Fixpoint literal_body (q : Z) (s : jstring) : option (jstring * jstring) :=
  match s with
  | [] => None
  | c :: s =>
      if c =? q then Some ([], s)
      else if is_lineterm c then None
      else if c =? c_bslash then
        match s with
        | [] => None
        | d :: s =>
            if d =? c_u then
              match s with
              | w :: x :: y :: z :: s =>
                  a ← hex_val w; b ← hex_val x; c ← hex_val y; d ← hex_val z;
                  '(r, t) ← literal_body q s;
                  Some (((a * 16 + b) * 16 + c) * 16 + d :: r, t)
              | _ => None
              end
            else
              e ← Json.unescape d;
              '(r, t) ← literal_body q s;
              Some (e :: r, t)
        end
      else '(r, t) ← literal_body q s; Some (c :: r, t)
  end.
Definition string_literal (s : jstring) : option jstring :=
  match s with
  | q :: s => '(r, t) ← literal_body q s; if bool_decide (t = []) then Some r else None
  | [] => None
  end.

Lemma literal_body_quote1 c s :
  Json.no_separator [c] = true ->
  literal_body c_quote (quote1 c_quote c ++ s)
  = '(r, t) ← literal_body c_quote s; Some (c :: r, t).
Proof.
  intros Hc. unfold quote1. destruct (control c) eqn:Hctl.
  - clear Hc. assert (c ∈ c_bslash :: seqZ 0 32) as Hin.
    { apply control_range in Hctl as [?| ->]; [|apply list_elem_of_here].
      apply list_elem_of_further, elem_of_seqZ. lia. }
    clear Hctl. revert Hin. vm_compute (seqZ 0 32).
    intros Hin. repeat (apply elem_of_cons in Hin as [->|Hin]; [reflexivity|]). by apply elem_of_nil in Hin.
  - destruct (Z.eqb_spec c c_quote) as [->|Hq]; [reflexivity|]. cbn [app literal_body].
    rewrite (proj2 (Z.eqb_neq c c_quote)) by done.
    assert (is_lineterm c = false) as ->.
    { unfold is_lineterm. unfold Json.no_separator in Hc. cbn [forallb] in Hc.
      destruct (Z.eqb_spec c 10) as [->|]; [done|]. destruct (Z.eqb_spec c 13) as [->|]; [done|].
      by destruct (c =? 8232), (c =? 8233). }
    destruct (Z.eqb_spec c c_bslash) as [->|]; [done|]. done.
Qed.

(** A string that [inspect] quotes is read back by the language as it was, when
    it holds none of the two line separators that literals must not hold. *)
Theorem inspect_literal s :
  Json.no_separator s = true ->
  exists t, inspect true s = Returns t /\ string_literal t = Some s.
Proof.
  intros Hs. eexists. split; [apply inspect_double|]. cbn [string_literal].
  assert (literal_body c_quote (List.flat_map (quote1 c_quote) s ++ [c_quote]) = Some (s, [])) as ->; [|done].
  induction s as [|c s IH]; [done|]. cbn [List.flat_map].
  unfold Json.no_separator in Hs. cbn [forallb] in Hs. apply andb_true_iff in Hs as [Hc Hs].
  rewrite <- app_assoc, literal_body_quote1, IH; [done | done |]. cbn. by rewrite Hc.
Qed.

Lemma inspect_literal_witness :
  exists t, inspect true (js "a\b" ++ [c_quote; c_nl; 1]) = Returns t
    /\ string_literal t = Some (js "a\b" ++ [c_quote; c_nl; 1]).
Proof. apply inspect_literal. reflexivity. Defined.
End PJson.
