(* ===== verification/ProtoAjax.v ===== *)
(** * Ajax requests and periodical calls

    A request is created with options, announces itself to the responders, opens
    and sends a transport of the browser, and turns the changes of its state into
    calls of the handlers in the options and of the responders; the first
    responder counts the active requests.  What the page's handlers do is a
    parameter: which exist and which throw.  The calls are logged in order. *)
From S2P Require Import Prelude JsString Json ProtoText ProtoStr JsUri ProtoQuery ProtoEnum.

Module Ajax.
Import Text Enum.

(** ** The request line *)

(** The parameters as they are given: a query, or an object (or hash). *)
Inductive params := PQuery (q : jstring) | PObject (o : Query.object).

Record options := Options {
  o_method : jstring; o_async : bool; o_parameters : Query.object; o_postBody : option jstring }.

Section request_line.
Variable builtin : jstring -> jstring.
(** The browser calls itself Konqueror, Safari or KHTML. *)
Variable khtml : bool.

(** src/piql/scadr/src/main/rails/public/javascripts/prototype.js:1169-1187
    [initialize(options)] of [Ajax.Base]: the defaults are replaced by what is
    given. *)
Definition base_initialize (method : option jstring) (async : option bool) (ps : option params)
    (postBody : option jstring) : outcome options :=
  let method := toLowerCase (default (js "post") method) in
  parameters ←
    match default (PQuery []) ps with
    | PQuery q => Query.toQueryParams builtin None q
    | PObject o => mret (Query.toObject o)
    end;
  mret (Options method (default true async) parameters postBody).

(** src/piql/scadr/src/main/rails/public/javascripts/prototype.js:1199-1219
    [request(url)]: method, address and parameters of the transport. *)
Definition request_line (o : options) (url : jstring) : outcome (jstring * jstring * jstring) :=
  let params := Query.initialize (o_parameters o) in
  let simulate := negb (bool_decide (o_method o ∈ [js "get"; js "post"])) in
  let params := if simulate then Query.set_own (js "_method") (Json.VStr (o_method o)) params else params in
  let method := if simulate then js "post" else o_method o in
  params ← Query.toQueryString params;
  if bool_decide (params = []) then mret (method, url, params)
  else if bool_decide (method = js "get") then
    mret (method, url ++ (if Str.include (js "?") url then js "&" else js "?") ++ params, params)
  else mret (method, url, if khtml then params ++ js "&_=" else params).

(** src/piql/scadr/src/main/rails/public/javascripts/prototype.js:1234-1235
    [request(url)]: what is sent; an empty body of the options counts as none. *)
Definition request_body (o : options) (method params : jstring) : option jstring :=
  if bool_decide (method = js "post") then
    Some (match o_postBody o with Some [] | None => params | Some b => b end)
  else None.
End request_line.

(** Addresses without a query. *)
Definition bare_char (c : Z) : bool := negb (is_white c || (c =? 63) || (c =? c_hash)).

Lemma query_part_bare url q :
  forallb bare_char url = true -> forallb Query.query_char q = true ->
  Query.query_part (url ++ 63 :: q) = q.
Proof.
  intros Hu Hq. induction url as [|c url IH].
  - cbn [app]. unfold Query.query_part at 1. cbn [span]. exact (Query.query_part_id q Hq).
  - cbn [forallb] in Hu. apply andb_true_iff in Hu as [Hc Hu]. specialize (IH Hu).
    change (Query.query_part ((c :: url) ++ 63 :: q)) with
      (let '(a, r) := span (fun c => negb ((c =? 63) || (c =? c_hash))) ((c :: url) ++ 63 :: q) in
       match r with
       | [] => a
       | d :: t => if (d =? c_hash) && forallb (fun x => negb (is_lineterm x)) t then a
                   else Query.query_part (url ++ 63 :: q)
       end).
    rewrite span_stop; [exact IH | | done]. rewrite forallb_forall. intros x Hx.
    assert (bare_char x = true) as Hb.
    { destruct Hx as [->|Hx]; [done|]. rewrite forallb_forall in Hu. by apply Hu. }
    unfold bare_char in Hb. by destruct (is_white x), (x =? 63), (x =? c_hash).
Qed.

(** The address of a GET request carries its parameters: reading its query gives
    them back, in the form in which queries carry values. *)
Theorem get_request_parameters builtin khtml o url m u p :
  NoDup (Query.keys (o_parameters o)) -> Forall Query.property_ok (o_parameters o) ->
  o_method o = js "get" -> forallb bare_char url = true -> p <> [] ->
  request_line khtml o url = Returns (m, u, p) ->
  m = js "get" /\ request_body o m p = None
  /\ Query.toQueryParams builtin None u = Returns (concat (map Query.received (o_parameters o))).
Proof.
  intros Hnd Hok Hm Hu Hp. unfold request_line. rewrite Hm.
  rewrite (bool_decide_eq_true_2 (js "get" ∈ _)) by decided. cbn [negb].
  rewrite Query.initialize_id by done.
  destruct (Query.toQueryString (o_parameters o)) as [q| |] eqn:E; cbn [mbind outcome_bind]; try done.
  case_bool_decide; [by intros [= _ _ <-]|]. rewrite (bool_decide_eq_true_2 (js "get" = _)) by done.
  assert (Str.include (js "?") url = false) as ->.
  { unfold Str.include. change (js "?") with [63]. rewrite indexOf_absent; [done|]. intros Hin. rewrite forallb_forall in Hu.
    apply list_elem_of_In in Hin. by apply Hu in Hin. }
  intros [= <- <- <-]. split_and!; [done | done |].
  pose proof (Query.query_text _ _ Hok E) as Hq.
  rewrite <- (Query.query_read builtin _ _ Hnd Hok E). change (url ++ _) with (url ++ [63] ++ q).
  rewrite app_assoc. apply (Query.read_after builtin (url ++ [63]) q); [done | | rewrite <- app_assoc; by apply query_part_bare].
  split; [by destruct url|]. intros c. rewrite !elem_of_app, list_elem_of_singleton, !list_elem_of_In.
  rewrite forallb_forall in Hu. intros [[Hc| ->]|Hc]; [| done |].
  - apply Hu in Hc. unfold bare_char in Hc. by destruct (is_white c).
  - destruct (Query.query_char_dense q Hq Hp) as [_ Hd]. apply Hd. by apply list_elem_of_In.
Qed.

Definition search : options :=
  Options (js "get") true [(js "q", Json.VStr (js "a b")); (js "n", Json.VNum 5)] None.

Lemma get_request_parameters_witness :
  request_line false search (js "/find") = Returns (js "get", js "/find?q=a%20b&n=5", js "q=a%20b&n=5")
  /\ Query.toQueryParams (fun _ => []) None (js "/find?q=a%20b&n=5")
     = Returns [(js "q", Json.VStr (js "a b")); (js "n", Json.VStr (js "5"))].
Proof.
  assert (request_line false search (js "/find") = Returns (js "get", js "/find?q=a%20b&n=5", js "q=a%20b&n=5")) as H
    by by vm_compute.
  split; [exact H|].
  destruct (get_request_parameters (fun _ => []) false search (js "/find")
      (js "get") (js "/find?q=a%20b&n=5") (js "q=a%20b&n=5") ltac:(decided)
    ltac:(unfold search; repeat apply Forall_cons_2; [..|apply Forall_nil_2];
      (split; [done|]); (split; [decided|]); (split; [unfold Uri.unit16; decided|]);
      repeat (apply Forall_cons_2 || apply Forall_nil_2); unfold Query.text_ok, Uri.unit16; decided)
    eq_refl eq_refl (fun E => ltac:(discriminate E)) H) as (_ & _ & Hq).
  refine (eq_trans Hq _). by vm_compute.
Defined.

(** src/piql/scadr/src/main/rails/public/javascripts/prototype.js:1287-1290
    [success()]: a status of zero counts as success. *)
Definition success (status : Z) : bool := (status =? 0) || ((200 <=? status) && (status <? 300)).

(** ** The life of a request *)

(** Where the transport throws while a request is made. *)
Inductive failure := FOpen | FSend.

Record req := Req { complete : bool; listening : bool }.

Inductive responder := Counting | User (k : nat).
#[global] Instance responder_dec : EqDecision responder.
Proof. solve_decision. Defined.

Inductive call :=
| CHandler (id : nat) (name : jstring)
| CResponder (k : nat) (id : nat) (name : jstring).

Record page := Page {
  activeRequestCount : Z; responders : list responder; reqs : list req; log : list call }.

(** src/piql/scadr/src/main/rails/public/javascripts/prototype.js:1162-1166
    The page as the library leaves it, with the counting responder. *)
Definition fresh : page := Page 0 [Counting] [] [].

Section life.
(** The handlers in the options of a request and those of a responder. *)
Variable handles : nat -> jstring -> bool.
Variable throws : nat -> jstring -> bool.
Variable responder_handles : nat -> jstring -> bool.

Definition P := M unit page.
Definition modify (f : page -> page) : P unit := fun s => (Val tt, f s).
Definition get {A} (f : page -> A) : P A := fun s => (Val (f s), s).
Definition log_call (c : call) : P unit :=
  modify (fun s => Page (activeRequestCount s) (responders s) (reqs s) (log s ++ [c])).
Definition on_req (id : nat) (f : req -> req) : P unit :=
  modify (fun s => Page (activeRequestCount s) (responders s) (alter f id (reqs s)) (log s)).
Definition count (d : Z) : P unit :=
  modify (fun s => Page (activeRequestCount s + d) (responders s) (reqs s) (log s)).
Definition when (b : bool) (m : P unit) : P unit := if b then m else mret tt.
Definition try_catch (m : P unit) (h : P unit) : P unit := fun s =>
  match m s with (Exn _, s) => h s | r => r end.

(** src/piql/scadr/src/main/rails/public/javascripts/prototype.js:1141-1144
    [register(responder)] *)
Definition register (r : responder) : P unit :=
  modify (fun s => if bool_decide (r ∈ responders s) then s
                   else Page (activeRequestCount s) (responders s ++ [r]) (reqs s) (log s)).

(** src/piql/scadr/src/main/rails/public/javascripts/prototype.js:1146-1148
    [unregister(responder)] *)
Definition unregister (r : responder) : P unit :=
  modify (fun s => Page (activeRequestCount s)
                     (List.filter (fun x => negb (bool_decide (x = r))) (responders s)) (reqs s) (log s)).

(** src/piql/scadr/src/main/rails/public/javascripts/prototype.js:1150-1158
    [dispatch(callback, request, transport, json)]: the call of one responder;
    what it throws is dropped.  The counting responder is that of lines
    1163-1166. *)
Definition respond (callback : jstring) (id : nat) (r : responder) : P unit :=
  match r with
  | Counting =>
      when (bool_decide (callback = js "onCreate")) (count 1);;
      when (bool_decide (callback = js "onComplete")) (count (-1))
  | User k => when (responder_handles k callback) (log_call (CResponder k id callback))
  end.

Fixpoint each_responder (callback : jstring) (id : nat) (l : list responder) : P unit :=
  match l with
  | [] => mret tt
  | r :: l => respond callback id r;; each_responder callback id l
  end.

(** src/piql/scadr/src/main/rails/public/javascripts/prototype.js:1150-1158
    [dispatch(callback, request, transport, json)] *)
Definition dispatch (callback : jstring) (id : nat) : P unit :=
  l ← get responders; each_responder callback id l.

(** [(this.options[name] || Prototype.emptyFunction)(...)] *)
Definition handler (id : nat) (name : jstring) : P unit :=
  when (handles id name)
    (log_call (CHandler id name);; if throws id name then throw (Raised tt) else mret tt).

(** src/piql/scadr/src/main/rails/public/javascripts/prototype.js:1354-1357
    [dispatchException(exception)] *)
Definition dispatchException (id : nat) : P unit :=
  handler id (js "onException");; dispatch (js "onException") id.

(** src/piql/scadr/src/main/rails/public/javascripts/prototype.js:1360-1361
    [Ajax.Request.Events] *)
Definition Events : list jstring :=
  [js "Uninitialized"; js "Loading"; js "Loaded"; js "Interactive"; js "Complete"].

(** src/piql/scadr/src/main/rails/public/javascripts/prototype.js:1303-1306
    [respondToReadyState(readyState)]: the first handler of an answer. *)
Definition first_handler (id : nat) (status : Z) : P unit :=
  let named := js "on" ++ num_str status in
  if handles id named then handler id named
  else handler id (if success status then js "onSuccess" else js "onFailure").

(** src/piql/scadr/src/main/rails/public/javascripts/prototype.js:1298-1329
    [respondToReadyState(readyState)]: the evaluation of scripts in the answer
    is left out. *)
Definition respondToReadyState (id : nat) (readyState : nat) (status : Z) : P unit :=
  let state := default (js "undefined") (Events !! readyState) in
  let completes := bool_decide (state = js "Complete") in
  when completes
    (try_catch
       (on_req id (fun r => Req true (listening r));;
        first_handler id status)
       (dispatchException id));;
  try_catch (handler id (js "on" ++ state);; dispatch (js "on" ++ state) id) (dispatchException id);;
  when completes (on_req id (fun r => Req (complete r) false)).

(** src/piql/scadr/src/main/rails/public/javascripts/prototype.js:1246-1250
    [onStateChange()] *)
Definition onStateChange (id : nat) (readyState : nat) (status : Z) : P unit :=
  r ← get (fun s => reqs s !! id);
  when ((1 <? readyState)%nat
        && negb ((readyState =? 4)%nat && match r with Some r => complete r | None => false end))
    (respondToReadyState id readyState status).

(** src/piql/scadr/src/main/rails/public/javascripts/prototype.js:1221-1243
    [request(url)]: from the creation of the response object on; the state after
    a synchronous request is reported by [onStateChange]. *)
Definition make_request (fails : option failure) : P unit :=
  id ← get (fun s => length (reqs s));
  modify (fun s => Page (activeRequestCount s) (responders s) (reqs s ++ [Req false false]) (log s));;
  try_catch
    (handler id (js "onCreate");;
     dispatch (js "onCreate") id;;
     (match fails with Some FOpen => throw (Raised tt) | _ => mret tt end);;
     on_req id (fun r => Req (complete r) true);;
     match fails with Some FSend => throw (Raised tt) | _ => mret tt end)
    (dispatchException id).

(** ** Events: a new request, a change of state that the transport reports to a
    listening request, and the report of the first state, which is deferred. *)
Inductive event :=
| ENew (fails : option failure)
| EChange (id readyState : nat) (status : Z)
| EDeferred (id : nat)
| ERegister (k : nat)
| EUnregister (k : nat).

Definition step (e : event) : P unit :=
  match e with
  | ENew fails => make_request fails
  | EChange id n status =>
      r ← get (fun s => reqs s !! id);
      when (match r with Some r => listening r | None => false end) (onStateChange id n status)
  | EDeferred id =>
      r ← get (fun s => reqs s !! id);
      when (is_some r) (respondToReadyState id 1 0)
  | ERegister k => register (User k)
  | EUnregister k => unregister (User k)
  end.

Definition run (es : list event) (s : page) : page := fold_left (fun s e => (step e s).2) es s.

(** ** No request completes twice *)
Definition completed (id : nat) (s : page) : nat :=
  length (List.filter (fun c => match c with CHandler i n => (i =? id)%nat && bool_decide (n = js "onComplete") | _ => false end) (log s)).

Definition flags (s : page) : list bool := map complete (reqs s).

(** Calls that complete no request and do not call the handlers of their
    completion, whether they return or throw. *)
Definition quiet {A} (m : P A) : Prop := forall s,
  flags (m s).2 = flags s /\ forall id, completed id (m s).2 = completed id s.

(** Calls that call it at most once, for one request. *)
Definition once (id : nat) (m : P unit) : Prop := forall s,
  flags (m s).2 = flags s /\ (completed id (m s).2 <= S (completed id s))%nat
  /\ forall i, i <> id -> completed i (m s).2 = completed i s.

Lemma quiet_ret {A} (a : A) : quiet (mret a).
Proof. done. Qed.
Lemma quiet_get {A} (f : page -> A) : quiet (get f).
Proof. done. Qed.
Lemma quiet_throw {A} e : quiet (throw (A := A) e).
Proof. done. Qed.
Lemma quiet_bind {A B} (m : P A) (f : A -> P B) : quiet m -> (forall a, quiet (f a)) -> quiet (m ≫= f).
Proof.
  intros Hm Hf s. specialize (Hm s). unfold mbind, M_bind. destruct (m s) as [[a|e] s']; cbn [snd] in *; [|done].
  destruct Hm as [H1 H2]. destruct (Hf a s') as [H3 H4]. split; [congruence|]. intros id. by rewrite H4, H2.
Qed.
Lemma quiet_when b m : quiet m -> quiet (when b m).
Proof. by destruct b. Qed.
Lemma quiet_try m h : quiet m -> quiet h -> quiet (try_catch m h).
Proof.
  intros Hm Hh s. specialize (Hm s). unfold try_catch. destruct (m s) as [[a|e] s']; cbn [snd] in *; [done|].
  destruct Hm as [H1 H2], (Hh s') as [H3 H4]. split; [congruence|]. intros id. by rewrite H4, H2.
Qed.
Lemma quiet_count d : quiet (count d).
Proof. done. Qed.
Lemma quiet_log c :
  (forall id, c <> CHandler id (js "onComplete")) -> quiet (log_call c).
Proof.
  intros Hc s. split; [done|]. intros id. unfold completed, log_call, modify. cbn [snd log].
  rewrite List.filter_app, length_app. cbn [List.filter].
  assert (match c with CHandler i n => (i =? id)%nat && bool_decide (n = js "onComplete") | _ => false end = false) as ->.
  { destruct c as [i n|]; [|done]. apply andb_false_iff. right. apply bool_decide_eq_false.
    intros ->. by destruct (Hc i). }
  simpl. lia.
Qed.
Lemma quiet_handler id name : name <> js "onComplete" -> quiet (handler id name).
Proof.
  intros Hn. apply quiet_when, quiet_bind; [apply quiet_log; intros i [=]; done|].
  intros _. case_match; [apply quiet_throw | apply quiet_ret].
Qed.
Lemma quiet_dispatch cb id : quiet (dispatch cb id).
Proof.
  apply quiet_bind; [apply quiet_get|]. intros l. induction l as [|r l IH]; [apply quiet_ret|].
  apply quiet_bind; [|done]. destruct r as [|k]; cbn [respond].
  - apply quiet_bind; [|intros _]; apply quiet_when, quiet_count.
  - apply quiet_when, quiet_log. by intros.
Qed.
Lemma quiet_exception id : quiet (dispatchException id).
Proof. apply quiet_bind; [by apply quiet_handler | intros _; apply quiet_dispatch]. Qed.

Lemma quiet_once id m : quiet m -> once id m.
Proof. intros H s. destruct (H s) as [H1 H2]. split_and!; [done | rewrite H2; lia | intros i _; apply H2]. Qed.

(** The handlers of a state. *)
Lemma once_state id state :
  once id (try_catch (handler id (js "on" ++ state);; dispatch (js "on" ++ state) id) (dispatchException id)).
Proof.
  assert (forall n, once id (handler id n)) as Hh.
  { intros n s. unfold handler, when. destruct (handles id n); [|by apply quiet_once, quiet_ret].
    unfold mbind, M_bind, log_call, modify.
    assert (forall b t, ((if b : bool then throw (Raised tt) else mret tt : P unit) t).2 = t) as Hb by by intros [].
    cbn [fst snd]. rewrite Hb. split; [done|]. unfold completed. cbn [log].
    split; [|intros i Hi]; rewrite List.filter_app, length_app; cbn [List.filter].
    - case_match; simpl; lia.
    - rewrite (proj2 (Nat.eqb_neq id i)) by done. simpl. lia. }
  intros s. specialize (Hh (js "on" ++ state) s). unfold try_catch, mbind, M_bind.
  destruct (handler id (js "on" ++ state) s) as [[a|e] s1]; cbn [snd] in Hh.
  - pose proof (quiet_dispatch (js "on" ++ state) id s1) as [D1 D2].
    destruct (dispatch (js "on" ++ state) id s1) as [[[]|e] s2]; cbn [snd] in *.
    + destruct Hh as (H1 & H2 & H3). split_and!; [congruence | by rewrite D2 | intros i Hi; rewrite D2; auto].
    + destruct (quiet_exception id s2) as [E1 E2]. destruct Hh as (H1 & H2 & H3).
      split_and!; [congruence | by rewrite E2, D2 | intros i Hi; rewrite E2, D2; auto].
  - destruct (quiet_exception id s1) as [E1 E2]. destruct Hh as (H1 & H2 & H3).
    split_and!; [congruence | by rewrite E2 | intros i Hi; rewrite E2; auto].
Qed.

Lemma flags_alter f id l : (forall r, complete (f r) = complete r) ->
  map complete (alter f id l) = map complete l.
Proof.
  intros Hf. revert id. induction l as [|r l IH]; intros id; [done|].
  destruct id as [|id]; cbn; [by rewrite Hf | by rewrite IH].
Qed.

Lemma quiet_on_req id f : (forall r, complete (f r) = complete r) -> quiet (on_req id f).
Proof. intros Hf s. split; [by apply flags_alter | done]. Qed.

Lemma num_not_complete z : js "on" ++ num_str z <> js "onComplete".
Proof.
  intros H. assert (num_str z = js "Complete") as E by by injection H.
  revert E. unfold num_str, DecimalString.NilZero.string_of_int, DecimalString.NilZero.string_of_uint.
  destruct (Z.to_int z) as [d|d]; destruct d; done.
Qed.

Lemma quiet_first id status :
  quiet (first_handler id status).
Proof.
  unfold first_handler. destruct (handles _ _); apply quiet_handler; [apply num_not_complete|].
  by destruct (success status).
Qed.

Lemma respond_before id n status : n <> 4%nat -> quiet (respondToReadyState id n status).
Proof.
  intros Hn. unfold respondToReadyState.
  assert (default (js "undefined") (Events !! n) <> js "Complete") as Hs.
  { by destruct n as [|[|[|[|[|n]]]]]. }
  generalize dependent (default (js "undefined") (Events !! n)). intros state Hs.
  rewrite (bool_decide_eq_false_2 (state = _)) by done. cbn [when].
  apply quiet_bind; [apply quiet_ret|]. intros _. apply quiet_bind; [|intros _; apply quiet_ret].
  apply quiet_try; [|apply quiet_exception]. apply quiet_bind; [|intros _; apply quiet_dispatch].
  apply quiet_handler. intros H. apply Hs. by injection H.
Qed.

Lemma respond_complete id status s :
  let s' := (respondToReadyState id 4 status s).2 in
  flags s' = alter (fun _ => true) id (flags s)
  /\ (completed id s' <= S (completed id s))%nat /\ forall i, i <> id -> completed i s' = completed i s.
Proof.
  cbv zeta. unfold respondToReadyState. change (default _ (Events !! 4%nat)) with (js "Complete").
  rewrite (bool_decide_eq_true_2 (js "Complete" = _)) by done. cbn [when].
  set (first := try_catch (on_req id (fun r => Req true (listening r));; first_handler id status) (dispatchException id)).
  assert (flags (first s).2 = alter (fun _ => true) id (flags s) /\ forall i, completed i (first s).2 = completed i s) as [F1 F2].
  { unfold first, try_catch, mbind, M_bind, on_req, modify. cbn [fst snd].
    set (s1 := Page _ _ _ _).
    assert (flags s1 = alter (fun _ => true) id (flags s)) as Hs1.
    { unfold flags, s1. cbn [reqs]. generalize (reqs s) as l. clear. intros l. revert id.
      induction l as [|r l IH]; intros [|id]; cbn; [done..|]. f_equal. apply IH. }
    destruct (quiet_first id status s1) as [Q1 Q2].
    destruct (first_handler id status s1) as [[a|e] s2]; cbn [snd] in *.
    - split; [congruence | intros i; by rewrite Q2].
    - destruct (quiet_exception id s2) as [E1 E2]. split; [congruence | intros i; by rewrite E2, Q2]. }
  set (second := try_catch (handler id (js "on" ++ js "Complete");; dispatch (js "on" ++ js "Complete") id)
    (dispatchException id)).
  set (third := on_req id (fun r => Req (complete r) false)).
  assert (quiet third) as Hq by by apply quiet_on_req.
  assert (once id second) as Ho by apply once_state.
  clearbody first second third. unfold mbind, M_bind.
  destruct (first s) as [[[]|e] s2]; cbn [snd] in *;
    [|split_and!; [done | rewrite F2; lia | intros i _; apply F2]].
  destruct (Ho s2) as (O1 & O2 & O3).
  destruct (second s2) as [[[]|e] s3]; cbn [snd] in *.
  - destruct (Hq s3) as [G1 G2].
    split_and!; [congruence | by rewrite G2, <- F2 | intros i Hi; rewrite G2, O3, F2; auto].
  - split_and!; [congruence | by rewrite <- F2 | intros i Hi; rewrite O3, F2; auto].
Qed.

(** The handlers of a completion were called at most once, and only for requests
    that are complete. *)
Definition once_complete (s : page) : Prop :=
  forall id, (completed id s <= if default false (flags s !! id) then 1 else 0)%nat.

Lemma quiet_keeps {A} (m : P A) s : quiet m -> once_complete s -> once_complete (m s).2.
Proof. intros Hm H id. destruct (Hm s) as [-> ->]. apply H. Qed.

Lemma step_once e s : once_complete s -> once_complete (step e s).2.
Proof.
  intros H. destruct e as [fails|id n status|id|k|k]; cbn [step].
  - unfold make_request, mbind at 1 2, M_bind at 1 2, get, modify at 1.
    apply quiet_keeps.
    + apply quiet_try; [|apply quiet_exception]. apply quiet_bind; [by apply quiet_handler|]. intros _.
      apply quiet_bind; [apply quiet_dispatch|]. intros _.
      apply quiet_bind; [by destruct fails as [[]|]; [apply quiet_throw | apply quiet_ret..]|]. intros _.
      apply quiet_bind; [by apply quiet_on_req|]. intros _. by destruct fails as [[]|]; [apply quiet_ret | apply quiet_throw | apply quiet_ret].
    + intros id. specialize (H id). unfold flags, completed in *. cbn [reqs log] in *.
      rewrite map_app. destruct (decide (id < length (map complete (reqs s)))%nat).
      * by rewrite lookup_app_l by done.
      * rewrite (lookup_ge_None_2 (map complete (reqs s))) in H by lia. cbn [default] in H.
        etransitivity; [exact H|]. lia.
  - unfold mbind, M_bind, get. cbn [fst]. destruct (reqs s !! id) as [r|] eqn:Er; [|done].
    destruct (listening r); [|done]. cbn [when]. unfold onStateChange, mbind, M_bind, get. rewrite Er.
    destruct ((1 <? n)%nat && negb ((n =? 4)%nat && complete r)) eqn:E; [|done]. cbn [when].
    destruct (decide (n = 4%nat)) as [->|Hn]; [|by apply quiet_keeps, H; apply respond_before].
    destruct (respond_complete id status s) as (F & C1 & C2). intros i. rewrite F.
    destruct (decide (i = id)) as [->|Hi].
    + rewrite list_lookup_alter_eq. specialize (H id).
      assert (flags s !! id = Some (complete r)) as Hr by by (unfold flags; rewrite list_lookup_fmap, Er).
      rewrite Hr in H |- *. cbn [Nat.eqb andb negb Nat.ltb Nat.leb] in E. rewrite negb_true_iff in E.
      rewrite E in H. cbn in *. lia.
    + rewrite list_lookup_alter_ne by done. rewrite C2 by done. apply H.
  - unfold mbind, M_bind, get. cbn [fst]. destruct (is_some _); [|done]. cbn [when].
    apply quiet_keeps, H. by apply respond_before.
  - unfold register, modify. cbn [snd]. by case_bool_decide.
  - done.
Qed.

(** C15: Whatever the transports report, in any order, however often and whatever the
    handlers throw, the completion handler of a request is called at most once. *)
Theorem completes_once es id : (completed id (run es fresh) <= 1)%nat.
Proof.
  assert (once_complete (run es fresh)) as H.
  { assert (once_complete fresh) as H0 by by intros i. unfold run. revert H0. generalize fresh.
    induction es as [|e es IH]; intros s Hs; [done|]. cbn [fold_left]. by apply IH, step_once. }
  specialize (H id). destruct (default _ _); lia.
Qed.

(** ** The number of active requests *)
Definition counting_once (l : list responder) : Prop :=
  length (List.filter (fun r => bool_decide (r = Counting)) l) = 1%nat.

(** A call that returns, adds [d] to the count and changes the flags by [f]. *)
Definition does (m : P unit) (d : Z) (f : list bool -> list bool) : Prop := forall s,
  counting_once (responders s) ->
  exists s', m s = (Val tt, s') /\ activeRequestCount s' = activeRequestCount s + d
    /\ flags s' = f (flags s) /\ responders s' = responders s.

Lemma does_ret : does (mret tt) 0 id.
Proof. intros s _. exists s. split_and!; [done | lia | done | done]. Qed.
Lemma does_bind m k d1 d2 f g : does m d1 f -> does k d2 g -> does (m;; k) (d1 + d2) (g ∘ f).
Proof.
  intros Hm Hk s Hs. destruct (Hm s Hs) as (s1 & E1 & C1 & F1 & R1).
  destruct (Hk s1) as (s2 & E2 & C2 & F2 & R2); [by rewrite R1|]. exists s2.
  unfold mbind, M_bind. rewrite E1. split_and!; [done | lia | cbn; congruence | congruence].
Qed.
Lemma does_try m h d f : does m d f -> does (try_catch m h) d f.
Proof. intros Hm s Hs. destruct (Hm s Hs) as (s' & E & H). exists s'. unfold try_catch. by rewrite E. Qed.
Lemma does_on_req id f g : (forall l, map complete (alter f id l) = g (map complete l)) -> does (on_req id f) 0 g.
Proof. intros Hf s _. eexists. split; [reflexivity|]. split_and!; [cbn; lia | apply Hf | done]. Qed.

Hypothesis calm : forall id n, throws id n = false.

Lemma does_handler id n : does (handler id n) 0 (fun l => l).
Proof.
  unfold handler, when. destruct (handles id n); [|apply does_ret]. intros s _.
  unfold mbind, M_bind, log_call, modify. rewrite calm. eexists. split; [reflexivity|]. cbn.
  split_and!; [lia | done | done].
Qed.

Definition delta (cb : jstring) : Z :=
  (if bool_decide (cb = js "onCreate") then 1 else 0) - (if bool_decide (cb = js "onComplete") then 1 else 0).

Lemma does_dispatch cb id : does (dispatch cb id) (delta cb) (fun l => l).
Proof.
  cut (forall l s, exists s', each_responder cb id l s = (Val tt, s')
    /\ activeRequestCount s' = activeRequestCount s
         + delta cb * Z.of_nat (length (List.filter (fun r => bool_decide (r = Counting)) l))
    /\ flags s' = flags s /\ responders s' = responders s).
  { intros H s Hs. destruct (H (responders s) s) as (s' & E & C & F & R). exists s'.
    unfold counting_once in Hs. rewrite Hs in C. split_and!; [exact E | lia | done | done]. }
  intros l. induction l as [|r l IH]; intros s.
  - exists s. split_and!; [done | cbn; lia | done | done].
  - cbn [each_responder List.filter]. unfold mbind, M_bind.
    assert (exists s1, respond cb id r s = (Val tt, s1) /\ flags s1 = flags s /\ responders s1 = responders s
      /\ activeRequestCount s1 = activeRequestCount s + if bool_decide (r = Counting) then delta cb else 0)
      as (s1 & -> & F1 & R1 & C1).
    { destruct r as [|k]; cbn [respond].
      - rewrite (bool_decide_eq_true_2 (Counting = Counting)) by done. unfold delta, when, mbind, M_bind, count, modify.
        repeat case_bool_decide;
          try (match goal with H : cb = _, H' : cb = _ |- _ => by rewrite H in H' end);
          (eexists; split; [reflexivity|]; cbn; split_and!; [done | done | lia]).
      - rewrite (bool_decide_eq_false_2 (User k = Counting)) by done. unfold when. destruct (responder_handles k cb);
          (eexists; split; [reflexivity|]; cbn; split_and!; [done | done | lia]). }
    destruct (IH s1) as (s2 & -> & C2 & F2 & R2). exists s2.
    split_and!; [done | | congruence | congruence].
    rewrite C2, C1. case_bool_decide; cbn [length]; lia.
Qed.

Lemma does_weaken m d d' f g : does m d f -> d = d' -> (forall l, f l = g l) -> does m d' g.
Proof. intros H <- Hf s Hs. destruct (H s Hs) as (s' & ? & ? & ? & ?). exists s'. by rewrite <- Hf. Qed.

Lemma does_state id state :
  does (try_catch (handler id (js "on" ++ state);; dispatch (js "on" ++ state) id) (dispatchException id))
    (delta (js "on" ++ state)) (fun l => l).
Proof.
  apply does_try. eapply does_weaken; [apply does_bind; [apply does_handler | apply does_dispatch] | lia | done].
Qed.

Lemma does_before id n status : n <> 4%nat -> does (respondToReadyState id n status) 0 (fun l => l).
Proof.
  intros Hn. unfold respondToReadyState.
  assert (bool_decide (default (js "undefined") (Events !! n) = js "Complete") = false
    /\ delta (js "on" ++ default (js "undefined") (Events !! n)) = 0) as [-> Hd].
  { by destruct n as [|[|[|[|[|n]]]]]. }
  cbn [when]. eapply does_weaken; [apply does_bind; [apply does_ret | apply does_bind; [apply does_state | apply does_ret]] | lia | done].
Qed.

Lemma does_complete id status : does (respondToReadyState id 4 status) (-1) (alter (fun _ => true) id).
Proof.
  unfold respondToReadyState. change (default _ (Events !! 4%nat)) with (js "Complete").
  rewrite (bool_decide_eq_true_2 (js "Complete" = _)) by done. cbn [when].
  eapply does_weaken; [apply does_bind; [apply does_try, does_bind|apply does_bind; [apply does_state|]]| |].
  - apply (does_on_req _ _ (alter (fun _ => true) id)). intros l. revert id.
    induction l as [|r l IH]; intros id; [done|]. destruct id; cbn; [done | by rewrite IH].
  - unfold first_handler. destruct (handles _ _); apply does_handler.
  - apply (does_on_req _ _ (fun l => l)). intros l. by apply flags_alter.
  - reflexivity.
  - done.
Qed.

Definition active (l : list bool) : Z := zlen (List.filter negb l).

Lemma active_app l b : active (l ++ [b]) = active l + (if b then 0 else 1).
Proof. unfold active. rewrite List.filter_app, zlen_app. by destruct b. Qed.

Lemma active_alter l id : l !! id = Some false -> active (alter (fun _ => true) id l) = active l - 1.
Proof.
  revert id. unfold active. induction l as [|b l IH]; intros id H; [done|]. destruct id as [|id].
  - injection H as ->. cbn. rewrite zlen_cons. lia.
  - specialize (IH id H).
    change (alter (fun _ => true) (S id) (b :: l)) with (b :: alter (fun _ => true) id l).
    cbn [List.filter]. destruct b; cbn [negb]; rewrite ?zlen_cons; lia.
Qed.

Definition counted (s : page) : Prop :=
  counting_once (responders s) /\ activeRequestCount s = active (flags s).

Lemma does_counted m d f s :
  does m d f -> active (f (flags s)) = active (flags s) + d -> counted s -> counted (m s).2.
Proof.
  intros Hm Hf [H1 H2]. destruct (Hm s H1) as (s' & -> & C & F & R). cbn [snd].
  split; [by rewrite R|]. rewrite C, F, Hf, H2. lia.
Qed.

Lemma step_counted e s : (forall f, e <> ENew (Some f)) -> counted s -> counted (step e s).2.
Proof.
  intros He Hs. destruct e as [fails|id n status|id|k|k]; cbn [step].
  - destruct fails as [f|]; [by destruct (He f)|]. unfold make_request, mbind at 1 2, M_bind at 1 2, get, modify at 1.
    set (s1 := Page _ _ _ _). set (id := length (reqs s)).
    match goal with |- counted (try_catch ?m ?h s1).2 => assert (does (try_catch m h) 1 (fun l => l)) as Hd end.
    { assert (does (on_req id (fun r => Req (complete r) true)) 0 (fun l => l)) as Ho.
      { apply (does_on_req _ _ (fun l => l)). intros l. by apply flags_alter. }
      eapply does_weaken; [apply does_try, does_bind; [apply does_handler | apply does_bind; [apply does_dispatch |
        apply does_bind; [apply does_ret | apply does_bind; [exact Ho | apply does_ret]]]]| reflexivity | done]. }
    destruct Hs as [H1 H2]. destruct (Hd s1 H1) as (s' & -> & C & F & R). cbn [snd].
    split; [by rewrite R|]. rewrite C, F. unfold s1, flags. cbn [activeRequestCount reqs]. rewrite map_app.
    cbn [map complete]. rewrite active_app. unfold flags in H2. lia.
  - unfold mbind, M_bind, get. cbn [fst]. destruct (reqs s !! id) as [r|] eqn:Er; [|done].
    destruct (listening r); [|done]. cbn [when]. unfold onStateChange, mbind, M_bind, get. rewrite Er.
    destruct ((1 <? n)%nat && negb ((n =? 4)%nat && complete r)) eqn:E; [|done]. cbn [when].
    destruct (decide (n = 4%nat)) as [->|Hn].
    + eapply does_counted; [apply does_complete | | done]. apply active_alter.
      unfold flags. rewrite list_lookup_fmap, Er. cbn in E |- *. rewrite negb_true_iff in E. by rewrite E.
    + eapply does_counted; [by apply does_before | cbn beta; lia | done].
  - unfold mbind, M_bind, get. cbn [fst]. destruct (is_some _); [|done]. cbn [when].
    eapply does_counted; [by apply does_before | cbn beta; lia | done].
  - destruct Hs as [H1 H2]. unfold register, modify. cbn [snd]. case_bool_decide; [done|].
    split; [|exact H2]. unfold counting_once in *. cbn [responders]. rewrite List.filter_app, length_app, H1. done.
  - destruct Hs as [H1 H2]. split; [|exact H2]. unfold counting_once in *. cbn [unregister modify snd responders].
    rewrite <- H1. generalize (responders s) as l. induction l as [|r l IH]; [done|]. cbn [List.filter].
    destruct r as [|j]; cbn [List.filter].
    + rewrite (bool_decide_eq_false_2 (Counting = User k)) by done. cbn [negb List.filter].
      rewrite (bool_decide_eq_true_2 (Counting = Counting)) by done. cbn [length]. by rewrite IH.
    + rewrite (bool_decide_eq_false_2 (User j = Counting)) by done. case_bool_decide; cbn [negb List.filter]; [done|].
      by rewrite (bool_decide_eq_false_2 (User j = Counting)) by done.
Qed.

(** C16: When no handler throws and no transport fails, the number of active requests
    is that of the requests that were made and are not complete. *)
Theorem active_requests es :
  Forall (fun e => forall f, e <> ENew (Some f)) es ->
  activeRequestCount (run es fresh) = active (flags (run es fresh)).
Proof.
  intros He. apply (proj2 (A := counting_once (responders (run es fresh)))). fold (counted (run es fresh)).
  assert (counted fresh) as H by by split. revert H. unfold run. generalize fresh.
  induction He as [|e es He _ IH]; intros s Hs; [done|]. cbn [fold_left]. by apply IH, step_counted.
Qed.
End life.

(** Two requests; one is answered, and its answer is reported twice. *)
Definition traffic : list event :=
  [ENew None; EDeferred 0; ENew None; EChange 0 2 200; EChange 0 3 200; EChange 0 4 200; EChange 0 4 200; EChange 1 2 0].
Definition all_handled (id : nat) (n : jstring) : bool := bool_decide (n ∈ [js "onComplete"; js "onSuccess"; js "onFailure"]).
Definition never (id : nat) (n : jstring) : bool := false.

Lemma active_requests_witness :
  activeRequestCount (run all_handled never never traffic fresh) = 1
  /\ flags (run all_handled never never traffic fresh) = [true; false].
Proof.
  pose proof (active_requests all_handled never never (fun _ _ => eq_refl) traffic) as H.
  assert (flags (run all_handled never never traffic fresh) = [true; false]) as E by by vm_compute.
  split; [|exact E]. rewrite H; [by rewrite E|]. unfold traffic. repeat (apply Forall_cons_2; [by intros f|]). constructor.
Defined.

(** The count is wrong for good when the transport cannot be opened, and when the
    handler of the completion throws: the responders then do not hear of it. *)
Example failed_open_counts :
  activeRequestCount (run all_handled never never [ENew (Some FOpen)] fresh) = 1
  /\ map listening (reqs (run all_handled never never [ENew (Some FOpen)] fresh)) = [false].
Proof. by vm_compute. Qed.
Example throwing_handler_counts :
  let s := run all_handled (fun _ n => bool_decide (n = js "onComplete")) never [ENew None; EChange 0 4 200] fresh in
  activeRequestCount s = 1 /\ flags s = [true].
Proof. by vm_compute. Qed.
End Ajax.
