(* ===== verification/ProtoPeriodic.v ===== *)
(** * Periodical calls

    [PeriodicalExecuter] calls a function at regular intervals, and
    [Ajax.PeriodicalUpdater] repeats a request, the slower the longer the answer
    stays the same; [Delayed] observes a field with a delay. *)
From S2P Require Import Prelude JsString.

Module Periodic.

(** ** [PeriodicalExecuter] *)

Record executer := Executer { timer : bool; currentlyExecuting : bool; calls : list nat }.

(** What a callback does while it runs: it may stop the executer and let the
    timer fire again (a dialog, a synchronous request), and it may throw. *)
Inductive action := AStop | ATick (c : callback)
with callback := Callback (name : nat) (body : list action) (throws : bool).

(** src/piql/scadr/src/main/rails/public/javascripts/prototype.js:295-305
    [initialize(callback, frequency)], with [registerCallback] *)
Definition initialize : executer := Executer true false [].

(** src/piql/scadr/src/main/rails/public/javascripts/prototype.js:311-315
    [stop()] *)
Definition stop (e : executer) : executer :=
  if timer e then Executer false (currentlyExecuting e) (calls e) else e.

(** src/piql/scadr/src/main/rails/public/javascripts/prototype.js:317-326
    [onTimerEvent()], with [execute()] of lines 307-309: the executer, and
    whether the call threw. *)
Fixpoint onTimerEvent (c : callback) (e : executer) : executer * bool :=
  match c with
  | Callback name body throws =>
      if currentlyExecuting e then (e, false)
      else
        let e := Executer (timer e) true (calls e ++ [name]) in
        let '(e, thrown) :=
          (fix run (l : list action) (e : executer) : executer * bool :=
             match l with
             | [] => (e, throws)
             | AStop :: l => run l (stop e)
             | ATick c :: l =>
                 let '(e, thrown) := onTimerEvent c e in
                 if thrown then (e, true) else run l e
             end) body e in
        (Executer (timer e) false (calls e), thrown)
  end.

(** A timer that fires while the callback runs does not call it again, and
    whether the callback returns or throws, the next firing will. *)
Theorem executer_not_reentrant c e :
  currentlyExecuting e = false ->
  let '(e', thrown) := onTimerEvent c e in
  currentlyExecuting e' = false
  /\ calls e' = calls e ++ [match c with Callback name _ _ => name end]
  /\ thrown = match c with Callback _ _ throws => throws end
  /\ timer e' = timer e && forallb (fun a => match a with AStop => false | _ => true end)
                             match c with Callback _ body _ => body end.
Proof.
  destruct c as [name body throws], e as [t x l]. cbn [currentlyExecuting]. intros ->.
  cbn [onTimerEvent currentlyExecuting timer calls].
  set (run := fix run (l : list action) (e : executer) : executer * bool := _).
  assert (forall b e, currentlyExecuting e = true ->
    run b e = (Executer (timer e && forallb (fun a => match a with AStop => false | _ => true end) b) true (calls e), throws)) as H.
  { induction b as [|a b IH]; intros [t' x' l'] Hx; cbn in Hx; subst x'.
    - cbn. by rewrite andb_true_r.
    - destruct a as [|[name' body' throws']]; cbn [forallb].
      + change (run (AStop :: b) (Executer t' true l')) with (run b (stop (Executer t' true l'))).
        rewrite IH by by destruct t'. by destruct t'.
      + change (run (ATick (Callback name' body' throws') :: b) (Executer t' true l')) with (run b (Executer t' true l')).
        by rewrite IH. }
  rewrite H by done. cbn. done.
Qed.

Lemma executer_not_reentrant_witness :
  onTimerEvent (Callback 1 [ATick (Callback 2 [] false); AStop; ATick (Callback 3 [] true)] true) initialize
  = (Executer false false [1%nat], true).
Proof.
  pose proof (executer_not_reentrant
    (Callback 1 [ATick (Callback 2 [] false); AStop; ATick (Callback 3 [] true)] true) initialize eq_refl) as H.
  destruct (onTimerEvent _ initialize) as [[t x l] b]. cbn in H. destruct H as (-> & -> & -> & ->). reflexivity.
Defined.

(** ** [Ajax.PeriodicalUpdater] *)

(** The updater; [pending] is the delay of the timer that is set, [asked] counts
    the requests and [flight] tells whether one is under way whose completion
    calls back. *)
Record updater := Updater {
  frequency : Z; decay : Z; decay_option : Z; lastText : option jstring;
  pending : option Z; flight : bool; asked : nat; stopped_calls : nat }.

(** src/piql/scadr/src/main/rails/public/javascripts/prototype.js:1509-1511
    [onTimerEvent()] *)
Definition request (u : updater) : updater :=
  Updater (frequency u) (decay u) (decay_option u) (lastText u) None true (S (asked u)) (stopped_calls u).

(** src/piql/scadr/src/main/rails/public/javascripts/prototype.js:1474-1491
    [initialize(container, url, options)], with [start]; a missing or zero
    frequency or decay is replaced in the updater, while the option stays. *)
Definition create (freq dec : option Z) : updater :=
  let or d o := match o with Some x => if x =? 0 then d else x | None => d end in
  request (Updater (or 2 freq) (or 1 dec) (default 0 dec) None None false 0 0).

(** src/piql/scadr/src/main/rails/public/javascripts/prototype.js:1499-1507
    [updateComplete(response)] *)
Definition updateComplete (responseText : jstring) (u : updater) : updater :=
  let d := if decay_option u =? 0 then decay u
           else if bool_decide (Some responseText = lastText u) then decay u * decay_option u else 1 in
  let t := if decay_option u =? 0 then lastText u else Some responseText in
  Updater (frequency u) d (decay_option u) t (Some (d * frequency u)) false (asked u) (stopped_calls u).

(** src/piql/scadr/src/main/rails/public/javascripts/prototype.js:1493-1497
    [stop()]: the request under way does not call back any more. *)
Definition stop_updater (u : updater) : updater :=
  Updater (frequency u) (decay u) (decay_option u) (lastText u) None false (asked u) (S (stopped_calls u)).

(** What happens: the answer to the request under way, the timer, a call of
    [stop]. *)
Inductive event := EAnswer (text : jstring) | ETimer | EStop.
Definition step (u : updater) (e : event) : updater :=
  match e with
  | EAnswer t => if flight u then updateComplete t u else u
  | ETimer => if pending u then request u else u
  | EStop => stop_updater u
  end.

Lemma alternates es u :
  flight u && is_some (pending u) = false ->
  flight (fold_left step es u) && is_some (pending (fold_left step es u)) = false.
Proof.
  revert u. induction es as [|e es IH]; intros u H; [done|]. cbn [fold_left]. apply IH.
  destruct e; cbn [step]; [destruct (flight u) eqn:E | destruct (pending u) eqn:E | reflexivity];
    solve [reflexivity | by rewrite E, ?andb_false_r].
Qed.

Definition idle (u : updater) : Prop := flight u = false /\ pending u = None.

Lemma idle_stays es u : idle u -> idle (fold_left step es u) /\ asked (fold_left step es u) = asked u.
Proof.
  revert u. induction es as [|e es IH]; intros u [H1 H2]; [done|]. cbn [fold_left].
  destruct e; cbn [step]; rewrite ?H1, ?H2; [by apply IH.. |].
  change (asked u) with (asked (stop_updater u)). by apply IH.
Qed.

(** A request under way and a timer never coexist, so that at most one request is
    made at a time; once stopped, the updater asks no more. *)
Theorem updater_alternates freq dec es es' :
  let u := fold_left step es (create freq dec) in
  flight u && is_some (pending u) = false
  /\ asked (fold_left step es' (stop_updater u)) = asked u.
Proof.
  split; [by apply alternates|].
  by apply (idle_stays es' (stop_updater (fold_left step es (create freq dec)))).
Qed.

(** The same answer again and again: the delay grows by the factor [decay]; a new
    answer sets it back. *)
Fixpoint same_answers (n : nat) (t : jstring) (u : updater) : updater :=
  match n with
  | O => u
  | S n => step (step (same_answers n t u) ETimer) (EAnswer t)
  end.

Theorem updater_backs_off freq dec n t :
  0 < freq -> 0 < dec ->
  pending (same_answers n t (step (create (Some freq) (Some dec)) (EAnswer t))) = Some (dec ^ Z.of_nat n * freq).
Proof.
  intros Hf Hd.
  cut (let u := same_answers n t (step (create (Some freq) (Some dec)) (EAnswer t)) in
    frequency u = freq /\ decay u = dec ^ Z.of_nat n /\ decay_option u = dec /\ lastText u = Some t
    /\ pending u = Some (dec ^ Z.of_nat n * freq)); [by intros (_ & _ & _ & _ & H)|].
  cbv zeta. induction n as [|n IH].
  - cbn [same_answers]. unfold create. rewrite (proj2 (Z.eqb_neq freq 0)), (proj2 (Z.eqb_neq dec 0)) by lia.
    unfold step, request, updateComplete. cbn [frequency decay decay_option lastText pending flight].
    change (default 0 (Some dec)) with dec. rewrite (proj2 (Z.eqb_neq dec 0)) by lia.
    rewrite bool_decide_eq_false_2 by done. by split_and!.
  - cbn [same_answers]. destruct IH as (H1 & H2 & H3 & H4 & H5).
    set (u := same_answers n t _) in *. clearbody u. unfold step. rewrite H5.
    unfold request, updateComplete. cbn [frequency decay decay_option lastText pending flight].
    rewrite H1, H2, H3, H4, (proj2 (Z.eqb_neq dec 0)) by lia.
    rewrite bool_decide_eq_true_2 by done. rewrite Nat2Z.inj_succ, Z.pow_succ_r by lia.
    split_and!; try done; [lia|]. f_equal. lia.
Qed.

Lemma updater_backs_off_witness :
  pending (same_answers 3 (js "same") (step (create (Some 2) (Some 2)) (EAnswer (js "same")))) = Some 16.
Proof. by apply (updater_backs_off 2 2 3 (js "same")). Defined.
End Periodic.

(** * A field that is observed with a delay

    [Form.Element.DelayedObserver] of controls.js: the page is told of the value of
    a field when nothing has been typed for a while. *)

Module Delayed.

(** The timers of the browser by their numbers; [told] is what the page was called
    with. *)
Record observer := Observer {
  timer : option nat; lastValue : jstring;
  pending : list nat; next_timer : nat; told : list jstring
}.

(** src/piql/scadr/src/main/rails/public/javascripts/controls.js:945-952
    [initialize(element, delay, callback)], for a field with the value [v] *)
Definition initialize (v : jstring) : observer := Observer None v [] 1 [].

(** src/piql/scadr/src/main/rails/public/javascripts/controls.js:953-958
    [delayedListener(event)]: the value of the field is [v]. *)
Definition delayedListener (v : jstring) (o : observer) : observer :=
  if decide (lastValue o = v) then o
  else
    let l := match timer o with Some t => filter (fun x => x <> t) (pending o) | None => pending o end in
    Observer (Some (next_timer o)) v (l ++ [next_timer o]) (S (next_timer o)) (told o).

(** src/piql/scadr/src/main/rails/public/javascripts/controls.js:959-962
    [onTimerEvent()] *)
Definition onTimerEvent (v : jstring) (o : observer) : observer :=
  Observer None (lastValue o) (pending o) (next_timer o) (told o ++ [v]).

(** A key goes up, or a timer has run; the value of the field is then [v]. *)
Inductive event := KeyUp (v : jstring) | Timer (n : nat) (v : jstring).
Definition step (o : observer) (e : event) : observer :=
  match e with
  | KeyUp v => delayedListener v o
  | Timer n v =>
      if decide (n ∈ pending o)
      then onTimerEvent v (Observer (timer o) (lastValue o) (filter (fun x => x <> n) (pending o)) (next_timer o) (told o))
      else o
  end.

(** The one timer that may run is the one that is kept. *)
Definition one_timer (o : observer) : Prop := pending o = match timer o with Some t => [t] | None => [] end.

Lemma filter_self n : filter (fun x => x <> n) [n] = ([] : list nat).
Proof. by rewrite filter_cons, decide_False by (intros H; by apply H). Qed.

Lemma step_one o e : one_timer o -> one_timer (step o e).
Proof.
  unfold one_timer. intros Ho. destruct e as [v|n v]; cbn [step].
  - unfold delayedListener. case_decide; [done|]. cbn. rewrite Ho. destruct (timer o) as [t|]; [|done]. by rewrite filter_self.
  - case_decide as Hn; [|done]. cbn. rewrite Ho in Hn |- *. destruct (timer o) as [t|]; [|by apply elem_of_nil in Hn].
    apply list_elem_of_singleton in Hn as ->. apply filter_self.
Qed.

Definition is_key (e : event) : bool := match e with KeyUp _ => true | Timer _ _ => false end.

(** Whatever is typed and whichever timers run, there is at most one timer, and the
    page is called at most once for each change of the value. *)
Lemma one_call_per_pause v es :
  let o := fold_left step es (initialize v) in
  one_timer o /\ (length (told o) + length (pending o) <= length (filter (fun e => is_key e = true) es))%nat.
Proof.
  cbv zeta. induction es as [|e es IH] using rev_ind; [by split|]. rewrite fold_left_app, filter_app, length_app. cbn [fold_left].
  set (o := fold_left step es (initialize v)) in *. destruct IH as [Ho Hn]. split; [by apply step_one|]. revert Hn. unfold one_timer in Ho.
  destruct e as [u|n u]; cbn [step].
  - rewrite filter_cons, decide_True by done. cbn [length]. unfold delayedListener. case_decide; [lia|]. cbn.
    rewrite Ho. destruct (timer o); [rewrite filter_self|]; cbn; lia.
  - rewrite filter_cons. cbn [is_key]. destruct (decide (false = true)) as [?|_]; [done|]. cbn [length]. case_decide as Hin; [|cbn; lia]. cbn. rewrite Ho in Hin |- *.
    destruct (timer o) as [t|]; [|by apply elem_of_nil in Hin]. apply list_elem_of_singleton in Hin as ->. rewrite filter_self, length_app. cbn. lia.
Qed.
End Delayed.
