(* ===== verification/FxQueue.v ===== *)
(** * Effects and their queues

    An effect of script.aculo.us is an object with a start and a finish time; a
    queue looks at its effects every 15 ms and lets each draw the frame that is
    due.  Effects live in a heap, since queues, combined effects and the page
    share them.  What the page's handlers and the kinds of effects do is a
    parameter: any computation on the same world, which may start and cancel
    effects, change the page, and throw.  ([AllKinds] of [FxMorph] fills the kinds of
    the library in.)

    Times and positions are rational numbers where the program has doubles. *)
From Stdlib Require Export QArith Qround Lqa.
From S2P Require Import Prelude JsString.

Module Fx.
Local Open Scope Q_scope.

#[global] Instance Qle_dec : RelDecision Qle := fun x y => Z_le_dec _ _.
#[global] Instance Qlt_dec : RelDecision Qlt := fun x y => Z_lt_dec _ _.
#[global] Instance Qeq_decision : RelDecision Qeq := Qeq_dec.

(** [Math.round] *)
Definition round (x : Q) : Z := Qfloor (x + (1#2)).

(** ** Effects *)
Inductive phase := Idle | Running | Finished.
#[global] Instance phase_eq : EqDecision phase := ltac:(solve_decision).

Inductive hook := BeforeStart | BeforeSetup | AfterSetup | BeforeUpdate | AfterUpdate
  | BeforeFinish | AfterFinish.
#[global] Instance hook_eq : EqDecision hook := ltac:(solve_decision).

(** [options.queue]: a string, or an object with a position, a scope and a limit;
    a string other than the three below leaves the time alone. *)
Inductive place := Front | WithLast | AtEnd | Elsewhere.
Inductive queue_option :=
  | Named (p : place)
  | Placed (p : place) (scope : option jstring) (limit : option Z).

Inductive exn := TypeError | RangeError | Thrown.
Inductive res (A : Type) := Val (a : A) | Exn (e : exn).
Arguments Val {A} _.
Arguments Exn {A} _.

(** [H]: the functions of the page given as handlers; [K]: the kinds of effects
    with their own fields; [P]: the page. *)
Section Effects.
Context {H K P : Type}.

(** A handler is looked up as [options[name + "Internal"]] and [options[name]]. *)
Record options := Options {
  from : Q; to : Q; delay : Q; duration : Q; fps : Q; sync : bool;
  queue : queue_option;
  transition : option (Q -> Q);         (** [None] is [false] *)
  internal : hook -> option H;
  handler : hook -> option H
}.

Inductive class := Parallel (effects : list nat) | Of (k : K).

Record effect := Effect {
  kind : class; opts : options; state : phase;
  startOn : Q; finishOn : Q; fromToDelta : Q; totalTime : Q; totalFrames : Q;
  currentFrame : Z; position : option Q
}.

Record squeue := SQueue { effects : list nat; interval : bool }.

Record world := World {
  heap : gmap nat effect; next : nat; queues : gmap jstring squeue; clock : Z; page : P
}.

Definition set_heap (f : gmap nat effect -> gmap nat effect) (w : world) : world :=
  World (f (heap w)) (next w) (queues w) (clock w) (page w).
Definition set_queue (s : jstring) (q : squeue) (w : world) : world :=
  World (heap w) (next w) (<[s := q]> (queues w)) (clock w) (page w).
Definition set_page (p : P) (w : world) : world :=
  World (heap w) (next w) (queues w) (clock w) p.
Definition set_clock (t : Z) (w : world) : world :=
  World (heap w) (next w) (queues w) t (page w).

(** ** Calls on the world *)
Definition M (A : Type) : Type := world -> res A * world.
#[global] Instance M_ret : MRet M := fun A a w => (Val a, w).
#[global] Instance M_bind : MBind M := fun A B f m w =>
  match m w with (Val a, w) => f a w | (Exn e, w) => (Exn e, w) end.
Definition throw {A} (e : exn) : M A := fun w => (Exn e, w).
Definition get : M world := fun w => (Val w, w).
Definition modify (f : world -> world) : M unit := fun w => (Val tt, f w).

Fixpoint iter {A} (f : A -> M unit) (l : list A) : M unit :=
  match l with [] => mret tt | x :: l => f x;; iter f l end.

(** Reading a property of an effect: [undefined] has none. *)
Definition the (id : nat) : M effect :=
  w ← get; match heap w !! id with Some e => mret e | None => throw TypeError end.
Definition put (id : nat) (f : effect -> effect) : M unit := modify (set_heap (alter f id)).

Definition set_state (s : phase) (e : effect) : effect :=
  Effect (kind e) (opts e) s (startOn e) (finishOn e) (fromToDelta e) (totalTime e) (totalFrames e)
    (currentFrame e) (position e).
Definition set_position (p : Q) (e : effect) : effect :=
  Effect (kind e) (opts e) (state e) (startOn e) (finishOn e) (fromToDelta e) (totalTime e)
    (totalFrames e) (currentFrame e) (Some p).
Definition set_frame (n : Z) (e : effect) : effect :=
  Effect (kind e) (opts e) (state e) (startOn e) (finishOn e) (fromToDelta e) (totalTime e)
    (totalFrames e) n (position e).
(** [e.startOn += dt; e.finishOn += dt] *)
Definition shift (dt : Q) (e : effect) : effect :=
  Effect (kind e) (opts e) (state e) (startOn e + dt) (finishOn e + dt) (fromToDelta e) (totalTime e)
    (totalFrames e) (currentFrame e) (position e).

(** ** Scoped queues *)

(** src/piql/scadr/src/main/rails/public/javascripts/effects.js:217-225
    [Effect.Queues.get(queueName)]: the queue of the name, created if needed;
    [undefined] is handed through, and has no methods. *)
Definition queue_of (scope : option jstring) : M (jstring * squeue) :=
  match scope with
  | None => throw TypeError
  | Some s =>
      w ← get;
      match queues w !! s with
      | Some q => mret (s, q)
      | None => modify (set_queue s (SQueue [] false));; mret (s, SQueue [] false)
      end
  end.

(** [Object.isString(options.queue) ? 'global' : options.queue.scope] *)
Definition scope_of (o : options) : option jstring :=
  match queue o with Named _ => Some (js "global") | Placed _ s _ => s end.
Definition place_of (o : options) : place :=
  match queue o with Named p => p | Placed p _ _ => p end.
Definition limit_of (o : options) : option Z :=
  match queue o with Named _ => None | Placed _ _ l => l end.

(** [max()] of an array of numbers, and the [||] that follows it *)
Definition max_from (r : option Q) (l : list Q) : option Q :=
  fold_left (fun r v =>
    if match r with Some m => bool_decide (m <= v) | None => true end then Some v else r) l r.
Definition max_or (l : list Q) (d : Q) : Q :=
  match max_from None l with Some m => if decide (m == 0) then d else m | None => d end.

(** The effects of a list of references. *)
Definition deref (l : list nat) (h : gmap nat effect) : list effect := omap (fun i => h !! i) l.

(** [!limit || effects.length < limit] *)
Definition has_room (limit : option Z) (n : Z) : bool :=
  match limit with None => true | Some l => (l =? 0)%Z || (n <? l)%Z end.

(** The change of the queued effects that an effect at the front causes. *)
Definition move_back (dt : Q) (e : effect) : effect :=
  if decide (state e = Idle) then shift dt e else e.

(** src/piql/scadr/src/main/rails/public/javascripts/effects.js:171-202
    [add(effect)] on the queue of a scope *)
Definition add (s : jstring) (id : nat) : M unit :=
  w ← get;
  e ← the id;
  let timestamp := inject_Z (clock w) in
  let q := default (SQueue [] false) (queues w !! s) in
  timestamp ← match place_of (opts e) with
    | Front =>
        modify (set_heap (fun h => fold_right (alter (move_back (finishOn e))) h (effects q)));;
        mret timestamp
    | WithLast => mret (max_or (startOn <$> deref (effects q) (heap w)) timestamp)
    | AtEnd => mret (max_or (finishOn <$> deref (effects q) (heap w)) timestamp)
    | Elsewhere => mret timestamp
    end;
  put id (shift timestamp);;
  modify (set_queue s
    (SQueue (if has_room (limit_of (opts e)) (zlen (effects q)) then effects q ++ [id] else effects q)
       true)).

(** src/piql/scadr/src/main/rails/public/javascripts/effects.js:203-209
    [remove(effect)] *)
Definition remove (s : jstring) (id : nat) : M unit :=
  w ← get;
  let q := default (SQueue [] false) (queues w !! s) in
  let l := filter (fun i => i <> id) (effects q) in
  modify (set_queue s (SQueue l (match l with [] => false | _ => interval q end))).

(** src/piql/scadr/src/main/rails/public/javascripts/effects.js:295-300
    [cancel()] *)
Definition cancel (id : nat) : M unit :=
  e ← the id;
  (if sync (opts e) then mret tt else '(s, _) ← queue_of (scope_of (opts e)); remove s id);;
  put id (set_state Finished).

(** ** The life of an effect *)

(** What the page's handlers and the kinds of effects do; a kind without a method
    does nothing in its place. *)
Variable call : H -> nat -> M unit.
Variable setup : K -> nat -> M unit.
Variable update : K -> nat -> Q -> M unit.
Variable finish_kind : K -> nat -> M unit.

Definition opt_call (h : option H) (id : nat) : M unit :=
  match h with Some h => call h id | None => mret tt end.

(** src/piql/scadr/src/main/rails/public/javascripts/effects.js:301-304
    [event(eventName)]; [dispatch] of [render] is the same. *)
Definition event (ev : hook) (id : nat) : M unit :=
  e ← the id; opt_call (internal (opts e) ev) id;;
  e ← the id; opt_call (handler (opts e) ev) id.

Definition setup_of (id : nat) : M unit :=
  e ← the id; match kind e with Parallel _ => mret tt | Of k => setup k id end.

(** [options.transition(pos) * fromToDelta + options.from] *)
Definition value_at (e : effect) (pos : Q) : Q :=
  default (fun x => x) (transition (opts e)) pos * fromToDelta e + from (opts e).

(** src/piql/scadr/src/main/rails/public/javascripts/effects.js:247-270
    [render(pos)], and the method [update] of combined effects.  An effect may
    combine others that combine others; calls nested deeper than [fuel] overflow
    the stack. *)
Fixpoint render (fuel : nat) (id : nat) (pos : Q) : M unit :=
  match fuel with
  | O => throw RangeError
  | S fuel =>
      e ← the id;
      (if decide (state e = Idle) then
         put id (set_state Running);;
         event BeforeSetup id;; setup_of id;; event AfterSetup id
       else mret tt);;
      e ← the id;
      if decide (state e = Running) then
        let pos := value_at e pos in
        put id (set_position pos);;
        event BeforeUpdate id;;
        e ← the id;
        match kind e with
        | Parallel l => iter (fun i => render fuel i pos) l
        | Of k => update k id pos
        end;;
        event AfterUpdate id
      else mret tt
  end.

(** src/piql/scadr/src/main/rails/public/javascripts/effects.js:321-329
    [finish()] of combined effects *)
Fixpoint finish (fuel : nat) (id : nat) : M unit :=
  match fuel with
  | O => throw RangeError
  | S fuel =>
      e ← the id;
      match kind e with
      | Of k => finish_kind k id
      | Parallel l =>
          iter (fun i =>
            render fuel i 1;; cancel i;; event BeforeFinish i;;
            finish fuel i;;
            event AfterFinish i) l
      end
  end.

(** src/piql/scadr/src/main/rails/public/javascripts/effects.js:277-294
    [loop(timePos)] *)
Definition loop (timePos : Z) (id : nat) : M unit :=
  let fuel := S id in
  e ← the id;
  if decide (startOn e <= inject_Z timePos) then
    if decide (finishOn e <= inject_Z timePos) then
      render fuel id 1;; cancel id;; event BeforeFinish id;; finish fuel id;; event AfterFinish id
    else
      let pos := (inject_Z timePos - startOn e) / totalTime e in
      let frame := round (pos * totalFrames e) in
      if decide (currentFrame e < frame)%Z then render fuel id pos;; put id (set_frame frame)
      else mret tt
  else mret tt.

(** src/piql/scadr/src/main/rails/public/javascripts/effects.js:210-214
    [loop()] of a queue, from position [i] for [n] more: the list is read again
    at every position. *)
Fixpoint scan (s : jstring) (timePos : Z) (i n : nat) : M unit :=
  match n with
  | O => mret tt
  | S n =>
      w ← get;
      match effects (default (SQueue [] false) (queues w !! s)) !! i with
      | Some id => loop timePos id
      | None => mret tt
      end;;
      scan s timePos (S i) n
  end.

Definition queue_loop (s : jstring) : M unit :=
  w ← get; scan s (clock w) 0 (length (effects (default (SQueue [] false) (queues w !! s)))).

(** src/piql/scadr/src/main/rails/public/javascripts/effects.js:230-276
    [start(options)], with the constructor around it *)
Definition start (k : class) (o : options) : M nat :=
  w ← get;
  let id := next w in
  let startOn := delay o * 1000 in
  let finishOn := startOn + duration o * 1000 in
  let e := Effect k o Idle startOn finishOn (to o - from o) (finishOn - startOn)
             (fps o * duration o) 0 None in
  modify (fun w => World (<[id := e]> (heap w)) (S id) (queues w) (clock w) (page w));;
  event BeforeStart id;;
  e ← the id;
  (if sync (opts e) then mret tt else '(s, _) ← queue_of (scope_of (opts e)); add s id);;
  mret id.

End Effects.
Arguments options : clear implicits.
Arguments class : clear implicits.
Arguments effect : clear implicits.
Arguments world : clear implicits.
Arguments M : clear implicits.
End Fx.
