(* ===== verification/FxInv.v ===== *)
(** * The invariant of the effect queues

    Whatever the handlers of the page do with the library - start effects, cancel
    them, throw - the queues stay consistent: the timer of a queue runs exactly
    when the queue has effects, every queued effect exists, once, and in the queue
    of its own scope.  The invariant comes in two strengths: a strict one, in which
    every effect that is queued has a scope and only the page throws, and one in
    which a queue object may lack its scope and kinds of effects may throw. *)
From S2P Require Import Prelude JsString FxQueue.
Open Scope Z_scope.

Module FxInv.
Import Fx.

Section inv.
Context {H K Pg : Type}.
Context {strict : bool}.
Notation world := (world H K Pg).
Notation M := (M H K Pg).
Implicit Types (w : world) (id : nat) (e : effect H K).

Definition members (s : jstring) w : list nat := effects (default (SQueue [] false) (queues w !! s)).
Definition has id w : Prop := is_Some (heap w !! id).
Definition subs e : list nat := match kind e with Parallel l => l | Of _ => [] end.

(** Options that a queue can work with: no negative limit and, when this is asked
    for, a scope. *)
Definition wf_options (o : options H) : Prop :=
  sync o = false -> (strict = true -> is_Some (scope_of o)) /\ default 0 (limit_of o) >= 0.

Definition wf_effect w id e : Prop :=
  (id < next w)%nat /\ (forall i, i ∈ subs e -> (i < id)%nat /\ has i w) /\ wf_options (opts e).

Definition wf_queue w (s : jstring) (q : squeue) : Prop :=
  NoDup (effects q) /\ (interval q = true <-> effects q <> []) /\
  forall id, id ∈ effects q ->
    exists e, heap w !! id = Some e /\ sync (opts e) = false /\ scope_of (opts e) = Some s.

Definition wf_in w : Prop :=
  map_Forall (wf_effect w) (heap w) /\ map_Forall (wf_queue w) (queues w).
Local Abbreviation wf := wf_in.

(** What every computation keeps: effects and their options stay, and no effect
    that was there joins a queue. *)
Definition older w w' : Prop :=
  (next w <= next w')%nat /\
  (forall id e, heap w !! id = Some e ->
     exists e', heap w' !! id = Some e' /\ kind e' = kind e /\ opts e' = opts e) /\
  (forall id s, has id w -> id ∈ members s w' -> id ∈ members s w).

#[global] Instance older_preorder : PreOrder older.
Proof.
  split.
  - intros w. repeat split; [done| |done]. intros id e He. by exists e.
  - intros w1 w2 w3 (Hn & Hh & Hq) (Hn' & Hh' & Hq'). split; [lia|split].
    + intros id e (e' & He & Hk & Ho)%Hh. destruct (Hh' _ _ He) as (e'' & ? & ? & ?).
      exists e''. by rewrite <- Hk, <- Ho.
    + intros id s Hi Hm. apply Hq; [done|]. apply Hq'; [|done].
      destruct Hi as [e (e' & He & _)%Hh]. by exists e'.
Qed.

Lemma older_has id w w' : older w w' -> has id w -> has id w'.
Proof. intros (_ & Hh & _) [e (e' & He & _)%Hh]. by exists e'. Qed.

(** ** Triples *)

(** The exceptions there can be: those of the page and, unless the strict invariant
    is asked for, type errors; never an overflow of the stack. *)
Definition expected (x : exn) : Prop :=
  match x with Thrown => True | TypeError => strict = false | RangeError => False end.

Definition triple {A} (P : world -> Prop) (m : M A) (Q : A -> world -> Prop) : Prop :=
  forall w, wf w -> P w ->
    wf (m w).2 /\ older w (m w).2 /\
    match (m w).1 with Val a => Q a (m w).2 | Exn x => expected x end.

Definition stable (F : world -> Prop) : Prop := forall w w', older w w' -> F w -> F w'.

Lemma stable_has id : stable (has id).
Proof. intros w w'. apply older_has. Qed.

Lemma stable_true : stable (fun _ => True).
Proof. done. Qed.

Lemma fx_ret {A} (a : A) P : triple P (mret a) (fun b w => b = a /\ P w).
Proof. intros w Hw Hp. simpl. by split; [|split]. Qed.

Lemma fx_bind {A B} (m : M A) (f : A -> M B) P Q R :
  triple P m Q -> (forall a, triple (Q a) (f a) R) -> triple P (m ≫= f) R.
Proof.
  intros Hm Hf w Hw Hp. destruct (Hm w Hw Hp) as (Hw1 & Ho1 & Hq).
  unfold mbind, M_bind. destruct (m w) as [[a|x] w1]; simpl in *; [|done].
  destruct (Hf a w1 Hw1 Hq) as (Hw2 & Ho2 & Hr). split; [done|]. split; [|done].
  by transitivity w1.
Qed.

Lemma triple_weaken {A} (m : M A) (P P' : world -> Prop) (Q Q' : A -> world -> Prop) :
  triple P m Q -> (forall w, wf w -> P' w -> P w) -> (forall a w, wf w -> Q a w -> Q' a w) ->
  triple P' m Q'.
Proof.
  intros Hm Hp Hq w Hw Hp'. destruct (Hm w Hw (Hp w Hw Hp')) as (Hw1 & Ho & Hr).
  split; [done|]. split; [done|]. destruct (m w) as [[a|x] w1]; simpl in *; auto.
Qed.

Lemma triple_frame {A} (m : M A) P Q F :
  stable F -> triple P m Q -> triple (fun w => P w /\ F w) m (fun a w => Q a w /\ F w).
Proof.
  intros HF Hm w Hw [Hp Hf]. destruct (Hm w Hw Hp) as (Hw1 & Ho & Hr).
  split; [done|]. split; [done|]. pose proof (HF _ _ Ho Hf).
  destruct (m w) as [[a|x] w1]; simpl in *; auto.
Qed.

(** A computation that needs the effects [F] speaks of, and leaves them. *)
Definition runs {A} (F : world -> Prop) (m : M A) : Prop := triple F m (fun _ => F).

Lemma runs_frame {A} (m : M A) F : stable F -> runs (fun _ => True) m -> runs F m.
Proof.
  intros HF Hm. eapply triple_weaken; [exact (triple_frame m _ _ F HF Hm)| |]; simpl; tauto.
Qed.

Lemma runs_stronger {A} (m : M A) F G :
  stable F -> (forall w, F w -> G w) -> runs G m -> runs F m.
Proof.
  intros HF Hfg Hm. eapply triple_weaken; [exact (triple_frame m _ _ F HF Hm)| |]; simpl; [|tauto].
  intros w _ HFw. split; auto.
Qed.

Lemma runs_ret {A} (a : A) F : runs F (mret a).
Proof. eapply triple_weaken; [apply fx_ret| |]; simpl; [done|tauto]. Qed.

Lemma runs_bind {A B} (m : M A) (f : A -> M B) F :
  runs F m -> (forall a, runs F (f a)) -> runs F (m ≫= f).
Proof. intros Hm Hf. by eapply fx_bind. Qed.

Lemma runs_iter {A} (f : A -> M unit) l F :
  (forall x, x ∈ l -> runs F (f x)) -> runs F (iter f l).
Proof.
  induction l as [|x l IH]; intros Hf; [apply runs_ret|]. simpl. apply runs_bind.
  - apply Hf, list_elem_of_here.
  - intros _. apply IH. intros y Hy. by apply Hf, list_elem_of_further.
Qed.

(** ** Reading and writing *)

(** What is known of an effect that was read. *)
Definition known id e w : Prop :=
  has id w /\ (forall i, i ∈ subs e -> (i < id)%nat /\ has i w) /\ wf_options (opts e).

Lemma stable_known id e : stable (known id e).
Proof.
  intros w w' Ho (Hi & Hs & Hc). split; [by eapply older_has|]. split; [|done].
  intros i Hin. destruct (Hs i Hin). split; [done|]. by eapply older_has.
Qed.

Lemma the_triple id : triple (has id) (the id) (known id).
Proof.
  intros w Hw [e He]. unfold the, mbind, M_bind, get. simpl. rewrite He. simpl.
  split; [done|]. split; [done|]. destruct (proj1 Hw id e He) as (? & ? & ?).
  split; [by exists e|]. split; done.
Qed.

(** Reading an effect and going on with what is known of it. *)
Lemma runs_the {A} id (f : effect H K -> M A) :
  (forall e, runs (known id e) (f e)) -> runs (has id) (e ← the id; f e).
Proof.
  intros Hf. eapply fx_bind; [apply the_triple|]. intros e.
  apply (triple_weaken _ (known id e) _ (fun _ => known id e)); [apply Hf|done|].
  by intros a w _ [Hk _].
Qed.

Lemma members_heap f w s : members s (set_heap f w) = members s w.
Proof. done. Qed.

(** Changing effects without their kind and options. *)
Lemma change_keeps w h :
  wf w -> (forall id, (fun e => (kind e, opts e)) <$> (h !! id) = (fun e => (kind e, opts e)) <$> (heap w !! id)) ->
  wf (set_heap (fun _ => h) w) /\ older w (set_heap (fun _ => h) w).
Proof.
  intros [Hh Hq] Hsame.
  assert (forall id e, heap w !! id = Some e ->
    exists e', h !! id = Some e' /\ kind e' = kind e /\ opts e' = opts e) as Hto.
  { intros id e He. specialize (Hsame id). rewrite He in Hsame. simpl in Hsame.
    destruct (h !! id) as [e'|]; [|done]. injection Hsame as ? ?. by exists e'. }
  split; [split|split; [done|split]].
  - intros id e He. change (h !! id = Some e) in He.
    specialize (Hsame id). rewrite He in Hsame. simpl in Hsame.
    destruct (heap w !! id) as [e0|] eqn:He0; [|done]. injection Hsame as Hk Ho.
    destruct (Hh id e0 He0) as (Hlt & Hs & Hc). unfold wf_effect, subs. rewrite Hk, Ho.
    split; [done|]. split; [|done]. intros i Hi. destruct (Hs i Hi) as [? [ei Hei]].
    split; [done|]. destruct (Hto i ei Hei) as (ei' & ? & _). by exists ei'.
  - intros s q Hsq. destruct (Hq s q Hsq) as (Hn & Hi & Hm). split; [done|]. split; [done|].
    intros id (e & He & Hsy & Hsc)%Hm. destruct (Hto id e He) as (e' & ? & _ & Ho).
    exists e'. by rewrite Ho.
  - intros id e He. by apply Hto.
  - intros id s _ Hm. exact Hm.
Qed.

Lemma runs_put id (f : effect H K -> effect H K) F :
  (forall e, kind (f e) = kind e) -> (forall e, opts (f e) = opts e) -> stable F ->
  runs F (put id f).
Proof.
  intros Hk Ho HF w Hw Hf. unfold put, modify. simpl.
  destruct (change_keeps w (alter f id (heap w)) Hw) as [Hw' Hold].
  { intros j. destruct (decide (j = id)) as [->|Hj].
    - rewrite lookup_alter_eq. destruct (heap w !! id) as [e|]; simpl; [|done]. by rewrite Hk, Ho.
    - by rewrite lookup_alter_ne. }
  split; [exact Hw'|]. split; [exact Hold|]. by eapply HF.
Qed.

(** ** The queues *)
Lemma wf_set_queue w s q :
  wf w -> wf_queue w s q -> wf (set_queue s q w).
Proof.
  intros [Hh Hq] Hs. split; [exact Hh|]. apply map_Forall_insert_2; [exact Hs|exact Hq].
Qed.

Lemma members_set_queue w s q r :
  members r (set_queue s q w) = if decide (r = s) then effects q else members r w.
Proof.
  unfold members, set_queue. simpl. destruct (decide (r = s)) as [->|Hr].
  - by rewrite lookup_insert_eq.
  - by rewrite lookup_insert_ne.
Qed.

Lemma older_set_queue w s q :
  (forall id, has id w -> id ∈ effects q -> id ∈ members s w) -> older w (set_queue s q w).
Proof.
  intros Hs. split; [done|]. split; [by intros id e He; exists e|].
  intros id r Hid. rewrite members_set_queue. destruct (decide (r = s)) as [->|_]; auto.
Qed.

Lemma wf_members w s :
  wf w -> wf_queue w s (default (SQueue [] false) (queues w !! s)).
Proof.
  intros [_ Hq]. destruct (queues w !! s) as [q|] eqn:Hs; simpl; [exact (Hq s q Hs)|].
  split; [constructor|]. split; [done|]. intros id Hid. by apply elem_of_nil in Hid.
Qed.

Lemma runs_remove s id F : stable F -> runs F (remove s id).
Proof.
  intros HF w Hw Hf. unfold remove, mbind, M_bind, get, modify. simpl.
  destruct (wf_members w s Hw) as (Hn & Hi & Hm).
  set (q := default (SQueue [] false) (queues w !! s)) in *.
  match goal with |- wf (set_queue _ ?q' _) /\ _ => set (r := q') end.
  assert (older w (set_queue s r w)) as Hold.
  { apply older_set_queue. intros i _ Hin. by apply list_elem_of_filter in Hin as [_ Hin]. }
  split; [|by split; [|eapply HF]].
  apply wf_set_queue; [done|]. split; [by apply NoDup_filter|]. split.
  - unfold r. simpl. destruct (filter _ (effects q)) as [|x l] eqn:E; [done|].
    rewrite Hi. split; [done|]. intros _ Hnil. by rewrite Hnil in E.
  - intros i Hin. apply list_elem_of_filter in Hin as [_ Hin]. by apply Hm.
Qed.

(** The queue of a scope, which is created when it is missing. *)
Lemma queue_of_eq s w :
  wf w -> exists w' q, queue_of (Some s) w = (Val (s, q), w') /\ wf w' /\ older w w' /\
    heap w' = heap w /\ next w' = next w /\ forall r, members r w' = members r w.
Proof.
  intros Hw. unfold queue_of, mbind, M_bind, get, modify. simpl.
  destruct (queues w !! s) as [q|] eqn:Hs; simpl; [by exists w, q|].
  assert (forall r, members r (set_queue s (SQueue [] false) w) = members r w) as Hm.
  { intros r. rewrite members_set_queue. destruct (decide (r = s)) as [->|]; [|done].
    unfold members. by rewrite Hs. }
  eexists _, _. split; [done|]. split; [|split; [|done]].
  - apply wf_set_queue; [done|]. split; [constructor|]. split; [done|].
    intros id Hid. by apply elem_of_nil in Hid.
  - apply older_set_queue. intros id _ Hid. by apply elem_of_nil in Hid.
Qed.

Lemma queue_of_triple sc F :
  stable F -> is_Some sc ->
  triple F (queue_of sc) (fun p w => F w /\ sc = Some p.1).
Proof.
  intros HF [s ->] w Hw Hf. destruct (queue_of_eq s w Hw) as (w' & q & -> & ? & ? & _).
  simpl. split; [done|]. split; [done|]. split; [by eapply HF|done].
Qed.

Lemma runs_cancel id : runs (has id) (cancel id).
Proof.
  unfold cancel. apply runs_the. intros e. apply runs_bind.
  - destruct (sync (opts e)) eqn:Hs; [apply runs_ret|].
    destruct (scope_of (opts e)) as [r|] eqn:Hr.
    + eapply fx_bind; [apply (queue_of_triple (Some r) (known id e)); [apply stable_known|done]|].
      intros [s q]. simpl. eapply triple_weaken.
      * apply (runs_remove s id (known id e)), stable_known.
      * by intros ? _ [? _].
      * done.
    + intros w Hw Hkn. split; [exact Hw|]. split; [done|]. destruct Hkn as (_ & _ & Hsc).
      destruct (Hsc Hs) as [Hs' _]. rewrite Hr in Hs'. simpl. destruct strict; [by destruct Hs'|done].
  - intros _. apply runs_put; [done|done|apply stable_known].
Qed.

(** ** Joining a queue *)
Definition alike (h h' : gmap nat (effect H K)) : Prop := forall i,
  (fun e => (kind e, opts e)) <$> (h' !! i) = (fun e => (kind e, opts e)) <$> (h !! i).

Lemma alike_alter h h' i (f : effect H K -> effect H K) :
  (forall e, kind (f e) = kind e /\ opts (f e) = opts e) -> alike h h' -> alike h (alter f i h').
Proof.
  intros Hf Hh j. rewrite <- (Hh j). destruct (decide (j = i)) as [->|Hj].
  - rewrite lookup_alter_eq. destruct (h' !! i) as [e|]; simpl; [|done].
    destruct (Hf e) as [-> ->]. done.
  - by rewrite lookup_alter_ne.
Qed.

Lemma alike_move_back h dt l : alike h (fold_right (alter (move_back dt)) h l).
Proof.
  induction l as [|i l IH]; [done|]. simpl. apply alike_alter; [|done].
  intros e. unfold move_back. by destruct (decide _).
Qed.

(** The times of the queue after an effect was added. *)
Definition joined (s : jstring) id e w : gmap nat (effect H K) * Q :=
  let q := members s w in
  match place_of (opts e) with
  | Front => (fold_right (alter (move_back (finishOn e))) (heap w) q, inject_Z (clock w))
  | WithLast => (heap w, max_or (startOn <$> deref q (heap w)) (inject_Z (clock w)))
  | AtEnd => (heap w, max_or (finishOn <$> deref q (heap w)) (inject_Z (clock w)))
  | Elsewhere => (heap w, inject_Z (clock w))
  end.

Lemma add_eq s id w e :
  heap w !! id = Some e ->
  add s id w =
  (Val tt, set_queue s
     (SQueue (if has_room (limit_of (opts e)) (zlen (members s w)) then members s w ++ [id] else members s w) true)
     (set_heap (fun _ => alter (shift (joined s id e w).2) id (joined s id e w).1) w)).
Proof.
  intros He. unfold add, the, joined, put, modify, mbind, M_bind, get, mret, M_ret. rewrite He.
  by destruct (place_of (opts e)).
Qed.

Lemma add_keeps s id w e :
  wf w -> heap w !! id = Some e -> sync (opts e) = false -> scope_of (opts e) = Some s ->
  default 0 (limit_of (opts e)) >= 0 -> id ∉ members s w ->
  exists w', add s id w = (Val tt, w') /\ wf w' /\ has id w' /\
    (next w' = next w) /\ alike (heap w) (heap w') /\
    forall i r, i <> id -> i ∈ members r w' -> i ∈ members r w.
Proof.
  intros Hw He Hsy Hsc Hl Hid. rewrite (add_eq s id w e He). eexists. split; [done|].
  set (h := alter (shift (joined s id e w).2) id (joined s id e w).1).
  assert (alike (heap w) h) as Ha.
  { apply alike_alter; [done|]. unfold joined. destruct (place_of (opts e)); try done. apply alike_move_back. }
  destruct (change_keeps w h Hw Ha) as [Hw' Ho].
  assert (exists e', h !! id = Some e' /\ opts e' = opts e) as (e' & He' & Hoe).
  { specialize (Ha id). rewrite He in Ha. simpl in Ha. destruct (h !! id) as [e'|]; [|done].
    injection Ha as _ ?. by exists e'. }
  destruct (wf_members w s Hw) as (Hn & Hi & Hm). fold (members s w) in Hn, Hi, Hm.
  split.
  { apply wf_set_queue; [done|]. split; [|split].
    - simpl. destruct (has_room _ _); [|done]. apply NoDup_app. split; [done|].
      split; [|apply NoDup_singleton]. intros i Hin ->%list_elem_of_singleton. done.
    - simpl. split; [intros _|done]. destruct (has_room _ _) eqn:Hr.
      + by destruct (members s w).
      + intros Hnil. rewrite Hnil in Hr. unfold has_room in Hr. destruct (limit_of (opts e)) as [z|]; [|done].
        apply orb_false_iff in Hr as [?%Z.eqb_neq ?%Z.ltb_ge]. rewrite zlen_nil in *. simpl in Hl. lia.
    - simpl. intros i Hin. assert (i ∈ members s w \/ i = id) as [Hin'| ->].
      { destruct (has_room _ _); [|by left]. apply elem_of_app in Hin as [|?%list_elem_of_singleton]; auto. }
      + destruct (Hm i Hin') as (ei & Hei & ? & ?). specialize (Ha i). rewrite Hei in Ha. simpl in Ha.
        destruct (h !! i) as [ei'|] eqn:E; [|done]. injection Ha as ? Hoo. exists ei'. rewrite Hoo. done.
      + exists e'. by rewrite Hoe. }
  split; [by exists e'|]. split; [done|]. split; [done|].
  intros i r Hne. rewrite members_set_queue. destruct (decide (r = s)) as [->|_]; [|done].
  simpl. destruct (has_room _ _); [|done].
  intros [?|?%list_elem_of_singleton]%elem_of_app; done.
Qed.

(** ** The life of an effect *)
Section page.
Variable call : H -> nat -> M unit.
Variable setup : K -> nat -> M unit.
Variable update : K -> nat -> Q -> M unit.
Variable finish_kind : K -> nat -> M unit.
Hypothesis call_keeps : forall h id, runs (has id) (call h id).
Hypothesis setup_keeps : forall k id, runs (has id) (setup k id).
Hypothesis update_keeps : forall k id p, runs (has id) (update k id p).
Hypothesis finish_keeps : forall k id, runs (has id) (finish_kind k id).

Notation event := (event call).
Notation render := (render call setup update).
Notation finish := (finish call setup update finish_kind).
Notation loop := (loop call setup update finish_kind).

Lemma known_has id e w : known id e w -> has id w.
Proof. by intros [? _]. Qed.

Lemma runs_known {A} id e (m : M A) : runs (has id) m -> runs (known id e) m.
Proof. apply runs_stronger; [apply stable_known|apply known_has]. Qed.

Lemma runs_event ev id : runs (has id) (event ev id).
Proof.
  assert (forall h, runs (has id) (opt_call call h id)) as Ho.
  { intros [h|]; [apply call_keeps|apply runs_ret]. }
  unfold Fx.event. apply runs_the. intros e. apply runs_known, runs_bind; [apply Ho|].
  intros _. apply runs_the. intros e'. apply runs_known, Ho.
Qed.

Lemma runs_setup_of id : runs (has id) (setup_of setup id).
Proof.
  unfold setup_of. apply runs_the. intros e. destruct (kind e) as [l|k]; [apply runs_ret|].
  apply runs_known, setup_keeps.
Qed.

(** For every member of a combined effect. *)
Lemma runs_subs id e l fuel (f : nat -> M unit) :
  kind e = Parallel l -> (id < S fuel)%nat ->
  (forall i, (i < fuel)%nat -> runs (has i) (f i)) -> runs (known id e) (iter f l).
Proof.
  intros Hk Hf Hr. apply runs_iter. intros i Hi w Hw Hkn.
  destruct Hkn as (Hid & Hsub & Hsc) eqn:E. clear E.
  assert (i ∈ subs e) as Hin by (unfold subs; by rewrite Hk).
  destruct (Hsub i Hin) as [Hlt _].
  refine (runs_stronger _ _ _ (stable_known id e) _ (Hr i _) w Hw Hkn); [|lia].
  intros w' (_ & Hs' & _). by apply Hs'.
Qed.

Lemma runs_render fuel : forall id pos, (id < fuel)%nat -> runs (has id) (render fuel id pos).
Proof.
  induction fuel as [|fuel IH]; intros id pos Hid; [lia|]. simpl. apply runs_the. intros e.
  apply runs_known, runs_bind.
  { destruct (decide _); [|apply runs_ret].
    apply runs_bind; [apply runs_put; [done|done|apply stable_has]|]. intros _.
    apply runs_bind; [apply runs_event|]. intros _.
    apply runs_bind; [apply runs_setup_of|]. intros _. apply runs_event. }
  intros _. apply runs_the. intros e'. apply runs_known. destruct (decide _); [|apply runs_ret].
  apply runs_bind; [apply runs_put; [done|done|apply stable_has]|]. intros _.
  apply runs_bind; [apply runs_event|]. intros _.
  apply runs_the. intros e2. apply runs_bind; [|intros _; apply runs_known, runs_event].
  destruct (kind e2) as [l|k] eqn:Hk; [|apply runs_known, update_keeps].
  apply (runs_subs id e2 l fuel); [done|done|]. intros i Hi. by apply IH.
Qed.

Lemma runs_finish fuel : forall id, (id < fuel)%nat -> runs (has id) (finish fuel id).
Proof.
  induction fuel as [|fuel IH]; intros id Hid; [lia|]. simpl. apply runs_the. intros e.
  destruct (kind e) as [l|k] eqn:Hk; [|apply runs_known, finish_keeps].
  apply (runs_subs id e l fuel); [done|done|]. intros i Hi.
  apply runs_bind; [by apply runs_render|]. intros _.
  apply runs_bind; [apply runs_cancel|]. intros _.
  apply runs_bind; [apply runs_event|]. intros _.
  apply runs_bind; [by apply IH|]. intros _. apply runs_event.
Qed.

Lemma runs_loop t id : runs (has id) (loop t id).
Proof.
  unfold Fx.loop. apply runs_the. intros e. apply runs_known.
  destruct (decide _); [|apply runs_ret]. destruct (decide _).
  - apply runs_bind; [apply runs_render; lia|]. intros _.
    apply runs_bind; [apply runs_cancel|]. intros _.
    apply runs_bind; [apply runs_event|]. intros _.
    apply runs_bind; [apply runs_finish; lia|]. intros _. apply runs_event.
  - destruct (decide _); [|apply runs_ret].
    apply runs_bind; [apply runs_render; lia|]. intros _.
    apply runs_put; [done|done|apply stable_has].
Qed.

Notation scan := (scan call setup update finish_kind).

Lemma scan_S s t i n w :
  scan s t i (S n) w =
  ((match members s w !! i with Some id => loop t id | None => mret tt end);; scan s t (S i) n) w.
Proof. done. Qed.

Lemma member_has s id w : wf w -> id ∈ members s w -> has id w.
Proof. intros Hw Hid. destruct (wf_members w s Hw) as (_ & _ & Hm). destruct (Hm id Hid) as (e & ? & _). by exists e. Qed.

Lemma runs_scan s t n : forall i, runs (fun _ => True) (scan s t i n).
Proof.
  induction n as [|n IH]; intros i; [apply runs_ret|]. intros w Hw _. rewrite scan_S.
  destruct (members s w !! i) as [id|] eqn:Hi.
  - assert (has id w) as Hid by (by eapply member_has, list_elem_of_lookup_2).
    refine (fx_bind _ _ (has id) _ (fun _ _ => True) (runs_loop t id) _ w Hw Hid).
    intros _. by eapply triple_weaken; [apply (IH (S i))|..].
  - by refine (runs_bind (mret tt) _ (fun _ => True) (runs_ret _ _) _ w Hw I).
Qed.

Lemma runs_queue_loop s : runs (fun _ => True) (queue_loop call setup update finish_kind s).
Proof.
  unfold queue_loop. apply runs_bind; [by intros w Hw _|]. intros w. apply runs_scan.
Qed.

(** ** Starting an effect *)
Notation start := (start call).

Definition wf_new_in (k : class K) (o : options H) w : Prop :=
  wf_options o /\ forall i, k = Parallel i -> Forall (fun j => has j w) i.

Local Abbreviation wf_new := wf_new_in.

Lemma older_of w w1 w2 id :
  older w w1 -> next w1 = next w2 -> alike (heap w1) (heap w2) ->
  (forall i r, i <> id -> i ∈ members r w2 -> i ∈ members r w1) ->
  ~ has id w -> older w w2.
Proof.
  intros (Hn & Hh & Hm) Hn2 Ha Hm2 Hid. split; [lia|]. split.
  - intros i e (e1 & He1 & Hk & Ho)%Hh. specialize (Ha i). rewrite He1 in Ha. simpl in Ha.
    destruct (heap w2 !! i) as [e2|]; [|done]. injection Ha as Hk2 Ho2. exists e2.
    by rewrite Hk2, Ho2.
  - intros i r Hi Hir. apply Hm; [done|]. apply Hm2; [|done]. by intros ->.
Qed.

Lemma runs_start k o w :
  wf w -> wf_new k o w ->
  let '(r, w') := start k o w in
  wf w' /\ older w w' /\ match r with Val id => has id w' | Exn x => expected x end.
Proof.
  intros Hw [Ho Hk]. unfold Fx.start, mbind, M_bind, get, modify.
  set (id := next w). set (e := Effect k o Idle _ _ _ _ _ _ _).
  set (w1 := World _ _ _ _ _).
  assert (~ has id w) as Hfresh.
  { intros [e' He']. destruct (proj1 Hw id e' He') as [Hlt _]. unfold id in Hlt. lia. }
  assert (older w w1) as Ho1.
  { split; [simpl; lia|]. split; [|done]. intros i ei Hi. exists ei. split; [|done].
    simpl. rewrite lookup_insert_ne; [done|]. intros <-. apply Hfresh. by exists ei. }
  assert (wf w1) as Hw1.
  { split.
    - intros i ei Hi. simpl in Hi. destruct (decide (i = id)) as [->|Hne].
      + rewrite lookup_insert_eq in Hi. injection Hi as <-. split; [simpl; lia|]. split; [|done].
        intros j Hj. unfold subs in Hj. simpl in Hj. destruct k as [l|]; [|by apply elem_of_nil in Hj].
        specialize (Hk l eq_refl). rewrite Forall_forall in Hk. specialize (Hk j Hj).
        destruct Hk as [ej Hej] eqn:E. clear E. split; [apply (proj1 Hw j ej Hej)|]. by apply (older_has j w).
      + rewrite lookup_insert_ne in Hi by done. destruct (proj1 Hw i ei Hi) as (Hlt & Hs & Hsc).
        split; [simpl; lia|]. split; [|done]. intros j [Hj Hhj]%Hs. split; [done|]. by apply (older_has j w).
    - intros s q Hq. destruct (proj2 Hw s q Hq) as (? & ? & Hm). split; [done|]. split; [done|].
      intros i (ei & Hei & ? & ?)%Hm. exists ei. split; [|done]. simpl. rewrite lookup_insert_ne; [done|].
      intros <-. apply Hfresh. by exists ei. }
  assert (heap w1 !! id = Some e) as He1 by (simpl; by rewrite lookup_insert_eq).
  destruct (runs_event BeforeStart id w1 Hw1 (ex_intro _ e He1)) as (Hw2 & Ho2 & Hr).
  destruct (event BeforeStart id w1) as [[[]|x] w2]; simpl in *; [|split; [done|split; [by transitivity w1|done]]].
  destruct (proj1 (proj2 Ho2) id e He1) as (e2 & He2 & _ & Ho2').
  unfold the, mbind, M_bind, get. rewrite He2. simpl. rewrite Ho2'. simpl.
  destruct (sync o) eqn:Hsy; [split; [done|split; [by transitivity w1|by exists e2]]|].
  destruct (Ho Hsy) as [Hsc Hl]. destruct (scope_of o) as [s|] eqn:Hs.
  2: { simpl. split; [done|]. split; [by transitivity w1|]. simpl. destruct strict; [by destruct Hsc|done]. }
  assert (forall r, id ∉ members r w2) as Hno.
  { intros r Hir. apply (proj2 (proj2 Ho2) id r) in Hir; [|by exists e].
    apply Hfresh. by apply (member_has r). }
  destruct (queue_of_eq s w2 Hw2) as (w3 & q & Hq & Hw3 & Ho3 & Hh3 & Hn3 & Hm3). rewrite Hq.
  destruct (add_keeps s id w3 e2) as (w4 & Ha & Hw4 & Hid4 & Hn4 & Ha4 & Hm4); [done|by rewrite Hh3|by rewrite Ho2'..| |].
  { by rewrite Hm3. }
  rewrite Ha. simpl. split; [done|]. split; [|done].
  apply (older_of w w3 w4 id); [|done|done|done|done].
  by transitivity w1; [|transitivity w2].
Qed.

(** Starting an effect that combines no others is something a handler may do. *)
Lemma runs_start_plain k o F :
  wf_options o -> stable F -> runs F (start (Of k) o;; mret tt).
Proof.
  intros Ho HF w Hw Hf. assert (wf_new (Of k) o w) as Hn by by split.
  pose proof (runs_start (Of k) o w Hw Hn) as Hr. unfold mbind, M_bind.
  destruct (start (Of k) o w) as [[id|x] w']; destruct Hr as (Hw' & Hol & Hp); simpl.
  - split; [done|]. split; [done|]. by eapply HF.
  - done.
Qed.

(** ** Sessions *)

(** What happens to the effects of a page: one is started or cancelled, time
    passes, the timer of a queue fires if it is set. *)
Inductive action :=
  | Start (k : class K) (o : options H)
  | Cancel (id : nat)
  | Wait (t : Z)
  | Tick (s : jstring).

Definition queue_at (s : jstring) w : squeue := default (SQueue [] false) (queues w !! s).

Definition act (a : action) : M unit :=
  match a with
  | Start k o => start k o;; mret tt
  | Cancel id => cancel id
  | Wait t => modify (fun w => set_clock (clock w + t) w)
  | Tick s => w ← get; if interval (queue_at s w) then queue_loop call setup update finish_kind s else mret tt
  end.

Definition allowed (a : action) w : Prop :=
  match a with Start k o => wf_new k o w | Cancel id => has id w | _ => True end.

(** An exception of a handler ends the handler of the browser's event, no more. *)
Inductive session : world -> Prop :=
  | session_start t p : session (World ∅ 0 ∅ t p)
  | session_act w a : session w -> allowed a w -> session (act a w).2.

Lemma act_keeps a w :
  wf w -> allowed a w -> wf (act a w).2 /\ forall x, (act a w).1 = Exn x -> expected x.
Proof.
  intros Hw Ha. destruct a as [k o|id|t|s]; simpl.
  - pose proof (runs_start k o w Hw Ha) as Hr. unfold mbind, M_bind.
    destruct (start k o w) as [[id|x] w']; destruct Hr as (? & _ & Hp); simpl; (split; [done|]).
    + done.
    + by intros ? [= <-].
  - destruct (runs_cancel id w Hw Ha) as (? & _ & Hr). split; [done|].
    intros x Hx. by rewrite Hx in Hr.
  - split; [|done]. exact Hw.
  - unfold mbind, M_bind, get. destruct (interval _); [|done].
    destruct (runs_queue_loop s w Hw I) as (? & _ & Hr). split; [done|].
    intros x Hx. by rewrite Hx in Hr.
Qed.

Lemma session_wf w : session w -> wf w.
Proof.
  induction 1 as [t p|w a _ IH Ha].
  - split; apply map_Forall_empty.
  - by apply act_keeps.
Qed.

(** Actions that need nothing of the world. *)
Definition free (a : action) : Prop :=
  match a with Start (Of _) o => wf_options o | Start _ _ | Cancel _ => False | _ => True end.

Definition run (l : list action) w : world := fold_left (fun w a => (act a w).2) l w.

Lemma session_run l : forall w, session w -> Forall free l -> session (run l w).
Proof.
  induction l as [|a l IH]; intros w Hw Hl; [done|]. apply Forall_cons in Hl as [Ha Hl].
  apply IH; [|done]. apply session_act; [done|]. destruct a as [[l'|k] o|id|t|s]; done.
Qed.

(** What the invariant says of the queues of a session. *)
Lemma queues_consistent w :
  session w ->
  (forall s, (interval (queue_at s w) = true <-> members s w <> []) /\ NoDup (members s w) /\
     forall id, id ∈ members s w -> has id w /\ forall r, id ∈ members r w -> r = s) /\
  forall a x, allowed a w -> (act a w).1 = Exn x -> expected x.
Proof.
  intros Hw%session_wf. split; [|intros a x Ha; by apply act_keeps].
  intros s. destruct (wf_members w s Hw) as (Hn & Hi & Hm). split; [done|]. split; [done|].
  intros id Hid. split; [by eapply member_has|]. intros r Hr.
  destruct (Hm id Hid) as (e & He & _ & Hsc).
  destruct (wf_members w r Hw) as (_ & _ & Hmr). destruct (Hmr id Hr) as (e' & He' & _ & Hsc').
  rewrite He in He'. injection He' as <-. rewrite Hsc in Hsc'. by injection Hsc'.
Qed.
End page.
End inv.
Arguments action : clear implicits.
Abbreviation wf := (wf_in (strict := true)).
Abbreviation wf_new := (wf_new_in (strict := true)).

End FxInv.
