(* ===== verification/FxTick.v ===== *)
(** * What a tick does to a queue

    For handlers that leave the effects alone.  A tick walks along the list of
    effects by index while finished effects leave it, so that the neighbour of a
    finished effect is passed over until the next tick. *)
From S2P Require Import Prelude JsString FxQueue FxInv.
Open Scope Z_scope.

Module FxTick.
Import Fx FxInv.

Section tick.
Context {H K Pg : Type}.
Notation world := (world H K Pg).
Notation M := (M H K Pg).
Implicit Types (w : world) (id : nat) (e : effect H K).

(** Drawing changes the state, the position and the frame of an effect. *)
Definition redrawn e e' : Prop :=
  kind e' = kind e /\ opts e' = opts e /\ startOn e' = startOn e /\ finishOn e' = finishOn e /\
  totalTime e' = totalTime e /\ totalFrames e' = totalFrames e.

(** Besides [id] only effects that are part of a combined one are touched. *)
Definition touched id j e e' : Prop :=
  redrawn e e' /\ (j <> id -> sync (opts e) = false -> e' = e).

Definition drawn id w w' : Prop :=
  next w' = next w /\ clock w' = clock w /\
  forall j, option_Forall2 (touched id j) (heap w !! j) (heap w' !! j).

#[local] Instance redrawn_preorder : PreOrder redrawn.
Proof.
  split; [done|]. intros e1 e2 e3 (?&?&?&?&?&?) (?&?&?&?&?&?). repeat split; congruence.
Qed.

#[local] Instance drawn_preorder id : PreOrder (drawn id).
Proof.
  split.
  - intros w. split; [done|]. split; [done|]. intros j. destruct (heap w !! j); by constructor.
  - intros w1 w2 w3 (Hn & Hc & Hh) (Hn' & Hc' & Hh'). split; [congruence|]. split; [congruence|].
    intros j. specialize (Hh j). specialize (Hh' j).
    destruct Hh as [e e' [Hr Hs]|]; inversion Hh' as [? e3' [Hr' Hs'] Ha Hb|]; subst; constructor.
    split; [by transitivity e'|]. intros Hj Hsy. rewrite (Hs Hj Hsy) in *. auto.
Qed.

Definition combined w : Prop :=
  forall id e i e', heap w !! id = Some e -> i ∈ subs e -> heap w !! i = Some e' -> sync (opts e') = true.

Lemma drawn_back id w w' j e' :
  drawn id w w' -> heap w' !! j = Some e' -> exists e, heap w !! j = Some e /\ touched id j e e'.
Proof.
  intros (_ & _ & Hh) He. specialize (Hh j). rewrite He in Hh. inversion Hh as [e ? Ht Ha|]; subst.
  by exists e.
Qed.

Lemma drawn_forth id w w' j e :
  drawn id w w' -> heap w !! j = Some e -> exists e', heap w' !! j = Some e' /\ touched id j e e'.
Proof.
  intros (_ & _ & Hh) He. specialize (Hh j). rewrite He in Hh. inversion Hh as [? e' Ht Ha Hb|]; subst.
  by exists e'.
Qed.

Lemma drawn_combined id w w' : drawn id w w' -> combined w -> combined w'.
Proof.
  intros Hd Hc j e i ei He Hi Hei.
  destruct (drawn_back _ _ _ _ _ Hd He) as (e0 & He0 & [(Hk & _) _]).
  destruct (drawn_back _ _ _ _ _ Hd Hei) as (ei0 & Hei0 & [(_ & Ho & _) _]).
  rewrite Ho. eapply (Hc j e0 i); [done| |done]. unfold subs in *. by rewrite <- Hk.
Qed.

Lemma drawn_sub id i w w' :
  (forall e, heap w !! i = Some e -> sync (opts e) = true) -> drawn i w w' -> drawn id w w'.
Proof.
  intros Hs (Hn & Hc & Hh). split; [done|]. split; [done|]. intros j. specialize (Hh j).
  destruct (heap w !! j) as [e|] eqn:He; inversion Hh as [? e' [Hr Ht] Ha Hb|]; subst; constructor.
  split; [done|]. intros _ Hsy. apply Ht; [|done]. intros ->. by rewrite Hs in Hsy.
Qed.

Lemma drawn_wf id w w' : queues w' = queues w -> drawn id w w' -> wf w -> wf w'.
Proof.
  intros Hq Hd Hw. destruct (change_keeps w (heap w') Hw) as [[Hh Hqs] _].
  { intros j. destruct Hd as (_ & _ & Hd). specialize (Hd j).
    destruct Hd as [e e' [(Hk & Ho & _) _]|]; simpl; [by rewrite Hk, Ho|done]. }
  split.
  - intros j e He. destruct (Hh j e He) as (? & ? & ?). split; [|done].
    rewrite (proj1 Hd). done.
  - intros s q Hsq. rewrite Hq in Hsq. exact (Hqs s q Hsq).
Qed.

(** The effect exists; [b]: and is part of a combined one. *)
Definition there (b : bool) id w : Prop :=
  exists e, heap w !! id = Some e /\ (b = true -> sync (opts e) = true).

Lemma drawn_there b id w w' j : drawn id w w' -> there b j w -> there b j w'.
Proof.
  intros Hd (e & He & Hs). destruct (drawn_forth _ _ _ _ _ Hd He) as (e' & He' & [(_ & Ho & _) _]).
  exists e'. by rewrite Ho.
Qed.

(** A computation that ends, leaves the queues alone and draws [id]. *)
Definition calm (b : bool) id (m : M unit) : Prop := forall w, wf w -> combined w -> there b id w ->
  exists w', m w = (Val tt, w') /\ drawn id w w' /\ queues w' = queues w.

Lemma calm_ret b id : calm b id (mret tt).
Proof. intros w _ _ _. by exists w. Qed.

Lemma calm_seq b id (m k : M unit) : calm b id m -> calm b id k -> calm b id (m;; k).
Proof.
  intros Hm Hk w Hw Hc Hi. destruct (Hm w Hw Hc Hi) as (w1 & H1 & Hd & Hq).
  destruct (Hk w1) as (w2 & H2 & Hd2 & Hq2);
    [by eapply drawn_wf|by eapply drawn_combined|by eapply drawn_there|].
  exists w2. unfold mbind, M_bind. rewrite H1. split; [done|].
  split; [by transitivity w1|by rewrite Hq2].
Qed.

Lemma calm_the b id (f : effect H K -> M unit) :
  (forall e, (b = true -> sync (opts e) = true) ->
     forall w, heap w !! id = Some e -> wf w -> combined w ->
     exists w', f e w = (Val tt, w') /\ drawn id w w' /\ queues w' = queues w) ->
  calm b id (e ← the id; f e).
Proof.
  intros Hf w Hw Hc (e & He & Hs). unfold the, mbind, M_bind, get. simpl. rewrite He. simpl. auto.
Qed.

Lemma calm_put b id (f : effect H K -> effect H K) : (forall e, redrawn e (f e)) -> calm b id (put id f).
Proof.
  intros Hf w _ _ _. eexists. split; [done|]. split; [|done]. split; [done|]. split; [done|].
  intros j. simpl. destruct (decide (j = id)) as [->|Hj].
  - rewrite lookup_alter_eq. destruct (heap w !! id); simpl; constructor. by split.
  - rewrite lookup_alter_ne by done. by destruct (heap w !! j); constructor.
Qed.

Lemma calm_read b id (f : effect H K -> M unit) : (forall e, calm b id (f e)) -> calm b id (e ← the id; f e).
Proof. intros Hf. apply calm_the. intros e Hs w He Hw Hc. apply Hf; [done|done|by exists e]. Qed.

(** Every member of a combined effect. *)
Lemma calm_members id (f : nat -> M unit) l : (forall i, i ∈ l -> calm true i (f i)) ->
  forall w, wf w -> combined w ->
  (forall i, i ∈ l -> there true i w) ->
  exists w', iter f l w = (Val tt, w') /\ drawn id w w' /\ queues w' = queues w.
Proof.
  induction l as [|i l IH]; intros Hf w Hw Hc Hl; [by exists w|].
  destruct (Hl i) as (ei & Hei & Hsy); [apply list_elem_of_here|].
  destruct (Hf i) with (w := w) as (w1 & H1 & Hd1 & Hq1); [apply list_elem_of_here|done|done|by exists ei|].
  assert (drawn id w w1) as Hd.
  { apply (drawn_sub id i); [|done]. intros e He. rewrite Hei in He. injection He as <-. auto. }
  destruct IH with (w := w1) as (w2 & H2 & Hd2 & Hq2).
  - intros j Hj. by apply Hf, list_elem_of_further.
  - by eapply drawn_wf.
  - by eapply drawn_combined.
  - intros j Hj. eapply drawn_there; [exact Hd|]. by apply Hl, list_elem_of_further.
  - exists w2. simpl. unfold mbind, M_bind. rewrite H1. split; [done|].
    split; [by transitivity w1|by rewrite Hq2].
Qed.

(** ** Quiet pages *)
Section quiet.
Variable call : H -> nat -> M unit.
Variable setup : K -> nat -> M unit.
Variable update : K -> nat -> Q -> M unit.
Variable finish_kind : K -> nat -> M unit.
Definition only_page (m : M unit) : Prop := forall w, exists p, m w = (Val tt, set_page p w).
Hypothesis quiet_call : forall h id, only_page (call h id).
Hypothesis quiet_setup : forall k id, only_page (setup k id).
Hypothesis quiet_update : forall k id p, only_page (update k id p).
Hypothesis quiet_finish : forall k id, only_page (finish_kind k id).

Notation event := (event call).
Notation render := (render call setup update).
Notation finish := (finish call setup update finish_kind).
Notation loop := (loop call setup update finish_kind).
Notation scan := (scan call setup update finish_kind).
Notation queue_loop := (queue_loop call setup update finish_kind).

Lemma drawn_page id w p : drawn id w (set_page p w).
Proof. split; [done|]. split; [done|]. intros j. simpl. by destruct (heap w !! j); constructor. Qed.

Lemma calm_quiet b id m : only_page m -> calm b id m.
Proof.
  intros Hm w _ _ _. destruct (Hm w) as [p ->]. exists (set_page p w).
  split; [done|]. split; [apply drawn_page|done].
Qed.

Lemma calm_event b ev id : calm b id (event ev id).
Proof.
  assert (forall h, calm b id (opt_call call h id)) as Ho.
  { intros [h|]; [apply calm_quiet, quiet_call|apply calm_ret]. }
  unfold Fx.event. apply calm_read. intros e. apply calm_seq; [apply Ho|]. apply calm_read. intros e'. apply Ho.
Qed.

Lemma calm_setup b id : calm b id (setup_of setup id).
Proof. unfold setup_of. apply calm_read. intros e. destruct (kind e); [apply calm_ret|apply calm_quiet, quiet_setup]. Qed.

Lemma member_facts w id e i :
  wf w -> combined w -> heap w !! id = Some e -> i ∈ subs e ->
  (i < id)%nat /\ there true i w.
Proof.
  intros Hw Hc He Hi. destruct (proj1 Hw id e He) as (_ & Hs & _). destruct (Hs i Hi) as [Hlt [ei Hei]].
  split; [done|]. exists ei. split; [done|]. intros _. by apply (Hc id e i ei).
Qed.

Lemma calm_render fuel : forall b id pos, (id < fuel)%nat -> calm b id (render fuel id pos).
Proof.
  induction fuel as [|fuel IH]; intros b id pos Hid; [lia|]. simpl.
  apply calm_read. intros e. apply calm_seq.
  { destruct (decide _); [|apply calm_ret]. apply calm_seq; [by apply calm_put|].
    apply calm_seq; [apply calm_event|]. apply calm_seq; [apply calm_setup|apply calm_event]. }
  apply calm_read. intros e'. destruct (decide _); [|apply calm_ret].
  apply calm_seq; [by apply calm_put|]. apply calm_seq; [apply calm_event|].
  apply calm_the. intros e2 Hs w He Hw Hc.
  assert (calm b id (event AfterUpdate id)) as Ha by apply calm_event.
  destruct (kind e2) as [l|k] eqn:Hk.
  - destruct (calm_members id (fun i => render fuel i (value_at e' pos)) l) with (w := w)
      as (w1 & H1 & Hd1 & Hq1); [|done|done| |].
    + intros i Hi. apply IH. destruct (member_facts w id e2 i) as [? _]; [done..| |lia].
      unfold subs. by rewrite Hk.
    + intros i Hi. apply (member_facts w id e2 i); [done..|]. unfold subs. by rewrite Hk.
    + destruct (Ha w1) as (w2 & H2 & Hd2 & Hq2);
        [by eapply drawn_wf|by eapply drawn_combined|eapply drawn_there; [done|by exists e2]|].
      exists w2. unfold mbind, M_bind. rewrite H1. split; [done|].
      split; [by transitivity w1|by rewrite Hq2].
  - apply (calm_seq b); [apply calm_quiet, quiet_update|done|done|done|by exists e2].
Qed.

Lemma calm_cancel id : calm true id (cancel id).
Proof.
  unfold cancel. apply calm_the. intros e Hs w He Hw Hc. rewrite Hs by done.
  apply (calm_put true id (set_state Finished)); [done|done|done|by exists e].
Qed.

Lemma calm_finish fuel : forall b id, (id < fuel)%nat -> calm b id (finish fuel id).
Proof.
  induction fuel as [|fuel IH]; intros b id Hid; [lia|]. simpl. apply calm_the. intros e Hs w He Hw Hc.
  destruct (kind e) as [l|k] eqn:Hk; [|apply (calm_quiet b); [apply quiet_finish|done|done|by exists e]].
  apply (calm_members id); [|done|done|].
  - intros i Hi. destruct (member_facts w id e i) as [? _]; [done..| |].
    { unfold subs. by rewrite Hk. }
    apply calm_seq; [apply calm_render; lia|]. apply calm_seq; [apply calm_cancel|].
    apply calm_seq; [apply calm_event|]. apply calm_seq; [apply IH; lia|apply calm_event].
  - intros i Hi. apply (member_facts w id e i); [done..|]. unfold subs. by rewrite Hk.
Qed.

(** ** A queue looks at one of its effects *)
Notation due e t := (startOn e <= inject_Z t /\ finishOn e <= inject_Z t)%Q.
Definition without id (l : list nat) : list nat := filter (fun i => i <> id) l.

Lemma without_absent id l : id ∉ l -> without id l = l.
Proof.
  induction l as [|x l IH]; intros Hid; [done|]. unfold without in *.
  apply not_elem_of_cons in Hid as [Hx Hl]. rewrite filter_cons_True by done. by rewrite IH.
Qed.

Lemma runs_quiet id m : only_page m -> runs (strict := true) (has id) m.
Proof.
  intros Hm w Hw Hi. destruct (Hm w) as [p ->]. simpl.
  split; [exact Hw|]. split; [|exact Hi]. split; [done|]. split; [|done]. intros j e He. by exists e.
Qed.

Definition queued (s : jstring) e : Prop := sync (opts e) = false /\ scope_of (opts e) = Some s.

Lemma cancel_queued s id w e :
  wf w -> heap w !! id = Some e -> queued s e ->
  exists w', cancel id w = (Val tt, w') /\ drawn id w w' /\
    forall r, members r w' = without id (members r w).
Proof.
  intros Hw He [Hsy Hsc].
  destruct (queue_of_eq s w Hw) as (w1 & q & Hq & Hw1 & _ & Hh1 & Hn1 & Hm1).
  assert (clock w1 = clock w) as Hc1.
  { revert Hq. unfold queue_of, mbind, M_bind, get, modify. simpl.
    destruct (queues w !! s); simpl; by intros [= <- <-]. }
  unfold cancel, the, mbind, M_bind, get. rewrite He. simpl. rewrite Hsy, Hsc, Hq. simpl.
  eexists. split; [done|]. split.
  - split; [done|]. split; [done|]. intros j. simpl. rewrite Hh1.
    destruct (decide (j = id)) as [->|Hj].
    + rewrite lookup_alter_eq, He. by constructor.
    + rewrite lookup_alter_ne by done. by destruct (heap w !! j); constructor.
  - intros r. rewrite members_heap, members_set_queue, Hm1. destruct (decide (r = s)) as [->|Hr]; simpl.
    + by rewrite <- Hm1.
    + symmetry. apply without_absent. intros Hid.
      destruct (wf_members w r Hw) as (_ & _ & Hm). destruct (Hm id Hid) as (e' & He' & _ & Hsc').
      rewrite He in He'. injection He' as <-. rewrite Hsc in Hsc'. by injection Hsc' as <-.
Qed.

Lemma members_queues r w w' : queues w' = queues w -> members r w' = members r w.
Proof. unfold members. by intros ->. Qed.

Lemma calm_at b id m w : calm b id m -> wf w -> combined w -> there b id w ->
  exists w', m w = (Val tt, w') /\ drawn id w w' /\ wf w' /\ combined w' /\ there b id w' /\
    forall r, members r w' = members r w.
Proof.
  intros Hm Hw Hc Ht. destruct (Hm w Hw Hc Ht) as (w' & He & Hd & Hq). exists w'.
  split; [done|]. split; [done|]. split; [by eapply drawn_wf|]. split; [by eapply drawn_combined|].
  split; [by eapply drawn_there|]. intros r. by apply members_queues.
Qed.

Lemma queued_drawn s id w w' e :
  drawn id w w' -> heap w !! id = Some e -> queued s e -> exists e', heap w' !! id = Some e' /\ queued s e'.
Proof.
  intros Hd He [Hy Hs]. destruct (drawn_forth _ _ _ _ _ Hd He) as (e' & He' & [(_ & Ho & _) _]).
  exists e'. split; [done|]. unfold queued. by rewrite Ho.
Qed.

Lemma quiet_loop s t id w e :
  wf w -> combined w -> heap w !! id = Some e -> queued s e ->
  exists w', loop t id w = (Val tt, w') /\ drawn id w w' /\
    (forall r, members r w' = if decide (due e t) then without id (members r w) else members r w) /\
    ((inject_Z t < startOn e)%Q -> w' = w).
Proof.
  intros Hw Hc He Hqd. unfold Fx.loop. unfold the at 1. unfold mbind at 1, M_bind at 1.
  unfold mbind at 1, M_bind at 1, get at 1. rewrite He. cbn [mret M_ret].
  destruct (decide (startOn e <= inject_Z t)%Q) as [Hs|Hs].
  2: { exists w. split; [done|]. split; [done|]. split; [|done]. intros r.
       destruct (decide _) as [[? _]|_]; [done|done]. }
  assert (forall A : Prop, (inject_Z t < startOn e)%Q -> A) as Hno by (intros A HA; exfalso; lra).
  assert (there false id w) as Ht by (by exists e).
  destruct (decide (finishOn e <= inject_Z t)%Q) as [Hf|Hf].
  - destruct (calm_at false id (render (S id) id 1) w) as (w1 & H1 & Hd1 & Hw1 & Hc1 & Ht1 & Hm1);
      [apply calm_render; lia|done..|].
    destruct (queued_drawn s id w w1 e Hd1 He Hqd) as (e1 & He1 & Hq1).
    destruct (cancel_queued s id w1 e1 Hw1 He1 Hq1) as (w2 & H2 & Hd2 & Hm2).
    assert (wf w2) as Hw2.
    { destruct (runs_cancel id w1 Hw1) as [Hw2 _]; [by exists e1|]. by rewrite H2 in Hw2. }
    destruct (calm_at false id (event BeforeFinish id;; finish (S id) id;; event AfterFinish id) w2)
      as (w3 & H3 & Hd3 & _ & _ & _ & Hm3).
    { apply calm_seq; [apply calm_event|]. apply calm_seq; [apply calm_finish; lia|apply calm_event]. }
    { done. }
    { by eapply drawn_combined. }
    { by eapply drawn_there. }
    exists w3. split.
    { unfold mbind, M_bind in *. rewrite H1, H2. exact H3. }
    split; [transitivity w1; [done|by transitivity w2]|]. split; [|by apply Hno].
    intros r. rewrite Hm3, Hm2, Hm1. by rewrite decide_True.
  - assert (forall r, (if decide (due e t) then without id (members r w) else members r w) = members r w) as Hr.
    { intros r. by rewrite decide_False by tauto. }
    destruct (decide (currentFrame e < _)); [|exists w; split; [done|split; [done|split; [by intros r; rewrite Hr|by apply Hno]]]].
    destruct (calm_at false id (render (S id) id ((inject_Z t - startOn e) / totalTime e);;
        put id (set_frame (round ((inject_Z t - startOn e) / totalTime e * totalFrames e)))) w)
      as (w1 & H1 & Hd1 & _ & _ & _ & Hm1); [|done..|].
    { apply calm_seq; [apply calm_render; lia|by apply calm_put]. }
    exists w1. split; [exact H1|]. split; [done|]. split; [|by apply Hno]. intros r. by rewrite Hr.
Qed.

(** ** A tick *)

(** The effects are redrawn, and those that have not started are left alone. *)
Definition ticked (t : Z) w w' : Prop :=
  next w' = next w /\ clock w' = clock w /\
  forall j, option_Forall2 (fun e e' =>
    redrawn e e' /\ (sync (opts e) = false -> (inject_Z t < startOn e)%Q -> e' = e)) (heap w !! j) (heap w' !! j).

#[local] Instance ticked_preorder t : PreOrder (ticked t).
Proof.
  split.
  - intros w. split; [done|]. split; [done|]. intros j. by destruct (heap w !! j); constructor.
  - intros w1 w2 w3 (Hn & Hc & Hh) (Hn' & Hc' & Hh'). split; [congruence|]. split; [congruence|].
    intros j. specialize (Hh j). specialize (Hh' j).
    destruct Hh as [e e' [Hr Hs]|]; inversion Hh' as [? e3' [Hr' Hs'] Ha Hb|]; subst; constructor.
    split; [by transitivity e'|]. intros Hsy Ht. rewrite (Hs Hsy Ht) in *. auto.
Qed.

Lemma ticked_forth t w w' j e : ticked t w w' -> heap w !! j = Some e ->
  exists e', heap w' !! j = Some e' /\ redrawn e e' /\
    (sync (opts e) = false -> (inject_Z t < startOn e)%Q -> e' = e).
Proof.
  intros (_ & _ & Hh) He. specialize (Hh j). rewrite He in Hh. inversion Hh as [? e' [? ?] Ha Hb|]; subst.
  by exists e'.
Qed.

Definition ripe (t : Z) w id : bool :=
  match heap w !! id with Some e => bool_decide (due e t) | None => false end.

Lemma redrawn_due t e e' : redrawn e e' -> bool_decide (due e' t) = bool_decide (due e t).
Proof. intros (_ & _ & -> & -> & _). done. Qed.

Lemma ticked_ripe t w w' u id : ticked t w w' -> ripe u w' id = ripe u w id.
Proof.
  intros (_ & _ & Hh). unfold ripe. specialize (Hh id).
  destruct Hh as [e e' [Hr _]|]; [by apply redrawn_due|done].
Qed.

(** What is left of a list after a walk by index during which the elements that
    satisfy [d] remove themselves: each removal passes over the next element. *)
Fixpoint survivors (d : nat -> bool) (l : list nat) : list nat :=
  match l with
  | [] => []
  | x :: l => if d x then match l with [] => [] | y :: l => y :: survivors d l end
              else x :: survivors d l
  end.

Lemma survivors_ext d d' l : (forall x, d x = d' x) -> survivors d l = survivors d' l.
Proof.
  intros Hd. induction l as [l IH] using (induction_ltof1 _ length). destruct l as [|x l]; [done|]. simpl.
  rewrite Hd. destruct (d' x).
  - destruct l as [|y l]; [done|]. f_equal. apply IH. unfold ltof. simpl. lia.
  - f_equal. apply IH. unfold ltof. simpl. lia.
Qed.

Lemma without_head x l l' : NoDup (l' ++ x :: l) -> without x (l' ++ x :: l) = l' ++ l.
Proof.
  intros Hn. apply NoDup_app in Hn as (_ & Hd & Hn). apply NoDup_cons in Hn as [Hx _].
  unfold without. rewrite filter_app, filter_cons_False by tauto. fold (without x l) (without x l').
  rewrite (without_absent x l) by done. rewrite without_absent; [done|].
  intros Hin. apply (Hd x Hin), list_elem_of_here.
Qed.

Lemma scan_past s t n : forall i w, (length (members s w) <= i)%nat -> scan s t i n w = (Val tt, w).
Proof.
  induction n as [|n IH]; intros i w Hi; [done|].
  rewrite (scan_S call setup update finish_kind), lookup_ge_None_2 by done. apply IH. lia.
Qed.

Lemma loop_wf t id w : wf w -> has id w -> wf (loop t id w).2.
Proof. intros Hw Hi. apply (runs_loop call setup update finish_kind); try done; intros; by apply runs_quiet. Qed.

Lemma drawn_ticked t id w w' e :
  drawn id w w' -> heap w !! id = Some e -> ((inject_Z t < startOn e)%Q -> w' = w) -> ticked t w w'.
Proof.
  intros (Hn & Hc & Hh) He Hs. split; [done|]. split; [done|]. intros j. specialize (Hh j).
  destruct (heap w !! j) as [ej|] eqn:Hj; inversion Hh as [? ej' [Hr Ht] Ha Hb|]; subst; constructor.
  split; [done|]. intros Hsy Hlt. destruct (decide (j = id)) as [->|Hne]; [|by apply Ht].
  rewrite He in Hj. injection Hj as ->. rewrite (Hs Hlt), He in Hb. by injection Hb.
Qed.

Lemma scan_spec s t n : forall w pre rest,
  wf w -> combined w -> members s w = pre ++ rest -> (length rest <= n)%nat ->
  exists w', scan s t (length pre) n w = (Val tt, w') /\ wf w' /\ combined w' /\ ticked t w w' /\
    members s w' = pre ++ survivors (ripe t w) rest /\
    forall r, r <> s -> members r w' = members r w.
Proof.
  induction n as [n IH] using (induction_ltof1 _ (fun n => n)). intros w pre rest Hw Hc Hm Hn.
  destruct rest as [|x rest].
  { exists w. rewrite scan_past by (rewrite Hm, app_nil_r; lia). by simpl. }
  destruct n as [|n]; [simpl in Hn; lia|].
  rewrite (scan_S call setup update finish_kind), Hm, list_lookup_middle by done.
  destruct (wf_members w s Hw) as (Hnd & _ & Hq). fold (members s w) in Hnd, Hq. rewrite Hm in Hnd, Hq.
  destruct (Hq x) as (e & He & Hqd); [apply elem_of_app; right; apply list_elem_of_here|].
  destruct (quiet_loop s t x w e Hw Hc He Hqd) as (w1 & H1 & Hd1 & Hm1 & Hs1).
  assert (wf w1) as Hw1 by (pose proof (loop_wf t x w Hw (ex_intro _ e He)) as Hl; by rewrite H1 in Hl).
  assert (ticked t w w1) as Ht1 by (by eapply drawn_ticked).
  assert (combined w1) as Hc1 by (by eapply drawn_combined).
  assert (forall r, r <> s -> members r w1 = members r w) as Hr1.
  { intros r Hr. rewrite Hm1. destruct (decide _); [|done]. apply without_absent. intros Hin.
    destruct (wf_members w r Hw) as (_ & _ & Hmr). destruct (Hmr x Hin) as (e' & He' & _ & Hsc).
    rewrite He in He'. injection He' as <-. destruct Hqd as [_ Hsc2]. rewrite Hsc in Hsc2. by injection Hsc2. }
  assert (forall pre' rest', members s w1 = pre' ++ rest' -> length pre' = S (length pre) ->
    (length rest' <= n)%nat ->
    exists w', (loop t x;; scan s t (S (length pre)) n) w = (Val tt, w') /\ wf w' /\ combined w' /\
      ticked t w w' /\ members s w' = pre' ++ survivors (ripe t w) rest' /\
      forall r, r <> s -> members r w' = members r w) as Hgo.
  { intros pre' rest' Hm' Hp' Hn'.
    destruct (IH n) with (w := w1) (pre := pre') (rest := rest') as (w2 & H2 & Hw2 & Hc2 & Ht2 & Hm2 & Hr2); try done.
    { unfold ltof. lia. }
    exists w2. rewrite <- Hp'. unfold mbind, M_bind. rewrite H1. split; [exact H2|]. split; [done|]. split; [done|].
    split; [by transitivity w1|]. split.
    - rewrite Hm2. f_equal. apply survivors_ext. intros y. by eapply ticked_ripe.
    - intros r Hr. by rewrite Hr2, Hr1. }
  simpl in Hn. specialize (Hm1 s). rewrite Hm in Hm1. simpl. unfold ripe at 1 in Hgo. unfold ripe at 1. rewrite He.
  destruct (decide (due e t)) as [Hdue|Hdue].
  - rewrite bool_decide_eq_true_2 by done. rewrite without_head in Hm1 by done.
    destruct rest as [|y rest].
    + exists w1. unfold mbind, M_bind. rewrite H1, scan_past; [done|]. rewrite Hm1, app_nil_r. lia.
    + destruct (Hgo (pre ++ [y]) rest) as (w2 & H2 & ? & ? & ? & Hm2 & ?).
      * by rewrite Hm1, <- app_assoc.
      * rewrite length_app. simpl. lia.
      * simpl in *. lia.
      * exists w2. by rewrite Hm2, <- app_assoc.
  - rewrite bool_decide_eq_false_2 by done.
    destruct (Hgo (pre ++ [x]) rest) as (w2 & H2 & ? & ? & ? & Hm2 & ?).
    + by rewrite Hm1, <- app_assoc.
    + rewrite length_app. simpl. lia.
    + lia.
    + exists w2. by rewrite Hm2, <- app_assoc.
Qed.

(** A tick leaves the survivors of its walk in the queue. *)
Lemma tick_leaves s w :
  wf w -> combined w ->
  exists w', queue_loop s w = (Val tt, w') /\ wf w' /\ combined w' /\ ticked (clock w) w w' /\
    members s w' = survivors (ripe (clock w) w) (members s w) /\
    forall r, r <> s -> members r w' = members r w.
Proof.
  intros Hw Hc. apply (scan_spec s (clock w) (length (members s w)) w []); [done|done|done|lia].
Qed.

Notation act := (act call setup update finish_kind).

Lemma tick_spec s w :
  wf w -> combined w ->
  exists w', act (Tick s) w = (Val tt, w') /\ wf w' /\ combined w' /\ ticked (clock w) w w' /\
    members s w' = survivors (ripe (clock w) w) (members s w) /\
    forall r, r <> s -> members r w' = members r w.
Proof.
  intros Hw Hc. simpl. unfold mbind at 1, M_bind at 1, get at 1. destruct (interval (queue_at s w)) eqn:Hi.
  - destruct (tick_leaves s w Hw Hc) as (w' & H1 & H2). by exists w'.
  - exists w. split; [done|]. split; [done|]. split; [done|]. split; [done|]. split; [|done].
    destruct (wf_members w s Hw) as (_ & Hiff & _). fold (queue_at s w) (members s w) in Hiff.
    destruct (members s w) eqn:E; [done|]. rewrite (proj2 Hiff) in Hi; [done|].
    unfold members in E. fold (queue_at s w) in E. by rewrite E.
Qed.

Fixpoint ticks (s : jstring) (k : nat) w : world :=
  match k with O => w | S k => ticks s k (act (Tick s) w).2 end.

Lemma survivors_all l d : Forall (fun x => d x = true) l -> length (survivors d l) = (length l / 2)%nat.
Proof.
  induction l as [l IH] using (induction_ltof1 _ length). intros Hl.
  destruct l as [|x [|y l]]; [done|by inversion_clear Hl as [|? ? Hx _]; simpl; rewrite Hx|].
  inversion_clear Hl as [|? ? Hx Hl']. inversion_clear Hl' as [|? ? Hy Hl]. simpl survivors. rewrite Hx.
  simpl length. rewrite IH; [|unfold ltof; simpl; lia|done].
  replace (S (S (length l))) with (length l + 1 * 2)%nat by lia. rewrite Nat.div_add by lia. lia.
Qed.

Lemma survivors_sub d l : survivors d l ⊆+ l.
Proof.
  induction l as [l IH] using (induction_ltof1 _ length). destruct l as [|x l]; [done|]. simpl.
  destruct (d x).
  - destruct l as [|y l]; [apply submseteq_nil_l|]. apply submseteq_cons, submseteq_skip, IH.
    unfold ltof. simpl. lia.
  - apply submseteq_skip, IH. unfold ltof. simpl. lia.
Qed.

(** C20: When every effect of a queue is past its end, each tick ends every other one:
    the queue is halved, and empty as soon as two to the number of ticks exceeds
    its length; its timer then stops. *)
Theorem queue_drains s w k :
  wf w -> combined w -> (forall id, id ∈ members s w -> ripe (clock w) w id = true) ->
  length (members s (ticks s k w)) = (length (members s w) / 2 ^ k)%nat /\
  ((length (members s w) < 2 ^ k)%nat -> interval (queue_at s (ticks s k w)) = false).
Proof.
  intros Hw Hc Hr.
  assert (wf (ticks s k w) /\ length (members s (ticks s k w)) = (length (members s w) / 2 ^ k)%nat) as [Hk Hlen].
  { revert w Hw Hc Hr. induction k as [|k IH]; intros w Hw Hc Hr.
    { by rewrite Nat.pow_0_r, Nat.div_1_r. }
    destruct (tick_spec s w Hw Hc) as (w1 & H1 & Hw1 & Hc1 & Ht & Hm & _).
    cbn [ticks]. rewrite H1. cbn [snd].
    destruct (IH w1 Hw1 Hc1) as [Hwk Hl].
    { intros id Hid. rewrite (ticked_ripe _ _ _ _ _ Ht), (proj1 (proj2 Ht)). apply Hr.
      rewrite Hm in Hid. eapply elem_of_submseteq; [exact Hid|apply survivors_sub]. }
    split; [done|]. rewrite Hl, Hm, survivors_all, Nat.Div0.div_div; [done|].
    rewrite Forall_forall. intros id Hid. by apply Hr. }
  split; [done|]. intros Hlt. rewrite Nat.div_small in Hlen by done.
  destruct (wf_members (ticks s k w) s Hk) as (_ & Hi & _). fold (queue_at s (ticks s k w)) in Hi.
  apply nil_length_inv in Hlen. apply not_true_is_false. intros Ht%Hi. apply Ht. exact Hlen.
Qed.
End quiet.
End tick.
End FxTick.
