(* ===== verification/FxOrder.v ===== *)
(** * Effects that wait for each other

    Effects that are queued at the end of a scope are given times one after the
    other.  As long as the timer is prompt they run in that order, one at a time;
    a late tick may end them in another order. *)
From S2P Require Import Prelude JsString FxQueue FxInv FxTick.
Open Scope Z_scope.

Module FxOrder.
Import Fx FxInv FxTick.

(** ** The largest of a list of times *)
Lemma max_from_spec l : forall r,
  match max_from r l with
  | Some m => (forall x, r = Some x \/ x ∈ l -> (x <= m)%Q)
  | None => r = None /\ l = []
  end.
Proof.
  induction l as [|y l IH]; intros r; simpl.
  { unfold max_from. simpl. destruct r as [x|]; [|done]. intros z [[= <-]|Hz%elem_of_nil]; [lra|done]. }
  unfold max_from in *. simpl.
  set (b := match r with Some m => bool_decide (m <= y)%Q | None => true end).
  specialize (IH (if b then Some y else r)). destruct (fold_left _ l _) as [m|].
  - assert (forall x, r = Some x -> b = true -> (x <= y)%Q) as Hb.
    { intros x -> Hb. by apply bool_decide_eq_true in Hb. }
    assert (forall x, r = Some x -> b = false -> (y <= x)%Q) as Hb'.
    { intros x -> Hb'. apply bool_decide_eq_false in Hb'. lra. }
    intros x [Hx|[->|Hx]%elem_of_cons]; [| |apply IH; by right].
    + destruct b eqn:E; [|apply IH; by left]. specialize (IH y (or_introl eq_refl)). specialize (Hb x Hx eq_refl). lra.
    + destruct b eqn:E; [apply IH; by left|]. destruct r as [x|] eqn:Er; [|done].
      specialize (IH x (or_introl eq_refl)). specialize (Hb' x eq_refl eq_refl). lra.
  - destruct b eqn:E; destruct IH as [IH _]; [done|]. subst r. done.
Qed.

Lemma max_or_ge l d x : (0 <= d)%Q -> x ∈ l -> (x <= max_or l d)%Q.
Proof.
  intros Hd Hx. unfold max_or. pose proof (max_from_spec l None) as Hm.
  destruct (max_from None l) as [m|]; [|destruct Hm as [_ ->]; by apply elem_of_nil in Hx].
  specialize (Hm x (or_intror Hx)). destruct (decide (m == 0)%Q); lra.
Qed.

Section order.
Context {H K Pg : Type}.
Notation world := (world H K Pg).
Notation M := (M H K Pg).
Notation effect := (effect H K).
Implicit Types (w : world) (id : nat) (e : effect).

(** ** Effects in line *)
Fixpoint line (l : list effect) : Prop :=
  match l with
  | [] => True
  | e :: l => (startOn e <= finishOn e)%Q /\ Forall (fun e' => finishOn e <= startOn e')%Q l /\ line l
  end.

Definition waiting (l : list effect) : Prop := Forall (fun e => state e = Idle) (tail l).

Lemma line_snoc l e :
  line l -> (startOn e <= finishOn e)%Q -> Forall (fun e' => finishOn e' <= startOn e)%Q l -> line (l ++ [e]).
Proof.
  induction l as [|x l IH]; simpl; intros Hl He Hf; [by split|].
  destruct Hl as (Hx & Hxl & Hl). apply Forall_cons in Hf as [Hfx Hf].
  split; [done|]. split; [|by apply IH]. apply Forall_app. by split; [|constructor].
Qed.

Definition queued_effects (s : jstring) w : list effect := deref (members s w) (heap w).

Lemma deref_cons i l (h : gmap nat effect) :
  deref (i :: l) h = match h !! i with Some e => e :: deref l h | None => deref l h end.
Proof. done. Qed.

Lemma deref_ext l (h h' : gmap nat effect) :
  (forall i, i ∈ l -> h' !! i = h !! i) -> deref l h' = deref l h.
Proof.
  induction l as [|i l IH]; intros Hl; [done|]. rewrite !deref_cons.
  rewrite Hl by apply list_elem_of_here. rewrite IH; [done|]. intros j Hj. by apply Hl, list_elem_of_further.
Qed.

Lemma deref_app l l' (h : gmap nat effect) : deref (l ++ l') h = deref l h ++ deref l' h.
Proof. apply omap_app. Qed.

Lemma elem_of_deref e l (h : gmap nat effect) : e ∈ deref l h <-> exists i, i ∈ l /\ h !! i = Some e.
Proof. apply list_elem_of_omap. Qed.

Section quiet.
Variable call : H -> nat -> M unit.
Variable setup : K -> nat -> M unit.
Variable update : K -> nat -> Q -> M unit.
Variable finish_kind : K -> nat -> M unit.
Hypothesis quiet_call : forall h id, only_page (call h id).
Hypothesis quiet_setup : forall k id, only_page (setup k id).
Hypothesis quiet_update : forall k id p, only_page (update k id p).
Hypothesis quiet_finish : forall k id, only_page (finish_kind k id).
Notation act := (act call setup update finish_kind).
Notation start := (start call).

(** ** Joining the end of the line *)
Lemma event_page ev id w e : heap w !! id = Some e -> exists p, event call ev id w = (Val tt, set_page p w).
Proof.
  intros He. unfold event, the, mbind, M_bind, get. rewrite He. simpl.
  assert (forall h w, exists p, opt_call call h id w = (Val tt, set_page p w)) as Ho.
  { intros [h|] v; [apply quiet_call|exists (page v); by destruct v]. }
  destruct (Ho (internal (opts e) ev) w) as [p ->]. simpl. rewrite He. simpl.
  destruct (Ho (handler (opts e) ev) (set_page p w)) as [p' ->]. by exists p'.
Qed.

(** The effect that [start] creates. *)
Definition created (k : class K) (o : options H) : effect :=
  Effect k o Idle (delay o * 1000) (delay o * 1000 + duration o * 1000) (to o - from o)
    (delay o * 1000 + duration o * 1000 - delay o * 1000) (fps o * duration o) 0 None.

(** What both kinds of starts leave behind: one more effect, on [id]. *)
Definition grown w w' e : Prop :=
  clock w' = clock w /\ heap w' !! next w = Some e /\
  forall j, j <> next w -> heap w' !! j = heap w !! j.

Lemma start_sync k o w : sync o = true ->
  exists w', start k o w = (Val (next w), w') /\ grown w w' (created k o) /\
    forall r, members r w' = members r w.
Proof.
  intros Hs. unfold Fx.start, mbind, M_bind, get, modify. fold (created k o).
  set (w1 := World _ _ _ _ _).
  assert (heap w1 !! next w = Some (created k o)) as He1 by (simpl; by rewrite lookup_insert_eq).
  destruct (event_page BeforeStart (next w) w1 _ He1) as [p Hp].
  unfold the, mbind, M_bind, get. rewrite Hp. simpl. rewrite lookup_insert_eq. simpl.
  rewrite Hs. eexists. split; [done|]. split; [|done]. split; [done|]. split; [done|].
  intros j Hj. simpl. by rewrite lookup_insert_ne.
Qed.

Definition at_end (s : jstring) (o : options H) : Prop :=
  sync o = false /\ scope_of o = Some s /\ place_of o = AtEnd /\ limit_of o = None.

Lemma start_at_end s k o w : wf w -> at_end s o ->
  exists w', start k o w = (Val (next w), w') /\
    grown w w' (shift (max_or (finishOn <$> queued_effects s w) (inject_Z (clock w))) (created k o)) /\
    members s w' = members s w ++ [next w].
Proof.
  intros Hw (Hs & Hsc & Hpl & Hlim). unfold Fx.start, mbind, M_bind, get, modify. fold (created k o).
  set (w1 := World _ _ _ _ _).
  assert (heap w1 !! next w = Some (created k o)) as He1 by (simpl; by rewrite lookup_insert_eq).
  destruct (event_page BeforeStart (next w) w1 _ He1) as [p Hp].
  unfold the, mbind, M_bind, get. rewrite Hp. simpl. rewrite lookup_insert_eq. simpl.
  rewrite Hs, Hsc. set (w2 := set_page p w1).
  assert (exists w3 q, queue_of (Some s) w2 = (Val (s, q), w3) /\ heap w3 = heap w2 /\ clock w3 = clock w2 /\
    forall r, members r w3 = members r w2) as (w3 & q & Hq & Hh3 & Hc3 & Hm3).
  { unfold queue_of, mbind, M_bind, get, modify. destruct (queues w2 !! s) as [q|] eqn:E.
    - by exists w2, q.
    - eexists _, _. split; [done|]. split; [done|]. split; [done|]. intros r. rewrite members_set_queue.
      destruct (decide (r = s)) as [->|]; [|done]. unfold members. by rewrite E. }
  rewrite Hq. assert (heap w3 !! next w = Some (created k o)) as He3 by (rewrite Hh3; exact He1).
  rewrite (add_eq s (next w) w3 _ He3). eexists. split; [done|].
  assert (heap w3 = <[next w := created k o]> (heap w)) as Hheap by exact Hh3.
  assert (members s w3 = members s w) as Hm by (rewrite Hm3; done).
  assert (forall i, i ∈ members s w -> i <> next w) as Hne.
  { intros i Hi ->. apply (member_has (strict := true) s) in Hi as [e He]; [|done].
    destruct (proj1 Hw _ e He) as [Hlt _]. lia. }
  unfold joined. simpl. rewrite Hpl, Hlim. simpl. split.
  - split; [exact Hc3|]. split.
    + simpl. rewrite lookup_alter_eq, He3. simpl. rewrite Hm, Hc3. unfold queued_effects.
      rewrite (deref_ext (members s w) (heap w) (heap w3)); [done|].
      intros i Hi. rewrite Hheap, lookup_insert_ne; [done|]. by apply not_eq_sym, Hne.
    + intros j Hj. simpl. rewrite lookup_alter_ne, Hheap, lookup_insert_ne; done.
  - by rewrite members_set_queue, decide_True, Hm.
Qed.

(** ** Sessions of effects in line *)

(** The timer is prompt: it fires before the second effect of the queue is over. *)
Definition prompt (s : jstring) w : Prop :=
  match queued_effects s w with
  | _ :: e :: _ => (inject_Z (clock w) < finishOn e)%Q
  | _ => True
  end.

Inductive lined (s : jstring) : world -> Prop :=
  | lined_empty t p : 0 <= t -> lined s (World ∅ 0 ∅ t p)
  | lined_part k o w : lined s w -> sync o = true -> lined s (act (Start (Of k) o) w).2
  | lined_start k o w : lined s w -> at_end s o -> (0 <= delay o)%Q -> (0 <= duration o)%Q ->
      (forall l, k = Parallel l -> Forall (fun i => there true i w) l) ->
      lined s (act (Start k o) w).2
  | lined_wait t w : lined s w -> 0 <= t -> lined s (act (Wait t) w).2
  | lined_tick w : lined s w -> prompt s w -> lined s (act (Tick s) w).2.

Definition in_line (s : jstring) w : Prop :=
  wf w /\ combined w /\ 0 <= clock w /\ line (queued_effects s w) /\ waiting (queued_effects s w).

Lemma start_wf k o w : wf w -> wf_new k o w -> wf (start k o w).2.
Proof.
  intros Hw Hn.
  pose proof (runs_start call (fun h id => runs_quiet id _ (quiet_call h id)) k o w Hw Hn) as Hr.
  by destruct (start k o w) as [r w']; destruct Hr.
Qed.

Lemma grown_combined w w' e : wf w -> combined w -> grown w w' e ->
  (forall i, i ∈ subs e -> there true i w) -> combined w'.
Proof.
  intros Hw Hc (_ & He & Hh) Hs id e1 i e2 H1 Hi H2.
  destruct (decide (id = next w)) as [->|Hid].
  - rewrite He in H1. injection H1 as <-. destruct (Hs i Hi) as (e3 & H3 & Hsy).
    assert (i <> next w) as Hne. { intros ->. destruct (proj1 Hw _ _ H3) as [Hlt _]. lia. }
    rewrite (Hh i Hne), H3 in H2. injection H2 as <-. auto.
  - rewrite (Hh id Hid) in H1. destruct (proj1 Hw id e1 H1) as (Hlt & Hsub & _).
    destruct (Hsub i Hi) as [Hlt2 _]. rewrite (Hh i) in H2 by lia. by apply (Hc id e1 i).
Qed.

Lemma grown_queued s w w' e l : wf w -> grown w w' e -> members s w' = members s w ++ l ->
  queued_effects s w' = queued_effects s w ++ deref l (heap w').
Proof.
  intros Hw (_ & _ & Hh) Hm. unfold queued_effects. rewrite Hm, deref_app. f_equal. apply deref_ext.
  intros i Hi. apply Hh. intros ->. apply (member_has (strict := true) s) in Hi as [ei Hei]; [|done].
  destruct (proj1 Hw _ _ Hei) as [Hlt _]. lia.
Qed.

Lemma line_redrawn e e' l : redrawn e e' -> line (e :: l) -> line (e' :: l).
Proof. intros (_ & _ & Hs & Hf & _). simpl. by rewrite Hs, Hf. Qed.

Lemma survivors_none d l : Forall (fun x => d x = false) l -> survivors d l = l.
Proof. induction 1 as [|x l Hx _ IH]; [done|]. simpl. by rewrite Hx, IH. Qed.

Lemma deref_map l w s : wf w -> l ⊆ members s w ->
  Forall2 (fun i e => heap w !! i = Some e /\ sync (opts e) = false) l (deref l (heap w)).
Proof.
  intros Hw Hl. induction l as [|i l IH]; [constructor|].
  destruct (wf_members w s Hw) as (_ & _ & Hm). destruct (Hm i) as (e & He & Hsy & _).
  { apply Hl, list_elem_of_here. }
  rewrite deref_cons, He. constructor; [done|]. apply IH. intros j Hj. by apply Hl, list_elem_of_further.
Qed.

Lemma in_line_tick s w : in_line s w -> prompt s w -> in_line s (act (Tick s) w).2.
Proof.
  intros (Hw & Hc & Ht & Hl & Hwt) Hp.
  destruct (tick_spec call setup update finish_kind quiet_call quiet_setup quiet_update quiet_finish s w Hw Hc)
    as (w' & -> & Hw' & Hc' & Htk & Hm & _). cbn [snd].
  split; [done|]. split; [done|]. split; [by rewrite (proj1 (proj2 Htk))|].
  unfold prompt in Hp. unfold queued_effects in *. rewrite Hm.
  pose proof (deref_map (members s w) w s Hw (fun _ H => H)) as Hd.
  set (d := ripe (clock w) w).
  generalize dependent (deref (members s w) (heap w)). intros es Hl Hwt Hp Hd.
  destruct Hd as [|x ex l els [Hx Hsx] Hd']; [done|].
  destruct (ticked_forth _ _ _ _ _ Htk Hx) as (ex' & Hx' & Hrx & _).
  destruct Hd' as [|y ey l' els' [Hy Hsy] Hd''].
  { simpl. destruct (d x); [done|]. rewrite deref_cons, Hx'. split; [|constructor].
    by apply (line_redrawn ex). }
  destruct Hl as (Hlx & Hxl & Hl). pose proof Hl as (Hly & Hyl & Hl').
  apply Forall_cons in Hxl as [Hxy _].
  assert (deref l' (heap w') = els' /\ Forall (fun z => d z = false) l') as [Hrest Hnone].
  { clear -Hd'' Hyl Hp Htk. induction Hd'' as [|z ez l els [Hz Hsz] _ IH]; [done|].
    apply Forall_cons in Hyl as [Hz1 Hyl]. destruct (IH Hyl) as [IH1 IH2].
    destruct (ticked_forth _ _ _ _ _ Htk Hz) as (ez' & Hz' & _ & Hkeep).
    rewrite deref_cons, Hz', Hkeep, IH1; [|done|lra]. split; [done|]. constructor; [|done].
    unfold d, ripe. rewrite Hz. apply bool_decide_eq_false. lra. }
  destruct (ticked_forth _ _ _ _ _ Htk Hy) as (ey' & Hy' & Hry & Hky).
  unfold survivors; fold survivors. destruct (d x) eqn:Hdx.
  - rewrite survivors_none, deref_cons, Hy', Hrest by done. split; [by apply (line_redrawn ey)|].
    by inversion Hwt.
  - assert (d y = false) as Hdy. { unfold d, ripe. rewrite Hy. apply bool_decide_eq_false. lra. }
    assert (inject_Z (clock w) < finishOn ex)%Q as Hlt.
    { unfold d, ripe in Hdx. rewrite Hx in Hdx. apply bool_decide_eq_false in Hdx. lra. }
    rewrite Hdy, survivors_none, !deref_cons, Hx', Hy', Hrest, Hky by (done || lra).
    split; [|done]. apply (line_redrawn ex); [done|]. split; [done|]. split; [|done].
    constructor; [done|]. eapply Forall_impl; [exact Hyl|]. simpl. intros z Hz. lra.
Qed.

Lemma lined_in_line s w : lined s w -> in_line s w.
Proof.
  induction 1 as [t p Ht|k o w _ IH Hs|k o w _ IH Ho Hdl Hdu Hk|t w _ IH Ht|w _ IH Hp].
  - split; [split; apply map_Forall_empty|]. split; [done|]. split; [done|]. by split; [|constructor].
  - destruct IH as (Hw & Hc & Ht & Hl & Hwt).
    assert (wf (start (Of k) o w).2) as Hw'.
    { apply start_wf; [done|]. split; [|done]. intros Hs'. by rewrite Hs in Hs'. }
    destruct (start_sync (Of k) o w Hs) as (w' & He & Hg & Hm).
    simpl. unfold mbind, M_bind. rewrite He in *. simpl in *.
    assert (queued_effects s w' = queued_effects s w) as Hq.
    { rewrite (grown_queued s w w' (created (Of k) o) []); [apply app_nil_r|done|done|].
      by rewrite app_nil_r. }
    split; [done|]. split; [|split; [by rewrite (proj1 Hg)|by rewrite Hq]].
    eapply grown_combined; [exact Hw|exact Hc|exact Hg|]. intros i Hi. by apply elem_of_nil in Hi.
  - destruct IH as (Hw & Hc & Ht & Hl & Hwt). destruct Ho as (Hsy & Hsc & Hpl & Hlim).
    assert (wf (start k o w).2) as Hw'.
    { apply start_wf; [done|]. split; [by intros _; rewrite Hlim, Hsc; split|]. intros l Hkl.
      eapply Forall_impl; [by apply Hk|]. intros i (e & He & _). by exists e. }
    destruct (start_at_end s k o w Hw) as (w' & He & Hg & Hm); [done|].
    simpl. unfold mbind, M_bind. rewrite He in *. simpl in *.
    set (ts := max_or (finishOn <$> queued_effects s w) (inject_Z (clock w))) in *.
    set (e := shift ts (created k o)) in *.
    assert (queued_effects s w' = queued_effects s w ++ [e]) as Hq.
    { rewrite (grown_queued s w w' e [next w]); [|done|done|done]. f_equal.
      rewrite deref_cons, (proj1 (proj2 Hg)). done. }
    split; [done|]. split; [|split; [by rewrite (proj1 Hg)|rewrite Hq; split]].
    + eapply grown_combined; [exact Hw|exact Hc|exact Hg|]. intros i Hi. unfold subs in Hi. simpl in Hi.
      destruct k as [l|]; [|by apply elem_of_nil in Hi]. specialize (Hk l eq_refl).
      rewrite Forall_forall in Hk. by apply Hk.
    + apply line_snoc; [done|simpl; lra|]. rewrite Forall_forall. intros e' He'.
      assert (finishOn e' <= ts)%Q.
      { apply max_or_ge; [by rewrite <- (Zle_Qle 0)|]. by apply list_elem_of_fmap_2. }
      simpl. lra.
    + unfold waiting in *. destruct (queued_effects s w) as [|e0 l0]; simpl; [constructor|].
      apply Forall_app. split; [done|]. by constructor.
  - destruct IH as (Hw & Hc & Ht0 & Hl & Hwt). simpl. split; [exact Hw|]. split; [exact Hc|]. simpl. split; [lia|].
    by split.
  - by apply in_line_tick.
Qed.

(** C19: Effects that are queued at the end of a scope run one at a time, in the order
    in which they were queued, as long as the timer fires before the second effect
    is over: at most the first effect of the queue has started, and each ends
    before the next begins. *)
Theorem queued_effects_in_order s w :
  lined s w ->
  (forall i j ei ej, queued_effects s w !! i = Some ei -> queued_effects s w !! j = Some ej -> (i < j)%nat ->
     (finishOn ei <= startOn ej)%Q /\ state ej = Idle).
Proof.
  intros (_ & _ & _ & Hl & Hwt)%lined_in_line. revert Hl Hwt. generalize (queued_effects s w) as l.
  intros l Hl Hwt i j ei ej Hi Hj Hlt. split.
  - clear Hwt. revert i j Hi Hj Hlt. induction l as [|e l IH]; intros i j Hi Hj Hlt; [done|].
    destruct Hl as (_ & Hf & Hl). destruct j as [|j]; [lia|]. simpl in Hj. destruct i as [|i]; simpl in Hi.
    + injection Hi as ->. rewrite Forall_forall in Hf. apply Hf. by eapply list_elem_of_lookup_2.
    + apply (IH Hl i j); [done|done|lia].
  - destruct l as [|e l]; [done|]. unfold waiting in Hwt. simpl in Hwt. destruct j as [|j]; [lia|].
    simpl in Hj. rewrite Forall_forall in Hwt. apply Hwt. by eapply list_elem_of_lookup_2.
Qed.
End quiet.
End order.

(** ** A page that records what is drawn *)
Section recorder.
Notation rworld := (world unit unit (list (nat * Q))).
Notation rM := (M unit unit (list (nat * Q))).
Definition no_call (h : unit) (id : nat) : rM unit := mret tt.
Definition no_method (k : unit) (id : nat) : rM unit := mret tt.
Definition record (k : unit) (id : nat) (p : Q) : rM unit :=
  modify (fun w => set_page (page w ++ [(id, Qred p)]) w).

Definition ract := act no_call no_method record no_method.
Definition rrun := run no_call no_method record no_method.

(** One second, from 0 to 1, at the end of the queue. *)
Definition second : options unit :=
  Options 0 1 0 1 100 false (Named AtEnd) None (fun _ => None) (fun _ => None).
Definition three : rworld :=
  rrun [Start (Of tt) second; Start (Of tt) second; Start (Of tt) second] (World ∅ 0 ∅ 1000 []).

Lemma no_call_page h id : only_page (no_call h id).
Proof. intros w. exists (page w). by destruct w. Qed.
Lemma no_method_page k id : only_page (no_method k id).
Proof. intros w. exists (page w). by destruct w. Qed.
Lemma record_page k id p : only_page (record k id p).
Proof. intros w. by eexists. Qed.

(** A timer that comes late: three effects of one second each, and the first tick
    after all of them are over.  The third ends before the second, whose last
    frame is drawn last. *)
Theorem late_tick_reorders :
  page (rrun [Wait 3500; Tick (js "global"); Tick (js "global")] three) = [(0%nat, 1%Q); (2%nat, 1%Q); (1%nat, 1%Q)].
Proof. by vm_compute. Qed.

Lemma at_end_second : at_end (js "global") second.
Proof. done. Qed.

Lemma three_lined : lined no_call no_method record no_method (js "global") three.
Proof.
  unfold three, rrun, run. cbn [fold_left].
  repeat (apply lined_start; [|apply at_end_second|by vm_compute|by vm_compute|done]). by apply lined_empty.
Qed.

Lemma queued_effects_in_order_witness :
  exists w ei ej, lined no_call no_method record no_method (js "global") w /\
    queued_effects (js "global") w !! 0%nat = Some ei /\ queued_effects (js "global") w !! 1%nat = Some ej /\
    ((finishOn ei <= startOn ej)%Q /\ state ej = Idle).
Proof.
  set (w := rrun [Wait 1500; Tick (js "global")] three).
  assert (lined no_call no_method record no_method (js "global") w) as Hl.
  { unfold w, rrun, run. cbn [fold_left]. apply lined_tick; [apply lined_wait; [apply three_lined|done]|]. by vm_compute. }
  assert (exists ei, queued_effects (js "global") w !! 0%nat = Some ei) as [ei Hi] by (eexists; by vm_compute).
  assert (exists ej, queued_effects (js "global") w !! 1%nat = Some ej) as [ej Hj] by (eexists; by vm_compute).
  exists w, ei, ej. split; [exact Hl|]. split; [exact Hi|]. split; [exact Hj|].
  eapply (queued_effects_in_order no_call no_method record no_method no_call_page no_method_page record_page no_method_page);
    [exact Hl|exact Hi|exact Hj|lia].
Defined.

Lemma queue_drains_witness :
  exists w : rworld, length (members (js "global") w) = 3%nat /\
    interval (queue_at (js "global") (ticks no_call no_method record no_method (js "global") 2 w)) = false.
Proof.
  exists (ract (Wait 3500) three).2. split; [by vm_compute|].
  apply (queue_drains no_call no_method record no_method no_call_page no_method_page record_page no_method_page).
  - assert (wf three) as Hw; [|exact Hw].
    apply (lined_in_line no_call no_method record no_method no_call_page no_method_page record_page no_method_page (js "global")), three_lined.
  - assert (combined three) as Hw; [|exact Hw].
    apply (lined_in_line no_call no_method record no_method no_call_page no_method_page record_page no_method_page (js "global")), three_lined.
  - intros id Hid. assert (id ∈ [0; 1; 2]%nat) as Hin by exact Hid.
    repeat (apply elem_of_cons in Hin as [->|Hin]; [by vm_compute|]). by apply elem_of_nil in Hin.
  - vm_compute. lia.
Defined.
End recorder.
End FxOrder.
