(* ===== verification/FxTime.v ===== *)
(** * The frames of an effect

    Which positions an effect draws when its queue looks at it at given times. *)
From Stdlib Require Import Sorting.Sorted.
From S2P Require Import Prelude JsString FxQueue FxInv FxTick FxOrder.
Open Scope Z_scope.

Module FxTime.
Import Fx FxInv FxTick FxOrder.

(** ** The positions that are due *)
Section frames.
Context {H K : Type}.
Implicit Types e : effect H K.

(** The positions drawn at the times [ts], after frame [f]; 1 is the last. *)
Fixpoint frames e (f : Z) (ts : list Z) : list Q :=
  match ts with
  | [] => []
  | t :: ts =>
      if decide (startOn e <= inject_Z t)%Q then
        if decide (finishOn e <= inject_Z t)%Q then [1%Q]
        else
          let pos := ((inject_Z t - startOn e) / totalTime e)%Q in
          let frame := round (pos * totalFrames e) in
          if decide (f < frame) then pos :: frames e frame ts else frames e f ts
      else frames e f ts
  end.

Lemma round_le x y : (x <= y)%Q -> round x <= round y.
Proof. intros Hxy. apply Qfloor_resp_le. lra. Qed.

Definition timed e : Prop :=
  (totalTime e == finishOn e - startOn e)%Q /\ (0 <= totalFrames e)%Q.

Lemma pos_bounds e t :
  timed e -> (startOn e <= inject_Z t)%Q -> (inject_Z t < finishOn e)%Q ->
  (0 <= (inject_Z t - startOn e) / totalTime e < 1)%Q.
Proof.
  intros [HT _] Hs Hf. assert (0 < totalTime e)%Q by (rewrite HT; lra). split.
  - apply Qle_shift_div_l; lra.
  - apply Qlt_shift_div_r; lra.
Qed.

Lemma frame_bound e p : timed e -> (p < 1)%Q -> round (p * totalFrames e) <= round (totalFrames e).
Proof.
  intros [_ HF] Hp. apply round_le.
  assert (p * totalFrames e <= 1 * totalFrames e)%Q by (apply Qmult_le_compat_r; lra). lra.
Qed.

(** The times come in order. *)
Fixpoint rising (t0 : Z) (ts : list Z) : Prop :=
  match ts with [] => True | t :: ts => t0 <= t /\ rising t ts end.

Lemma frames_count e ts : timed e -> forall f, f <= round (totalFrames e) ->
  zlen (frames e f ts) <= round (totalFrames e) - f + 1.
Proof.
  intros He. induction ts as [|t ts IH]; intros f Hf; simpl; [rewrite zlen_nil; lia|].
  destruct (decide _) as [Hs|_]; [|by apply IH].
  destruct (decide _) as [_|Hn]; [rewrite zlen_cons, zlen_nil; lia|].
  destruct (decide _) as [Hlt|_]; [|by apply IH]. rewrite zlen_cons.
  pose proof (pos_bounds e t He Hs). set (p := ((inject_Z t - startOn e) / totalTime e)%Q) in *.
  pose proof (frame_bound e p He). specialize (IH (round (p * totalFrames e))). assert (p < 1)%Q by lra.
  intuition lia.
Qed.

Lemma frames_range e ts : timed e -> forall f, Forall (fun p => 0 <= p <= 1)%Q (frames e f ts).
Proof.
  intros He. induction ts as [|t ts IH]; intros f; simpl; [constructor|].
  destruct (decide _) as [Hs|_]; [|apply IH]. destruct (decide _) as [_|Hn].
  { by constructor; [split; vm_compute|]. }
  destruct (decide _); [|apply IH]. constructor; [|apply IH].
  pose proof (pos_bounds e t He Hs). lra.
Qed.

Lemma frames_rise e ts : timed e -> forall f t0 p0, rising t0 ts ->
  (p0 <= 1)%Q -> ((startOn e <= inject_Z t0)%Q -> (p0 <= (inject_Z t0 - startOn e) / totalTime e)%Q) ->
  (inject_Z t0 < startOn e -> p0 <= 0)%Q ->
  Forall (fun p => p0 <= p)%Q (frames e f ts).
Proof.
  intros He. induction ts as [|t ts IH]; intros f t0 p0 Hr H1 Hp Hp0; simpl; [constructor|].
  destruct Hr as [Ht Hr]. rewrite Zle_Qle in Ht.
  assert ((startOn e <= inject_Z t)%Q -> (inject_Z t < finishOn e)%Q -> (p0 <= (inject_Z t - startOn e) / totalTime e)%Q) as Hle.
  { intros Hs Hf. destruct (Qlt_le_dec (inject_Z t0) (startOn e)) as [Hlt|Hge].
    - pose proof (pos_bounds e t He Hs Hf). specialize (Hp0 Hlt). lra.
    - specialize (Hp Hge). assert (0 < totalTime e)%Q by (destruct He as [-> _]; lra).
      eapply Qle_trans; [exact Hp|]. unfold Qdiv. apply Qmult_le_compat_r; [lra|].
      apply Qlt_le_weak, Qinv_lt_0_compat. done. }
  destruct (decide _) as [Hs|Hs].
  - destruct (decide _) as [_|Hf]; [by constructor|].
    assert (inject_Z t < finishOn e)%Q as Hf' by lra. specialize (Hle Hs Hf').
    assert (forall f, Forall (fun p => p0 <= p)%Q (frames e f ts)) as Hrest.
    { intros f'. apply (IH f' t p0); [done|done|done|lra]. }
    destruct (decide _); [constructor; [done|apply Hrest]|apply Hrest].
  - apply (IH f t p0); [done|done|lra|]. intros Hlt. apply Hp0. lra.
Qed.

Lemma frames_sorted e ts : timed e -> forall f t0, rising t0 ts -> StronglySorted Qle (frames e f ts).
Proof.
  intros He. induction ts as [|t ts IH]; intros f t0 Hr; simpl; [constructor|]. destruct Hr as [_ Hr].
  destruct (decide _) as [Hs|_]; [|by apply (IH f t)]. destruct (decide _) as [_|Hf]; [by repeat constructor|].
  destruct (decide _); [|by apply (IH f t)]. constructor; [by apply (IH _ t)|].
  pose proof (pos_bounds e t He Hs) as Hp.
  apply (frames_rise e ts He _ t); [done|lra|intros _; apply Qle_refl|intros Hlt; lra].
Qed.

Lemma frames_last e ts t : t ∈ ts -> (startOn e <= finishOn e)%Q -> (finishOn e <= inject_Z t)%Q ->
  forall f, last (frames e f ts) = Some 1%Q.
Proof.
  intros Hin Hsf Ht. induction ts as [|u ts IH]; intros f; [by apply elem_of_nil in Hin|]. simpl.
  apply elem_of_cons in Hin as [<-|Hin].
  - by rewrite !decide_True by lra.
  - specialize (IH Hin). destruct (decide _); [|apply IH]. destruct (decide _); [done|].
    destruct (decide _); [|apply IH]. specialize (IH (round ((inject_Z u - startOn e) / totalTime e * totalFrames e))).
    rewrite last_cons, IH. done.
Qed.
End frames.

(** ** What a page sees *)

(** A page whose handlers and kinds of effects change nothing but the page: [hf],
    [sf], [uf] and [ff] are what handlers, setup, update and finish do to it. *)
Section page.
Context {H K Pg : Type}.
Variable hf : H -> nat -> Pg -> Pg.
Variable sf : K -> nat -> Pg -> Pg.
Variable uf : K -> nat -> Q -> Pg -> Pg.
Variable ff : K -> nat -> Pg -> Pg.

Notation world := (world H K Pg).
Notation M := (M H K Pg).
Notation effect := (effect H K).
Implicit Types (w : world) (id : nat) (e : effect).

Definition on_page (f : Pg -> Pg) : M unit := modify (fun w => set_page (f (page w)) w).
Definition p_call (h : H) (id : nat) : M unit := on_page (hf h id).
Definition p_setup (k : K) (id : nat) : M unit := on_page (sf k id).
Definition p_update (k : K) (id : nat) (p : Q) : M unit := on_page (uf k id p).
Definition p_finish (k : K) (id : nat) : M unit := on_page (ff k id).

Notation loop := (loop p_call p_setup p_update p_finish).
Notation render := (render p_call p_setup p_update).
Notation event := (event p_call).

(** What an effect of kind [k] does to the page: the handlers of an event, the
    setup, a frame, the end. *)
Definition fire (o : options H) (ev : hook) id (p : Pg) : Pg :=
  let p := match internal o ev with Some h => hf h id p | None => p end in
  match handler o ev with Some h => hf h id p | None => p end.
Definition enter (k : K) (o : options H) id (p : Pg) : Pg :=
  fire o AfterSetup id (sf k id (fire o BeforeSetup id p)).
Definition frame_at (k : K) e id (p : Pg) (pos : Q) : Pg :=
  fire (opts e) AfterUpdate id (uf k id (value_at e pos) (fire (opts e) BeforeUpdate id p)).
Definition leave (k : K) (o : options H) id (p : Pg) : Pg :=
  fire o AfterFinish id (ff k id (fire o BeforeFinish id p)).

(** The frames [ps], after the setup if the effect is idle, and the end. *)
Definition play (k : K) e id (ps : list Q) (fin : bool) (p : Pg) : Pg :=
  let p := if decide (state e = Idle) then match ps with [] => p | _ => enter k (opts e) id p end else p in
  let p := fold_left (frame_at k e id) ps p in
  if fin then leave k (opts e) id p else p.

Definition ends e (ts : list Z) : bool :=
  existsb (fun t => bool_decide (startOn e <= inject_Z t)%Q && bool_decide (finishOn e <= inject_Z t)%Q) ts.

Lemma the_bind {A} id (f : effect -> M A) w e : heap w !! id = Some e -> (e ← the id; f e) w = f e w.
Proof. intros He. unfold the, mbind, M_bind, get. by rewrite He. Qed.

Lemma bind_val {A B} (m : M A) (f : A -> M B) w a w1 : m w = (Val a, w1) -> (m ≫= f) w = f a w1.
Proof. intros Hm. unfold mbind, M_bind. by rewrite Hm. Qed.

Lemma event_fires ev id w e :
  heap w !! id = Some e -> event ev id w = (Val tt, set_page (fire (opts e) ev id (page w)) w).
Proof.
  intros He. unfold Fx.event. rewrite (the_bind id _ w e He). unfold fire.
  destruct (internal (opts e) ev) as [h|]; unfold mbind at 1, M_bind at 1; cbn [opt_call];
    [unfold p_call, on_page, modify at 1|unfold mret, M_ret at 1].
  - rewrite (the_bind id _ _ e) by exact He. by destruct (handler (opts e) ev); [|destruct w].
  - rewrite (the_bind id _ _ e) by exact He. by destruct (handler (opts e) ev); [|destruct w].
Qed.

Definition same e e' : Prop := redrawn e e' /\ fromToDelta e' = fromToDelta e.

Lemma render_page fuel id pos k w e :
  heap w !! id = Some e -> kind e = Of k -> state e <> Finished ->
  exists w' e', render (S fuel) id pos w = (Val tt, w') /\
    page w' = frame_at k e id (if decide (state e = Idle) then enter k (opts e) id (page w) else page w) pos /\
    heap w' !! id = Some e' /\ same e e' /\ state e' = Running /\ currentFrame e' = currentFrame e.
Proof.
  intros He Hk Hs. set (p0 := if decide (state e = Idle) then enter k (opts e) id (page w) else page w).
  assert (exists w1 e1, (if decide (state e = Idle) then
         put id (set_state Running);;
         event BeforeSetup id;; setup_of p_setup id;; event AfterSetup id
       else mret tt) w = (Val tt, w1) /\ page w1 = p0 /\ heap w1 !! id = Some e1 /\ same e e1 /\
      state e1 = Running /\ currentFrame e1 = currentFrame e)
    as (w1 & e1 & H1 & Hp1 & He1 & Hr1 & Hs1 & Hc1).
  { unfold p0. destruct (decide (state e = Idle)) as [Hi|Hi].
    - set (w1 := set_heap (alter (set_state Running) id) w).
      assert (heap w1 !! id = Some (set_state Running e)) as He1 by (simpl; by rewrite lookup_alter_eq, He).
      exists (set_page (enter k (opts e) id (page w)) w1), (set_state Running e). split.
      { rewrite (bind_val _ _ _ tt w1) by done. rewrite (bind_val _ _ _ _ _ (event_fires _ _ _ _ He1)).
        unfold setup_of. unfold mbind at 1, M_bind at 1. rewrite (the_bind id _ _ (set_state Running e)) by exact He1.
        cbn [kind set_state]. rewrite Hk. unfold p_setup, on_page, modify.
        by rewrite (event_fires AfterSetup id _ (set_state Running e)) by exact He1. }
      by repeat split.
    - exists w, e. destruct (state e) eqn:E; done. }
  cbn [Fx.render]. rewrite (the_bind id _ w e He), (bind_val _ _ _ _ _ H1), (the_bind id _ w1 e1 He1).
  rewrite decide_True by done. cbv zeta.
  destruct Hr1 as [(Hk1 & Ho1 & Hr1) Hd1].
  set (w2 := set_heap (alter (set_position (value_at e1 pos)) id) w1).
  assert (heap w2 !! id = Some (set_position (value_at e1 pos) e1)) as He2 by (simpl; by rewrite lookup_alter_eq, He1).
  rewrite (bind_val _ _ _ tt w2) by done. rewrite (bind_val _ _ _ _ _ (event_fires _ _ _ _ He2)).
  rewrite (the_bind id _ _ (set_position (value_at e1 pos) e1)) by exact He2.
  cbn [kind set_position opts]. rewrite Hk1, Hk.
  unfold p_update, on_page, modify. unfold mbind at 1, M_bind at 1.
  rewrite (event_fires AfterUpdate id _ (set_position (value_at e1 pos) e1)) by exact He2.
  eexists _, (set_position (value_at e1 pos) e1). split; [done|]. split.
  { unfold frame_at. cbn [opts set_position]. simpl. unfold value_at. by rewrite Hp1, Ho1, Hd1. }
  split; [exact He2|]. done.
Qed.

Lemma queue_of_page s w : exists w' q, queue_of (Some s) w = (Val (s, q), w') /\ heap w' = heap w /\ page w' = page w.
Proof.
  unfold queue_of, mbind, M_bind, get, modify. destruct (queues w !! s) as [q|].
  - by exists w, q.
  - by eexists _, _.
Qed.

Lemma cancel_page id w e : heap w !! id = Some e -> is_Some (scope_of (opts e)) ->
  exists w', cancel id w = (Val tt, w') /\ page w' = page w /\ heap w' !! id = Some (set_state Finished e).
Proof.
  intros He [s Hs]. unfold cancel. rewrite (the_bind id _ w e He). destruct (sync (opts e)).
  - eexists. split; [done|]. split; [done|]. simpl. by rewrite lookup_alter_eq, He.
  - rewrite Hs. unfold mbind, M_bind, get. destruct (queue_of_page s w) as (w1 & q & -> & Hh & Hp).
    eexists. split; [done|]. split; [exact Hp|]. simpl. by rewrite Hh, lookup_alter_eq, He.
Qed.

Lemma same_frames e e' f ts : same e e' -> frames e' f ts = frames e f ts.
Proof.
  intros [(_ & _ & Hs & Hf & Ht & Hn) _]. revert f. induction ts as [|t ts IH]; intros f; [done|]. simpl.
  rewrite Hs, Hf, Ht, Hn, !IH. done.
Qed.

Lemma same_fold k e e' id ps : same e e' -> forall p,
  fold_left (frame_at k e' id) ps p = fold_left (frame_at k e id) ps p.
Proof.
  intros [(_ & Ho & _) Hd]. induction ps as [|x ps IH]; intros p; [done|]. simpl. rewrite IH.
  unfold frame_at, value_at. by rewrite Ho, Hd.
Qed.

Lemma same_ends e e' ts : same e e' -> ends e' ts = ends e ts.
Proof. intros [(_ & _ & Hs & Hf & _) _]. unfold ends. by rewrite Hs, Hf. Qed.

(** The queue looks at the effect at the times [ts], until it is finished. *)
Fixpoint watch id (ts : list Z) w : world :=
  match ts with
  | [] => w
  | t :: ts => match heap w !! id with
               | Some e => if decide (state e = Finished) then w else watch id ts (loop t id w).2
               | None => w
               end
  end.

Lemma finished_watch id ts w e : heap w !! id = Some e -> state e = Finished -> watch id ts w = w.
Proof. intros He Hs. destruct ts; [done|]. cbn [watch]. by rewrite He, decide_True. Qed.

Lemma finish_page fuel id k w e : heap w !! id = Some e -> kind e = Of k ->
  (event BeforeFinish id;; finish p_call p_setup p_update p_finish (S fuel) id;; event AfterFinish id) w
  = (Val tt, set_page (leave k (opts e) id (page w)) w).
Proof.
  intros He Hk. rewrite (bind_val _ _ _ _ _ (event_fires _ _ _ _ He)). cbn [finish].
  unfold mbind at 1, M_bind at 1. rewrite (the_bind id _ _ e) by exact He. rewrite Hk.
  unfold p_finish, on_page, modify. by rewrite (event_fires AfterFinish id _ e) by exact He.
Qed.

Lemma watch_play id k ts : forall w e,
  heap w !! id = Some e -> kind e = Of k -> state e <> Finished -> is_Some (scope_of (opts e)) ->
  page (watch id ts w) = play k e id (frames e (currentFrame e) ts) (ends e ts) (page w).
Proof.
  induction ts as [|t ts IH]; intros w e He Hk Hs Hsc.
  { unfold play. simpl. by destruct (decide _). }
  cbn [watch]. rewrite He, decide_False by done. unfold Fx.loop. rewrite (the_bind id _ w e He). cbn [frames ends existsb].
  destruct (decide (startOn e <= inject_Z t)%Q) as [Hst|Hst].
  2: { rewrite (bool_decide_eq_false_2 (startOn e <= inject_Z t)%Q) by done. by apply IH. }
  rewrite (bool_decide_eq_true_2 (startOn e <= inject_Z t)%Q) by done.
  destruct (decide (finishOn e <= inject_Z t)%Q) as [Hf|Hf].
  - rewrite (bool_decide_eq_true_2 (finishOn e <= inject_Z t)%Q) by done.
    destruct (render_page id id 1 k w e He Hk Hs) as (w1 & e1 & H1 & Hp1 & He1 & Hsm & Hs1 & _).
    assert (opts e1 = opts e) as Ho by apply Hsm.
    assert (kind e1 = Of k) as Hk1 by (rewrite <- Hk; apply Hsm).
    destruct (cancel_page id w1 e1 He1) as (w2 & H2 & Hp2 & He2); [by rewrite Ho|].
    rewrite (bind_val _ _ _ _ _ H1), (bind_val _ _ _ _ _ H2), (finish_page id id k w2 _ He2) by exact Hk1.
    cbn [snd]. erewrite finished_watch; [|exact He2|done]. cbn [opts set_state]. rewrite Ho. simpl.
    by rewrite Hp2, Hp1.
  - rewrite (bool_decide_eq_false_2 (finishOn e <= inject_Z t)%Q) by done.
    set (pos := ((inject_Z t - startOn e) / totalTime e)%Q).
    destruct (decide (currentFrame e < round (pos * totalFrames e))); [|by apply IH].
    destruct (render_page id id pos k w e He Hk Hs) as (w1 & e1 & H1 & Hp1 & He1 & Hsm & Hs1 & Hc1).
    rewrite (bind_val _ _ _ _ _ H1). unfold put, modify. cbn [snd].
    set (e2 := set_frame (round (pos * totalFrames e)) e1). set (w2 := set_heap _ w1).
    assert (heap w2 !! id = Some e2) as He2 by (simpl; by rewrite lookup_alter_eq, He1).
    assert (same e e2) as Hsm2 by exact Hsm.
    rewrite (IH w2 e2 He2);
      [|by rewrite <- Hk; apply Hsm|simpl; by rewrite Hs1|by replace (opts e2) with (opts e) by (symmetry; apply Hsm)].
    rewrite (same_frames e e2) by done. rewrite (same_ends e e2) by done. cbn [currentFrame e2 set_frame orb andb].
    change (page w2) with (page w1). rewrite Hp1. unfold play.
    rewrite (same_fold k e e2) by done. rewrite (decide_False (P := state e2 = Idle)) by (simpl; by rewrite Hs1).
    replace (opts e2) with (opts e) by (symmetry; apply Hsm). done.
Qed.

(** C21: An effect that its queue looks at in order of time sets itself up once, draws
    positions from 0 to 1 that never go back, at most one per frame and one more,
    and once a look comes after its end draws the position 1 last and finishes. *)
Theorem effect_frames id k ts w e t0 :
  heap w !! id = Some e -> kind e = Of k -> state e = Idle -> currentFrame e = 0 ->
  is_Some (scope_of (opts e)) -> timed e -> (startOn e <= finishOn e)%Q -> rising t0 ts ->
  exists ps fin, page (watch id ts w) = play k e id ps fin (page w) /\
    Forall (fun p => 0 <= p <= 1)%Q ps /\ zlen ps <= round (totalFrames e) + 1 /\
    StronglySorted Qle ps /\
    (fin = true <-> exists t, t ∈ ts /\ (finishOn e <= inject_Z t)%Q) /\
    (fin = true -> last ps = Some 1%Q).
Proof.
  intros He Hk Hs Hc Hsc Ht Hsf Hr. exists (frames e 0 ts), (ends e ts).
  split; [rewrite <- Hc; apply watch_play; [done|done|by rewrite Hs|done]|].
  split; [by apply frames_range|]. split.
  { pose proof (frames_count e ts Ht 0) as Hn. rewrite Z.sub_0_r in Hn. apply Hn.
    destruct Ht as [_ HF]. apply (round_le 0) in HF. exact HF. }
  split; [by apply (frames_sorted e ts Ht 0 t0)|].
  assert (ends e ts = true <-> exists t, t ∈ ts /\ (finishOn e <= inject_Z t)%Q) as Hends.
  { unfold ends. rewrite existsb_exists. split; intros (t & Hin & H1); exists t.
    - split; [by apply list_elem_of_In|]. apply andb_true_iff in H1 as [_ H1]. by apply bool_decide_eq_true in H1.
    - split; [by apply list_elem_of_In|]. rewrite !bool_decide_eq_true_2 by lra. done. }
  split; [done|]. intros (t & Hin & Htf)%Hends. by apply (frames_last e ts t).
Qed.
End page.

(** ** A page that records the frames *)
Section recorder.
Definition nothing (x : unit) (id : nat) (p : list (nat * Q)) := p.
Definition recorded (k : unit) (id : nat) (pos : Q) (p : list (nat * Q)) := p ++ [(id, pos)].

(** An effect of one second at 100 frames a second, watched every 400 ms. *)
Lemma effect_frames_witness :
  exists e, heap three !! 0%nat = Some e /\
  exists ps fin, page (watch nothing nothing recorded nothing 0%nat [1200; 1600; 2000; 2400] three)
      = play nothing nothing recorded nothing tt e 0%nat ps fin (page three) /\
    Forall (fun p => 0 <= p <= 1)%Q ps /\ zlen ps <= round (totalFrames e) + 1 /\ StronglySorted Qle ps /\
    (fin = true <-> exists t, t ∈ [1200; 1600; 2000; 2400] /\ (finishOn e <= inject_Z t)%Q) /\
    (fin = true -> last ps = Some 1%Q).
Proof.
  assert (exists e, heap three !! 0%nat = Some e) as [e He] by (eexists; by vm_compute).
  exists e. split; [exact He|].
  apply (effect_frames nothing nothing recorded nothing 0%nat tt [1200; 1600; 2000; 2400] three e 1200); [exact He|..].
  all: vm_compute in He; injection He as <-.
  all: first [by vm_compute | by eexists; vm_compute | by repeat split; vm_compute].
Defined.
End recorder.
End FxTime.
