(* ===== verification/AutoText.v ===== *)
(** * Autocompletion: the text under the cursor

    Autocompleter.Base completes the token of a text field that the user is
    typing: the part between two delimiters around the first character that
    differs from the previous text.  Here are the computation of the token, the
    text of the chosen entry, what choosing it makes of the field, and the choices
    that the local autocompleter offers. *)
From S2P Require Import Prelude JsString ProtoText ProtoStr.

Module AutoText.
Import Text.

(** ** Entries *)

(** A node of the menu: a text, or an element with its class attribute. *)
Inductive html := Txt (s : jstring) | El (className : jstring) (kids : list html).

Definition childNodes (n : html) : list html := match n with Txt _ => [] | El _ l => l end.

(** [hasClassName(className)], for a name of word characters: the words of the
    class attribute between white space; [ProtoClass] shows that it is this. *)
Definition hasClassName (elementClassName className : jstring) : bool :=
  negb (bool_decide (elementClassName = []))
  && (bool_decide (elementClassName = className)
      || bool_decide (className ∈ Str.split_white [] elementClassName false)).

(** src/piql/scadr/src/main/rails/public/javascripts/effects.js:28-33
    [Element.collectTextNodes(element)] *)
Fixpoint collect_node (n : html) : jstring :=
  match n with Txt s => s | El _ l => concat (map collect_node l) end.
Definition collectTextNodes (element : html) : jstring := concat (map collect_node (childNodes element)).

(** src/piql/scadr/src/main/rails/public/javascripts/effects.js:35-41
    [Element.collectTextNodesIgnoreClass(element, className)] *)
Fixpoint collect_node_but (className : jstring) (n : html) : jstring :=
  match n with
  | Txt s => s
  | El cls l => if hasClassName cls className then [] else concat (map (collect_node_but className) l)
  end.
Definition collectTextNodesIgnoreClass (element : html) (className : jstring) : jstring :=
  concat (map (collect_node_but className) (childNodes element)).

(** ** The token *)

(** src/piql/scadr/src/main/rails/public/javascripts/controls.js:335-341
    [getFirstDifferencePos(newS, oldS)] *)
Fixpoint getFirstDifferencePos (newS oldS : jstring) : Z :=
  match newS, oldS with
  | a :: newS, b :: oldS => if a =? b then 1 + getFirstDifferencePos newS oldS else 0
  | _, _ => 0
  end.

(** The loop over the tokens. *)
Fixpoint bounds_loop (tokens : list jstring) (value : jstring) (diff offset prev next : Z) : Z * Z :=
  match tokens with
  | [] => (prev, next)
  | t :: tokens =>
      let tp := lastIndexOf t (diff + offset - 1) value in
      let prev := if prev <? tp then tp else prev in
      let tp := indexOf_from t (diff + offset) value in
      let next := if negb (tp =? -1) && (tp <? next) then tp else next in
      bounds_loop tokens value diff offset prev next
  end.

(** src/piql/scadr/src/main/rails/public/javascripts/controls.js:317-332
    [getTokenBounds()], when no bounds are kept from an earlier call: the bounds,
    and whether they are kept. *)
Definition getTokenBounds (tokens : list jstring) (value old : jstring) : Z * Z * bool :=
  if Str.empty (Str.strip value) then (-1, 0, false)
  else
    let diff := getFirstDifferencePos value old in
    let offset := if diff =? zlen old then 1 else 0 in
    let '(prev, next) := bounds_loop tokens value diff offset (-1) (zlen value) in
    (prev + 1, next, true).

(** src/piql/scadr/src/main/rails/public/javascripts/controls.js:312-315
    [getToken()], given the bounds *)
Definition getToken (bounds : Z * Z) (value : jstring) : jstring :=
  Str.strip (substring bounds.1 bounds.2 value).

(** src/piql/scadr/src/main/rails/public/javascripts/controls.js:236-263
    [updateElement(selectedElement)]: the new value of the field, given the text
    of the entry *)
Definition replaced (bounds : Z * Z) (text value : jstring) : jstring :=
  if negb (bounds.1 =? -1) then
    let whitespace := (span is_white (substr_from bounds.1 value)).1 in
    substr 0 bounds.1 value ++ whitespace ++ text ++ substr_from bounds.2 value
  else text.

(** ** Local choices *)
Record local_options := LocalOptions {
  array : list jstring; choices : Z; partialSearch : bool; partialChars : Z; ignoreCase : bool;
  fullSearch : bool
}.

(** [elem.toLowerCase().indexOf(entry.toLowerCase(), from)], or without folding *)
Definition find_in (o : local_options) (elem entry : jstring) (from : Z) : Z :=
  if ignoreCase o then indexOf_from (toLowerCase entry) from (toLowerCase elem)
  else indexOf_from entry from elem.

Definition li_begin (elem entry : jstring) : jstring :=
  js "<li><strong>" ++ substr 0 (zlen entry) elem ++ js "</strong>" ++ substr_from (zlen entry) elem
  ++ js "</li>".
Definition li_inside (elem entry : jstring) (pos : Z) : jstring :=
  js "<li>" ++ substr 0 pos elem ++ js "<strong>" ++ substr pos (zlen entry) elem ++ js "</strong>"
  ++ substr_from (pos + zlen entry) elem ++ js "</li>".

(** What the loop over the occurrences finds in an element. *)
Inductive found := Beginning | Inside (pos : Z) | Nowhere | Endless.
#[global] Instance found_eq : EqDecision found := ltac:(solve_decision).

Definition white_at (i : Z) (s : jstring) : bool := existsb is_white (substr i 1 s).

Fixpoint occurrences (fuel : nat) (o : local_options) (elem entry : jstring) (foundPos : Z) : found :=
  if foundPos =? -1 then Nowhere
  else
    match fuel with
    | O => Endless
    | S fuel =>
        if (foundPos =? 0) && negb (zlen elem =? zlen entry) then Beginning
        else if (partialChars o <=? zlen entry) && partialSearch o
                && (fullSearch o || white_at (foundPos - 1) elem)
        then Inside foundPos
        else occurrences fuel o elem entry (find_in o elem entry (foundPos + 1))
    end.

(** As many occurrences as an element can have, and one more. *)
Definition look_at (o : local_options) (elem entry : jstring) : found :=
  occurrences (S (S (length elem))) o elem entry (find_in o elem entry 0).

(** The loop over the array; [None] when it does not end. *)
Fixpoint select_loop (o : local_options) (entry : jstring) (l : list jstring) (ret partial : list jstring)
  : option (list jstring * list jstring) :=
  match l with
  | [] => Some (ret, partial)
  | elem :: l =>
      if zlen ret <? choices o then
        match look_at o elem entry with
        | Beginning => select_loop o entry l (ret ++ [li_begin elem entry]) partial
        | Inside pos => select_loop o entry l ret (partial ++ [li_inside elem entry pos])
        | Nowhere => select_loop o entry l ret partial
        | Endless => None
        end
      else Some (ret, partial)
  end.

(** src/piql/scadr/src/main/rails/public/javascripts/controls.js:424-462
    [selector(instance)], given the token *)
Definition selector (o : local_options) (entry : jstring) : option jstring :=
  '(ret, partial) ← select_loop o entry (array o) [] [];
  let ret := match partial with
             | [] => ret
             | _ => ret ++ ztake (clamp (zlen partial) (choices o - zlen ret)) partial
             end in
  Some (js "<ul>" ++ join [] ret ++ js "</ul>").

(** ** Delimiters *)
Lemma prefixb_char c s j : 0 <= j -> prefixb [c] (zdrop j s) = true <-> znth s j = Some c.
Proof.
  intros Hj. unfold znth, zdrop. rewrite decide_False by lia.
  rewrite <- (Nat.add_0_r (Z.to_nat j)) at 2. rewrite <- lookup_drop.
  destruct (drop (Z.to_nat j) s) as [|x r]; simpl; [done|].
  rewrite andb_true_r, Z.eqb_eq. split; [by intros ->|by intros [= ->]].
Qed.

(** [p] is where the search for the delimiters starts. *)
Lemma last_delimiter c p s : 1 <= p ->
  let tp := lastIndexOf [c] (p - 1) s in
  -1 <= tp /\ (tp <> -1 -> tp < p /\ znth s tp = Some c) /\
  forall j, tp < j < p -> znth s j <> Some c.
Proof.
  intros Hp. cbv zeta. unfold lastIndexOf. set (k := Z.to_nat _).
  assert (forall j, 0 <= j < p -> j <= zlen s -> (Z.to_nat j <= k)%nat) as Hk by (unfold k; lia).
  destruct (Str.find_last_spec [c] s k) as [[-> Hno]|(i & Hi & -> & Hyes & Hno)].
  - split; [lia|]. split; [done|]. intros j Hj Hn.
    assert (0 <= j < zlen s) as Hr by (apply znth_is_Some; by eexists).
    apply (prefixb_char c s j) in Hn; [|lia]. unfold zdrop in Hn. rewrite Hno in Hn; [done|].
    apply Hk; lia.
  - split; [lia|]. split.
    + intros _. split; [unfold k in Hi; lia|]. apply (prefixb_char c s (Z.of_nat i)); [lia|].
      unfold zdrop. by rewrite Nat2Z.id.
    + intros j Hj Hn.
      assert (0 <= j < zlen s) as Hr by (apply znth_is_Some; by eexists).
      apply (prefixb_char c s j) in Hn; [|lia]. unfold zdrop in Hn. rewrite Hno in Hn; [done|].
      assert (Z.to_nat j <= k)%nat by (apply Hk; lia). lia.
Qed.

Lemma next_delimiter c p s : 0 <= p ->
  let tp := indexOf_from [c] p s in
  (tp <> -1 -> p <= tp /\ znth s tp = Some c) /\
  forall j, p <= j -> (tp = -1 \/ j < tp) -> znth s j <> Some c.
Proof.
  intros Hp. cbv zeta. unfold indexOf_from.
  assert (forall j, p <= j -> znth s j = Some c ->
    Z.min (Z.max p 0) (zlen s) = p /\ j < zlen s) as Hin.
  { intros j Hj Hn. assert (0 <= j < zlen s) by (apply znth_is_Some; by eexists). lia. }
  set (a := Z.min _ _) in *. assert (0 <= a <= zlen s) as Ha by (unfold a; pose proof (zlen_nonneg s); lia).
  destruct (find_from [c] (zdrop a s) a) as [i|] eqn:E; simpl.
  - apply find_from_Some in E as Hs. destruct Hs as (H1 & H2 & H3).
    rewrite zdrop_zdrop in H3 by lia. replace (a + (i - a)) with i in H3 by lia.
    apply prefixb_char in H3; [|lia].
    assert (0 <= i < zlen s) as Hi by (apply znth_is_Some; by eexists).
    split.
    + intros _. split; [unfold a in *; lia|done].
    + intros j Hj [->|Hlt] Hn; [lia|]. destruct (Hin j Hj Hn) as [Heq _]. 
      pose proof (find_from_least _ _ _ _ j E ltac:(lia)) as Hf. rewrite zdrop_zdrop in Hf by lia.
      replace (a + (j - a)) with j in Hf by lia. apply prefixb_char in Hn; [|lia]. congruence.
  - split; [done|]. intros j Hj _ Hn. destruct (Hin j Hj Hn) as [Heq Hlt].
    pose proof (find_from_None _ _ _ (j - a) E) as Hf. rewrite zdrop_zdrop in Hf by lia.
    replace (a + (j - a)) with j in Hf by lia. apply prefixb_char in Hn; [|lia].
    rewrite Hf in Hn; [done|]. rewrite zlen_zdrop by lia. lia.
Qed.

Lemma bounds_loop_spec (ds : list Z) value diff offset : 1 <= diff + offset ->
  let p := diff + offset in forall prev next, -1 <= prev ->
  let '(a, b) := bounds_loop (map (fun c => [c]) ds) value diff offset prev next in
  (prev <= a /\ (a = prev \/ a < p /\ exists c, c ∈ ds /\ znth value a = Some c)) /\
  (b <= next /\ (b = next \/ p <= b /\ exists c, c ∈ ds /\ znth value b = Some c)) /\
  forall j c, c ∈ ds -> a < j < b -> znth value j <> Some c.
Proof.
  intros Hp. cbv zeta. induction ds as [|d ds IH]; intros prev next Hprev; simpl.
  { split; [split; [lia|by left]|]. split; [split; [lia|by left]|]. intros j c Hc. by apply elem_of_nil in Hc. }
  destruct (last_delimiter d (diff + offset) value Hp) as (Hl1 & Hl2 & Hl3).
  destruct (next_delimiter d (diff + offset) value ltac:(lia)) as (Hn1 & Hn2).
  set (lt := lastIndexOf [d] (diff + offset - 1) value) in *.
  set (nt := indexOf_from [d] (diff + offset) value) in *.
  set (prev' := if prev <? lt then lt else prev).
  set (next' := if negb (nt =? -1) && (nt <? next) then nt else next).
  assert (prev <= prev' /\ lt <= prev' /\ (prev' = prev \/ prev' = lt /\ lt <> -1)) as (P1 & P2 & P3).
  { unfold prev'. destruct (prev <? lt) eqn:E; lia. }
  assert (next' <= next /\ (nt = -1 \/ next' <= nt) /\ (next' = next \/ next' = nt /\ nt <> -1)) as (N1 & N2 & N3).
  { unfold next'. destruct (nt =? -1) eqn:E; simpl; [lia|]. destruct (nt <? next) eqn:E2; lia. }
  specialize (IH prev' next' ltac:(lia)). destruct (bounds_loop _ _ _ _ prev' next') as [a b].
  destruct IH as ((A1 & A2) & (B1 & B2) & C).
  assert (forall Q : Z -> Prop, (exists c, c ∈ ds /\ Q c) -> exists c, c ∈ d :: ds /\ Q c) as Hmore.
  { intros Q (c & Hc & HQ). exists c. split; [by apply list_elem_of_further|done]. }
  assert (forall Q : Z -> Prop, Q d -> exists c, c ∈ d :: ds /\ Q c) as Hhere.
  { intros Q HQ. exists d. split; [apply list_elem_of_here|done]. }
  split; [split; [lia|]|split; [split; [lia|]|]].
  - destruct A2 as [->|[Ha Hc]]; [|right; split; [done|by apply Hmore]].
    destruct P3 as [->|[-> Hne]]; [by left|]. right. destruct (Hl2 Hne). split; [done|by apply Hhere].
  - destruct B2 as [->|[Hb Hc]]; [|right; split; [done|by apply Hmore]].
    destruct N3 as [->|[-> Hne]]; [by left|]. right. destruct (Hn1 Hne). split; [done|by apply Hhere].
  - intros j c [->|Hc]%elem_of_cons Hj; [|by apply C].
    destruct (decide (j < diff + offset)); [apply Hl3; lia|apply Hn2; lia].
Qed.

Lemma znth_split (s : jstring) i c : znth s i = Some c -> s = ztake i s ++ c :: zdrop (i + 1) s.
Proof.
  intros Hn. rewrite <- (ztake_zdrop i s) at 1. f_equal. by apply zdrop_cons_nth.
Qed.

(** The token: a stretch of the value without delimiters, between two of them or
    the ends. *)
Definition token_of (ds : list Z) (value pre token post : jstring) : Prop :=
  value = pre ++ token ++ post /\ (forall c, c ∈ token -> c ∉ ds) /\
  (pre = [] \/ exists c, c ∈ ds /\ last pre = Some c) /\
  (post = [] \/ exists c r, c ∈ ds /\ post = c :: r).

Lemma difference_range new old :
  0 <= getFirstDifferencePos new old <= Z.min (zlen new) (zlen old).
Proof.
  revert old. induction new as [|a new IH]; intros [|b old]; cbn [getFirstDifferencePos]; try jslia.
  specialize (IH old). destruct (a =? b); jslia.
Qed.

Lemma bounds_are_token ds value diff offset :
  0 <= diff <= zlen value -> 0 <= offset <= 1 -> 1 <= diff + offset ->
  let '(a, b) := bounds_loop (map (fun c => [c]) ds) value diff offset (-1) (zlen value) in
  0 <= a + 1 <= b /\ b <= zlen value /\
  token_of ds value (ztake (a + 1) value) (ztake (b - (a + 1)) (zdrop (a + 1) value)) (zdrop b value) /\
  a + 1 <= diff + offset /\ Z.min (diff + offset) (zlen value) <= b.
Proof.
  intros Hd Ho Hp. pose proof (bounds_loop_spec ds value diff offset Hp (-1) (zlen value) ltac:(lia)) as Hb.
  destruct (bounds_loop _ _ _ _ _ _) as [a b]. destruct Hb as ((A1 & A2) & (B1 & B2) & C).
  assert (a < zlen value \/ a = -1) as A3.
  { destruct A2 as [->|(_ & c & _ & Hc)]; [by right|left].
    assert (0 <= a < zlen value) by (apply znth_is_Some; by eexists). lia. }
  pose proof (zlen_nonneg value).
  assert (a + 1 <= b) as Hab.
  { destruct B2 as [->|[B2 _]]; [lia|]. destruct A2 as [->|[A2 _]]; lia. }
  split; [lia|]. split; [lia|]. split; [|lia]. split; [|split; [|split]].
  - rewrite <- (ztake_zdrop (a + 1) value) at 1. f_equal.
    rewrite <- (ztake_zdrop (b - (a + 1)) (zdrop (a + 1) value)) at 1. f_equal.
    rewrite zdrop_zdrop by lia. f_equal. lia.
  - intros c Hc Hds. apply list_elem_of_lookup in Hc as [i Hi].
    unfold ztake in Hi. apply lookup_take_Some in Hi as [Hi Hlt]. unfold zdrop in Hi. rewrite lookup_drop in Hi.
    apply (C (a + 1 + Z.of_nat i) c Hds); [lia|]. unfold znth. rewrite decide_False by lia.
    rewrite <- Hi. f_equal. lia.
  - destruct A2 as [->|(_ & c & Hc & Hn)]; [left; by apply ztake_nonpos|]. right. exists c. split; [done|].
    assert (0 <= a < zlen value) by (apply znth_is_Some; by eexists).
    rewrite (znth_split _ _ _ Hn). unfold ztake at 1.
    assert (length (ztake a value) = Z.to_nat a) as Hl. { unfold ztake. rewrite length_take. unfold zlen in *. lia. }
    replace (Z.to_nat (a + 1)) with (length (ztake a value ++ [c])) by (rewrite length_app, Hl; simpl; lia).
    change (ztake a value ++ c :: zdrop (a + 1) value) with (ztake a value ++ [c] ++ zdrop (a + 1) value).
    rewrite app_assoc, take_app_length. apply last_snoc.
  - destruct B2 as [->|(_ & c & Hc & Hn)]; [left; apply zdrop_all; lia|]. right.
    exists c, (zdrop (b + 1) value). split; [done|]. by apply zdrop_cons_nth.
Qed.

Lemma drop_white_spec s :
  (Str.blank s = true /\ Str.drop_white s = []) \/
  exists w c r, s = w ++ c :: r /\ Str.blank w = true /\ is_white c = false /\ Str.drop_white s = c :: r.
Proof.
  unfold Str.drop_white, Str.blank. induction s as [|x s IH]; [by left|]. simpl.
  destruct (is_white x) eqn:Hx; simpl.
  - destruct (span is_white s) as [w r] eqn:E; simpl in *.
    destruct IH as [[? ?]|(w' & c & r' & -> & Hw & Hc & Hr)]; [by left|]. right. exists (x :: w'), c, r'.
    simpl. by rewrite Hx.
  - right. by exists [], x, s.
Qed.

Lemma strip_empty s : Str.empty (Str.strip s) = Str.blank s.
Proof.
  unfold Str.empty, Str.strip.
  destruct (drop_white_spec s) as [[Hb ->]|(w & c & r & Hs & Hw & Hc & ->)].
  - rewrite Hb. by vm_compute.
  - assert (Str.blank s = false) as ->.
    { rewrite Hs. unfold Str.blank. rewrite forallb_app. simpl. by rewrite Hc, andb_false_r. }
    apply bool_decide_eq_false. intros Hn. apply (f_equal (@rev Z)) in Hn. rewrite rev_involutive in Hn.
    destruct (drop_white_spec (rev (c :: r))) as [[Hb _]|(w' & c' & r' & _ & _ & _ & E)]; [|by rewrite E in Hn].
    unfold Str.blank in Hb. simpl in Hb. rewrite forallb_app in Hb. simpl in Hb. rewrite Hc in Hb.
    by rewrite andb_false_r in Hb.
Qed.

Lemma replaced_token pre w c r post text :
  Str.blank w = true -> is_white c = false ->
  replaced (zlen pre, zlen pre + zlen (w ++ c :: r)) text (pre ++ (w ++ c :: r) ++ post)
  = pre ++ w ++ text ++ post.
Proof.
  intros Hw Hc. unfold replaced, substr, substr_from. simpl fst. simpl snd.
  pose proof (zlen_nonneg pre). pose proof (zlen_nonneg (w ++ c :: r)). pose proof (zlen_nonneg post).
  replace (zlen pre =? -1) with false by (symmetry; apply Z.eqb_neq; lia). simpl negb. cbv iota.
  rewrite !clamp_id by (rewrite (zlen_app pre), (zlen_app (w ++ c :: r)); lia).
  rewrite (zdrop_nonpos 0) by lia. rewrite <- zdrop_zdrop, zdrop_app_len, zdrop_app_len, ztake_app_len by lia.
  rewrite <- (app_assoc w). cbn [app]. by rewrite (span_stop is_white w c) by done.
Qed.

(** C23: With delimiters of one character, in a text that is not blank and that
    changed elsewhere than at its very start, the token that getTokenBounds finds is
    a stretch without delimiters, from a delimiter or the start to a delimiter or
    the end, at the place where the text changed.  The token is asked for
    without the white space around it, and choosing an entry puts the text of the
    entry in place of the token, behind the white space the token starts with. *)
Theorem completes_token ds value old :
  Str.blank value = false ->
  1 <= getFirstDifferencePos value old + (if getFirstDifferencePos value old =? zlen old then 1 else 0) ->
  exists pre token post, token_of ds value pre token post /\
    getTokenBounds (map (fun c => [c]) ds) value old = (zlen pre, zlen pre + zlen token, true) /\
    zlen pre <= getFirstDifferencePos value old + 1 /\
    getFirstDifferencePos value old <= zlen pre + zlen token /\
    getToken (zlen pre, zlen pre + zlen token) value = Str.strip token /\
    forall w c r text, token = w ++ c :: r -> Str.blank w = true -> is_white c = false ->
      replaced (zlen pre, zlen pre + zlen token) text value = pre ++ w ++ text ++ post.
Proof.
  intros Hb Hp. pose proof (difference_range value old) as Hd.
  set (diff := getFirstDifferencePos value old) in *.
  set (offset := if diff =? zlen old then 1 else 0) in *.
  assert (0 <= offset <= 1) as Ho by (unfold offset; destruct (diff =? zlen old); lia).
  pose proof (bounds_are_token ds value diff offset ltac:(lia) Ho Hp) as Hbt.
  assert (getTokenBounds (map (fun c => [c]) ds) value old =
    let '(prev, next) := bounds_loop (map (fun c => [c]) ds) value diff offset (-1) (zlen value) in
    (prev + 1, next, true)) as -> by (unfold getTokenBounds; by rewrite strip_empty, Hb).
  destruct (bounds_loop _ _ _ _ _ _) as [a b]. destruct Hbt as (H1 & H2 & H3 & H4 & H5).
  exists (ztake (a + 1) value), (ztake (b - (a + 1)) (zdrop (a + 1) value)), (zdrop b value).
  assert (zlen (ztake (a + 1) value) = a + 1) as Hl1 by (apply zlen_ztake_le; lia).
  assert (zlen (ztake (b - (a + 1)) (zdrop (a + 1) value)) = b - (a + 1)) as Hl2.
  { apply zlen_ztake_le. rewrite zlen_zdrop by lia. lia. }
  split; [exact H3|]. rewrite Hl1, Hl2. replace (a + 1 + (b - (a + 1))) with b by lia.
  split; [done|]. split; [lia|]. split; [lia|]. split.
  - unfold getToken. simpl fst. simpl snd. f_equal. rewrite substring_id by lia. done.
  - intros w c r text Ht Hw Hc. destruct H3 as (Hv & _). rewrite Ht in Hv, Hl2. rewrite Hv at 1.
    replace b with (zlen (ztake (a + 1) value) + zlen (w ++ c :: r)) at 1 by lia.
    rewrite <- Hl1 at 1. by apply replaced_token.
Qed.

Lemma completes_token_witness :
  exists pre token post,
    token_of [44; 10] (js "ann, bo,cy") pre token post /\
    getTokenBounds (map (fun c => [c]) [44; 10]) (js "ann, bo,cy") (js "ann, b,cy")
      = (zlen pre, zlen pre + zlen token, true).
Proof.
  destruct (completes_token [44; 10] (js "ann, bo,cy") (js "ann, b,cy")) as (pre & token & post & H1 & H2 & _);
    [by vm_compute|by vm_compute|]. by exists pre, token, post.
Defined.

(** A delimiter typed in front of the text: lastIndexOf takes the position -1 for
    0, and the bounds come out in the wrong order. *)
Lemma token_at_start c v : is_white c = false -> v <> [] -> c <> hd 0 v ->
  getTokenBounds [[c]] (c :: v) v = (1, 0, true) /\ getToken (1, 0) (c :: v) = [c].
Proof.
  intros Hc Hv Hne. destruct v as [|x v]; [done|]. simpl in Hne.
  assert (Str.blank (c :: x :: v) = false) as Hb by (unfold Str.blank; simpl; by rewrite Hc).
  split.
  - unfold getTokenBounds. rewrite strip_empty, Hb. cbn [getFirstDifferencePos].
    rewrite (proj2 (Z.eqb_neq c x) Hne). cbv zeta.
    assert ((0 =? zlen (x :: v)) = false) as -> by (apply Z.eqb_neq; jslia). cbn [bounds_loop].
    assert (lastIndexOf [c] (0 + 0 - 1) (c :: x :: v) = 0) as ->.
    { unfold lastIndexOf. replace (Z.to_nat _) with 0%nat by (pose proof (zlen_nonneg (c :: x :: v)); lia).
      cbn [find_last drop prefixb]. by rewrite Z.eqb_refl. }
    assert (indexOf_from [c] (0 + 0) (c :: x :: v) = 0) as ->.
    { unfold indexOf_from. replace (Z.min _ _) with 0 by (pose proof (zlen_nonneg (c :: x :: v)); lia).
      rewrite zdrop_nonpos by lia. cbn [find_from prefixb]. by rewrite Z.eqb_refl. }
    assert ((0 <? zlen (c :: x :: v)) = true) as Hl by (apply Z.ltb_lt; jslia). cbn [negb Z.eqb Z.ltb].
    rewrite Hl. done.
  - unfold getToken, substring. simpl fst. simpl snd.
    replace (Z.min (Z.max 1 0) (zlen (c :: x :: v))) with 1 by jslia.
    replace (Z.min (Z.max 0 0) (zlen (c :: x :: v))) with 0 by jslia.
    replace (ztake _ _) with [c] by done. unfold Str.strip, Str.drop_white. simpl. rewrite Hc. simpl. by rewrite Hc.
Qed.

(** ** The local choices *)
Section local.
Variable o : local_options.

Definition folded (s : jstring) : jstring := if ignoreCase o then toLowerCase s else s.

Lemma zlen_folded s : zlen (folded s) = zlen s.
Proof. unfold folded, toLowerCase, zlen. destruct (ignoreCase o); [|done]. by rewrite length_map. Qed.

(** [entry] occurs in [elem] at [p]; an occurrence inside is offered only if the
    options allow it; an element that continues the entry begins with it. *)
Definition occurs (elem entry : jstring) (p : Z) : bool := prefixb (folded entry) (zdrop p (folded elem)).
Definition allowed (elem entry : jstring) (p : Z) : bool :=
  (partialChars o <=? zlen entry) && partialSearch o && (fullSearch o || white_at (p - 1) elem).
Definition begins (elem entry : jstring) : bool :=
  occurs elem entry 0 && negb (zlen elem =? zlen entry).
Definition inside (elem entry : jstring) (p : Z) : Prop :=
  0 <= p <= zlen elem /\ occurs elem entry p = true /\ allowed elem entry p = true.

(** What an element has to offer. *)
Definition offers (elem entry : jstring) (f : found) : Prop :=
  match f with
  | Beginning => begins elem entry = true
  | Inside p => begins elem entry = false /\ inside elem entry p /\
      forall q, inside elem entry q -> p <= q
  | Nowhere => begins elem entry = false /\ forall q, ~ inside elem entry q
  | Endless => False
  end.

Lemma find_in_spec elem entry from : entry <> [] -> 0 <= from ->
  let i := find_in o elem entry from in
  (i = -1 /\ forall q, from <= q <= zlen elem -> occurs elem entry q = false) \/
  (from <= i < zlen elem /\ occurs elem entry i = true /\ forall q, from <= q < i -> occurs elem entry q = false).
Proof.
  intros He Hf. cbv zeta.
  assert (find_in o elem entry from = indexOf_from (folded entry) from (folded elem)) as ->
    by (unfold find_in, folded; by destruct (ignoreCase o)).
  assert (folded entry <> []) as Hne.
  { intros Hn. apply (f_equal zlen) in Hn. rewrite zlen_folded, zlen_nil in Hn. by apply zlen_zero in Hn. }
  assert (forall q, zlen elem <= q -> occurs elem entry q = false) as Hend.
  { intros q Hq. unfold occurs. rewrite zdrop_all by (rewrite zlen_folded; lia). by destruct (folded entry). }
  unfold indexOf_from. rewrite zlen_folded. pose proof (zlen_nonneg elem).
  destruct (Z.le_gt_cases from (zlen elem)) as [Hle|Hgt].
  - replace (Z.min (Z.max from 0) (zlen elem)) with from by lia.
    destruct (find_from _ _ from) as [i|] eqn:E; simpl.
    + right. destruct (find_from_Some _ _ _ _ E) as (H1 & H2 & H3).
      rewrite zdrop_zdrop in H3 by lia. replace (from + (i - from)) with i in H3 by lia.
      assert (i < zlen elem) by (destruct (Z.lt_ge_cases i (zlen elem)); [done|]; unfold occurs in Hend; rewrite Hend in H3; [done|lia]).
      split; [lia|]. split; [exact H3|]. intros q Hq.
      pose proof (find_from_least _ _ _ _ q E ltac:(lia)) as Hn. rewrite zdrop_zdrop in Hn by lia.
      by replace (from + (q - from)) with q in Hn by lia.
    + left. split; [done|]. intros q Hq. pose proof (find_from_None _ _ _ (q - from) E) as Hn.
      rewrite zdrop_zdrop in Hn by lia. replace (from + (q - from)) with q in Hn by lia. apply Hn.
      rewrite zlen_zdrop by (rewrite zlen_folded; lia). rewrite zlen_folded. lia.
  - left. replace (Z.min (Z.max from 0) (zlen elem)) with (zlen elem) by lia.
    rewrite zdrop_all by (rewrite zlen_folded; lia). simpl. split; [by destruct (folded entry)|]. intros q Hq. lia.
Qed.

Lemma occurrences_spec elem entry fuel : entry <> [] -> forall from,
  0 <= from -> (Z.to_nat (zlen elem + 2 - from) <= fuel)%nat ->
  (forall q, inside elem entry q -> from <= q) -> (0 < from -> begins elem entry = false) ->
  offers elem entry (occurrences fuel o elem entry (find_in o elem entry from)).
Proof.
  intros He. induction fuel as [|fuel IH]; intros from Hf Hfu Hin Hb.
  all: destruct (find_in_spec elem entry from He Hf) as [[-> Hno]|(Hi & Hocc & Hno)].
  1, 3: cbn; split; [destruct (Z.eq_dec from 0) as [->|]; [|apply Hb; lia];
    unfold begins; by rewrite Hno by (pose proof (zlen_nonneg elem); lia)
    |intros q Hq; pose proof (Hin q Hq); destruct Hq as (Hr & Ho & _); by rewrite Hno in Ho by lia].
  - lia.
  - set (i := find_in o elem entry from) in *. cbn [occurrences].
    replace (i =? -1) with false by (symmetry; apply Z.eqb_neq; lia).
    destruct ((i =? 0) && negb (zlen elem =? zlen entry)) eqn:E0.
    { apply andb_true_iff in E0 as [->%Z.eqb_eq E0]. simpl. unfold begins. by rewrite Hocc, E0. }
    assert (begins elem entry = false) as Hnb.
    { destruct (Z.eq_dec i 0) as [Hi0|Hi0].
      - rewrite Hi0 in *. unfold begins. simpl in E0. rewrite E0. apply andb_false_r.
      - destruct (Z.eq_dec from 0) as [->|]; [|apply Hb; lia]. unfold begins. by rewrite Hno by lia. }
    assert (forall q, inside elem entry q -> i <= q) as Hleast.
    { intros q Hq. destruct (Z.le_gt_cases i q); [done|]. pose proof (Hin q Hq).
      destruct Hq as (_ & Ho & _). by rewrite Hno in Ho by lia. }
    fold (allowed elem entry i). destruct (allowed elem entry i) eqn:Ea.
    + split; [done|]. split; [|done]. split; [lia|done].
    + apply IH; [lia|lia| |done]. intros q Hq. pose proof (Hleast q Hq).
      destruct (Z.eq_dec q i) as [->|]; [|lia]. destruct Hq as (_ & _ & Hq). by rewrite Ea in Hq.
Qed.

Lemma look_at_offers elem entry : entry <> [] -> offers elem entry (look_at o elem entry).
Proof.
  intros He. apply occurrences_spec; [done|done|unfold zlen; lia| |lia].
  intros q Hq. destruct Hq. lia.
Qed.

(** The items, beginnings and insides, of a list. *)
Definition beginnings entry (l : list jstring) : list jstring :=
  omap (fun e => match look_at o e entry with Beginning => Some (li_begin e entry) | _ => None end) l.
Definition insides entry (l : list jstring) : list jstring :=
  omap (fun e => match look_at o e entry with Inside p => Some (li_inside e entry p) | _ => None end) l.

Lemma ztake_cons {A} n (x : A) l : 0 < n -> ztake n (x :: l) = x :: ztake (n - 1) l.
Proof. intros Hn. unfold ztake. replace (Z.to_nat n) with (S (Z.to_nat (n - 1))) by lia. done. Qed.

Lemma select_loop_spec entry l : entry <> [] -> forall ret partial,
  exists partial', select_loop o entry l ret partial =
    Some (ret ++ ztake (choices o - zlen ret) (beginnings entry l), partial') /\
    let n := choices o - zlen (ret ++ ztake (choices o - zlen ret) (beginnings entry l)) in
    ztake n partial' = ztake n (partial ++ insides entry l).
Proof.
  intros He. induction l as [|elem l IH]; intros ret partial; cbv zeta.
  { exists partial. unfold beginnings, insides, ztake. simpl. by rewrite take_nil, !app_nil_r. }
  cbn [select_loop]. destruct (zlen ret <? choices o) eqn:Hlt.
  - apply Z.ltb_lt in Hlt. pose proof (look_at_offers elem entry He) as Hoff.
    unfold beginnings, insides. cbn [omap list_omap]. fold (beginnings entry l) (insides entry l).
    destruct (look_at o elem entry) as [|p| |].
    + destruct (IH (ret ++ [li_begin elem entry]) partial) as (p' & -> & Hp). exists p'.
      rewrite ztake_cons by lia. rewrite <- app_assoc in *. simpl app in *.
      replace (choices o - zlen (ret ++ [li_begin elem entry])) with (choices o - zlen ret - 1) in * by jslia.
      by split.
    + destruct (IH ret (partial ++ [li_inside elem entry p])) as (p' & -> & Hp). exists p'.
      rewrite <- app_assoc in Hp. by split.
    + destruct (IH ret partial) as (p' & -> & Hp). by exists p'.
    + done.
  - apply Z.ltb_ge in Hlt. exists partial. rewrite (ztake_nonpos (choices o - zlen ret)) by lia.
    rewrite app_nil_r. split; [done|]. by rewrite !ztake_nonpos by lia.
Qed.

Lemma join_nil (l : list jstring) : join [] l = concat l.
Proof. induction l as [|x [|y l] IH]; simpl in *; [done|by rewrite app_nil_r|]. by rewrite IH. Qed.

(** For a token that is not empty the local autocompleter always answers: with a
    list of at most [choices] items, first the elements that begin with the token
    and continue it, then those that hold it at a permitted place, both in the
    order of the array; each is marked at the first such place. *)
Theorem local_choices entry : entry <> [] -> 0 <= choices o ->
  selector o entry =
    Some (js "<ul>" ++ concat (ztake (choices o) (beginnings entry (array o) ++ insides entry (array o)))
          ++ js "</ul>") /\
  forall elem, offers elem entry (look_at o elem entry).
Proof.
  intros He Hc. split; [|intros elem; by apply look_at_offers].
  unfold selector. destruct (select_loop_spec entry (array o) He [] []) as (p & -> & Hp).
  cbn [mbind option_bind]. cbn [app] in *. rewrite zlen_nil, Z.sub_0_r in *. cbv zeta in Hp.
  set (B := beginnings entry (array o)) in *. set (I := insides entry (array o)) in *.
  assert (zlen (ztake (choices o) B) = Z.min (choices o) (zlen B)) as Hl by (by apply zlen_ztake).
  assert (ztake (choices o) (B ++ I) = ztake (choices o) B ++ ztake (choices o - zlen (ztake (choices o) B)) I) as Ht.
  { rewrite Hl. destruct (Z.le_gt_cases (choices o) (zlen B)).
    - rewrite ztake_app_le, Z.min_l, (ztake_nonpos (choices o - choices o)), app_nil_r by lia. done.
    - rewrite ztake_app_ge by lia. by rewrite Z.min_r, (ztake_all (choices o) B) by lia. }
  rewrite Ht, <- Hp. do 2 f_equal. f_equal. rewrite <- join_nil. f_equal.
  destruct p as [|x p]; [by unfold ztake; rewrite take_nil, app_nil_r|]. f_equal.
  pose proof (zlen_nonneg (x :: p)). unfold clamp. destruct (_ <? 0) eqn:E; [apply Z.ltb_lt in E; lia|].
  destruct (Z.le_gt_cases (choices o - zlen (ztake (choices o) B)) (zlen (x :: p))).
  - by rewrite Z.min_l.
  - rewrite Z.min_r by lia. rewrite (ztake_all (zlen (x :: p))) by lia. by rewrite ztake_all by lia.
Qed.
End local.

Definition names : local_options :=
  LocalOptions (map js ["foo"; "Foobar"; "big foo"; "barfoo"]%string) 10 true 2 true false.

Lemma local_choices_witness :
  selector names (js "foo") = Some (js "<ul><li><strong>Foo</strong>bar</li><li>big <strong>foo</strong></li></ul>").
Proof. destruct (local_choices names (js "foo")) as [-> _]; [done|done|by vm_compute]. Defined.

(** With an empty token and an empty element the loop over the occurrences does
    not end: the empty text occurs at every position that is asked for. *)
Lemma endless_choices o fuel : 0 < partialChars o ->
  occurrences fuel o [] [] (find_in o [] [] 0) = Endless.
Proof.
  intros Hp. assert (forall n, find_in o [] [] n = 0) as Hz.
  { intros n. assert (indexOf_from [] n [] = 0) as Hi.
    { unfold indexOf_from. change (zlen (@nil Z)) with 0. rewrite Z.min_r by lia. done. }
    unfold find_in. by destruct (ignoreCase o). }
  rewrite Hz. induction fuel as [|fuel IH]; [done|]. cbn [occurrences]. simpl.
  replace (partialChars o <=? zlen []) with false by (symmetry; apply Z.leb_gt; rewrite zlen_nil; lia).
  simpl. by rewrite Hz.
Qed.

End AutoText.
