(* ===== verification/JsMonad.v ===== *)
(** * Handlers that change a state and may throw

    The monad in which the handlers of a component over a state [S] are written,
    and the weakest preconditions by which their safety is proved: [wp X m Q s]
    says that [m], run in [s], ends with a value and in a state that satisfy [Q],
    or throws an exception in a state that satisfy [X]. *)
From S2P Require Import Prelude.

Module Js.

Inductive exn := TypeError | RangeError | URIError | Thrown
  | Hang.   (** a loop that does not end *)
Inductive res (A : Type) := Val (a : A) | Exn (e : exn).
Arguments Val {A} _.
Arguments Exn {A} _.

Definition M (S A : Type) : Type := S -> res A * S.
#[global] Instance M_ret S : MRet (M S) := fun A a s => (Val a, s).
#[global] Instance M_bind S : MBind (M S) := fun A B f m s =>
  match m s with (Val a, s) => f a s | (Exn e, s) => (Exn e, s) end.

Definition throw {S A} (e : exn) : M S A := fun s => (Exn e, s).
Definition get {S} : M S S := fun s => (Val s, s).
Definition modify {S} (f : S -> S) : M S unit := fun s => (Val tt, f s).
Definition when {S} (b : bool) (m : M S unit) : M S unit := if b then m else mret tt.
(** A value that must be there. *)
Definition need {S A} (o : option A) : M S A :=
  match o with Some a => mret a | None => throw TypeError end.

Fixpoint iter {S A} (f : A -> M S unit) (l : list A) : M S unit :=
  match l with [] => mret tt | x :: l => f x;; iter f l end.

(** What is thrown is reported or handed to somebody else, and all goes on; a loop
    that does not end is no exception. *)
Definition caught {S} (m : M S unit) : M S unit :=
  fun s => match m s with (Exn Hang, s') => (Exn Hang, s') | (Exn _, s') => (Val tt, s') | r => r end.

Section wp.
Context {S : Type} (X : exn -> S -> Prop).
Implicit Types s : S.

Definition wp {A} (m : M S A) (Q : A -> S -> Prop) s : Prop :=
  match m s with (Val a, s') => Q a s' | (Exn e, s') => X e s' end.

Lemma wp_ret {A} (a : A) (Q : A -> S -> Prop) s : Q a s -> wp (mret a) Q s.
Proof. done. Qed.

Lemma wp_bind {A B} (m : M S A) (f : A -> M S B) Q s :
  wp m (fun a => wp (f a) Q) s -> wp (m ≫= f) Q s.
Proof. unfold wp, mbind, M_bind. by destruct (m s) as [[a|e] s']. Qed.

Lemma wp_get (Q : S -> S -> Prop) s : Q s s -> wp get Q s.
Proof. done. Qed.

Lemma wp_modify f (Q : unit -> S -> Prop) s : Q tt (f s) -> wp (modify f) Q s.
Proof. done. Qed.

Lemma wp_need {A} (a : A) o (Q : A -> S -> Prop) s : o = Some a -> Q a s -> wp (need o) Q s.
Proof. by intros ->. Qed.

Lemma wp_when b m (Q : unit -> S -> Prop) s :
  (b = true -> wp m Q s) -> (b = false -> Q tt s) -> wp (when b m) Q s.
Proof. intros Ht Hf. destruct b; [by apply Ht|by apply Hf]. Qed.

Lemma wp_mono {A} (m : M S A) (Q R : A -> S -> Prop) s :
  wp m Q s -> (forall a s', Q a s' -> R a s') -> wp m R s.
Proof. unfold wp. destruct (m s) as [[a|e] s']; auto. Qed.

Lemma wp_throw {A} e (Q : A -> S -> Prop) s : X e s -> wp (throw e) Q s.
Proof. done. Qed.

Lemma wp_caught (m : M S unit) (Q : unit -> S -> Prop) s :
  match m s with (Val a, s') => Q a s' | (Exn Hang, s') => X Hang s' | (Exn _, s') => Q tt s' end -> wp (caught m) Q s.
Proof. unfold wp, caught. by destruct (m s) as [[[]|[]] s']. Qed.

(** Loops keep an invariant that their bodies keep. *)
Lemma wp_iter {A} (f : A -> M S unit) l (I : S -> Prop) s :
  I s -> (forall x s', x ∈ l -> I s' -> wp (f x) (fun _ => I) s') -> wp (iter f l) (fun _ => I) s.
Proof.
  revert s. induction l as [|x l IH]; intros s Hi Hf; [done|]. simpl. apply wp_bind.
  eapply wp_mono; [apply Hf; [apply list_elem_of_here|done]|]. intros [] s' Hs'.
  apply IH; [done|]. intros y s2 Hy. apply Hf. by apply list_elem_of_further.
Qed.
End wp.

Lemma wp_mono_exn {S A} (X Y : exn -> S -> Prop) (m : M S A) (Q R : A -> S -> Prop) s :
  wp X m Q s -> (forall e s', X e s' -> Y e s') -> (forall a s', Q a s' -> R a s') -> wp Y m R s.
Proof. unfold wp. destruct (m s) as [[a|e] s']; auto. Qed.

(** What holds before a handler holds after it, whether it returns or throws. *)
Section keeping.
Context {S : Type} (P : S -> Prop).
Definition keeping {A} (m : M S A) : Prop := forall s, P s -> P (m s).2.

Lemma keeping_ret {A} (a : A) : keeping (mret a).
Proof. by intros s. Qed.
Lemma keeping_throw {A} e : keeping (throw e : M S A).
Proof. by intros s. Qed.
Lemma keeping_get : keeping get.
Proof. by intros s. Qed.
Lemma keeping_need {A} (o : option A) : keeping (need o).
Proof. intros s Hs. by destruct o. Qed.
Lemma keeping_bind {A B} (m : M S A) (f : A -> M S B) : keeping m -> (forall a, keeping (f a)) -> keeping (m ≫= f).
Proof.
  intros Hm Hf s Hs. unfold mbind, M_bind. specialize (Hm s Hs). destruct (m s) as [[a|e] s']; [by apply Hf|done].
Qed.
Lemma keeping_when b m : keeping m -> keeping (when b m).
Proof. intros Hm s Hs. destruct b; [by apply Hm|done]. Qed.
Lemma keeping_iter {A} (f : A -> M S unit) l : (forall x, keeping (f x)) -> keeping (iter f l).
Proof. intros Hf. induction l as [|x l IH]; [by intros s|]. cbn [iter]. by apply keeping_bind. Qed.
Lemma keeping_caught (m : M S unit) : keeping m -> keeping (caught m).
Proof. intros Hm s Hs. pose proof (Hm s Hs) as H. unfold caught. by destruct (m s) as [[|[]] s']. Qed.
Lemma keeping_modify f : (forall s, P s -> P (f s)) -> keeping (modify f).
Proof. intros Hf s Hs. by apply Hf. Qed.

(** A keeping handler followed by another one that starts from what it left. *)
Lemma wp_keeping {A} X (m : M S A) (Q : A -> S -> Prop) s :
  keeping m -> P s -> (forall s, P s -> forall e, X e s) -> (forall a s', P s' -> Q a s') -> wp X m Q s.
Proof. intros Hm Hs HX HQ. specialize (Hm s Hs). unfold wp. destruct (m s) as [[a|e] s']; [by apply HQ|by apply HX]. Qed.
End keeping.
End Js.

(** One step along a handler that keeps something; what is left are the calls of
    other handlers and the changes of the state. *)
Ltac keep_step := match goal with
  | |- Js.keeping _ (mbind _ _) => apply Js.keeping_bind; [|intros ?]
  | |- Js.keeping _ Js.get => apply Js.keeping_get
  | |- Js.keeping _ (mret _) => apply Js.keeping_ret
  | |- Js.keeping _ (Js.throw _) => apply Js.keeping_throw
  | |- Js.keeping _ (Js.need _) => apply Js.keeping_need
  | |- Js.keeping _ (Js.when _ _) => apply Js.keeping_when
  | |- Js.keeping _ (Js.iter _ _) => apply Js.keeping_iter; intros ?
  | |- Js.keeping _ (Js.caught _) => apply Js.keeping_caught
  | |- Js.keeping _ (Js.modify _) => apply Js.keeping_modify; intros ? ?; try done
  | |- Js.keeping _ (match ?x with _ => _ end) => destruct x
  end.
