(* ===== verification/Autocomplete.v ===== *)
(** * Autocompletion: the menu

    The state of an autocompleter and its handlers: key presses, the timer that
    waits for a pause in the typing, the answers with the choices, the mouse, and
    the loss of the focus.  The page is reduced to the field's value, the menu
    element's children, which of its entries have the class "selected", and
    whether it is displayed; calls of the page's functions are logged. *)
From S2P Require Import Prelude JsString JsMonad ProtoText ProtoStr JsUri AutoText.

Module Auto.
Import Js AutoText.

(** ** State *)
Inductive call :=
  | OnShow | OnHide                       (** options.onShow, options.onHide *)
  | Request (parameters : jstring)        (** an Ajax request *)
  | UpdateElement (entry : option html)   (** options.updateElement *)
  | AfterUpdate (entry : html)            (** options.afterUpdateElement *)
  | Focus | ScrollIntoView (i : Z) | Stop. (** of the field, an entry, the event *)

Record auto := Auto {
  value : jstring; oldElementValue : jstring;
  hasFocus : bool; changed : bool; active : bool;
  index : Z; entryCount : Z;
  observer : bool;                        (** a timer for onObserverEvent is set *)
  tokenBounds : option (Z * Z);
  menu : list html;                       (** the children of the menu element *)
  selected : list bool;                   (** for each entry: has it the class? *)
  displayed : bool;                       (** the style display is not none *)
  indicator : bool;                       (** the indicator is shown *)
  hides : nat;                            (** timers of onBlur that are set *)
  calls : list call
}.

Definition set_value v a := Auto v (oldElementValue a) (hasFocus a) (changed a) (active a) (index a) (entryCount a) (observer a) (tokenBounds a) (menu a) (selected a) (displayed a) (indicator a) (hides a) (calls a).
Definition set_old v a := Auto (value a) v (hasFocus a) (changed a) (active a) (index a) (entryCount a) (observer a) (tokenBounds a) (menu a) (selected a) (displayed a) (indicator a) (hides a) (calls a).
Definition set_hasFocus b a := Auto (value a) (oldElementValue a) b (changed a) (active a) (index a) (entryCount a) (observer a) (tokenBounds a) (menu a) (selected a) (displayed a) (indicator a) (hides a) (calls a).
Definition set_changed b a := Auto (value a) (oldElementValue a) (hasFocus a) b (active a) (index a) (entryCount a) (observer a) (tokenBounds a) (menu a) (selected a) (displayed a) (indicator a) (hides a) (calls a).
Definition set_active b a := Auto (value a) (oldElementValue a) (hasFocus a) (changed a) b (index a) (entryCount a) (observer a) (tokenBounds a) (menu a) (selected a) (displayed a) (indicator a) (hides a) (calls a).
Definition set_index i a := Auto (value a) (oldElementValue a) (hasFocus a) (changed a) (active a) i (entryCount a) (observer a) (tokenBounds a) (menu a) (selected a) (displayed a) (indicator a) (hides a) (calls a).
Definition set_count n a := Auto (value a) (oldElementValue a) (hasFocus a) (changed a) (active a) (index a) n (observer a) (tokenBounds a) (menu a) (selected a) (displayed a) (indicator a) (hides a) (calls a).
Definition set_observer b a := Auto (value a) (oldElementValue a) (hasFocus a) (changed a) (active a) (index a) (entryCount a) b (tokenBounds a) (menu a) (selected a) (displayed a) (indicator a) (hides a) (calls a).
Definition set_bounds t a := Auto (value a) (oldElementValue a) (hasFocus a) (changed a) (active a) (index a) (entryCount a) (observer a) t (menu a) (selected a) (displayed a) (indicator a) (hides a) (calls a).
Definition set_menu m a := Auto (value a) (oldElementValue a) (hasFocus a) (changed a) (active a) (index a) (entryCount a) (observer a) (tokenBounds a) m (selected a) (displayed a) (indicator a) (hides a) (calls a).
Definition set_selected l a := Auto (value a) (oldElementValue a) (hasFocus a) (changed a) (active a) (index a) (entryCount a) (observer a) (tokenBounds a) (menu a) l (displayed a) (indicator a) (hides a) (calls a).
Definition set_displayed b a := Auto (value a) (oldElementValue a) (hasFocus a) (changed a) (active a) (index a) (entryCount a) (observer a) (tokenBounds a) (menu a) (selected a) b (indicator a) (hides a) (calls a).
Definition set_indicator b a := Auto (value a) (oldElementValue a) (hasFocus a) (changed a) (active a) (index a) (entryCount a) (observer a) (tokenBounds a) (menu a) (selected a) (displayed a) b (hides a) (calls a).
Definition set_hides n a := Auto (value a) (oldElementValue a) (hasFocus a) (changed a) (active a) (index a) (entryCount a) (observer a) (tokenBounds a) (menu a) (selected a) (displayed a) (indicator a) n (calls a).
Definition log c a := Auto (value a) (oldElementValue a) (hasFocus a) (changed a) (active a) (index a) (entryCount a) (observer a) (tokenBounds a) (menu a) (selected a) (displayed a) (indicator a) (hides a) (calls a ++ [c]).

(** The source of the choices: a request with the name of the parameter, a
    callback and further parameters, or an array. *)
Inductive source :=
  | Remote (paramName : jstring) (callback : option (jstring -> jstring)) (defaultParams : option jstring)
  | Local (o : local_options).

Record options := Options {
  tokens : list jstring; minChars : Z; has_indicator : bool; autoSelect : bool;
  select : option jstring; updateElement_given : bool; afterUpdateElement_given : bool; source_of : source
}.

Section Auto.
Variable opts : options.
(** The browser's reading of markup, and Prototype's selector for a class. *)
Variable parse : jstring -> list html.
Variable by_class : jstring -> html -> list html.
Variable webkit : bool.

Notation M := (M auto).

(** src/piql/scadr/src/main/rails/public/javascripts/controls.js:42-90
    [baseInitialize(element, update, options)]: the state of a new autocompleter;
    the tokens get the line feed. *)
Definition initial (v : jstring) : auto :=
  Auto v v false false false 0 0 false None [] [] false false 0 [].
Definition all_tokens : list jstring :=
  if bool_decide ([10] ∈ tokens opts) then tokens opts else tokens opts ++ [[10]].

(** ** Showing and hiding *)

(** src/piql/scadr/src/main/rails/public/javascripts/controls.js:92-104
    [show()]; the frame for Internet Explorer is left out. *)
Definition show : M unit := a ← get; when (negb (displayed a)) (modify (log OnShow)).

(** src/piql/scadr/src/main/rails/public/javascripts/controls.js:119-121
    [startIndicator()] *)
Definition startIndicator : M unit := when (has_indicator opts) (modify (set_indicator true)).

(** src/piql/scadr/src/main/rails/public/javascripts/controls.js:123-125
    [stopIndicator()] *)
Definition stopIndicator : M unit := when (has_indicator opts) (modify (set_indicator false)).

(** src/piql/scadr/src/main/rails/public/javascripts/controls.js:113-117
    [hide()] *)
Definition hide : M unit :=
  stopIndicator;; a ← get; when (displayed a) (modify (log OnHide)).

(** ** Entries *)

(** src/piql/scadr/src/main/rails/public/javascripts/controls.js:223-225
    [getEntry(index)]: a child of the menu's first child, which must exist. *)
Definition getEntry (i : Z) : M (option html) :=
  a ← get; c ← need (head (menu a)); mret (znth (childNodes c) i).

(** src/piql/scadr/src/main/rails/public/javascripts/controls.js:227-229
    [getCurrentEntry()] *)
Definition getCurrentEntry : M (option html) := a ← get; getEntry (index a).

(** [Element.addClassName(this.getEntry(i), "selected")] and [removeClassName]:
    an entry must be an element. *)
Definition mark (i : Z) (b : bool) : M unit :=
  e ← getEntry i;
  match e with
  | Some (El _ _) => modify (fun a => set_selected (<[Z.to_nat i := b]> (selected a)) a)
  | _ => throw TypeError
  end.

(** src/piql/scadr/src/main/rails/public/javascripts/controls.js:195-209
    [render()] *)
Definition render : M unit :=
  a ← get;
  if 0 <? entryCount a then
    iter (fun i => a ← get; mark i (index a =? i)) (seqZ 0 (entryCount a));;
    a ← get;
    when (hasFocus a) (show;; modify (set_active true))
  else modify (set_active false);; hide.

(** src/piql/scadr/src/main/rails/public/javascripts/controls.js:211-215
    [markPrevious()] *)
Definition markPrevious : M unit :=
  a ← get;
  modify (set_index (if 0 <? index a then index a - 1 else entryCount a - 1));;
  a ← get; e ← getEntry (index a); _ ← need e; modify (log (ScrollIntoView (index a))).

(** src/piql/scadr/src/main/rails/public/javascripts/controls.js:217-221
    [markNext()] *)
Definition markNext : M unit :=
  a ← get;
  modify (set_index (if index a <? entryCount a - 1 then index a + 1 else 0));;
  a ← get; e ← getEntry (index a); _ ← need e; modify (log (ScrollIntoView (index a))).

(** ** The token *)

(** src/piql/scadr/src/main/rails/public/javascripts/controls.js:317-332
    [getTokenBounds()], with the bounds kept from an earlier call *)
Definition getBounds : M (Z * Z) :=
  a ← get;
  match tokenBounds a with
  | Some b => mret b
  | None =>
      let '(b0, b1, keep) := getTokenBounds all_tokens (value a) (oldElementValue a) in
      when keep (modify (set_bounds (Some (b0, b1))));; mret (b0, b1)
  end.

Definition get_token : M jstring := b ← getBounds; a ← get; mret (getToken b (value a)).

(** src/piql/scadr/src/main/rails/public/javascripts/controls.js:236-263
    [updateElement(selectedElement)] *)
Definition updateElement (selectedElement : option html) : M unit :=
  if updateElement_given opts then
    modify (log (UpdateElement selectedElement))
  else
    e ← need selectedElement;
    let text := match select opts with
                | Some cls => match by_class cls e with n :: _ => collectTextNodes n | [] => [] end
                | None => collectTextNodesIgnoreClass e (js "informal")
                end in
    b ← getBounds;
    modify (fun a => set_value (replaced b text (value a)) a);;
    modify (fun a => set_old (value a) a);;
    modify (log Focus);;
    when (afterUpdateElement_given opts) (modify (log (AfterUpdate e))).

(** src/piql/scadr/src/main/rails/public/javascripts/controls.js:231-234
    [selectEntry()] *)
Definition selectEntry : M unit :=
  modify (set_active false);; e ← getCurrentEntry; updateElement e.

(** ** Choices *)

(** src/piql/scadr/src/main/rails/public/javascripts/prototype.js:1862-1872
    [cleanWhitespace()]: the children without the blank texts. *)
Definition cleanWhitespace (l : list html) : list html :=
  filter (fun n => match n with Txt s => negb (Str.blank s) | El _ _ => true end = true) l.

(** [this.update.down()]: the first element of the menu, cleaned. *)
Fixpoint clean_down (l : list html) : option (list html * list html) :=
  match l with
  | [] => None
  | El c k :: l => Some (El c (cleanWhitespace k) :: l, cleanWhitespace k)
  | n :: l => '(l, k) ← clean_down l; Some (n :: l, k)
  end.

(** src/piql/scadr/src/main/rails/public/javascripts/controls.js:265-293
    [updateChoices(choices)] *)
Definition updateChoices (choices : jstring) : M unit :=
  a ← get;
  when (negb (changed a) && hasFocus a) (
    let m := cleanWhitespace (parse choices) in
    modify (set_menu m);;
    '(m, entries) ← need (clean_down m);
    modify (set_menu m);;
    modify (set_count (zlen entries));;
    iter (fun i => e ← getEntry i; _ ← need e; mret tt) (seqZ 0 (zlen entries));;
    modify (set_selected (replicate (length entries) false));;
    stopIndicator;;
    modify (set_index 0);;
    a ← get;
    if (entryCount a =? 1) && autoSelect opts then selectEntry;; hide else render).

(** src/piql/scadr/src/main/rails/public/javascripts/controls.js:352-365
    [getUpdatedChoices()] of both kinds of autocompleters; the one over an array
    is at 413-415. *)
Definition getUpdatedChoices : M unit :=
  match source_of opts with
  | Remote paramName callback defaultParams =>
      startIndicator;;
      t ← get_token;
      match Uri.encodeURIComponent paramName, Uri.encodeURIComponent t with
      | Text.Returns n, Text.Returns t =>
          let entry := n ++ js "=" ++ t in
          let parameters := match callback with Some f => f entry | None => entry end in
          let parameters := match defaultParams with
                            | Some ((_ :: _) as d) => parameters ++ js "&" ++ d
                            | _ => parameters
                            end in
          modify (log (Request parameters))
      | _, _ => throw URIError
      end
  | Local o =>
      t ← get_token;
      match selector o t with
      | Some choices => updateChoices choices
      | None => throw Hang
      end
  end.

(** ** Handlers *)

(** src/piql/scadr/src/main/rails/public/javascripts/controls.js:127-163
    [onKeyPress(event)] *)
Definition onKeyPress (keyCode : Z) : M unit :=
  let typed :=
    modify (set_changed true);; modify (set_hasFocus true);; modify (set_observer true) in
  let leave := hide;; modify (set_active false);; modify (log Stop) in
  a ← get;
  if active a then
    if (keyCode =? 9) || (keyCode =? 13) then selectEntry;; modify (log Stop);; leave
    else if keyCode =? 27 then leave
    else if (keyCode =? 37) || (keyCode =? 39) then mret tt
    else if keyCode =? 38 then markPrevious;; render;; modify (log Stop)
    else if keyCode =? 40 then markNext;; render;; modify (log Stop)
    else typed
  else if (keyCode =? 9) || (keyCode =? 13) || (webkit && (keyCode =? 0)) then mret tt
  else typed.

(** src/piql/scadr/src/main/rails/public/javascripts/controls.js:165-169
    [activate()] *)
Definition activate : M unit :=
  modify (set_changed false);; modify (set_hasFocus true);; getUpdatedChoices.

(** src/piql/scadr/src/main/rails/public/javascripts/controls.js:171-179
    [onHover(event)] over the entry with [autocompleteIndex] [i] *)
Definition onHover (i : Z) : M unit :=
  a ← get;
  when (negb (index a =? i)) (modify (set_index i);; render);; modify (log Stop).

(** src/piql/scadr/src/main/rails/public/javascripts/controls.js:181-186
    [onClick(event)] *)
Definition onClick (i : Z) : M unit := modify (set_index i);; selectEntry;; hide.

(** src/piql/scadr/src/main/rails/public/javascripts/controls.js:188-193
    [onBlur(event)] *)
Definition onBlur : M unit :=
  modify (fun a => set_hides (S (hides a)) a);;
  modify (set_hasFocus false);; modify (set_active false).

(** src/piql/scadr/src/main/rails/public/javascripts/controls.js:300-310
    [onObserverEvent()] *)
Definition onObserverEvent : M unit :=
  modify (set_changed false);;
  modify (set_bounds None);;
  t ← get_token;
  (if minChars opts <=? zlen t then getUpdatedChoices
   else modify (set_active false);; hide);;
  modify (fun a => set_old (value a) a).

(** ** Events *)
Inductive event :=
  | EInput (v : jstring)      (** the browser changes the text of the field *)
  | EKey (keyCode : Z)
  | EObserver                 (** the timer for onObserverEvent fires *)
  | EHide                     (** a timer of onBlur fires *)
  | EBlur
  | EHover (i : Z)
  | EClick (i : Z)
  | EDisplay (b : bool)       (** the page has shown or hidden the menu *)
  | EAnswer (choices : jstring)
  | EActivate.

Definition step (e : event) : M unit :=
  match e with
  | EInput v => modify (set_value v)
  | EKey k => onKeyPress k
  | EObserver => a ← get; when (observer a) (modify (set_observer false);; onObserverEvent)
  | EHide =>
      a ← get;
      match hides a with O => mret tt | S n => modify (set_hides n);; hide end
  | EBlur => onBlur
  | EHover i => onHover i
  | EClick i => onClick i
  | EDisplay b => modify (set_displayed b)
  | EAnswer c => updateChoices c
  | EActivate => activate
  end.
End Auto.
End Auto.
