(* ===== verification/AutoSafe.v ===== *)
(** * The menu of an autocompleter stays consistent

    Through any sequence of events in which answers are lists, the index is the index of an entry of the menu,
    an active menu has entries and exactly the current one is marked, and no
    handler throws but for a text that cannot be encoded; an answer without an
    element throws. *)
From S2P Require Import Prelude JsString JsMonad ProtoText ProtoStr JsUri AutoText Autocomplete.

Module AutoSafe.
Import Js AutoText Auto.

(** The entries of the menu: the children of its first child. *)
Definition entries (a : auto) : list html := match menu a with n :: _ => childNodes n | [] => [] end.
Definition is_element (n : html) : Prop := match n with El _ _ => True | Txt _ => False end.

(** The index is that of an entry, and an active menu has entries. *)
Definition sound (a : auto) : Prop :=
  0 <= entryCount a /\ zlen (entries a) = entryCount a /\ zlen (selected a) = entryCount a /\
  Forall is_element (entries a) /\ 0 <= index a /\ (0 < entryCount a -> index a < entryCount a).
Definition good (a : auto) : Prop := sound a /\ (active a = true -> 0 < entryCount a).

(** Exactly the current entry is marked. *)
Definition lit (a : auto) : Prop :=
  forall i, 0 <= i < entryCount a -> znth (selected a) i = Some (index a =? i).

Definition consistent (a : auto) : Prop := good a /\ (active a = true -> lit a).

Section safe.
Variable opts : options.
Variable parse : jstring -> list html.
Variable by_class : jstring -> html -> list html.
Variable webkit : bool.

(** A list of elements, which is what choices have to be. *)
Definition answer_ok (choices : jstring) : Prop :=
  exists c l r, cleanWhitespace (parse choices) = El c l :: r /\ Forall is_element (cleanWhitespace l).

(** What may be thrown, and in which states. *)
Variable X : exn -> auto -> Prop.
Notation wp := (wp X).

Notation hide := (hide opts).
Notation render := (render opts).
Notation updateElement := (updateElement opts by_class).
Notation selectEntry := (selectEntry opts by_class).
Notation updateChoices := (updateChoices opts parse by_class).
Notation getUpdatedChoices := (getUpdatedChoices opts parse by_class).
Notation onKeyPress := (onKeyPress opts by_class webkit).
Notation step := (step opts parse by_class webkit).

(** ** The parts that leave the menu alone *)
Definition kept (a a' : auto) : Prop :=
  entryCount a' = entryCount a /\ menu a' = menu a /\ selected a' = selected a /\
  index a' = index a /\ (active a' = true -> active a = true).

#[local] Instance kept_preorder : PreOrder kept.
Proof.
  split; [by intros a|]. intros a b c (?&?&?&?&?) (?&?&?&?&?). repeat split; try congruence. auto.
Qed.

Lemma kept_consistent a a' : kept a a' -> consistent a -> consistent a'.
Proof.
  intros (Hc & Hm & Hs & Hi & Ha) [[(G1 & G2 & G3 & G4 & G5 & G6) G7] L]. split.
  - unfold good, sound, entries in *. rewrite Hc, Hm, Hs, Hi. repeat split; auto.
  - intros Hact. unfold lit in *. rewrite Hc, Hs, Hi. auto.
Qed.

Lemma kept_good a a' : kept a a' -> good a -> good a'.
Proof.
  intros (Hc & Hm & Hs & Hi & Ha) [(G1 & G2 & G3 & G4 & G5 & G6) G7].
  unfold good, sound, entries in *. rewrite Hc, Hm, Hs, Hi. repeat split; auto.
Qed.

(** A handler that keeps the menu: it may only deactivate it. *)
Definition keeps (m : M auto unit) : Prop := forall a, wp m (fun _ a' => kept a a') a.

Lemma keeps_seq m k : keeps m -> keeps k -> keeps (m;; k).
Proof.
  intros Hm Hk a. apply wp_bind. eapply wp_mono; [apply Hm|]. intros [] a1 H1.
  eapply wp_mono; [apply Hk|]. intros [] a2 H2. simpl in *. by transitivity a1.
Qed.

Lemma auto_when b m : keeps m -> keeps (when b m).
Proof. intros Hm a. apply wp_when; [intros _; apply Hm|done]. Qed.

Lemma keeps_modify f : (forall a, kept a (f a)) -> keeps (modify f).
Proof. intros Hf a. apply wp_modify, Hf. Qed.

Lemma auto_get (f : auto -> M auto unit) : (forall a, keeps (f a)) -> keeps (a ← get; f a).
Proof. intros Hf a. apply wp_bind, wp_get, Hf. Qed.

Ltac keep := repeat first
  [ apply keeps_seq | apply auto_when | apply auto_get; intros ?
  | by apply keeps_modify; intros ?; repeat split ].

Lemma keeps_show : keeps show.
Proof. unfold show. keep. Qed.
Lemma keeps_hide : keeps hide.
Proof. unfold Auto.hide, stopIndicator. keep. Qed.
Lemma keeps_start : keeps (startIndicator opts).
Proof. unfold startIndicator. keep. Qed.

(** ** Entries *)
Lemma getEntry_eq a i n r : menu a = n :: r -> getEntry i a = (Val (znth (childNodes n) i), a).
Proof. intros Hm. unfold getEntry, mbind, M_bind, get, need. by rewrite Hm. Qed.

Lemma good_menu a : sound a -> 0 < entryCount a -> exists n r, menu a = n :: r.
Proof.
  intros (_ & G2 & _) Hc. unfold entries in G2. destruct (menu a) as [|n r]; [|by exists n, r].
  rewrite zlen_nil in G2. lia.
Qed.

Lemma good_entry a i : sound a -> 0 <= i < entryCount a ->
  exists e, getEntry i a = (Val (Some e), a) /\ is_element e.
Proof.
  intros Hg Hi. destruct (good_menu a Hg ltac:(lia)) as (n & r & Hm).
  rewrite (getEntry_eq a i n r Hm). destruct Hg as (_ & G2 & _ & G4 & _). unfold entries in *. rewrite Hm in *.
  destruct (proj2 (znth_is_Some (childNodes n) i)) as [e He]; [lia|]. exists e. rewrite He. split; [done|].
  rewrite Forall_forall in G4. apply G4. by eapply znth_elem.
Qed.

(** ** Rendering *)
Definition marked (a : auto) (l : list bool) (i : Z) : Prop :=
  zlen l = entryCount a /\ forall j, 0 <= j < i -> znth l j = Some (index a =? j).

Lemma marks_spec a k : sound a -> forall i l,
  0 <= i -> i + Z.of_nat k = entryCount a -> marked a l i ->
  wp (iter (fun i => a ← get; mark i (index a =? i)) (seqZ i (Z.of_nat k)))
     (fun _ a' => exists l', a' = set_selected l' a /\ marked a l' (entryCount a)) (set_selected l a).
Proof.
  intros Hg. induction k as [|k IH]; intros i l Hi Hk Hl.
  { apply wp_ret. exists l. split; [done|]. by replace (entryCount a) with i by lia. }
  rewrite seqZ_cons by lia. replace (Z.pred (Z.of_nat (S k))) with (Z.of_nat k) by lia. cbn [iter].
  assert (sound (set_selected l a)) as Hg'.
  { destruct Hg as (G1 & G2 & G3 & G4 & G5 & G6). by repeat split; try apply Hl. }
  destruct (good_entry (set_selected l a) i Hg' ltac:(simpl; lia)) as (e & He & Hel).
  apply wp_bind, wp_bind, wp_get. unfold mark. apply wp_bind. unfold Js.wp at 1. rewrite He.
  destruct e as [|c kids]; [done|]. apply wp_modify. cbn [Auto.set_selected Auto.selected Auto.index].
  apply (IH (Z.succ i) (<[Z.to_nat i := index a =? i]> l)); [lia|lia|].
  destruct Hl as [Hlen Hl]. split; [unfold zlen in *; by rewrite length_insert|].
  intros j Hj. unfold znth. rewrite decide_False by lia. destruct (decide (j = i)) as [->|Hne].
  - rewrite list_lookup_insert_eq; [done|]. unfold zlen in Hlen. lia.
  - rewrite list_lookup_insert_ne by lia. specialize (Hl j ltac:(lia)). unfold znth in Hl.
    by rewrite decide_False in Hl by lia.
Qed.

Lemma render_spec a : sound a -> wp render (fun _ a' => consistent a' /\ index a' = index a /\
  (0 < entryCount a -> active a = true -> active a' = true)) a.
Proof.
  intros Hg. pose proof Hg as (G1 & G2 & G3 & G4 & G5 & G6). unfold Auto.render. apply wp_bind, wp_get.
  destruct (0 <? entryCount a) eqn:Hc; [apply Z.ltb_lt in Hc|apply Z.ltb_ge in Hc].
  - apply wp_bind. pose proof (marks_spec a (Z.to_nat (entryCount a)) Hg 0 (selected a)) as Hm.
    rewrite Z2Nat.id in Hm by lia. replace (set_selected (selected a) a) with a in Hm by by destruct a.
    eapply wp_mono; [apply Hm; [lia|lia|split; [done|lia]]|]. intros [] a1 (l & -> & [Hlen Hl]).
    assert (forall b, consistent (set_active b (set_selected l a))) as Hcons.
    { intros b. split; [|by intros _]. by repeat split. }
    apply wp_bind, wp_get. apply wp_when.
    + intros _. apply wp_bind. eapply wp_mono; [apply keeps_show|]. intros [] a2 Hk. apply wp_modify.
      assert (kept (set_active true (set_selected l a)) (set_active true a2)) as Hk'.
      { destruct Hk as (?&?&?&?&?). by repeat split. }
      split; [by eapply kept_consistent|]. destruct Hk as (_ & _ & _ & Hi & _). by split; [exact Hi|].
    + intros _. split; [|done]. specialize (Hcons (active a)). by destruct a.
  - apply wp_bind, wp_modify. eapply wp_mono; [apply keeps_hide|]. intros [] a1 Hk. split.
    + eapply kept_consistent; [exact Hk|]. split; [|done]. by repeat split.
    + destruct Hk as (_ & _ & _ & -> & _). split; [done|lia].
Qed.

(** ** Moving *)
Lemma good_index a i : good a -> 0 <= i < entryCount a -> good (set_index i a).
Proof. intros [(G1 & G2 & G3 & G4 & G5 & G6) G7] Hi. repeat split; simpl; try done; lia. Qed.

Lemma moved_spec a i : good a -> 0 <= i < entryCount a ->
  wp (modify (set_index i);; a ← get; e ← getEntry (index a); _ ← need e; modify (log (ScrollIntoView (index a))))
     (fun _ a' => good a' /\ index a' = i /\ entryCount a' = entryCount a /\ active a' = active a) a.
Proof.
  intros Hg Hi. pose proof (good_index a i Hg Hi) as Hg'.
  apply wp_bind, wp_modify, wp_bind, wp_get, wp_bind.
  destruct (good_entry (set_index i a) i (proj1 Hg') Hi) as (e & He & _).
  change (index (set_index i a)) with i. unfold Js.wp at 1. rewrite He.
  apply wp_bind, (wp_need _ e); [done|]. apply wp_modify. split; [|done].
  eapply kept_good; [|exact Hg']. by repeat split.
Qed.

Lemma markNext_spec a : good a -> active a = true ->
  wp markNext (fun _ a' => (good a' /\ entryCount a' = entryCount a /\ active a' = true) /\
    index a' = (index a + 1) mod entryCount a) a.
Proof.
  intros Hg Ha. pose proof Hg as [(G1 & _ & _ & _ & G5 & G6) G7]. specialize (G7 Ha). specialize (G6 G7).
  unfold markNext. apply wp_bind, wp_get.
  assert (0 <= (if index a <? entryCount a - 1 then index a + 1 else 0) < entryCount a) as Hi
    by (destruct (index a <? entryCount a - 1) eqn:E; lia).
  eapply wp_mono; [exact (moved_spec a _ Hg Hi)|]. intros [] a' (Hg' & -> & Hn & Hact).
  split; [by rewrite Hact|].
  destruct (index a <? entryCount a - 1) eqn:E; [rewrite Z.mod_small by lia; done|].
  replace (index a + 1) with (entryCount a) by lia. by rewrite Z.mod_same by lia.
Qed.

Lemma markPrevious_spec a : good a -> active a = true ->
  wp markPrevious (fun _ a' => (good a' /\ entryCount a' = entryCount a /\ active a' = true) /\
    index a' = (index a - 1) mod entryCount a) a.
Proof.
  intros Hg Ha. pose proof Hg as [(G1 & _ & _ & _ & G5 & G6) G7]. specialize (G7 Ha). specialize (G6 G7).
  unfold markPrevious. apply wp_bind, wp_get.
  assert (0 <= (if 0 <? index a then index a - 1 else entryCount a - 1) < entryCount a) as Hi
    by (destruct (0 <? index a) eqn:E; lia).
  eapply wp_mono; [exact (moved_spec a _ Hg Hi)|]. intros [] a' (Hg' & -> & Hn & Hact).
  split; [by rewrite Hact|].
  destruct (0 <? index a) eqn:E; [rewrite Z.mod_small by lia; done|].
  replace (index a) with 0 by lia. rewrite <- (Z.mod_add _ 1) by lia. rewrite Z.mod_small by lia. lia.
Qed.

(** ** Choosing *)
Lemma getBounds_keeps a : wp (getBounds opts) (fun _ a' => kept a a') a.
Proof.
  unfold getBounds. apply wp_bind, wp_get. destruct (tokenBounds a); [by apply wp_ret|].
  destruct (getTokenBounds _ _ _) as [[b0 b1] keep]. apply wp_bind, wp_when; intros _; [|done].
  by apply wp_modify.
Qed.

Lemma get_token_keeps a : wp (get_token opts) (fun t a' => kept a a' /\ exists b, t = getToken b (value a')) a.
Proof.
  unfold get_token. apply wp_bind. eapply wp_mono; [apply getBounds_keeps|]. intros b a1 Hk.
  apply wp_bind, wp_get, wp_ret. split; [done|]. by exists b.
Qed.

Lemma updateElement_keeps e : keeps (updateElement (Some e)).
Proof.
  unfold Auto.updateElement. destruct (updateElement_given opts); [keep|]. intros a.
  apply wp_bind, (wp_need _ e); [done|]. apply wp_bind. eapply wp_mono; [apply getBounds_keeps|].
  intros b a1 Hk. set (text := match select opts with Some _ => _ | None => _ end). clearbody text.
  assert (keeps (modify (fun a0 => set_value (replaced b text (value a0)) a0);;
    modify (fun a0 => set_old (value a0) a0);; modify (log Focus);;
    when (afterUpdateElement_given opts) (modify (log (AfterUpdate e))))) as Hr by keep.
  eapply wp_mono; [apply Hr|]. intros [] a2 Hk2. simpl in *. by transitivity a1.
Qed.

Lemma selectEntry_spec a : sound a -> 0 < entryCount a ->
  wp selectEntry (fun _ a' => kept (set_active false a) a') a.
Proof.
  intros Hg Hc. unfold Auto.selectEntry. apply wp_bind, wp_modify. unfold getCurrentEntry.
  apply wp_bind, wp_bind, wp_get. pose proof Hg as (_ & _ & _ & _ & G5 & G6). specialize (G6 Hc).
  assert (sound (set_active false a)) as Hg' by exact Hg.
  destruct (good_entry (set_active false a) (index a) Hg' ltac:(simpl; lia)) as (e & He & _).
  change (index (set_active false a)) with (index a). unfold Js.wp at 1. rewrite He. apply updateElement_keeps.
Qed.

Lemma inactive_consistent a : sound a -> active a = false -> consistent a.
Proof. intros Hs Ha. split; [split; [done|]|]; by rewrite Ha. Qed.

Lemma kept_inactive a a' : sound a -> kept (set_active false a) a' -> consistent a'.
Proof. intros Hs Hk. eapply kept_consistent; [exact Hk|]. by apply inactive_consistent. Qed.

Lemma select_leave a (k : M auto unit) : sound a -> 0 < entryCount a -> keeps k ->
  wp (selectEntry;; k) (fun _ a' => consistent a') a.
Proof.
  intros Hs Hc Hk. apply wp_bind. eapply wp_mono; [by apply selectEntry_spec|]. intros [] a1 H1.
  eapply wp_mono; [apply Hk|]. intros [] a2 H2. apply (kept_inactive a); [done|]. simpl in *. by transitivity a1.
Qed.

(** ** New choices *)
Lemma updateChoices_spec a c : consistent a -> answer_ok c -> wp (updateChoices c) (fun _ a' => consistent a') a.
Proof.
  intros Ha (cls & l & r & Hm & Hl). unfold Auto.updateChoices. apply wp_bind, wp_get, wp_when; [intros _|done].
  apply wp_bind, wp_modify. apply wp_bind. rewrite Hm. cbn [clean_down]. apply (wp_need _ (El cls (cleanWhitespace l) :: r, cleanWhitespace l)); [done|].
  set (es := cleanWhitespace l) in *. apply wp_bind, wp_modify, wp_bind, wp_modify.
  match goal with |- wp _ _ ?b => set (a1 := b) end.
  assert (menu a1 = El cls es :: r) as Hm1 by done.
  apply wp_bind. eapply (wp_mono _ _ (fun _ a' => a' = a1)).
  { apply (wp_iter _ _ _ (fun a' => a' = a1)); [done|]. intros i a' Hi ->. apply wp_bind.
    unfold Js.wp at 1. rewrite (getEntry_eq a1 i _ r Hm1). apply elem_of_seqZ in Hi.
    destruct (proj2 (znth_is_Some (childNodes (El cls es)) i)) as [e He]; [simpl; lia|].
    rewrite He. by apply wp_bind, (wp_need _ e). }
  intros [] a' ->. apply wp_bind, wp_modify.
  apply wp_bind. eapply wp_mono; [apply auto_when, keeps_modify; by repeat split|]. intros [] a2 Hk.
  apply wp_bind, wp_modify. apply wp_bind, wp_get.
  assert (sound (set_index 0 a2)) as Hs.
  { destruct Hk as (H1 & H2 & H3 & _ & _). unfold sound, entries. simpl. rewrite H1, H2, H3. simpl.
    pose proof (zlen_nonneg es). split_and!; try done; try lia. unfold zlen. by rewrite length_replicate. }
  destruct ((entryCount (set_index 0 a2) =? 1) && autoSelect opts) eqn:E.
  - apply andb_true_iff in E as [E%Z.eqb_eq _]. apply select_leave; [done|lia|apply keeps_hide].
  - eapply wp_mono; [by apply render_spec|]. by intros [] a3 [? _].
Qed.

(** ** Asking for choices *)

(** Texts that cannot be encoded are refused. *)
Hypothesis may_refuse : forall a, consistent a -> X URIError a.

(** Local choices are lists, and no element of the array is empty. *)
Definition source_ok : Prop :=
  match source_of opts with
  | Remote _ _ _ => True
  | Local o => [] ∉ array o /\ forall t c, selector o t = Some c -> answer_ok c
  end.
Hypothesis Hsource : source_ok.

Lemma look_at_empty o elem : elem <> [] -> look_at o elem [] = Beginning.
Proof.
  intros He. assert (find_in o elem [] 0 = 0) as Hz.
  { assert (forall s, indexOf_from [] 0 s = 0) as Hi.
    { intros s. unfold indexOf_from. replace (Z.min (Z.max 0 0) (zlen s)) with 0 by (pose proof (zlen_nonneg s); lia).
      rewrite zdrop_nonpos by lia. by destruct s. }
    unfold find_in. by destruct (ignoreCase o). }
  unfold look_at. rewrite Hz. destruct elem as [|x elem]; [done|]. cbn [occurrences length].
  replace (zlen (x :: elem) =? zlen (@nil Z)) with false by (symmetry; apply Z.eqb_neq; jslia). done.
Qed.

Lemma select_loop_total o t : forall l ret partial, [] ∉ l -> is_Some (select_loop o t l ret partial).
Proof.
  destruct t as [|c t]; intros l.
  - induction l as [|elem l IH]; intros ret partial Hl; [by eexists|]. cbn [select_loop].
    apply not_elem_of_cons in Hl as [He Hl]. rewrite look_at_empty by (by intros ->).
    destruct (_ <? _); [by apply IH|by eexists].
  - intros ret partial _. destruct (select_loop_spec o (c :: t) l ltac:(done) ret partial) as (p & -> & _). by eexists.
Qed.

Lemma selector_total o t : [] ∉ array o -> is_Some (selector o t).
Proof.
  intros Ho. unfold selector. destruct (select_loop_total o t (array o) [] [] Ho) as [[r p] ->]. by eexists.
Qed.

Lemma getUpdatedChoices_spec a : consistent a -> wp getUpdatedChoices (fun _ a' => consistent a') a.
Proof.
  intros Ha. unfold Auto.getUpdatedChoices. destruct (source_of opts) as [n cb d|o] eqn:Es.
  - apply wp_bind. eapply wp_mono; [apply keeps_start|]. intros [] a1 H1.
    apply wp_bind. eapply wp_mono; [apply get_token_keeps|]. intros t a2 [H2 _].
    assert (consistent a2) as Hc by (eapply kept_consistent; [by transitivity a1|done]).
    destruct (Uri.encodeURIComponent n); [|by apply wp_throw, may_refuse..].
    destruct (Uri.encodeURIComponent t); [|by apply wp_throw, may_refuse..].
    apply wp_modify. eapply kept_consistent; [|exact Hc]. by repeat split.
  - unfold source_ok in Hsource. rewrite Es in Hsource. destruct Hsource as [Hne Hok].
    apply wp_bind. eapply wp_mono; [apply get_token_keeps|]. intros t a1 [H1 _].
    destruct (selector_total o t Hne) as [c Hc]. rewrite Hc. apply updateChoices_spec; [|by eapply Hok].
    by eapply kept_consistent.
Qed.

(** ** The handlers *)
Lemma move_and_render a (m : M auto unit) : 
  wp m (fun _ a' => good a') a -> wp (m;; render;; modify (log Stop)) (fun _ a' => consistent a') a.
Proof.
  intros Hm. apply wp_bind. eapply wp_mono; [exact Hm|]. intros [] a1 [Hs _].
  apply wp_bind. eapply wp_mono; [by apply render_spec|]. intros [] a2 [Hc _]. apply wp_modify.
  eapply kept_consistent; [|exact Hc]. by repeat split.
Qed.

Lemma keeps_spec (m : M auto unit) a : keeps m -> consistent a -> wp m (fun _ a' => consistent a') a.
Proof. intros Hm Ha. eapply wp_mono; [apply Hm|]. intros [] a' Hk. by eapply kept_consistent. Qed.

Lemma onKeyPress_spec k a : consistent a -> wp (onKeyPress k) (fun _ a' => consistent a') a.
Proof.
  intros Ha. unfold Auto.onKeyPress. apply wp_bind, wp_get.
  assert (keeps (modify (set_changed true);; modify (set_hasFocus true);; modify (set_observer true))) as Ht by keep.
  assert (keeps (hide;; modify (set_active false);; modify (log Stop))) as Hl.
  { apply keeps_seq; [apply keeps_hide|]. apply keeps_seq; [by apply keeps_modify; repeat split|].
    by apply keeps_modify; repeat split. }
  destruct (active a) eqn:Hact.
  - destruct Ha as [Hg Hlit] eqn:E. clear E. pose proof Hg as [Hs Hpos]. specialize (Hpos Hact).
    destruct ((k =? 9) || (k =? 13)).
    { apply select_leave; [done|done|]. apply keeps_seq; [by apply keeps_modify; repeat split|exact Hl]. }
    destruct (k =? 27); [by apply keeps_spec|]. destruct ((k =? 37) || (k =? 39)); [by apply wp_ret|].
    destruct (k =? 38).
    { apply move_and_render. eapply wp_mono; [by apply markPrevious_spec|]. by intros [] a' [[? _] _]. }
    destruct (k =? 40); [|by apply keeps_spec].
    apply move_and_render. eapply wp_mono; [by apply markNext_spec|]. by intros [] a' [[? _] _].
  - destruct (_ || _ || _); [by apply wp_ret|by apply keeps_spec].
Qed.

Lemma onHover_spec i a : consistent a -> 0 <= i < entryCount a -> wp (onHover opts i) (fun _ a' => consistent a') a.
Proof.
  intros Ha Hi. unfold onHover. apply wp_bind, wp_get, wp_bind.
  eapply (wp_mono _ _ (fun _ a' => consistent a')).
  - apply wp_when; [intros _|done]. apply wp_bind, wp_modify.
    eapply wp_mono; [apply render_spec; apply (good_index a i); [apply Ha|done]|]. by intros [] a' [? _].
  - intros [] a' Hc. apply wp_modify. eapply kept_consistent; [|exact Hc]. by repeat split.
Qed.

Lemma onClick_spec i a : consistent a -> 0 <= i < entryCount a ->
  wp (onClick opts by_class i) (fun _ a' => consistent a') a.
Proof.
  intros [Hg _] Hi. unfold onClick. apply wp_bind, wp_modify.
  apply select_leave; [apply (good_index a i); [done|done]|simpl; lia|apply keeps_hide].
Qed.

Lemma onObserverEvent_spec a : consistent a ->
  wp (onObserverEvent opts parse by_class) (fun _ a' => consistent a') a.
Proof.
  intros Ha. unfold onObserverEvent. apply wp_bind, wp_modify, wp_bind, wp_modify, wp_bind.
  eapply wp_mono; [apply get_token_keeps|]. intros t a1 [H1 _].
  assert (consistent a1) as Hc.
  { eapply kept_consistent; [|exact Ha]. transitivity (set_bounds None (set_changed false a)); [by repeat split|done]. }
  apply wp_bind. eapply (wp_mono _ _ (fun _ a' => consistent a')).
  - destruct (_ <=? _); [by apply getUpdatedChoices_spec|]. apply keeps_spec; [|done].
    apply keeps_seq; [by apply keeps_modify; repeat split|apply keeps_hide].
  - intros [] a2 H2. apply wp_modify. eapply kept_consistent; [|exact H2]. by repeat split.
Qed.

(** ** Sessions *)
Definition allowed (e : event) (a : auto) : Prop :=
  match e with
  | EHover i | EClick i => 0 <= i < entryCount a
  | EAnswer c => answer_ok c
  | _ => True
  end.

Lemma step_spec e a : consistent a -> allowed e a -> wp (step e) (fun _ a' => consistent a') a.
Proof.
  intros Ha He. destruct e; simpl in *.
  1, 8: apply keeps_spec; [by apply keeps_modify; repeat split|done].
  - by apply onKeyPress_spec.
  - apply wp_bind, wp_get, wp_when; [intros _|done]. apply wp_bind, wp_modify. apply onObserverEvent_spec.
    eapply kept_consistent; [|exact Ha]. by repeat split.
  - apply wp_bind, wp_get. destruct (hides a); [by apply wp_ret|]. apply keeps_spec; [|done].
    apply keeps_seq; [by apply keeps_modify; repeat split|apply keeps_hide].
  - apply keeps_spec; [|done]. unfold onBlur. keep.
  - by apply onHover_spec.
  - by apply onClick_spec.
  - by apply updateChoices_spec.
  - unfold activate. apply wp_bind, wp_modify, wp_bind, wp_modify. apply getUpdatedChoices_spec.
    eapply kept_consistent; [|exact Ha]. by repeat split.
Qed.

End safe.

Section sessions.
Variable opts : options.
Variable parse : jstring -> list html.
Variable by_class : jstring -> html -> list html.
Variable webkit : bool.
Hypothesis Hsource : source_ok opts parse.
Notation step := (step opts parse by_class webkit).

Inductive session : auto -> Prop :=
  | session_start v : session (initial v)
  | session_step a e : session a -> allowed parse e a -> session (step e a).2.

(** The only exceptions are those for texts that cannot be encoded, and they leave
    the menu consistent. *)
Definition refused (e : exn) (a : auto) : Prop := e = URIError /\ consistent a.

Lemma step_refused e a : consistent a -> allowed parse e a -> wp refused (step e) (fun _ a' => consistent a') a.
Proof. by apply step_spec. Qed.

Lemma session_consistent a : session a -> consistent a.
Proof.
  induction 1 as [v|a e _ IH He].
  - apply inactive_consistent; [|done]. repeat split; simpl; try lia; done.
  - pose proof (step_refused e a IH He) as Hs. unfold wp in Hs.
    destruct (step e a) as [[[]|x] a']; simpl; [done|]. by destruct Hs.
Qed.

(** An answer in which there is no element. *)
Definition empty_answer (c : jstring) : Prop := clean_down (cleanWhitespace (parse c)) = None.

Lemma empty_answer_spec a c : empty_answer c -> changed a = false -> hasFocus a = true ->
  step (EAnswer c) a = (Exn TypeError, set_menu (cleanWhitespace (parse c)) a).
Proof.
  intros Hc Hch Hf. cbn [Auto.step]. unfold updateChoices, mbind, M_bind, get. rewrite Hch, Hf. cbn [negb andb when].
  unfold modify, need. unfold empty_answer in Hc. by rewrite Hc.
Qed.

(** C22: Through any typing, keys, timers, mouse events over entries, and answers
    that are lists (their first node an element whose children, blank texts
    apart, are elements), with local choices that are such lists too: the current
    index is the index of an entry, an active menu has entries of which exactly
    the current one is marked, and no handler throws, unless the text cannot be
    encoded.  An answer without any element, which no session here has, throws a
    TypeError and leaves the number of entries as it was. *)
Theorem menu_stays_consistent a e :
  session a -> allowed parse e a ->
  (consistent a /\ match step e a with
                   | (Val _, a') => consistent a'
                   | (Exn x, a') => x = URIError /\ consistent a'
                   end)
  /\ forall c, empty_answer c -> changed a = false -> hasFocus a = true ->
     exists a', step (EAnswer c) a = (Exn TypeError, a') /\ entryCount a' = entryCount a /\ active a' = active a.
Proof.
  intros Ha%session_consistent He. split.
  - split; [done|]. pose proof (step_refused e a Ha He) as Hs. unfold wp in Hs.
    by destruct (step e a) as [[[]|x] a'].
  - intros c Hc H1 H2. eexists. by rewrite empty_answer_spec.
Qed.

(** Moving the mark throws nothing. *)
Lemma moved_and_lit a (m : M auto unit) i :
  0 < entryCount a ->
  wp (fun _ _ => False) m (fun _ a' => (good a' /\ entryCount a' = entryCount a /\ active a' = true) /\ index a' = i) a ->
  exists a', (m;; render opts;; modify (log Stop)) a = (Val tt, a') /\ index a' = i /\
    active a' = true /\ lit a'.
Proof.
  intros Hc Hm. assert (wp (fun _ _ => False) (m;; render opts;; modify (log Stop))
    (fun _ a' => index a' = i /\ active a' = true /\ lit a') a) as Hw.
  { apply wp_bind. eapply wp_mono; [exact Hm|]. intros [] a1 [([Hs _] & Hn & Ha) Hi]. apply wp_bind.
    eapply wp_mono; [by apply render_spec|]. intros [] a2 ([_ Hl] & Hi2 & Hact). apply wp_modify.
    assert (active a2 = true) as Ha2 by (apply Hact; [lia|done]).
    split; [simpl; congruence|]. split; [exact Ha2|]. exact (Hl Ha2). }
  unfold wp in Hw. destruct ((m;; render opts;; modify (log Stop)) a) as [[[]|x] a']; [|done]. by exists a'.
Qed.

(** In an active menu the arrow keys move the mark around in a circle. *)
Theorem arrows_cycle a d k :
  session a -> active a = true -> (k, d) = (38, -1) \/ (k, d) = (40, 1) ->
  exists a', onKeyPress opts by_class webkit k a = (Val tt, a') /\
    index a' = (index a + d) mod entryCount a /\ active a' = true /\ lit a'.
Proof.
  intros [Hg _]%session_consistent Hact Hk. unfold onKeyPress, mbind at 1, M_bind at 1, get at 1. rewrite Hact.
  destruct Hk as [[= -> ->]|[= -> ->]]; cbn [Z.eqb orb]; apply moved_and_lit;
    try by apply Hg.
  - by apply markPrevious_spec.
  - by apply markNext_spec.
Qed.
End sessions.

(** ** A page *)
Section page.
(** Every character of an answer is an entry; answers without characters hold
    nothing. *)
Definition parse (s : jstring) : list html :=
  match s with [] => [] | _ => [El [] (map (fun c => El [] [Txt [c]]) s)] end.
Definition by_class (cls : jstring) (n : html) : list html := [].
Definition remote : options :=
  Options [[44]] 1 false false None false false (Remote (js "q") None None).
Definition run (l : list event) : auto :=
  fold_left (fun a e => (step remote parse by_class false e a).2) l (initial (js "")).

Lemma run_session l : Forall (fun e => match e with EHover _ | EClick _ => False | EAnswer c => answer_ok parse c | _ => True end) l ->
  session remote parse by_class false (run l).
Proof.
  unfold run. generalize (session_start remote parse by_class false (js "")).
  generalize (initial (js "")) as a. induction l as [|e l IH]; intros a Ha Hl; [done|].
  apply Forall_cons in Hl as [He Hl]. apply IH; [|done]. apply session_step; [done|]. by destruct e.
Qed.

Lemma xyz_ok : answer_ok parse (js "xyz").
Proof. eexists [], _, []. split; [by vm_compute|]. by repeat constructor. Qed.

Definition typed : list event := [EKey 65; EInput (js "a"); EObserver; EAnswer (js "xyz")].

Lemma menu_stays_consistent_witness :
  exists a, session remote parse by_class false a /\ active a = true /\ consistent a.
Proof.
  exists (run typed). assert (session remote parse by_class false (run typed)) as Hs.
  { apply run_session. repeat constructor. exact xyz_ok. }
  split; [exact Hs|]. split; [by vm_compute|].
  destruct (menu_stays_consistent remote parse by_class false I (run typed) (EKey 40) Hs I) as [[Hc _] _]. exact Hc.
Defined.

Lemma arrows_cycle_witness :
  exists a a', session remote parse by_class false a /\
    onKeyPress remote by_class false 38 a = (Val tt, a') /\ index a' = 2 /\ active a' = true /\ lit a'.
Proof.
  exists (run typed). assert (session remote parse by_class false (run typed)) as Hs.
  { apply run_session. repeat constructor. exact xyz_ok. }
  destruct (arrows_cycle remote parse by_class false I (run typed) (-1) 38 Hs) as (a' & H1 & H2 & H3);
    [by vm_compute|by left|].
  exists a'. split; [exact Hs|]. split; [exact H1|]. split; [by rewrite H2; vm_compute|exact H3].
Defined.

(** The answer to an earlier request, coming late, replaces the newer choices. *)
Lemma stale_choices :
  let a := run [EKey 65; EInput (js "a"); EObserver; EKey 66; EInput (js "ab"); EObserver;
                EAnswer (js "12"); EAnswer (js "xyz")] in
  value a = js "ab" /\ calls a !! 1%nat = Some (Request (js "q=ab")) /\ entryCount a = 3.
Proof. by vm_compute. Qed.

(** An answer without an element is not taken as one without choices: it throws,
    and the number of entries is that of the old menu. *)
Lemma empty_answer_throws :
  let a := run typed in
  let '(r, a') := step remote parse by_class false (EAnswer []) a in
  r = Exn TypeError /\ menu a' = [] /\ entryCount a' = 3 /\ active a' = true.
Proof. by vm_compute. Qed.
End page.
End AutoSafe.
