(* ===== verification/ProtoStyle.v ===== *)
(** * Styles of elements

    The methods of Prototype that read and write the inline style of an element:
    visibility, opacity, positioning and clipping.  A page is a heap of elements
    with their inline styles and the marks that the methods leave on them; the
    style that the browser computes is a parameter. *)
From Stdlib Require Export QArith Qround Lqa.
From S2P Require Import Prelude JsString ProtoText FxQueue.
Open Scope Z_scope.

Module Style.
Import Fx.

(** Values of style properties: a word, a number, a length with its unit.  The
    empty word is what an unset property reads as. *)
Inductive css := Word (s : jstring) | Num (q : Q) | Len (q : Q) (unit : jstring).

Record elem := Elem {
  style : gmap jstring css;
  madePositioned : bool;            (** [_madePositioned] *)
  overflow : option css             (** [_overflow] *)
}.
Notation elements := (gmap nat elem).

Definition empty_elem : elem := Elem ∅ false None.
Definition at_el (p : elements) (el : nat) : elem := default empty_elem (p !! el).

(** [element.style[k]] and its assignment *)
Definition inline (e : elem) (k : jstring) : css := default (Word []) (style e !! k).
Definition write (k : jstring) (v : css) (e : elem) : elem :=
  Elem (<[k := v]> (style e)) (madePositioned e) (overflow e).

Definition k_display := js "display".
Definition k_opacity := js "opacity".
Definition k_position := js "position".
Definition k_overflow := js "overflow".
Definition k_top := js "top".
Definition k_left := js "left".
Definition k_bottom := js "bottom".
Definition k_right := js "right".
Definition k_width := js "width".
Definition k_height := js "height".
Definition k_fontSize := js "fontSize".

Definition is_word (w : jstring) (v : css) : bool :=
  match v with Word s => bool_decide (s = w) | _ => false end.
(** [!value], for a property that was read *)
Definition unset (v : css) : bool := is_word [] v.

(** The style that the browser computes for an element. *)
Section styles.
Variable computed : elem -> jstring -> option css.

(** src/piql/scadr/src/main/rails/public/javascripts/prototype.js:1578-1580
    [visible()] *)
Definition visible (e : elem) : bool := negb (is_word (js "none") (inline e k_display)).

(** src/piql/scadr/src/main/rails/public/javascripts/prototype.js:1588-1592
    [hide()] *)
Definition hide (e : elem) : elem := write k_display (Word (js "none")) e.

(** src/piql/scadr/src/main/rails/public/javascripts/prototype.js:1594-1598
    [show()] *)
Definition show (e : elem) : elem := write k_display (Word []) e.

(** src/piql/scadr/src/main/rails/public/javascripts/prototype.js:1582-1586
    [toggle()] *)
Definition toggle (e : elem) : elem := if visible e then hide e else show e.

(** src/piql/scadr/src/main/rails/public/javascripts/prototype.js:1900-1910
    [getStyle(style)], for a property other than the opacity; [None] is null. *)
Definition getStyle (name : jstring) (e : elem) : option css :=
  let style := if bool_decide (name = js "float") then js "cssFloat" else Text.camelize name in
  let value := inline e style in
  let value := if unset value || is_word (js "auto") value then computed e style else Some value in
  match value with
  | Some v => if is_word (js "auto") v then None else Some v
  | None => None
  end.

(** src/piql/scadr/src/main/rails/public/javascripts/prototype.js:1912-1914
    [getOpacity()]: a number; a word is no opacity. *)
Definition getOpacity (e : elem) : Q :=
  let value := inline e k_opacity in
  let value := if unset value || is_word (js "auto") value then computed e k_opacity else Some value in
  match value with Some (Num q) => q | _ => 1 end.

(** src/piql/scadr/src/main/rails/public/javascripts/effects.js:50-52
    [getInlineOpacity()] *)
Definition getInlineOpacity (e : elem) : css := inline e k_opacity.

Definition opacity_value (value : css) : css :=
  match value with
  | Num q => if decide (q == 1)%Q then Word [] else if decide (q < 1#100000)%Q then Num 0 else Num q
  | v => v
  end.

(** src/piql/scadr/src/main/rails/public/javascripts/prototype.js:1934-1939
    [setOpacity(value)] *)
Definition setOpacity (value : css) (e : elem) : elem := write k_opacity (opacity_value value) e.

(** src/piql/scadr/src/main/rails/public/javascripts/prototype.js:1916-1932
    [setStyle(styles)], for an object with camelized names *)
Definition setStyle (styles : list (jstring * css)) (e : elem) : elem :=
  fold_left (fun e s => if bool_decide (s.1 = k_opacity) then setOpacity s.2 e else write s.1 s.2 e) styles e.

(** src/piql/scadr/src/main/rails/public/javascripts/prototype.js:1964-1978
    [makePositioned()], in other browsers than Opera *)
Definition makePositioned (e : elem) : elem :=
  match getStyle k_position e with
  | Some pos =>
      if is_word (js "static") pos || unset pos
      then write k_position (Word (js "relative")) (Elem (style e) true (overflow e))
      else e
  | None => write k_position (Word (js "relative")) (Elem (style e) true (overflow e))
  end.

(** src/piql/scadr/src/main/rails/public/javascripts/prototype.js:1980-1991
    [undoPositioned()] *)
Definition undoPositioned (e : elem) : elem :=
  if madePositioned e then
    write k_position (Word []) (write k_top (Word []) (write k_left (Word [])
      (write k_bottom (Word []) (write k_right (Word []) (Elem (style e) false (overflow e))))))
  else e.

(** src/piql/scadr/src/main/rails/public/javascripts/prototype.js:1993-2000
    [makeClipping()] *)
Definition makeClipping (e : elem) : elem :=
  match overflow e with
  | Some _ => e
  | None =>
      let v := match getStyle k_overflow e with
               | Some v => if unset v then Word (js "auto") else v
               | None => Word (js "auto")
               end in
      let e := Elem (style e) (madePositioned e) (Some v) in
      if is_word (js "hidden") v then e else write k_overflow (Word (js "hidden")) e
  end.

(** src/piql/scadr/src/main/rails/public/javascripts/prototype.js:2002-2008
    [undoClipping()] *)
Definition undoClipping (e : elem) : elem :=
  match overflow e with
  | None => e
  | Some v =>
      write k_overflow (if is_word (js "auto") v then Word [] else v) (Elem (style e) (madePositioned e) None)
  end.

(** ** Lemmas *)
Lemma inline_write k k' v e : inline (write k v e) k' = if decide (k' = k) then v else inline e k'.
Proof.
  unfold inline, write. simpl. destruct (decide (k' = k)) as [->|Hk].
  - by rewrite lookup_insert_eq.
  - by rewrite lookup_insert_ne.
Qed.


(** Clipping and its undoing: the overflow becomes what it was read as. *)
Lemma clipping_keeps k e : k <> k_overflow -> inline (makeClipping e) k = inline e k.
Proof.
  intros Hk. unfold makeClipping. destruct (overflow e); [done|]. destruct (is_word _ _); [done|].
  rewrite inline_write, decide_False by done. done.
Qed.

Lemma unclipping_keeps k e : k <> k_overflow -> inline (undoClipping e) k = inline e k.
Proof.
  intros Hk. unfold undoClipping. destruct (overflow e); [|done].
  rewrite inline_write, decide_False by done. done.
Qed.
End styles.
End Style.
