(* ===== verification/FxKinds.v ===== *)
(** * The kinds of effects

    Opacity, Move and Scale as kinds of the effects of [FxQueue], on a page of
    styled elements, and the effects combined from them: Fade, Appear, BlindUp and
    BlindDown.  Each combined effect is a kind with options whose handlers restore
    the element at the end.  Options of the caller may change times, queues, the
    range and the handlers for the page. *)
From S2P Require Import Prelude JsString FxQueue FxInv FxTick FxTime ProtoStyle.
Open Scope Z_scope.

Module FxKinds.
Import Fx FxTime Style.

(** ** Pages with effects *)
Inductive scale_mode := Box | Contents | Given (originalHeight originalWidth : Q).

Record scale_options := ScaleOptions {
  scaleX : bool; scaleY : bool; scaleContent : bool; scaleFromCenter : bool;
  scaleMode : scale_mode; scaleFrom : Q; scaleTo : Q; restoreAfterFinish : bool
}.

Inductive kind :=
  | Opacity (el : nat)
  | Move (el : nat) (x y : Q) (absolute : bool)
  | Scale (el : nat) (o : scale_options).

(** The handlers of the combined effects, and those of the page. *)
Inductive fn (U : Type) :=
  | FadeEnd (to : Q) (old : css) | AppearStart (from : Q) | AppearEnd
  | BlindUpEnd | BlindDownStart | BlindDownEnd | User (u : U).
Arguments FadeEnd {U} _ _.
Arguments AppearStart {U} _.
Arguments AppearEnd {U}.
Arguments BlindUpEnd {U}.
Arguments BlindDownStart {U}.
Arguments BlindDownEnd {U}.
Arguments User {U} _.

(** What setup notes in the effect. *)
Inductive fields :=
  | Moved (left0 top0 x y : Q)
  | Scaled (original : list (jstring * css)) (position : option css) (top0 left0 : Q)
      (fontSize : option (Q * jstring)) (factor : Q) (height width : Q).

Record site := Site { elems : elements; notes : gmap nat fields }.

Definition on_elem (el : nat) (f : elem -> elem) (p : site) : site :=
  Site (<[el := f (at_el (elems p) el)]> (elems p)) (notes p).
Definition note (id : nat) (v : fields) (p : site) : site := Site (elems p) (<[id := v]> (notes p)).

(** The layout of the browser. *)
Record layout := Layout {
  offsetTop : Q; offsetLeft : Q; offsetHeight : Q; offsetWidth : Q; scrollHeight : Q; scrollWidth : Q
}.

Section kinds.
Context {U : Type}.
Variable computed : elem -> jstring -> option css.
Variable lay_out : elem -> layout.
Variable user : U -> nat -> site -> site.

Notation getStyle := (getStyle computed).
Notation getOpacity := (getOpacity computed).
Notation makeClipping := (makeClipping computed).
Notation makePositioned := (makePositioned computed).

(** [parseFloat(v || '0')] *)
Definition number (v : option css) : Q := match v with Some (Num q) | Some (Len q _) => q | _ => 0 end.
Definition px (q : Z) : css := Len (inject_Z q) (js "px").

(** The element of an effect. *)
Definition element_of (k : kind) : nat := match k with Opacity el | Move el _ _ _ | Scale el _ => el end.

(** src/piql/scadr/src/main/rails/public/javascripts/effects.js:383-391
    [setup()] of Move *)
Definition setup_move (el : nat) (x y : Q) (absolute : bool) (id : nat) (p : site) : site :=
  let p := on_elem el makePositioned p in
  let e := at_el (elems p) el in
  let left0 := number (getStyle k_left e) in
  let top0 := number (getStyle k_top e) in
  note id (if absolute then Moved left0 top0 (x - left0) (y - top0) else Moved left0 top0 x y) p.

Definition scale_keys : list jstring := [k_top; k_left; k_width; k_height; k_fontSize].

(** [fontSize.indexOf(type) > 0], for the types tried in this order: the last that
    is found counts. *)
Definition font_size (v : option css) : option (Q * jstring) :=
  match v with
  | Some (Len q u) => if bool_decide (u ∈ [js "em"; js "px"; js "%"; js "pt"]) then Some (q, u) else None
  | Some _ => None
  | None => Some (100%Q, js "%")
  end.

(** src/piql/scadr/src/main/rails/public/javascripts/effects.js:421-451
    [setup()] of Scale *)
Definition setup_scale (el : nat) (o : scale_options) (id : nat) (p : site) : site :=
  let e := at_el (elems p) el in
  let l := lay_out e in
  let '(h, w) := match scaleMode o with
                 | Box => (offsetHeight l, offsetWidth l)
                 | Contents => (scrollHeight l, scrollWidth l)
                 | Given h w => (h, w)
                 end in
  note id (Scaled (map (fun k => (k, inline e k)) scale_keys) (getStyle k_position e) (offsetTop l) (offsetLeft l)
             (font_size (getStyle (js "font-size") e)) ((scaleTo o - scaleFrom o) / 100) h w) p.

Definition do_setup (k : kind) (id : nat) (p : site) : site :=
  match k with
  | Opacity _ => p
  | Move el x y a => setup_move el x y a id p
  | Scale el o => setup_scale el o id p
  end.

(** src/piql/scadr/src/main/rails/public/javascripts/effects.js:461-477
    [setDimensions(height, width)]: the styles that are set *)
Definition setDimensions (o : scale_options) (position : option css) (top0 left0 h0 w0 : Q) (height width : Q)
  : list (jstring * css) :=
  let topd := ((height - h0) / 2)%Q in
  let leftd := ((width - w0) / 2)%Q in
  let len q := Len q (js "px") in
  (if scaleX o then [(k_width, px (round width))] else [])
  ++ (if scaleY o then [(k_height, px (round height))] else [])
  ++ (if scaleFromCenter o then
        if match position with Some v => is_word (js "absolute") v | None => false end then
          (if scaleY o then [(k_top, len (top0 - topd)%Q)] else [])
          ++ (if scaleX o then [(k_left, len (left0 - leftd)%Q)] else [])
        else
          (if scaleY o then [(k_top, len (- topd)%Q)] else [])
          ++ (if scaleX o then [(k_left, len (- leftd)%Q)] else [])
      else []).

(** src/piql/scadr/src/main/rails/public/javascripts/effects.js:392-397
    [update(position)] of Move: the styles that are set *)
Definition move_styles (left0 top0 x y : Q) (pos : Q) : list (jstring * css) :=
  [(k_left, px (round (x * pos + left0))); (k_top, px (round (y * pos + top0)))].

(** src/piql/scadr/src/main/rails/public/javascripts/effects.js:452-457
    [update(position)] of Scale: the styles that are set *)
Definition scale_styles (o : scale_options) (f : fields) (pos : Q) : list (jstring * css) :=
  match f with
  | Scaled _ position top0 left0 font factor h w =>
      let s := (scaleFrom o / 100 + factor * pos)%Q in
      match font with
      | Some (q, u) =>
          if scaleContent o && negb (bool_decide (q == 0)%Q) then [(k_fontSize, Len (q * s) u)] else []
      | None => []
      end ++ setDimensions o position top0 left0 h w (h * s) (w * s)
  | Moved _ _ _ _ => []
  end.

Definition do_update (k : kind) (id : nat) (pos : Q) (p : site) : site :=
  match k, notes p !! id with
  | Opacity el, _ => on_elem el (setOpacity (Num pos)) p
  | Move el _ _ _, Some (Moved left0 top0 x y) => on_elem el (setStyle (move_styles left0 top0 x y pos)) p
  | Scale el o, Some f => on_elem el (setStyle (scale_styles o f pos)) p
  | _, _ => p
  end.

(** src/piql/scadr/src/main/rails/public/javascripts/effects.js:458-460
    [finish(position)] of Scale; the other kinds have none. *)
Definition do_finish (k : kind) (id : nat) (p : site) : site :=
  match k, notes p !! id with
  | Scale el o, Some (Scaled original _ _ _ _ _ _ _) =>
      if restoreAfterFinish o then on_elem el (setStyle original) p else p
  | _, _ => p
  end.

(** ** Combined effects *)
(** A handler is a closure over the element of its effect. *)
Definition closure : Type := nat * fn U.
Definition opts_of := options closure.

(** What the caller's options say; [None] leaves the default. *)
Record given := Given_ {
  g_from : option Q; g_to : option Q; g_delay : option Q; g_duration : option Q; g_queue : option queue_option;
  g_transition : option (option (Q -> Q)); g_handler : hook -> option U
}.

Variable sinoidal : Q -> Q.

(** src/piql/scadr/src/main/rails/public/javascripts/effects.js:98-106
    [DefaultOptions] *)
Definition DefaultOptions : opts_of :=
  Options 0 1 0 1 100 false (Named Elsewhere) (Some sinoidal) (fun _ => None) (fun _ => None).

(** The options of a combined effect: the defaults, its own range and handlers,
    and on top of them the caller's. *)
Definition extend (el : nat) (from to : Q) (internal handler : hook -> option closure) (g : given) : opts_of :=
  Options (default from (g_from g)) (default to (g_to g)) (default 0%Q (g_delay g)) (default 1%Q (g_duration g)) 100 false
    (default (Named Elsewhere) (g_queue g)) (default (Some sinoidal) (g_transition g)) internal
    (fun ev => match g_handler g ev with Some u => Some (el, User u) | None => handler ev end).

Definition at_hook (ev : hook) (f : closure) (ev' : hook) : option closure :=
  if decide (ev' = ev) then Some f else None.
Definition no_hook (ev : hook) : option closure := None.

(** [element.getOpacity() || 1.0] *)
Definition opacity_or (e : elem) (d : Q) : Q := let q := getOpacity e in if decide (q == 0)%Q then d else q.

(** src/piql/scadr/src/main/rails/public/javascripts/effects.js:532-544
    [Effect.Fade(element, options)]: the effect that is started *)
Definition Fade (el : nat) (g : given) (p : site) : kind * opts_of :=
  let e := at_el (elems p) el in
  let oldOpacity := getInlineOpacity e in
  let to := default 0%Q (g_to g) in
  (Opacity el, extend el (opacity_or e 1) 0 (at_hook AfterFinish (el, FadeEnd to oldOpacity)) no_hook g).

(** src/piql/scadr/src/main/rails/public/javascripts/effects.js:546-559
    [Effect.Appear(element, options)] *)
Definition Appear (el : nat) (g : given) (p : site) : kind * opts_of :=
  let e := at_el (elems p) el in
  let from := match getStyle k_display e with
              | Some v => if is_word (js "none") v then 0%Q else opacity_or e 0
              | None => opacity_or e 0
              end in
  (Opacity el, extend el from 1 (at_hook AfterFinish (el, AppearEnd))
     (at_hook BeforeSetup (el, AppearStart (default from (g_from g)))) g).

(** src/piql/scadr/src/main/rails/public/javascripts/effects.js:585-597
    [Effect.BlindUp(element, options)]: the element is clipped at once. *)
Definition BlindUp (el : nat) (g : given) (p : site) : site * (kind * opts_of) :=
  let p := on_elem el makeClipping p in
  (p, (Scale el (ScaleOptions false true false false Box 100 0 true),
       extend el 0 1 (at_hook AfterFinish (el, BlindUpEnd)) no_hook g)).

(** src/piql/scadr/src/main/rails/public/javascripts/effects.js:599-615
    [Effect.BlindDown(element, options)]; [dims] is what getDimensions measures. *)
Definition BlindDown (el : nat) (g : given) (dims : Q * Q) : kind * opts_of :=
  (Scale el (ScaleOptions false true false false (Given dims.1 dims.2) 0 100 true),
   extend el 0 1 (at_hook AfterFinish (el, BlindDownEnd)) (at_hook AfterSetup (el, BlindDownStart)) g).

(** The handlers *)
Definition run_fn (c : closure) (id : nat) (p : site) : site :=
  let el := c.1 in
  match c.2 with
  | FadeEnd to old =>
      if decide (to == 0)%Q then on_elem el (fun e => setStyle [(k_opacity, old)] (hide e)) p else p
  | AppearStart from => on_elem el (fun e => show (setOpacity (Num from) e)) p
  | AppearEnd => p
  | BlindUpEnd => on_elem el (fun e => undoClipping (hide e)) p
  | BlindDownStart => on_elem el (fun e => show (setStyle [(k_height, Len 0 (js "px"))] (makeClipping e))) p
  | BlindDownEnd => on_elem el undoClipping p
  | User u => user u id p
  end.

End kinds.
End FxKinds.
