(* ===== verification/FxLook.v ===== *)
(** * What is left of an effect

    After a combined effect has run, the inline style of its element is what it was
    before, but for what the effect is there to change.  [Color] has the colours of
    effects. *)
From S2P Require Import Prelude JsString Location ProtoText ProtoStr ProtoRange FxQueue FxInv FxTick FxTime ProtoStyle FxKinds.
Open Scope Z_scope.

Module FxLook.
Import Fx FxInv FxTick FxTime Style FxKinds.

(** ** Pages that differ in some styles of one element *)
Definition agree (ks : list jstring) (el : nat) (p p' : site) : Prop :=
  (forall j, j <> el -> at_el (elems p') j = at_el (elems p) j) /\
  (forall k, k ∉ ks -> inline (at_el (elems p') el) k = inline (at_el (elems p) el) k) /\
  overflow (at_el (elems p') el) = overflow (at_el (elems p) el).

#[global] Instance agree_preorder ks el : PreOrder (agree ks el).
Proof.
  split; [done|]. intros p1 p2 p3 (H1 & H2 & H3) (H1' & H2' & H3'). split; [|split].
  - intros j Hj. by rewrite H1', H1.
  - intros k Hk. by rewrite H2', H2.
  - congruence.
Qed.

Lemma at_on_elem el f p j :
  at_el (elems (on_elem el f p)) j = if decide (j = el) then f (at_el (elems p) el) else at_el (elems p) j.
Proof.
  unfold at_el at 1, on_elem. simpl. destruct (decide (j = el)) as [->|Hj].
  - by rewrite lookup_insert_eq.
  - by rewrite lookup_insert_ne.
Qed.

Lemma agree_on_elem ks el f p :
  (forall e k, k ∉ ks -> inline (f e) k = inline e k) -> (forall e, overflow (f e) = overflow e) ->
  agree ks el p (on_elem el f p).
Proof.
  intros Hf Ho. split; [|split].
  - intros j Hj. by rewrite at_on_elem, decide_False.
  - intros k Hk. rewrite at_on_elem, decide_True by done. by apply Hf.
  - by rewrite at_on_elem, decide_True.
Qed.

Lemma overflow_setStyle l : forall e, overflow (setStyle l e) = overflow e.
Proof. induction l as [|[k v] l IH]; intros e; [done|]. simpl. rewrite IH. by destruct (bool_decide _). Qed.

Lemma setStyle_other l k : k ∉ map fst l -> forall e, inline (setStyle l e) k = inline e k.
Proof.
  induction l as [|[k' v] l IH]; intros Hk e; [done|]. apply not_elem_of_cons in Hk as [Hne Hk]. simpl.
  rewrite IH by done. simpl in Hne.
  destruct (bool_decide (k' = k_opacity)) eqn:E; [apply bool_decide_eq_true in E as ->; unfold setOpacity|];
    by rewrite inline_write, decide_False.
Qed.

(** Setting every key of a list to what a page says. *)
Lemma setStyle_back (g : jstring -> css) ks k : k ∈ ks -> k_opacity ∉ ks -> forall e,
  inline (setStyle (map (fun k => (k, g k)) ks) e) k = g k.
Proof.
  intros Hk Ho. revert Hk. induction ks as [|k' ks IH]; intros Hk e; [by apply elem_of_nil in Hk|].
  apply not_elem_of_cons in Ho as [Hne Ho]. simpl. rewrite bool_decide_eq_false_2 by done.
  destruct (decide (k ∈ ks)) as [Hin|Hin]; [by apply IH|]. apply elem_of_cons in Hk as [->|Hk]; [|done].
  rewrite setStyle_other by (by rewrite map_map, map_id). by rewrite inline_write, decide_True.
Qed.

Section look.
Context {U : Type}.
Variable computed : elem -> jstring -> option css.
Variable lay_out : elem -> layout.
Variable user : U -> nat -> site -> site.
Variable sinoidal : Q -> Q.

Notation hf := (run_fn computed user).
Notation sf := (do_setup computed lay_out).
Notation world := (world (@closure U) kind site).
Notation effect := (effect (@closure U) kind).
Notation watch := (watch hf sf do_update do_finish).
Notation enter := (enter hf sf).
Notation frame_at := (frame_at hf do_update).
Notation leave := (leave hf do_finish).
Notation fire := (fire hf).

(** The caller leaves the range and the handlers alone. *)
Definition only_times (g : @given U) : Prop :=
  g_from g = None /\ g_to g = None /\ g_transition g = None /\ forall ev, g_handler g ev = None.

(** An effect that was created with kind [k] and options [o] and is still to start. *)
Definition fresh (w : world) (id : nat) (e : effect) (k : kind) (o : opts_of) : Prop :=
  heap w !! id = Some e /\ Fx.kind e = Of k /\ opts e = o /\ state e = Idle /\ currentFrame e = 0 /\
  is_Some (scope_of o) /\ timed e /\ (startOn e <= finishOn e)%Q /\ fromToDelta e = (to o - from o)%Q.

(** The effect is looked at in order of time, the last time after its end. *)
Definition looked (e : effect) (ts : list Z) : Prop :=
  (exists t0, rising t0 ts) /\ exists t, t ∈ ts /\ (finishOn e <= inject_Z t)%Q.

(** A run in full: the setup, the frames, the last at 1, the end. *)
Lemma full_run w id e k o ts :
  fresh w id e k o -> looked e ts ->
  exists ps, page (watch id ts w) =
    leave k o id (frame_at k e id (fold_left (frame_at k e id) ps (enter k o id (page w))) 1%Q).
Proof.
  intros (He & Hk & Ho & Hs & Hc & Hsc & Ht & Hsf & _) ([t0 Hr] & t & Hin & Hf).
  pose proof (frames_last e ts t Hin Hsf Hf 0) as Hl.
  assert (ends e ts = true) as Hends.
  { unfold ends. apply existsb_exists. exists t. split; [by apply list_elem_of_In|].
    rewrite !bool_decide_eq_true_2 by lra. done. }
  rewrite (watch_play hf sf do_update do_finish id k ts w e He Hk) by (rewrite ?Hs, ?Ho; done).
  rewrite Hc, Hends. apply last_Some in Hl as [ps ->]. exists ps. unfold play. rewrite decide_True, Ho by done.
  rewrite fold_left_app. by destruct ps.
Qed.

(** ** Handlers *)
Lemma fire_none o ev id p : internal o ev = None -> handler o ev = None -> fire o ev id p = p.
Proof. unfold FxTime.fire. by intros -> ->. Qed.

Lemma frame_plain k e id p pos :
  (forall ev, ev = BeforeUpdate \/ ev = AfterUpdate -> internal (opts e) ev = None /\ handler (opts e) ev = None) ->
  frame_at k e id p pos = do_update k id (value_at e pos) p.
Proof.
  intros Hn. unfold FxTime.frame_at. destruct (Hn BeforeUpdate) as [? ?]; [by left|]. destruct (Hn AfterUpdate) as [? ?]; [by right|].
  by rewrite !fire_none.
Qed.

Lemma frames_agree ks k e id ps : 
  (forall p pos, agree ks (element_of k) p (frame_at k e id p pos)) ->
  forall p, agree ks (element_of k) p (fold_left (frame_at k e id) ps p).
Proof.
  intros Hf. induction ps as [|x ps IH]; intros p; [done|]. simpl. etransitivity; [apply (Hf p x)|apply IH].
Qed.

Lemma opacity_agree el q p : agree [k_opacity] el p (on_elem el (setOpacity q) p).
Proof.
  apply agree_on_elem; [|done]. intros e k Hk. unfold setOpacity. rewrite inline_write, decide_False; [done|].
  by intros ->; apply Hk, list_elem_of_here.
Qed.

(** Reads of styles after writes. *)
Ltac reads := repeat first
  [ rewrite at_on_elem | rewrite inline_write
  | rewrite decide_True by done | rewrite decide_False by done
  | rewrite bool_decide_eq_true_2 by done | progress cbn [fold_left fst snd]
  | progress unfold setStyle, hide, show, setOpacity ].

(** ** Fade and Appear *)

(** Fade hides the element and gives it back the opacity it had inline; all other
    styles and all other elements are as before. *)
Theorem fade_restores w id e el g ts :
  let '(k, o) := Fade computed sinoidal el g (page w) in
  fresh w id e k o -> looked e ts -> only_times g ->
  let p := elems (page w) in let p' := elems (page (watch id ts w)) in
  inline (at_el p' el) k_display = Word (js "none") /\
  inline (at_el p' el) k_opacity = opacity_value (inline (at_el p el) k_opacity) /\
  (forall k, k <> k_display -> k <> k_opacity -> inline (at_el p' el) k = inline (at_el p el) k) /\
  (forall j, j <> el -> at_el p' j = at_el p j).
Proof.
  unfold Fade. intros Hfr Hl (Hgf & Hgt & _ & Hgh). cbv zeta.
  destruct (full_run w id e _ _ ts Hfr Hl) as [ps ->]. destruct Hfr as (_ & _ & Ho & _).
  set (o := extend _ _ _ _ _ _ _) in *. set (p0 := page w).
  assert (forall ev, ev <> AfterFinish -> internal o ev = None /\ handler o ev = None) as Hno.
  { intros ev Hev. unfold o, extend, at_hook. simpl. rewrite Hgh. by rewrite decide_False. }
  assert (forall p pos, frame_at (Opacity el) e id p pos = on_elem el (setOpacity (Num (value_at e pos))) p) as Hfm.
  { intros p pos. rewrite frame_plain; [done|]. intros ev Hev. rewrite Ho. apply Hno. by destruct Hev as [->| ->]. }
  assert (enter (Opacity el) o id p0 = p0) as ->.
  { unfold FxTime.enter. destruct (Hno BeforeSetup) as [? ?]; [done|]. destruct (Hno AfterSetup) as [? ?]; [done|].
    by rewrite !fire_none. }
  rewrite Hfm. set (p1 := fold_left _ ps p0).
  assert (agree [k_opacity] el p0 (on_elem el (setOpacity (Num (value_at e 1))) p1)) as Ha.
  { etransitivity; [|apply opacity_agree]. apply (frames_agree [k_opacity] (Opacity el)). intros p pos. rewrite Hfm. apply opacity_agree. }
  set (p2 := on_elem el _ p1) in *.
  assert (leave (Opacity el) o id p2 = on_elem el (fun e => setStyle [(k_opacity, inline (at_el (elems p0) el) k_opacity)] (hide e)) p2) as ->.
  { unfold FxTime.leave. destruct (Hno BeforeFinish) as [? ?]; [done|]. rewrite (fire_none o BeforeFinish) by done.
    unfold FxTime.fire, o, extend, at_hook. simpl. rewrite Hgh, Hgt. simpl. done. }
  destruct Ha as (H1 & H2 & _). split; [by reads|]. split; [by reads|]. split.
  - intros k Hd Hop. reads. apply H2. by intros ->%list_elem_of_singleton.
  - intros j Hj. reads. by apply H1.
Qed.

Hypothesis sinoidal_end : (sinoidal 1 == 1)%Q.

Lemma value_at_end (e : effect) (o : @opts_of U) : opts e = o -> transition o = Some sinoidal -> fromToDelta e = (to o - from o)%Q ->
  (value_at e 1 == to o)%Q.
Proof. intros Ho Ht Hd. unfold value_at. rewrite Ho, Ht, Hd. simpl. rewrite sinoidal_end. ring. Qed.

(** Appear shows the element, fully opaque; all other styles and all other
    elements are as before. *)
Lemma appear_shows w id e el g ts :
  let '(k, o) := Appear computed sinoidal el g (page w) in
  fresh w id e k o -> looked e ts -> only_times g ->
  let p := elems (page w) in let p' := elems (page (watch id ts w)) in
  inline (at_el p' el) k_display = Word [] /\ inline (at_el p' el) k_opacity = Word [] /\
  (forall k, k <> k_display -> k <> k_opacity -> inline (at_el p' el) k = inline (at_el p el) k) /\
  (forall j, j <> el -> at_el p' j = at_el p j).
Proof.
  unfold Appear. set (from := match _ with Some _ => _ | None => _ end).
  intros Hfr Hl (Hgf & Hgt & Hgtr & Hgh). cbv zeta.
  destruct (full_run w id e _ _ ts Hfr Hl) as [ps ->]. destruct Hfr as (_ & _ & Ho & _ & _ & _ & _ & _ & Hd).
  set (o := extend _ _ _ _ _ _ _) in *. set (p0 := page w).
  assert (forall ev, ev <> AfterFinish -> ev <> BeforeSetup -> internal o ev = None /\ handler o ev = None) as Hno.
  { intros ev Hev Hev'. unfold o, extend, at_hook. simpl. rewrite Hgh. by rewrite !decide_False. }
  assert (forall p pos, frame_at (Opacity el) e id p pos = on_elem el (setOpacity (Num (value_at e pos))) p) as Hfm.
  { intros p pos. rewrite frame_plain; [done|]. intros ev Hev. rewrite Ho. by apply Hno; destruct Hev as [->| ->]. }
  assert (enter (Opacity el) o id p0 = on_elem el (fun e => show (setOpacity (Num from) e)) p0) as ->.
  { unfold FxTime.enter. destruct (Hno AfterSetup) as [? ?]; [done|done|]. rewrite (fire_none o AfterSetup) by done.
    unfold FxTime.fire, o, extend, at_hook. simpl. by rewrite Hgh, Hgf. }
  set (p1 := on_elem el _ p0).
  assert (agree [k_opacity] el p1 (fold_left (frame_at (Opacity el) e id) ps p1)) as (H1 & H2 & _).
  { apply (frames_agree [k_opacity] (Opacity el)). intros p pos. rewrite Hfm. apply opacity_agree. }
  set (p2 := fold_left _ ps p1) in *. rewrite Hfm.
  assert (forall p, leave (Opacity el) o id p = p) as ->.
  { intros p. unfold FxTime.leave. destruct (Hno BeforeFinish) as [? ?]; [done|done|]. rewrite (fire_none o BeforeFinish) by done.
    unfold FxTime.fire, o, extend, at_hook. simpl. by rewrite Hgh. }
  assert (value_at e 1 == 1)%Q as Hv.
  { rewrite (value_at_end e o); [|done|by unfold o, extend; simpl; rewrite Hgtr|done].
    unfold o, extend. simpl. by rewrite Hgt. }
  assert (forall k, k <> k_opacity -> inline (at_el (elems p2) el) k = inline (at_el (elems p1) el) k) as H2'.
  { intros k Hk. apply H2. by intros ->%list_elem_of_singleton. }
  split; [|split; [|split]].
  - reads. rewrite H2' by done. unfold p1. by reads.
  - reads. unfold opacity_value. by rewrite decide_True.
  - intros k Hkd Hko. reads. rewrite H2' by done. unfold p1. by reads.
  - intros j Hj. reads. rewrite H1 by done. unfold p1. by reads.
Qed.

(** ** BlindUp *)
Lemma notes_fold k e id ps p : 
  (forall p pos, notes (frame_at k e id p pos) = notes p) -> notes (fold_left (frame_at k e id) ps p) = notes p.
Proof. intros Hf. revert p. induction ps as [|x ps IH]; intros p; [done|]. simpl. by rewrite IH, Hf. Qed.

Lemma notes_update k id pos p : notes (do_update k id pos p) = notes p.
Proof. unfold do_update. by destruct k, (notes p !! id) as [[]|]. Qed.

(** BlindUp scales the height, and only that. *)
Lemma only_height el m id pos p :
  agree [k_height] el p (do_update (Scale el (ScaleOptions false true false false m 100 0 true)) id pos p).
Proof.
  unfold do_update. destruct (notes p !! id) as [[|]|]; [| |done]; apply agree_on_elem; try apply overflow_setStyle.
  - done.
  - intros e k Hk. apply setStyle_other. unfold scale_styles. simpl. by destruct fontSize as [[]|].
Qed.

Lemma clipped e : overflow e = None -> exists v, overflow (makeClipping computed e) = Some v /\
  v = match getStyle computed k_overflow e with
      | Some v => if unset v then Word (js "auto") else v
      | None => Word (js "auto")
      end.
Proof. intros He. unfold makeClipping. rewrite He. eexists. split; [|done]. by destruct (is_word _ _). Qed.

Lemma unclipped e : overflow (undoClipping e) = None.
Proof. unfold undoClipping. by destruct (overflow e) eqn:E. Qed.

Lemma unclipped_overflow v e : overflow e = Some v ->
  inline (undoClipping e) k_overflow = if is_word (js "auto") v then Word [] else v.
Proof. intros He. unfold undoClipping. by rewrite He, inline_write, decide_True. Qed.

(** BlindUp hides the element and takes its clipping back; all other styles, the
    height it changed among them, and all other elements are as before.  The
    overflow becomes what it was computed to be. *)
Theorem blind_up_restores w p id e el g ts :
  let '(p1, (k, o)) := BlindUp computed sinoidal el g p in
  page w = p1 -> overflow (at_el (elems p) el) = None ->
  fresh w id e k o -> looked e ts -> only_times g ->
  let p' := elems (page (watch id ts w)) in
  inline (at_el p' el) k_display = Word (js "none") /\
  (forall k, k <> k_display -> k <> k_overflow -> inline (at_el p' el) k = inline (at_el (elems p) el) k) /\
  overflow (at_el p' el) = None /\
  inline (at_el p' el) k_overflow =
    match getStyle computed k_overflow (at_el (elems p) el) with
    | Some v => if unset v || is_word (js "auto") v then Word [] else v
    | None => Word []
    end /\
  (forall j, j <> el -> at_el p' j = at_el (elems p) j).
Proof.
  unfold BlindUp. intros Hp Hov Hfr Hl (Hgf & Hgt & Hgtr & Hgh). cbv zeta.
  destruct (full_run w id e _ _ ts Hfr Hl) as [ps ->]. destruct Hfr as (_ & _ & Ho & _ & _ & _ & _ & _ & Hd).
  set (o := extend _ _ _ _ _ _ _) in *. set (so := ScaleOptions _ _ _ _ _ _ _ _) in *. rewrite Hp.
  set (p1 := on_elem el (makeClipping computed) p).
  assert (forall ev, ev <> AfterFinish -> internal o ev = None /\ handler o ev = None) as Hno.
  { intros ev Hev. unfold o, extend, at_hook. simpl. rewrite Hgh. by rewrite decide_False. }
  assert (forall p pos, frame_at (Scale el so) e id p pos = do_update (Scale el so) id (value_at e pos) p) as Hfm.
  { intros q pos. apply frame_plain. intros ev Hev. rewrite Ho. apply Hno. by destruct Hev as [->| ->]. }
  assert (enter (Scale el so) o id p1 = setup_scale computed lay_out el so id p1) as ->.
  { unfold FxTime.enter. destruct (Hno BeforeSetup) as [? ?]; [done|]. destruct (Hno AfterSetup) as [? ?]; [done|].
    by rewrite !fire_none. }
  assert (forall q pos, agree [k_height] el q (frame_at (Scale el so) e id q pos)) as Hag.
  { intros q pos. rewrite Hfm. apply only_height. }
  set (p2 := setup_scale computed lay_out el so id p1).
  change (frame_at (Scale el so) e id ?q 1%Q) with (fold_left (frame_at (Scale el so) e id) [1%Q] q).
  rewrite <- fold_left_app.
  pose proof (frames_agree [k_height] (Scale el so) e id (ps ++ [1%Q]) Hag p2) as (H1 & H2 & H3).
  pose proof (notes_fold (Scale el so) e id (ps ++ [1%Q]) p2) as Hn.
  set (p4 := fold_left _ (ps ++ [1%Q]) p2) in *. cbn [element_of] in H1, H2, H3.
  assert (leave (Scale el so) o id p4 = on_elem el (fun e => undoClipping (hide e))
    (on_elem el (setStyle (map (fun k => (k, inline (at_el (elems p1) el) k)) scale_keys)) p4)) as ->.
  { unfold FxTime.leave. destruct (Hno BeforeFinish) as [? ?]; [done|]. rewrite (fire_none o BeforeFinish) by done.
    unfold do_finish. rewrite Hn by (intros q pos; rewrite Hfm; apply notes_update).
    unfold p2, setup_scale, note. simpl notes. rewrite lookup_insert_eq.
    unfold FxTime.fire, o, extend, at_hook. simpl. by rewrite Hgh. }
  change (elems p2) with (elems p1) in *.
  assert (forall k, k <> k_overflow -> inline (at_el (elems p1) el) k = inline (at_el (elems p) el) k) as Hc.
  { intros k Hk. unfold p1. rewrite at_on_elem, decide_True by done. by apply clipping_keeps. }
  destruct (clipped (at_el (elems p) el) Hov) as (v & Hov1 & Hv).
  assert (overflow (at_el (elems p1) el) = Some v) as Hov2.
  { unfold p1. rewrite at_on_elem, decide_True by done. done. }
  set (back := setStyle (map _ scale_keys)).
  split; [|split; [|split; [|split]]].
  - reads. rewrite unclipping_keeps by done. by reads.
  - intros k Hkd Hko. rewrite !at_on_elem, !decide_True by done. rewrite unclipping_keeps by done. unfold hide. rewrite inline_write, decide_False by done.
    unfold back. destruct (decide (k ∈ scale_keys)) as [Hin|Hin].
    + rewrite (setStyle_back (inline (at_el (elems p1) el))); [by apply Hc|done|decided].
    + rewrite setStyle_other by (by rewrite map_map, map_id). rewrite H2; [by apply Hc|].
      intros ->%list_elem_of_singleton. apply Hin. decided.
  - rewrite at_on_elem, decide_True by done. apply unclipped.
  - rewrite !at_on_elem, !decide_True by done. rewrite (unclipped_overflow v).
    + rewrite Hv. destruct (getStyle _ _ _) as [x|]; [|done]. destruct (unset x); simpl; [done|]. done.
    + change (overflow (hide ?x)) with (overflow x). unfold back. by rewrite overflow_setStyle, H3.
  - intros j Hj. reads. rewrite H1 by done. unfold p1. by reads.
Qed.

End look.

(** ** A page with one element *)
Section page.
Definition half_open : site :=
  Site {[1%nat := Elem (<[k_opacity := Num (1#2)]> {[k_height := Len 40 (js "px")]}) false None]} ∅.
Definition seen (e : elem) (k : jstring) : option css :=
  if decide (k = k_overflow) then Some (Word (js "visible")) else None.
Definition flat (e : elem) : layout := Layout 0 0 40 100 40 100.
Definition nobody (u : unit) (id : nat) (p : site) : site := p.
Definition plain : @given unit := Given_ None None None None None None (fun _ => None).
Definition linear (x : Q) : Q := x.

(** The world when the clock shows 1000 and the effect was just started. *)
Definition started (p : site) (ko : kind * @opts_of unit) : world (@closure unit) kind site :=
  World {[0%nat := Effect (Of ko.1) ko.2 Idle 1000 2000 (to ko.2 - from ko.2) 1000 100 0 None]} 1 ∅ 1000 p.

Lemma started_fresh p k o e : heap (started p (k, o)) !! 0%nat = Some e -> is_Some (scope_of o) ->
  fresh (started p (k, o)) 0 e k o.
Proof.
  intros He Hs. split; [exact He|]. simpl in He. rewrite lookup_singleton_eq in He. injection He as <-.
  split; [done|]. split; [done|]. split; [done|]. split; [done|]. split; [done|]. split; [|done]. by vm_compute.
Qed.

Lemma looked_at p ko e : heap (started p ko) !! 0%nat = Some e -> looked e [1500; 2500].
Proof.
  simpl. rewrite lookup_singleton_eq. intros [= <-]. split; [by exists 0|]. exists 2500. split; [|by vm_compute]. set_solver.
Qed.

Lemma fade_restores_witness :
  let p' := elems (page (watch (run_fn seen nobody) (do_setup seen flat) do_update do_finish 0 [1500; 2500]
              (started half_open (Fade seen linear 1 plain half_open)))) in
  inline (at_el p' 1) k_display = Word (js "none") /\ inline (at_el p' 1) k_opacity = Num (1#2) /\
  inline (at_el p' 1) k_height = Len 40 (js "px").
Proof.
  set (w := started half_open (Fade seen linear 1 plain half_open)).
  destruct (heap w !! 0%nat) as [e|] eqn:He; [|by simpl in He; rewrite lookup_singleton_eq in He].
  pose proof (fade_restores seen flat nobody linear w 0 e 1 plain [1500; 2500]) as Hf.
  unfold Fade in Hf. cbv zeta in Hf.
  destruct Hf as (H1 & H2 & H3 & _); [by apply started_fresh; [exact He|eexists]|by eapply looked_at|done|].
  split; [exact H1|]. split; [rewrite H2; by vm_compute|]. rewrite H3 by done. by vm_compute.
Defined.

Lemma blind_up_restores_witness :
  let b := BlindUp seen linear 1 plain half_open in
  let p' := elems (page (watch (run_fn seen nobody) (do_setup seen flat) do_update do_finish 0 [1500; 2500]
              (started b.1 b.2))) in
  inline (at_el p' 1) k_display = Word (js "none") /\ inline (at_el p' 1) k_height = Len 40 (js "px") /\
  inline (at_el p' 1) k_overflow = Word (js "visible").
Proof.
  set (b := BlindUp seen linear 1 plain half_open). set (w := started b.1 b.2).
  destruct (heap w !! 0%nat) as [e|] eqn:He; [|by simpl in He; rewrite lookup_singleton_eq in He].
  pose proof (blind_up_restores seen flat nobody linear w half_open 0 e 1 plain [1500; 2500]) as Hf.
  unfold BlindUp in Hf. cbv zeta in Hf.
  destruct Hf as (H1 & H2 & H3 & H4 & _); [done|done|by apply started_fresh; [exact He|eexists]|by eapply looked_at|done|].
  split; [exact H1|]. split; [rewrite H2 by done; by vm_compute|]. etransitivity; [exact H4|by vm_compute].
Defined.
End page.
End FxLook.

(** * Colours of effects

    [parseColor] brings a colour to the form #xxxxxx, and Highlight interpolates
    between two such colours. *)

Module Color.
Import Fx.

(** [parseInt(s)] and [parseInt(s, 16)]; [None] is NaN. *)
Definition parseInt := Location.Location.parseInt.
Definition parseInt16 (s : jstring) : option Z :=
  let s := Location.Location.skip_white s in
  let '(sign, s) := match s with
                    | c :: r => if c =? 45 then (-1, r) else if c =? 43 then (1, r) else (1, s)
                    | [] => (1, s)
                    end in
  let s := match s with
           | a :: b :: r => if (a =? 48) && ((b =? 120) || (b =? 88)) then r else s
           | _ => s
           end in
  (fun v => sign * v) <$> Location.Location.digits 16 None s.

(** [n.toColorPart()], for NaN too *)
Definition part (n : option Z) : jstring :=
  match n with Some n => Range.toColorPart n | None => js "NaN" end.

(** src/piql/scadr/src/main/rails/public/javascripts/effects.js:12-24
    [parseColor(default)] *)
Definition parseColor (dflt : option jstring) (this : jstring) : jstring :=
  let color :=
    if bool_decide (slice 0 4 this = js "rgb(") then
      let cols := split_char 44 (slice 4 (zlen this - 1) this) in
      js "#" ++ concat (map (fun i => part (s ← cols !! i; parseInt s)) [0; 1; 2]%nat)
    else if bool_decide (slice 0 1 this = js "#") then
      let color := js "#" in
      let color := if zlen this =? 4
                   then color ++ concat (map (fun i => toLowerCase (charAt i this ++ charAt i this)) [1; 2; 3])
                   else color in
      if zlen this =? 7 then toLowerCase this else color
    else js "#" in
  if zlen color =? 7 then color else match dflt with Some ((_ :: _) as d) => d | _ => this end.

(** ** Highlight *)

(** src/piql/scadr/src/main/rails/public/javascripts/effects.js:501-501
    [setup()] of Highlight: [_base]; [None] is NaN. *)
Definition base (startcolor : jstring) : list (option Z) :=
  map (fun i => parseInt16 (slice (i * 2 + 1) (i * 2 + 3) startcolor)) [0; 1; 2].

(** src/piql/scadr/src/main/rails/public/javascripts/effects.js:502-502
    [setup()] of Highlight: [_delta] *)
Definition delta (startcolor endcolor : jstring) : list (option Z) :=
  zip_with (fun e b => e ← e; b ← b; Some (e - b)) (base endcolor) (base startcolor).

(** src/piql/scadr/src/main/rails/public/javascripts/effects.js:504-507
    [update(position)] of Highlight: the background colour that is set *)
Definition colour_at (base delta : list (option Z)) (position : Q) : jstring :=
  js "#" ++ concat (zip_with (fun b d =>
    part (b ← b; d ← d; Some (round (inject_Z b + inject_Z d * position)))) base delta).

(** ** Colours of bytes *)
Definition hex (c : Z * Z * Z) : jstring :=
  js "#" ++ Range.toColorPart c.1.1 ++ Range.toColorPart c.1.2 ++ Range.toColorPart c.2.
Definition byte (n : Z) : Prop := 0 <= n < 256.
Definition bytes (c : Z * Z * Z) : Prop := byte c.1.1 /\ byte c.1.2 /\ byte c.2.

(** A property of all bytes, by trying them. *)
Lemma every_byte (f : Z -> bool) n : forallb f (seqZ 0 256) = true -> byte n -> f n = true.
Proof. intros Hf Hn. rewrite forallb_forall in Hf. apply Hf, list_elem_of_In, elem_of_seqZ. unfold byte in Hn. lia. Qed.

Lemma part_byte n : byte n ->
  exists a b, Range.toColorPart n = [a; b] /\ parseInt16 [a; b] = Some n.
Proof.
  intros Hn. pose proof (every_byte (fun n => match Range.toColorPart n with
    | [a; b] => bool_decide (parseInt16 [a; b] = Some n) | _ => false end) n ltac:(by vm_compute) Hn) as H.
  simpl in H. destruct (Range.toColorPart n) as [|a [|b [|]]]; try done. exists a, b.
  split; [done|]. by apply bool_decide_eq_true in H.
Qed.

Lemma hex_length c : bytes c -> zlen (hex c) = 7.
Proof.
  intros (H1 & H2 & H3). unfold hex. destruct (part_byte _ H1) as (? & ? & -> & _).
  destruct (part_byte _ H2) as (? & ? & -> & _). by destruct (part_byte _ H3) as (? & ? & -> & _).
Qed.

Lemma base_hex c : bytes c -> base (hex c) = [Some c.1.1; Some c.1.2; Some c.2].
Proof.
  intros (H1 & H2 & H3). unfold hex, base. destruct (part_byte _ H1) as (a & b & -> & P1).
  destruct (part_byte _ H2) as (a2 & b2 & -> & P2). destruct (part_byte _ H3) as (a3 & b3 & -> & P3).
  cbn [map js app]. repeat f_equal; [by rewrite <- P1|by rewrite <- P2|by rewrite <- P3].
Qed.

(** ** Reading colours *)
Definition rgb (c : Z * Z * Z) : jstring :=
  js "rgb(" ++ join [44] [num_str c.1.1; 32 :: num_str c.1.2; 32 :: num_str c.2] ++ js ")".

Lemma num_byte n : byte n ->
  parseInt (num_str n) = Some n /\ parseInt (32 :: num_str n) = Some n /\ 44 ∉ num_str n.
Proof.
  intros Hn. pose proof (every_byte (fun n => bool_decide (parseInt (num_str n) = Some n) &&
    bool_decide (parseInt (32 :: num_str n) = Some n) && bool_decide (44 ∉ num_str n)) n ltac:(by vm_compute) Hn) as H.
  simpl in H. apply andb_true_iff in H as [H H3]. apply andb_true_iff in H as [H1 H2].
  by apply bool_decide_eq_true in H1, H2, H3.
Qed.

(** The colour that a browser computes is read as the colour it is. *)
Theorem parseColor_rgb c dflt : bytes c -> parseColor dflt (rgb c) = hex c.
Proof.
  intros Hc. pose proof Hc as (H1 & H2 & H3). unfold parseColor.
  set (body := join [44] [num_str c.1.1; 32 :: num_str c.1.2; 32 :: num_str c.2]).
  assert (rgb c = js "rgb(" ++ body ++ js ")") as -> by done.
  assert (zlen (js "rgb(") = 4) as Hrgb by done. assert (zlen (js ")") = 1) as Hp by done.
  pose proof (zlen_nonneg body) as Hb.
  assert (zlen (js "rgb(" ++ body ++ js ")") = zlen body + 5) as Hlen by (rewrite !zlen_app; lia).
  rewrite bool_decide_eq_true_2.
  2: { rewrite slice_0_id by lia. apply (ztake_app_len (js "rgb(")). }
  assert (slice 4 (zlen (js "rgb(" ++ body ++ js ")") - 1) (js "rgb(" ++ body ++ js ")") = body) as ->.
  { rewrite slice_mid by lia. rewrite Hlen. replace (zlen body + 5 - 1 - 4) with (zlen body) by lia.
    rewrite <- Hrgb at 1. by rewrite zdrop_app_len, ztake_app_len. }
  destruct (num_byte _ H1) as (P1 & _ & N1). destruct (num_byte _ H2) as (_ & P2 & N2).
  destruct (num_byte _ H3) as (_ & P3 & N3).
  assert (split_char 44 body = [num_str c.1.1; 32 :: num_str c.1.2; 32 :: num_str c.2]) as ->.
  { assert (44 ∉ 32 :: num_str c.1.2) by set_solver. assert (44 ∉ 32 :: num_str c.2) by set_solver.
    change body with (num_str c.1.1 ++ 44 :: ((32 :: num_str c.1.2) ++ 44 :: (32 :: num_str c.2))).
    by rewrite !split_char_app_sep, split_char_none by done. }
  assert (js "#" ++ concat (map (fun i => part (s ← [num_str c.1.1; 32 :: num_str c.1.2; 32 :: num_str c.2] !! i;
            parseInt s)) [0; 1; 2]%nat) = hex c) as ->.
  { cbn [map lookup list_lookup mbind option_bind concat]. rewrite P1, P2, P3. unfold hex, part.
    by rewrite app_nil_r. }
  by rewrite hex_length.
Qed.

Lemma parseColor_rgb_witness : bytes (255, 0, 10) /\ parseColor None (js "rgb(255, 0, 10)") = js "#ff000a".
Proof.
  assert (bytes (255, 0, 10)) as H by (repeat split; simpl; lia). split; [done|].
  exact (parseColor_rgb (255, 0, 10) None H).
Defined.

(** ** The colours of a highlight *)

Lemma round_between a b q :
  (0 <= q)%Q -> (q <= 1)%Q -> Z.min a b <= round (inject_Z a + inject_Z (b - a) * q) <= Z.max a b.
Proof.
  intros H0 H1. unfold round. unfold Z.sub. rewrite (inject_Z_plus b (- a)), inject_Z_opp.
  assert (forall z, Qfloor (inject_Z z + (1 # 2)) = z) as Hf.
  { intros z. unfold Qfloor, inject_Z, Qplus. simpl. Z.to_euclidean_division_equations. lia. }
  split.
  - rewrite <- (Hf (Z.min a b)) at 1. apply Qfloor_resp_le.
    destruct (Z.min_spec a b) as [[Hab ->]|[Hab ->]]; [apply Z.lt_le_incl in Hab|];
      rewrite Zle_Qle in Hab; nra.
  - rewrite <- (Hf (Z.max a b)). apply Qfloor_resp_le.
    destruct (Z.max_spec a b) as [[Hab ->]|[Hab ->]]; [apply Z.lt_le_incl in Hab|];
      rewrite Zle_Qle in Hab; nra.
Qed.

Definition mid (s e : Z) (q : Q) : Z := round (inject_Z s + inject_Z (e - s) * q).

Lemma mid_byte s e q : byte s -> byte e -> (0 <= q)%Q -> (q <= 1)%Q -> byte (mid s e q).
Proof. unfold byte. intros Hs He H0 H1. pose proof (round_between s e q H0 H1). unfold mid. lia. Qed.

Definition between (s e : Z * Z * Z) (q : Q) : Z * Z * Z :=
  (mid s.1.1 e.1.1 q, mid s.1.2 e.1.2 q, mid s.2 e.2 q).

Lemma colour_between s e q : bytes s -> bytes e ->
  colour_at (base (hex s)) (delta (hex s) (hex e)) q = hex (between s e q).
Proof.
  intros Hs He. unfold colour_at, delta. rewrite !base_hex by done.
  unfold hex, between, mid. simpl. by rewrite app_nil_r.
Qed.

Lemma mid_0 s e : mid s e 0 = s.
Proof. unfold mid, round, inject_Z, Qfloor, Qplus, Qmult. simpl. Z.to_euclidean_division_equations. lia. Qed.
Lemma mid_1 s e : mid s e 1 = e.
Proof. unfold mid, round, inject_Z, Qfloor, Qplus, Qmult. simpl. Z.to_euclidean_division_equations. lia. Qed.

(** A highlight whose two colours are well formed goes from the first to the second:
    at every position between, each part of the colour that is set is a byte between
    the two, rounded, and reading that colour back gives it again. *)
Theorem highlight_fades s e q :
  bytes s -> bytes e -> (0 <= q)%Q -> (q <= 1)%Q ->
  let c := colour_at (base (hex s)) (delta (hex s) (hex e)) in
  c 0%Q = hex s /\ c 1%Q = hex e /\
  c q = hex (between s e q) /\ bytes (between s e q) /\
  base (c q) = [Some (mid s.1.1 e.1.1 q); Some (mid s.1.2 e.1.2 q); Some (mid s.2 e.2 q)].
Proof.
  intros Hs He H0 H1 c. unfold c. rewrite !colour_between by done.
  assert (bytes (between s e q)) as Hb.
  { destruct Hs as (? & ? & ?), He as (? & ? & ?). split; [|split]; by apply mid_byte. }
  unfold between at 1 2. rewrite !mid_0, !mid_1, base_hex by done.
  destruct s as [[] ?], e as [[] ?]. done.
Qed.

Lemma highlight_fades_witness :
  colour_at (base (js "#ffff99")) (delta (js "#ffff99") (js "#ffffff")) (1#2) = js "#ffffcc".
Proof.
  pose proof (highlight_fades (255, 255, 153) (255, 255, 255) (1#2)
    ltac:(repeat split; simpl; lia) ltac:(repeat split; simpl; lia) ltac:(decided) ltac:(decided)) as H.
  destruct H as (_ & _ & H & _). exact H.
Defined.

(** Transitions that leave the interval, as [spring] does, leave the bytes: the part
    of the colour has a third digit, or a sign, and what is set is no colour. *)
Lemma highlight_overshoots :
  colour_at (base (js "#ffff99")) (delta (js "#ffff99") (js "#ffffff")) (11#10) = js "#ffff109" /\
  colour_at (base (js "#ffffff")) (delta (js "#ffffff") (js "#000000")) (11#10) = js "#-19-19-19".
Proof. split; vm_compute; reflexivity. Qed.

End Color.
