(* ===== verification/FxMorph.v ===== *)
(** * Morphing

    Effect.Morph reads the styles that an element is to have, finds which of them
    are colours, lengths and numbers, and moves each from its value to the target.
    The style that the browser computes is a parameter, as in [ProtoStyle].  The
    module [AllKinds] puts the kinds of effects that the library has on the queues of
    [FxQueue], whose invariant then holds of them. *)
From Stdlib Require Import QArith Qround Qabs Lqa.
From S2P Require Import Prelude JsString Location ProtoText ProtoRange FxQueue FxInv ProtoStyle FxKinds FxLook.
Open Scope Z_scope.

Module Morph.
Import Style.

(** ** Numbers in texts *)

Definition digit_or_dot (c : Z) : bool := is_digit c || (c =? 46).
Definition sign_of (s : jstring) : jstring * jstring :=
  match s with c :: r => if (c =? 43) || (c =? 45) then ([c], r) else ([], s) | [] => ([], []) end.
(** A sign and a run of digits and dots at the front of a text *)
Definition number_at (s : jstring) : option (jstring * jstring) :=
  let '(sg, r) := sign_of s in
  match Text.span digit_or_dot r with ([], _) => None | (n, r) => Some (sg ++ n, r) end.
(** [value.match(/^([\+\-]?[0-9\.]+)(.* )$/)], without the space: the two groups *)
Definition components (s : jstring) : option (jstring * jstring) :=
  match number_at s with Some (n, r) => if forallb (fun c => negb (is_lineterm c)) r then Some (n, r) else None | None => None end.

Fixpoint digits_value (v : Z) (s : jstring) : Z := match s with c :: s => digits_value (v * 10 + (c - 48)) s | [] => v end.
(** A decimal number at the front of a text, and what follows; exponents are left
    out. *)
Definition decimal (s : jstring) : option (Q * jstring) :=
  let '(sg, r) := sign_of s in
  let '(a, r) := Text.span is_digit r in
  let '(b, r') := match r with c :: t => if c =? 46 then Text.span is_digit t else ([], r) | [] => ([], []) end in
  if bool_decide (a = [] /\ b = []) then None
  else
    let q := Qmake (digits_value 0 (a ++ b)) (Z.to_pos (10 ^ zlen b)) in
    Some (if bool_decide (sg = [45]) then Qopp q else q, r').
(** [parseFloat(s)] and [Number(s)]; [None] is NaN. *)
Definition parseFloat (s : jstring) : option Q := fst <$> decimal (Location.Location.skip_white s).
Definition Number (s : jstring) : option Q :=
  match Location.Location.skip_white s with
  | [] => Some 0%Q
  | s => match decimal s with Some (q, r) => if bool_decide (Location.Location.skip_white r = []) then Some q else None | None => None end
  end.

(** [x.toFixed(3)], as a number *)
Definition toFixed3 (x : Q) : Q :=
  if decide (x < 0)%Q then (- (Fx.round (- x * 1000) # 1000))%Q else (Fx.round (x * 1000) # 1000)%Q.

(** ** Transforms *)

Definition css_units : list jstring := map js ["em"; "ex"; "px"; "in"; "cm"; "mm"; "pt"; "pc"; "%"]%string.
(** src/piql/scadr/src/main/rails/public/javascripts/effects.js:1051-1051
    [Element.CSS_LENGTH]: a length at the front, or a zero at the end *)
Definition css_length (s : jstring) : bool :=
  match number_at s with Some (_, r) => existsb (fun u => prefixb u r) css_units | None => false end
  || bool_decide (last s = Some 48).

Inductive target := Colour (from to : list (option Z)) | Value (from to : Q) (unit : jstring).
Record transform := Transform { style_name : jstring; goal : target }.

Section morph.
Variable computed : Style.elem -> jstring -> option css.

Definition read (property : jstring) (e : elem) : option css :=
  if bool_decide (property = k_opacity) then Some (Num (getOpacity computed e)) else getStyle computed property e.
(** The colour that a transform starts from; colours are words. *)
Definition colour_text (v : option css) : jstring :=
  match v with
  | Some (Word w) => if bool_decide (w ∈ [[]; js "rgba(0, 0, 0, 0)"; js "transparent"]) then js "#ffffff" else w
  | _ => js "#ffffff"
  end.
(** [parseFloat(originalValue || 0)] *)
Definition start_value (v : option css) : option Q :=
  match v with None | Some (Word []) => Some 0%Q | Some (Word w) => parseFloat w | Some (Num q) | Some (Len q _) => Some q end.

(** src/piql/scadr/src/main/rails/public/javascripts/effects.js:952-958
    [parseColor(color)] in [setup()] *)
Definition parts (color : jstring) : list (option Z) := Color.base (Color.parseColor None color).

(** A number to go to: nothing where either end is no number, or both are one. *)
Definition to_number (property : jstring) (from to : option Q) (unit : jstring) : option transform :=
  match from, to with
  | Some a, Some b => if decide (a == b)%Q then None else Some (Transform (Text.camelize property) (Value a b unit))
  | _, _ => None
  end.
(** src/piql/scadr/src/main/rails/public/javascripts/effects.js:959-990
    [setup()]: one property; the outer [None] is an exception, the inner one a
    property that is left out. *)
Definition transform_of (e : elem) (property value : jstring) : option (option transform) :=
  if bool_decide (Color.parseColor (Some (js "#zzzzzz")) value <> js "#zzzzzz") then
    Some (Some (Transform (Text.camelize property) (Colour (parts (colour_text (read property e))) (parts (Color.parseColor None value)))))
  else if bool_decide (property = k_opacity) then Some (to_number property (start_value (read property e)) (parseFloat value) [])
  else if css_length value then
    '(n, unit) ← components value;
    Some (to_number property (start_value (read property e)) (parseFloat n) unit)
  else Some (to_number property (start_value (read property e)) (Number value) []).
(** src/piql/scadr/src/main/rails/public/javascripts/effects.js:951-991
    [setup()]: [this.transforms], or an exception *)
Fixpoint setup (e : elem) (style : list (jstring * jstring)) : option (list transform) :=
  match style with
  | [] => Some []
  | (property, value) :: style =>
      t ← transform_of e property value;
      ts ← setup e style;
      Some (match t with Some t => t :: ts | None => ts end)
  end.

(** [(from + (to - from) * position).toFixed(3)] with its unit *)
Definition at_position (g : target) (position : Q) : css :=
  match g with
  | Colour from to => Word (Color.colour_at from (zip_with (fun t f => t ← t; f ← f; Some (t - f)) to from) position)
  | Value from to unit =>
      let q := toFixed3 (from + (to - from) * position) in
      match unit with [] => Num q | _ => Len q unit end
  end.
(** src/piql/scadr/src/main/rails/public/javascripts/effects.js:992-1007
    [update(position)] *)
Definition update (ts : list transform) (position : Q) (e : elem) : elem :=
  setStyle (map (fun t => (style_name t, at_position (goal t) position)) (rev ts)) e.

(** ** The styles that are asked for *)

(** src/piql/scadr/src/main/rails/public/javascripts/effects.js:1040-1049
    [Element.CSS_PROPERTIES] *)
Definition CSS_PROPERTIES : list jstring := map js (
  ["backgroundColor"; "backgroundPosition"; "borderBottomColor"; "borderBottomStyle"; "borderBottomWidth"; "borderLeftColor";
   "borderLeftStyle"; "borderLeftWidth"; "borderRightColor"; "borderRightStyle"; "borderRightWidth"; "borderSpacing";
   "borderTopColor"; "borderTopStyle"; "borderTopWidth"; "bottom"; "clip"; "color"; "fontSize"; "fontWeight"; "height"; "left";
   "letterSpacing"; "lineHeight"; "marginBottom"; "marginLeft"; "marginRight"; "marginTop"; "markerOffset"; "maxHeight";
   "maxWidth"; "minHeight"; "minWidth"; "opacity"; "outlineColor"; "outlineOffset"; "outlineWidth"; "paddingBottom";
   "paddingLeft"; "paddingRight"; "paddingTop"; "right"; "textIndent"; "top"; "width"; "wordSpacing"; "zIndex"]%string).

(** src/piql/scadr/src/main/rails/public/javascripts/effects.js:1054-1071
    [parseStyle()], in other browsers than Internet Explorer: the properties that
    the browser reads from the text *)
Definition parseStyle (parsed : jstring -> jstring -> jstring) (this : jstring) : list (jstring * jstring) :=
  omap (fun property => match parsed this property with [] => None | v => Some (property, v) end) CSS_PROPERTIES.

(** src/piql/scadr/src/main/rails/public/javascripts/effects.js:1074-1080
    [Element.getStyles(element)] *)
Definition getStyles (css : jstring -> jstring) : list (jstring * jstring) := map (fun property => (property, css property)) CSS_PROPERTIES.

(** What is asked for: styles, a text of styles, or the name of a class. *)
Inductive wanted := Styles (l : list (jstring * jstring)) | StyleText (t : jstring) | ClassNamed (with_class without : jstring -> jstring).
(** src/piql/scadr/src/main/rails/public/javascripts/effects.js:928-940
    [initialize(element)]: [this.style] *)
Definition wanted_style (parsed : jstring -> jstring -> jstring) (s : wanted) : list (jstring * jstring) :=
  match s with
  | Styles l => l
  | StyleText t => parseStyle parsed t
  | ClassNamed with_class without => filter (fun p => p.2 <> without p.1) (getStyles with_class)
  end.
(** src/piql/scadr/src/main/rails/public/javascripts/effects.js:941-946
    [initialize(element)]: the styles of a class are taken off again when the
    element has the class. *)
Definition finish_class (ts : list transform) (e : elem) : elem := fold_left (fun e t => write (style_name t) (Word []) e) ts e.

(** ** What is drawn *)

Lemma toFixed3_near x : (Qabs (toFixed3 x - x) <= 1 # 2000)%Q.
Proof.
  assert (forall y, (Qabs ((Fx.round (y * 1000) # 1000) - y) <= 1 # 2000)%Q) as H.
  { intros y. unfold Fx.round. pose proof (Qfloor_le (y * 1000 + (1 # 2))) as H1. pose proof (Qlt_floor (y * 1000 + (1 # 2))) as H2.
    rewrite inject_Z_plus in H2. set (f := Qfloor _) in *. assert ((f # 1000) == inject_Z f * (1 # 1000))%Q as E by (unfold inject_Z, Qeq; cbn; lia).
    apply Qabs_Qle_condition. rewrite E. change (inject_Z 1) with 1%Q in H2. split; lra. }
  unfold toFixed3. destruct (decide (x < 0)%Q) as [Hx|Hx]; [|apply H].
  specialize (H (- x)%Q). rewrite <- Qabs_opp. eapply Qle_trans; [|exact H]. apply Qle_lteq. right. apply Qabs_wd. ring.
Qed.

Lemma setStyle_in l k v : NoDup (map fst l) -> (k, v) ∈ l -> forall e,
  inline (setStyle l e) k = if decide (k = k_opacity) then opacity_value v else v.
Proof.
  unfold setStyle. induction l as [|[j u] l IH]; [by intros _ ?%elem_of_nil|].
  cbn [map fst fold_left]. intros [Hj Hl]%NoDup_cons [[= <- <-]|Hin]%elem_of_cons e; [|by apply IH].
  pose proof (FxLook.setStyle_other l k Hj) as Ho. unfold setStyle in Ho. rewrite Ho. cbn [snd].
  case_bool_decide; [rewrite decide_True by done|rewrite decide_False by done]; unfold setOpacity; by rewrite inline_write, decide_True.
Qed.

(** A value of a style on the way from where it was to the target: numbers up to
    half a thousandth, colours part by part. *)
Definition on_the_way (g : target) (position : Q) (v : css) : Prop :=
  match g with
  | Value from to unit =>
      exists q, v = match unit with [] => Num q | _ => Len q unit end /\ (Qabs (q - (from + (to - from) * position)) <= 1 # 2000)%Q
  | Colour from to =>
      forall c d, Color.bytes c -> Color.bytes d -> from = Color.base (Color.hex c) -> to = Color.base (Color.hex d) ->
        v = Word (Color.hex (Color.between c d position)) /\ Color.bytes (Color.between c d position)
  end.

Lemma at_position_way g position : (0 <= position)%Q -> (position <= 1)%Q -> on_the_way g position (at_position g position).
Proof.
  intros H0 H1. destruct g as [from to|from to unit]; cbn [on_the_way at_position].
  - intros c d Hc Hd -> ->. split; [|destruct Hc as (? & ? & ?), Hd as (? & ? & ?); repeat split; by apply Color.mid_byte].
    f_equal. by rewrite <- Color.colour_between.
  - eexists. split; [done|]. apply toFixed3_near.
Qed.

Lemma transform_named e property value t : transform_of e property value = Some (Some t) -> style_name t = Text.camelize property.
Proof.
  unfold transform_of, to_number. repeat case_bool_decide.
  - by intros [= <-].
  - repeat case_match; intros; by simplify_eq.
  - case_match; [destruct (components value) as [[n u]|]; [|done]; cbn [mbind option_bind]|]; repeat case_match; intros; by simplify_eq.
Qed.

Lemma setup_in e style ts : setup e style = Some ts ->
  (forall property value t, (property, value) ∈ style -> transform_of e property value = Some (Some t) -> t ∈ ts) /\
  sublist (map style_name ts) (map (fun p => Text.camelize p.1) style).
Proof.
  revert ts. induction style as [|[property value] style IH]; intros ts; cbn [setup]; [intros [= <-]; split; [by intros ? ? ? ?%elem_of_nil|constructor]|].
  destruct (transform_of e property value) as [t|] eqn:E; [|done]. cbn [mbind option_bind].
  destruct (setup e style) as [ts'|] eqn:Es; [|done]. cbn [mbind option_bind]. intros [= <-]. destruct (IH ts' eq_refl) as [IH1 IH2]. split.
  - intros property' value' t' [[= -> ->]|Hin]%elem_of_cons Ht'.
    + rewrite E in Ht'. injection Ht' as ->. left.
    + destruct t; [right|]; by eapply IH1.
  - destruct t as [t|]; cbn [map]; [|by constructor]. cbn [fst]. rewrite <- (transform_named _ _ _ _ E). by constructor.
Qed.

(** At each position of a morph every style that has a number or a colour to go to
    stands between its first value and the target, no further than half a thousandth
    from the way, and all other styles are as they were. *)
Theorem morph_moves e style ts position e' : setup e style = Some ts -> NoDup (map (fun p => Text.camelize p.1) style) ->
  (0 <= position)%Q -> (position <= 1)%Q ->
  (forall property value t, (property, value) ∈ style -> transform_of e property value = Some (Some t) ->
    exists v, on_the_way (goal t) position v /\
      inline (update ts position e') (Text.camelize property) = if decide (Text.camelize property = k_opacity) then opacity_value v else v) /\
  (forall k, k ∉ map (fun p => Text.camelize p.1) style -> inline (update ts position e') k = inline e' k).
Proof.
  intros Hs Hnd H0 H1. destruct (setup_in e style ts Hs) as [Hin Hsub]. unfold update.
  set (l := map _ (rev ts)). assert (map fst l = rev (map style_name ts)) as Hl by (unfold l; rewrite map_map, map_rev; done). split.
  - intros property value t Hp Ht. exists (at_position (goal t) position). split; [by apply at_position_way|].
    rewrite <- (transform_named _ _ _ _ Ht). apply setStyle_in.
    + rewrite Hl. apply NoDup_ListNoDup, List.NoDup_rev, NoDup_ListNoDup. by eapply sublist_NoDup.
    + apply list_elem_of_In, in_map_iff. exists t. split; [done|]. apply in_rev. rewrite rev_involutive. apply list_elem_of_In. by eapply Hin.
  - intros k Hk. apply FxLook.setStyle_other. rewrite Hl. intros Hk'. apply Hk. apply (sublist_subseteq _ _ Hsub).
    by apply list_elem_of_In, in_rev, list_elem_of_In.
Qed.
End morph.

(** ** A box *)

Definition box : elem :=
  Elem (<[js "width" := Len 100 (js "px")]> (<[js "backgroundColor" := Word (js "#ffffff")]> ∅)) false None.
Definition no_style (e : elem) (k : jstring) : option css := None.
Definition wide_and_red : list (jstring * jstring) := [(js "width", js "20em"); (js "background-color", js "#f00")].

Lemma morph_moves_witness : exists ts, setup no_style box wide_and_red = Some ts /\
  ((forall property value t, (property, value) ∈ wide_and_red -> transform_of no_style box property value = Some (Some t) ->
    exists v, on_the_way (goal t) (1#2) v /\
      inline (update ts (1#2) box) (Text.camelize property) = if decide (Text.camelize property = k_opacity) then opacity_value v else v) /\
  (forall k, k ∉ map (fun p => Text.camelize p.1) wide_and_red -> inline (update ts (1#2) box) k = inline box k)).
Proof.
  eexists. split; [vm_compute; reflexivity|]. apply (morph_moves no_style box wide_and_red); [vm_compute; reflexivity|vm_compute; decided|decided|decided].
Defined.

(** The number that a length has is kept with the unit that it is to have: the box
    jumps from 100 pixels to 100 em. *)
Lemma units_mixed : exists ts, setup no_style box wide_and_red = Some ts /\ exists q, inline (update ts 0 box) (js "width") = Len q (js "em") /\ (q == 100)%Q.
Proof. eexists. split; [vm_compute; reflexivity|]. eexists. split; [vm_compute; reflexivity|reflexivity]. Qed.

(** The zero at the end is looked for anywhere: a position such as [left 0] is taken
    for a length and makes the effect throw. *)
Lemma zero_at_end_throws : setup no_style box [(js "backgroundPosition", js "left 0")] = None.
Proof. vm_compute. reflexivity. Qed.
End Morph.

(** ** The kinds of effects on the queues *)
Module AllKinds.
Import Fx FxInv Style FxKinds.

(** Opacity, Move, Scale, and Morph with the styles it is to reach; a kind of the
    page has methods of its own. *)
Inductive any_kind := Basic (k : kind) | Morphing (el : nat) (style : list (jstring * jstring)).

(** The page of [FxKinds], and the transforms that a Morph notes in itself. *)
Record morph_site := MorphSite { base : site; transforms : gmap nat (list Morph.transform) }.

Definition on_base (f : site -> site) (p : morph_site) : morph_site := MorphSite (f (base p)) (transforms p).

Section kinds.
Context {H : Type}.
Variable computed : elem -> jstring -> option css.
Variable lay_out : elem -> layout.
Notation M := (Fx.M H any_kind morph_site).
Notation world := (Fx.world H any_kind morph_site).

(** src/piql/scadr/src/main/rails/public/javascripts/effects.js:951-991
    [setup()] of the kinds; a style that Morph cannot read makes it throw. *)
Definition setup (k : any_kind) (id : nat) : M unit :=
  match k with
  | Basic k => modify (fun w => set_page (on_base (do_setup computed lay_out k id) (page w)) w)
  | Morphing el style =>
      w ← get;
      match Morph.setup computed (at_el (elems (base (page w))) el) style with
      | Some ts => modify (fun w => set_page (MorphSite (base (page w)) (<[id := ts]> (transforms (page w)))) w)
      | None => throw TypeError
      end
  end.

(** src/piql/scadr/src/main/rails/public/javascripts/effects.js:992-1007
    [update(position)] of the kinds *)
Definition update (k : any_kind) (id : nat) (pos : Q) : M unit :=
  match k with
  | Basic k => modify (fun w => set_page (on_base (do_update k id pos) (page w)) w)
  | Morphing el _ =>
      w ← get;
      match transforms (page w) !! id with
      | Some ts => modify (fun w => set_page (on_base (on_elem el (Morph.update ts pos)) (page w)) w)
      | None => throw TypeError
      end
  end.

(** src/piql/scadr/src/main/rails/public/javascripts/effects.js:458-460
    [finish(position)] of the kinds; Morph has none. *)
Definition finish (k : any_kind) (id : nat) : M unit :=
  match k with
  | Basic k => modify (fun w => set_page (on_base (do_finish k id) (page w)) w)
  | Morphing _ _ => mret tt
  end.

(** *** They leave the queues alone *)
Lemma runs_page {strict} (f : morph_site -> morph_site) id :
  runs (strict := strict) (has id) (modify (fun w : world => set_page (f (page w)) w)).
Proof. intros w Hw Hi. split; [exact Hw|]. split; [|exact Hi]. split; [done|]. split; [|done]. intros j e He. by exists e. Qed.

Lemma runs_look {strict A} (m : world -> M A) id :
  (forall w, runs (strict := strict) (has id) (m w)) -> runs (strict := strict) (has id) (w ← get; m w).
Proof. intros Hm w. apply (Hm w w). Qed.

Lemma runs_type_error id : runs (strict := false) (has id) (throw TypeError : M unit).
Proof. by intros w Hw Hi. Qed.

Lemma setup_keeps k id : runs (strict := false) (has id) (setup k id).
Proof.
  destruct k as [k|el style]; [apply (runs_page (on_base (do_setup computed lay_out k id)))|].
  apply runs_look. intros w. destruct (Morph.setup _ _ _) as [ts|]; [|apply runs_type_error].
  apply (runs_page (fun p => MorphSite (base p) (<[id := ts]> (transforms p)))).
Qed.

Lemma update_keeps k id pos : runs (strict := false) (has id) (update k id pos).
Proof.
  destruct k as [k|el style]; [apply (runs_page (on_base (do_update k id pos)))|].
  apply runs_look. intros w. destruct (transforms _ !! id) as [ts|]; [|apply runs_type_error].
  apply (runs_page (on_base (on_elem el (Morph.update ts pos)))).
Qed.

Lemma finish_keeps k id : runs (strict := false) (has id) (finish k id).
Proof. destruct k as [k|el style]; [apply (runs_page (on_base (do_finish k id))) | apply runs_ret]. Qed.

(** What the page's handlers do with the library: start and cancel effects, change
    the page, throw. *)
Variable call : H -> nat -> M unit.
Hypothesis call_keeps : forall h id, runs (strict := false) (has id) (call h id).

(** C18: Through any starts of effects of the library (Opacity, Move, Scale, Morph,
    and effects that combine others), any cancellations and ticks, and whatever the
    handlers of the page do with the library: the timer of a queue runs exactly
    when the queue has effects; its effects exist, are there once and in no other
    queue.  Exceptions are those of the page and type errors of the library, such
    as that of a Morph whose styles it cannot read or of a queue object without a
    scope; the stack never overflows.  The options have no negative limit, and what
    is combined or cancelled exists. *)
Theorem effect_queues_consistent (w : world) :
  session (strict := false) call setup update finish w ->
  (forall s, (interval (queue_at s w) = true <-> members s w <> []) /\ NoDup (members s w) /\
     forall id, id ∈ members s w -> has id w /\ forall r, id ∈ members r w -> r = s) /\
  forall a x, allowed (strict := false) a w -> (act call setup update finish a w).1 = Exn x ->
    x = Thrown \/ x = TypeError.
Proof.
  intros Hs. destruct (queues_consistent call setup update finish call_keeps setup_keeps update_keeps finish_keeps w Hs)
    as [Hq Hx]. split; [exact Hq|]. intros a x Ha E. specialize (Hx a x Ha E). destruct x; auto. by destruct Hx.
Qed.
End kinds.

(** A page whose handlers cancel the effect, throw, or start another. *)
Section witness.
Definition plain : options (option bool) :=
  Options 0 1 0 1 100 false (Named AtEnd) None (fun _ => None) (fun _ => None).
Definition chained : options (option bool) :=
  Options 0 1 0 1 100 false (Placed AtEnd (Some (js "global")) (Some 3)) None (fun _ => None)
    (fun ev => if decide (ev = AfterFinish) then Some (Some true) else None).

Notation M := (Fx.M (option bool) any_kind morph_site).
Definition quiet_call (h : option bool) (id : nat) : M unit := mret tt.
Definition page_call (h : option bool) (id : nat) : M unit :=
  match h with
  | Some true => start quiet_call (Of (Basic (Opacity 0))) plain;; mret tt
  | Some false => cancel id
  | None => throw Thrown
  end.

Lemma page_call_keeps h id : runs (strict := false) (has id) (page_call h id).
Proof.
  destruct h as [[]|]; simpl.
  - apply runs_start_plain; [intros ? ?; apply runs_ret|by intros _; split|apply stable_has].
  - apply runs_cancel.
  - by intros w Hw Hf.
Qed.

Definition no_sheet (e : elem) (k : jstring) : option css := None.
Definition flat (e : elem) : layout := Layout 0 0 40 100 40 100.
Definition setup1 : any_kind -> nat -> M unit := setup no_sheet flat.
Definition empty_page : morph_site := MorphSite (Site ∅ ∅) ∅.

(** An Opacity that starts another one when it ends, a Morph that throws at its
    first frame, and a tick of the queue. *)
Definition morph_session : list (action (option bool) any_kind) :=
  [Start (Of (Basic (Opacity 0))) chained; Start (Of (Morphing 0 [(js "backgroundPosition", js "left 0")])) plain;
   Wait 1500; Tick (js "global")].

Lemma effect_queues_consistent_witness :
  exists w : world (option bool) any_kind morph_site,
    members (js "global") w = [1%nat; 2%nat] /\ interval (queue_at (js "global") w) = true /\
    forall x, (act page_call setup1 update finish (Tick (js "global")) (set_clock 2500 w)).1 = Exn x -> x = Thrown \/ x = TypeError.
Proof.
  set (run1 l := run page_call setup1 update finish l (World ∅ 0 ∅ 0 empty_page)).
  exists (run1 morph_session).
  assert (members (js "global") (run1 morph_session) = [1%nat; 2%nat]) as Hm by (by vm_compute).
  split; [exact Hm|].
  assert (forall l, Forall (free (strict := false)) l -> session (strict := false) page_call setup1 update finish (run1 l)) as Hs.
  { intros l. apply session_run, session_start. }
  destruct (effect_queues_consistent no_sheet flat page_call page_call_keeps _ (Hs morph_session ltac:(by repeat constructor)))
    as [Hq _].
  split; [destruct (Hq (js "global")) as [[_ Hi] _]; apply Hi; by rewrite Hm|].
  destruct (effect_queues_consistent no_sheet flat page_call page_call_keeps
    (run1 (morph_session ++ [Wait 1000])) (Hs (morph_session ++ [Wait 1000]) ltac:(by repeat constructor))) as [_ Hx].
  intros x. exact (Hx (Tick (js "global")) x I).
Defined.
End witness.
End AllKinds.
