(* ===== verification/FxCombined.v ===== *)
(** * The other combined effects

    Puff, SwitchOff, DropOut, Shake, SlideDown, SlideUp, Squish, Grow, Shrink,
    Pulsate and Fold: effects that start others, together or one after the other,
    and put the styles of the element back at the end.  They run on the queues of
    [FxQueue] with the kinds of [FxKinds]; their handlers start effects, so that
    they are calls on the world of effects. *)
From S2P Require Import Prelude JsString FxQueue ProtoStyle FxKinds FxLook FxMorph.
Open Scope Z_scope.

Module Combined.
Import Fx Style FxKinds.

Section combined.
Context {U : Type}.
Variable computed : elem -> jstring -> option css.
Variable lay_out : elem -> layout.
(** What getDimensions measures, height first, the height inside of the border, and the
    offset and size that absolutize reads. *)
Variable dimensions : elem -> Q * Q.
Variable clientHeight : elem -> Q.
Variable place_of : elem -> (Q * Q) * (Q * Q).
(** The first element in an element. *)
Variable down : nat -> option nat.
Variable user : U -> nat -> site -> site.
Variable opera : bool.
(** [(-cos(x * pi) / 2) + .5], and the flicker, which is drawn by lot *)
Variables wave flicker : Q -> Q.

(** The handlers of the combined effects. *)
Inductive hnd :=
  | HUser (u : U)
  | HEnd (el : nat) (hides unclips unpositions : bool) (old : list (jstring * css))
  | HPuffSetup (el : nat)
  | HAppearSetup (el : nat) (from : Q)
  | HSwitchNext (el : nat) (old : css) | HSwitchSetup (el : nat)
  | HDropSetup (el : nat)
  | HShake (el : nat) (rest : list (Q * Q)) (old : list (jstring * css))
  | HSlideSetup (el : nat) (zero : bool) | HSlideUpdate (el : nat) | HSlideEnd (el : nat) (hides : bool) (bottom : css)
  | HSquishSetup (el : nat)
  | HGrowSetup (el : nat) | HGrowNext (el : nat) (dims move : Q * Q) (g : @given U) (old : list (jstring * css)) | HGrowShow (el : nat)
  | HShrinkStart (el : nat)
  | HFoldNext (el : nat) (old : list (jstring * css)).
Notation opts := (options hnd).
Notation M := (Fx.M hnd kind site).

Definition on (el : nat) (f : elem -> elem) : M unit := modify (fun w => set_page (on_elem el f (page w)) w).
Definition element (el : nat) : M elem := w ← get; mret (at_el (elems (page w)) el).
(** [element.down()], on which a method is called *)
Definition inner (el : nat) : M nat := match down el with Some c => mret c | None => throw TypeError end.
Definition word (v : option css) : css := default (Word []) v.
Definition read (k : jstring) (e : elem) : css := word (getStyle computed k e).

(** ** Options *)

Definition hooks (l : list (hook * hnd)) (ev : hook) : option hnd := snd <$> head (filter (fun p => p.1 = ev) l).
Definition base (from to duration : Q) (sync : bool) (transition : Q -> Q) (internal handler : list (hook * hnd)) : opts :=
  Options from to 0 duration 100 sync (Named Elsewhere) (Some transition) (hooks internal) (hooks handler).
(** [Object.extend(options, arguments[1])] *)
Definition merge (o : opts) (g : @given U) : opts :=
  Options (default (from o) (g_from g)) (default (to o) (g_to g)) (default (delay o) (g_delay g)) (default (duration o) (g_duration g)) 100
    (sync o) (default (queue o) (g_queue g)) (default (transition o) (g_transition g)) (internal o)
    (fun ev => match g_handler g ev with Some u => Some (HUser u) | None => handler o ev end).
Definition plain (from to : Q) (sync : bool) : opts := base from to 1 sync wave [] [].
(** [Scale] with its own defaults *)
Definition scale (percent : Q) (content center restore : bool) : scale_options := ScaleOptions true true content center Box 100 percent restore.

(** ** What the handlers do to elements *)

(** [Position.absolutize(element)]: the styles *)
Definition absolutize (e : elem) : elem :=
  if match getStyle computed k_position e with Some v => is_word (js "absolute") v | None => false end then e
  else
    let '((l, t), (w, h)) := place_of e in
    setStyle [(k_position, Word (js "absolute")); (k_top, Len t (js "px")); (k_left, Len l (js "px")); (k_width, Len w (js "px")); (k_height, Len h (js "px"))] e.
(** [element.hide().undoClipping().undoPositioned().setStyle(old)], as far as each
    effect goes *)
Definition finish_styles (hides unclips unpositions : bool) (old : list (jstring * css)) (e : elem) : elem :=
  let e := if hides then hide e else e in
  let e := if unclips then undoClipping e else e in
  let e := if unpositions then undoPositioned e else e in
  setStyle old e.

(** ** Shake *)

(** src/piql/scadr/src/main/rails/public/javascripts/effects.js:670-683
    [Effect.Shake]: the moves and how long each takes *)
Definition shakes (distance split : Q) : list (Q * Q) :=
  [(distance, split); (- distance * 2, split * 2); (distance * 2, split * 2); (- distance * 2, split * 2); (distance * 2, split * 2); (- distance, split)]%Q.

(** ** The handlers *)
Fixpoint call (fuel : nat) (h : hnd) (id : nat) : M unit :=
  match fuel with
  | O => throw RangeError
  | S fuel =>
      let start := start (call fuel) in
      match h with
      | HUser u => modify (fun w => set_page (user u id (page w)) w)
      | HEnd el hides unclips unpositions old => on el (finish_styles hides unclips unpositions old)
      | HPuffSetup el => on el absolutize
      | HAppearSetup el from => on el (fun e => show (setOpacity (Num from) e))
      | HSwitchNext el old =>
          _ ← start (Of (Scale el (ScaleOptions false true false true Box 100 1 true)))
                (base 0 1 (3#10) false wave [(AfterFinish, HEnd el true true true [(k_opacity, old)])] [(BeforeSetup, HSwitchSetup el)]);
          mret tt
      | HSwitchSetup el => on el (fun e => makeClipping computed (makePositioned computed e))
      | HDropSetup el => on el (makePositioned computed)
      | HShake el [] old => on el (finish_styles false false true old)
      | HShake el ((x, time) :: rest) old =>
          _ ← start (Of (Move el x 0 false)) (base 0 1 time false wave [(AfterFinish, HShake el rest old)] []); mret tt
      | HSlideSetup el zero =>
          on el (makePositioned computed);; c ← inner el; on c (makePositioned computed);;
          on el (fun e =>
            let e := if opera then setStyle [(k_top, Word [])] e else e in
            let e := makeClipping computed e in
            show (if zero then setStyle [(k_height, Len 0 (js "px"))] e else e))
      | HSlideUpdate el =>
          c ← inner el; w ← get;
          match notes (page w) !! id with
          | Some (Scaled _ _ _ _ _ _ height _) =>
              on c (setStyle [(k_bottom, Len (height - clientHeight (at_el (elems (page w)) el))%Q (js "px"))])
          | _ => throw TypeError
          end
      | HSlideEnd el hides bottom =>
          on el (finish_styles hides true true []);; c ← inner el; on c (finish_styles false false true [(k_bottom, bottom)])
      | HSquishSetup el => on el (makeClipping computed)
      | HGrowSetup el => on el (fun e => makePositioned computed (makeClipping computed (hide e)))
      | HGrowNext el dims move g old =>
          a ← start (Of (Opacity el)) (base 0 1 1 true (fun _ => 1%Q) [] []);
          b ← start (Of (Move el move.1 move.2 false)) (plain 0 1 true);
          c ← start (Of (Scale el (ScaleOptions true true true false (Given dims.1 dims.2) (if opera then 1 else 0) 100 true))) (plain 0 1 true);
          _ ← start (Parallel [a; b; c]) (merge (base 0 1 1 false wave [(AfterFinish, HEnd el false true true old)] [(BeforeSetup, HGrowShow el)]) g);
          mret tt
      | HGrowShow el => on el (fun e => show (setStyle [(k_height, Len 0 (js "px"))] e))
      | HShrinkStart el => on el (fun e => makeClipping computed (makePositioned computed e))
      | HFoldNext el old =>
          _ ← start (Of (Scale el (ScaleOptions true false false false Box 100 1 false))) (base 0 1 1 false wave [(AfterFinish, HEnd el true true false old)] []);
          mret tt
      end
  end.
(** A handler starts effects without handlers for their start. *)
Definition run_hnd : hnd -> nat -> M unit := call 2.
Definition new (k : class kind) (o : opts) : M nat := start run_hnd k o.

(** ** The effects *)

(** src/piql/scadr/src/main/rails/public/javascripts/effects.js:561-583
    [Effect.Puff(element, options)] *)
Definition Puff (el : nat) (g : @given U) : M nat :=
  e ← element el;
  let oldStyle := [(k_opacity, getInlineOpacity e); (k_position, read k_position e); (k_top, inline e k_top); (k_left, inline e k_left);
                   (k_width, inline e k_width); (k_height, inline e k_height)] in
  a ← new (Of (Scale el (scale 200 true true true))) (plain 0 1 true);
  b ← new (Of (Opacity el)) (plain (opacity_or computed e 0) 0 true);
  new (Parallel [a; b])
    (merge (base 0 1 1 false wave [(BeforeSetup, HPuffSetup el); (AfterFinish, HEnd el true false false oldStyle)] []) g).

(** src/piql/scadr/src/main/rails/public/javascripts/effects.js:617-637
    [Effect.SwitchOff(element, options)]: an Appear, then a Scale *)
Definition SwitchOff (el : nat) (g : @given U) : M nat :=
  e ← element el;
  new (Of (Opacity el))
    (merge (base 0 1 (4#10) false flicker [(AfterFinish, HSwitchNext el (getInlineOpacity e))] [(BeforeSetup, HAppearSetup el (default 0%Q (g_from g)))]) g).

(** src/piql/scadr/src/main/rails/public/javascripts/effects.js:639-657
    [Effect.DropOut(element, options)] *)
Definition DropOut (el : nat) (g : @given U) : M nat :=
  e ← element el;
  let oldStyle := [(k_top, read k_top e); (k_left, read k_left e); (k_opacity, getInlineOpacity e)] in
  a ← new (Of (Move el 0 100 false)) (plain 0 1 true);
  b ← new (Of (Opacity el)) (plain (opacity_or computed e 0) 0 true);
  new (Parallel [a; b]) (merge (base 0 1 (1#2) false wave [(AfterFinish, HEnd el true false true oldStyle)] [(BeforeSetup, HDropSetup el)]) g).

(** src/piql/scadr/src/main/rails/public/javascripts/effects.js:659-684
    [Effect.Shake(element, options)]; only the distance and the duration of the
    options count. *)
Definition Shake (el : nat) (distance duration : Q) : M nat :=
  e ← element el;
  let oldStyle := [(k_top, read k_top e); (k_left, read k_left e)] in
  match shakes distance (duration / 10) with
  | (x, time) :: rest => new (Of (Move el x 0 false)) (base 0 1 time false wave [(AfterFinish, HShake el rest oldStyle)] [])
  | [] => throw TypeError
  end.

Definition slide_handlers (el : nat) (hides : bool) (bottom : css) : list (hook * hnd) :=
  [(AfterUpdate, HSlideUpdate el); (AfterFinish, HSlideEnd el hides bottom)].
(** src/piql/scadr/src/main/rails/public/javascripts/effects.js:686-712
    [Effect.SlideDown(element, options)], of an element without empty texts *)
Definition SlideDown (el : nat) (g : @given U) : M nat :=
  c ← inner el; i ← element c; e ← element el;
  let d := dimensions e in
  new (Of (Scale el (ScaleOptions false true false false (Given d.1 d.2) (if opera then 0 else 1) 100 true)))
    (merge (base 0 1 1 false wave (slide_handlers el false (read k_bottom i)) [(AfterSetup, HSlideSetup el true)]) g).

(** src/piql/scadr/src/main/rails/public/javascripts/effects.js:714-741
    [Effect.SlideUp(element, options)], of an element without empty texts *)
Definition SlideUp (el : nat) (g : @given U) : M nat :=
  c ← inner el; i ← element c; e ← element el;
  let d := dimensions e in
  new (Of (Scale el (ScaleOptions false true false false (Given d.1 d.2) 100 (if opera then 0 else 1) true)))
    (merge (base 0 1 1 false wave (slide_handlers el true (read k_bottom i)) [(AfterSetup, HSlideSetup el false)]) g).

(** src/piql/scadr/src/main/rails/public/javascripts/effects.js:744-754
    [Effect.Squish(element)] *)
Definition Squish (el : nat) : M nat :=
  new (Of (Scale el (scale (if opera then 1 else 0) true false true)))
    (base 0 1 1 false wave [(AfterFinish, HEnd el true true false [])] [(BeforeSetup, HSquishSetup el)]).

Inductive direction := TopLeft | TopRight | BottomLeft | BottomRight | Center.
(** The inline styles that Grow and Shrink put back *)
Definition old_styles (e : elem) : list (jstring * css) :=
  [(k_top, inline e k_top); (k_left, inline e k_left); (k_height, inline e k_height); (k_width, inline e k_width); (k_opacity, getInlineOpacity e)].

(** src/piql/scadr/src/main/rails/public/javascripts/effects.js:775-801
    [Effect.Grow]: where the element goes first, and then back *)
Definition grow_moves (d : direction) (height width : Q) : (Q * Q) * (Q * Q) :=
  match d with
  | TopLeft => ((0, 0), (0, 0))
  | TopRight => ((width, 0), (- width, 0))
  | BottomLeft => ((0, height), (0, - height))
  | BottomRight => ((width, height), (- width, - height))
  | Center => ((width / 2, height / 2), (- width / 2, - height / 2))
  end%Q.
(** src/piql/scadr/src/main/rails/public/javascripts/effects.js:756-828
    [Effect.Grow(element, options)]; the transitions of its parts are the usual
    ones. *)
Definition Grow (el : nat) (d : direction) (g : @given U) : M nat :=
  e ← element el;
  let dims := dimensions e in
  let '((x, y), move) := grow_moves d dims.1 dims.2 in
  new (Of (Move el x y false))
    (base 0 1 (1#100) false wave [(AfterFinish, HGrowNext el dims move g (old_styles e))] [(BeforeSetup, HGrowSetup el)]).

(** src/piql/scadr/src/main/rails/public/javascripts/effects.js:848-868
    [Effect.Shrink]: where the element goes *)
Definition shrink_move (d : direction) (height width : Q) : Q * Q :=
  match d with
  | TopLeft => (0, 0) | TopRight => (width, 0) | BottomLeft => (0, height) | BottomRight => (width, height)
  | Center => (width / 2, height / 2)
  end%Q.
(** src/piql/scadr/src/main/rails/public/javascripts/effects.js:830-882
    [Effect.Shrink(element, options)] *)
Definition Shrink (el : nat) (d : direction) (g : @given U) : M nat :=
  e ← element el;
  let dims := dimensions e in
  let move := shrink_move d dims.1 dims.2 in
  a ← new (Of (Opacity el)) (base 1 0 1 true (fun _ => 0%Q) [] []);
  b ← new (Of (Scale el (scale (if opera then 1 else 0) true false true))) (plain 0 1 true);
  c ← new (Of (Move el move.1 move.2 false)) (plain 0 1 true);
  new (Parallel [a; b; c])
    (merge (base 0 1 1 false wave [(BeforeStart, HShrinkStart el); (AfterFinish, HEnd el true true true (old_styles e))] []) g).

(** src/piql/scadr/src/main/rails/public/javascripts/effects.js:889-891
    [reverser(pos)] of Pulsate *)
Definition reverser (transition : Q -> Q) (pulses : Q) (pos : Q) : Q := (1 - transition (wave (pos * pulses * 2)))%Q.
(** src/piql/scadr/src/main/rails/public/javascripts/effects.js:884-897
    [Effect.Pulsate(element, options)]; no pulses count as five. *)
Definition Pulsate (el : nat) (pulses : Q) (g : @given U) : M nat :=
  e ← element el;
  let transition := match g_transition g with Some (Some t) => t | _ => (fun x => x) end in
  let pulses := if decide (pulses == 0)%Q then 5%Q else pulses in
  let o := merge (base 0 1 2 false wave [(AfterFinish, HEnd el false false false [(k_opacity, getInlineOpacity e)])] []) g in
  new (Of (Opacity el))
    (Options (from o) (to o) (delay o) (duration o) (fps o) (sync o) (queue o) (Some (reverser transition pulses)) (internal o) (handler o)).

(** src/piql/scadr/src/main/rails/public/javascripts/effects.js:899-918
    [Effect.Fold(element, options)]: the element is clipped at once. *)
Definition Fold (el : nat) (g : @given U) : M nat :=
  e ← element el;
  let oldStyle := [(k_top, inline e k_top); (k_left, inline e k_left); (k_width, inline e k_width); (k_height, inline e k_height)] in
  on el (makeClipping computed);;
  new (Of (Scale el (ScaleOptions false true false false Box 100 5 false))) (merge (base 0 1 1 false wave [(AfterFinish, HFoldNext el oldStyle)] []) g).

(** ** What they come to *)

Definition total (l : list Q) : Q := fold_right Qplus 0%Q l.

(** The moves of Shake lead back to where the element was, and take the time that
    was asked for. *)
Lemma shakes_return distance duration :
  (total (map fst (shakes distance (duration / 10))) == 0)%Q /\ (total (map snd (shakes distance (duration / 10))) == duration)%Q.
Proof. unfold total, shakes. cbn [map fold_right fst snd]. split; field. Qed.

(** The moves of Grow lead back too. *)
Lemma grow_returns d height width : let '(there, back) := grow_moves d height width in (there.1 + back.1 == 0)%Q /\ (there.2 + back.2 == 0)%Q.
Proof. destruct d; cbn; split; ring || field. Qed.

Lemma inline_hide e k : inline (hide e) k = if decide (k = k_display) then Word (js "none") else inline e k.
Proof. unfold hide. by rewrite inline_write. Qed.
Lemma inline_unposition e k : inline (undoPositioned e) k =
  if madePositioned e then if decide (k ∈ [k_position; k_top; k_left; k_bottom; k_right]) then Word [] else inline e k else inline e k.
Proof.
  unfold undoPositioned. destruct (madePositioned e); [|done]. rewrite !inline_write.
  destruct (decide (k ∈ _)) as [Hk|Hk]; repeat case_decide; try done; subst.
  - by rewrite !elem_of_cons, elem_of_nil in Hk; naive_solver.
  - by exfalso; apply Hk; decided.
  - by exfalso; apply Hk; decided.
  - by exfalso; apply Hk; decided.
  - by exfalso; apply Hk; decided.
  - by exfalso; apply Hk; decided.
Qed.
Lemma hide_marks e : madePositioned (hide e) = madePositioned e /\ overflow (hide e) = overflow e.
Proof. done. Qed.
Lemma positioned_setStyle l : forall e, madePositioned (setStyle l e) = madePositioned e.
Proof. induction l as [|[k v] l IH]; intros e; [done|]. simpl. rewrite IH. by destruct (bool_decide _). Qed.

(** At its end an effect has put back the styles it kept, the element is hidden when
    it goes away, the marks of clipping and positioning are gone with it, and all
    styles that none of this is about are as the effect left them. *)
Theorem finish_restores hides unclips unpositions old e :
  let e' := finish_styles hides unclips unpositions old e in
  (forall k v, NoDup (map fst old) -> (k, v) ∈ old -> inline e' k = if decide (k = k_opacity) then opacity_value v else v) /\
  (hides = true -> k_display ∉ map fst old -> visible e' = false) /\
  (unclips = true -> overflow e' = None) /\ (unpositions = true -> madePositioned e' = false) /\
  (forall k, k ∉ map fst old -> k ∉ [k_display; k_overflow; k_position; k_top; k_left; k_bottom; k_right] -> inline e' k = inline e k).
Proof.
  cbv zeta. unfold finish_styles. set (e1 := if hides then hide e else e). set (e2 := if unclips then undoClipping e1 else e1).
  set (e3 := if unpositions then undoPositioned e2 else e2).
  assert (forall k, k <> k_overflow -> k ∉ [k_position; k_top; k_left; k_bottom; k_right] -> inline e3 k = inline e1 k) as H3.
  { intros k Hk Hp. unfold e3. destruct unpositions; [rewrite inline_unposition, decide_False by done; destruct (madePositioned e2)|];
      unfold e2; destruct unclips; try done; by apply unclipping_keeps. }
  split; [|split; [|split; [|split]]].
  - intros k v Hnd Hin. by apply Morph.setStyle_in.
  - intros -> Hd. unfold visible. rewrite FxLook.setStyle_other by done. rewrite H3; [|done|decided].
    unfold e1. by rewrite inline_hide, decide_True.
  - intros ->. rewrite FxLook.overflow_setStyle. unfold e3, e2. destruct unpositions; [|apply FxLook.unclipped].
    unfold undoPositioned. destruct (madePositioned _); [apply (FxLook.unclipped e1)|apply FxLook.unclipped].
  - intros ->. rewrite positioned_setStyle. unfold e3, undoPositioned. by destruct (madePositioned e2) eqn:E.
  - intros k Ho Hk. rewrite FxLook.setStyle_other by done. rewrite H3; [|intros ->; apply Hk; decided|intros Hp; apply Hk; set_solver].
    unfold e1. destruct hides; [|done]. rewrite inline_hide, decide_False; [done|]. intros ->. apply Hk. decided.
Qed.
End combined.

(** ** An element that shakes *)

Definition seen (sheet : gmap jstring css) (e : elem) (k : jstring) : option css :=
  match sheet !! k with Some v => Some v | None => if decide (k = k_position) then Some (Word (js "static")) else None end.
Definition nobody (u : unit) (id : nat) (p : site) : site := p.
Definition linear (x : Q) : Q := x.
Notation world := (Fx.world (@hnd unit) kind site).

Section run.
Variable sheet : gmap jstring css.
Definition handlers : @hnd unit -> nat -> Fx.M (@hnd unit) kind site unit :=
  run_hnd (seen sheet) (fun _ => 0%Q) (fun _ => ((5, 6), (70, 80))%Q) (fun _ => None) nobody false linear.
Definition on_site (f : site -> site) : Fx.M (@hnd unit) kind site unit := modify (fun w => set_page (f (page w)) w).
(** The queue is looked at at some times. *)
Definition ticks (l : list Z) (w : world) : world :=
  fold_left (fun w t => (queue_loop handlers (fun k id => on_site (do_setup (seen sheet) FxLook.flat k id))
    (fun k id pos => on_site (do_update k id pos)) (fun k id => on_site (do_finish k id)) (js "global") (set_clock t w)).2) l w.
End run.

Definition box : elem := Style.Elem (<[k_left := Len 10 (js "px")]> ∅) false None.
Definition start_world (e : elem) : world := World ∅ 0 ∅ 1000 (Site {[1%nat := e]} ∅).
Definition shaken (sheet : gmap jstring css) (e : elem) (times : list Z) : world :=
  ticks sheet times (Shake (seen sheet) (fun _ => 0%Q) (fun _ => ((5, 6), (70, 80))%Q) (fun _ => None) nobody false linear 1 20 (1#2) (start_world e)).2.
Definition left_of (w : world) : css := inline (at_el (elems (page w)) 1) k_left.

(** After fifty milliseconds it is twenty pixels to the right, later as far to the
    left, and in the end where it was; no effect is left. *)
Lemma shake_runs :
  map (fun n => left_of (shaken ∅ box (map (fun i => 1000 + 10 * Z.of_nat i) (seq 1 n)))) [5; 15; 70]%nat
    = [Len 30 (js "px"); Len (-10) (js "px"); Len 10 (js "px")] /\
  Fx.effects (default (SQueue [] false) (queues (shaken ∅ box (map (fun i => 1000 + 10 * Z.of_nat i) (seq 1 70))) !! js "global")) = [].
Proof. split; vm_compute; reflexivity. Qed.

(** Shake keeps what is computed, not what is inline: an element whose place comes
    from a style sheet has it inline afterwards. *)
Lemma place_becomes_inline :
  let e := Style.Elem ∅ false None in
  let w := shaken {[k_left := Len 10 (js "px")]} e (map (fun i => 1000 + 10 * Z.of_nat i) (seq 1 70)) in
  inline e k_left = Word [] /\ left_of w = Len 10 (js "px").
Proof. split; vm_compute; reflexivity. Qed.
End Combined.
