(* ===== verification/JsRegex.v ===== *)
(** * Regular expressions of the language

    The backtracking matcher that the standard of the language describes: a term
    of [regex] is matched at a place of a text with a continuation, repetitions
    are greedy or lazy, and groups record the text they matched last.  The lemmas
    say what repetitions of a class of characters match. *)
From S2P Require Import Prelude JsString ProtoText.

Module Regex.

Inductive regex :=
  | Class (p : Z -> bool)                  (** one character of a class *)
  | Seq (r1 r2 : regex)
  | Alt (r1 r2 : regex)
  | Empty
  | Opt (r : regex)                        (** [r?] *)
  | Star (greedy : bool) (r : regex)       (** [r*] and [r*?] *)
  | Group (n : nat) (r : regex)            (** the group number [n] *)
  | Backref (n : nat)
  | Start | End                            (** [^] and [$] *)
  | Boundary                               (** [\b] *)
  | Ahead (r : regex).                     (** [(?=r)] *)

Notation Plus greedy r := (Seq r (Star greedy r)).
Definition Char (c : Z) : regex := Class (Z.eqb c).
Fixpoint Lit (s : jstring) : regex :=
  match s with [] => Empty | [c] => Char c | c :: s => Seq (Char c) (Lit s) end.
Definition alts (l : list regex) : regex :=
  match l with [] => Class (fun _ => false) | r :: l => fold_left Alt l r end.
Definition word_char : regex := Class is_word.
Definition white : regex := Class is_white.
Definition any_but (p : Z -> bool) : regex := Class (fun c => negb (p c)).
Definition dot : regex := Class (fun c => negb (is_lineterm c)).
Definition one_of (s : jstring) (c : Z) : bool := bool_decide (c ∈ s).

(** A place in a text: the character before, the rest, the groups so far. *)
Record place := Place { before : option Z; rest : jstring; caps : gmap nat jstring }.

Definition word_at (c : option Z) : bool := match c with Some c => is_word c | None => false end.
Definition at_boundary (st : place) : bool := xorb (word_at (before st)) (word_at (head (rest st))).

Fixpoint groups (r : regex) : list nat :=
  match r with
  | Seq r1 r2 | Alt r1 r2 => groups r1 ++ groups r2
  | Opt r | Star _ r | Ahead r => groups r
  | Group n r => n :: groups r
  | _ => []
  end.
Definition forget (ns : list nat) (st : place) : place :=
  Place (before st) (rest st) (fold_right delete (caps st) ns).
Definition record_cap (n : nat) (t : jstring) (st : place) : place :=
  Place (before st) (rest st) (<[n := t]> (caps st)).

(** The text between two places. *)
Definition between (st st' : place) : jstring := take (length (rest st) - length (rest st')) (rest st).

(** Passing over a text that is known to be there. *)
Definition skip (t : jstring) (st : place) : place :=
  Place (match last t with Some c => Some c | None => before st end) (drop (length t) (rest st)) (caps st).

Definition or_else {A} (o : option A) (k : unit -> option A) : option A :=
  match o with Some a => Some a | None => k tt end.

Section matching.
Context {A : Type}.

(** The loop of a repetition: [body] is one more round, [k] what comes after. *)
Fixpoint star (greedy : bool) (body : (place -> option A) -> place -> option A)
    (k : place -> option A) (n : nat) (st : place) : option A :=
  match n with
  | O => None
  | S n =>
      let more _ := body (fun st' => if (length (rest st') =? length (rest st))%nat then None
                                   else star greedy body k n st') st in
      if greedy then or_else (more tt) (fun _ => k st) else or_else (k st) more
  end.
End matching.

Fixpoint rm {A} (r : regex) (k : place -> option A) (st : place) {struct r} : option A :=
  match r with
  | Class p =>
      match rest st with
      | c :: s => if p c then k (Place (Some c) s (caps st)) else None
      | [] => None
      end
  | Seq r1 r2 => rm r1 (rm r2 k) st
  | Alt r1 r2 => or_else (rm r1 k st) (fun _ => rm r2 k st)
  | Empty => k st
  | Opt r =>
      or_else (rm r (fun st' => if (length (rest st') =? length (rest st))%nat then None else k st')
                 (forget (groups r) st))
              (fun _ => k st)
  | Star greedy r =>
      star greedy (fun k st => rm r k (forget (groups r) st)) k (S (length (rest st))) st
  | Group n r => rm r (fun st' => k (record_cap n (between st st') st')) st
  | Backref n =>
      let t := default [] (caps st !! n) in
      if prefixb t (rest st) then k (skip t st) else None
  | Start => match before st with None => k st | Some _ => None end
  | End => match rest st with [] => k st | _ => None end
  | Boundary => if at_boundary st then k st else None
  | Ahead r =>
      match rm r Some st with
      | Some st' => k (Place (before st) (rest st) (caps st'))
      | None => None
      end
  end.

(** [re.exec(s)]: the match at the leftmost place that has one; [n] groups. *)
Fixpoint exec_from (n : nat) (r : regex) (input : jstring) (i : Z) (b : option Z) (s : jstring)
    : option Text.rmatch :=
  match rm r Some (Place b s ∅) with
  | Some st =>
      Some (Text.Match i input (between (Place b s ∅) st) (map (fun j => caps st !! j) (seq 1 n)))
  | None => match s with c :: s => exec_from n r input (i + 1) (Some c) s | [] => None end
  end.
Definition exec (n : nat) (r : regex) : Text.regex := fun s => exec_from n r s 0 None s.

(** A group that took part in a match; [m[0]] is the text. *)
Definition group (m : Text.rmatch) (n : nat) : option jstring :=
  match n with O => Some (Text.m_text m) | S n => default None (Text.m_groups m !! n) end.

(** ** What the matcher does *)

(** A class takes the next character. *)
Lemma rm_class {A} p (k : place -> option A) b c s cs :
  rm (Class p) k (Place b (c :: s) cs) = if p c then k (Place (Some c) s cs) else None.
Proof. done. Qed.

Lemma rm_class_end {A} p (k : place -> option A) b cs : rm (Class p) k (Place b [] cs) = None.
Proof. done. Qed.

Definition end_of (b : option Z) (t : jstring) : option Z := match last t with Some c => Some c | None => b end.

Lemma end_of_cons b c t : end_of b (c :: t) = end_of (Some c) t.
Proof. unfold end_of. rewrite last_cons. by destruct (last t). Qed.

Lemma end_of_app b t u : end_of b (t ++ u) = end_of (end_of b t) u.
Proof. unfold end_of. rewrite last_app. by destruct (last u). Qed.

(** A literal text. *)
Lemma rm_lit {A} t (k : place -> option A) b s cs :
  rm (Lit t) k (Place b (t ++ s) cs) = k (Place (end_of b t) s cs).
Proof.
  revert b. induction t as [|c [|d t] IH]; intros b; [done| |].
  - simpl. by rewrite Z.eqb_refl.
  - change (rm (Lit (c :: d :: t)) k) with (rm (Char c) (rm (Lit (d :: t)) k)). unfold Char.
    cbn [app]. rewrite rm_class, Z.eqb_refl, end_of_cons. apply IH.
Qed.

Lemma rm_lit_none {A} t (k : place -> option A) b s cs :
  prefixb t s = false -> rm (Lit t) k (Place b s cs) = None.
Proof.
  revert b s. induction t as [|c [|d t] IH]; intros b s Hs; [done| |].
  - destruct s as [|x s]; [done|]. simpl in *. destruct (c =? x); [done|done].
  - change (rm (Lit (c :: d :: t)) k) with (rm (Char c) (rm (Lit (d :: t)) k)). unfold Char.
    destruct s as [|x s]; [done|]. rewrite rm_class. cbn [prefixb] in Hs. destruct (c =? x); [|done]. by apply IH.
Qed.

Lemma length_between (t s : jstring) b b' cs cs' : between (Place b (t ++ s) cs) (Place b' s cs') = t.
Proof. unfold between. simpl. rewrite length_app, Nat.add_sub. by rewrite take_app_length. Qed.

(** A repeated class: the loop tries the ends of the run of characters, the
    longest first if it is greedy. *)
Definition star_class {A} (greedy : bool) (p : Z -> bool) (k : place -> option A) n st :=
  star greedy (fun k st => rm (Class p) k (forget [] st)) k n st.

Fixpoint try_ends {A} (greedy : bool) (k : jstring -> option A) (w : jstring) : option A :=
  match w with
  | [] => k []
  | c :: w' =>
      let more _ := try_ends greedy (fun u => k (c :: u)) w' in
      if greedy then or_else (more tt) (fun _ => k []) else or_else (k []) more
  end.

Lemma try_ends_ext {A} greedy (k k' : jstring -> option A) w :
  (forall u, k u = k' u) -> try_ends greedy k w = try_ends greedy k' w.
Proof.
  revert k k'. induction w as [|c w IH]; intros k k' Hk; simpl; [done|].
  rewrite (IH (fun u => k (c :: u)) (fun u => k' (c :: u))) by done. rewrite Hk. done.
Qed.

Lemma rm_star_class {A} greedy p (k : place -> option A) w s : forall b cs,
  forallb p w = true -> (match s with c :: _ => p c = false | [] => True end) ->
  rm (Star greedy (Class p)) k (Place b (w ++ s) cs)
  = try_ends greedy (fun u => k (Place (end_of b u) (drop (length u) (w ++ s)) cs)) w.
Proof.
  intros b cs Hw Hs. cbn [rm rest]. change (star _ _ k) with (star_class greedy p k).
  assert (forall n, (length (w ++ s) < n)%nat ->
    star_class greedy p k n (Place b (w ++ s) cs)
    = try_ends greedy (fun u => k (Place (end_of b u) (drop (length u) (w ++ s)) cs)) w) as H; [|apply H; lia].
  revert k b Hw. induction w as [|c w IH]; intros k b Hw n Hn; (destruct n as [|n]; [lia|]).
  - unfold star_class. cbn [star]. cbn [rm forget fold_right before rest caps app].
    destruct s as [|c s]; [by destruct greedy; simpl; [|destruct (k _)]|]. rewrite Hs.
    destruct greedy; simpl; [done|]. by destruct (k _).
  - simpl in Hw. apply andb_true_iff in Hw as [Hc Hw]. unfold star_class. cbn [star].
    cbn [rm forget fold_right before rest caps app]. rewrite Hc.
    assert (forall X Y : option A, (if (length (w ++ s) =? length (c :: w ++ s))%nat then X else Y) = Y) as Hne.
    { intros X Y. rewrite (proj2 (Nat.eqb_neq _ _)); [done|simpl; lia]. }
    rewrite Hne. pose proof (IH k (Some c) Hw n ltac:(simpl in Hn; lia)) as HI.
    unfold star_class in HI. cbn [rm forget fold_right before rest caps] in HI. rewrite HI.
    cbn [try_ends]. rewrite (try_ends_ext greedy _ (fun u => k (Place (end_of b (c :: u)) (drop (length (c :: u)) (c :: w ++ s)) cs))).
    2: { intros u. by rewrite end_of_cons. }
    done.
Qed.

(** The greedy loop ends at the longest run, if that is a match. *)
Lemma try_longest {A} (k : jstring -> option A) w : is_Some (k w) -> try_ends true k w = k w.
Proof.
  revert k. induction w as [|c w IH]; intros k [a Ha]; [done|]. cbn [try_ends].
  rewrite IH by (by rewrite Ha). by rewrite Ha.
Qed.

(** The lazy loop goes on while there is no match. *)
Lemma try_lazy {A} (k : jstring -> option A) w :
  (forall u, u <> w -> u `prefix_of` w -> k u = None) -> try_ends false k w = k w.
Proof.
  revert k. induction w as [|c w IH]; intros k Hn; [done|]. cbn [try_ends].
  rewrite (Hn []) by (done || apply prefix_nil). simpl. apply (IH (fun u => k (c :: u))).
  intros u Hu Hp. apply Hn; [congruence|by apply prefix_cons].
Qed.

Lemma try_none {A} greedy (k : jstring -> option A) w :
  (forall u, u `prefix_of` w -> k u = None) -> try_ends greedy k w = None.
Proof.
  revert k. induction w as [|c w IH]; intros k Hn; simpl; [apply Hn, prefix_nil|].
  rewrite IH by (intros u Hu; apply Hn; by apply prefix_cons). rewrite (Hn []) by apply prefix_nil.
  by destruct greedy.
Qed.

(** An anchored pattern is only tried at the front. *)
Lemma exec_anchored n r s :
  exec n (Seq Start r) s = match rm r Some (Place None s ∅) with
    | Some st => Some (Text.Match 0 s (between (Place None s ∅) st) (map (fun j => caps st !! j) (seq 1 n)))
    | None => None end.
Proof.
  unfold exec. assert (forall s' i c, exec_from n (Seq Start r) s i (Some c) s' = None) as Hl.
  { induction s' as [|c' s' IH]; intros i c; [done|]. simpl. apply IH. }
  destruct s as [|c s]; cbn [exec_from rm before].
  - by destruct (rm r Some _).
  - destruct (rm r Some _); [done|]. apply Hl.
Qed.

(** A pattern is found when it matches at some place, and what is found is the
    match at the first such place. *)
Lemma exec_from_spec n r input s : forall i b,
  match exec_from n r input i b s with
  | Some m => exists a s' st, s = a ++ s' /\ rm r Some (Place (end_of b a) s' ∅) = Some st /\
      m = Text.Match (i + zlen a) input (between (Place (end_of b a) s' ∅) st) (map (fun j => caps st !! j) (seq 1 n)) /\
      forall a1 a2, a = a1 ++ a2 -> a2 <> [] -> rm r Some (Place (end_of b a1) (a2 ++ s') ∅) = None
  | None => forall a s', s = a ++ s' -> rm r Some (Place (end_of b a) s' ∅) = None
  end.
Proof.
  induction s as [|c s IH]; intros i b; cbn [exec_from].
  - destruct (rm r Some (Place b [] ∅)) as [st|] eqn:E.
    + exists [], [], st. rewrite zlen_nil, Z.add_0_r. split_and!; [done..|].
      intros a1 a2 Ha Hn. by destruct a1, a2.
    + intros a s' Ha. by destruct a, s'.
  - destruct (rm r Some (Place b (c :: s) ∅)) as [st|] eqn:E.
    + exists [], (c :: s), st. rewrite zlen_nil, Z.add_0_r. split_and!; [done..|].
      intros a1 a2 Ha Hn. by destruct a1, a2.
    + specialize (IH (i + 1) (Some c)). destruct (exec_from _ _ _ _ _ s) as [m|].
      * destruct IH as (a & s' & st & -> & Hst & -> & Hf). exists (c :: a), s', st.
        rewrite end_of_cons. split_and!; [done..|by rewrite zlen_cons, Z.add_assoc|].
        intros [|x a1] a2 Ha Hn; simpl in Ha.
        { subst a2. exact E. }
        injection Ha as <- ->. rewrite end_of_cons. by apply Hf.
      * intros [|x a] s' Ha; simpl in Ha; [by subst s'|]. injection Ha as <- ->. rewrite end_of_cons. by apply IH.
Qed.

Lemma exec_found n r s :
  is_some (exec n r s) = true <-> exists a s', s = a ++ s' /\ is_Some (rm r Some (Place (end_of None a) s' ∅)).
Proof.
  pose proof (exec_from_spec n r s s 0 None) as H. unfold exec. destruct (exec_from _ _ _ _ _ _) as [m|].
  - split; [|done]. intros _. destruct H as (a & s' & st & -> & Hst & _). exists a, s'. by rewrite Hst.
  - split; [done|]. intros (a & s' & Ha & Hs). rewrite (H a s' Ha) in Hs. by destruct Hs.
Qed.

(** A text without a repetition before it. *)
Lemma or_else_some {A} (o : option A) k : is_Some (or_else o k) <-> is_Some o \/ is_Some (k tt).
Proof. destruct o; simpl; [split; [by left|done]|]. split; [by right|]. intros [[? ?]|?]; done. Qed.

Lemma try_some {A} greedy (k : jstring -> option A) w :
  is_Some (try_ends greedy k w) <-> exists u, u `prefix_of` w /\ is_Some (k u).
Proof.
  revert k. induction w as [|c w IH]; intros k; simpl.
  - split; [intros H; by exists []|]. intros (u & Hu & H). by apply prefix_nil_inv in Hu as ->.
  - assert (is_Some (if greedy then or_else (try_ends greedy (fun u => k (c :: u)) w) (fun _ => k [])
       else or_else (k []) (fun _ => try_ends greedy (fun u => k (c :: u)) w)) <->
       is_Some (try_ends greedy (fun u => k (c :: u)) w) \/ is_Some (k [])) as ->.
    { destruct greedy; rewrite or_else_some; tauto. }
    rewrite IH. split.
    + intros [(u & Hu & H)|H]; [exists (c :: u); split; [by apply prefix_cons|done]|exists []; split; [apply prefix_nil|done]].
    + intros ([|d u] & Hu & H); [by right|]. left. exists u.
      apply prefix_cons_inv_1 in Hu as Hd. apply prefix_cons_inv_2 in Hu. by subst.
Qed.

Lemma try_ends_inv {A} greedy (k : jstring -> option A) w a :
  try_ends greedy k w = Some a -> exists u, u `prefix_of` w /\ k u = Some a.
Proof.
  revert k. induction w as [|c w IH]; intros k; simpl; [intros H; by exists []|]. intros H.
  assert (try_ends greedy (fun u => k (c :: u)) w = Some a \/ k [] = Some a) as [H'|H'].
  { destruct greedy; [destruct (try_ends true _ w); simpl in H|destruct (k []); simpl in H]; naive_solver. }
  - destruct (IH _ H') as (u & Hu & Hk). exists (c :: u). split; [by apply prefix_cons|done].
  - exists []. split; [apply prefix_nil|done].
Qed.

Lemma end_of_none a : end_of None a = None -> a = [].
Proof.
  unfold end_of. destruct (last a) eqn:E; [done|]. by apply last_None in E.
Qed.

(** A text is a run of characters of a class, and a rest that does not go on with it. *)
Lemma run_of (p : Z -> bool) (s : jstring) :
  exists w r, s = w ++ r /\ forallb p w = true /\ match r with c :: _ => p c = false | [] => True end.
Proof.
  induction s as [|c s (w & r & -> & Hw & Hr)]; [by exists [], []|]. destruct (p c) eqn:Hc.
  - exists (c :: w), r. simpl. by rewrite Hc.
  - by exists [], (c :: w ++ r).
Qed.

Lemma rm_plus_class_inv {A} greedy p (k : place -> option A) b s cs a :
  rm (Plus greedy (Class p)) k (Place b s cs) = Some a ->
  exists u r, u <> [] /\ forallb p u = true /\ s = u ++ r /\ k (Place (end_of b u) r cs) = Some a.
Proof.
  cbn [rm rest]. destruct s as [|c s]; [done|]. destruct (p c) eqn:Hc; [|done].
  destruct (run_of p s) as (w & r & -> & Hw & Hr). cbn [before rest caps].
  intros H. pose proof (rm_star_class greedy p k w r (Some c) cs Hw Hr) as Hs. cbn [rm rest] in Hs.
  rewrite Hs in H. apply try_ends_inv in H as (u & [t ->] & Hk). exists (c :: u), (t ++ r).
  split; [done|]. split.
  { simpl. rewrite Hc. rewrite forallb_app in Hw. by apply andb_true_iff in Hw as [-> _]. }
  split; [simpl; by rewrite <- app_assoc|]. rewrite end_of_cons. rewrite <- app_assoc, drop_app_length in Hk. exact Hk.
Qed.

End Regex.
