(* ===== verification/ProtoDom.v ===== *)
(** * The elements of a page

    What the browser offers on the tree of a page, and the methods of Prototype
    that walk over it.  Nodes are the paths of [Dom]; the attributes of elements
    and the properties of form controls are given by functions on them. *)
From S2P Require Import Prelude JsString Dom.

Module Page.
Import Dom.

Record page := Page {
  doc : node;
  attrs : ref -> gmap jstring jstring;     (** by the name in lower case *)
  p_disabled : ref -> bool;                (** the properties of form controls *)
  p_checked : ref -> bool;
  p_type : ref -> jstring                  (** empty or missing: false *)
}.

Section page.
Variable pg : page.
Implicit Types p q root : ref.

Notation at_ := (at_ (doc pg)).

(** *** What the browser offers *)
Definition is_elem p : bool := match at_ p with Some (Node (KElem _) _) => true | _ => false end.
Definition tagName p : jstring := match at_ p with Some (Node (KElem n) _) => n | _ => [] end.
Definition childNodes p : list ref :=
  match at_ p with Some n => map (fun i => i :: p) (seq 0 (length (kids n))) | None => [] end.
Definition getAttribute p (name : jstring) : option jstring := attrs pg p !! toLowerCase name.
Definition className p : jstring := default [] (attrs pg p !! js "class").
Definition id_of p : jstring := default [] (attrs pg p !! js "id").
Definition same_name (a b : jstring) : bool := bool_decide (toUpperCase a = toUpperCase b).

(** The elements below a node, in document order. *)
Definition elements root : list ref := filter (fun p => is_elem p = true) (order (doc pg) root).
Definition getElementsByTagName root (name : jstring) : list ref :=
  filter (fun p => bool_decide (name = js "*") || same_name (tagName p) name = true) (elements root).
Definition getElementById (i : jstring) : option ref :=
  match i with [] => None | _ => head (filter (fun p => id_of p = i) (elements [])) end.

(** How often a walk along [nextSibling], [previousSibling] or [parentNode] can
    go on from a node. *)
Definition siblings_of p : nat :=
  match p with [] => O | _ :: q => match at_ q with Some n => length (kids n) | None => O end end.
Definition fuel_of p : nat := S (length p + hd O p + siblings_of p).

(** *** Walking along a property *)
Section walk.
Variable property : ref -> option ref.
Fixpoint collect_walk (fuel : nat) p : list ref :=
  match fuel with
  | O => []
  | S fuel =>
      match property p with
      | Some q => (if is_elem q then [q] else []) ++ collect_walk fuel q
      | None => []
      end
  end.
Fixpoint find_walk (fuel : nat) p : option ref :=
  match fuel with
  | O => None
  | S fuel =>
      match property p with
      | Some q => if is_elem q then Some q else find_walk fuel q
      | None => None
      end
  end.
End walk.

(** src/piql/scadr/src/main/rails/public/javascripts/prototype.js:1689-1696
    [recursivelyCollect(element, property)] *)
Definition recursivelyCollect (property : ref -> option ref) p : list ref :=
  collect_walk property (fuel_of p) p.

Definition nextSibling := nextSibling (doc pg).

(** src/piql/scadr/src/main/rails/public/javascripts/prototype.js:1698-1700
    [ancestors(element)] *)
Definition ancestors p : list ref := recursivelyCollect parentNode p.

(** src/piql/scadr/src/main/rails/public/javascripts/prototype.js:1719-1721
    [previousSiblings(element)] *)
Definition previousSiblings p : list ref := recursivelyCollect previousSibling p.

(** src/piql/scadr/src/main/rails/public/javascripts/prototype.js:1723-1725
    [nextSiblings(element)] *)
Definition nextSiblings p : list ref := recursivelyCollect nextSibling p.

(** src/piql/scadr/src/main/rails/public/javascripts/prototype.js:1727-1730
    [siblings(element)] *)
Definition siblings p : list ref := rev (previousSiblings p) ++ nextSiblings p.

(** src/piql/scadr/src/main/rails/public/javascripts/prototype.js:3149-3153
    [Selector.handlers.nextElementSibling(node)] *)
Definition nextElementSibling p : option ref := find_walk nextSibling (fuel_of p) p.

(** src/piql/scadr/src/main/rails/public/javascripts/prototype.js:3155-3159
    [Selector.handlers.previousElementSibling(node)] *)
Definition previousElementSibling p : option ref := find_walk previousSibling (fuel_of p) p.

(** src/piql/scadr/src/main/rails/public/javascripts/prototype.js:1706-1710
    [firstDescendant(element)]: the first child that is an element. *)
Definition firstDescendant p : option ref :=
  match firstChild (doc pg) p with
  | Some c => if is_elem c then Some c else find_walk nextSibling (fuel_of c) c
  | None => None
  end.

(** src/piql/scadr/src/main/rails/public/javascripts/prototype.js:1712-1717
    [immediateDescendants(element)] *)
Definition immediateDescendants p : list ref :=
  match firstDescendant p with
  | Some c => c :: nextSiblings c
  | None => []
  end.

(** src/piql/scadr/src/main/rails/public/javascripts/prototype.js:1878-1891
    [descendantOf(element, ancestor)]: the loop over the parents, which the two
    calls of the browser in front of it answer as well. *)
Fixpoint descendantOf p (ancestor : ref) : bool :=
  match p with
  | [] => false
  | _ :: q => if decide (q = ancestor) then true else descendantOf q ancestor
  end.

(** ** What the walks visit *)

Lemma is_elem_node p : is_elem p = true -> is_Some (at_ p).
Proof. unfold is_elem. destruct (at_ p); [by eexists|done]. Qed.

Lemma at_parent i p n : at_ (i :: p) = Some n -> exists m, at_ p = Some m /\ kids m !! i = Some n.
Proof. simpl. destruct (at_ p) as [m|]; [|done]. intros H. by exists m. Qed.

Lemma descendantOf_spec p a : descendantOf p a = true <-> exists l, l <> [] /\ p = l ++ a.
Proof.
  induction p as [|i q IH]; simpl.
  - split; [done|]. intros (l & Hl & He). destruct l; [done|]. by simplify_eq.
  - case_decide as Hq.
    + subst. split; [|done]. intros _. by exists [i].
    + rewrite IH. split.
      * intros (l & Hl & ->). by exists (i :: l).
      * intros ([|j l] & Hl & He); [done|]. simplify_eq/=. exists l. split; [|done]. by intros ->.
Qed.

(** The node at a path below a node, outermost index first. *)
Fixpoint sub (l : list nat) (n : node) : option node :=
  match l with [] => Some n | i :: l => k ← kids n !! i; sub l k end.

Lemma sub_app a b n : sub (a ++ b) n = m ← sub a n; sub b m.
Proof. revert n. induction a as [|i a IH]; intros n; [done|]. simpl. destruct (kids n !! i); [apply IH|done]. Qed.

Lemma pre_path n : forall p l m, sub (rev l) n = Some m -> l ++ p ∈ pre n p.
Proof.
  induction n as [k ks IH] using node_nested_ind. intros p l. induction l as [|j l _] using rev_ind; intros m Hm.
  { rewrite pre_eq. left. }
  rewrite rev_unit in Hm. cbn [sub kids] in Hm. destruct (ks !! j) as [c|] eqn:Hc; [|done]. simpl in Hm. rewrite pre_eq, <- app_assoc. right. cbn [app]. rewrite Forall_forall in IH.
  assert (forall q, l ++ q ∈ pre c q) as Hq by (intros q; eapply IH; [by eapply list_elem_of_lookup_2|exact Hm]).
  assert (forall i, l ++ (i + j)%nat :: p ∈ pre_kids ks i p) as H; [|apply (H 0%nat)].
  clear IH Hm. revert j Hc. induction ks as [|k0 ks IHk]; intros j Hc i; [done|]. simpl. apply elem_of_app.
  destruct j as [|j]; simpl in Hc.
  - simplify_eq. left. rewrite Nat.add_0_r. apply Hq.
  - right. replace (i + S j)%nat with (S i + j)%nat by lia. by apply IHk.
Qed.

Lemma at_app l p n : at_ p = Some n -> at_ (l ++ p) = sub (rev l) n.
Proof.
  intros Hp. induction l as [|i l IH]; [done|]. cbn [app rev Dom.at_]. rewrite IH, sub_app.
  destruct (sub (rev l) n) as [m|]; [|done]. simpl. by destruct (kids m !! i).
Qed.

Lemma elem_of_order p root : is_Some (at_ root) ->
  p ∈ order (doc pg) root <-> is_Some (at_ p) /\ exists l, l <> [] /\ p = l ++ root.
Proof.
  intros [n Hn]. split.
  - intros Hp. split; [|by eapply order_below].
    unfold order in Hp. rewrite Hn in Hp. destruct n as [k ks]. cbn [kids] in Hp.
    assert (forall m q p, at_ q = Some m -> p ∈ pre m q -> is_Some (at_ p)) as Hpre.
    { clear. induction m as [k ks IH] using node_nested_ind. intros q p Hq. rewrite pre_eq.
      intros [->|Hp]%elem_of_cons; [by eexists|].
      assert (forall i, (forall j, ks !! j = kids (Node k ks) !! (i + j)%nat) -> p ∈ pre_kids ks i q -> is_Some (at_ p)) as H;
        [|by apply (H 0%nat)].
      clear Hp. remember (kids (Node k ks)) as all eqn:Ha. assert (exists k0, at_ q = Some (Node k0 all)) as [k0 Hq0].
      { exists k. by rewrite Hq, Ha. }
      clear Hq Ha. induction ks as [|m ks IHk]; intros i Hi Hp; [by apply elem_of_nil in Hp|].
      apply Forall_cons in IH as [Hm IH]. simpl in Hp. apply elem_of_app in Hp as [Hp|Hp].
      - apply (Hm (i :: q)); [|done]. simpl. rewrite Hq0. simpl. rewrite <- (Nat.add_0_r i), <- Hi. done.
      - apply (IHk IH (S i)); [|done]. intros j. rewrite Nat.add_succ_comm. apply (Hi (S j)). }
    assert (p ∈ pre (Node k ks) root) as Hp' by (rewrite pre_eq; by right). by eapply Hpre.
  - intros (Hp & l & Hl & ->). destruct Hp as [m Hm]. rewrite (at_app l root n Hn) in Hm.
    apply pre_path with (p := root) in Hm. unfold order. rewrite Hn. destruct n as [k ks].
    rewrite pre_eq in Hm. apply elem_of_cons in Hm as [Hm|Hm]; [|done].
    destruct l; [done|]. apply (f_equal length) in Hm. simpl in Hm. rewrite length_app in Hm. lia.
Qed.

Lemma elem_of_elements p root : is_Some (at_ root) ->
  p ∈ elements root <-> is_elem p = true /\ descendantOf p root = true.
Proof.
  intros Hr. unfold elements. rewrite list_elem_of_filter, elem_of_order, descendantOf_spec by done.
  split; [tauto|]. intros [He Hl]. split; [done|]. split; [by apply is_elem_node|done].
Qed.

Lemma NoDup_elements root : NoDup (elements root).
Proof. apply NoDup_filter, NoDup_order. Qed.

(** A walk along a chain of nodes finds the elements of the chain. *)
Lemma walk_chain property l : forall fuel p, linked property (p :: l) None -> (length l < fuel)%nat ->
  collect_walk property fuel p = filter (fun q => is_elem q = true) l /\
  find_walk property fuel p = head (filter (fun q => is_elem q = true) l).
Proof.
  induction l as [|q l IH]; intros [|fuel] p Hl Hf; try (simpl in Hf; lia).
  - simpl in Hl. simpl. by rewrite Hl.
  - destruct Hl as [Hq Hl]. destruct (IH fuel q Hl ltac:(simpl in Hf; lia)) as [IHc IHf].
    cbn [collect_walk find_walk]. rewrite Hq, IHc, IHf, filter_cons.
    destruct (is_elem q); [by rewrite decide_True|by rewrite decide_False].
Qed.

(** The nodes behind and before a node, and above it, nearest first. *)
Definition behind p : list ref :=
  match p with [] => [] | i :: q => map (fun j => j :: q) (seq (S i) (siblings_of p - S i)) end.
Definition in_front p : list ref :=
  match p with [] => [] | i :: q => map (fun j => j :: q) (rev (seq 0 i)) end.
Fixpoint above p : list ref := match p with [] => [] | _ :: q => q :: above q end.

Lemma behind_linked p : is_Some (at_ p) -> linked nextSibling (p :: behind p) None.
Proof.
  destruct p as [|i q]; [done|]. intros [n (m & Hm & Hi)%at_parent]. unfold behind, siblings_of. rewrite Hm.
  assert (forall j, nextSibling (j :: q) = if decide (S j < length (kids m))%nat then Some (S j :: q) else None) as Hn.
  { intros j. unfold nextSibling, Dom.nextSibling, is_node. cbn [Dom.at_]. rewrite Hm. cbn [mbind option_bind].
    case_decide as Hj.
    - apply lookup_lt_is_Some in Hj as [k Hk]. by rewrite Hk.
    - by rewrite lookup_ge_None_2 by lia. }
  apply lookup_lt_Some in Hi. remember (length (kids m) - S i)%nat as k eqn:Hk. clear n. revert i Hi Hk.
  induction k as [|k IH]; intros i Hi Hk; cbn [seq map linked].
  - rewrite Hn, decide_False; [done|lia].
  - split; [|apply IH; lia]. rewrite Hn, decide_True; [done|lia].
Qed.

Lemma in_front_linked p : linked previousSibling (p :: in_front p) None.
Proof.
  destruct p as [|i q]; [done|]. unfold in_front. induction i as [|i IH]; [done|].
  rewrite seq_S, rev_unit. simpl. split; [done|]. exact IH.
Qed.

Lemma above_linked p : linked parentNode (p :: above p) None.
Proof. induction p as [|i q IH]; [done|]. split; [done|exact IH]. Qed.

Lemma length_behind p : length (behind p) = (siblings_of p - S (hd O p))%nat.
Proof. destruct p; [done|]. unfold behind. by rewrite length_map, length_seq. Qed.
Lemma length_in_front p : length (in_front p) = hd O p.
Proof. destruct p; [done|]. unfold in_front. by rewrite length_map, length_rev, length_seq. Qed.
Lemma length_above p : length (above p) = length p.
Proof. induction p as [|i q IH]; [done|]. simpl. by rewrite IH. Qed.

Notation only_elems := (filter (fun q => is_elem q = true)).

(** The siblings behind a node, in the order of the page. *)
Lemma nextSiblings_spec p : is_Some (at_ p) ->
  nextSiblings p = only_elems (behind p) /\ nextElementSibling p = head (only_elems (behind p)).
Proof.
  intros Hp. apply walk_chain; [by apply behind_linked|]. rewrite length_behind. unfold fuel_of. lia.
Qed.

(** The siblings before a node, backwards. *)
Lemma previousSiblings_spec p :
  previousSiblings p = only_elems (in_front p) /\ previousElementSibling p = head (only_elems (in_front p)).
Proof. apply walk_chain; [apply in_front_linked|]. rewrite length_in_front. unfold fuel_of. lia. Qed.

(** The ancestors, from the parent up. *)
Lemma ancestors_spec p : ancestors p = only_elems (above p).
Proof. apply walk_chain; [apply above_linked|]. rewrite length_above. unfold fuel_of. lia. Qed.

(** The elements around an element, in the order of the page: siblings gives all
    children of the parent that are elements but the element itself. *)
Theorem siblings_spec i q : is_Some (at_ (i :: q)) -> is_elem (i :: q) = true ->
  exists l1 l2, only_elems (childNodes q) = l1 ++ (i :: q) :: l2 /\ siblings (i :: q) = l1 ++ l2.
Proof.
  intros Hp He. unfold siblings. rewrite (proj1 (nextSiblings_spec _ Hp)), (proj1 (previousSiblings_spec _)).
  exists (only_elems (map (fun j => j :: q) (seq 0 i))), (only_elems (behind (i :: q))).
  destruct Hp as [n (m & Hm & Hi)%at_parent]. apply lookup_lt_Some in Hi.
  assert (childNodes q = map (fun j => j :: q) (seq 0 i) ++ (i :: q) :: behind (i :: q)) as ->.
  { unfold childNodes, behind, siblings_of. rewrite Hm.
    replace (length (kids m)) with (i + S (length (kids m) - S i))%nat at 1 by lia.
    rewrite seq_app, map_app. by rewrite Nat.add_0_l. }
  rewrite filter_app, filter_cons, decide_True by done. split; [done|]. f_equal.
  unfold in_front. assert (forall l : list ref, rev (only_elems (rev l)) = only_elems l) as Hr.
  { induction l as [|x l IH]; [done|]. cbn [rev]. rewrite filter_app, rev_app_distr, IH, !filter_cons.
    rewrite filter_nil. by destruct (decide _). }
  by rewrite map_rev, Hr.
Qed.

End page.
End Page.
