(* ===== verification/ProtoClass.v ===== *)
(** * Class names of elements

    The class attribute of an element is a text of words between white space.
    Prototype changes it in two ways: by patterns that are made from the name, and
    as the collection [Element.ClassNames].  What the constructor of patterns makes
    of a source text is a parameter. *)
From S2P Require Import Prelude JsString ProtoText ProtoStr JsRegex.
Import Regex.

Module ClassName.

(** The words of the attribute: what the collection enumerates. *)
(** src/piql/scadr/src/main/rails/public/javascripts/prototype.js:4291-4295
    [Element.ClassNames._each(iterator)]: the names that are enumerated. *)
Definition each (className : jstring) : list jstring :=
  filter (fun name => name <> []) (Str.split_white [] className false).

(** src/piql/scadr/src/main/rails/public/javascripts/prototype.js:4301-4304
    [Element.ClassNames.add(classNameToAdd)] *)
Definition add (classNameToAdd className : jstring) : jstring :=
  if bool_decide (classNameToAdd ∈ each className) then className
  else join [c_space] (each className ++ [classNameToAdd]).

(** src/piql/scadr/src/main/rails/public/javascripts/prototype.js:4306-4309
    [Element.ClassNames.remove(classNameToRemove)] *)
Definition remove (classNameToRemove className : jstring) : jstring :=
  if bool_decide (classNameToRemove ∈ each className)
  then join [c_space] (filter (fun name => name <> classNameToRemove) (each className)) else className.

(** src/piql/scadr/src/main/rails/public/javascripts/prototype.js:4311-4313
    [Element.ClassNames.toString()] *)
Definition toString (className : jstring) : jstring := join [c_space] (each className).

Section methods.
(** [new RegExp(source)]; [None] is a syntax error. *)
Variable RegExp : jstring -> option regex.

(** src/piql/scadr/src/main/rails/public/javascripts/prototype.js:1834-1839
    [hasClassName(element, className)] *)
Definition hasClassName (elementClassName className : jstring) : option bool :=
  if bool_decide (elementClassName = []) then Some false
  else if bool_decide (elementClassName = className) then Some true
  else re ← RegExp (js "(^|\s)" ++ className ++ js "(\s|$)"); Some (is_some (exec 2 re elementClassName)).

(** src/piql/scadr/src/main/rails/public/javascripts/prototype.js:1841-1846
    [addClassName(element, className)] *)
Definition addClassName (elementClassName className : jstring) : option jstring :=
  b ← hasClassName elementClassName className;
  Some (if (b : bool) then elementClassName
        else elementClassName ++ (if bool_decide (elementClassName = []) then [] else [c_space]) ++ className).

(** src/piql/scadr/src/main/rails/public/javascripts/prototype.js:1848-1853
    [removeClassName(element, className)]: the first match is replaced. *)
Definition removeClassName (elementClassName className : jstring) : option jstring :=
  re ← RegExp (js "(^|\s+)" ++ className ++ js "(\s+|$)");
  Some (Str.strip (match exec 2 re elementClassName with
    | Some m => ztake (Text.m_index m) elementClassName ++ [c_space]
                ++ zdrop (Text.m_index m + zlen (Text.m_text m)) elementClassName
    | None => elementClassName
    end)).

(** src/piql/scadr/src/main/rails/public/javascripts/prototype.js:1855-1859
    [toggleClassName(element, className)] *)
Definition toggleClassName (elementClassName className : jstring) : option jstring :=
  b ← hasClassName elementClassName className;
  if (b : bool) then removeClassName elementClassName className else addClassName elementClassName className.

(** ** Words *)

Lemma keep_inside s : filter (fun name => name <> []) (Str.split_white [] s true) = each s.
Proof. unfold each. destruct s as [|c s]; [done|]. simpl. by destruct (is_white c). Qed.

Lemma each_white c s : is_white c = true -> each (c :: s) = each s.
Proof. intros Hc. unfold each at 1. simpl. rewrite Hc, filter_cons, decide_False by (intros H; by apply H). apply keep_inside. Qed.

Lemma each_word w s :
  Str.dense w -> (match s with c :: _ => is_white c = true | [] => True end) -> each (w ++ s) = w :: each s.
Proof.
  intros Hw Hs. unfold each at 1. rewrite Str.split_word by done. cbn [app].
  destruct s as [|c s]; simpl.
  - rewrite filter_cons, decide_True by apply Hw. done.
  - rewrite Hs. rewrite filter_cons, decide_True by apply Hw. rewrite keep_inside. by rewrite each_white.
Qed.

Lemma each_one w : Str.dense w -> each w = [w].
Proof. intros Hw. pose proof (each_word w [] Hw I) as H. by rewrite app_nil_r in H. Qed.

(** Every text is empty, or starts with white space, or with a word. *)
Lemma word_start s : s = [] \/ (exists c s', s = c :: s' /\ is_white c = true) \/
  exists w s', s = w ++ s' /\ Str.dense w /\ match s' with c :: _ => is_white c = true | [] => True end.
Proof.
  induction s as [|c s IH]; [by left|]. right. destruct (is_white c) eqn:Hc; [left; eauto|right].
  assert (Str.dense [c]) as Hd. { split; [done|]. by intros x ->%list_elem_of_singleton. }
  destruct IH as [->|[(d & s' & -> & Hd')|(w & s' & -> & [Hne Hw] & Hs)]].
  - by exists [c], [].
  - by exists [c], (d :: s').
  - exists (c :: w), s'. split; [done|]. split; [|done]. split; [done|].
    intros x [->|Hx]%elem_of_cons; [done|by apply Hw].
Qed.

(** Recursion over the words of a text. *)
Lemma words_ind (P : jstring -> Prop) :
  P [] -> (forall c s, is_white c = true -> P s -> P (c :: s)) ->
  (forall w s, Str.dense w -> (match s with c :: _ => is_white c = true | [] => True end) -> P s -> P (w ++ s)) ->
  forall s, P s.
Proof.
  intros H0 Hc Hw s. remember (length s) as n eqn:Hn. revert s Hn.
  induction (lt_wf n) as [n _ IH]. intros s ->.
  destruct (word_start s) as [->|[(c & s' & -> & Hd)|(w & s' & -> & Hd & Hs)]]; [done| |].
  - apply Hc; [done|]. eapply IH; [|done]. simpl. lia.
  - apply Hw; [done|done|]. eapply IH; [|done]. rewrite length_app. destruct Hd as [Hne _].
    destruct w; [done|]. simpl. lia.
Qed.

Lemma each_app x c t : is_white c = true -> each (x ++ c :: t) = each x ++ each t.
Proof.
  intros Hc. induction x as [|d x Hd IH|w x Hw Hx IH] using words_ind.
  - by rewrite app_nil_l, each_white.
  - cbn [app]. by rewrite !each_white.
  - rewrite <- app_assoc, (each_word w (x ++ c :: t)), IH, (each_word w x) by (done || by destruct x). done.
Qed.

(** A name that stands in a text between white space or the ends. *)
Definition stands (name s : jstring) : Prop := exists x y, s = x ++ name ++ y /\
  (x = [] \/ exists c x', x = x' ++ [c] /\ is_white c = true) /\
  match y with c :: _ => is_white c = true | [] => True end.

Lemma stands_each name s : Str.dense name -> stands name s <-> name ∈ each s.
Proof.
  intros Hn. split.
  - intros (x & y & -> & Hx & Hy). destruct Hx as [->|(c & x' & -> & Hc)].
    + cbn [app]. rewrite each_word by done. left.
    + rewrite <- app_assoc. cbn [app]. rewrite each_app, each_word by done. apply elem_of_app. right. left.
  - induction s as [|d s Hd IH|w s Hw Hs IH] using words_ind.
    + by intros ?%elem_of_nil.
    + rewrite each_white by done. intros (x & y & -> & Hx & Hy)%IH. exists (d :: x), y. split; [done|].
      split; [|done]. right. destruct Hx as [->|(c & x' & -> & Hc)]; [by exists d, []|by exists c, (d :: x')].
    + rewrite each_word by done. intros [->|Hin]%elem_of_cons.
      { exists [], s. split; [done|]. split; [by left|done]. }
      destruct (IH Hin) as (x & y & -> & Hx & Hy). exists (w ++ x), y. split; [by rewrite app_assoc|].
      split; [|done]. right. destruct Hx as [->|(c & x' & -> & Hc)]; [|exists c, (w ++ x'); by rewrite app_assoc].
      exfalso. destruct Hn as [Hne Hn]. destruct name as [|c name]; [done|]. simpl in Hs.
      rewrite Hn in Hs; [done|apply list_elem_of_here].
Qed.

(** The patterns that the constructor makes of a plain name. *)
Definition has_re (name : jstring) : regex :=
  Seq (Group 1 (Alt Start white)) (Seq (Lit name) (Group 2 (Alt white End))).
Definition remove_re (name : jstring) : regex :=
  Seq (Group 1 (Alt Start (Plus true white))) (Seq (Lit name) (Group 2 (Alt (Plus true white) End))).

(** The name of a class that no character of a pattern has a meaning in. *)
Definition plain (name : jstring) : Prop := name <> [] /\ forallb (fun c => is_word c || (c =? c_dash)) name = true.

Lemma plain_dense name : plain name -> Str.dense name.
Proof.
  intros [Hne Hn]. split; [done|]. intros c Hc. rewrite forallb_forall in Hn.
  specialize (Hn c (proj1 (list_elem_of_In _ _) Hc)). unfold is_word, is_digit, is_upper, is_lower in Hn.
  unfold is_white. lia.
Qed.

Hypothesis RegExp_has : forall name, plain name -> RegExp (js "(^|\s)" ++ name ++ js "(\s|$)") = Some (has_re name).
Hypothesis RegExp_remove : forall name, plain name -> RegExp (js "(^|\s+)" ++ name ++ js "(\s+|$)") = Some (remove_re name).

(** The name at a place, with what follows it. *)
Lemma rm_name {A} name tail (k : place -> option A) b s cs a :
  rm (Seq (Lit name) tail) k (Place b s cs) = Some a ->
  exists r, s = name ++ r /\ rm tail k (Place (end_of b name) r cs) = Some a.
Proof.
  cbn [rm]. destruct (prefixb name s) eqn:E.
  - apply prefixb_true in E as [r ->]. rewrite rm_lit. intros H. by exists r.
  - by rewrite rm_lit_none.
Qed.

Definition name_tail (name : jstring) : regex := Seq (Lit name) (Group 2 (Alt white End)).

Lemma name_tail_inv name st0 st : rm (name_tail name) Some st0 = Some st ->
  exists r, rest st0 = name ++ r /\ match r with c :: _ => is_white c = true | [] => True end.
Proof.
  destruct st0 as [b s cs]. intros (r & -> & Hr)%rm_name. exists r. split; [done|]. cbn [rm rest] in Hr.
  destruct r as [|c r]; [done|]. unfold white in Hr. cbn [rm rest] in Hr. by destruct (is_white c).
Qed.

Lemma name_tail_some name y b cs : match y with c :: _ => is_white c = true | [] => True end ->
  is_Some (rm (name_tail name) Some (Place b (name ++ y) cs)).
Proof.
  intros Hy. unfold name_tail. cbn [rm]. rewrite rm_lit. unfold white. cbn [rm rest].
  destruct y as [|c y]; [by eexists|]. rewrite Hy. by eexists.
Qed.

Lemma has_found name s : Str.dense name -> is_some (exec 2 (has_re name) s) = true <-> stands name s.
Proof.
  intros Hn. rewrite exec_found. change (has_re name) with (Seq (Group 1 (Alt Start white)) (name_tail name)).
  pose proof (name_tail_inv name) as Hinv. pose proof (name_tail_some name) as Hsome.
  generalize dependent (name_tail name). intros body Hinv Hsome. unfold white. cbn [rm before rest caps]. split.
  - intros (a & s' & -> & st & Hst).
    assert (end_of None a = None /\ (exists st0, rm body Some st0 = Some st /\ rest st0 = s') \/
            exists c s2 st0, s' = c :: s2 /\ is_white c = true /\ rm body Some st0 = Some st /\ rest st0 = s2) as H.
    { destruct (end_of None a); simpl in Hst.
      2: destruct (rm body _ _) eqn:E1 in Hst; simpl in Hst; [simplify_eq; left; split; [done|by eexists]|].
      all: destruct s' as [|c s']; [done|]; destruct (is_white c) eqn:Hc; [|done]; right; by eexists c, s', _. }
    destruct H as [[->%end_of_none (st0 & Hb & <-)]|(c & s2 & st0 & -> & Hc & Hb & <-)];
      apply Hinv in Hb as (r & -> & Hr).
    + exists [], r. split; [done|]. split; [by left|done].
    + exists (a ++ [c]), r. split; [by rewrite <- app_assoc|]. split; [right; by exists c, a|done].
  - intros (x & y & -> & Hx & Hy). destruct Hx as [->|(c & x' & -> & Hc)].
    + exists [], (name ++ y). split; [done|]. cbn [end_of last]. apply or_else_some. left. by apply Hsome.
    + exists x', (c :: name ++ y). split; [by rewrite <- app_assoc|]. rewrite Hc.
      apply or_else_some. right. by apply Hsome.
Qed.

(** [hasClassName] tells whether the name is a word of the attribute. *)
Lemma hasClassName_spec cls name : plain name ->
  hasClassName cls name = Some (bool_decide (name ∈ each cls)).
Proof.
  intros Hp. unfold hasClassName. pose proof (plain_dense _ Hp) as Hd. case_bool_decide as He; [by subst|].
  case_bool_decide as Hs.
  - subst. f_equal. symmetry. apply bool_decide_eq_true. rewrite each_one by done. left.
  - rewrite RegExp_has by done. cbn. f_equal. apply eq_true_iff_eq.
    by rewrite has_found, stands_each, bool_decide_eq_true by done.
Qed.

Lemma each_end cls name : Str.dense name ->
  each (cls ++ (if bool_decide (cls = []) then [] else [c_space]) ++ name) = each cls ++ [name].
Proof.
  intros Hd. pose proof (each_one name Hd) as Hw.
  case_bool_decide as He; [by subst|]. cbn [app]. by rewrite each_app, Hw.
Qed.


(** ** Removing *)

Lemma each_blank s : forallb is_white s = true -> each s = [].
Proof.
  induction s as [|c s IH]; [done|]. cbn [forallb]. intros [Hc Hs]%andb_true_iff. rewrite each_white by done. by apply IH.
Qed.

Lemma each_app_blank a b : forallb is_white b = true -> each (a ++ b) = each a.
Proof.
  destruct b as [|c b]; [by rewrite app_nil_r|]. cbn [forallb]. intros [Hc Hb]%andb_true_iff.
  by rewrite each_app, (each_blank b), app_nil_r by done.
Qed.

Lemma each_drop_blank a b : forallb is_white a = true -> each (a ++ b) = each b.
Proof. induction a as [|c a IH]; [done|]. cbn [forallb app]. intros [Hc Ha]%andb_true_iff. by rewrite each_white, IH. Qed.

Lemma drop_white_split s : exists w, forallb is_white w = true /\ s = w ++ Str.drop_white s.
Proof.
  unfold Str.drop_white. induction s as [|c s (w & Hw & Hs)]; [by exists []|]. cbn [Text.span].
  destruct (is_white c) eqn:Hc; [|by exists []]. destruct (Text.span is_white s) as [u r]. simpl in *.
  exists (c :: w). cbn [forallb app]. rewrite Hc, Hw. split; [done|]. by rewrite Hs at 1.
Qed.

Lemma each_strip s : each (Str.strip s) = each s.
Proof.
  unfold Str.strip. destruct (drop_white_split s) as (w & Hw & Hs). rewrite Hs at 2. rewrite each_drop_blank by done.
  set (t := Str.drop_white s). destruct (drop_white_split (rev t)) as (v & Hv & Ht).
  assert (t = rev (Str.drop_white (rev t)) ++ rev v) as Ht2.
  { rewrite <- rev_app_distr, <- Ht. by rewrite rev_involutive. }
  rewrite Ht2 at 2. symmetry. apply each_app_blank. rewrite forallb_forall in Hv |- *. intros c Hc. apply Hv. by apply in_rev.
Qed.

(** What a match of the pattern that removes a name takes out. *)
Definition remove_tail (name : jstring) : regex := Seq (Lit name) (Group 2 (Alt (Plus true white) End)).

Lemma remove_tail_inv name b s cs st : rm (remove_tail name) Some (Place b s cs) = Some st ->
  exists q, s = name ++ q ++ rest st /\ forallb is_white q = true /\ (q = [] -> rest st = []).
Proof.
  intros (r & -> & Hr)%rm_name. remember (Plus true white) as ws eqn:Hws. cbn [rm] in Hr. subst ws.
  match type of Hr with or_else ?o _ = _ => destruct o eqn:E end.
  - injection Hr as ->. apply (rm_plus_class_inv true) in E as (u & r' & Hu & Hw & -> & Hk).
    injection Hk as <-. exists u. simpl. done.
  - simpl in Hr. destruct r as [|c r]; [|done]. injection Hr as <-. exists []. done.
Qed.

(** [white+] and a name, or a name at the start. *)
Lemma remove_inv name b s st : rm (remove_re name) Some (Place b s ∅) = Some st ->
  exists p q, s = p ++ name ++ q ++ rest st /\ forallb is_white p = true /\ (p = [] -> b = None) /\
    forallb is_white q = true /\ (q = [] -> rest st = []).
Proof.
  change (remove_re name) with (Seq (Group 1 (Alt Start (Plus true white))) (remove_tail name)).
  pose proof (remove_tail_inv name) as Hinv. generalize dependent (remove_tail name). intros body Hinv Hst.
  assert ((b = None /\ (exists cs, rm body Some (Place b s cs) = Some st)) \/
          exists u r cs, u <> [] /\ forallb is_white u = true /\ s = u ++ r /\
            rm body Some (Place (end_of b u) r cs) = Some st) as H.
  { remember (Plus true white) as ws eqn:Hws. cbn [rm before] in Hst.
    match type of Hst with or_else ?o _ = _ => destruct o eqn:E end.
    - injection Hst as ->. destruct b; [done|]. left. split; [done|]. eexists. exact E.
    - cbn [or_else] in Hst. right. subst ws. apply (rm_plus_class_inv true) in Hst as (u & r & Hu & Hw & -> & Hk).
      exists u, r. eexists. split; [done|]. split; [done|]. split; [done|]. exact Hk. }
  destruct H as [[-> [cs H]]|(u & r & cs & Hu & Hw & -> & H)]; apply Hinv in H as (q & -> & Hq & He).
  - by exists [], q.
  - by exists u, q.
Qed.

(** A name that stands in the text is found. *)
Lemma remove_some name y b : match y with c :: _ => is_white c = true | [] => True end ->
  is_Some (rm (remove_tail name) Some (Place b (name ++ y) ∅)) /\
  forall cs, is_Some (rm (remove_tail name) Some (Place b (name ++ y) cs)).
Proof.
  intros Hy. assert (forall cs, is_Some (rm (remove_tail name) Some (Place b (name ++ y) cs))) as H; [|by split].
  intros cs. unfold remove_tail. cbn [rm]. rewrite rm_lit. unfold white. destruct y as [|c y].
  - cbn [rm rest]. by eexists.
  - apply or_else_some. left. cbn [rm rest]. rewrite Hy. cbn [before caps].
    destruct (run_of is_white y) as (w & r & -> & Hw & Hr).
    pose proof (fun k => rm_star_class (A := place) true is_white k w r (Some c) cs Hw Hr) as Hs. cbn [rm rest] in Hs.
    rewrite Hs. apply try_some. exists []. split; [apply prefix_nil|]. by eexists.
Qed.

(** The pattern is found exactly when the name stands in the text, and the first
    match takes out the first of the words that are the name. *)
Lemma remove_spec cls name : Str.dense name ->
  match exec 2 (remove_re name) cls with
  | Some m => exists x y, cls = ztake (Text.m_index m) cls ++ Text.m_text m ++ y /\
      zdrop (Text.m_index m + zlen (Text.m_text m)) cls = y /\ x = ztake (Text.m_index m) cls /\
      each cls = each x ++ name :: each y /\ name ∉ each x
  | None => name ∉ each cls
  end.
Proof.
  intros Hd. pose proof (exec_from_spec 2 (remove_re name) cls cls 0 None) as H. unfold exec.
  assert (forall a s', (a = [] \/ exists c a', a = a' ++ [c] /\ is_white c = true) ->
            match s' with c :: _ => is_white c = true | [] => True end ->
            exists a1 a2, a = a1 ++ a2 /\ (a = [] \/ a2 <> []) /\
              is_Some (rm (remove_re name) Some (Place (end_of None a1) (a2 ++ name ++ s') ∅))) as Hfound.
  { intros a s' Ha Hs. change (remove_re name) with (Seq (Group 1 (Alt Start (Plus true white))) (remove_tail name)).
    pose proof (remove_some name s') as Hr. generalize dependent (remove_tail name). intros body Hr.
    destruct Ha as [->|(c & a' & -> & Hc)].
    - exists [], []. split; [done|]. split; [by left|]. remember (Plus true white) as ws. cbn [rm before end_of last].
      apply or_else_some. left. by apply Hr.
    - exists a', [c]. split; [done|]. split; [by right|]. cbn [rm]. apply or_else_some. right. cbn [app].
      unfold white. cbn [rm rest]. rewrite Hc. cbn [before caps].
      destruct name as [|n0 name]; [by destruct Hd|].
      assert (is_white n0 = false) as Hn0 by (apply Hd; left).
      pose proof (fun k => rm_star_class (A := place) true is_white k [] ((n0 :: name) ++ s') (Some c) ∅ eq_refl Hn0) as Hst.
      cbn [rm rest app] in Hst. cbn [app]. rewrite Hst. cbn [try_ends]. cbn [length drop]. by apply Hr. }
  destruct (exec_from 2 (remove_re name) cls 0 None cls) as [m|].
  - destruct H as (a & s' & st & Hcls & Hst & -> & Hfirst). cbn [Text.m_index Text.m_text].
    apply remove_inv in Hst as Hi. destruct Hi as (p & q & Hs' & Hp & Hpb & Hq & Hqe).
    assert (between (Place (end_of None a) s' ∅) st = p ++ name ++ q) as Hbt.
    { assert (s' = (p ++ name ++ q) ++ rest st) as Hs2 by (rewrite Hs'; by rewrite <- !app_assoc).
      unfold between. cbn [rest]. rewrite Hs2, length_app, Nat.add_sub. apply take_app_length. }
    rewrite Hbt, Z.add_0_l. exists a, (rest st).
    assert (cls = a ++ (p ++ name ++ q) ++ rest st) as Hall by (rewrite Hcls, Hs'; by rewrite <- !app_assoc).
    assert (ztake (zlen a) cls = a) as Hta by (rewrite Hall; apply ztake_app_len).
    rewrite Hta. split; [exact Hall|]. split.
    { rewrite Hall, (app_assoc a), <- zlen_app. apply zdrop_app_len. }
    split; [done|].
    assert (each (q ++ rest st) = each (rest st)) as Hqr by (by apply each_drop_blank).
    assert (each (name ++ q ++ rest st) = name :: each (rest st)) as Hnq.
    { rewrite each_word, Hqr; [done|done|]. destruct q as [|c q]; [by rewrite Hqe|].
      simpl in Hq |- *. by apply andb_true_iff in Hq as [-> _]. }
    split.
    + rewrite Hall, <- !app_assoc. destruct p as [|c p].
      * cbn [app]. rewrite (end_of_none a) by by apply Hpb. cbn [app]. by rewrite Hnq.
      * simpl in Hp. apply andb_true_iff in Hp as [Hc Hp]. cbn [app]. rewrite each_app, each_drop_blank, Hnq by done. done.
    + intros Hin. apply stands_each in Hin as (x & y & Ha & Hx & Hy); [|done].
      destruct (Hfound x (y ++ s') Hx) as (a1 & a2 & -> & Hne & Hsome).
      { destruct y as [|c y]; [|exact Hy]. cbn [app]. rewrite Hs'. destruct p as [|c p].
        - assert (a = []) as E by (apply end_of_none; by apply Hpb). rewrite Ha in E. destruct Hd as [Hne _].
          apply app_nil in E as [_ E]. apply app_nil in E as [E _]. done.
        - simpl in Hp |- *. by apply andb_true_iff in Hp as [-> _]. }
      assert (a2 ++ name ++ y ++ s' = (a2 ++ name ++ y) ++ s') as Eq by (by rewrite <- !app_assoc).
      rewrite Eq in Hsome. rewrite (Hfirst a1 (a2 ++ name ++ y)) in Hsome; [by destruct Hsome|by rewrite Ha, <- !app_assoc|].
      intros E. apply app_nil in E as [_ E]. apply app_nil in E as [E _]. by destruct Hd.
  - intros Hin. apply stands_each in Hin as (x & y & -> & Hx & Hy); [|done].
    destruct (Hfound x y Hx Hy) as (a1 & a2 & -> & _ & Hsome). rewrite (H a1 (a2 ++ name ++ y)) in Hsome; [by destruct Hsome|].
    by rewrite <- !app_assoc.
Qed.

(** *** The methods on words *)

(** For a plain name the methods act on the words of the attribute: the name is
    tested for, added at the end unless it is there, and removed once. *)
Theorem class_methods cls name : plain name ->
  hasClassName cls name = Some (bool_decide (name ∈ each cls)) /\
  (exists cls', addClassName cls name = Some cls' /\
     each cls' = if bool_decide (name ∈ each cls) then each cls else each cls ++ [name]) /\
  (exists cls', removeClassName cls name = Some cls' /\
     (name ∉ each cls -> each cls' = each cls) /\
     forall l1 l2, each cls = l1 ++ name :: l2 -> name ∉ l1 -> each cls' = l1 ++ l2).
Proof.
  intros Hp. pose proof (plain_dense _ Hp) as Hd. split; [by apply hasClassName_spec|]. split.
  - unfold addClassName. rewrite hasClassName_spec by done. cbn [mbind option_bind]. eexists. split; [done|].
    case_bool_decide; [done|by apply each_end].
  - unfold removeClassName. rewrite RegExp_remove by done. cbn [mbind option_bind]. eexists. split; [done|].
    pose proof (remove_spec cls name Hd) as Hr. rewrite each_strip. destruct (exec 2 (remove_re name) cls) as [m|].
    + destruct Hr as (x & y & _ & -> & -> & He & Hx). cbn [app]. rewrite each_app by done. rewrite He. split.
      * intros Hn. destruct Hn. apply elem_of_app. right. left.
      * intros l1 l2 Heq Hl1. revert l1 Heq Hl1. generalize (each y). revert Hx.
        generalize (each (ztake (Text.m_index m) cls)) as l. induction l as [|z l IH]; intros Hx l' [|z1 l1] Heq Hl1; simplify_eq/=; try done.
        -- destruct Hl1. left.
        -- destruct Hx. left.
        -- f_equal. apply IH; [by set_solver|done|by set_solver].
    + split; [done|]. intros l1 l2 Heq. destruct Hr. rewrite Heq. apply elem_of_app. right. left.
Qed.

End methods.

(** ** The collection *)

Lemma each_dense cls : Forall Str.dense (each cls).
Proof.
  induction cls as [|c s Hc IH|w s Hw Hs IH] using words_ind; [constructor|by rewrite each_white|].
  rewrite each_word by done. by constructor.
Qed.

Lemma each_join ws : Forall Str.dense ws -> each (join [c_space] ws) = ws.
Proof.
  induction 1 as [|w ws Hw Hws IH]; [done|]. destruct ws as [|v ws]; [by apply each_one|].
  rewrite Str.join_space. rewrite each_app, each_one by done. by rewrite IH.
Qed.

(** The collection adds a name unless it is there, and removes every word that is
    the name; written out and read again it has the same words. *)
Lemma collection cls name : Str.dense name ->
  each (add name cls) = (if bool_decide (name ∈ each cls) then each cls else each cls ++ [name]) /\
  each (remove name cls) = filter (fun w => w <> name) (each cls) /\
  each (toString cls) = each cls.
Proof.
  intros Hd. pose proof (each_dense cls) as Hc. split; [|split].
  - unfold add. case_bool_decide; [done|]. apply each_join. apply Forall_app. split; [done|]. by constructor.
  - unfold remove. case_bool_decide as Hin; [apply each_join; apply Forall_forall; intros w [_ Hw]%list_elem_of_filter; rewrite Forall_forall in Hc; by apply Hc|].
    symmetry. induction (each cls) as [|w l IH]; [done|]. rewrite filter_cons, decide_True by set_solver. f_equal. apply IH; [by inversion Hc|set_solver].
  - by apply each_join.
Qed.

(** ** A name that is there twice *)
Definition sample_RegExp (source : jstring) : option regex :=
  let inner k := take (length source - 2 * k) (drop k source) in
  Some (if prefixb (js "(^|\s)") source then has_re (inner 6%nat) else remove_re (inner 7%nat)).

Lemma sample_inner (a b n : jstring) k : length a = k -> length b = k ->
  take (length (a ++ n ++ b) - 2 * k) (drop k (a ++ n ++ b)) = n.
Proof.
  intros Ha Hb. rewrite !length_app, Ha, Hb. rewrite <- Ha, drop_app_length.
  replace (length a + (length n + length a) - 2 * length a)%nat with (length n) by lia. apply take_app_length.
Qed.

Lemma sample_has name : plain name -> sample_RegExp (js "(^|\s)" ++ name ++ js "(\s|$)") = Some (has_re name).
Proof.
  intros _. unfold sample_RegExp. rewrite prefixb_app. f_equal. f_equal. by apply (sample_inner (js "(^|\s)") (js "(\s|$)")).
Qed.
Lemma sample_remove name : plain name -> sample_RegExp (js "(^|\s+)" ++ name ++ js "(\s+|$)") = Some (remove_re name).
Proof.
  intros _. unfold sample_RegExp. cbn [prefixb js app]. simpl (Z.eqb _ _). cbn [andb].
  f_equal. f_equal. by apply (sample_inner (js "(^|\s+)") (js "(\s+|$)")).
Qed.

(** [removeClassName] leaves the second of two equal names, so that the element
    still has the class; the collection removes both. *)
Lemma removed_once :
  removeClassName sample_RegExp (js "on big on") (js "on") = Some (js "big on") /\
  hasClassName sample_RegExp (js "big on") (js "on") = Some true /\
  remove (js "on") (js "on big on") = js "big".
Proof. by vm_compute. Qed.

Lemma class_methods_witness :
  hasClassName sample_RegExp (js "a on b") (js "on") = Some true /\
  exists cls', removeClassName sample_RegExp (js "a on b") (js "on") = Some cls' /\ each cls' = [js "a"; js "b"].
Proof.
  destruct (class_methods sample_RegExp sample_has sample_remove (js "a on b") (js "on")) as (H1 & _ & cls' & H2 & _ & H3).
  { split; [done|reflexivity]. }
  split; [rewrite H1; reflexivity|]. exists cls'. split; [exact H2|].
  apply (H3 [js "a"] [js "b"]); [reflexivity|]. apply (bool_decide_unpack _). vm_compute. exact I.
Defined.
End ClassName.
