(* ===== verification/Selector.v ===== *)
(** * CSS selectors: from the text to calls

    A selector is cut into tokens by a list of regular expressions that are tried
    in turn at its front; each token becomes one line of code that calls a
    handler with the nodes found so far, and the lines are evaluated as a function
    of the root.  Here are the expressions, the tokens, and the calls. *)
From S2P Require Import Prelude JsString ProtoText ProtoStr JsRegex.
Import Text Regex.

Module Sel.

(** ** Patterns *)
Inductive pname :=
  | laterSibling | child | adjacent | descendant      (** combinators *)
  | tagName | id | className | pseudo | attrPresence | attr.
#[global] Instance pname_eq : EqDecision pname := ltac:(solve_decision).

Definition name_char (c : Z) : bool := is_word c || (c =? c_dash).
Definition word_end : regex := Group 2 (Alt Boundary End).
Definition name_class (c : Z) : bool := name_char c || (c =? c_star).
Definition spaces : regex := Star true white.
Definition op_char : regex := Class (one_of (js "!^$*~|")).
Definition quote : regex := Class (one_of [c_apos; c_quote]).
Definition nondots : regex := Star false dot.

Definition re_tagName : regex :=
  Seq spaces (Seq (Group 1 (Alt (Char c_star) (Plus true (Class name_char)))) (Opt (Group 2 (Alt Boundary End)))).
Definition re_id : regex := Seq (Char c_hash) (Seq (Group 1 (Plus true (Class name_class))) word_end).
Definition re_className : regex := Seq (Char 46) (Seq (Group 1 (Plus true (Class name_class))) word_end).

Definition re_pseudo_name : regex :=
  Group 1 (alts [
    Seq (Group 2 (alts [Lit (js "first"); Lit (js "last"); Lit (js "nth"); Lit (js "nth-last"); Lit (js "only")]))
        (Group 3 (Alt (Lit (js "-child")) (Lit (js "-of-type"))));
    Lit (js "empty"); Lit (js "checked");
    Seq (Group 4 (Alt (Lit (js "en")) (Lit (js "dis")))) (Lit (js "abled"));
    Lit (js "not")]).
Definition re_pseudo : regex :=
  Seq (Char c_colon) (Seq re_pseudo_name
    (Seq (Opt (Group 5 (Seq (Char c_lparen) (Seq (Group 6 nondots) (Char c_rparen)))))
         (Group 7 (alts [Boundary; End; Ahead (Alt white (Class (one_of (js ":+~>"))))])))).

Definition re_attrPresence : regex :=
  Seq (Char c_lbrack) (Seq (Group 1 (Seq (Opt (Seq (Plus true word_char) (Char c_colon))) (Plus true word_char)))
    (Char c_rbrack)).

(** The class [[^\4]] leaves out the character with the code 4. *)
Definition re_attr : regex :=
  Seq (Char c_lbrack)
    (Seq (Group 1 (Seq (Opt (Seq (Star true (Class name_char)) (Char c_colon))) (Plus true (Class name_char))))
    (Seq spaces
    (Seq (Opt (Seq (Group 2 (Seq (Opt op_char) (Char c_eq)))
              (Seq spaces
                (Group 3 (Alt
                  (Seq (Group 4 quote) (Seq (Group 5 (Star false (any_but (Z.eqb 4)))) (Backref 4)))
                  (Group 6 (Seq (any_but (one_of [c_apos; c_quote])) (Star false (any_but (Z.eqb c_rbrack))))))))))
    (Char c_rbrack)))).

(** src/piql/scadr/src/main/rails/public/javascripts/prototype.js:3024-3040
    [Selector.patterns]: in the order in which they are tried, with the number of
    their groups. *)
Definition patterns : list (pname * (nat * regex)) := [
  (laterSibling, (O, Seq Start (Seq spaces (Seq (Char 126) spaces))));
  (child, (O, Seq Start (Seq spaces (Seq (Char c_gt) spaces))));
  (adjacent, (O, Seq Start (Seq spaces (Seq (Char 43) spaces))));
  (descendant, (O, Seq Start white));
  (tagName, (2%nat, Seq Start re_tagName));
  (id, (2%nat, Seq Start re_id));
  (className, (2%nat, Seq Start re_className));
  (pseudo, (7%nat, Seq Start re_pseudo));
  (attrPresence, (1%nat, Seq Start re_attrPresence));
  (attr, (6%nat, re_attr))].

Definition matches (p : nat * regex) (e : jstring) : option rmatch := exec p.1 p.2 e.

(** [e.replace(t, '')] for a text [t]: its first occurrence. *)
Definition remove_first (t e : jstring) : jstring :=
  match find_from t e 0 with Some i => ztake i e ++ zdrop (i + zlen t) e | None => e end.

(** [e && le != e && (/\S/).test(e)] *)
Definition goes_on (e : jstring) (le : option jstring) : bool :=
  negb (bool_decide (e = [])) && negb (bool_decide (le = Some e)) && negb (Str.blank e).

(** The first pattern that matches, with its match. *)
Fixpoint first_match (ps : list (pname * (nat * regex))) (e : jstring) : option (pname * rmatch) :=
  match ps with
  | [] => None
  | (i, p) :: ps => match matches p e with Some m => Some (i, m) | None => first_match ps e end
  end.

Fixpoint tokens_loop (fuel : nat) (e : jstring) (le : option jstring) : outcome (list (pname * rmatch)) :=
  match fuel with
  | O => Diverges
  | S fuel =>
      if goes_on e le then
        match first_match patterns e with
        | Some (i, m) =>
            r ← tokens_loop fuel (remove_first (m_text m) e) (Some e); mret ((i, m) :: r)
        | None => tokens_loop fuel e (Some e)
        end
      else mret []
  end.
(** Every turn but the last two shortens the text. *)
Definition tokens (e : jstring) : outcome (list (pname * rmatch)) := tokens_loop (S (S (length e))) e None.

(** ** Calls of the handlers *)
Inductive combinator := Descendant | Child | Adjacent | LaterSibling.
#[global] Instance combinator_eq : EqDecision combinator := ltac:(solve_decision).

Inductive call :=
  | CTag (tag : jstring) | CClass (c : jstring) | CId (i : jstring) | CPresence (a : jstring)
  | CAttr (a value operator : jstring) | CPseudo (name value : jstring)
  | CComb (c : combinator).

(** The value of a string literal with double quotes, from the text between
    them; [None] if the text does not stay between them, or holds an escape
    other than of a quote or a backslash. *)
Fixpoint literal_value (t : jstring) : option jstring :=
  match t with
  | [] => Some []
  | c :: r =>
      if c =? c_bslash then
        match r with
        | d :: r => if (d =? c_bslash) || (d =? c_quote) || (d =? c_apos) then cons d <$> literal_value r else None
        | [] => None
        end
      else if (c =? c_quote) || is_lineterm c then None
      else cons c <$> literal_value r
  end.

(** [#{n}] in a template that is evaluated with a match *)
Definition tmpl (m : rmatch) (n : nat) : jstring := default [] (group m n).
(** [m[5] || m[6]] *)
Definition attr_value (m : rmatch) : option jstring :=
  match group m 5 with Some ((_ :: _) as v) => Some v | _ => group m 6 end.

(** src/piql/scadr/src/main/rails/public/javascripts/prototype.js:3005-3022
    [Selector.criteria]: the call that the line of code makes.  Names hold no
    character that a literal could not hold; a value that does not stay between
    the quotes makes other code. *)
Definition criteria (i : pname) (m : rmatch) : option call :=
  match i with
  | tagName => Some (CTag (tmpl m 1))
  | className => Some (CClass (tmpl m 1))
  | id => Some (CId (tmpl m 1))
  | attrPresence => Some (CPresence (tmpl m 1))
  | attr => v ← literal_value (default [] (attr_value m)); Some (CAttr (tmpl m 1) v (tmpl m 2))
  | pseudo =>
      v ← literal_value (replace_char c_quote [c_bslash; c_quote] (tmpl m 6)); Some (CPseudo (tmpl m 1) v)
  | descendant => Some (CComb Descendant)
  | child => Some (CComb Child)
  | adjacent => Some (CComb Adjacent)
  | laterSibling => Some (CComb LaterSibling)
  end.

(** src/piql/scadr/src/main/rails/public/javascripts/prototype.js:2775-2803
    [compileMatcher()]: the calls of the compiled function, which then makes its
    result unique; [None] if a value breaks out of its string literal.  The cache
    of compiled functions is left out: it gives back what was compiled from the
    same text. *)
Definition compileMatcher (e : jstring) : outcome (option (list call)) :=
  ts ← tokens e; mret (mapM (fun '(i, m) => criteria i m) ts).

(** ** Tests of attribute values *)

Definition text_of (v : option jstring) : jstring := default (js "undefined") v.
Definition truthy (s : jstring) : bool := negb (bool_decide (s = [])).

(** src/piql/scadr/src/main/rails/public/javascripts/prototype.js:3376-3387
    [Selector.operators]: of two entries with one name the later one counts.
    [None] for [v] is [undefined]. *)
Definition operators (op nv : jstring) (v : option jstring) : outcome bool :=
  let same := bool_decide (v = Some nv) in
  if bool_decide (op = js "=") then mret same
  else if bool_decide (op = js "!=") then mret (negb same)
  else if bool_decide (op = js "^=") then mret (same || (truthy nv && Str.startsWith (text_of v) nv))
  else if bool_decide (op = js "$=") then
    match v with Some v => mret (Str.endsWith v nv) | None => Throws end
  else if bool_decide (op = js "*=") then mret (Str.include (text_of v) nv)
  else if bool_decide (op = js "~=") then
    mret (Str.include (js " " ++ text_of v ++ js " ") (js " " ++ nv ++ js " "))
  else if bool_decide (op = js "|=") then
    mret (Str.include (js "-" ++ toUpperCase (default [] v) ++ js "-") (js "-" ++ toUpperCase nv ++ js "-"))
  else Throws.

(** ** The formula [an+b] *)

Definition digits_value (s : jstring) : Z := fold_left (fun a c => a * 10 + (c - 48)) s 0.
Definition digit : regex := Class is_digit.
Definition re_number : regex := Seq Start (Seq (Plus true digit) End).
Definition re_formula : regex :=
  Seq Start (Seq (Opt (Group 1 (Seq (Opt (Char c_dash)) (Star true digit))))
    (Seq (Char c_n) (Opt (Group 2 (Seq (Group 3 (Class (one_of (js "+-")))) (Group 4 (Plus true digit))))))).

(** [Number(s)] for digits with a sign *)
Definition signed (s : jstring) : Z :=
  match s with
  | c :: r => if c =? c_dash then - digits_value r else if c =? 43 then digits_value r else digits_value s
  | [] => 0
  end.

Inductive formula := Nth (n : Z) | Lin (a b : Z) | NoFormula.

(** src/piql/scadr/src/main/rails/public/javascripts/prototype.js:3308-3309
    [even] and [odd] *)
Definition even_odd (f : jstring) : jstring :=
  if bool_decide (f = js "even") then js "2n+0" else if bool_decide (f = js "odd") then js "2n+1" else f.

(** src/piql/scadr/src/main/rails/public/javascripts/prototype.js:3318-3325
    The two forms of a formula in [Selector.pseudos.nth] *)
Definition parse_formula (f : jstring) : formula :=
  match exec 0 re_number f with
  | Some _ => Nth (digits_value f)
  | None =>
      match exec 4 re_formula f with
      | Some m =>
          let a := match group m 1 with
                   | None | Some [] => 1
                   | Some s => if bool_decide (s = [c_dash]) then -1 else signed s
                   end in
          let b := match group m 2 with None => 0 | Some s => signed s end in
          Lin a b
      | None => NoFormula
      end
  end.

(** src/piql/scadr/src/main/rails/public/javascripts/prototype.js:3297-3303
    [getIndices(a, b, total)] *)
Definition getIndices (a b total : Z) : list Z :=
  if a =? 0 then (if 0 <? b then [b] else [])
  else filter (fun i => (Z.rem (i - b) a =? 0) && (0 <=? Z.quot (i - b) a) = true) (seqZ 1 total).

(** ** Lists of selectors *)

Definition re_split : regex :=
  Seq (Group 1 (Plus true (Group 2 (alts [
         Plus true (Class (fun c => is_word c || is_white c || one_of (js "#:.~>+()-") c));
         Char c_star;
         Seq (Char c_lbrack) (Seq nondots (Char c_rbrack))]))))
      (Seq spaces (Group 3 (Alt (Char c_comma) End))).

(** src/piql/scadr/src/main/rails/public/javascripts/prototype.js:3389-3395
    [Selector.split(expression)] *)
Definition split (expression : jstring) : outcome (list jstring) :=
  r ← scan (exec 3 re_split) expression;
  mret (map (fun m => Str.strip (tmpl m 1)) r.2).

(** ** Compiling ends *)

(** Removing a text leaves a text as it is, or shortens it. *)
Lemma remove_first_shorter t e : remove_first t e = e \/ (length (remove_first t e) < length e)%nat.
Proof.
  unfold remove_first. destruct (find_from t e 0) as [i|] eqn:Hf; [|by left].
  apply find_from_Some in Hf as (Hi & Hle & Hp). rewrite Z.sub_0_r in *. apply prefixb_true in Hp as [r Hr].
  assert (e = ztake i e ++ t ++ r) as He by (rewrite <- Hr; symmetry; apply ztake_zdrop).
  assert (zlen (ztake i e) = i) as Hl by (apply zlen_ztake_le; lia).
  assert (zdrop (i + zlen t) e = r) as ->.
  { rewrite He at 1. rewrite app_assoc. rewrite <- Hl at 1. rewrite <- zlen_app. apply zdrop_app_len. }
  destruct t as [|c t]; [left; by rewrite He at 2|right]. rewrite He at 2. rewrite !length_app. simpl. lia.
Qed.

(** C26: Every text can be cut into tokens: compiling ends, whatever the text. *)
Theorem compiling_ends e : exists r, compileMatcher e = Returns r.
Proof.
  assert (forall fuel e le, (match le with Some l => l <> e | None => True end -> length e + 1 < fuel)%nat ->
            (0 < fuel)%nat -> exists ts, tokens_loop fuel e le = Returns ts) as H.
  { clear e. induction fuel as [|fuel IH]; intros e le Hf H0; [lia|]. cbn [tokens_loop].
    destruct (goes_on e le) eqn:Hg; [|by eexists].
    assert (length e + 1 < S fuel)%nat as Hlen.
    { apply Hf. destruct le as [l|]; [|done]. intros ->. unfold goes_on in Hg.
      rewrite (bool_decide_eq_true_2 (Some e = Some e)) in Hg by done. simpl in Hg. by rewrite andb_false_r in Hg. }
    assert (forall e', e' = e \/ (length e' < length e)%nat -> exists ts, tokens_loop fuel e' (Some e) = Returns ts) as Hn.
    { intros e' He'. apply IH; [|lia]. intros Hne. destruct He' as [->|]; [done|lia]. }
    destruct (first_match patterns e) as [[i m]|].
    - destruct (Hn _ (remove_first_shorter (m_text m) e)) as [ts Hts]. rewrite Hts. by eexists.
    - apply Hn. by left. }
  unfold compileMatcher, tokens. destruct (H (S (S (length e))) e None) as [ts Hts]; [lia|lia|].
  rewrite Hts. by eexists.
Qed.

(** ** Examples *)
Definition calls_of (s : string) : outcome (option (list call)) := compileMatcher (js s).

Example compile_1 :
  calls_of "div#a.b > p[title^='x]'] + li:nth-child(2n+1)" = Returns (Some
    [CTag (js "div"); CId (js "a"); CClass (js "b"); CComb Child; CTag (js "p");
     CAttr (js "title") (js "x]") (js "^="); CComb Adjacent; CTag (js "li");
     CPseudo (js "nth-child") (js "2n+1")]).
Proof. by vm_compute. Qed.

Example split_1 : split (js "div p, a[title='x,y'] , *") = Returns (map js ["div p"; "a[title='x,y']"; "*"]%string).
Proof. by vm_compute. Qed.

Example formulas :
  map (fun s => parse_formula (even_odd (js s))) ["2n+1"; "even"; "-n+3"; "n"; "07"; "x"; "-2n-1"]%string
  = [Lin 2 1; Lin 2 0; Lin (-1) 3; Lin 1 0; Nth 7; NoFormula; Lin (-2) (-1)].
Proof. by vm_compute. Qed.

End Sel.
