(* ===== verification/SelFind.v ===== *)
(** * CSS selectors: finding elements

    The handlers that the compiled selector calls, on a page.  The nodes found so
    far are a list that may hold a node more than once; the marks
    [_countedByPrototype] and the positions [nodeIndex] that the handlers leave on
    nodes are the state.  This is the mode of browsers that offer neither XPath
    nor the selectors API. *)
From S2P Require Import Prelude JsString JsMonad Dom ProtoText ProtoStr JsRegex ProtoDom ProtoClass Selector.

Module Find.
Import Js Page Sel.
Import Dom(ref, parentNode, kids, firstChild).

(** What the handlers leave on the nodes. *)
Record notes := Notes { counted : gset ref; nodeIndex : gmap ref Z }.
Notation M := (Js.M notes).

Definition set_counted f (s : notes) : notes := Notes (f (counted s)) (nodeIndex s).
Definition lift {A} (o : Text.outcome A) : M A :=
  match o with Text.Returns a => mret a | Text.Throws => throw TypeError | Text.Diverges => throw Hang end.

Section page.
Variable pg : page.
Notation at_ := (Dom.at_ (doc pg)).
Implicit Types nodes : list ref.

(** src/piql/scadr/src/main/rails/public/javascripts/prototype.js:3076-3081
    [mark(nodes)] *)
Definition mark nodes : M unit := modify (set_counted (fun c => list_to_set nodes ∪ c)).

(** src/piql/scadr/src/main/rails/public/javascripts/prototype.js:3083-3087
    [unmark(nodes)] *)
Definition unmark nodes : M unit := modify (set_counted (fun c => c ∖ list_to_set nodes)).

Definition counting (p : ref) : M bool := s ← get; mret (bool_decide (p ∈ counted s)).

(** The loop of [index] over the children in the given order: [j] is the next
    number. *)
Fixpoint number (ofType : bool) (nodes : list ref) (j : Z) : M unit :=
  match nodes with
  | [] => mret tt
  | node :: nodes =>
      c ← counting node;
      if is_elem pg node && (negb ofType || c) then
        modify (fun s => Notes (counted s) (<[node := j]> (nodeIndex s)));;
        number ofType nodes (j + 1)
      else number ofType nodes j
  end.

(** src/piql/scadr/src/main/rails/public/javascripts/prototype.js:3092-3103
    [index(parentNode, reverse, ofType)] *)
Definition index (parent : ref) (reverse ofType : bool) : M unit :=
  mark [parent];;
  number ofType (if reverse then rev (childNodes pg parent) else childNodes pg parent) 1.

Fixpoint unique_loop nodes : M (list ref) :=
  match nodes with
  | [] => mret []
  | n :: nodes =>
      c ← counting n;
      if (c : bool) then unique_loop nodes else mark [n];; r ← unique_loop nodes; mret (n :: r)
  end.

(** src/piql/scadr/src/main/rails/public/javascripts/prototype.js:3106-3115
    [unique(nodes)]; no nodes at all, [undefined], throw. *)
Definition unique (nodes : option (list ref)) : M (list ref) :=
  nodes ← need nodes;
  match nodes with
  | [] => mret []
  | _ => results ← unique_loop nodes; unmark results;; mret results
  end.

(** src/piql/scadr/src/main/rails/public/javascripts/prototype.js:3118-3147
    The combinators: nodes found from each node in turn. *)
Definition combine (c : combinator) nodes : list ref :=
  match c with
  | Descendant => concat (map (fun n => getElementsByTagName pg n (js "*")) nodes)
  | Child => concat (map (fun n => filter (fun k => is_elem pg k && negb (bool_decide (Page.tagName pg k = js "!")) = true)
                                      (childNodes pg n)) nodes)
  | Adjacent => omap (nextElementSibling pg) nodes
  | LaterSibling => concat (map (nextSiblings pg) nodes)
  end.

(** *** Handlers of tokens *)

(** src/piql/scadr/src/main/rails/public/javascripts/prototype.js:3162-3179
    [tagName(nodes, root, tagName, combinator)] *)
Definition h_tagName (nodes : option (list ref)) (root : ref) (tag : jstring) (c : option combinator) : list ref :=
  let pick nodes := filter (fun node => same_name (Page.tagName pg node) tag = true) nodes in
  match nodes with
  | Some nodes =>
      match c with
      | Some Descendant => concat (map (fun node => getElementsByTagName pg node tag) nodes)
      | Some c => let nodes := combine c nodes in if bool_decide (tag = js "*") then nodes else pick nodes
      | None => pick nodes
      end
  | None => getElementsByTagName pg root tag
  end.

(** src/piql/scadr/src/main/rails/public/javascripts/prototype.js:3181-3204
    [id(nodes, root, id, combinator)]: a node that is the child, a descendant or
    the neighbour is found at once; otherwise the target must be among the nodes. *)
Definition h_id (nodes : option (list ref)) (root : ref) (i : jstring) (c : option combinator) : list ref :=
  match getElementById pg i with
  | None => []
  | Some target =>
      match nodes with
      | None => if decide (root = []) then [target] else if descendantOf target root then [target] else []
      | Some nodes =>
          let among nodes := if bool_decide (target ∈ nodes) then [target] else [] in
          match c with
          | Some Child =>
              if existsb (fun node => bool_decide (parentNode target = Some node)) nodes then [target] else among nodes
          | Some Descendant => if existsb (descendantOf target) nodes then [target] else among nodes
          | Some Adjacent =>
              if existsb (fun node => bool_decide (previousElementSibling pg target = Some node)) nodes
              then [target] else among nodes
          | Some LaterSibling => among (combine LaterSibling nodes)
          | None => among nodes
          end
      end
  end.

(** [if (nodes && combinator) nodes = this[combinator](nodes)] *)
Definition follow (nodes : option (list ref)) (c : option combinator) : option (list ref) :=
  match nodes, c with Some nodes, Some c => Some (combine c nodes) | _, _ => nodes end.
Definition or_all (root : ref) (nodes : option (list ref)) : list ref :=
  default (getElementsByTagName pg root (js "*")) nodes.

(** src/piql/scadr/src/main/rails/public/javascripts/prototype.js:3211-3221
    The test of [byClassName]: the class attribute has the name between spaces. *)
Definition has_class (className : jstring) (node : ref) : bool :=
  let nodeClassName := Page.className pg node in
  negb (bool_decide (nodeClassName = []))
  && (bool_decide (nodeClassName = className)
      || Str.include (js " " ++ className ++ js " ") (js " " ++ nodeClassName ++ js " ")).

(** src/piql/scadr/src/main/rails/public/javascripts/prototype.js:3206-3221
    [className(nodes, root, className, combinator)] with [byClassName] *)
Definition h_className (nodes : option (list ref)) (root : ref) (className : jstring) (c : option combinator) : list ref :=
  filter (fun node => has_class className node = true)
    (default (combine Descendant [root]) (follow nodes c)).

(** src/piql/scadr/src/main/rails/public/javascripts/prototype.js:3223-3230
    [attrPresence(nodes, root, attr, combinator)]: a combinator is also followed
    when there were no nodes. *)
Definition h_attrPresence (nodes : option (list ref)) (root : ref) (a : jstring) (c : option combinator) : list ref :=
  let nodes := or_all root nodes in
  filter (fun node => is_some (getAttribute pg node a) = true) (default nodes (follow (Some nodes) c)).

(** The loop of [attr], whose test may throw. *)
Fixpoint attr_loop (a v op : jstring) nodes : M (list ref) :=
  match nodes with
  | [] => mret []
  | node :: nodes =>
      match getAttribute pg node a with
      | None => attr_loop a v op nodes
      | Some nodeValue =>
          b ← lift (operators op nodeValue (Some v));
          r ← attr_loop a v op nodes;
          mret (if (b : bool) then node :: r else r)
      end
  end.

(** src/piql/scadr/src/main/rails/public/javascripts/prototype.js:3232-3242
    [attr(nodes, root, attr, value, operator, combinator)] *)
Definition h_attr (nodes : option (list ref)) (root : ref) (a v op : jstring) (c : option combinator) : M (list ref) :=
  let nodes := or_all root nodes in
  attr_loop a v op (default nodes (follow (Some nodes) c)).

(** *** Pseudo classes *)

(** The loop that numbers the children of the parents of [nodes]; it lists the
    parents. *)
Fixpoint index_parents (reverse ofType : bool) nodes : M (list ref) :=
  match nodes with
  | [] => mret []
  | node :: nodes =>
      p ← need (parentNode node);
      c ← counting p;
      if (c : bool) then index_parents reverse ofType nodes
      else index p reverse ofType;; r ← index_parents reverse ofType nodes; mret (p :: r)
  end.

(** src/piql/scadr/src/main/rails/public/javascripts/prototype.js:3306-3335
    [nth(nodes, formula, root, reverse, ofType)] *)
Definition nth nodes (f : jstring) (reverse ofType : bool) : M (list ref) :=
  match nodes with
  | [] => mret []
  | _ =>
      mark nodes;;
      indexed ← index_parents reverse ofType nodes;
      s ← get;
      let at_index n node := bool_decide (nodeIndex s !! node = Some n) in
      let results :=
        match parse_formula (even_odd f) with
        | Nth n => filter (fun node => at_index n node = true) nodes
        | Lin a b =>
            concat (map (fun node => omap (fun n => if at_index n node then Some node else None)
                                       (getIndices a b (zlen nodes))) nodes)
        | NoFormula => []
        end in
      unmark nodes;; unmark indexed;;
      mret results
  end.

Definition no_before (node : ref) : bool := negb (is_some (previousElementSibling pg node)).
Definition no_after (node : ref) : bool := negb (is_some (nextElementSibling pg node)).
Notation sifted f nodes := (mret (filter (fun node => f node = true) nodes)).

Section exclusions.
(** [new Selector(selector).findElements(root)] *)
Variable excluded : jstring -> ref -> M (list ref).

(** src/piql/scadr/src/main/rails/public/javascripts/prototype.js:3346-3353
    [:not(selector)] *)
Definition not_ nodes (selector : jstring) (root : ref) : M (list ref) :=
  exclusions ← excluded selector root;
  mark exclusions;;
  s ← get;
  unmark exclusions;;
  mret (filter (fun node => bool_decide (node ∈ counted s) = false) nodes).

(** src/piql/scadr/src/main/rails/public/javascripts/prototype.js:3251-3374
    [Selector.pseudos]; those of the types count with the marks of [nth]. *)
Definition pseudos (name : jstring) nodes (value : jstring) (root : ref) : M (list ref) :=
  if bool_decide (name = js "first-child") then sifted no_before nodes
  else if bool_decide (name = js "last-child") then sifted no_after nodes
  else if bool_decide (name = js "only-child") then sifted (fun n => no_before n && no_after n) nodes
  else if bool_decide (name = js "nth-child") then nth nodes value false false
  else if bool_decide (name = js "nth-last-child") then nth nodes value true false
  else if bool_decide (name = js "nth-of-type") then nth nodes value false true
  else if bool_decide (name = js "nth-last-of-type") then nth nodes value true true
  else if bool_decide (name = js "first-of-type") then nth nodes (js "1") false true
  else if bool_decide (name = js "last-of-type") then nth nodes (js "1") true true
  else if bool_decide (name = js "only-of-type") then
    firsts ← nth nodes (js "1") false true; nth firsts (js "1") true true
  else if bool_decide (name = js "empty") then
    sifted (fun n => negb (bool_decide (Page.tagName pg n = js "!")) && negb (is_some (firstChild (doc pg) n))) nodes
  else if bool_decide (name = js "not") then not_ nodes value root
  else if bool_decide (name = js "enabled") then
    sifted (fun n => negb (p_disabled pg n) && negb (bool_decide (p_type pg n = js "hidden"))) nodes
  else if bool_decide (name = js "disabled") then sifted (p_disabled pg) nodes
  else if bool_decide (name = js "checked") then sifted (p_checked pg) nodes
  else throw TypeError.

(** src/piql/scadr/src/main/rails/public/javascripts/prototype.js:3244-3248
    [pseudo(nodes, name, value, root, combinator)] *)
Definition h_pseudo (nodes : option (list ref)) (name value : jstring) (root : ref) (c : option combinator) : M (list ref) :=
  pseudos name (or_all root (follow nodes c)) value root.

(** One line of the compiled function: [n] and [c] are its variables. *)
Definition run_call (root : ref) (call : call) (v : option (list ref) * option combinator)
    : M (option (list ref) * option combinator) :=
  let '(n, c) := v in
  match call with
  | CTag t => mret (Some (h_tagName n root t c), None)
  | CClass k => mret (Some (h_className n root k c), None)
  | CId i => mret (Some (h_id n root i c), None)
  | CPresence a => mret (Some (h_attrPresence n root a c), None)
  | CAttr a value op => r ← h_attr n root a value op c; mret (Some r, None)
  | CPseudo name value => r ← h_pseudo n name value root c; mret (Some r, None)
  | CComb c => mret (n, Some c)
  end.

Fixpoint run_calls (root : ref) (l : list call) (v : option (list ref) * option combinator)
    : M (option (list ref) * option combinator) :=
  match l with
  | [] => mret v
  | call :: l => v ← run_call root call v; run_calls root l v
  end.

(** The compiled function. *)
Definition matcher (l : list call) (root : ref) : M (list ref) :=
  v ← run_calls root l (None, None); unique v.1.
End exclusions.

(** What the code does that a value makes when it breaks out of its string. *)
Variable injected : jstring -> ref -> M (list ref).

(** src/piql/scadr/src/main/rails/public/javascripts/prototype.js:2850-2852
    [findElements(root)] of [new Selector(expression)] in the mode [normal]: the
    selector of [:not] is shorter than the one around it. *)
Fixpoint findElements (fuel : nat) (expression : jstring) (root : ref) : M (list ref) :=
  match fuel with
  | O => throw Hang
  | S fuel =>
      l ← lift (compileMatcher (Str.strip expression));
      match l with
      | Some l => matcher (findElements fuel) l root
      | None => injected expression root
      end
  end.

Definition enough (e : jstring) : nat := S (length e).
Definition find (e : jstring) (root : ref) : M (list ref) := findElements (enough e) e root.

(** *** Testing an element *)
Variable RegExp : jstring -> option Regex.regex.

(** src/piql/scadr/src/main/rails/public/javascripts/prototype.js:3043-3064
    [Selector.assertions]; [None] where there is none for the pattern.  No class
    name that a selector can hold is empty. *)
Definition assertions (i : pname) : option (ref -> Text.rmatch -> M bool) :=
  match i with
  | tagName => Some (fun element m => mret (same_name (tmpl m 1) (Page.tagName pg element)))
  | className => Some (fun element m => need (ClassName.hasClassName RegExp (Page.className pg element) (tmpl m 1)))
  | id => Some (fun element m => mret (bool_decide (id_of pg element = tmpl m 1)))
  | attrPresence => Some (fun element m => mret (is_some (getAttribute pg element (tmpl m 1))))
  | attr => Some (fun element m =>
      match getAttribute pg element (tmpl m 1) with
      | None | Some [] => mret false
      | Some nodeValue => lift (operators (tmpl m 2) nodeValue (attr_value m))
      end)
  | _ => None
  end.

(** One turn of the loop of [match] over the patterns: after a match it goes on
    with the next pattern.  [None]: a token without an assertion. *)
Fixpoint match_turn (ps : list (pname * (nat * Regex.regex))) (e : jstring) (ts : list (pname * Text.rmatch))
    : option (jstring * list (pname * Text.rmatch)) :=
  match ps with
  | [] => Some (e, ts)
  | (i, p) :: ps =>
      match matches p e with
      | Some m =>
          match assertions i with
          | Some _ => match_turn ps (remove_first (Text.m_text m) e) (ts ++ [(i, m)])
          | None => None
          end
      | None => match_turn ps e ts
      end
  end.

Fixpoint match_loop (fuel : nat) (e : jstring) (le : option jstring) (ts : list (pname * Text.rmatch))
    : Text.outcome (option (list (pname * Text.rmatch))) :=
  match fuel with
  | O => Text.Diverges
  | S fuel =>
      if goes_on e le then
        match match_turn patterns e ts with
        | Some (e', ts) => match_loop fuel e' (Some e) ts
        | None => mret None
        end
      else mret (Some ts)
  end.

Fixpoint assert_all (element : ref) (ts : list (pname * Text.rmatch)) : M bool :=
  match ts with
  | [] => mret true
  | (i, m) :: ts =>
      b ← match assertions i with Some f => f element m | None => throw TypeError end;
      if (b : bool) then assert_all element ts else mret false
  end.

(** src/piql/scadr/src/main/rails/public/javascripts/prototype.js:2855-2889
    [match(element)] *)
Definition match_ (expression : jstring) (element : ref) : M bool :=
  let e := Str.strip expression in
  ts ← lift (match_loop (S (S (length e))) e None []);
  match ts with
  | Some ts => assert_all element ts
  | None => r ← find e []; mret (bool_decide (element ∈ r))
  end.

(** *** Several selectors *)

Fixpoint find_all (expressions : list jstring) (element : ref) : M (list ref) :=
  match expressions with
  | [] => mret []
  | e :: es => r ← find (Str.strip e) element; rs ← find_all es element; mret (r ++ rs)
  end.

(** src/piql/scadr/src/main/rails/public/javascripts/prototype.js:3413-3421
    [Selector.findChildElements(element, expressions)] *)
Definition findChildElements (element : ref) (expressions : list jstring) : M (list ref) :=
  es ← lift (split (join [c_comma] expressions));
  results ← find_all es element;
  if 1 <? zlen es then unique (Some results) else mret results.

(** src/piql/scadr/src/main/rails/public/javascripts/prototype.js:3443-3445
    [$$(...)] *)
Definition dollar_dollar (expressions : list jstring) : M (list ref) := findChildElements [] expressions.

(** src/piql/scadr/src/main/rails/public/javascripts/prototype.js:3397-3404
    [Selector.matchElements(elements, expression)] *)
Definition matchElements (nodes : list ref) (expression : jstring) : M (list ref) :=
  found ← dollar_dollar [expression];
  mark found;;
  s ← get;
  unmark found;;
  mret (filter (fun node => bool_decide (node ∈ counted s) = true) nodes).

(** src/piql/scadr/src/main/rails/public/javascripts/prototype.js:3406-3411
    [Selector.findElement(elements, expression, index)], with a selector, none, or
    a number for it *)
Definition findElement (nodes : list ref) (expression : option jstring + Z) (index : option Z) : M (option ref) :=
  let '(expression, index) := match expression with inl e => (e, index) | inr n => (None, Some n) end in
  r ← matchElements nodes (match expression with Some ((_ :: _) as e) => e | _ => js "*" end);
  mret (znth r (default 0 index)).

(** src/piql/scadr/src/main/rails/public/javascripts/prototype.js:1769-1772
    [select(element, ...)] *)
Definition select (element : ref) (expressions : list jstring) : M (list ref) := findChildElements element expressions.

(** src/piql/scadr/src/main/rails/public/javascripts/prototype.js:1702-1704
    [descendants(element)] *)
Definition descendants (element : ref) : M (list ref) := select element [js "*"].

(** src/piql/scadr/src/main/rails/public/javascripts/prototype.js:1774-1777
    [adjacent(element, ...)]: without a parent it throws. *)
Definition adjacent (element : ref) (expressions : list jstring) : M (list ref) :=
  p ← need (parentNode element);
  r ← findChildElements p expressions;
  mret (filter (fun node => node <> element) r).

(** [arguments.length == 1], a number, or a selector with an index *)
Inductive which := One | Nr (n : Z) | Select (expression : jstring) (index : option Z).

Definition choose (nodes : M (list ref)) (one : M (option ref)) (w : which) : M (option ref) :=
  match w with
  | One => one
  | Nr n => nodes ← nodes; mret (znth nodes n)
  | Select e i => nodes ← nodes; findElement nodes (inl (Some e)) i
  end.

(** src/piql/scadr/src/main/rails/public/javascripts/prototype.js:1738-1744
    [up(element, expression, index)] *)
Definition up (element : ref) (w : which) : M (option ref) :=
  choose (mret (ancestors pg element)) (mret (parentNode element)) w.

(** src/piql/scadr/src/main/rails/public/javascripts/prototype.js:1746-1751
    [down(element, expression, index)] *)
Definition down (element : ref) (w : which) : M (option ref) :=
  match w with
  | One => mret (firstDescendant pg element)
  | Nr n => r ← descendants element; mret (znth r n)
  | Select e i => r ← select element [e]; mret (znth r (default 0 i))
  end.

(** src/piql/scadr/src/main/rails/public/javascripts/prototype.js:1753-1759
    [previous(element, expression, index)] *)
Definition previous (element : ref) (w : which) : M (option ref) :=
  choose (mret (previousSiblings pg element)) (mret (previousElementSibling pg element)) w.

(** src/piql/scadr/src/main/rails/public/javascripts/prototype.js:1761-1767
    [next(element, expression, index)] *)
Definition next (element : ref) (w : which) : M (option ref) :=
  choose (mret (nextSiblings pg element)) (mret (nextElementSibling pg element)) w.

End page.
End Find.
