(* ===== verification/SelSpec.v ===== *)
(** * CSS selectors: what is found

    The meaning of a selector as a relation between elements, and the proof that
    the handlers find exactly the elements it describes, each once, and leave no
    marks behind.  The places where the handlers do otherwise are the conditions
    [regular] puts on the calls, with an example for each. *)
From S2P Require Import Prelude JsString JsMonad Dom ProtoText ProtoStr JsRegex ProtoDom ProtoClass Selector SelFind.

Module SelSpec.
Import Js Page Sel Find.
Import Dom(ref, parentNode, kids, firstChild).

(** ** Meaning *)

(** The calls before the first combinator, and after each of them.  Of several
    combinators in a row the last one counts. *)
Fixpoint grouped (l : list call) : list call * list (combinator * list call) :=
  match l with
  | [] => ([], [])
  | CComb c :: l => let '(a, r) := grouped l in ([], match a with [] => r | _ => (c, a) :: r end)
  | t :: l => let '(a, r) := grouped l in (t :: a, r)
  end.

Section meaning.
Variable pg : page.

Definition related (c : combinator) (y x : ref) : Prop :=
  match c with
  | Descendant => is_elem pg x = true /\ descendantOf x y = true
  | Child => is_elem pg x = true /\ parentNode x = Some y
  | Adjacent => nextElementSibling pg y = Some x
  | LaterSibling => x ∈ nextSiblings pg y
  end.

Definition pseudo_test (name : jstring) : option (ref -> bool) :=
  if bool_decide (name = js "first-child") then Some (no_before pg)
  else if bool_decide (name = js "last-child") then Some (no_after pg)
  else if bool_decide (name = js "only-child") then Some (fun n => no_before pg n && no_after pg n)
  else if bool_decide (name = js "empty") then
    Some (fun n => negb (bool_decide (Page.tagName pg n = js "!")) && negb (is_some (firstChild (doc pg) n)))
  else if bool_decide (name = js "enabled") then
    Some (fun n => negb (p_disabled pg n) && negb (bool_decide (p_type pg n = js "hidden")))
  else if bool_decide (name = js "disabled") then Some (p_disabled pg)
  else if bool_decide (name = js "checked") then Some (p_checked pg)
  else None.

(** What one part of a selector asks of an element; [excl v] are the elements
    that the selector [v] of a [:not] finds. *)
Definition sat (excl : jstring -> ref -> Prop) (x : ref) (t : call) : Prop :=
  match t with
  | CTag t => t = js "*" \/ same_name (Page.tagName pg x) t = true
  | CClass c => has_class pg c x = true
  | CId i => getElementById pg i = Some x
  | CPresence a => is_some (getAttribute pg x a) = true
  | CAttr a v op => exists nv, getAttribute pg x a = Some nv /\ operators op nv (Some v) = Text.Returns true
  | CPseudo name v =>
      if bool_decide (name = js "not") then ~ excl v x
      else match pseudo_test name with Some f => f x = true | None => False end
  | CComb _ => False
  end.

Fixpoint chain (excl : jstring -> ref -> Prop) (P : ref -> Prop) (r : list (combinator * list call)) : ref -> Prop :=
  match r with
  | [] => P
  | (c, a) :: r =>
      chain excl (fun x => (exists y, P y /\ related c y x) /\ Forall (sat excl x) a) r
  end.

Definition selects (excl : jstring -> ref -> Prop) (root : ref) (l : list call) (x : ref) : Prop :=
  let '(a, r) := grouped l in chain excl (fun x => x ∈ elements pg root /\ Forall (sat excl x) a) r x.

(** The elements below [root] that a selector describes. *)
Fixpoint described (fuel : nat) (e : jstring) (root x : ref) : Prop :=
  match fuel with
  | O => False
  | S fuel =>
      match compileMatcher (Str.strip e) with
      | Text.Returns (Some l) => selects (fun v => described fuel v root) root l x
      | _ => False
      end
  end.

(** ** Regular selectors *)

Definition known_operator (op : jstring) : bool :=
  bool_decide (op ∈ map js ["="; "!="; "^="; "$="; "*="; "~="; "|="]%string).

(** Where in a selector a call stands: at its front, behind a combinator, or
    behind another call of the same element. *)
Inductive position := Front | Behind | Inside.

Definition regular_call (inner : jstring -> bool) (pos : position) (t : call) : bool :=
  match t with
  | CTag _ => match pos with Inside => false | _ => true end
  | CId _ => match pos with Behind => false | _ => true end
  | CAttr _ _ op => known_operator op
  | CPseudo name v => if bool_decide (name = js "not") then inner v else is_some (pseudo_test name)
  | _ => true
  end.

Fixpoint regular_calls (inner : jstring -> bool) (pos : position) (l : list call) : bool :=
  match l with
  | [] => match pos with Front => false | _ => true end
  | CComb _ :: l => match pos with Front => false | _ => regular_calls inner Behind l end
  | t :: l => regular_call inner pos t && regular_calls inner Inside l
  end.

(** A selector that can be compiled, starts with a part that is no combinator, has
    no number of a child, no tag name behind another part, and no id right behind
    a combinator. *)
Fixpoint regular (fuel : nat) (e : jstring) : bool :=
  match fuel with
  | O => false
  | S fuel =>
      match compileMatcher (Str.strip e) with
      | Text.Returns (Some l) => regular_calls (regular fuel) Front l
      | _ => false
      end
  end.

(** ** The handlers find what is described *)

Notation W := (wp (fun _ _ => False)).
Definition clean (s : notes) : Prop := counted s = ∅.

(** The elements that a call looks at. *)
Definition base (root : ref) (n : option (list ref)) (c : option combinator) (x : ref) : Prop :=
  match n, c with
  | None, _ => x ∈ elements pg root
  | Some n, None => x ∈ n
  | Some n, Some c => exists y, y ∈ n /\ related c y x
  end.

Lemma all_elements root : getElementsByTagName pg root (js "*") = elements pg root.
Proof.
  unfold getElementsByTagName. rewrite bool_decide_eq_true_2 by done. cbn [orb].
  generalize (elements pg root). induction l as [|x l IH]; [done|]. rewrite filter_cons, decide_True by done. by rewrite IH.
Qed.

Lemma below_root_elem x y : is_elem pg x = true -> descendantOf x y = true -> x ∈ elements pg y.
Proof.
  intros Hx Hd. apply elem_of_elements; [|done]. apply descendantOf_spec in Hd as (l & _ & ->).
  apply is_elem_node in Hx. revert Hx. induction l as [|i l IH]; [done|]. intros [n Hn]. apply IH.
  cbn [app Dom.at_] in Hn. destruct (Dom.at_ (doc pg) (l ++ y)); [by eexists|done].
Qed.

Lemma elements_iff x y : x ∈ elements pg y <-> is_elem pg x = true /\ descendantOf x y = true.
Proof.
  split; [|intros [? ?]; by apply below_root_elem]. intros Hx. destruct (Dom.at_ (doc pg) y) eqn:Hy.
  - by apply elem_of_elements in Hx.
  - unfold elements, Dom.order in Hx. rewrite Hy in Hx. by apply elem_of_nil in Hx.
Qed.

Lemma elem_of_children x y : x ∈ childNodes pg y /\ is_elem pg x = true <-> related Child y x.
Proof.
  unfold related, childNodes. split.
  - intros [Hx He]. split; [done|]. destruct (Dom.at_ (doc pg) y); [|by apply elem_of_nil in Hx].
    apply list_elem_of_fmap in Hx as (i & -> & _). done.
  - intros [He Hp]. split; [|done]. apply is_elem_node in He as [n Hn]. destruct x as [|i q]; [done|].
    simpl in Hp. simplify_eq. apply at_parent in Hn as (m & Hm & Hi). rewrite Hm. apply list_elem_of_fmap.
    exists i. split; [done|]. apply elem_of_seq. apply lookup_lt_Some in Hi. lia.
Qed.

(** Making the nodes unique takes each once and leaves no marks. *)
Lemma unique_loop_spec nodes : forall s,
  W (unique_loop nodes) (fun r s' => counted s' = counted s ∪ list_to_set r /\ NoDup r /\
     forall x, x ∈ r <-> x ∈ nodes /\ x ∉ counted s) s.
Proof.
  induction nodes as [|n nodes IH]; intros s; cbn [unique_loop].
  - apply wp_ret. split; [set_solver|]. split; [constructor|]. intros x. set_solver.
  - apply wp_bind. unfold counting. apply wp_bind, wp_get, wp_ret. case_bool_decide as Hn.
    + eapply wp_mono; [apply IH|]. clear IH. intros r s' (Hc & Hnd & Hr). split; [done|]. split; [done|].
      intros x. rewrite Hr. set_solver.
    + apply wp_bind, wp_modify. apply wp_bind. eapply wp_mono; [apply IH|].
      clear IH. intros r s' (Hc & Hnd & Hr). cbn in Hc, Hr. apply wp_ret. split; [rewrite Hc; set_solver|]. split.
      * constructor; [|done]. rewrite Hr. set_solver.
      * intros x. rewrite elem_of_cons, Hr. destruct (decide (x = n)) as [->|]; set_solver.
Qed.

Lemma unique_spec nodes s : clean s ->
  W (unique (Some nodes)) (fun r s' => clean s' /\ NoDup r /\ forall x, x ∈ r <-> x ∈ nodes) s.
Proof.
  intros Hs. unfold unique. apply wp_bind. eapply wp_need; [done|]. destruct nodes as [|n nodes].
  { apply wp_ret. split; [done|]. split; [constructor|done]. }
  apply wp_bind. eapply wp_mono; [apply unique_loop_spec|]. intros r s' (Hc & Hnd & Hr).
  apply wp_bind, wp_modify, wp_ret. unfold clean in *. cbn. split; [rewrite Hc, Hs; set_solver|].
  split; [done|]. intros x. rewrite Hr, Hs. set_solver.
Qed.

Hypothesis no_comments : forall x, is_elem pg x = true -> Page.tagName pg x <> js "!".

Lemma elem_of_combine c nodes x : x ∈ combine pg c nodes <-> exists y, y ∈ nodes /\ related c y x.
Proof.
  unfold combine. destruct c; [..|apply list_elem_of_omap|]; rewrite ?elem_of_concat_map; try done.
  - setoid_rewrite all_elements. by setoid_rewrite elements_iff.
  - setoid_rewrite list_elem_of_filter. split; intros (y & Hy & H); exists y; (split; [done|]).
    + destruct H as [[He _]%andb_true_iff Hx]. by apply elem_of_children.
    + apply elem_of_children in H as [Hx He]. split; [|done]. rewrite He. cbn [andb]. apply negb_true_iff.
      apply bool_decide_eq_false. by apply no_comments.
Qed.

Lemma elem_of_follow root n c x :
  x ∈ or_all pg root (follow pg n c) <-> base root n c x.
Proof.
  unfold or_all, follow, base. destruct n as [n|]; simpl; [|by rewrite all_elements].
  destruct c; [apply elem_of_combine|done].
Qed.

Lemma known_returns op nv v : known_operator op = true -> exists b, operators op nv (Some v) = Text.Returns b.
Proof.
  unfold known_operator. intros H%bool_decide_eq_true. simpl in H.
  repeat (apply elem_of_cons in H as [->|H]; [by eexists|]). by apply elem_of_nil in H.
Qed.

Section calls.
Variables (excluded : jstring -> ref -> Find.M (list ref)) (excl : jstring -> ref -> Prop) (inner : jstring -> bool).
Variable root : ref.
Hypothesis excluded_spec : forall v s, inner v = true -> clean s ->
  W (excluded v root) (fun r s' => clean s' /\ forall x, x ∈ r <-> excl v x) s.

Lemma attr_loop_spec a v op nodes s : known_operator op = true -> clean s ->
  W (attr_loop pg a v op nodes) (fun r s' => clean s' /\ forall x, x ∈ r <-> x ∈ nodes /\ sat excl x (CAttr a v op)) s.
Proof.
  intros Hop. revert s. induction nodes as [|node nodes IH]; intros s Hs; simpl.
  - apply wp_ret. split; [done|]. intros x. split; [by intros ?%elem_of_nil|]. by intros [?%elem_of_nil _].
  - destruct (getAttribute pg node a) as [nv|] eqn:Hnv.
    + destruct (known_returns op nv v Hop) as [b Hb]. rewrite Hb. apply wp_bind, wp_bind.
      eapply wp_mono; [by apply IH|]. intros r s' [Hs' Hr]. apply wp_ret. split; [done|]. intros x.
      destruct b; rewrite ?elem_of_cons, Hr; simpl; split.
      * intros [->|[Hx H]]; [|by split; [right|]]. split; [by left|]. by exists nv.
      * intros [[->|Hx] H]; [by left|by right].
      * intros [Hx H]. by split; [right|].
      * intros [[->|Hx] (nv' & Hnv' & H)]; [simplify_eq; congruence|]. split; [done|by exists nv'].
    + eapply wp_mono; [by apply IH|]. intros r s' [Hs' Hr]. split; [done|]. intros x. rewrite Hr, elem_of_cons.
      split; [by intros [? ?]; split; [right|]|]. intros [[->|Hx] H]; [|done].
      destruct H as (nv & Hnv' & _). congruence.
Qed.

Lemma not_spec nodes v s : inner v = true -> clean s ->
  W (not_ excluded nodes v root) (fun r s' => clean s' /\ forall x, x ∈ r <-> x ∈ nodes /\ ~ excl v x) s.
Proof.
  intros Hv Hs. unfold not_. apply wp_bind. eapply wp_mono; [by apply excluded_spec|]. intros r s' [Hs' Hr].
  unfold wp, mark, unmark, modify, get, mbind, M_bind, mret, M_ret, set_counted. cbn. unfold clean in Hs'. split.
  - unfold clean. cbn. rewrite Hs'. clear. set_solver.
  - intros x. rewrite list_elem_of_filter, bool_decide_eq_false, Hs', <- (Hr x). clear. set_solver.
Qed.

(** Where a call stands is what the variables of the compiled function say. *)
Definition standing (pos : position) (n : option (list ref)) (c : option combinator) : Prop :=
  match pos with
  | Front => n = None /\ c = None
  | Behind => is_Some n /\ is_Some c
  | Inside => is_Some n /\ c = None
  end.

Definition found (n : option (list ref)) (c : option combinator) (t : call)
    (v : option (list ref) * option combinator) (s : notes) : Prop :=
  clean s /\ v.2 = None /\ exists N, v.1 = Some N /\ forall x, x ∈ N <-> base root n c x /\ sat excl x t.

Lemma found_pure n c t N s : clean s -> (forall x, x ∈ N <-> base root n c x /\ sat excl x t) ->
  W (mret (Some N, None)) (found n c t) s.
Proof. intros Hs HN. apply wp_ret. split; [done|]. split; [done|]. by exists N. Qed.

Lemma h_tagName_spec n c t pos x : standing pos n c -> pos <> Inside ->
  x ∈ h_tagName pg n root t c <-> base root n c x /\ sat excl x (CTag t).
Proof.
  intros Hst Hpos. unfold h_tagName. simpl sat. destruct n as [n|].
  2: { unfold getElementsByTagName. rewrite list_elem_of_filter, orb_true_iff, bool_decide_eq_true. simpl. tauto. }
  destruct c as [c|]; [|destruct pos; [by destruct Hst|by destruct Hst as [_ []]|done]].
  assert (forall b : bool, x ∈ (if b then combine pg c n else filter (fun node => same_name (Page.tagName pg node) t = true) (combine pg c n))
    <-> base root (Some n) (Some c) x /\ (b = true \/ same_name (Page.tagName pg x) t = true)) as Hc.
  { intros b. cbn [base]. rewrite <- elem_of_combine. destruct b.
    - split; [intros ?; by split; [|left]|by intros [? _]].
    - rewrite list_elem_of_filter. split; [intros [? ?]; by split; [|right]|intros [? [?|?]]; done]. }
  destruct c; try (rewrite Hc, bool_decide_eq_true; done).
  rewrite elem_of_concat_map. cbn [base related]. setoid_rewrite list_elem_of_filter.
  setoid_rewrite orb_true_iff. setoid_rewrite bool_decide_eq_true. setoid_rewrite elements_iff. naive_solver.
Qed.

Lemma getElementById_elem i x : getElementById pg i = Some x -> x ∈ elements pg [].
Proof.
  unfold getElementById. destruct i; [done|]. intros H. apply head_Some_elem_of in H.
  by apply list_elem_of_filter in H as [_ ?].
Qed.

Lemma h_id_spec n c i pos x : standing pos n c -> pos <> Behind ->
  x ∈ h_id pg n root i c <-> base root n c x /\ sat excl x (CId i).
Proof.
  intros Hst Hpos. unfold h_id. simpl sat. destruct (getElementById pg i) as [target|] eqn:Ht.
  2: { split; [by intros ?%elem_of_nil|]. by intros [_ ?]. }
  apply getElementById_elem in Ht. destruct n as [n|].
  - destruct c; [destruct pos; [by destruct Hst|done|by destruct Hst]|]. cbn [base].
    clear excluded_spec no_comments.
    case_bool_decide; rewrite ?list_elem_of_singleton; split; try (by intros ?%elem_of_nil); naive_solver.
  - cbn [base]. rewrite elements_iff in Ht. destruct Ht as [He Hd]. rewrite elements_iff.
    case_decide; [subst root|destruct (descendantOf target root) eqn:Hdr];
      rewrite ?list_elem_of_singleton; split; try (by intros ?%elem_of_nil);
      try (intros ->; done); intros [[? ?] ?]; simplify_eq; congruence.
Qed.

Lemma run_call_spec pos t n c s :
  standing pos n c -> regular_call inner pos t = true -> (forall c', t <> CComb c') -> clean s ->
  W (run_call pg excluded root t (n, c)) (found n c t) s.
Proof.
  intros Hst Hr Hnc Hs. destruct t as [t|k|i|a|a v op|name v|c']; cbn [run_call].
  - apply found_pure; [done|]. intros x. eapply h_tagName_spec; [done|]. by destruct pos.
  - apply found_pure; [done|]. intros x. unfold h_className. rewrite list_elem_of_filter.
    assert (default (combine pg Descendant [root]) (follow pg n c) = or_all pg root (follow pg n c)) as ->.
    { unfold or_all. destruct (follow pg n c); [done|]. simpl. by rewrite app_nil_r. }
    rewrite elem_of_follow. simpl. tauto.
  - apply found_pure; [done|]. intros x. eapply h_id_spec; [done|]. by destruct pos.
  - apply found_pure; [done|]. intros x. unfold h_attrPresence. rewrite list_elem_of_filter.
    assert (default (or_all pg root n) (follow pg (Some (or_all pg root n)) c) = or_all pg root (follow pg n c)) as ->.
    { destruct n, c; try done. destruct pos; by destruct Hst as [? ?]. }
    rewrite elem_of_follow. simpl. tauto.
  - unfold h_attr. apply wp_bind.
    assert (default (or_all pg root n) (follow pg (Some (or_all pg root n)) c) = or_all pg root (follow pg n c)) as ->.
    { destruct n, c; try done. destruct pos; by destruct Hst as [? ?]. }
    eapply wp_mono; [by apply attr_loop_spec|]. intros r s' [Hs' Hx]. apply found_pure; [done|].
    intros x. by rewrite Hx, elem_of_follow.
  - apply wp_bind. unfold h_pseudo. simpl in Hr. case_bool_decide as Hn.
    + subst name. eapply wp_mono; [apply (not_spec _ v); [done|exact Hs]|]. intros r s' [Hs' Hx].
      apply found_pure; [done|]. intros x. rewrite Hx, elem_of_follow. done.
    + assert (exists f, pseudo_test name = Some f /\
        pseudos pg excluded name (or_all pg root (follow pg n c)) v root
        = mret (filter (fun x => f x = true) (or_all pg root (follow pg n c)))) as (f & Hf & ->).
      { unfold pseudo_test in *. unfold pseudos.
        repeat (case_bool_decide; [subst; try done; by eexists|]). done. }
      apply wp_ret, found_pure; [done|]. intros x. rewrite list_elem_of_filter, elem_of_follow. simpl.
      rewrite bool_decide_eq_false_2, Hf by done. tauto.
  - by destruct (Hnc c').
Qed.

(** *** Several calls *)

Lemma chain_ext P P' r x : (forall x, P x <-> P' x) -> chain excl P r x <-> chain excl P' r x.
Proof.
  revert P P'. induction r as [|[c a] r IH]; intros P P' HP; simpl; [apply HP|]. apply IH. intros z.
  by setoid_rewrite HP.
Qed.

Definition begun (n : option (list ref)) (c : option combinator) (a : list call) (x : ref) : Prop :=
  match a, n with
  | [], Some N => x ∈ N
  | _, _ => base root n c x /\ Forall (sat excl x) a
  end.

Lemma run_calls_spec l : forall pos n c s,
  standing pos n c -> regular_calls inner pos l = true -> clean s ->
  W (run_calls pg excluded root l (n, c))
    (fun v s' => clean s' /\ exists N, v.1 = Some N /\
       forall x, x ∈ N <-> let '(a, r) := grouped l in chain excl (begun n c a) r x) s.
Proof.
  induction l as [|t l IH]; intros pos n c s Hst Hr Hs.
  { apply wp_ret. split; [done|]. destruct pos; [done| |]; destruct Hst as [[N ->] _]; by exists N. }
  assert ((exists c', t = CComb c') \/ forall c', t <> CComb c') as [[c' ->]|Hnc].
  { destruct t; try (by right); left; by eexists. }
  - cbn [run_calls run_call]. apply wp_bind, wp_ret. destruct n as [N|]; [|destruct pos; [done| |]; by destruct Hst as [[] _]].
    assert (regular_calls inner Behind l = true) as Hl by (by destruct pos).
    eapply wp_mono; [apply (IH Behind (Some N) (Some c')); [by split; eexists|done|done]|].
    intros v s' (Hs' & N' & Hv & HN). split; [done|]. exists N'. split; [done|]. intros x. rewrite HN. cbn [grouped].
    destruct (grouped l) as [[|t a] r]; [done|]. cbn [chain]. by apply chain_ext.
  - assert (regular_call inner pos t = true /\ regular_calls inner Inside l = true) as [Ht Hl].
    { apply andb_true_iff. destruct t as [| | | | | |c1]; try done. by destruct (Hnc c1). }
    cbn [run_calls]. apply wp_bind. eapply wp_mono; [by eapply run_call_spec|].
    intros [n1 c1] s1 (Hs1 & Hc1 & N1 & Hn1 & HN1). simpl in Hc1, Hn1. subst n1 c1.
    eapply wp_mono; [apply (IH Inside (Some N1) None); [split; [by eexists|done]|done|done]|].
    intros v s' (Hs' & N' & Hv & HN). split; [done|]. exists N'. split; [done|]. intros x. rewrite HN.
    assert (grouped (t :: l) = (t :: (grouped l).1, (grouped l).2)) as ->.
    { destruct t as [| | | | | |c1]; simpl; try (by destruct (grouped l)). by destruct (Hnc c1). }
    destruct (grouped l) as [a r]. cbn [fst snd]. apply chain_ext. intros z.
    assert (begun (Some N1) None a z <-> z ∈ N1 /\ Forall (sat excl z) a) as ->.
    { destruct a; simpl; [|done]. split; [intros ?; split; [done|constructor]|by intros [? _]]. }
    rewrite HN1. unfold begun. rewrite Forall_cons. destruct n; simpl; tauto.
Qed.
End calls.

Variable injected : jstring -> ref -> Find.M (list ref).

Lemma finds fuel : forall e root s, regular fuel e = true -> clean s ->
  W (findElements pg injected fuel e root)
    (fun r s' => clean s' /\ NoDup r /\ forall x, x ∈ r <-> described fuel e root x) s.
Proof.
  induction fuel as [|fuel IH]; intros e root s Hr Hs; [done|]. cbn [findElements described regular] in *.
  destruct (compileMatcher (Str.strip e)) as [[l|]| |]; try done. apply wp_bind, wp_ret.
  unfold matcher. apply wp_bind.
  eapply wp_mono; [apply (run_calls_spec (findElements pg injected fuel) (fun v => described fuel v root) (regular fuel) root) with (pos := Front)|].
  - intros v s1 Hv Hs1. eapply wp_mono; [by apply IH|]. intros r s2 (? & _ & ?). done.
  - done.
  - done.
  - done.
  - intros [n c] s1 (Hs1 & N & Hn & HN). simpl in Hn. subst n. cbn [fst].
    eapply wp_mono; [by apply unique_spec|]. intros r s2 (Hs2 & Hnd & Hr2). split; [done|]. split; [done|].
    intros x. rewrite Hr2, HN. unfold selects. destruct (grouped l) as [a r'] eqn:Hg.
    apply chain_ext. intros z. unfold begun. destruct a; [|done]. done.
Qed.

Lemma find_spec e root s : regular (enough e) e = true -> clean s ->
  W (find pg injected e root)
    (fun r s' => clean s' /\ NoDup r /\ forall x, x ∈ r <-> described (enough e) e root x) s.
Proof. apply finds. Qed.

(** C24: A regular selector finds, on a page without marks, exactly the elements below
    the root that it describes, each of them once, and leaves no marks. *)
Theorem selector_finds e root s : regular (enough e) e = true -> clean s ->
  exists r s', find pg injected e root s = (Val r, s') /\ clean s' /\ NoDup r /\
    forall x, x ∈ r <-> described (enough e) e root x.
Proof.
  intros Hr Hs. pose proof (finds (enough e) e root s Hr Hs) as H. unfold wp, find in *.
  destruct (findElements _ _ _ _ _ s) as [[r|x] s']; [|done]. by exists r, s'.
Qed.
End meaning.
End SelSpec.
