(* ===== verification/SelNth.v ===== *)
(** * CSS selectors: counting children

    The pseudo classes with a formula number the children of the parents of the
    nodes found so far.  Which nodes have been numbered is told from the marks that
    also say which nodes are looked at, so that the numbers are right only when no
    node is the parent of another.  [SelCases] has lists of selectors, the walks
    that take one, and a page with the cases that go wrong. *)
From S2P Require Import Prelude JsString Dom ProtoText ProtoStr JsMonad JsRegex ProtoDom ProtoClass Selector SelFind SelSpec.

Module SelNth.
Import Js Page Sel Find SelSpec.
Import Dom(ref, parentNode, kids).

(** The indices of a formula. *)
Lemma getIndices_spec a b total n : 
  n ∈ getIndices a b total <->
  if a =? 0 then n = b /\ 0 < b else 1 <= n <= total /\ exists k, 0 <= k /\ n = a * k + b.
Proof.
  unfold getIndices. destruct (Z.eqb_spec a 0) as [->|Ha].
  - destruct (Z.ltb_spec 0 b); rewrite ?list_elem_of_singleton; [tauto|]. split; [by intros ?%elem_of_nil|lia].
  - rewrite list_elem_of_filter, elem_of_seqZ, andb_true_iff, Z.eqb_eq, Z.leb_le. split.
    + intros [[Hr Hq] Hn]. split; [lia|]. exists (Z.quot (n - b) a). split; [done|].
      pose proof (Z.quot_rem' (n - b) a). lia.
    + intros (Hn & k & Hk & ->). replace (a * k + b - b) with (k * a) by lia.
      rewrite Z.rem_mul, Z.quot_mul by done. lia.
Qed.

Section page.
Variable pg : page.
Notation W := (wp (fun _ _ => False)).

(** The numbers that a list of nodes is given. *)
Definition counts (ofType : bool) (marks : gset ref) (x : ref) : bool :=
  is_elem pg x && (negb ofType || bool_decide (x ∈ marks)).

Lemma number_spec ofType l : forall j s, NoDup l ->
  W (number pg ofType l j) (fun _ s' => counted s' = counted s /\
     (forall l1 x l2, l = l1 ++ x :: l2 -> counts ofType (counted s) x = true ->
        nodeIndex s' !! x = Some (j + zlen (filter (fun y => counts ofType (counted s) y = true) l1))) /\
     forall x, x ∉ l -> nodeIndex s' !! x = nodeIndex s !! x) s.
Proof.
  induction l as [|n l IH]; intros j s Hnd; cbn [number].
  { apply wp_ret. split; [done|]. split; [|done]. by intros [] ? ?. }
  apply NoDup_cons in Hnd as [Hn Hnd]. apply wp_bind. unfold counting. apply wp_bind, wp_get, wp_ret.
  change (is_elem pg n && (negb ofType || bool_decide (n ∈ counted s))) with (counts ofType (counted s) n).
  destruct (counts ofType (counted s) n) eqn:Hc.
  - apply wp_bind, wp_modify. eapply wp_mono; [by apply IH|]. clear IH. cbn. intros _ s' (Hc' & H1 & H2).
    split; [done|]. split.
    + intros [|y l1] x l2 He Hx; simplify_eq/=.
      * rewrite H2, lookup_insert_eq by done. f_equal. unfold zlen. simpl. lia.
      * rewrite (H1 l1 x l2) by done. rewrite filter_cons, decide_True by done. rewrite zlen_cons. f_equal. lia.
    + intros x Hx. apply not_elem_of_cons in Hx as [Hxn Hx]. rewrite H2 by done. by rewrite lookup_insert_ne.
  - eapply wp_mono; [by apply IH|]. clear IH. intros _ s' (Hc' & H1 & H2). split; [done|]. split.
    + intros [|y l1] x l2 He Hx; simplify_eq/=; [congruence|].
      rewrite (H1 l1 x l2) by done. rewrite filter_cons, decide_False by congruence. done.
    + intros x Hx. apply not_elem_of_cons in Hx as [Hxn Hx]. by rewrite H2.
Qed.

(** The position of a node among its siblings that count. *)
Definition position (ofType reverse : bool) (nodes : list ref) (x : ref) : Z :=
  1 + zlen (filter (fun y => counts ofType (list_to_set nodes) y = true) (if reverse then behind pg x else in_front x)).

Lemma children_split x : is_elem pg x = true -> x <> [] ->
  exists q, parentNode x = Some q /\ childNodes pg q = rev (in_front x) ++ x :: behind pg x.
Proof.
  intros He Hx. destruct x as [|i q]; [done|]. exists q. split; [done|].
  apply is_elem_node in He as [n (m & Hm & Hi)%at_parent]. apply lookup_lt_Some in Hi.
  unfold childNodes, behind, siblings_of, in_front. rewrite Hm. rewrite <- map_rev, rev_involutive.
  replace (length (kids m)) with (i + S (length (kids m) - S i))%nat at 1 by lia.
  rewrite seq_app, map_app. by rewrite Nat.add_0_l.
Qed.

Lemma NoDup_childNodes q : NoDup (childNodes pg q).
Proof.
  unfold childNodes. destruct (Dom.at_ (doc pg) q); [|constructor]. apply NoDup_fmap; [|apply NoDup_seq].
  intros i j. by intros [=].
Qed.

Lemma zlen_filter_rev (f : ref -> bool) (l : list ref) : zlen (filter (fun y => f y = true) (rev l)) = zlen (filter (fun y => f y = true) l).
Proof.
  induction l as [|x l IH]; [done|]. cbn [rev]. rewrite filter_app, zlen_app, IH, !filter_cons, filter_nil.
  destruct (decide (f x = true)); rewrite ?zlen_cons, ?zlen_nil; lia.
Qed.

(** The children of a parent are numbered from one end. *)
Lemma index_spec q reverse ofType s :
  W (index pg q reverse ofType) (fun _ s' => counted s' = {[q]} ∪ counted s /\
     (forall x, is_elem pg x = true -> parentNode x = Some q -> counts ofType ({[q]} ∪ counted s) x = true ->
        nodeIndex s' !! x = Some (1 + zlen (filter (fun y => counts ofType ({[q]} ∪ counted s) y = true)
                                       (if reverse then behind pg x else in_front x)))) /\
     forall x, parentNode x <> Some q -> nodeIndex s' !! x = nodeIndex s !! x) s.
Proof.
  unfold index. apply wp_bind, wp_modify. set (s1 := set_counted _ s).
  assert (counted s1 = {[q]} ∪ counted s) as Hs1 by (unfold s1; cbn; clear; set_solver).
  assert (NoDup (if reverse then rev (childNodes pg q) else childNodes pg q)) as Hnd.
  { destruct reverse; [|apply NoDup_childNodes]. apply NoDup_ListNoDup, List.NoDup_rev, NoDup_ListNoDup, NoDup_childNodes. }
  eapply wp_mono; [by apply number_spec|]. intros _ s' (Hc & H1 & H2). rewrite Hs1 in *. split; [done|]. split.
  - intros x He Hp Hx. destruct (children_split x He) as (q' & Hq' & Hsp); [by intros ->|]. simplify_eq.
    destruct reverse.
    + rewrite (H1 (rev (behind pg x)) x (in_front x)); [by rewrite zlen_filter_rev| |done].
      rewrite Hsp, rev_app_distr. cbn [rev]. by rewrite rev_involutive, <- app_assoc.
    + rewrite (H1 (rev (in_front x)) x (behind pg x)); [by rewrite zlen_filter_rev|done|done].
  - intros x Hx. rewrite H2; [done|]. intros Hin. apply Hx.
    assert (x ∈ childNodes pg q) as Hin' by (destruct reverse; [by apply list_elem_of_In, in_rev, list_elem_of_In in Hin|done]).
    unfold childNodes in Hin'. destruct (Dom.at_ (doc pg) q); [|by apply elem_of_nil in Hin'].
    by apply list_elem_of_fmap in Hin' as (i & -> & _).
Qed.

Lemma nth_unfold nodes f reverse ofType : nodes <> [] -> nth pg nodes f reverse ofType = (
  mark nodes;;
  indexed ← index_parents pg reverse ofType nodes;
  s ← get;
  let at_index n node := bool_decide (nodeIndex s !! node = Some n) in
  let results :=
    match parse_formula (even_odd f) with
    | Nth n => filter (fun node => at_index n node = true) nodes
    | Lin a b =>
        concat (map (fun node => omap (fun n => if at_index n node then Some node else None)
                                   (getIndices a b (zlen nodes))) nodes)
    | NoFormula => []
    end in
  unmark nodes;; unmark indexed;;
  mret results).
Proof. by destruct nodes. Qed.

Section nodes.
Variables (nodes : list ref) (reverse ofType : bool).
Hypothesis elems : forall x, x ∈ nodes -> is_elem pg x = true /\ x <> [].
(** No node is the parent of another. *)
Hypothesis flat : forall x y, x ∈ nodes -> y ∈ nodes -> parentNode y <> Some x.
(** When nodes of a type are counted, no parent of a node is next to a node. *)
Hypothesis level : ofType = true -> forall x y q, x ∈ nodes -> y ∈ nodes -> parentNode y = Some q -> parentNode x <> parentNode q.

(** The state in which the parents in [Q] have been numbered. *)
Definition numbered (Q : gset ref) (s : notes) : Prop :=
  counted s = list_to_set nodes ∪ Q /\
  (forall q, q ∈ Q -> exists x, x ∈ nodes /\ parentNode x = Some q) /\
  forall x q, x ∈ nodes -> parentNode x = Some q -> q ∈ Q -> nodeIndex s !! x = Some (position ofType reverse nodes x).

(** The parents that are marked do not change what counts. *)
Lemma same_counts Q x y :
  (forall q, q ∈ Q -> exists z, z ∈ nodes /\ parentNode z = Some q) -> x ∈ nodes -> parentNode y = parentNode x ->
  counts ofType (list_to_set nodes ∪ Q) y = counts ofType (list_to_set nodes) y.
Proof.
  intros HQ Hx Hy. unfold counts. f_equal. destruct ofType eqn:Ho; [|done]. cbn [negb orb].
  apply bool_decide_ext. rewrite elem_of_union. split; [|by left]. intros [?|Hq]; [done|].
  destruct (HQ y Hq) as (z & Hz & Hp). by destruct (level eq_refl x z y Hx Hz Hp).
Qed.

Lemma sibling_parent x y : y ∈ (if reverse then behind pg x else in_front x) -> parentNode y = parentNode x.
Proof.
  destruct x as [|i q]; destruct reverse; try (by intros ?%elem_of_nil);
    intros (j & -> & _)%list_elem_of_fmap; done.
Qed.

Lemma filter_ext_in (f g : ref -> bool) (l : list ref) : (forall y, y ∈ l -> f y = g y) ->
  filter (fun y => f y = true) l = filter (fun y => g y = true) l.
Proof.
  intros H. induction l as [|y l IH]; [done|]. rewrite !filter_cons, (H y) by left.
  rewrite IH; [done|]. intros z Hz. apply H. by right.
Qed.

Lemma index_parents_spec l : forall Q s, (forall x, x ∈ l -> x ∈ nodes) -> numbered Q s ->
  W (index_parents pg reverse ofType l)
    (fun r s' => numbered (Q ∪ list_to_set r) s' /\ forall x q, x ∈ l -> parentNode x = Some q -> q ∈ Q ∪ list_to_set r) s.
Proof.
  induction l as [|x l IH]; intros Q s Hl HQ; cbn [index_parents].
  { apply wp_ret. assert (Q ∪ list_to_set [] = Q) as -> by (clear; set_solver). split; [done|]. by intros x q ?%elem_of_nil. }
  assert (x ∈ nodes) as Hx by (apply Hl; left). destruct (elems x Hx) as [He Hne].
  destruct (children_split x He Hne) as (q & Hq & _). apply wp_bind. eapply wp_need; [exact Hq|].
  apply wp_bind. unfold counting. apply wp_bind, wp_get, wp_ret. destruct HQ as (Hc & HQp & HQi).
  assert (q ∉ (list_to_set nodes : gset ref)) as Hqn.
  { rewrite elem_of_list_to_set. intros Hin. by apply (flat q x). }
  case_bool_decide as Hm; rewrite Hc in Hm; apply elem_of_union in Hm || (apply not_elem_of_union in Hm as [_ Hm]).
  - destruct Hm as [?|Hm]; [done|]. eapply wp_mono; [apply IH|].
    + intros y Hy. apply Hl. by right.
    + done.
    + intros r s' [Hn Hr]. split; [done|]. intros y q' [->|Hy]%elem_of_cons Hp; [simplify_eq; apply elem_of_union; by left|by eapply Hr].
  - apply wp_bind. eapply wp_mono; [apply index_spec|]. intros _ s1 (Hc1 & Hi1 & Ho1).
    assert ({[q]} ∪ counted s = list_to_set nodes ∪ ({[q]} ∪ Q)) as Hset by (rewrite Hc; clear; set_solver).
    rewrite Hset in Hc1, Hi1.
    assert (forall q', q' ∈ {[q]} ∪ Q -> exists z, z ∈ nodes /\ parentNode z = Some q') as HQp1.
    { intros q' [->%elem_of_singleton|Hq']%elem_of_union; [by exists x|by apply HQp]. }
    assert (numbered ({[q]} ∪ Q) s1) as Hn1.
    { split; [done|]. split; [done|]. intros y q' Hy Hp Hq'. destruct (decide (q' = q)) as [->|Hne'].
      - rewrite Hi1; [|by apply elems|done|].
        + f_equal. unfold position. f_equal. f_equal. apply filter_ext_in. intros z Hz.
          eapply same_counts; [done|exact Hy|]. by apply sibling_parent.
        + rewrite (same_counts _ y y) by done. unfold counts. rewrite (proj1 (elems y Hy)). cbn [andb].
          apply orb_true_iff. right. apply bool_decide_eq_true. by apply elem_of_list_to_set.
      - rewrite Ho1 by congruence. eapply HQi; [done|done|]. apply elem_of_union in Hq' as [?%elem_of_singleton|?]; done. }
    apply wp_bind. eapply wp_mono; [apply (IH ({[q]} ∪ Q) s1); [intros y Hy; apply Hl; by right|done]|].
    intros r s' [Hn Hr]. apply wp_ret.
    assert ({[q]} ∪ Q ∪ list_to_set r = Q ∪ (list_to_set (q :: r) : gset ref)) as Hse by (clear; set_solver).
    rewrite Hse in *. split; [done|].
    intros y q' [->|Hy]%elem_of_cons Hp; [|by eapply Hr]. simplify_eq. clear. set_solver.
Qed.

(** What a formula asks of a position, and what the handler finds: for a formula
    with a step it looks only at as many positions as there are nodes. *)
Definition fits (f : formula) (n : Z) : Prop :=
  match f with
  | Nth m => n = m
  | Lin a b => if a =? 0 then n = b else exists k, 0 <= k /\ n = a * k + b
  | NoFormula => False
  end.
Definition in_range (f : formula) (n : Z) : Prop :=
  match f with Lin a _ => a <> 0 -> n <= zlen nodes | _ => True end.

(** C25: For nodes none of which is the parent of another and, when types are
    counted, none of which is next to a parent of one: the handler of [:nth-child]
    and its kin takes from the nodes those whose position among the siblings that
    count fits the formula - with a step, only a position that is not beyond the
    number of the nodes - and leaves no marks. *)
Theorem nth_finds f s : nodes <> [] -> clean s ->
  exists r s', nth pg nodes f reverse ofType s = (Val r, s') /\ clean s' /\
    forall x, x ∈ r <-> x ∈ nodes /\
      let n := position ofType reverse nodes x in
      fits (parse_formula (even_odd f)) n /\ in_range (parse_formula (even_odd f)) n.
Proof.
  intros Hne Hs.
  assert (W (nth pg nodes f reverse ofType) (fun r s' => clean s' /\ forall x, x ∈ r <-> x ∈ nodes /\
      let n := position ofType reverse nodes x in
      fits (parse_formula (even_odd f)) n /\ in_range (parse_formula (even_odd f)) n) s) as H.
  2: { unfold wp in H. destruct (nth _ _ _ _ _ s) as [[r|] s']; [|done]. exists r, s'. by split. }
  rewrite nth_unfold by done.
  apply wp_bind, wp_modify. set (s1 := set_counted _ s).
  assert (counted s1 = list_to_set nodes) as Hs1 by (unfold s1, clean in *; cbn; rewrite Hs; clear; set_solver).
  apply wp_bind. eapply wp_mono; [apply (index_parents_spec nodes ∅ s1); [done|]|].
  { split; [by rewrite Hs1, (right_id_L ∅ (∪))|]. split; [|]; intros; set_solver. }
  intros indexed s2 [(Hc & _ & Hi) Hall]. apply wp_bind, wp_get, wp_bind, wp_modify, wp_bind, wp_modify, wp_ret.
  rewrite (left_id_L ∅ (∪)) in *. split; [unfold clean; cbn; rewrite Hc; clear; set_solver|].
  assert (forall x n, x ∈ nodes -> bool_decide (nodeIndex s2 !! x = Some n) = true <-> position ofType reverse nodes x = n) as Hix.
  { intros x n Hx. destruct (elems x Hx) as [He Hn0]. destruct (children_split x He Hn0) as (q & Hq & _).
    rewrite bool_decide_eq_true, (Hi x q Hx Hq) by by eapply Hall. split; [by intros [= ->]|by intros ->]. }
  intros x. assert (1 <= position ofType reverse nodes x) as Hpos.
  { unfold position. pose proof (zlen_nonneg (filter (fun y => counts ofType (list_to_set nodes) y = true)
      (if reverse then behind pg x else in_front x))). lia. }
  destruct (parse_formula (even_odd f)) as [m|a b|]; cbn [fits in_range].
  - rewrite list_elem_of_filter. split; [intros [H Hx]; split; [done|]; by apply Hix in H|].
    intros (Hx & H & _). split; [by apply Hix|done].
  - rewrite elem_of_concat_map. setoid_rewrite list_elem_of_omap. split.
    + intros (y & Hy & n & Hn & H). destruct (bool_decide _) eqn:E; [|done]. injection H as ->.
      apply Hix in E; [|done]. subst n. split; [done|]. apply getIndices_spec in Hn.
      destruct (Z.eqb_spec a 0); [split; [tauto|done]|]. split; [tauto|intros; lia].
    + intros (Hx & Hf & Hr). exists x. split; [done|]. exists (position ofType reverse nodes x). split.
      * apply getIndices_spec. destruct (Z.eqb_spec a 0); [split; [done|lia]|]. split; [|done]. split; [lia|by apply Hr].
      * by rewrite (proj2 (Hix x _ Hx) eq_refl).
  - split; [by intros ?%elem_of_nil|tauto].
Qed.
End nodes.
End page.
End SelNth.

(** * CSS selectors: several at once, and on a page

    Lists of selectors, the walks from an element to the elements around it that a
    selector describes, and a page on which the selectors are tried, those with
    which the handlers go wrong among them. *)

Module SelCases.
Import Js Page Sel Find SelSpec SelNth.
Import Dom(ref, parentNode, kids, firstChild).

Section page.
Variable pg : page.
Variable injected : jstring -> ref -> Find.M (list ref).
Hypothesis no_comments : forall x, is_elem pg x = true -> Page.tagName pg x <> js "!".
Notation W := (wp (fun _ _ => False)).

(** The elements that one of the selectors describes. *)
Definition described_by (es : list jstring) (root x : ref) : Prop :=
  exists e, e ∈ es /\ described pg (enough (Str.strip e)) (Str.strip e) root x.
Definition all_regular (es : list jstring) : Prop :=
  Forall (fun e => regular pg (enough (Str.strip e)) (Str.strip e) = true) es.

Lemma find_all_spec es root : forall s, all_regular es -> clean s ->
  W (find_all pg injected es root) (fun r s' => clean s' /\ (zlen es <= 1 -> NoDup r) /\
     forall x, x ∈ r <-> described_by es root x) s.
Proof.
  induction es as [|e es IH]; intros s Hr Hs; cbn [find_all].
  - apply wp_ret. split; [done|]. split; [constructor|]. intros x. split; [by intros ?%elem_of_nil|].
    by intros (e & ?%elem_of_nil & _).
  - apply Forall_cons in Hr as [He Hr]. apply wp_bind. eapply wp_mono; [by apply find_spec|].
    intros r s1 (Hs1 & Hnd & Hr1). apply wp_bind. eapply wp_mono; [by apply IH|].
    intros rs s2 (Hs2 & _ & Hr2). apply wp_ret. split; [done|]. split.
    + destruct es as [|e' es]; [|rewrite !zlen_cons; pose proof (zlen_nonneg es); lia]. intros _.
      assert (rs = []) as ->; [|by rewrite app_nil_r]. destruct rs as [|x rs]; [done|].
      destruct (proj1 (Hr2 x)) as (? & ?%elem_of_nil & _); [left|done].
    + intros x. rewrite elem_of_app, Hr1, Hr2. unfold described_by. setoid_rewrite elem_of_cons. split.
      * intros [H|(e' & He' & H)]; [exists e; split; [by left|done]|exists e'; split; [by right|done]].
      * intros (e' & [->|He'] & H); [by left|right; by exists e'].
Qed.

Lemma children_found element expressions es s :
  split (join [c_comma] expressions) = Text.Returns es -> all_regular es -> clean s ->
  W (findChildElements pg injected element expressions)
    (fun r s' => clean s' /\ NoDup r /\ forall x, x ∈ r <-> described_by es element x) s.
Proof.
  intros Hes Hr Hs. unfold findChildElements. rewrite Hes. apply wp_bind, wp_ret, wp_bind.
  eapply wp_mono; [by apply find_all_spec|]. intros r s1 (Hs1 & Hnd & Hr1).
  destruct (Z.ltb_spec 1 (zlen es)).
  - eapply wp_mono; [by apply unique_spec|]. intros r' s2 (Hs2 & Hnd' & Hr'). split; [done|]. split; [done|].
    intros x. by rewrite Hr', Hr1.
  - apply wp_ret. split; [done|]. split; [by apply Hnd|done].
Qed.

(** [select] with a list of regular selectors finds each element below that one of
    them describes once. *)
Theorem select_finds element expressions es s :
  split (join [c_comma] expressions) = Text.Returns es -> all_regular es -> clean s ->
  exists r s', select pg injected element expressions s = (Val r, s') /\ clean s' /\ NoDup r /\
    forall x, x ∈ r <-> described_by es element x.
Proof.
  intros Hes Hr Hs. pose proof (children_found element expressions es s Hes Hr Hs) as H. unfold wp, select in *.
  destruct (findChildElements _ _ _ _ s) as [[r|] s']; [|done]. by exists r, s'.
Qed.

Lemma matchElements_spec nodes e es s :
  split e = Text.Returns es -> all_regular es -> clean s ->
  W (matchElements pg injected nodes e)
    (fun r s' => clean s' /\ exists f, r = filter (fun x => f x = true) nodes /\ forall x, f x = true <-> described_by es [] x) s.
Proof.
  intros Hes Hr Hs. unfold matchElements, dollar_dollar. apply wp_bind.
  eapply wp_mono; [by apply (children_found _ _ es)|]. intros r s1 (Hs1 & _ & Hr1).
  apply wp_bind, wp_modify, wp_bind, wp_get, wp_bind, wp_modify, wp_ret. unfold clean in *. cbn. rewrite Hs1. split.
  { clear. set_solver. }
  exists (fun x => bool_decide (x ∈ (list_to_set r ∪ ∅ : gset ref))). split; [done|].
  intros x. rewrite bool_decide_eq_true, <- Hr1. clear. set_solver.
Qed.

(** The walks up and to the sides with a selector give the element with the asked
    number among the ancestors or siblings that the selector describes on the
    whole page. *)
Theorem walks_find element e es i s : e <> [] ->
  split e = Text.Returns es -> all_regular es -> clean s ->
  exists f, (forall x, f x = true <-> described_by es [] x) /\
    let pick l := znth (filter (fun x => f x = true) l) (default 0 i) in
    (exists s', up pg injected element (Select e i) s = (Val (pick (ancestors pg element)), s') /\ clean s') /\
    (exists s', previous pg injected element (Select e i) s = (Val (pick (previousSiblings pg element)), s') /\ clean s') /\
    (exists s', next pg injected element (Select e i) s = (Val (pick (nextSiblings pg element)), s') /\ clean s').
Proof.
  intros He Hes Hr Hs.
  assert (forall nodes, exists f s', findElement pg injected nodes (inl (Some e)) i s =
      (Val (znth (filter (fun x => f x = true) nodes) (default 0 i)), s') /\ clean s' /\
      forall x, f x = true <-> described_by es [] x) as H.
  { intros nodes. pose proof (matchElements_spec nodes e es s Hes Hr Hs) as H. unfold findElement.
    destruct e as [|c e]; [done|]. unfold wp in H. unfold mbind, M_bind.
    destruct (matchElements _ _ _ _ s) as [[r|] s']; [|done]. destruct H as (Hs' & f & -> & Hf). by exists f, s'. }
  destruct (H []) as (f & _ & _ & _ & Hf). exists f. split; [done|]. cbv zeta.
  assert (forall nodes, exists s', findElement pg injected nodes (inl (Some e)) i s =
      (Val (znth (filter (fun x => f x = true) nodes) (default 0 i)), s') /\ clean s') as Hall.
  { intros nodes. destruct (H nodes) as (g & s' & -> & Hs' & Hg). exists s'. split; [|done]. do 3 f_equal.
    apply filter_ext_in. intros x _. apply eq_true_iff_eq. by rewrite Hf, Hg. }
  split; [|split]; apply Hall.
Qed.
End page.

(** ** A page *)
Definition elem (name : string) (ks : list Dom.node) : Dom.node := Dom.Node (Dom.KElem (js name)) ks.
Definition text (s : string) : Dom.node := Dom.Node (Dom.KText (js s)) [].

Definition tree : Dom.node := Dom.Node Dom.KOther [elem "HTML" [elem "BODY" [
  elem "DIV" [elem "DIV" [elem "P" [text "one"]; text " "; elem "P" [text "two"]];
              elem "UL" [elem "LI" []; elem "LI" []; elem "LI" []; elem "LI" []]; elem "P" []];
  elem "SPAN" []; elem "P" [text "three"]; elem "P" []]]].
Definition body : ref := [0; 0]%nat.
Definition main : ref := [0; 0; 0]%nat.
Definition inner_div : ref := 0%nat :: main.
Definition list_ul : ref := 1%nat :: main.
Definition one : ref := 0%nat :: inner_div.
Definition two : ref := 2%nat :: inner_div.
Definition last_p : ref := 2%nat :: main.
Definition three : ref := 2%nat :: body.
Definition four : ref := 3%nat :: body.

Definition attributes (x : ref) : gmap jstring jstring :=
  if decide (x = main) then <[js "id" := js "main"]> (<[js "class" := js "big box"]> ∅)
  else if decide (x = two) then <[js "class" := js "note"]> (<[js "title" := js "the second"]> ∅)
  else if decide (x = one) then <[js "class" := [110; 111; 116; 101; 9; 120]]> (<[js "data-x" := js "1"]> ∅)
  else ∅.
Definition pg : page := Page tree attributes (fun _ => false) (fun _ => false) (fun _ => []).
Definition foreign : jstring -> ref -> Find.M (list ref) := fun _ _ => throw Thrown.
Definition no_notes : notes := Notes ∅ ∅.
Definition found_by (e : string) (root : ref) : res (list ref) := (find pg foreign (js e) root no_notes).1.

Lemma pg_comments x : is_elem pg x = true -> Page.tagName pg x <> js "!".
Proof.
  intros Hx. assert (x ∈ elements pg []) as Hin.
  { apply elements_iff. split; [done|]. apply descendantOf_spec. exists x. rewrite app_nil_r. split; [by intros ->|done]. }
  assert (elements pg [] = elements pg []) as E by done.
  assert (forallb (fun x => negb (bool_decide (Page.tagName pg x = js "!"))) (elements pg []) = true) as Hall by (by vm_compute).
  rewrite forallb_forall in Hall. apply list_elem_of_In in Hin. apply Hall in Hin.
  apply negb_true_iff in Hin. by apply bool_decide_eq_false in Hin.
Qed.

Lemma selector_finds_witness :
  regular pg (enough (js "div > div p.note:not([title])")) (js "div > div p.note:not([title])") = true /\
  exists r s', find pg foreign (js "div > div p.note:not(:last-child)") [] no_notes = (Val r, s') /\
    forall x, x ∈ r <-> described pg (enough (js "div > div p.note:not(:last-child)")) (js "div > div p.note:not(:last-child)") [] x.
Proof.
  split; [by vm_compute|].
  destruct (selector_finds pg pg_comments foreign (js "div > div p.note:not(:last-child)") [] no_notes) as (r & s' & H1 & _ & _ & H2).
  - vm_compute. reflexivity.
  - reflexivity.
  - exists r, s'. split; [exact H1|exact H2].
Defined.

Lemma select_finds_witness :
  exists r s', select pg foreign main [js "p, ul > li"; js "li:first-child"] no_notes = (Val r, s') /\ NoDup r.
Proof.
  destruct (select_finds pg foreign pg_comments main [js "p, ul > li"; js "li:first-child"]
    (map js ["p"; "ul > li"; "li:first-child"]%string) no_notes) as (r & s' & H1 & _ & H2 & _).
  - vm_compute. reflexivity.
  - repeat constructor.
  - reflexivity.
  - exists r, s'. split; [exact H1|exact H2].
Defined.

Lemma walks_find_witness : (up pg foreign two (Select (js "div") (Some 1)) no_notes).1 = Val (Some main).
Proof.
  destruct (walks_find pg foreign pg_comments two (js "div") [js "div"] (Some 1) no_notes) as (f & Hf & (s' & H & _) & _).
  - done.
  - vm_compute. reflexivity.
  - repeat constructor.
  - reflexivity.
  - vm_compute. reflexivity.
Defined.

Example finds_notes : found_by "div > div p[title$='second']" [] = Val [two].
Proof. by vm_compute. Qed.

(** *** Where the handlers go wrong *)

(** An id behind a combinator is found when the element itself is among the nodes,
    though it is not related to any of them. *)
Lemma id_found_without_relation :
  found_by "div #main" [] = Val [main] /\
  ~ exists y, is_elem pg y = true /\ same_name (Page.tagName pg y) (js "div") = true /\ descendantOf main y = true.
Proof.
  split; [by vm_compute|]. intros (y & He & Ht & Hd). unfold main in Hd. simpl in Hd.
  repeat case_decide; by subst.
Qed.

(** A node that is the parent of another node is taken for one whose children are
    numbered: the inner element is its parent's first child, and not found. *)
Lemma nested_not_numbered :
  found_by "div:nth-child(1)" [] = Val [main] /\ position pg false false [] inner_div = 1.
Proof. by vm_compute. Qed.

(** A formula with a step is tried on as many numbers as there are nodes: the
    elements P of the body are its third and fourth children, and not found. *)
Lemma few_nodes_many_siblings :
  found_by "span + p:nth-child(2n+1)" [] = Val [] /\ position pg false false [] three = 3.
Proof. by vm_compute. Qed.

(** A parent that has been marked counts as one of the type: the element [main] has
    a P among its children, and then counts as a P next to its own siblings. *)
Lemma parent_counted_as_type :
  found_by "p:first-of-type" [] = Val [one] /\
  map (position pg true false (getElementsByTagName pg [] (js "p"))) [one; two; last_p; three; four] = [1; 2; 1; 1; 2].
Proof. by vm_compute. Qed.

(** The star matches every element as a selector, and none in a test. *)
Lemma star_matches_nothing :
  (match_ pg foreign ClassName.sample_RegExp (js "*") main no_notes).1 = Val false /\
  match found_by "*" [] with Val r => bool_decide (main ∈ r) | _ => false end = true.
Proof. by vm_compute. Qed.

(** An attribute whose name has a dash is taken for one with an operator, which
    there is not. *)
Lemma dashed_attribute_throws : found_by "[data-x]" [] = Exn TypeError /\ found_by "[title]" [] = Val [two].
Proof. by vm_compute. Qed.

(** A quote in an attribute value ends the string literal of the compiled code. *)
Lemma quote_in_value :
  compileMatcher (js "p[title='say " ++ [c_quote] ++ js "hi" ++ [c_quote] ++ js "']") = Text.Returns None.
Proof. by vm_compute. Qed.

(** White space other than spaces separates class names for [hasClassName] and not
    for selectors. *)
Lemma tab_between_classes :
  found_by ".note" [] = Val [two] /\
  ClassName.hasClassName ClassName.sample_RegExp (Page.className pg one) (js "note") = Some true.
Proof. by vm_compute. Qed.

(** A pseudo class that is not known is left out, with all that follows. *)
Lemma unknown_pseudo_ignored : calls_of "li:hover span" = Text.Returns (Some [CTag (js "li")]).
Proof. by vm_compute. Qed.

(** What follows [:not(...)] without white space or a colon takes the
    parentheses away from it: the empty selector then throws. *)
Lemma not_before_class : found_by "p:not(.note).x" [] = Exn TypeError.
Proof. by vm_compute. Qed.

Lemma nth_finds_witness :
  exists r s', nth pg (getElementsByTagName pg [] (js "li")) (js "odd") false false no_notes = (Val r, s') /\
    forall x, x ∈ r <-> x ∈ getElementsByTagName pg [] (js "li") /\
      let n := position pg false false (getElementsByTagName pg [] (js "li")) x in
      fits (parse_formula (even_odd (js "odd"))) n /\ in_range (getElementsByTagName pg [] (js "li")) (parse_formula (even_odd (js "odd"))) n.
Proof.
  destruct (nth_finds pg (getElementsByTagName pg [] (js "li")) false false) with (f := js "odd") (s := no_notes) as (r & s' & H1 & _ & H2).
  - intros x Hx. assert (Forall (fun x => is_elem pg x = true /\ x <> []) (getElementsByTagName pg [] (js "li"))) as H by (repeat constructor; done).
    rewrite Forall_forall in H. by apply H.
  - intros x y Hx Hy. assert (Forall (fun x => Forall (fun y => parentNode y <> Some x) (getElementsByTagName pg [] (js "li"))) (getElementsByTagName pg [] (js "li"))) as H by (repeat constructor; done).
    rewrite Forall_forall in H. specialize (H x Hx). rewrite Forall_forall in H. by apply H.
  - discriminate.
  - discriminate.
  - reflexivity.
  - exists r, s'. split; [exact H1|exact H2].
Defined.
End SelCases.
