(* ===== verification/ProtoForm.v ===== *)
(** * Forms

    The controls of a form, their values, and what a form sends: the values of its
    successful controls under their names, as an object or as a query string.  A
    form is the list of the elements below it, in the order of the page. *)
From S2P Require Import Prelude JsString Json ProtoText ProtoStr JsUri ProtoQuery.

Module Form.
Import Text Uri Query.

Record opt := Opt { o_value : option jstring; o_text : jstring; o_selected : bool }.
Record control := Control {
  c_tag : jstring; c_type : jstring; c_name : jstring;
  c_value : jstring; c_disabled : bool; c_checked : bool; c_options : list opt;
  c_tabIndex : option Z       (** the attribute [tabIndex], if it is there *)
}.

Definition set_value v (c : control) : control :=
  Control (c_tag c) (c_type c) (c_name c) v (c_disabled c) (c_checked c) (c_options c) (c_tabIndex c).
Definition set_disabled b (c : control) : control :=
  Control (c_tag c) (c_type c) (c_name c) (c_value c) b (c_checked c) (c_options c) (c_tabIndex c).
Definition set_checked b (c : control) : control :=
  Control (c_tag c) (c_type c) (c_name c) (c_value c) (c_disabled c) b (c_options c) (c_tabIndex c).
Definition set_options o (c : control) : control :=
  Control (c_tag c) (c_type c) (c_name c) (c_value c) (c_disabled c) (c_checked c) o (c_tabIndex c).

(** ** Values of controls *)

(** src/piql/scadr/src/main/rails/public/javascripts/prototype.js:3696-3699
    [optionValue(opt)] *)
Definition optionValue (o : opt) : jstring := default (o_text o) (o_value o).

(** [element.selectedIndex]: -1 when no option is selected. *)
Fixpoint index_of_selected (l : list opt) (i : Z) : Z :=
  match l with [] => -1 | o :: l => if o_selected o then i else index_of_selected l (i + 1) end.
Definition selectedIndex (c : control) : Z := index_of_selected (c_options c) 0.

(** src/piql/scadr/src/main/rails/public/javascripts/prototype.js:3680-3683
    [selectOne(element)] *)
Definition selectOne (c : control) : Json.jval :=
  let index := selectedIndex c in
  if 0 <=? index then
    match znth (c_options c) index with Some o => Json.VStr (optionValue o) | None => Json.VUndef end
  else Json.VNull.

(** src/piql/scadr/src/main/rails/public/javascripts/prototype.js:3685-3694
    [selectMany(element)] *)
Definition selectMany (c : control) : Json.jval :=
  match c_options c with
  | [] => Json.VNull
  | l => Json.VArr (map (fun o => Json.VStr (optionValue o)) (filter (fun o => o_selected o = true) l))
  end.

Definition box (c : control) : bool :=
  bool_decide (toLowerCase (c_type c) = js "checkbox") || bool_decide (toLowerCase (c_type c) = js "radio").

Inductive serializer := SInput | STextarea | SSelect.
Definition serializer_of (c : control) : option serializer :=
  let method := toLowerCase (c_tag c) in
  if bool_decide (method = js "input") then Some SInput
  else if bool_decide (method = js "textarea") then Some STextarea
  else if bool_decide (method = js "select") then Some SSelect
  else None.

(** src/piql/scadr/src/main/rails/public/javascripts/prototype.js:3586-3590
    [getValue(element)]: the serializers of lines 3639 to 3663 without a value;
    an element that is no control throws. *)
Definition getValue (c : control) : outcome Json.jval :=
  match serializer_of c with
  | Some SInput => mret (if box c then if c_checked c then Json.VStr (c_value c) else Json.VNull else Json.VStr (c_value c))
  | Some STextarea => mret (Json.VStr (c_value c))
  | Some SSelect => mret (if bool_decide (c_type c = js "select-one") then selectOne c else selectMany c)
  | None => Throws
  end.

(** A value that a control is given: a text, or a list of texts. *)
Inductive given := One (s : jstring) | Many (l : list jstring).
Definition given_text (v : given) : jstring := match v with One s => s | Many l => join [c_comma] l end.

Definition select_at (i : nat) (b : bool) (l : list opt) : list opt :=
  imap (fun j o => if decide (j = i) then Opt (o_value o) (o_text o) b else o) l.
Definition only_at (i : nat) (l : list opt) : list opt :=
  imap (fun j o => Opt (o_value o) (o_text o) (bool_decide (j = i))) l.

(** [opt.selected = b] for the option number [i]: a list of one choice has at most
    one option selected, and the first when its last choice is taken away. *)
Definition set_selected (one : bool) (i : nat) (b : bool) (l : list opt) : list opt :=
  if one then
    if b then only_at i l
    else let l := select_at i false l in
         if existsb o_selected l then l else select_at 0 true l
  else select_at i b l.

(** The loop of [select] with a value, from the option number [i] on. *)
Fixpoint select_loop (one : bool) (value : given) (n i : nat) (l : list opt) : list opt :=
  match n with
  | O => l
  | S n =>
      match l !! i with
      | None => l
      | Some o =>
          let currentValue := optionValue o in
          match value with
          | One v =>
              if bool_decide (currentValue = v) then set_selected one i true l
              else select_loop one value n (S i) l
          | Many vs => select_loop one value n (S i) (set_selected one i (bool_decide (currentValue ∈ vs)) l)
          end
      end
  end.

Definition truthy_given (v : given) : bool := match v with One [] => false | _ => true end.

(** src/piql/scadr/src/main/rails/public/javascripts/prototype.js:3639-3678
    [Form.Element.Serializers] with a value *)
Definition serialize_to (c : control) (value : given) : outcome control :=
  match serializer_of c with
  | Some SInput => mret (if box c then set_checked (truthy_given value) c else set_value (given_text value) c)
  | Some STextarea => mret (set_value (given_text value) c)
  | Some SSelect =>
      mret (set_options (select_loop (bool_decide (c_type c = js "select-one")) value
                           (length (c_options c)) 0 (c_options c)) c)
  | None => Throws
  end.

(** src/piql/scadr/src/main/rails/public/javascripts/prototype.js:3592-3597
    [setValue(element, value)] *)
Definition setValue (c : control) (value : given) : outcome control := serialize_to c value.

(** src/piql/scadr/src/main/rails/public/javascripts/prototype.js:3599-3602
    [clear(element)] *)
Definition clear (c : control) : control := set_value [] c.

(** src/piql/scadr/src/main/rails/public/javascripts/prototype.js:3604-3606
    [present(element)] *)
Definition present (c : control) : bool := negb (bool_decide (c_value c = [])).

(** src/piql/scadr/src/main/rails/public/javascripts/prototype.js:3619-3623
    [disable(element)] *)
Definition disable (c : control) : control := set_disabled true c.

(** src/piql/scadr/src/main/rails/public/javascripts/prototype.js:3625-3629
    [enable(element)] *)
Definition enable (c : control) : control := set_disabled false c.

(** src/piql/scadr/src/main/rails/public/javascripts/prototype.js:3573-3584
    [serialize(element)] *)
Definition serialize_element (c : control) : outcome jstring :=
  if negb (c_disabled c) && negb (bool_decide (c_name c = [])) then
    value ← getValue c;
    if nullish value then mret [] else toQueryString [(c_name c, value)]
  else mret [].

(** ** Forms *)

(** src/piql/scadr/src/main/rails/public/javascripts/prototype.js:3482-3490
    [getElements(form)] *)
Definition getElements (form : list control) : list control := filter (fun c => is_some (serializer_of c) = true) form.

(** src/piql/scadr/src/main/rails/public/javascripts/prototype.js:3492-3506
    [getInputs(form, typeName, name)] *)
Definition getInputs (form : list control) (typeName name : option jstring) : list control :=
  let given (o : option jstring) := match o with Some ((_ :: _) as s) => Some s | _ => None end in
  filter (fun c => bool_decide (toLowerCase (c_tag c) = js "input")
      && match given typeName with Some t => bool_decide (c_type c = t) | None => true end
      && match given name with Some n => bool_decide (c_name c = n) | None => true end = true) form.

(** src/piql/scadr/src/main/rails/public/javascripts/prototype.js:3508-3512
    [disable(form)] *)
Definition disable_form (form : list control) : list control :=
  map (fun c => if is_some (serializer_of c) then disable c else c) form.

(** src/piql/scadr/src/main/rails/public/javascripts/prototype.js:3514-3518
    [enable(form)] *)
Definition enable_form (form : list control) : list control :=
  map (fun c => if is_some (serializer_of c) then enable c else c) form.

(** The first of the elements with the least index. *)
Fixpoint least (l : list (control * Z)) : option (control * Z) :=
  match l with
  | [] => None
  | (c, i) :: l =>
      match least l with
      | Some (c', i') => if i' <? i then Some (c', i') else Some (c, i)
      | None => Some (c, i)
      end
  end.

(** src/piql/scadr/src/main/rails/public/javascripts/prototype.js:3520-3531
    [findFirstElement(form)], with a sort that keeps the order of equals *)
Definition findFirstElement (form : list control) : option control :=
  let elements := filter (fun c => negb (bool_decide (c_type c = js "hidden")) && negb (c_disabled c) = true) (getElements form) in
  let indexed := omap (fun c => match c_tabIndex c with Some i => if 0 <=? i then Some (c, i) else None | None => None end) elements in
  match least indexed with
  | Some (c, _) => Some c
  | None => head elements
  end.

(** The option [submit]: the button to send, none, or any. *)
Inductive submit := AnyButton | NoButton | Button (name : jstring).
Inductive options := Flag (hash : bool) | Opts (hash : option bool) (s : submit).

Section serialize.
Variable builtin : jstring -> jstring.

(** Whether a control is sent, when [submitted] says that a button was. *)
Definition wanted (s : submit) (submitted : bool) (c : control) (key : jstring) : bool :=
  negb submitted && match s with
                    | NoButton => false
                    | AnyButton | Button [] => true
                    | Button b => bool_decide (key = b)
                    end.

(** The loop of [serializeElements]: the values so far, and whether a button was
    sent. *)
Fixpoint serialize_loop (s : submit) (elements : list control) (result : object) (submitted : bool) : outcome object :=
  match elements with
  | [] => mret result
  | c :: elements =>
      if negb (c_disabled c) && negb (bool_decide (c_name c = [])) then
        value ← getValue c;
        if nullish value || bool_decide (c_type c = js "file") then serialize_loop s elements result submitted
        else if negb (bool_decide (c_type c = js "submit")) then
          serialize_loop s elements (push_value builtin result (c_name c) value) submitted
        else if wanted s submitted c (c_name c) then
          serialize_loop s elements (push_value builtin result (c_name c) value) true
        else serialize_loop s elements result submitted
      else serialize_loop s elements result submitted
  end.

(** src/piql/scadr/src/main/rails/public/javascripts/prototype.js:3452-3474
    [serializeElements(elements, options)]: the object, or the query string. *)
Definition serializeElements (elements : list control) (o : options) : outcome (object + jstring) :=
  let '(hash, s) := match o with Flag h => (h, AnyButton) | Opts h s => (default true h, s) end in
  data ← serialize_loop s elements [] false;
  if (hash : bool) then mret (inl data) else q ← toQueryString data; mret (inr q).

(** src/piql/scadr/src/main/rails/public/javascripts/prototype.js:3478-3480
    [serialize(form, options)] *)
Definition serialize (form : list control) (o : options) : outcome (object + jstring) :=
  serializeElements (getElements form) o.

(** The parameters that [request] is given: none, a query string, or an object. *)
Inductive more := NoMore | MoreText (q : jstring) | MoreObject (o : object).
Record request_of := Request { r_action : jstring; r_method : option jstring; r_parameters : object }.

(** src/piql/scadr/src/main/rails/public/javascripts/prototype.js:3539-3555
    [request(form, options)]: the address, the method and the parameters of the
    request that is made; [method_of] is [form.method]. *)
Definition request (form : list control) (action method_attr : option jstring) (method_of location : jstring)
    (params : more) (o_method : option jstring) : outcome request_of :=
  let action := default [] action in
  let action := if Str.blank action then location else action in
  data ← serialize_loop AnyButton (getElements form) [] false;
  extra ← match params with
          | NoMore | MoreText [] => mret []
          | MoreText q => toQueryParams builtin None q
          | MoreObject o => mret o
          end;
  let parameters := fold_left (fun o p => set_own p.1 p.2 o) extra data in
  let m := match o_method with Some ((_ :: _) as m) => Some m | _ => if is_some method_attr then Some method_of else o_method end in
  mret (Request action m parameters).
End serialize.

(** ** Observers *)

(** [a != b] for what [getValue] of a control gives; two arrays are never the same
    object. *)
Definition differs (a b : Json.jval) : bool :=
  match a, b with
  | Json.VStr s, Json.VStr t => negb (bool_decide (s = t))
  | Json.VNull, Json.VNull | Json.VUndef, Json.VUndef | Json.VNull, Json.VUndef | Json.VUndef, Json.VNull => false
  | _, _ => true
  end.

(** The comparison of line 3717. *)
Definition differs_as_text (a b : Json.jval) : bool :=
  match a, b with
  | Json.VStr s, Json.VStr t => negb (bool_decide (s = t))
  | _, _ => negb (bool_decide (to_string a = to_string b))
  end.

(** The [lastValue] of an observer, and the values that it called back with. *)
Record observer := Observer { lastValue : Json.jval; called : list Json.jval }.

(** src/piql/scadr/src/main/rails/public/javascripts/prototype.js:3711-3718
    [execute()] of [Abstract.TimedObserver], for the value that is found *)
Definition execute (value : Json.jval) (o : observer) : observer :=
  if differs_as_text (lastValue o) value then Observer value (called o ++ [value]) else o.

(** src/piql/scadr/src/main/rails/public/javascripts/prototype.js:3747-3753
    [onElementEvent()] of [Abstract.EventObserver], for the value that is found *)
Definition onElementEvent (value : Json.jval) (o : observer) : observer :=
  if differs (lastValue o) value then Observer value (called o ++ [value]) else o.

(** src/piql/scadr/src/main/rails/public/javascripts/prototype.js:3759-3771
    [registerCallback(element)]: the event that is observed. *)
Definition observed_event (c : control) : option jstring :=
  match c_type c with
  | [] => None
  | _ => Some (if box c then js "click" else js "change")
  end.

(** src/piql/scadr/src/main/rails/public/javascripts/prototype.js:3755-3757
    [registerFormCallbacks()] *)
Definition registerFormCallbacks (form : list control) : list (control * jstring) :=
  omap (fun c => pair c <$> observed_event c) (getElements form).

(** ** What a form sends *)

Definition value_of (c : control) : Json.jval :=
  match serializer_of c with
  | Some SInput => if box c then if c_checked c then Json.VStr (c_value c) else Json.VNull else Json.VStr (c_value c)
  | Some STextarea => Json.VStr (c_value c)
  | _ => if bool_decide (c_type c = js "select-one") then selectOne c else selectMany c
  end.

Lemma getValue_of c : is_some (serializer_of c) = true -> getValue c = Returns (value_of c).
Proof. unfold getValue, value_of. by destruct (serializer_of c) as [[]|]. Qed.

(** The controls that are sent: not disabled, with a name and a value, no files;
    of the buttons the first that is asked for. *)
Definition sendable (c : control) : bool :=
  negb (c_disabled c) && negb (bool_decide (c_name c = [])) && negb (nullish (value_of c))
  && negb (bool_decide (c_type c = js "file")).
Definition is_button (c : control) : bool := bool_decide (c_type c = js "submit").

Fixpoint successful (s : submit) (submitted : bool) (l : list control) : list control :=
  match l with
  | [] => []
  | c :: l =>
      if sendable c && (negb (is_button c) || wanted s submitted c (c_name c))
      then c :: successful s (submitted || is_button c) l else successful s submitted l
  end.

Definition pair_of_control (c : control) : jstring * Json.jval := (c_name c, value_of c).
Definition gathered builtin (l : list (jstring * Json.jval)) (o : object) : object :=
  fold_left (fun o p => push_value builtin o p.1 p.2) l o.

Lemma serialize_gathers builtin s l : Forall (fun c => is_some (serializer_of c) = true) l -> forall o submitted,
  serialize_loop builtin s l o submitted = Returns (gathered builtin (map pair_of_control (successful s submitted l)) o).
Proof.
  induction 1 as [|c l Hc Hl IH]; intros o submitted; [done|]. cbn [serialize_loop successful]. unfold sendable at 1.
  destruct (c_disabled c); [apply IH|]. destruct (bool_decide (c_name c = [])); [apply IH|]. cbn [negb andb].
  rewrite (getValue_of c Hc). cbn [mbind outcome_bind].
  destruct (nullish (value_of c)); [apply IH|]. destruct (bool_decide (c_type c = js "file")); [apply IH|].
  cbn [negb andb orb]. unfold is_button. destruct (bool_decide (c_type c = js "submit")); cbn [negb orb].
  - destruct (wanted s submitted c (c_name c)); [|apply IH]. rewrite orb_true_r. apply IH.
  - rewrite orb_false_r. apply IH.
Qed.

Lemma elements_serialized form : Forall (fun c => is_some (serializer_of c) = true) (getElements form).
Proof. apply Forall_forall. intros c. unfold getElements. by intros [? _]%list_elem_of_filter. Qed.

(** At most one button is sent: none if there is to be none, and one of the name
    that is asked for. *)
Theorem one_button builtin form s :
  exists l, serialize builtin form (Opts None s) = Returns (inl (gathered builtin (map pair_of_control l) [])) /\
    l `sublist_of` form /\ Forall (fun c => sendable c = true) l /\
    (length (filter (fun c => is_button c = true) l) <= 1)%nat /\
    forall c, c ∈ l -> is_button c = true ->
      match s with NoButton => False | Button ((_ :: _) as b) => c_name c = b | _ => True end.
Proof.
  exists (successful s false (getElements form)). split.
  { unfold serialize, serializeElements. by rewrite serialize_gathers by apply elements_serialized. }
  assert (forall l submitted, successful s submitted l `sublist_of` l /\
      Forall (fun c => sendable c = true) (successful s submitted l) /\
      (length (filter (fun c => is_button c = true) (successful s submitted l)) <= if submitted then 0 else 1)%nat /\
      forall c, c ∈ successful s submitted l -> is_button c = true ->
        match s with NoButton => False | Button ((_ :: _) as b) => c_name c = b | _ => True end) as H.
  { induction l as [|c l IH]; intros submitted.
    { split; [constructor|]. split; [constructor|]. split; [simpl; lia|]. by intros c ?%elem_of_nil. }
    cbn [successful]. destruct (sendable c) eqn:Hs; [|destruct (IH submitted) as (H1 & H2); split; [by constructor|done]].
    destruct (is_button c) eqn:Hb; cbn [negb orb andb].
    - destruct (wanted s submitted c (c_name c)) eqn:Hw.
      + unfold wanted in Hw. destruct submitted; [done|]. cbn [negb andb orb] in Hw |- *.
        destruct (IH true) as (H1 & H2 & H3 & H4). split; [by constructor|]. split; [by constructor|].
        split; [rewrite filter_cons, decide_True by done; simpl; lia|].
        intros d [->|Hd]%elem_of_cons Hdb; [|by apply H4]. destruct s as [| |[|x b]]; try done. by apply bool_decide_eq_true in Hw.
      + destruct (IH submitted) as (H1 & H2). split; [by constructor|done].
    - rewrite orb_false_r. destruct (IH submitted) as (H1 & H2 & H3 & H4). split; [by constructor|]. split; [by constructor|].
      split; [rewrite filter_cons, decide_False by congruence; done|].
      intros d [->|Hd]%elem_of_cons Hdb; [congruence|by apply H4]. }
  destruct (H (getElements form) false) as (H1 & H2 & H3 & H4). split; [|done].
  etransitivity; [exact H1|]. unfold getElements. clear. induction form as [|c l IH]; [constructor|].
  rewrite filter_cons. case_decide; by constructor.
Qed.

(** All texts that are sent under a name. *)
Definition sent_texts (k : jstring) (l : list (jstring * Json.jval)) : list (option jstring) :=
  concat (map (fun p => if bool_decide (p.1 = k) then texts p.2 else []) l).

(** A list of values is the first value under its name. *)
Fixpoint unmixed (l : list (jstring * Json.jval)) (seen : list jstring) : Prop :=
  match l with
  | [] => True
  | (k, v) :: l => match v with Json.VArr _ => k ∉ seen | Json.VStr _ => True | _ => False end /\ unmixed l (k :: seen)
  end.

#[global] Instance unmixed_dec l : forall seen, Decision (unmixed l seen).
Proof.
  induction l as [|[k v] l IH]; intros seen; simpl; [apply _|].
  apply and_dec; [destruct v; apply _|apply IH].
Defined.
#[global] Instance text_ok_dec t : Decision (text_ok t).
Proof. destruct t; simpl; apply _. Defined.

(** The object holds, under each name, the values so far. *)
Definition holds (o : object) (l : list (jstring * Json.jval)) : Prop :=
  NoDup (map fst o) /\ (forall k, k ∈ map fst o <-> k ∈ map fst l) /\
  forall k v, assoc k o = Some v -> texts v = sent_texts k l /\
    match v with Json.VStr _ | Json.VArr _ => True | _ => False end.

Lemma result_set k k' v (o : object) : assoc k' (set_own k v o) = if bool_decide (k' = k) then Some v else assoc k' o.
Proof.
  induction o as [|[k1 v1] o IH]; cbn [set_own assoc].
  - by case_bool_decide.
  - destruct (bool_decide (k = k1)) eqn:E; cbn [assoc].
    + apply bool_decide_eq_true in E as ->. by destruct (bool_decide (k' = k1)).
    + rewrite IH. destruct (decide (k' = k1)) as [->|Hn].
      * rewrite (bool_decide_eq_true_2 (k1 = k1)) by done. by rewrite bool_decide_eq_false_2 by (intros <-; by rewrite bool_decide_eq_true_2 in E).
      * by rewrite (bool_decide_eq_false_2 (k' = k1)).
Qed.

Lemma keys_set k v (o : object) : forall k', k' ∈ map fst (set_own k v o) <-> k' = k \/ k' ∈ map fst o.
Proof.
  intros k'. induction o as [|[k1 v1] o IH]; cbn [set_own map fst].
  - rewrite list_elem_of_singleton. split; [by left|]. intros [?|?%elem_of_nil]; done.
  - destruct (bool_decide (k = k1)) eqn:E; cbn [map fst]; rewrite !elem_of_cons.
    + apply bool_decide_eq_true in E as ->. tauto.
    + rewrite IH. tauto.
Qed.

Lemma NoDup_set k v (o : object) : NoDup (map fst o) -> NoDup (map fst (set_own k v o)).
Proof.
  induction o as [|[k1 v1] o IH]; cbn [set_own map fst]; [intros _; by repeat constructor; intros ?%elem_of_nil|].
  intros [Hk Ho]%NoDup_cons. destruct (bool_decide (k = k1)) eqn:E; cbn [map fst].
  - apply bool_decide_eq_true in E as ->. by constructor.
  - constructor; [|by apply IH]. rewrite keys_set. intros [->|?]; [|done]. by rewrite bool_decide_eq_true_2 in E.
Qed.

Lemma assoc_in k (o : object) : is_Some (assoc k o) <-> k ∈ map fst o.
Proof.
  induction o as [|[k1 v1] o IH]; cbn [assoc map fst]; [split; [by intros []|by intros ?%elem_of_nil]|].
  rewrite elem_of_cons, <- IH. case_bool_decide; [split; [by left|by eexists]|]. split; [by right|by intros [?|?]].
Qed.

Lemma sent_app k a b : sent_texts k (a ++ b) = sent_texts k a ++ sent_texts k b.
Proof. unfold sent_texts. by rewrite map_app, concat_app. Qed.
Lemma sent_one k p : sent_texts k [p] = if bool_decide (p.1 = k) then texts p.2 else [].
Proof. unfold sent_texts. simpl. by rewrite app_nil_r. Qed.

Lemma push_holds builtin o l k v :
  holds o l -> k ∉ proto_keys -> match v with Json.VArr _ => k ∉ map fst l | Json.VStr _ => True | _ => False end ->
  holds (push_value builtin o k v) (l ++ [(k, v)]).
Proof.
  intros (Hnd & Hk & Ho) Hp Hv.
  assert (forall w, texts w = sent_texts k (l ++ [(k, v)]) -> match w with Json.VStr _ | Json.VArr _ => True | _ => False end ->
    holds (set_own k w o) (l ++ [(k, v)])) as Hset.
  { intros w Hw Hwk. split; [by apply NoDup_set|]. split.
    - intros k'. rewrite keys_set, Hk, map_app, elem_of_app. simpl. rewrite list_elem_of_singleton. tauto.
    - intros k' v'. rewrite result_set. case_bool_decide as E; [subst; by intros [= <-]|]. intros H. apply Ho in H as [H1 H2].
      split; [|done]. rewrite sent_app, sent_one. simpl. by rewrite bool_decide_eq_false_2, app_nil_r by done. }
  assert (sent_texts k (l ++ [(k, v)]) = sent_texts k l ++ texts v) as Hst.
  { rewrite sent_app, sent_one. simpl. by rewrite bool_decide_eq_true_2. }
  unfold push_value, get_any, inherited. rewrite (bool_decide_eq_false_2 (k ∈ proto_keys)) by done.
  destruct (assoc k o) as [w|] eqn:Ha.
  - apply Ho in Ha as Hw. destruct Hw as [Hw Hwk].
    assert (k ∈ map fst l) as Hkl by (apply Hk, assoc_in; by rewrite Ha).
    destruct v; try done. destruct w; try done; apply Hset; rewrite ?Hst, <- ?Hw; try done.
    simpl. by rewrite map_app.
  - apply Hset; [|by destruct v]. rewrite Hst. assert (sent_texts k l = []) as ->; [|done].
    assert (k ∉ map fst l) as Hn. { rewrite <- Hk, <- assoc_in, Ha. by intros []. }
    clear -Hn. unfold sent_texts. induction l as [|[k1 v1] l IH]; [done|]. cbn [map fst concat] in *.
    apply not_elem_of_cons in Hn as [H1 H2]. rewrite bool_decide_eq_false_2 by done. by apply IH.
Qed.

Lemma gathered_holds builtin l : forall o seen, holds o seen -> Forall (fun p => p.1 ∉ proto_keys) l ->
  unmixed l (map fst seen) -> holds (gathered builtin l o) (seen ++ l).
Proof.
  induction l as [|[k v] l IH]; intros o seen Ho Hp Hu; [by rewrite app_nil_r|]. unfold gathered. cbn [fold_left fst snd].
  apply Forall_cons in Hp as [Hk Hp]. destruct Hu as [Hv Hu]. rewrite cons_middle, app_assoc. apply IH; [|done|].
  - by apply push_holds.
  - assert (forall l a b, (forall x : jstring, x ∈ a <-> x ∈ b) -> unmixed l a -> unmixed l b) as Hext.
    { clear. induction l as [|[k v] l IH]; intros a b Hab; [done|]. simpl. intros [H1 H2]. split.
      - destruct v; try done. by rewrite <- Hab.
      - eapply IH; [|exact H2]. intros x. by rewrite !elem_of_cons, Hab. }
    eapply Hext; [|exact Hu]. intros x. rewrite map_app, elem_of_app, elem_of_cons. simpl. rewrite list_elem_of_singleton. tauto.
Qed.

(** What is read back under a name. *)
Definition read_back (ts : list (option jstring)) : option Json.jval :=
  match ts with
  | [] => None
  | [t] => Some (val_of t)
  | ts => Some (Json.VArr (map val_of ts))
  end.

Lemma assoc_received k (o : object) : NoDup (map fst o) ->
  assoc k (concat (map received o)) = match assoc k o with Some v => read_back (texts v) | None => None end.
Proof.
  assert (forall k1 v1 r, assoc k (received (k1, v1) ++ r) =
     if bool_decide (k = k1) then match read_back (texts v1) with Some v => Some v | None => assoc k r end else assoc k r) as H1.
  { intros k1 v1 r. unfold received. cbn [fst snd]. destruct (texts v1) as [|t [|u ts]]; cbn [app assoc read_back]; by destruct (bool_decide (k = k1)). }
  induction o as [|[k1 v1] o IH]; [done|]. cbn [map fst concat assoc]. intros [Hk Hnd]%NoDup_cons.
  rewrite H1, IH by done. case_bool_decide; [|done]. subst. destruct (read_back (texts v1)); [done|].
  destruct (assoc k1 o) eqn:E; [|done]. destruct Hk. apply assoc_in. by rewrite E.
Qed.

(** C27: For a form whose names are not members of [Object.prototype], whose texts
    can be encoded, and where no list of choices stands behind an earlier value of
    its name: reading its query string gives, for every name, the values of the
    successful controls of that name in the order of the page, a text if there is
    one and an array if there are several. *)
Theorem form_roundtrip builtin form s q :
  let l := map pair_of_control (successful s false (getElements form)) in
  Forall (fun p => p.1 ∉ proto_keys /\ Forall unit16 p.1 /\ Forall text_ok (texts p.2)) l -> unmixed l [] ->
  serialize builtin form (Opts (Some false) s) = Returns (inr q) ->
  exists o, toQueryParams builtin None q = Returns o /\
    forall k, assoc k o = read_back (sent_texts k l).
Proof.
  intros l Hok Hu Hq. unfold serialize, serializeElements in Hq.
  rewrite serialize_gathers in Hq by apply elements_serialized. cbn [mbind outcome_bind default] in Hq. fold l in Hq.
  assert (holds [] []) as H0. { split; [constructor|]. split; [done|]. done. }
  assert (Forall (fun p => p.1 ∉ proto_keys) l) as Hpk by (eapply Forall_impl; [exact Hok|]; intros p Hpp; apply Hpp).
  destruct (gathered_holds builtin l [] [] H0 Hpk Hu) as (Hnd & Hkeys & Ho).
  set (o := gathered builtin l []) in *. destruct (toQueryString o) as [q'| |] eqn:Eq; try done. injection Hq as ->.
  exists (concat (map received o)). split.
  - apply query_read; [exact Hnd| |exact Eq]. apply Forall_forall. intros [k v] Hin.
    assert (assoc k o = Some v) as Ha.
    { clear -Hin Hnd. induction o as [|[k1 v1] o IH]; [by apply elem_of_nil in Hin|]. cbn [assoc map fst] in *.
      apply NoDup_cons in Hnd as [Hk Hnd]. apply elem_of_cons in Hin as [[= <- <-]|Hin]; [by rewrite bool_decide_eq_true_2|].
      rewrite bool_decide_eq_false_2; [by apply IH|]. intros <-. apply Hk. apply list_elem_of_fmap. by exists (k, v). }
    destruct (Ho k v Ha) as [Ht _]. assert (k ∈ map fst l) as Hkl by (apply Hkeys, assoc_in; by rewrite Ha).
    apply list_elem_of_fmap in Hkl as ([k' v'] & -> & Hl). rewrite Forall_forall in Hok.
    destruct (Hok _ Hl) as (H1 & H2 & _). cbn [fst snd] in *. split; [|split; [done|split; [done|]]].
    + cbn [fst]. apply list_elem_of_fmap in Hl as (c & [= -> ->] & Hc).
      clear -Hc. revert Hc. generalize (getElements form), false. intros l. induction l as [|d l IH]; intros b; [by intros ?%elem_of_nil|].
      cbn [successful]. destruct (sendable d) eqn:Hs; [|apply IH]. destruct (negb _ || _); [|apply IH].
      cbn [andb]. intros [->|Hc]%elem_of_cons; [|by eapply IH]. unfold sendable in Hs.
      intros E. rewrite (bool_decide_eq_true_2 (c_name d = [])) in Hs by done. by destruct (c_disabled d).
    + cbn [snd]. rewrite Ht. apply Forall_forall. intros t Ht'. apply elem_of_concat_map in Ht' as (p & Hp & Htp).
      case_bool_decide; [|by apply elem_of_nil in Htp]. destruct (Hok _ Hp) as (_ & _ & H3). rewrite Forall_forall in H3. by apply H3.
  - intros k. rewrite assoc_received by done. destruct (assoc k o) as [v|] eqn:Ha.
    + by destruct (Ho k v Ha) as [-> _].
    + assert (k ∉ map fst l) as Hn. { rewrite <- (app_nil_l l), <- Hkeys, <- assoc_in, Ha. by intros []. }
      assert (sent_texts k l = []) as ->; [|done]. clear -Hn. revert Hn. generalize l. clear l. unfold sent_texts.
      induction l as [|[k1 v1] l IH]; [done|]. cbn [map fst concat] in *. intros [H1 H2]%not_elem_of_cons.
      rewrite bool_decide_eq_false_2 by done. by apply IH.
Qed.
End Form.
