(* ===== verification/ProtoFormUse.v ===== *)
(** * Forms in use

    Giving a control a value and asking for it again, and a form on which the
    serialization and the observers are tried. *)
From S2P Require Import Prelude JsString Json ProtoText ProtoStr JsUri ProtoQuery ProtoForm.

Module FormUse.
Import Text Uri Query Form.

(** ** Values that are given *)

(** From the option number [i] on the values in the list are selected. *)
Lemma select_many vs n : forall i l, length l = (i + n)%nat ->
  select_loop false (Many vs) n i l
  = take i l ++ map (fun o => Opt (o_value o) (o_text o) (bool_decide (optionValue o ∈ vs))) (drop i l).
Proof.
  induction n as [|n IH]; intros i l Hl; cbn [select_loop].
  { rewrite drop_ge by lia. rewrite take_ge by lia. by rewrite app_nil_r. }
  destruct (lookup_lt_is_Some_2 l i ltac:(lia)) as [o Ho]. rewrite Ho. unfold set_selected.
  assert (select_at i (bool_decide (optionValue o ∈ vs)) l
    = <[i := Opt (o_value o) (o_text o) (bool_decide (optionValue o ∈ vs))]> l) as Hs.
  { unfold select_at. apply list_eq. intros j. rewrite list_lookup_imap. destruct (decide (j = i)) as [->|Hj].
    - rewrite Ho, list_lookup_insert_eq by lia. done.
    - rewrite list_lookup_insert_ne by done. by destruct (l !! j). }
  rewrite Hs, IH by (rewrite length_insert; lia).
  rewrite take_S_r with (x := Opt (o_value o) (o_text o) (bool_decide (optionValue o ∈ vs)))
    by (by rewrite list_lookup_insert_eq by lia).
  rewrite take_insert_ge by lia. rewrite drop_insert_lt by lia. rewrite <- app_assoc. f_equal.
  assert (drop i l = o :: drop (S i) l) as -> by (by apply drop_S). done.
Qed.

(** Of a list of one choice the first option with the value is selected. *)
Lemma select_one v n : forall i l j o, length l = (i + n)%nat -> (i <= j)%nat -> l !! j = Some o -> optionValue o = v ->
  (forall k p, (i <= k < j)%nat -> l !! k = Some p -> optionValue p <> v) ->
  select_loop true (One v) n i l = only_at j l.
Proof.
  induction n as [|n IH]; intros i l j o Hl Hij Hj Hv Hf; cbn [select_loop].
  { apply lookup_lt_Some in Hj. lia. }
  destruct (decide (i = j)) as [->|Hne].
  - rewrite Hj, bool_decide_eq_true_2 by done. done.
  - destruct (lookup_lt_is_Some_2 l i) as [p Hp]; [apply lookup_lt_Some in Hj; lia|]. rewrite Hp.
    rewrite bool_decide_eq_false_2 by (eapply Hf; [|done]; lia).
    eapply IH; [lia|lia|done|done|]. intros k q Hk. apply Hf. lia.
Qed.

Lemma selected_only l : forall j i o, l !! j = Some o ->
  index_of_selected (imap (fun k o => Opt (o_value o) (o_text o) (bool_decide (k = j))) l) i = i + Z.of_nat j.
Proof.
  induction l as [|p l IH]; intros j i o Hj; [done|]. cbn [imap index_of_selected o_selected].
  destruct j as [|j].
  - rewrite bool_decide_eq_true_2 by done. lia.
  - rewrite bool_decide_eq_false_2 by done.
    assert (imap ((fun k o0 => Opt (o_value o0) (o_text o0) (bool_decide (k = S j))) ∘ S) l
      = imap (fun k o0 => Opt (o_value o0) (o_text o0) (bool_decide (k = j))) l) as ->.
    { apply imap_ext. intros k q _. simpl. f_equal. apply bool_decide_ext. lia. }
    rewrite (IH j (i + 1) o Hj). lia.
Qed.

(** The first option with a value. *)
Lemma first_option v l : existsb (fun o => bool_decide (optionValue o = v)) l = true ->
  exists j o, l !! j = Some o /\ optionValue o = v /\ forall k p, (k < j)%nat -> l !! k = Some p -> optionValue p <> v.
Proof.
  induction l as [|o l IH]; [done|]. cbn [existsb]. destruct (bool_decide (optionValue o = v)) eqn:E.
  - intros _. apply bool_decide_eq_true in E. exists 0%nat, o. split; [done|]. split; [done|]. intros; lia.
  - intros H. destruct (IH H) as (j & p & Hj & Hp & Hf). exists (S j), p. split; [done|]. split; [done|].
    apply bool_decide_eq_false in E. intros [|k] q Hk; [by intros [= ->]|]. simpl. apply Hf. lia.
Qed.

Lemma many_values (vs : list jstring) (l : list opt) :
  map (fun o => Json.VStr (optionValue o)) (filter (fun o => o_selected o = true)
    (map (fun o => Opt (o_value o) (o_text o) (bool_decide (optionValue o ∈ vs))) l))
  = map Json.VStr (filter (fun t => t ∈ vs) (map optionValue l)).
Proof.
  induction l as [|p l IH]; [done|]. cbn [map]. rewrite !filter_cons. cbn [o_selected].
  destruct (decide (optionValue p ∈ vs)) as [Hin|Hin].
  - rewrite decide_True by (by apply bool_decide_eq_true). cbn [map]. by rewrite IH.
  - rewrite decide_False; [exact IH|]. by rewrite bool_decide_eq_true.
Qed.

(** What a control answers after it was given a value. *)
Definition answers (c : control) (v : given) : option Json.jval :=
  match serializer_of c, v with
  | Some SInput, _ => Some (if box c then if truthy_given v then Json.VStr (c_value c) else Json.VNull
                            else Json.VStr (given_text v))
  | Some STextarea, _ => Some (Json.VStr (given_text v))
  | Some SSelect, One s =>
      if bool_decide (c_type c = js "select-one") && existsb (fun o => bool_decide (optionValue o = s)) (c_options c)
      then Some (Json.VStr s) else None
  | Some SSelect, Many vs =>
      if bool_decide (c_type c = js "select-one") || bool_decide (c_options c = []) then None
      else Some (Json.VArr (map Json.VStr (filter (fun t => t ∈ vs) (map optionValue (c_options c)))))
  | None, _ => None
  end.

(** A control that is given a value has it: a field its text, a box whether it is
    checked, a list of one choice the option with the value, a list of many
    choices those of its options that are in the list. *)
Theorem set_then_get c v a : answers c v = Some a ->
  exists c', setValue c v = Returns c' /\ getValue c' = Returns a.
Proof.
  unfold answers, setValue, serialize_to, getValue.
  destruct (serializer_of c) as [[]|] eqn:Hs; [| | |done].
  - intros [= <-]. eexists. split; [done|]. destruct (box c) eqn:Hb.
    + change (serializer_of (set_checked (truthy_given v) c)) with (serializer_of c). rewrite Hs.
      change (box (set_checked (truthy_given v) c)) with (box c). by rewrite Hb.
    + change (serializer_of (set_value (given_text v) c)) with (serializer_of c). rewrite Hs.
      change (box (set_value (given_text v) c)) with (box c). by rewrite Hb.
  - intros [= <-]. eexists. split; [done|].
    change (serializer_of (set_value (given_text v) c)) with (serializer_of c). by rewrite Hs.
  - intros Ha. eexists. split; [done|].
    match goal with |- context [serializer_of (set_options ?l c)] => change (serializer_of (set_options l c)) with (serializer_of c);
      change (c_type (set_options l c)) with (c_type c) end. rewrite Hs.
    destruct v as [s|vs].
    + destruct (bool_decide (c_type c = js "select-one")); [|done]. cbn [andb] in Ha.
      destruct (existsb _ _) eqn:He in Ha; [|done]. injection Ha as <-.
      destruct (first_option s _ He) as (j & o & Hj & Hv & Hf).
      unfold selectOne, selectedIndex. cbn [set_options c_options].
      rewrite (select_one s _ 0 (c_options c) j o) by (done || lia || (intros k p Hk; apply Hf; lia)).
      unfold only_at. rewrite (selected_only _ j 0 o Hj). rewrite Z.add_0_l.
      destruct (Z.leb_spec 0 (Z.of_nat j)); [|lia]. unfold znth. rewrite decide_False by lia.
      rewrite Nat2Z.id, list_lookup_imap, Hj. simpl. unfold optionValue in *. simpl. by rewrite Hv.
    + destruct (bool_decide (c_type c = js "select-one")); [done|]. cbn [orb] in Ha.
      destruct (c_options c) as [|o l] eqn:Ho; [done|]. rewrite bool_decide_eq_false_2 in Ha by done. injection Ha as <-.
      unfold selectMany. cbn [set_options c_options]. rewrite select_many by done. rewrite drop_0. cbn [take app].
      change (optionValue o :: map optionValue l) with (map optionValue (o :: l)). by rewrite <- many_values.
Qed.

(** ** A form *)
Definition field (tag type name value : string) (checked : bool) (opts : list opt) : control :=
  Control (js tag) (js type) (js name) (js value) false checked opts None.
Definition opt_of (v : string) (sel : bool) : opt := Opt None (js v) sel.

Definition login : list control := [
  field "INPUT" "text" "user" "ann lee" false [];
  field "DIV" "" "" "" false [];
  field "INPUT" "checkbox" "keep" "yes" true [];
  field "INPUT" "checkbox" "mail" "on" false [];
  field "SELECT" "select-multiple" "tag" "" false [opt_of "x" true; opt_of "y" false; opt_of "z" true];
  field "INPUT" "text" "tag" "extra" false [];
  field "INPUT" "submit" "go" "Login" false [];
  field "INPUT" "submit" "cancel" "Cancel" false []].

Definition login_sent : jstring := js "user=ann%20lee&keep=yes&tag=x&tag=z&tag=extra&go=Login".

Lemma form_roundtrip_witness :
  serialize (fun _ => []) login (Opts (Some false) AnyButton) = Returns (inr login_sent) /\
  exists o, toQueryParams (fun _ => []) None login_sent = Returns o /\
    assoc (js "tag") o = Some (Json.VArr (map (fun s => Json.VStr (js s)) ["x"; "z"; "extra"]%string)).
Proof.
  assert (serialize (fun _ => []) login (Opts (Some false) AnyButton) = Returns (inr login_sent)) as Hs by (by vm_compute).
  split; [exact Hs|].
  destruct (form_roundtrip (fun _ => []) login AnyButton login_sent) as (o & H1 & H2); [..|exact Hs|].
  - apply (bool_decide_unpack _). vm_compute. exact I.
  - apply (bool_decide_unpack _). vm_compute. exact I.
  - exists o. split; [exact H1|]. rewrite H2. vm_compute. reflexivity.
Defined.

Lemma set_then_get_witness :
  exists c', setValue (field "SELECT" "select-one" "s" "" false [opt_of "x" true; opt_of "y" false]) (One (js "y")) = Returns c' /\
    getValue c' = Returns (Json.VStr (js "y")).
Proof. apply set_then_get. vm_compute. reflexivity. Defined.

(** A list of several values behind a field of the same name is put into the array
    as one element, and sent as one text. *)
Lemma list_behind_field :
  serialize (fun _ => [])
    [field "INPUT" "text" "tag" "extra" false [];
     field "SELECT" "select-multiple" "tag" "" false [opt_of "x" true; opt_of "z" true]] (Opts (Some false) AnyButton)
  = Returns (inr (js "tag=extra&tag=x%2Cz")).
Proof. by vm_compute. Qed.

(** A text that is given to a list of several choices is selected besides those
    that are. *)
Lemma text_to_many_choices :
  exists c', setValue (field "SELECT" "select-multiple" "s" "" false [opt_of "x" true; opt_of "y" false]) (One (js "y")) = Returns c' /\
    getValue c' = Returns (Json.VArr [Json.VStr (js "x"); Json.VStr (js "y")]).
Proof. eexists. split; [reflexivity|]. by vm_compute. Qed.

(** An observer by events calls back for a list of several choices although the
    choices are the same, one by time does not. *)
Lemma same_choices_observed :
  let v := Json.VArr [Json.VStr (js "x")] in
  called (onElementEvent v (Observer v [])) = [v] /\ called (execute v (Observer v [])) = [].
Proof. by vm_compute. Qed.

(** Different choices with the same text are the same for an observer by time. *)
Lemma different_choices_missed :
  called (execute (Json.VArr [Json.VStr (js "a,b")]) (Observer (Json.VArr [Json.VStr (js "a"); Json.VStr (js "b")]) [])) = [].
Proof. by vm_compute. Qed.
End FormUse.
