(* ===== verification/ProtoEventSafe.v ===== *)
(** * What is attached is what was asked for

    The registry of the handlers as a list of what was asked for, and the proof
    that observing and stopping keep the cache, the listeners of the browser and
    this list together; then who is told of an event ([Fire]). *)
From S2P Require Import Prelude JsString ProtoStr JsMonad ProtoEvent.

Module EventSafe.
Import Js Event.

(** ** The registry as it is meant *)

(** Element, event and handler, in the order in which they were asked for. *)
Notation asked := (list (nat * (jstring * nat))).

Inductive op :=
  | Observe (el : nat) (n : jstring) (h : nat)
  | Stop (el : nat) (n : option jstring) (h : option nat).

Definition stops (el : nat) (n : option jstring) (h : option nat) (t : nat * (jstring * nat)) : bool :=
  bool_decide (t.1 = el) &&
  match n with
  | None | Some [] => true
  | Some m => bool_decide (t.2.1 = m) && match h with None => true | Some k => bool_decide (t.2.2 = k) end
  end.
Definition meant (A : asked) (o : op) : asked :=
  match o with
  | Observe el n h => if bool_decide ((el, (n, h)) ∈ A) then A else A ++ [(el, (n, h))]
  | Stop el n h => filter (fun t => stops el n h t = false) A
  end.
Definition run_op (r : registry) (o : op) : option registry :=
  match o with Observe el n h => Some (observe el n h r) | Stop el n h => stopObserving el n h r end.
Fixpoint run_ops (r : registry) (os : list op) : option registry :=
  match os with [] => Some r | o :: os => r ← run_op r o; run_ops r os end.
Definition for_element (el : nat) (A : asked) : list (jstring * nat) := map snd (filter (fun t => t.1 = el) A).
(** Events have names. *)
Definition has_name (o : op) : Prop := match o with Observe _ n _ => n <> [] | _ => True end.

(** ** The invariant *)

Definition key (p : jstring * wrapper) : jstring * nat := (w_event p.2, w_handler p.2).
Definition view (el : nat) (r : registry) : list (jstring * nat) := map key (attached el r).
Definition of_event (n : jstring) (l : list (jstring * wrapper)) : list wrapper :=
  map snd (filter (fun p => w_event p.2 = n) l).

Record wf (r : registry) : Prop := {
  wf_inj : forall e1 e2 i, ids r !! e1 = Some i -> ids r !! e2 = Some i -> e1 = e2;
  wf_bound : forall e i, ids r !! e = Some i -> (i <= last_id r)%nat;
  wf_fresh : forall i, (last_id r < i)%nat -> cache r !! i = None;
  wf_unseen : forall el, ids r !! el = None -> attached el r = [];
  wf_name : forall el p, p ∈ attached el r -> p.1 = getDOMEventName (w_event p.2);
  wf_cache : forall el i n, ids r !! el = Some i -> named n (at_key i (cache r)) = of_event n (attached el r);
  wf_once : forall el, NoDup (view el r);
  wf_named : forall i, [] ∉ map fst (at_key i (cache r)) }.

Lemma empty_wf : wf empty.
Proof.
  split; try done; unfold view, attached, at_key; cbn; intros *;
    first [constructor|by intros ?%elem_of_nil].
Qed.

Lemma named_set n m l c : named n (set_named m l c) = if bool_decide (n = m) then l else named n c.
Proof.
  induction c as [|[k l'] c IH]; cbn [set_named named].
  - by case_bool_decide.
  - destruct (bool_decide (m = k)) eqn:E; cbn [named].
    + apply bool_decide_eq_true in E as ->. by destruct (bool_decide (n = k)).
    + rewrite IH. destruct (decide (n = k)) as [->|Hn].
      * rewrite (bool_decide_eq_true_2 (k = k)) by done. rewrite bool_decide_eq_false_2; [done|].
        intros <-. by rewrite bool_decide_eq_true_2 in E.
      * by rewrite (bool_decide_eq_false_2 (n = k)).
Qed.

Lemma at_key_insert i j c m : at_key i (<[j := c]> m) = if decide (i = j) then c else at_key i m.
Proof.
  unfold at_key. case_decide as E; [subst; by rewrite lookup_insert_eq|]. by rewrite lookup_insert_ne.
Qed.

Lemma names_set n l c m : m ∈ map fst (set_named n l c) <-> m = n \/ m ∈ map fst c.
Proof.
  induction c as [|[k l'] c IH]; cbn [set_named map]; [cbn; set_solver|].
  case_bool_decide; subst; cbn; rewrite ?elem_of_cons; [tauto|]. rewrite IH. cbn. tauto.
Qed.

Lemma named_names n c : named n c <> [] -> n ∈ map fst c.
Proof. induction c as [|[m l] c IH]; cbn; [done|]. rewrite elem_of_cons. case_bool_decide; eauto. Qed.

Lemma set_named_twice n a b c : set_named n a (set_named n b c) = set_named n a c.
Proof.
  induction c as [|[m l] c IH]; cbn [set_named]; [by rewrite bool_decide_eq_true_2|].
  case_bool_decide; cbn [set_named]; [by rewrite bool_decide_eq_true_2|]. by rewrite bool_decide_eq_false_2, IH.
Qed.

Lemma attached_set el L r e : attached e (set_attached el L r) = if decide (e = el) then L else attached e r.
Proof. unfold attached, set_attached. cbn. case_decide; [subst; by rewrite lookup_insert_eq|by rewrite lookup_insert_ne]. Qed.

(** ** What reading and writing the cache comes to *)

Lemma set_wrappers_twice i n a b r : set_wrappers i n a (set_wrappers i n b r) = set_wrappers i n a r.
Proof.
  unfold set_wrappers. cbn. f_equal. rewrite at_key_insert, decide_True by done.
  by rewrite set_named_twice, insert_insert_eq.
Qed.

Lemma set_wrappers_cache i n a r : set_wrappers i n a (getCacheForID i r).2 = set_wrappers i n a r.
Proof. unfold set_wrappers, getCacheForID. cbn. f_equal. by rewrite at_key_insert, decide_True, insert_insert_eq. Qed.

Lemma getWrappers_eq i n r : let l := named n (at_key i (cache r)) in
  getWrappersForEventName i n r = (l, set_wrappers i n l r).
Proof. cbv zeta. unfold getWrappersForEventName. cbn -[set_wrappers]. f_equal. apply set_wrappers_cache. Qed.

Lemma findWrapper_eq i n h r : let l := named n (at_key i (cache r)) in
  findWrapper i n h r = (head (filter (fun w => w_handler w = h) l), set_wrappers i n l r).
Proof. cbv zeta. unfold findWrapper. by rewrite getWrappers_eq. Qed.

Lemma destroyWrapper_eq i n h r : let l := named n (at_key i (cache r)) in
  destroyWrapper i n h r =
    set_wrappers i n (filter (fun w => head (filter (fun w => w_handler w = h) l) <> Some w) l) r.
Proof.
  cbv zeta. unfold destroyWrapper. destruct (getCacheForID i r) as [c r1] eqn:E.
  assert (c = at_key i (cache r) /\ r1 = (getCacheForID i r).2) as [-> ->] by (by injection E as <- <-).
  rewrite findWrapper_eq, set_wrappers_twice, set_wrappers_cache. cbn [getCacheForID snd cache].
  by rewrite at_key_insert, decide_True.
Qed.

(** ** The operations keep the invariant *)

Lemma wf_ext r r' : wf r -> ids r' = ids r -> last_id r' = last_id r -> cache r' = cache r ->
  (forall e, attached e r' = attached e r) -> wf r'.
Proof.
  intros [I1 I2 I3 I4 I5 I6 I7 I8] Hi Hl Hc Ha.
  split; unfold view in *; intros *; rewrite ?Hi, ?Hl, ?Hc, ?Ha; eauto.
Qed.

(** Writing what an element has attached, and the wrappers of one name under the
    number of the element. *)
Lemma write_wf el i n l r L : wf r -> ids r !! el = Some i -> n <> [] ->
  l = of_event n L -> (forall m, m <> n -> of_event m L = of_event m (attached el r)) ->
  NoDup (map key L) -> (forall p, p ∈ L -> p.1 = getDOMEventName (w_event p.2)) ->
  wf (set_attached el L (set_wrappers i n l r)).
Proof.
  intros Hw Hi Hne Hl Hm Hnd Hp. pose proof (wf_bound r Hw _ _ Hi) as Hb.
  assert (forall e, attached e (set_attached el L (set_wrappers i n l r)) = if decide (e = el) then L else attached e r) as Hat
    by (intros e; by rewrite attached_set).
  split; unfold view; try setoid_rewrite Hat; cbn [ids last_id cache set_attached set_wrappers].
  - apply (wf_inj r Hw).
  - apply (wf_bound r Hw).
  - intros j Hj. rewrite lookup_insert_ne by lia. by apply (wf_fresh r Hw).
  - intros e He. case_decide; [subst; congruence|by apply (wf_unseen r Hw)].
  - intros e p. case_decide; [by intros ?; apply Hp|by apply (wf_name r Hw)].
  - intros e j m He. rewrite at_key_insert. case_decide as Hj.
    + subst j. assert (e = el) as -> by (by eapply (wf_inj r Hw)). rewrite decide_True by done.
      rewrite named_set. case_bool_decide as Em; [by subst|]. rewrite Hm by done. by apply (wf_cache r Hw).
    + rewrite decide_False by congruence. by apply (wf_cache r Hw).
  - intros e. case_decide; [done|by apply (wf_once r Hw)].
  - intros j. rewrite at_key_insert. case_decide; [rewrite names_set|]; try pose proof (wf_named r Hw j);
      pose proof (wf_named r Hw i); intuition congruence.
Qed.

(** Asking for the number of an element changes no listeners. *)
Lemma getEventID_spec el r : wf r ->
  let '(i, r') := getEventID el r in wf r' /\ ids r' !! el = Some i /\ forall e, attached e r' = attached e r.
Proof.
  intros Hw. unfold getEventID. destruct (ids r !! el) as [i|] eqn:Hi; [done|].
  split; [|split; [cbn; by rewrite lookup_insert_eq|done]].
  split; cbn [ids last_id cache]; unfold view; try change (attached ?e _) with (attached e r).
  - intros e1 e2 i. rewrite !lookup_insert_Some. intros [[<- <-]|[H1 H1']] [[<- H]|[H2 H2']]; try done.
    + apply (wf_bound r Hw) in H2'. lia.
    + apply (wf_bound r Hw) in H1'. lia.
    + by eapply (wf_inj r Hw).
  - intros e i. rewrite lookup_insert_Some. intros [[<- <-]|[_ H]]; [done|]. apply (wf_bound r Hw) in H. lia.
  - intros i Hl. apply (wf_fresh r Hw). lia.
  - intros e. rewrite lookup_insert_None. intros [H _]. by apply (wf_unseen r Hw).
  - intros e p. apply (wf_name r Hw).
  - intros e i n. rewrite lookup_insert_Some. intros [[<- <-]|[_ H]]; [|by apply (wf_cache r Hw)].
    unfold at_key. rewrite (wf_fresh r Hw) by lia. cbn. change (attached el _) with (attached el r).
    by rewrite (wf_unseen r Hw).
  - intros e. apply (wf_once r Hw).
  - apply (wf_named r Hw).
Qed.

(** Reading the wrappers of a name changes no listeners. *)
Lemma read_wf el i n r : wf r -> ids r !! el = Some i -> n <> [] ->
  let l := of_event n (attached el r) in
  getWrappersForEventName i n r = (l, set_wrappers i n l r) /\ wf (set_wrappers i n l r).
Proof.
  intros Hw Hi Hn. cbv zeta. rewrite getWrappers_eq, (wf_cache r Hw el i n Hi). split; [done|].
  eapply wf_ext; [apply (write_wf el i n (of_event n (attached el r)) r (attached el r))|..]; try done;
    [apply (wf_once r Hw)|apply (wf_name r Hw)|].
  intros e. rewrite attached_set. case_decide; [by subst|done].
Qed.

Lemma elem_of_lmap {A B} (f : A -> B) l y : y ∈ map f l <-> exists x, y = f x /\ x ∈ l.
Proof. apply (list_elem_of_fmap f). Qed.

Lemma of_event_in n h L : h ∈ map w_handler (of_event n L) <-> (n, h) ∈ map key L.
Proof.
  unfold of_event. rewrite map_map, !elem_of_lmap. split.
  - intros (p & -> & [<- ?]%list_elem_of_filter). by exists p.
  - intros (p & [= -> ->] & ?). exists p. by rewrite list_elem_of_filter.
Qed.

Lemma of_event_app n L p : of_event n (L ++ [p]) = of_event n L ++ (if decide (w_event p.2 = n) then [p.2] else []).
Proof. unfold of_event. rewrite filter_app, map_app. f_equal. rewrite filter_cons, filter_nil. by case_decide. Qed.

(** [observe] appends what is new. *)
Lemma observe_spec el n h r : wf r -> n <> [] ->
  wf (observe el n h r) /\
  forall e, view e (observe el n h r) =
    if decide (e = el) then (if bool_decide ((n, h) ∈ view el r) then view el r else view el r ++ [(n, h)]) else view e r.
Proof.
  intros Hw Hn. pose proof (getEventID_spec el r Hw) as Hg. unfold observe, createWrapper.
  destruct (getEventID el r) as [i r1]. destruct Hg as (H1 & Hi & Ha).
  destruct (read_wf el i n r1 H1 Hi Hn) as [-> H2]. rewrite set_wrappers_twice.
  assert (view el r = map key (attached el r1)) as -> by (unfold view; by rewrite Ha).
  rewrite (bool_decide_ext _ _ (of_event_in n h (attached el r1))).
  case_bool_decide as Hin.
  - split; [done|]. intros e. unfold view. change (attached e (set_wrappers _ _ _ _)) with (attached e r1).
    case_decide; [by subst|by rewrite Ha].
  - set (w := Wrapper _ n h). unfold addEventListener.
    set (L := attached el r1 ++ [(getDOMEventName n, w)]).
    assert (map key L = map key (attached el r1) ++ [(n, h)]) as HL by (unfold L; by rewrite map_app).
    split.
    + apply (wf_ext (set_attached el L (set_wrappers i n (of_event n (attached el r1) ++ [w]) r1))); try done.
      apply write_wf; try done.
      * unfold L. rewrite of_event_app. by rewrite decide_True.
      * intros m Hm. unfold L. rewrite of_event_app. rewrite decide_False by (cbn; congruence). by rewrite app_nil_r.
      * rewrite HL. apply NoDup_app. split; [apply (wf_once r1 H1)|]. split; [|apply NoDup_singleton].
        intros x Hx ->%list_elem_of_singleton. done.
      * intros p [Hp| ->%list_elem_of_singleton]%elem_of_app; [by eapply (wf_name r1 H1)|done].
    + intros e. unfold view. rewrite attached_set. case_decide; [by rewrite <- HL|]. cbn. unfold attached at 1. cbn.
      by rewrite <- Ha.
Qed.

Lemma map_filter {A B} (f : A -> B) (P : B -> Prop) (Q : A -> Prop)
  `{!forall x, Decision (P x)} `{!forall x, Decision (Q x)} (l : list A) :
  (forall x, x ∈ l -> P (f x) <-> Q x) -> map f (filter Q l) = filter P (map f l).
Proof.
  induction l as [|x l IH]; intros HE; [done|]. cbn [map]. rewrite !filter_cons.
  pose proof (HE x ltac:(left)) as Hx. rewrite <- IH by (intros y Hy; apply HE; by right).
  destruct (decide (Q x)), (decide (P (f x))); tauto || done.
Qed.

Lemma filter_agree {A} (P Q : A -> Prop) `{!forall x, Decision (P x)} `{!forall x, Decision (Q x)} (l : list A) :
  (forall x, x ∈ l -> P x <-> Q x) -> filter P l = filter Q l.
Proof.
  intros HE. rewrite <- (list_fmap_id (filter Q l)), <- (list_fmap_id l) at 1. symmetry. apply (map_filter id). apply HE.
Qed.

Lemma filter_none {A} (P : A -> Prop) `{!forall x, Decision (P x)} (l : list A) : (forall x, x ∈ l -> ~ P x) -> filter P l = [].
Proof.
  induction l as [|x l IH]; intros HE; [done|]. rewrite filter_cons, decide_False by (apply HE; left).
  apply IH. intros y Hy. apply HE. by right.
Qed.

(** What is left of a view when the handlers [hs] of the event [n] are gone. *)
Definition left_over (n : jstring) (hs : list nat) (l : list (jstring * nat)) : list (jstring * nat) :=
  filter (fun k => ~ (k.1 = n /\ k.2 ∈ hs)) l.

Lemma filter_unmet {A} (P : A -> Prop) `{!forall x, Decision (P x)} (l : list A) : (forall x, x ∈ l -> P x) -> filter P l = l.
Proof.
  induction l as [|x l IH]; intros HE; [done|]. rewrite filter_cons, decide_True by (apply HE; left).
  f_equal. apply IH. intros y Hy. apply HE. by right.
Qed.

Lemma key_inj L p q : NoDup (map key L) -> p ∈ L -> q ∈ L -> key p = key q -> p = q.
Proof.
  intros Hnd Hp Hq Hk. induction L as [|x L IH]; [by apply elem_of_nil in Hp|].
  cbn in Hnd. apply NoDup_cons in Hnd as [Hx Hnd]. apply elem_of_cons in Hp, Hq.
  destruct Hp as [->|Hp], Hq as [->|Hq]; try done.
  - destruct Hx. apply elem_of_lmap. by exists q.
  - destruct Hx. apply elem_of_lmap. exists p. by split.
  - by apply IH.
Qed.

Lemma head_filter {A} (P : A -> Prop) `{!forall x, Decision (P x)} (l : list A) x :
  head (filter P l) = Some x -> P x /\ x ∈ l.
Proof.
  intros Hf. apply (list_elem_of_filter P). destruct (filter P l) as [|y k]; [done|]. injection Hf as ->. left.
Qed.

(** Taking one listener away, and its wrapper out of the cache. *)
Lemma drop_wf el i n w r (L := filter (fun q => q <> (getDOMEventName n, w)) (attached el r)) :
  wf r -> ids r !! el = Some i -> n <> [] -> w ∈ of_event n (attached el r) ->
  wf (set_attached el L (set_wrappers i n (filter (fun w' => Some w <> Some w') (of_event n (attached el r))) r)) /\
  map key L = filter (fun k => k <> (n, w_handler w)) (map key (attached el r)).
Proof.
  intros Hw Hi Hn ([m w'] & -> & [Hev Hin]%list_elem_of_filter)%elem_of_lmap. cbn in Hev, L |- *. rename w' into w.
  pose proof (wf_name r Hw _ _ Hin) as Hm. cbn in Hm. rewrite Hev in Hm. subst m.
  assert (map key L = filter (fun k => k <> (n, w_handler w)) (map key (attached el r))) as HL.
  { apply map_filter. intros q Hq. unfold key. split.
    - intros Hk ->. apply Hk. cbn. by rewrite Hev.
    - intros Hqp Hk. apply Hqp. eapply key_inj; try done; [apply (wf_once r Hw)|]. unfold key; cbn. by rewrite Hev. }
  split; [|done]. apply write_wf; try done.
  - unfold of_event, L. rewrite <- (map_filter snd (fun w' => Some w <> Some w') (fun q => q <> (getDOMEventName n, w))).
    + f_equal. rewrite !list_filter_filter. apply list_filter_iff. intros q. tauto.
    + intros [m w'] [Hqe Hq]%list_elem_of_filter. cbn in Hqe |- *. split; [intros X [= -> ->]; done|].
      intros X [= ->]. apply X. pose proof (wf_name r Hw _ _ Hq) as Hm. cbn in Hm. congruence.
  - intros m Hm. unfold of_event, L. f_equal. rewrite list_filter_filter. apply list_filter_iff.
    intros q. split; [tauto|]. intros Hq. split; [done|]. intros ->. cbn in Hq. congruence.
  - rewrite HL. apply NoDup_filter, (wf_once r Hw).
  - intros q [_ Hq]%list_elem_of_filter. by eapply (wf_name r Hw).
Qed.

(** [stopObserving] with a name and a handler. *)
Lemma stop_one_spec el n h r : wf r -> n <> [] ->
  wf (stop_one el n h r) /\
  forall e, view e (stop_one el n h r) = if decide (e = el) then left_over n [h] (view el r) else view e r.
Proof.
  intros Hw Hn. pose proof (getEventID_spec el r Hw) as Hg. unfold stop_one.
  destruct (getEventID el r) as [i r1]. destruct Hg as (H1 & Hi & Ha).
  rewrite findWrapper_eq. destruct (read_wf el i n r1 H1 Hi Hn) as [_ H2].
  rewrite (wf_cache r1 H1 el i n Hi) in *. set (l := of_event n (attached el r1)) in *.
  assert (view el r = map key (attached el r1)) as -> by (unfold view; by rewrite Ha).
  destruct (head (filter (fun w => w_handler w = h) l)) as [w|] eqn:Hf.
  - pose proof (head_filter _ _ _ Hf) as [Hh Hl]. rewrite destroyWrapper_eq. cbv zeta. unfold removeEventListener.
    change (cache (set_attached ?a ?b ?c)) with (cache c). cbn [cache set_wrappers].
    rewrite at_key_insert, decide_True, named_set, bool_decide_eq_true_2 by done. rewrite Hf.
    change (attached el (set_wrappers _ _ _ _)) with (attached el r1).
    set (L := filter (fun q => q <> (getDOMEventName n, w)) (attached el r1)). set (l' := filter _ l).
    change (set_wrappers i n l' (set_attached el L (set_wrappers i n l r1)))
      with (set_attached el L (set_wrappers i n l' (set_wrappers i n l r1))). rewrite set_wrappers_twice.
    destruct (drop_wf el i n w r1 H1 Hi Hn Hl) as [Hwf HL]. split; [done|].
    intros e. unfold view. rewrite attached_set. case_decide.
    + unfold L. rewrite HL. apply list_filter_iff. intros [m k]. cbn.
      rewrite list_elem_of_singleton, Hh. split; [intros X [-> ->]; done|]. intros X [= -> ->]. by apply X.
    + change (attached e (set_wrappers _ _ _ _)) with (attached e r1). by rewrite Ha.
  - split; [done|]. intros e. unfold view. change (attached e (set_wrappers _ _ _ _)) with (attached e r1).
    case_decide; [subst e|by rewrite Ha]. unfold left_over. symmetry. apply filter_unmet.
    intros [m k] Hk [E1 E2]. cbn in E1, E2. apply list_elem_of_singleton in E2. subst m k.
    apply of_event_in, elem_of_lmap in Hk as (w & -> & Hw'). fold l in Hw'.
    assert (w ∈ filter (fun w' => w_handler w' = w_handler w) l) as X by (apply list_elem_of_filter; by split).
    destruct (filter _ l); [by apply elem_of_nil in X|done].
Qed.

Lemma left_over_twice n h hs l : left_over n hs (left_over n [h] l) = left_over n (h :: hs) l.
Proof.
  unfold left_over. rewrite list_filter_filter. apply list_filter_iff. intros k.
  cbn. rewrite (elem_of_cons hs), list_elem_of_singleton. tauto.
Qed.

Lemma stop_many el n ws : n <> [] -> forall r, wf r ->
  let r' := fold_left (fun r w => stop_one el n (w_handler w) r) ws r in
  wf r' /\ forall e, view e r' = if decide (e = el) then left_over n (map w_handler ws) (view el r) else view e r.
Proof.
  intros Hn. induction ws as [|w ws IH]; intros r Hw; cbn [fold_left map].
  - split; [done|]. intros e. case_decide; [subst|done]. symmetry. apply filter_unmet. intros k _ [_ Hk]. by apply elem_of_nil in Hk.
  - destruct (stop_one_spec el n (w_handler w) r Hw Hn) as [H1 Hv]. destruct (IH _ H1) as [H2 Hv2].
    split; [done|]. intros e. rewrite Hv2, !Hv. case_decide; [|done]. rewrite decide_True by done. apply left_over_twice.
Qed.

Definition without_event (n : jstring) (l : list (jstring * nat)) : list (jstring * nat) := filter (fun k => k.1 <> n) l.

(** [stopObserving] with a name only. *)
Lemma stop_name_spec el n r : wf r -> n <> [] ->
  wf (stop_name el n r) /\
  forall e, view e (stop_name el n r) = if decide (e = el) then without_event n (view el r) else view e r.
Proof.
  intros Hw Hn. pose proof (getEventID_spec el r Hw) as Hg. unfold stop_name.
  destruct (getEventID el r) as [i r1]. destruct Hg as (H1 & Hi & Ha).
  destruct (read_wf el i n r1 H1 Hi Hn) as [-> H2]. set (l := of_event n (attached el r1)) in *.
  destruct (stop_many el n l Hn _ H2) as [H3 Hv]. split; [done|]. intros e. rewrite Hv.
  unfold view. change (attached ?e (set_wrappers _ _ _ _)) with (attached e r1). rewrite !Ha. case_decide; [|done].
  unfold left_over, without_event. rewrite <- (Ha el). change (map key (attached el r)) with (view el r).
  apply filter_agree. intros [m k] Hk. cbn. unfold l. split; [|tauto].
  intros X ->. apply X. split; [done|]. apply of_event_in. rewrite <- ?Ha in Hk. rewrite Ha in *. exact Hk.
Qed.

Lemma stop_names el ns : [] ∉ ns -> forall r, wf r ->
  let r' := fold_left (fun r n => stop_name el n r) ns r in
  wf r' /\ forall e, view e r' = if decide (e = el) then filter (fun k => k.1 ∉ ns) (view el r) else view e r.
Proof.
  induction ns as [|n ns IH]; intros Hns r Hw; cbn [fold_left].
  - split; [done|]. intros e. case_decide; [subst|done]. symmetry. apply filter_unmet. intros k _. apply not_elem_of_nil.
  - apply not_elem_of_cons in Hns as [Hn Hns].
    destruct (stop_name_spec el n r Hw ltac:(congruence)) as [H1 Hv]. destruct (IH Hns _ H1) as [H2 Hv2].
    split; [done|]. intros e. rewrite Hv2, !Hv. case_decide; [|done]. rewrite decide_True by done.
    unfold without_event. rewrite list_filter_filter. apply list_filter_iff. intros k. rewrite not_elem_of_cons. tauto.
Qed.

(** [stopObserving] with neither. *)
Lemma stop_all_spec el r : wf r ->
  exists r', stop_all el r = Some r' /\ wf r' /\ forall e, view e r' = if decide (e = el) then [] else view e r.
Proof.
  intros Hw. pose proof (getEventID_spec el r Hw) as Hg. unfold stop_all.
  destruct (getEventID el r) as [i r1]. destruct Hg as (H1 & Hi & Ha). cbn [getCacheForID].
  set (r2 := Registry _ _ _ _ _).
  assert (wf r2) as H2.
  { assert (forall j, at_key j (cache r2) = at_key j (cache r1)) as Hc
      by (intros j; unfold r2; cbn; rewrite at_key_insert; case_decide; by subst).
    destruct H1 as [I1 I2 I3 I4 I5 I6 I7 I8]. split; try done.
    - intros j Hj. unfold r2 in *. cbn in *. rewrite lookup_insert_ne; [by apply I3|]. pose proof (I2 _ _ Hi). lia.
    - intros e j m He. rewrite Hc. by apply I6.
    - intros j. rewrite Hc. apply I8. }
  pose proof (wf_named r1 H1 i) as Hns. rewrite bool_decide_eq_false_2 by done.
  destruct (stop_names el _ Hns r2 H2) as [H3 Hv]. eexists. split; [done|]. split; [done|].
  intros e. rewrite Hv. unfold view, r2. change (attached ?e (Registry _ _ _ _ (listeners r1))) with (attached e r1). rewrite !Ha.
  case_decide; [|done]. apply filter_none. intros [m k] Hk Hx. apply Hx. cbn.
  apply named_names. rewrite (wf_cache r1 H1 el i m Hi). apply of_event_in in Hk. rewrite Ha. intros E. rewrite E in Hk.
  by apply elem_of_nil in Hk.
Qed.

(** ** The registry refines the list *)

Definition agrees (r : registry) (A : asked) : Prop := wf r /\ forall el, view el r = for_element el A.

Lemma in_for_element el k A : k ∈ for_element el A <-> (el, k) ∈ A.
Proof.
  unfold for_element. rewrite elem_of_lmap. split.
  - intros ([e k'] & -> & [<- H]%list_elem_of_filter). done.
  - intros H. exists (el, k). split; [done|]. by apply list_elem_of_filter.
Qed.

Lemma for_element_app el A t : for_element el (A ++ [t]) = for_element el A ++ (if decide (t.1 = el) then [t.2] else []).
Proof. unfold for_element. rewrite filter_app, map_app. f_equal. rewrite filter_cons, filter_nil. by case_decide. Qed.

Lemma for_element_filter e el (P : nat * (jstring * nat) -> bool) (Q : jstring * nat -> Prop) `{!forall k, Decision (Q k)} A :
  (forall k, P (e, k) = false <-> (e = el -> Q k)) ->
  for_element e (filter (fun t => P t = false) A) = if decide (e = el) then filter Q (for_element e A) else for_element e A.
Proof.
  intros HP. unfold for_element. rewrite list_filter_filter.
  rewrite (filter_agree _ (fun t => (e = el -> Q t.2) /\ t.1 = e)).
  - case_decide as He.
    + rewrite <- (map_filter snd Q (fun t => Q t.2)) by done. rewrite list_filter_filter. f_equal.
      apply list_filter_iff. intros t. tauto.
    + f_equal. apply list_filter_iff. intros t. tauto.
  - intros [e' k] _. cbn. rewrite (and_comm (e' = e)). split; intros [H1 H2]; (split; [|done]); subst e'; by apply HP.
Qed.

Lemma stops_iff e el n h (Q : jstring * nat -> Prop) :
  (forall k, Q k <-> stops el n h (el, k) = false) ->
  forall k, stops el n h (e, k) = false <-> (e = el -> Q k).
Proof.
  intros HQ k. destruct (decide (e = el)) as [->|He].
  - rewrite HQ. tauto.
  - unfold stops. cbn. rewrite bool_decide_eq_false_2 by done. cbn. tauto.
Qed.

(** One operation on both sides. *)
Lemma op_refines o r A : has_name o -> agrees r A ->
  exists r', run_op r o = Some r' /\ agrees r' (meant A o).
Proof.
  intros Hn [Hw Hv]. destruct o as [el n h|el n h]; cbn [run_op meant].
  - destruct (observe_spec el n h r Hw Hn) as [H1 H2]. eexists. split; [done|]. split; [done|].
    assert ((n, h) ∈ view el r <-> (el, (n, h)) ∈ A) as Hin by (rewrite Hv; apply in_for_element).
    intros e. rewrite H2. clear H2.
    destruct (decide ((el, (n, h)) ∈ A)); [rewrite !bool_decide_eq_true_2 by tauto|rewrite !bool_decide_eq_false_2 by tauto].
    + rewrite !Hv. destruct (decide (e = el)) as [->|He]; done.
    + rewrite for_element_app, !Hv. cbn [fst snd]. destruct (decide (e = el)) as [->|He]; [by rewrite decide_True|].
      by rewrite decide_False, app_nil_r by (intros E; by apply He).
  - assert (forall r' (Q : jstring * nat -> Prop) (D : forall k, Decision (Q k)),
      wf r' -> (forall e, view e r' = if decide (e = el) then filter Q (view el r) else view e r) ->
      (forall k, Q k <-> stops el n h (el, k) = false) -> agrees r' (filter (fun t => stops el n h t = false) A)) as HQ.
    { intros r' Q D H1 H2 H3. split; [done|]. intros e. rewrite H2.
      rewrite (for_element_filter e el _ Q) by (by apply stops_iff). case_decide; [subst|]; by rewrite Hv. }
    assert (n = None \/ n = Some [] \/ exists c m, n = Some (c :: m)) as [Hc|[Hc|(c & m & ->)]]
      by (destruct n as [[|c m]|]; eauto).
    1,2: destruct (stop_all_spec el r Hw) as (r' & Hr & H1 & H2); exists r'; subst n; (split; [done|]);
      apply (HQ r' (fun _ => False) _); try done;
      [intros e; rewrite H2; case_decide; [rewrite filter_none; [done|tauto]|done]
      |intros k; unfold stops; cbn; by rewrite bool_decide_eq_true_2].
    destruct h as [h|]; (eexists; split; [done|]).
    + destruct (stop_one_spec el (c :: m) h r Hw ltac:(done)) as [H1 H2]. eapply HQ; [exact H1|exact H2|].
      intros [k1 k2]. unfold stops. cbn. rewrite bool_decide_eq_true_2 by done. cbn.
      rewrite andb_false_iff, !bool_decide_eq_false, list_elem_of_singleton.
      destruct (decide (k1 = c :: m)), (decide (k2 = h)); tauto.
    + destruct (stop_name_spec el (c :: m) r Hw ltac:(done)) as [H1 H2]. eapply HQ; [exact H1|exact H2|].
      intros [k1 k2]. unfold stops. cbn. rewrite bool_decide_eq_true_2, andb_true_r by done. cbn. by rewrite bool_decide_eq_false.
Qed.

Lemma ops_refine os r A : Forall has_name os -> agrees r A ->
  exists r', run_ops r os = Some r' /\ agrees r' (fold_left meant os A).
Proof.
  intros Hn. revert r A. induction Hn as [|o os Ho Hn IH]; intros r A HA; cbn [run_ops fold_left]; [eauto|].
  destruct (op_refines o r A Ho HA) as (r1 & -> & H1). apply (IH r1 _ H1).
Qed.

Lemma empty_agrees : agrees empty [].
Proof. split; [apply empty_wf|done]. Qed.
End EventSafe.

(** * Who is told of an event

    Whatever has been observed and stopped before, [fire] calls the handlers that
    were asked for and not stopped since: in the order in which they were asked
    for, at the element first and then at its ancestors, until one stops the
    event. *)

Module Fire.
Import Js Event EventSafe.

(** A handler of the event [n] is told of an event: the browser calls it by the
    type, its wrapper looks at the name. *)
Definition told (e : event) (n : jstring) : bool :=
  bool_decide (getDOMEventName n = e_type e) &&
  match e_name e with Some ((_ :: _) as m) => bool_decide (m = n) | _ => true end.

Section calls.
Context {T : Type}.
Notation M := (Js.M (registry * T)).
Variable path : nat -> list nat.
Variable call : nat -> nat -> event -> M unit.
Variable stopped : T -> bool.
(** What a handler does to the rest of the page. *)
Variable act : nat -> nat -> event -> T -> T.

(** A handler that observes nothing and stops observing nothing, and comes to
    its end: it may throw. *)
Definition settled : Prop := forall h el e r t, exists x, x <> Exn Hang /\ call h el e (r, t) = (x, (r, act h el e t)).

Definition tell (e : event) (el : nat) (hs : list nat) (t : T) : T := fold_left (fun t h => act h el e t) hs t.
Definition handlers (e : event) (el : nat) (A : asked) : list nat :=
  map snd (filter (fun k => told e k.1 = true) (for_element el A)).
(** Telling the handlers [hs] of one element after the other until the event is
    stopped. *)
Fixpoint tell_all (hs : nat -> list nat) (e : event) (els : list nat) (t : T) : T :=
  match els with
  | [] => t
  | el :: els => let t' := tell e el (hs el) t in if stopped t' then t' else tell_all hs e els t'
  end.

Lemma tell_all_ext hs hs' e els t : (forall el, hs el = hs' el) -> tell_all hs e els t = tell_all hs' e els t.
Proof.
  intros HE. revert t. induction els as [|el els IH]; intros t; [done|]. cbn [tell_all]. rewrite HE.
  destruct (stopped _); [done|apply IH].
Qed.

Hypothesis Hcall : settled.

Lemma listener_told el e l r t : l ∈ attached el r -> wf r ->
  run_listener call el e l (r, t) =
    (Val tt, (r, if told e (w_event l.2) then act (w_handler l.2) el e t else t)).
Proof.
  intros Hl Hw. unfold run_listener. unfold mbind, M_bind, get. cbn [fst]. rewrite (bool_decide_eq_true_2 (l ∈ _)) by done.
  rewrite (wf_name r Hw el l Hl). unfold told. cbn [andb].
  destruct (bool_decide (getDOMEventName (w_event l.2) = e_type e)); [|done]. cbn [andb]. unfold caught, run_wrapper.
  destruct (Hcall (w_handler l.2) el e r t) as (x & Hx & Hc).
  assert (forall n, (if bool_decide (n = w_event l.2) then call (w_handler l.2) el e else mret tt) (r, t) =
    (if bool_decide (n = w_event l.2) then x else Val tt, (r, if bool_decide (n = w_event l.2) then act (w_handler l.2) el e t else t))) as Hn.
  { intros n. case_bool_decide; [apply Hc|done]. }
  destruct (e_name e) as [[|c n]|].
  - rewrite Hc. by destruct x as [[]|[]].
  - rewrite Hn. case_bool_decide; [|done]. by destruct x as [[]|[]].
  - rewrite Hc. by destruct x as [[]|[]].
Qed.

Lemma element_told el e r t A : agrees r A ->
  at_element call e el (r, t) = (Val tt, (r, tell e el (handlers e el A) t)).
Proof.
  intros [Hw Hv]. unfold at_element. unfold mbind, M_bind, get. cbn [fst]. unfold handlers. rewrite <- Hv. unfold view.
  assert (forall L, (forall l, l ∈ L -> l ∈ attached el r) -> forall t,
    iter (run_listener call el e) L (r, t) =
      (Val tt, (r, tell e el (map snd (filter (fun k => told e k.1 = true) (map key L))) t))) as HL.
  { induction L as [|l L IH]; intros HL u; [done|]. cbn [iter map]. unfold mbind, M_bind.
    rewrite listener_told by (try done; apply HL; left). rewrite filter_cons.
    rewrite IH by (intros l' Hl'; apply HL; by right). cbn [key fst]. by destruct (told e (w_event l.2)). }
  by apply HL.
Qed.

Lemma event_told e r t A els : agrees r A -> rise call stopped e els (r, t) = (Val tt, (r, tell_all (fun el => handlers e el A) e els t)).
Proof.
  intros HA. revert t. induction els as [|el els IH]; intros t; [done|]. cbn [rise tell_all]. unfold mbind, M_bind.
  rewrite (element_told el e r t A HA). unfold mbind, M_bind, get. cbn [snd]. destruct (stopped _); [done|apply IH].
Qed.
End calls.

(** C28: Whatever has been observed and stopped, what the browser has attached to
    an element is exactly what was asked for and not stopped since, in that order
    and each handler once for an event, under the browser's name of the event.
    The calls come to their end. *)
Theorem registry_refines os : Forall has_name os ->
  exists r, run_ops empty os = Some r /\
    forall el, map (fun p => (p.1, key p)) (attached el r) =
                 map (fun k => (getDOMEventName k.1, k)) (for_element el (fold_left meant os [])) /\
               NoDup (for_element el (fold_left meant os [])).
Proof.
  intros Hn. destruct (ops_refine os empty [] Hn empty_agrees) as (r & Hr & Hw & Hv).
  exists r. split; [done|]. intros el. rewrite <- Hv. split; [|apply (wf_once r Hw)]. unfold view. rewrite map_map.
  apply map_ext_in. intros p Hp%list_elem_of_In. by rewrite (wf_name r Hw el p Hp).
Qed.

(** ** A page with two elements *)

Definition some_ops : list op :=
  [Observe 1 (js "a:b") 1; Observe 0 (js "a:b") 2; Observe 1 (js "a:b") 3; Observe 1 (js "a:b") 3; Observe 1 (js "click") 4;
   Stop 1 (Some (js "a:b")) (Some 1%nat); Observe 1 (js "a:b") 1; Observe 0 (js "a:c") 5; Stop 0 (Some (js "a:c")) None].
Definition log := list (nat * nat).
Definition noted (h el : nat) (_ : event) (t : log) : log := t ++ [(el, h)].
(** The second handler throws. *)
Definition note_it (h el : nat) (e : event) : Js.M (registry * log) unit :=
  fun s => (if decide (h = 2%nat) then Exn TypeError else Val tt, (s.1, noted h el e s.2)).

Lemma note_settled : settled note_it noted.
Proof. intros h el e r t. exists (if decide (h = 2%nat) then Exn TypeError else Val tt). split; [by case_decide|done]. Qed.

Lemma some_ops_named : Forall has_name some_ops.
Proof. repeat constructor; done. Qed.

Definition rising (el : nat) : list nat := if decide (el = 0%nat) then [0%nat] else [el; 0%nat].

Lemma registry_refines_witness : Forall has_name some_ops /\
  exists r, run_ops empty some_ops = Some r /\
    map key (attached 1 r) = [(js "a:b", 3%nat); (js "click", 4%nat); (js "a:b", 1%nat)].
Proof.
  split; [apply some_ops_named|]. destruct (registry_refines some_ops some_ops_named) as (r & Hr & HE).
  exists r. split; [done|]. destruct (HE 1%nat) as [HA _]. apply (f_equal (map snd)) in HA. rewrite !map_map in HA.
  etrans; [exact HA|]. vm_compute. reflexivity.
Defined.

(** C29: After any observing and stopping, [fire] with a name that has a colon
    calls the handlers of that name that were asked for and not stopped since: at
    the element and then at its ancestors until the event is stopped, in the order
    of asking, those after one that throws too; and nothing else.  Handlers that
    themselves observe or stop observing are left out. *)
Theorem fire_calls {T} (path : nat -> list nat) call (stopped : T -> bool) act os el n t :
  Forall has_name os -> settled call act -> Str.include [c_colon] n = true -> n <> [] ->
  exists r, run_ops empty os = Some r /\
    fire path call stopped el n (r, t) =
      (Val tt, (r, tell_all stopped act
        (fun x => map snd (filter (fun k => k.1 = n) (for_element x (fold_left meant os []))))
        (Ev (js "dataavailable") (Some n)) (path el) t)).
Proof.
  intros Hn Hc Hi Hne. destruct (ops_refine os empty [] Hn empty_agrees) as (r & Hr & HA).
  exists r. split; [done|]. unfold fire, dispatchEvent. rewrite (event_told call stopped act Hc _ _ _ _ _ HA).
  do 2 f_equal. apply tell_all_ext. intros x. unfold handlers. f_equal. apply list_filter_iff. intros [m h].
  unfold told. destruct n as [|c n]; [done|]. cbn [e_type e_name fst].
  rewrite andb_true_iff, !bool_decide_eq_true. split; [by intros [_ ->]|]. intros ->. split; [|done].
  unfold getDOMEventName. by rewrite Hi.
Qed.

Lemma fire_calls_witness : exists r, run_ops empty some_ops = Some r /\
  fire rising note_it (fun _ : log => false) 1 (js "a:b") (r, []) = (Val tt, (r, [(1, 3); (1, 1); (0, 2)]%nat)).
Proof.
  destruct (fire_calls rising note_it (fun _ => false) noted some_ops 1 (js "a:b") []) as (r & Hr & Hf).
  - apply some_ops_named.
  - apply note_settled.
  - vm_compute. reflexivity.
  - done.
  - exists r. split; [done|]. etrans; [exact Hf|]. vm_compute. reflexivity.
Defined.

(** ** Events without a name *)

(** A handler observed for the empty name cannot be stopped with the others:
    [stopObserving] calls itself without end. *)
Lemma empty_name_never_stops :
  exists r, run_ops empty [Observe 1 (js "") 1] = Some r /\ stopObserving 1 None None r = None.
Proof. eexists. split; [done|]. vm_compute. reflexivity. Qed.

(** [fire] with the empty name tells the handlers of every name with a colon. *)
Lemma empty_name_tells_all :
  exists r, run_ops empty some_ops = Some r /\
    (fire rising note_it (fun _ : log => false) 1 (js "") (r, [])).2.2 = [(1, 3); (1, 1); (0, 2)]%nat.
Proof. eexists. split; [done|]. vm_compute. reflexivity. Qed.

(** A name without a colon tells nobody, not even the handlers of that name. *)
Lemma plain_name_tells_none :
  exists r, run_ops empty some_ops = Some r /\
    (fire rising note_it (fun _ : log => false) 1 (js "click") (r, [])).2.2 = [].
Proof. eexists. split; [done|]. vm_compute. reflexivity. Qed.
End Fire.
