(* ===== verification/EditPlace.v ===== *)
(** * Editing in place

    [Ajax.InPlaceEditor] turns an element into a form when it is clicked, sends
    what was entered, and shows the answer in the element.  Here are the state of
    an editor with its element, its form and the requests that are not answered
    yet, and its handlers.  The editor with a list of choices is the same but for
    the making of the field and the answers to the requests for it. *)
From S2P Require Import Prelude JsString Json JsMonad ProtoText ProtoStr JsUri ProtoQuery ProtoForm.

Module Edit.
Import Js.

(** ** Options *)

Inductive kind := KButton | KLink | KNone.
(** A function among the options: none, the one that the library has, or one of
    the page, which may throw. *)
Inductive callback := NoCallback | Default | Given (throws : option exn).
Inductive mode := Ok | Cancel.
Inductive activation := Activate | JustFocus | NoActivation.

Record options := Options {
  okControl : kind; cancelControl : kind; okText : jstring; cancelText : jstring;
  textBeforeControls : jstring; textBetweenControls : jstring; textAfterControls : jstring;
  hasExternalControl : bool; externalControlOnly : bool;
  loadTextURL : option jstring; loadingText : jstring; loadingClassName : jstring;
  stripLoadedTextTags : bool; submitOnBlur : bool; fieldPostCreation : activation;
  rows : Z; autoRows : Z; cols : Z; size : Z;             (** 0 for what is not given *)
  paramName : jstring; formId : jstring; formClassName : jstring;
  savingText : jstring; savingClassName : jstring; hoverClassName : jstring;
  highlightColor : jstring; htmlResponse : bool; url : jstring;
  clickToEditText : jstring;
  onEnterEditMode : callback; onLeaveEditMode : callback;
  onEnterHover : callback; onLeaveHover : callback;
  onFailure : callback; onComplete : callback; onFormCustomization : callback;
  (** [callback(form, value)]: the parameters, as an object or a text *)
  params_of : list Form.control -> jstring -> Text.outcome (Query.object + jstring)
}.

(** ** State *)

Record element := Elem {
  id : jstring; innerHTML : jstring; shown : bool;
  classes : list jstring; backgroundColor : jstring; title : jstring
}.

(** The field with the attributes that a control does not have. *)
Record field := Field { f_control : Form.control; f_size : Z; f_rows : Z; f_cols : Z; f_class : jstring; f_onblur : bool }.

Inductive item :=
  | TheField | Break | Words (t : jstring)
  | Button (m : mode) (text class : jstring) | Link (m : mode) (text class : jstring).
Record form := Form_ { form_id : jstring; form_classes : list jstring; items : list item; inserted : bool }.

Inductive request := Save | Load | LoadCollection.

Inductive call :=
  | Called (name : string) | Sent (r : request) (url : jstring) (p : Query.object + jstring)
  | Highlight | CancelEffect | Focus | ActivateLater | Stopped.

Record editor := Editor {
  el : element; externalShown : bool;
  editing : bool; saving : bool;
  the_form : option form; the_field : option field;      (** [_form], [_controls.editor] *)
  oldInnerHTML : option jstring; originalBackground : jstring;
  effect : bool; listening : bool;
  pending : list (nat * request); next_request : nat;
  collection : list (jstring + jstring * jstring); text : jstring;   (** of the editor with choices *)
  calls : list call
}.

Definition set_el f s := Editor (f (el s)) (externalShown s) (editing s) (saving s) (the_form s) (the_field s) (oldInnerHTML s) (originalBackground s) (effect s) (listening s) (pending s) (next_request s) (collection s) (text s) (calls s).
Definition set_externalShown b s := Editor (el s) b (editing s) (saving s) (the_form s) (the_field s) (oldInnerHTML s) (originalBackground s) (effect s) (listening s) (pending s) (next_request s) (collection s) (text s) (calls s).
Definition set_editing b s := Editor (el s) (externalShown s) b (saving s) (the_form s) (the_field s) (oldInnerHTML s) (originalBackground s) (effect s) (listening s) (pending s) (next_request s) (collection s) (text s) (calls s).
Definition set_saving b s := Editor (el s) (externalShown s) (editing s) b (the_form s) (the_field s) (oldInnerHTML s) (originalBackground s) (effect s) (listening s) (pending s) (next_request s) (collection s) (text s) (calls s).
Definition set_form o s := Editor (el s) (externalShown s) (editing s) (saving s) o (the_field s) (oldInnerHTML s) (originalBackground s) (effect s) (listening s) (pending s) (next_request s) (collection s) (text s) (calls s).
Definition set_field o s := Editor (el s) (externalShown s) (editing s) (saving s) (the_form s) o (oldInnerHTML s) (originalBackground s) (effect s) (listening s) (pending s) (next_request s) (collection s) (text s) (calls s).
Definition set_old o s := Editor (el s) (externalShown s) (editing s) (saving s) (the_form s) (the_field s) o (originalBackground s) (effect s) (listening s) (pending s) (next_request s) (collection s) (text s) (calls s).
Definition set_effect b s := Editor (el s) (externalShown s) (editing s) (saving s) (the_form s) (the_field s) (oldInnerHTML s) (originalBackground s) b (listening s) (pending s) (next_request s) (collection s) (text s) (calls s).
Definition set_listening b s := Editor (el s) (externalShown s) (editing s) (saving s) (the_form s) (the_field s) (oldInnerHTML s) (originalBackground s) (effect s) b (pending s) (next_request s) (collection s) (text s) (calls s).
Definition set_pending l n s := Editor (el s) (externalShown s) (editing s) (saving s) (the_form s) (the_field s) (oldInnerHTML s) (originalBackground s) (effect s) (listening s) l n (collection s) (text s) (calls s).
Definition set_collection l s := Editor (el s) (externalShown s) (editing s) (saving s) (the_form s) (the_field s) (oldInnerHTML s) (originalBackground s) (effect s) (listening s) (pending s) (next_request s) l (text s) (calls s).
Definition set_text t s := Editor (el s) (externalShown s) (editing s) (saving s) (the_form s) (the_field s) (oldInnerHTML s) (originalBackground s) (effect s) (listening s) (pending s) (next_request s) (collection s) t (calls s).
Definition log c s := Editor (el s) (externalShown s) (editing s) (saving s) (the_form s) (the_field s) (oldInnerHTML s) (originalBackground s) (effect s) (listening s) (pending s) (next_request s) (collection s) (text s) (calls s ++ [c]).

Definition set_html h e := Elem (id e) h (shown e) (classes e) (backgroundColor e) (title e).
Definition set_shown b e := Elem (id e) (innerHTML e) b (classes e) (backgroundColor e) (title e).
Definition set_classes l e := Elem (id e) (innerHTML e) (shown e) l (backgroundColor e) (title e).
Definition set_background c e := Elem (id e) (innerHTML e) (shown e) (classes e) c (title e).

(** [addClassName] and [removeClassName] on the words of the class attribute. *)
Definition add_class (c : jstring) (l : list jstring) : list jstring := if bool_decide (c ∈ l) then l else l ++ [c].
Fixpoint remove_class (c : jstring) (l : list jstring) : list jstring :=
  match l with [] => [] | d :: l => if bool_decide (c = d) then l else d :: remove_class c l end.
Definition el_add (c : jstring) e := set_classes (add_class c (classes e)) e.
Definition el_remove (c : jstring) e := set_classes (remove_class c (classes e)) e.
Definition form_class (f : list jstring -> list jstring) (fm : form) : form :=
  Form_ (form_id fm) (f (form_classes fm)) (items fm) (inserted fm).
Definition append (i : item) (fm : form) : form := Form_ (form_id fm) (form_classes fm) (items fm ++ [i]) (inserted fm).
Definition insert (fm : form) : form := Form_ (form_id fm) (form_classes fm) (items fm) true.
Definition on_control (f : Form.control -> Form.control) (fd : field) : field :=
  Field (f (f_control fd)) (f_size fd) (f_rows fd) (f_cols fd) (f_class fd) (f_onblur fd).

Section Edit.
Variable opts : options.
Variable builtin : jstring -> jstring.
Notation M := (M editor).

(** [$(this._form)] and [this._controls.editor], which must be there. *)
Definition on_form (f : form -> form) : M unit := s ← get; fm ← need (the_form s); modify (set_form (Some (f fm))).
Definition on_field (f : field -> field) : M unit := s ← get; fd ← need (the_field s); modify (set_field (Some (f fd))).

Definition page (name : string) (throws : option exn) : M unit :=
  modify (log (Called name));; match throws with Some e => throw e | None => mret tt end.

(** src/piql/scadr/src/main/rails/public/javascripts/controls.js:729-733
    [triggerCallback(cbName, arg)], for a function with the body [default] in the
    library. *)
Definition triggerCallback (name : string) (c : callback) (default : M unit) : M unit :=
  match c with NoCallback => mret tt | Default => default | Given t => page name t end.

(** src/piql/scadr/src/main/rails/public/javascripts/controls.js:911-915
    [DefaultCallbacks.onEnterHover(ipe)] *)
Definition default_onEnterHover : M unit :=
  modify (set_el (set_background (highlightColor opts)));;
  s ← get; when (effect s) (modify (log CancelEffect)).

(** src/piql/scadr/src/main/rails/public/javascripts/controls.js:921-926
    [DefaultCallbacks.onLeaveHover(ipe)]; the colours that the effect sets are
    those of the effect. *)
Definition default_onLeaveHover : M unit := modify (log Highlight);; modify (set_effect true).

(** src/piql/scadr/src/main/rails/public/javascripts/controls.js:916-918
    [DefaultCallbacks.onFailure(transport, ipe)]: it is called with the editor in
    the place of the transport, which has no [responseText]. *)
Definition default_onFailure : M unit := throw TypeError.

(** src/piql/scadr/src/main/rails/public/javascripts/controls.js:904-909
    [DefaultCallbacks.onComplete(transport, element)] *)
Definition default_onComplete : M unit := modify (log Highlight).

(** src/piql/scadr/src/main/rails/public/javascripts/controls.js:606-608
    [getText()] *)
Definition getText (s : editor) : jstring := Str.unescapeHTML (innerHTML (el s)).

(** [/\r|\n/.test] *)
Definition many_lines (t : jstring) : bool := existsb (fun c => (c =? 13) || (c =? 10)) t.

(** src/piql/scadr/src/main/rails/public/javascripts/controls.js:600-605
    [enterHover(e)] *)
Definition enterHover : M unit :=
  when (negb (bool_decide (hoverClassName opts = []))) (modify (set_el (el_add (hoverClassName opts))));;
  s ← get;
  if saving s then mret tt else triggerCallback "onEnterHover" (onEnterHover opts) default_onEnterHover.

(** src/piql/scadr/src/main/rails/public/javascripts/controls.js:660-665
    [leaveHover(e)] *)
Definition leaveHover : M unit :=
  when (negb (bool_decide (hoverClassName opts = []))) (modify (set_el (el_remove (hoverClassName opts))));;
  s ← get;
  if saving s then mret tt else triggerCallback "onLeaveHover" (onLeaveHover opts) default_onLeaveHover.

(** src/piql/scadr/src/main/rails/public/javascripts/controls.js:716-721
    [removeForm()] *)
Definition removeForm : M unit :=
  s ← get;
  match the_form s with None => mret tt | Some _ => modify (set_form None);; modify (set_field None) end.

(** src/piql/scadr/src/main/rails/public/javascripts/controls.js:647-659
    [leaveEditMode()] *)
Definition leaveEditMode : M unit :=
  modify (set_el (el_remove (savingClassName opts)));;
  removeForm;;
  leaveHover;;
  modify (fun s => set_el (set_background (originalBackground s)) s);;
  modify (set_el (set_shown true));;
  when (hasExternalControl opts) (modify (set_externalShown true));;
  modify (set_saving false);;
  modify (set_editing false);;
  modify (set_old None);;
  triggerCallback "onLeaveEditMode" (onLeaveEditMode opts) (mret tt).

(** src/piql/scadr/src/main/rails/public/javascripts/controls.js:742-747
    [wrapUp(transport)] *)
Definition wrapUp : M unit :=
  leaveEditMode;;
  triggerCallback "onComplete" (onComplete opts) default_onComplete.

(** src/piql/scadr/src/main/rails/public/javascripts/controls.js:609-615
    [handleAJAXFailure(transport)]: an empty text is not put back. *)
Definition handleAJAXFailure : M unit :=
  triggerCallback "onFailure" (onFailure opts) default_onFailure;;
  s ← get;
  match oldInnerHTML s with
  | Some ((_ :: _) as h) => modify (set_el (set_html h));; modify (set_old None)
  | _ => mret tt
  end.

(** src/piql/scadr/src/main/rails/public/javascripts/controls.js:616-619
    [handleFormCancellation(e)] *)
Definition handleFormCancellation : M unit := wrapUp;; modify (log Stopped).

(** src/piql/scadr/src/main/rails/public/javascripts/controls.js:722-728
    [showSaving()] *)
Definition showSaving : M unit :=
  modify (fun s => set_old (Some (innerHTML (el s))) s);;
  modify (set_el (set_html (savingText opts)));;
  modify (set_el (el_add (savingClassName opts)));;
  modify (fun s => set_el (set_background (originalBackground s)) s);;
  modify (set_el (set_shown true)).

(** src/piql/scadr/src/main/rails/public/javascripts/controls.js:698-703
    [prepareSubmission()] *)
Definition prepareSubmission : M unit :=
  modify (set_saving true);; removeForm;; leaveHover;; showSaving.

(** The buttons of a form as controls: they have no names. *)
Definition control_of (fd : field) (i : item) : list Form.control :=
  match i with
  | TheField => [f_control fd]
  | Button _ t _ => [Form.Control (js "INPUT") (js "submit") [] t false false [] None]
  | _ => []
  end.
Definition form_controls (fd : field) (fm : form) : list Form.control := concat (map (control_of fd) (items fm)).

(** A result of the pure functions: what they throw is thrown. *)
Definition lift {A} (o : Text.outcome A) : M A :=
  match o with Text.Returns a => mret a | Text.Throws => throw TypeError | Text.Diverges => throw Hang end.

(** [new Ajax.Request(url, options)]: the request is sent and not answered yet. *)
Definition send (r : request) (url : jstring) (p : Query.object + jstring) : M unit :=
  modify (fun s => set_pending (pending s ++ [(next_request s, r)]) (S (next_request s)) s);; modify (log (Sent r url p)).

(** [options.callback(form, value) || ""], read as a query string if it is a text *)
Definition submitted (fm : form) (fd : field) (value : jstring) : Text.outcome Query.object :=
  p ← params_of opts (form_controls fd fm) value;
  match p with inl o => mret o | inr q => Query.toQueryParams builtin None q end.

(** [$F] of the field: of an element that is not there it throws. *)
Definition value_of (v : Json.jval) : jstring := match v with Json.VStr t => t | v => Text.to_string v end.

(** src/piql/scadr/src/main/rails/public/javascripts/controls.js:620-646
    [handleFormSubmission(e)]; the two kinds of requests differ in what they do
    with the answer. *)
Definition handleFormSubmission : M unit :=
  s ← get;
  fd ← need (the_field s);
  value ← lift (Form.getValue (f_control fd));
  fm ← need (the_form s);
  prepareSubmission;;
  params ← lift (submitted fm fd (value_of value));
  send Save (url opts) (inl (Query.set_own (js "editorId") (Json.VStr (id (el s))) params));;
  modify (log Stopped).

(** [Event.KEY_ESC] and [Event.KEY_RETURN] *)
Definition KEY_ESC : Z := 27.
Definition KEY_RETURN : Z := 13.

(** src/piql/scadr/src/main/rails/public/javascripts/controls.js:505-511
    [checkForEscapeOrReturn(e)]; [modified] says that Ctrl, Alt or Shift is down. *)
Definition checkForEscapeOrReturn (keyCode : Z) (modified : bool) : M unit :=
  s ← get;
  if negb (editing s) || modified then mret tt
  else if keyCode =? KEY_ESC then handleFormCancellation
  else if keyCode =? KEY_RETURN then handleFormSubmission
  else mret tt.

(** src/piql/scadr/src/main/rails/public/javascripts/controls.js:686-690
    [postProcessEditField()] *)
Definition postProcessEditField : M unit :=
  match fieldPostCreation opts with
  | NoActivation => mret tt
  | a => s ← get; _ ← need (the_field s);
         modify (log match a with JustFocus => Focus | _ => ActivateLater end)
  end.

(** src/piql/scadr/src/main/rails/public/javascripts/controls.js:666-685
    [loadExternalText()]: the request. *)
Definition loadExternalText (address : jstring) : M unit :=
  on_form (form_class (add_class (loadingClassName opts)));;
  on_field (on_control (Form.set_disabled true));;
  s ← get;
  q ← lift (Uri.encodeURIComponent (id (el s)));
  send Load address (inr (js "editorId=" ++ q)).

(** Its [onSuccess(transport)], lines 673 to 681. *)
Definition text_loaded (responseText : jstring) : M unit :=
  on_form (form_class (remove_class (loadingClassName opts)));;
  let t := if stripLoadedTextTags opts then Str.stripTags responseText else responseText in
  on_field (on_control (Form.set_value t));;
  on_field (on_control (Form.set_disabled false));;
  postProcessEditField.

(** src/piql/scadr/src/main/rails/public/javascripts/controls.js:536-558
    [createEditField()] *)
Definition createEditField : M unit :=
  s ← get;
  let t := match loadTextURL opts with Some _ => loadingText opts | None => getText s end in
  let control tag type := Form.Control tag type (paramName opts) t false false [] None in
  let fd :=
    if (rows opts <=? 1) && negb (many_lines (getText s)) then
      let n := if size opts =? 0 then cols opts else size opts in
      Field (control (js "INPUT") (js "text")) (if 0 <? n then n else 0) 0 0 (js "editor_field") (submitOnBlur opts)
    else
      Field (control (js "TEXTAREA") (js "textarea")) 0
        (if rows opts <=? 1 then autoRows opts else rows opts) (if cols opts =? 0 then 40 else cols opts)
        (js "editor_field") (submitOnBlur opts) in
  modify (set_field (Some fd));;
  match loadTextURL opts with Some a => loadExternalText a | None => mret tt end;;
  on_form (append TheField).

(** src/piql/scadr/src/main/rails/public/javascripts/controls.js:512-535
    [createControl(mode, handler, extraClasses)] *)
Definition createControl (m : mode) (extraClasses : jstring) : M unit :=
  let control := match m with Ok => okControl opts | Cancel => cancelControl opts end in
  let t := match m with Ok => okText opts | Cancel => cancelText opts end in
  let name := match m with Ok => js "ok" | Cancel => js "cancel" end in
  match control with
  | KButton => on_form (append (Button m t (js "editor_" ++ name ++ js "_button")))
  | KLink =>
      let class := js "editor_" ++ name ++ js "_link" in
      on_form (append (Link m t (match extraClasses with [] => class | x => class ++ [c_space] ++ x end)))
  | KNone => mret tt
  end.

(** [addText(mode, condition)] of [createForm] *)
Definition addText (t : jstring) (condition : bool) : M unit :=
  match t with [] => mret tt | _ => when condition (on_form (append (Words t))) end.
Definition given (k : kind) : bool := match k with KNone => false | _ => true end.

(** The making of the field and the handling of the answers, which differ between
    the two editors. *)
Variable make_field : M unit.
Variable loaded : request -> jstring -> M unit.
Variable load_failed : M unit.

(** src/piql/scadr/src/main/rails/public/javascripts/controls.js:559-580
    [createForm()]: a text between the controls is left out if the option is
    [false]. *)
Definition createForm : M unit :=
  modify (set_form (Some (Form_ (formId opts) (add_class (formClassName opts) []) [] false)));;
  make_field;;
  s ← get; fd ← need (the_field s);
  when (bool_decide (toLowerCase (Form.c_tag (f_control fd)) = js "textarea")) (on_form (append Break));;
  triggerCallback "onFormCustomization" (onFormCustomization opts) (mret tt);;
  addText (textBeforeControls opts) (given (okControl opts) || given (cancelControl opts));;
  createControl Ok [];;
  addText (textBetweenControls opts) (given (okControl opts) && given (cancelControl opts));;
  createControl Cancel (js "editor_cancel");;
  addText (textAfterControls opts) (given (okControl opts) || given (cancelControl opts)).

(** src/piql/scadr/src/main/rails/public/javascripts/controls.js:587-599
    [enterEditMode(e)] *)
Definition enterEditMode : M unit :=
  s ← get;
  if saving s || editing s then mret tt
  else
    modify (set_editing true);;
    triggerCallback "onEnterEditMode" (onEnterEditMode opts) (mret tt);;
    when (hasExternalControl opts) (modify (set_externalShown false));;
    modify (set_el (set_shown false));;
    createForm;;
    on_form insert;;
    when (negb (is_some (loadTextURL opts))) postProcessEditField;;
    modify (log Stopped).

(** src/piql/scadr/src/main/rails/public/javascripts/controls.js:704-715
    [registerListeners()] and [unregisterListeners()] of lines 734 to 741: all
    four events at once. *)
Definition registerListeners : M unit := modify (set_listening true).

(** src/piql/scadr/src/main/rails/public/javascripts/controls.js:734-741
    [unregisterListeners()] *)
Definition unregisterListeners : M unit := modify (set_listening false).

(** src/piql/scadr/src/main/rails/public/javascripts/controls.js:581-586
    [destroy()] *)
Definition destroy : M unit :=
  s ← get;
  match oldInnerHTML s with Some ((_ :: _) as h) => modify (set_el (set_html h)) | _ => mret tt end;;
  leaveEditMode;;
  unregisterListeners.

(** ** Events *)

Inductive event :=
  | Click | Key (code : Z) (modified : bool) | Over | Out   (** at the element *)
  | Type_ (t : jstring) | Pick (i : nat)                    (** in the field *)
  | Submit | CancelClick                                    (** in the form *)
  | Answer (n : nat) (success : bool) (responseText : jstring)
  | Destroy.

(** [onSuccess] or [onFailure] and then [onComplete] of a request: what they throw
    is given to [onException]. *)
Definition answered (r : request) (success : bool) (t : jstring) : M unit :=
  match r with
  | Save =>
      if success then
        caught (when (htmlResponse opts) (modify (set_el (set_html (Str.stripScripts t))));; wrapUp)
      else caught handleAJAXFailure;; caught wrapUp
  | _ => if success then caught (loaded r t) else caught load_failed
  end.

Definition in_form (m : M unit) : M unit :=
  s ← get; match the_form s with Some fm => when (inserted fm) m | None => mret tt end.
(** The user enters something, if the field is not disabled. *)
Definition by_user (f : Form.control -> Form.control) : M unit :=
  in_form (s ← get;
    match the_field s with
    | Some fd => when (negb (Form.c_disabled (f_control fd))) (on_field (on_control f))
    | None => mret tt
    end).
Definition heard (m : M unit) : M unit := s ← get; when (listening s) m.

Definition step (e : event) : M unit :=
  match e with
  | Click => heard enterEditMode
  | Key c m => heard (checkForEscapeOrReturn c m)
  | Over => heard enterHover
  | Out => heard leaveHover
  | Type_ t => by_user (Form.set_value t)
  | Pick i => by_user (fun c => Form.set_options (Form.only_at i (Form.c_options c)) c)
  | Submit => in_form handleFormSubmission
  | CancelClick => in_form handleFormCancellation
  | Answer n ok t =>
      s ← get;
      match head (filter (fun p => p.1 = n) (pending s)) with
      | Some (_, r) =>
          modify (fun s => set_pending (filter (fun p => p.1 <> n) (pending s)) (next_request s) s);;
          answered r ok t
      | None => mret tt
      end
  | Destroy => destroy
  end.

(** The page goes on after an exception. *)
Definition after (m : M unit) (s : editor) : editor := (m s).2.
Definition run (es : list event) (s : editor) : editor := fold_left (fun s e => after (step e) s) es s.
End Edit.

(** src/piql/scadr/src/main/rails/public/javascripts/controls.js:480-504
    [initialize(element, url, options)]: the state of a new editor. *)
Definition initialize (opts : options) (e : element) : editor :=
  let bg := match backgroundColor e with [] => js "transparent" | b => b end in
  Editor (Elem (id e) (innerHTML e) (shown e) (classes e) (backgroundColor e) (clickToEditText opts))
    true false false None None None bg false true [] 0 [] [] [].

(** src/piql/scadr/src/main/rails/public/javascripts/controls.js:857-870
    [dealWithDeprecatedOptions(options)]: what the two old options for a control
    give; [None] leaves the option alone.  [undefined] equals itself, and no
    boolean. *)
Definition deprecated_control (link button : option bool) : option kind :=
  match link, button with
  | Some true, _ => Some KLink
  | _, Some true => Some KButton
  | _, _ => if bool_decide (link = button) then None else Some KNone
  end.

(** The plain editor. *)
Definition plain_loaded (opts : options) (r : request) (t : jstring) : M editor unit := text_loaded opts t.
Definition plain_run (opts : options) (builtin : jstring -> jstring) : list event -> editor -> editor :=
  run opts builtin (createEditField opts) (plain_loaded opts) (handleAJAXFailure opts).
End Edit.
