(* ===== verification/EditSafe.v ===== *)
(** * An editor is idle, editing or saving

    Through any events - clicks, keys, answers that come late or never - an editor
    in place is in one of three modes, which the flags, the form, the element and
    the external control agree on, and the events lead from one mode to the other
    as they are meant to. *)
From S2P Require Import Prelude JsString Json JsMonad ProtoText ProtoStr JsUri ProtoQuery ProtoForm EditPlace.

Module EditSafe.
Import Js Edit.

Inductive amode := Idle | Editing | Saving.

Section modes.
Variable opts : options.
Variable builtin : jstring -> jstring.

(** What the page has to provide: the handlers that are called in the middle of a
    change of mode do not throw, and none hangs. *)
Definition returns (c : callback) : Prop := match c with Given (Some _) => False | _ => True end.
Definition ends_ (c : callback) : Prop := c <> Given (Some Hang).
Definition calm : Prop :=
  returns (onEnterEditMode opts) /\ returns (onFormCustomization opts) /\ returns (onLeaveHover opts) /\
  ends_ (onLeaveEditMode opts) /\ ends_ (onFailure opts) /\ ends_ (onComplete opts) /\ ends_ (onEnterHover opts).

(** The field of an editor, and a form with one field. *)
Definition proper (c : Form.control) : Prop :=
  is_some (Form.serializer_of c) = true /\ Form.c_name c = paramName opts /\
  Form.c_type c <> js "submit" /\ Form.c_type c <> js "file".
Definition is_field (i : item) : bool := match i with TheField => true | _ => false end.
Definition fields (fm : form) : list item := List.filter is_field (items fm).

Definition shape (m : amode) (s : editor) : Prop :=
  match m with
  | Idle => editing s = false /\ saving s = false /\ the_form s = None /\ the_field s = None /\
            shown (el s) = true /\ externalShown s = true
  | Editing => editing s = true /\ saving s = false /\
               (exists fm fd, the_form s = Some fm /\ inserted fm = true /\ fields fm = [TheField] /\
                  the_field s = Some fd /\ proper (f_control fd)) /\
               shown (el s) = false /\ externalShown s = negb (hasExternalControl opts)
  | Saving => editing s = true /\ saving s = true /\ the_form s = None /\ the_field s = None /\
              shown (el s) = true /\ externalShown s = negb (hasExternalControl opts)
  end.

(** ** The parts that change neither mode nor text *)

Definition quiet (s s' : editor) : Prop :=
  editing s' = editing s /\ saving s' = saving s /\ the_form s' = the_form s /\ the_field s' = the_field s /\
  oldInnerHTML s' = oldInnerHTML s /\ externalShown s' = externalShown s /\ listening s' = listening s /\
  pending s' = pending s /\ next_request s' = next_request s /\ originalBackground s' = originalBackground s /\
  id (el s') = id (el s) /\ innerHTML (el s') = innerHTML (el s) /\ shown (el s') = shown (el s).

#[export] Instance quiet_preorder : PreOrder quiet.
Proof. split; [by intros s|]. intros s1 s2 s3. unfold quiet. intuition congruence. Qed.

Lemma quiet_shape m s s' : quiet s s' -> shape m s -> shape m s'.
Proof.
  intros (H1 & H2 & H3 & H4 & _ & H6 & _ & _ & _ & _ & _ & _ & H13). unfold shape. by rewrite H1, H2, H3, H4, H6, H13.
Qed.

Section wp.
Variable X : exn -> editor -> Prop.
Notation wp := (wp X).

(** A computation that is quiet whether it throws or not. *)
Definition hushed (m : M editor unit) : Prop := forall Q s,
  (forall s', quiet s s' -> Q tt s') -> (forall e s', e <> Hang -> quiet s s' -> X e s') -> wp m Q s.
(** And one that returns. *)
Definition silent (m : M editor unit) : Prop := forall Q s, (forall s', quiet s s' -> Q tt s') -> wp m Q s.

Lemma silent_hushed m : silent m -> hushed m.
Proof. intros Hm Q s HQ _. by apply Hm. Qed.

Lemma silent_modify f : (forall s, quiet s (f s)) -> silent (modify f).
Proof. intros Hf Q s HQ. apply wp_modify, HQ, Hf. Qed.

Lemma silent_seq m k : silent m -> silent k -> silent (m;; k).
Proof.
  intros Hm Hk Q s HQ. apply wp_bind, Hm. intros s1 H1. apply Hk. intros s2 H2. apply HQ. by transitivity s1.
Qed.

Lemma silent_when b m : silent m -> silent (when b m).
Proof. intros Hm Q s HQ. apply wp_when; intros _; [by apply Hm|by apply HQ]. Qed.

Lemma silent_get (f : editor -> M editor unit) : (forall s, silent (f s)) -> silent (s ← get; f s).
Proof. intros Hf Q s HQ. apply wp_bind, wp_get, Hf, HQ. Qed.

Lemma silent_ret : silent (mret tt).
Proof. intros Q s HQ. by apply HQ. Qed.

Lemma silent_callback name c d : returns c -> silent d -> silent (triggerCallback name c d).
Proof.
  intros Hc Hd. destruct c as [| |[e|]]; [apply silent_ret|done|done|]. cbn [triggerCallback]. unfold page.
  apply silent_seq; [by apply silent_modify; intros ?; repeat split|apply silent_ret].
Qed.

Lemma hushed_callback name c d : ends_ c -> silent d -> hushed (triggerCallback name c d).
Proof.
  intros Hc Hd. destruct c as [| |[e|]]; [apply silent_hushed, silent_ret|by apply silent_hushed| |].
  - intros Q s HQ HX. cbn [triggerCallback]. unfold page. apply wp_bind, wp_modify, wp_throw, HX; [|done]. congruence.
  - apply silent_hushed. cbn [triggerCallback]. unfold page. apply silent_seq; [by apply silent_modify; intros ?; repeat split|apply silent_ret].
Qed.

Ltac silently :=
  lazymatch goal with
  | |- silent (mbind _ get) => apply silent_get; intros ?; silently
  | |- silent (mbind _ _) => apply silent_seq; silently
  | |- silent (when _ _) => apply silent_when; silently
  | |- silent (mret tt) => apply silent_ret
  | |- silent (modify _) => apply silent_modify; intros ?; repeat split
  | |- _ => idtac
  end.

Hypothesis Hcalm : calm.

Lemma leaveHover_silent : silent (leaveHover opts).
Proof.
  destruct Hcalm as (_ & _ & Hh & _). unfold leaveHover. silently. destruct (saving _); [silently|].
  apply silent_callback; [done|]. unfold default_onLeaveHover. silently.
Qed.

(** ** Leaving *)

(** What leaving the edit mode does. *)
Definition left_mode (s s' : editor) : Prop :=
  shape Idle s' /\ oldInnerHTML s' = None /\ innerHTML (el s') = innerHTML (el s) /\ id (el s') = id (el s) /\
  listening s' = listening s /\ pending s' = pending s /\ next_request s' = next_request s.

Lemma removeForm_wp Q s : (the_form s = None -> the_field s = None) ->
  Q tt (set_field None (set_form None s)) -> (the_form s = None -> Q tt s) -> wp removeForm Q s.
Proof.
  intros Hf H1 H2. unfold removeForm. apply wp_bind, wp_get. destruct (the_form s); [|by apply wp_ret, H2].
  apply wp_bind, wp_modify, wp_modify, H1.
Qed.

Lemma leaveEditMode_wp Q s :
  (the_form s = None -> the_field s = None) -> (hasExternalControl opts = false -> externalShown s = true) ->
  (forall s', left_mode s s' -> Q tt s') -> (forall e s', e <> Hang -> left_mode s s' -> X e s') ->
  wp (leaveEditMode opts) Q s.
Proof.
  intros Hf He HQ HX. destruct Hcalm as (_ & _ & _ & Hl & _). unfold leaveEditMode.
  apply wp_bind, wp_modify, wp_bind. set (s1 := set_el _ s).
  assert (forall s2, editing s2 = editing s /\ the_form s2 = None /\ the_field s2 = None /\ externalShown s2 = externalShown s /\
    innerHTML (el s2) = innerHTML (el s) /\ id (el s2) = id (el s) /\ listening s2 = listening s /\
    pending s2 = pending s /\ next_request s2 = next_request s ->
    wp (leaveHover opts;; modify (fun s => set_el (set_background (originalBackground s)) s);; modify (set_el (set_shown true));;
        when (hasExternalControl opts) (modify (set_externalShown true));; modify (set_saving false);; modify (set_editing false);;
        modify (set_old None);; triggerCallback "onLeaveEditMode" (onLeaveEditMode opts) (mret tt)) Q s2) as H2.
  { intros s2 (E1 & E2 & E3 & E4 & E5 & E6 & E7 & E8 & E9). apply wp_bind, leaveHover_silent.
    intros s3 (F1 & F2 & F3 & F4 & F5 & F6 & F7 & F8 & F9 & _ & F11 & F12 & F13). do 2 apply wp_bind, wp_modify. apply wp_bind.
    assert (forall s4, left_mode s (set_old None (set_editing false (set_saving false s4))) ->
      wp (modify (set_saving false);; modify (set_editing false);; modify (set_old None);;
          triggerCallback "onLeaveEditMode" (onLeaveEditMode opts) (mret tt)) Q s4) as H4.
    { intros s4 H4. do 3 apply wp_bind, wp_modify.
      assert (forall s', quiet (set_old None (set_editing false (set_saving false s4))) s' -> left_mode s s') as H5.
      { intros s' Hq. destruct H4 as (G1 & G2 & G3 & G4 & G5 & G6 & G7). split; [by eapply quiet_shape|].
        destruct Hq as (_ & _ & _ & _ & Q5 & _ & Q7 & Q8 & Q9 & _ & Q11 & Q12 & _). repeat split; congruence. }
      apply (hushed_callback _ _ _ Hl silent_ret); [by auto|intros; by auto]. }
    apply wp_when; intros Hx; [apply wp_modify|]; apply H4; unfold left_mode, shape; cbn; repeat split; try congruence.
    rewrite F6, E4. by apply He. }
  apply removeForm_wp; [done| |]; intros; apply H2; unfold s1; repeat split; auto.
Qed.

Lemma wrapUp_wp Q s :
  (the_form s = None -> the_field s = None) -> (hasExternalControl opts = false -> externalShown s = true) ->
  (forall s', left_mode s s' -> Q tt s') -> (forall e s', e <> Hang -> left_mode s s' -> X e s') ->
  wp (wrapUp opts) Q s.
Proof.
  intros Hf He HQ HX. destruct Hcalm as (_ & _ & _ & _ & _ & Hc & _). unfold wrapUp. apply wp_bind, leaveEditMode_wp; [done..| |done].
  intros s1 H1.
  assert (forall s', quiet s1 s' -> left_mode s s') as H2.
  { intros s' Hq. destruct H1 as (G1 & G2 & G3 & G4 & G5 & G6 & G7). split; [by eapply quiet_shape|].
    destruct Hq as (_ & _ & _ & _ & Q5 & _ & Q7 & Q8 & Q9 & _ & Q11 & Q12 & _). repeat split; congruence. }
  apply hushed_callback; [done| |by auto|intros; by auto]. unfold default_onComplete. apply silent_modify. intros ?. repeat split.
Qed.
(** ** Failures *)

(** Everything but the text of the element and what is kept of it. *)
Definition same_mode (s s' : editor) : Prop :=
  editing s' = editing s /\ saving s' = saving s /\ the_form s' = the_form s /\ the_field s' = the_field s /\
  externalShown s' = externalShown s /\ listening s' = listening s /\ id (el s') = id (el s) /\ shown (el s') = shown (el s) /\
  pending s' = pending s.

Lemma quiet_same s s' : quiet s s' -> same_mode s s'.
Proof. intros Hq. unfold quiet in Hq. unfold same_mode. intuition. Qed.

Lemma same_shape m s s' : same_mode s s' -> shape m s -> shape m s'.
Proof. intros (H1 & H2 & H3 & H4 & H6 & _ & _ & H13 & _). unfold shape. by rewrite H1, H2, H3, H4, H6, H13. Qed.

Lemma handleAJAXFailure_wp Q s :
  (forall s', same_mode s s' -> Q tt s') -> (forall e s', e <> Hang -> same_mode s s' -> X e s') ->
  wp (handleAJAXFailure opts) Q s.
Proof.
  intros HQ HX. destruct Hcalm as (_ & _ & _ & _ & Hf & _). unfold handleAJAXFailure. apply wp_bind.
  assert (forall s1, quiet s s1 -> wp (s ← get; match oldInnerHTML s with
    | Some ((_ :: _) as h) => modify (set_el (set_html h));; modify (set_old None) | _ => mret tt end) Q s1) as H1.
  { intros s1 H1. apply wp_bind, wp_get. pose proof (quiet_same _ _ H1) as Hs.
    destruct (oldInnerHTML s1) as [[|c h]|]; [by apply wp_ret, HQ| |by apply wp_ret, HQ].
    apply wp_bind, wp_modify, wp_modify, HQ. exact Hs. }
  destruct (onFailure opts) as [| |[e|]]; cbn [triggerCallback].
  - apply wp_ret, H1. done.
  - apply wp_throw, HX; [done|]. by apply quiet_same.
  - unfold page. apply wp_bind, wp_modify, wp_throw, HX; [unfold ends_ in Hf; congruence|]. apply quiet_same. repeat split.
  - unfold page. apply wp_bind, wp_modify, wp_ret, H1. repeat split.
Qed.

(** ** Submitting *)

Definition saved (s s' : editor) : Prop :=
  shape Saving s' /\ id (el s') = id (el s) /\ innerHTML (el s') = savingText opts /\
  oldInnerHTML s' = Some (innerHTML (el s)) /\ listening s' = listening s /\
  pending s' = pending s /\ next_request s' = next_request s.

Lemma prepareSubmission_wp Q s : shape Editing s -> (forall s', saved s s' -> Q tt s') -> wp (prepareSubmission opts) Q s.
Proof.
  intros (E1 & E2 & (fm & fd & E3 & E4 & Ef & E5 & E6) & E7 & E8) HQ. unfold prepareSubmission.
  apply wp_bind, wp_modify, wp_bind, removeForm_wp; cbn [the_form set_saving]; rewrite ?E3; [done| |done].
  apply wp_bind, leaveHover_silent. intros s1 (F1 & F2 & F3 & F4 & F5 & F6 & F7 & F8 & F9 & F10 & F11 & F12 & F13).
  cbn in F1, F2, F3, F4, F5, F6, F7, F8, F9, F10, F11, F12, F13.
  unfold showSaving. do 4 apply wp_bind, wp_modify. apply wp_modify, HQ. unfold saved, shape. cbn.
  repeat split; congruence.
Qed.

(** Submitting ends in the mode of saving; the request is sent if the parameters
    can be read. *)
Lemma handleFormSubmission_wp Q s fm fd : shape Editing s -> the_form s = Some fm -> the_field s = Some fd ->
  let value := value_of (Form.value_of (f_control fd)) in
  (forall s' p, saved s s' -> submitted opts builtin fm fd value = Text.Returns p ->
     Q tt (log Stopped (log (Sent Save (url opts) (inl (Query.set_own (js "editorId") (Json.VStr (id (el s))) p)))
             (set_pending (pending s' ++ [(next_request s', Save)]) (S (next_request s')) s')))) ->
  (forall e s', saved s s' -> (forall p, submitted opts builtin fm fd value <> Text.Returns p) -> X e s') ->
  wp (handleFormSubmission opts builtin) Q s.
Proof.
  intros Hs Hfm Hfd value HQ HX. destruct Hs as (E1 & E2 & (fm' & fd' & E3 & E4 & Ef & E5 & E6) & E7 & E8).
  rewrite Hfm in E3. injection E3 as <-. rewrite Hfd in E5. injection E5 as <-.
  unfold handleFormSubmission. apply wp_bind, wp_get. rewrite Hfm, Hfd. apply wp_bind, wp_ret, wp_bind.
  rewrite Form.getValue_of by apply E6. apply wp_ret, wp_bind, wp_ret, wp_bind.
  apply prepareSubmission_wp; [unfold shape; repeat split; try done; by exists fm, fd|].
  intros s' Hs'. apply wp_bind. fold value. pose proof (HQ s') as HQ'. pose proof (fun e => HX e s' Hs') as HX'.
  destruct (submitted opts builtin fm fd value) as [p| |]; [|by apply wp_throw, HX'|by apply wp_throw, HX'].
  apply wp_ret, wp_bind. unfold send. apply wp_bind, wp_modify, wp_modify, wp_modify. by apply HQ'.
Qed.
(** ** Entering *)

(** What stays when a field is made: the form gets it, requests may be sent. *)
Definition kept (s s' : editor) : Prop :=
  editing s' = editing s /\ saving s' = saving s /\ externalShown s' = externalShown s /\ listening s' = listening s /\
  el s' = el s /\ oldInnerHTML s' = oldInnerHTML s.
Definition has_form (l : list item) (s : editor) : Prop :=
  exists fm, the_form s = Some fm /\ inserted fm = false /\ fields fm = l.
Definition has_field (s : editor) : Prop := exists fd, the_field s = Some fd /\ proper (f_control fd).

#[export] Instance kept_preorder : PreOrder kept.
Proof. split; [by intros s|]. intros s1 s2 s3. unfold kept. intuition congruence. Qed.

(** A computation that fills a form. *)
Definition fills (m : M editor unit) : Prop := forall Q l s, has_form l s -> has_field s ->
  (forall s', kept s s' -> has_form l s' -> has_field s' -> Q tt s') -> wp m Q s.

Lemma fills_seq m k : fills m -> fills k -> fills (m;; k).
Proof.
  intros Hm Hk Q l s Hf Hd HQ. eapply wp_bind, Hm; [done..|]. intros s1 K1 F1 D1. eapply Hk; [done..|].
  intros s2 K2 F2 D2. apply HQ; [by transitivity s1|done..].
Qed.

Lemma fills_ret : fills (mret tt).
Proof. intros Q l s Hf Hd HQ. apply wp_ret, HQ; done. Qed.

Lemma fills_when b m : fills m -> fills (when b m).
Proof. intros Hm. destruct b; [done|apply fills_ret]. Qed.

Lemma fills_form f : (forall fm, inserted (f fm) = inserted fm /\ fields (f fm) = fields fm) -> fills (on_form f).
Proof.
  intros Hf Q l s (fm & Hfm & Hi & Hl) (fd & Hfd & Hd) HQ. destruct (Hf fm) as [Hf1 Hf2]. unfold on_form. apply wp_bind, wp_get. rewrite Hfm.
  apply wp_bind, wp_ret, wp_modify, HQ; [by repeat split| |by exists fd]. exists (f fm). by rewrite Hf1, Hf2.
Qed.

Lemma fills_callback name c : returns c -> fills (triggerCallback name c (mret tt)).
Proof.
  intros Hc. destruct c as [| |[e|]]; [apply fills_ret..|done|]. intros Q l s (fm & H1 & H2) (fd & H3 & H4) HQ.
  cbn [triggerCallback]. unfold page. apply wp_bind, wp_modify, wp_ret, HQ; [by repeat split|by exists fm|by exists fd].
Qed.

Lemma append_fields i fm : is_field i = false -> inserted (append i fm) = inserted fm /\ fields (append i fm) = fields fm.
Proof. intros Hi. split; [done|]. unfold fields, append. cbn [items]. rewrite List.filter_app. cbn. by rewrite Hi, app_nil_r. Qed.

Lemma fills_append i : is_field i = false -> fills (on_form (append i)).
Proof. intros Hi. apply fills_form. intros fm. by apply append_fields. Qed.

Lemma fills_text t b : fills (addText t b).
Proof. unfold addText. destruct t; [apply fills_ret|]. apply fills_when. by apply fills_append. Qed.

Lemma fills_control m x : fills (createControl opts m x).
Proof.
  unfold createControl. destruct (match m with Ok => _ | Cancel => _ end); [by apply fills_append..|apply fills_ret].
Qed.

(** What the making of a field has to do: from a form without a field. *)
Definition makes (the_id : jstring) (make_field : M editor unit) : Prop := forall Q s, has_form [] s -> id (el s) = the_id ->
  (forall s', kept s s' -> has_form [TheField] s' -> has_field s' -> Q tt s') -> wp make_field Q s.

Lemma createForm_wp the_id make_field Q s : makes the_id make_field -> id (el s) = the_id ->
  (forall s', kept s s' -> has_form [TheField] s' -> has_field s' -> Q tt s') -> wp (createForm opts make_field) Q s.
Proof.
  intros Hmake Hid HQ. destruct Hcalm as (_ & Hc & _). unfold createForm. apply wp_bind, wp_modify, wp_bind.
  apply Hmake; [by eexists|done|]. intros s1 K1 F1 D1. pose proof D1 as (fd & Hfd & Hd).
  apply wp_bind, wp_get. rewrite Hfd. apply wp_bind, wp_ret.
  assert (fills (when (bool_decide (toLowerCase (Form.c_tag (f_control fd)) = js "textarea")) (on_form (append Break));;
    triggerCallback "onFormCustomization" (onFormCustomization opts) (mret tt);;
    addText (textBeforeControls opts) (given (okControl opts) || given (cancelControl opts));;
    createControl opts Ok [];;
    addText (textBetweenControls opts) (given (okControl opts) && given (cancelControl opts));;
    createControl opts Cancel (js "editor_cancel");;
    addText (textAfterControls opts) (given (okControl opts) || given (cancelControl opts)))) as HF.
  { apply fills_seq; [apply fills_when; by apply fills_append|]. apply fills_seq; [by apply fills_callback|].
    repeat (apply fills_seq; [apply fills_text || apply fills_control|]). apply fills_text. }
  eapply HF; [done|by exists fd|]. intros s2 K2 F2 D2. apply HQ; [|done..]. transitivity s1; [|done].
  exact K1.
Qed.

Lemma postProcess_wp Q s : has_field s -> (forall c, Q tt (log c s)) -> Q tt s -> wp (postProcessEditField opts) Q s.
Proof.
  intros (fd & Hfd & _) HQ HQ'. unfold postProcessEditField.
  destruct (fieldPostCreation opts); [| |by apply wp_ret]; apply wp_bind, wp_get; rewrite Hfd; apply wp_bind, wp_ret, wp_modify, HQ.
Qed.

Lemma enterEditMode_wp the_id make_field Q s : makes the_id make_field -> shape Idle s -> id (el s) = the_id ->
  (forall s', shape Editing s' -> id (el s') = the_id -> innerHTML (el s') = innerHTML (el s) ->
     listening s' = listening s -> Q tt s') ->
  wp (enterEditMode opts make_field) Q s.
Proof.
  intros Hmake (E1 & E2 & E3 & E4 & E5 & E6) Hid HQ. destruct Hcalm as (Hc & _). unfold enterEditMode.
  apply wp_bind, wp_get. rewrite E1, E2. cbn [orb]. apply wp_bind, wp_modify, wp_bind.
  apply (silent_callback "onEnterEditMode" _ (mret tt) Hc silent_ret).
  intros s1 (F1 & F2 & F3 & F4 & _ & F6 & F7 & _ & _ & _ & F11 & F12 & F13).
  cbn in F1, F2, F3, F4, F6, F7, F11, F12, F13. apply wp_bind.
  assert (forall s2, editing s2 = true -> saving s2 = false -> externalShown s2 = negb (hasExternalControl opts) ->
    listening s2 = listening s -> id (el s2) = the_id -> innerHTML (el s2) = innerHTML (el s) ->
    wp (modify (set_el (set_shown false));; createForm opts make_field;; on_form insert;;
        when (negb (is_some (loadTextURL opts))) (postProcessEditField opts);; modify (log Stopped)) Q s2) as H2.
  { intros s2 G1 G2 G3 G4 G5 G6. apply wp_bind, wp_modify, wp_bind. apply (createForm_wp the_id); [done|done|].
    intros s3 (K1 & K2 & K3 & K4 & K5 & _) (fm & Hfm & _ & Hl) Hd. cbn in K1, K2, K3, K4, K5.
    apply wp_bind. unfold on_form. apply wp_bind, wp_get. rewrite Hfm. apply wp_bind, wp_ret, wp_modify, wp_bind.
    assert (forall s4, editing s4 = true -> saving s4 = false -> the_form s4 = Some (insert fm) -> the_field s4 = the_field s3 ->
      el s4 = el s3 -> externalShown s4 = externalShown s3 -> listening s4 = listening s3 -> Q tt s4) as H4.
    { intros s4 I1 I2 I3 I4 I5 I6 I7. apply HQ; try (rewrite I5, K5); try done; [|congruence].
      unfold shape. rewrite I5, K5. repeat split; try congruence. destruct Hd as (fd & Hfd & Hd).
      exists (insert fm), fd. split; [done|]. split; [done|]. split; [done|]. split; [congruence|done]. }
    apply wp_when; intros _; [apply postProcess_wp; [exact Hd|intros c|]|]; apply wp_modify, H4; cbn; congruence. }
  apply wp_when; intros Hx; [apply wp_modify|]; apply H2; cbn; try congruence; rewrite ?F6, ?E6, Hx; done.
Qed.

Lemma enterHover_hushed : hushed (enterHover opts).
Proof.
  destruct Hcalm as (_ & _ & _ & _ & _ & _ & Hh). unfold enterHover. intros Q s HQ HX. apply wp_bind, silent_when.
  { apply silent_modify. intros ?. repeat split. }
  intros s1 H1. apply wp_bind, wp_get. destruct (saving s1); [by apply wp_ret, HQ|]. apply hushed_callback.
  - done.
  - unfold default_onEnterHover. silently.
  - intros s2 H2. apply HQ. by transitivity s1.
  - intros e s2 He H2. apply HX; [done|]. by transitivity s1.
Qed.
End wp.

(** ** One event *)

Lemma wp_after (m : M editor unit) (P : editor -> Prop) s : wp (fun _ => P) m (fun _ => P) s -> P (m s).2.
Proof. unfold wp. by destruct (m s) as [[]]. Qed.

Lemma caught_ends (m : M editor unit) (P : editor -> Prop) s :
  wp (fun e s' => e <> Hang /\ P s') m (fun _ => P) s -> wp (fun _ _ => False) (caught m) (fun _ => P) s.
Proof. unfold wp, caught. destruct (m s) as [[[]|[]] s']; naive_solver. Qed.

Lemma wp_weaken {A} (X Y : exn -> editor -> Prop) (m : M editor A) Q s :
  (forall e s', X e s' -> Y e s') -> wp X m Q s -> wp Y m Q s.
Proof. unfold wp. destruct (m s) as [[|] s']; auto. Qed.

Variable the_id : jstring.
Variable make_field : M editor unit.
Variable loaded : request -> jstring -> M editor unit.
Variable load_failed : M editor unit.

Definition sound (m : amode) (s : editor) : Prop := shape m s /\ id (el s) = the_id.

Hypothesis Hcalm : calm.
Hypothesis Hmake : forall X, makes X the_id make_field.
Hypothesis Hloaded : forall r t m s, sound m s -> wp (fun e s' => e <> Hang /\ sound m s') (loaded r t) (fun _ => sound m) s.
Hypothesis Hfailed : forall m s, sound m s -> wp (fun e s' => e <> Hang /\ sound m s') load_failed (fun _ => sound m) s.

(** The mode that an event leads to. *)
Definition next_mode (s : editor) (m : amode) (e : event) : amode :=
  match e with
  | Click => if listening s then match m with Idle => Editing | _ => m end else m
  | Key c modified =>
      if negb (listening s) || modified then m
      else match m with
           | Idle => Idle
           | Editing => if c =? KEY_ESC then Idle else if c =? KEY_RETURN then Saving else Editing
           | Saving => if c =? KEY_ESC then Idle else Saving
           end
  | Submit => match m with Editing => Saving | _ => m end
  | CancelClick => match m with Editing => Idle | _ => m end
  | Answer n _ _ => match head (filter (fun p => p.1 = n) (pending s)) with Some (_, Save) => Idle | _ => m end
  | Destroy => Idle
  | Over | Out | Type_ _ | Pick _ => m
  end.

Notation step := (step opts builtin make_field loaded load_failed).

Lemma quiet_sound m s s' : quiet s s' -> sound m s -> sound m s'.
Proof. intros Hq [Hs Hi]. split; [by eapply quiet_shape|]. destruct Hq as (_&_&_&_&_&_&_&_&_&_&Q&_). congruence. Qed.

Lemma left_sound s s' : left_mode s s' -> id (el s) = the_id -> sound Idle s'.
Proof. intros (H & _ & _ & Hi & _) Hid. split; [done|congruence]. Qed.

(** From every mode the edit mode can be left. *)
Lemma shape_leaves m s : shape m s ->
  (the_form s = None -> the_field s = None) /\ (hasExternalControl opts = false -> externalShown s = true).
Proof.
  destruct m; intros H.
  - destruct H as (_ & _ & _ & H4 & _ & H6). done.
  - destruct H as (_ & _ & (fm & fd & H3 & _) & _ & H6). split; [congruence|]. intros Hx. by rewrite H6, Hx.
  - destruct H as (_ & _ & _ & H4 & _ & H6). split; [done|]. intros Hx. by rewrite H6, Hx.
Qed.

Lemma wrapUp_sound X Q m s : sound m s -> (forall s', sound Idle s' -> Q tt s') ->
  (forall e s', e <> Hang -> sound Idle s' -> X e s') -> wp X (wrapUp opts) Q s.
Proof.
  intros [Hs Hi] HQ HX. destruct (shape_leaves m s Hs) as [H1 H2].
  apply wrapUp_wp; [done..| |]; intros; [apply HQ|apply HX; [done|]]; by eapply left_sound.
Qed.

Lemma cancel_sound m s : sound m s -> sound Idle (handleFormCancellation opts s).2.
Proof.
  intros Hs. apply wp_after. unfold handleFormCancellation. apply wp_bind. eapply wrapUp_sound; [done| |done].
  intros s' Hs'. apply wp_modify. by eapply quiet_sound.
Qed.

Lemma saved_sound s s' : saved s s' -> id (el s) = the_id -> sound Saving s'.
Proof. intros (H & Hi & _) Hid. split; [done|congruence]. Qed.

Lemma submit_sound s : sound Editing s -> sound Saving (handleFormSubmission opts builtin s).2.
Proof.
  intros [Hs Hi]. pose proof Hs as (_ & _ & (fm & fd & H3 & _ & _ & H5 & _) & _). apply wp_after.
  eapply handleFormSubmission_wp; [done|done|exact H3|exact H5| |].
  - intros s' p Hsv _. exact (saved_sound s s' Hsv Hi).
  - intros e s' Hsv _. by eapply saved_sound.
Qed.

Lemma user_sound m s f : (forall c, proper c -> proper (f c)) -> sound m s -> sound m (by_user f s).2.
Proof.
  intros Hf [Hs Hi]. apply wp_after. unfold by_user, in_form. apply wp_bind, wp_get. destruct m.
  1, 3: pose proof Hs as (_ & _ & H3 & _); rewrite H3; apply wp_ret; by split.
  pose proof Hs as (H1 & H2 & (fm & fd & H3 & H4 & Hl & H5 & H6) & H7 & H8). rewrite H3, H4. cbn [when].
  apply wp_bind, wp_get. rewrite H5. apply wp_when; intros _; [|by split].
  unfold on_field. apply wp_bind, wp_get. rewrite H5. apply wp_bind, wp_ret, wp_modify.
  split; [|done]. repeat split; try done. exists fm, (on_control f fd). split; [done|]. split; [done|]. split; [done|]. split; [done|by apply Hf].
Qed.

Lemma answer_sound m s r ok t : sound m s ->
  sound (match r with Save => Idle | _ => m end) (answered opts loaded load_failed r ok t s).2.
Proof.
  intros Hs. apply wp_after. apply (wp_weaken (fun _ _ => False)); [done|]. destruct r; cbn [answered].
  2, 3: destruct ok; apply caught_ends; [by apply Hloaded|by apply Hfailed].
  destruct ok.
  - apply caught_ends, wp_bind. apply wp_when; intros _; [apply wp_modify|]; (eapply wrapUp_sound; [exact Hs|done..]).
  - apply wp_bind. eapply wp_mono.
    + apply (caught_ends _ (sound m)). apply handleAJAXFailure_wp; [done| |];
        intros; (split; [|split]) || split; try done; try (eapply same_shape; [done|apply Hs]);
        match goal with Hm : same_mode _ _ |- _ => destruct Hm as (_&_&_&_&_&_&Hi&_) end; rewrite Hi; apply Hs.
    + intros [] s1 H1. apply caught_ends. eapply wrapUp_sound; [exact H1|done..].
Qed.

Lemma step_sound m s e : sound m s -> sound (next_mode s m e) (after (step e) s).
Proof.
  intros Hs. unfold after. destruct e as [|c md| | |t|i| | |n ok t|]; cbn [Edit.step next_mode].
  - apply wp_after. unfold heard. apply wp_bind, wp_get. destruct (listening s); [|by apply wp_ret]. cbn [when].
    destruct Hs as [Hs Hi]. destruct m; [eapply enterEditMode_wp; [done|apply Hmake|done|done|]; intros s' A B _ _; by split|..]; unfold enterEditMode; apply wp_bind, wp_get;
      pose proof Hs as (H1 & _); rewrite H1, orb_true_r; apply wp_ret; by split.
  - unfold heard. unfold mbind, M_bind, get. destruct (listening s); [|done]. cbn [when negb orb].
    unfold checkForEscapeOrReturn, mbind, M_bind, get. destruct md; [by rewrite orb_true_r|]. rewrite orb_false_r.
    destruct m.
    + pose proof Hs as [(H1 & _) _]. by rewrite H1.
    + pose proof Hs as [(H1 & _) _]. rewrite H1. cbn [negb].
      destruct (c =? KEY_ESC); [by eapply cancel_sound|]. destruct (c =? KEY_RETURN); [by apply submit_sound|done].
    + pose proof Hs as [(H1 & _ & _ & H4 & _) _]. rewrite H1. cbn [negb].
      destruct (c =? KEY_ESC); [by eapply cancel_sound|]. destruct (c =? KEY_RETURN); [|done].
      unfold handleFormSubmission, mbind, M_bind, get. by rewrite H4.
  - apply wp_after. unfold heard. apply wp_bind, wp_get. destruct (listening s); [|by apply wp_ret].
    apply enterHover_hushed; [done|..]; intros; by eapply quiet_sound.
  - apply wp_after. unfold heard. apply wp_bind, wp_get. destruct (listening s); [|by apply wp_ret].
    apply leaveHover_silent; [done|..]; intros; by eapply quiet_sound.
  - by apply user_sound.
  - by apply user_sound.
  - unfold in_form, mbind, M_bind, get. destruct m; pose proof Hs as [(H1 & H2 & H3 & H4 & H5) _]; try by rewrite H3.
    destruct H3 as (fm & fd & -> & -> & _). by apply submit_sound.
  - unfold in_form, mbind, M_bind, get. destruct m; pose proof Hs as [(H1 & H2 & H3 & H4 & H5) _]; try by rewrite H3.
    destruct H3 as (fm & fd & -> & -> & _). by eapply cancel_sound.
  - unfold mbind, M_bind, get, modify. destruct (head _) as [[k r]|]; [|done]. by apply answer_sound.
  - apply wp_after. unfold destroy. apply wp_bind, wp_get, wp_bind.
    assert (forall s1, sound m s1 -> wp (fun _ => sound Idle) (leaveEditMode opts;; unregisterListeners) (fun _ => sound Idle) s1) as H1.
    { intros s1 [G1 G2]. destruct (shape_leaves m s1 G1) as [L1 L2]. apply wp_bind, leaveEditMode_wp; [done..| |].
      - intros s2 H2. unfold unregisterListeners. apply wp_modify. destruct (left_sound _ _ H2 G2) as [A B]. by split.
      - intros e s2 _ H2. by eapply left_sound. }
    destruct (oldInnerHTML s) as [[|x h]|]; [by apply wp_ret, H1|apply wp_modify, H1; destruct Hs; by split|by apply wp_ret, H1].
Qed.
End modes.
End EditSafe.
