(* ===== verification/EditChoice.v ===== *)
(** * Editing in place with a list of choices

    [Ajax.InPlaceCollectionEditor]: the field is a list of choices, which the
    options give or a request loads, with the text of the element chosen. *)
From S2P Require Import Prelude JsString Json JsMonad ProtoText ProtoStr JsUri ProtoQuery ProtoForm EditPlace.

Module Choice.
Import Js Edit.

(** A choice: a text, or a value with a text. *)
Notation entry := (jstring + jstring * jstring)%type.

Record choices := Choices {
  loadCollectionURL : option jstring; loadingCollectionText : jstring;
  given_collection : list entry; given_value : option jstring
}.

(** [2 === entry.length ? entry : [entry, entry].flatten()]: a text has a length
    too. *)
Definition as_pair (e : entry) : jstring * jstring :=
  match e with
  | inr p => p
  | inl [a; b] => ([a], [b])
  | inl s => (s, s)
  end.

(** The options that are appended one after the other: the last that is selected
    takes it from the others, and there is always one selected. *)
Fixpoint only_last (l : list Form.opt) : list Form.opt :=
  match l with
  | [] => []
  | o :: l =>
      (if existsb Form.o_selected l then Form.Opt (Form.o_value o) (Form.o_text o) false else o) :: only_last l
  end.
Definition option_list (marker : jstring) (l : list (jstring * jstring)) : list Form.opt :=
  let textFound := existsb (fun p => bool_decide (p.1 = marker)) l in
  only_last (imap (fun i p => Form.Opt (Some p.1) p.2
                     (if textFound then bool_decide (p.1 = marker) else bool_decide (i = 0%nat))) l).

(** [/^\[.*\]$/.test]: the dot stands for no end of line. *)
Definition looks_like_array (t : jstring) : bool :=
  match t with
  | c :: r => (c =? 91) && match last r with Some d => d =? 93 | None => false end
              && negb (existsb (fun c => (c =? 10) || (c =? 13) || (c =? 8232) || (c =? 8233)) r)
  | [] => false
  end.

Section Choice.
Variable opts : options.
Variable ch : choices.
(** [eval] of an array of choices. *)
Variable eval : jstring -> option (list entry).
Notation M := (M editor).

(** src/piql/scadr/src/main/rails/public/javascripts/controls.js:827-849
    [buildOptionList()] *)
Definition buildOptionList : M unit :=
  on_form (form_class (remove_class (loadingClassName opts)));;
  s ← get;
  let l := map as_pair (collection s) in
  modify (set_collection (map inr l));;
  let marker := default (text s) (given_value ch) in
  on_field (on_control (Form.set_options (option_list marker l)));;
  on_field (on_control (Form.set_disabled false));;
  modify (log ActivateLater).

(** src/piql/scadr/src/main/rails/public/javascripts/controls.js:792-802
    [showLoadingText(text)] *)
Definition showLoadingText (t : jstring) : M unit :=
  on_field (on_control (Form.set_disabled true));;
  let t := Str.stripTags (Str.stripScripts t) in
  on_field (on_control (fun c => Form.set_options
    match Form.c_options c with
    | [] => [Form.Opt (Some []) t true]
    | o :: l => Form.Opt (Form.o_value o) t (Form.o_selected o) :: l
    end c)).

(** src/piql/scadr/src/main/rails/public/javascripts/controls.js:812-825
    [loadExternalText()]: there is no [onFailure] for it. *)
Definition loadExternalText (address : jstring) : M unit :=
  showLoadingText (loadingText opts);;
  s ← get;
  q ← lift (Uri.encodeURIComponent (id (el s)));
  send Load address (inr (js "editorId=" ++ q)).

(** src/piql/scadr/src/main/rails/public/javascripts/controls.js:804-810
    [checkForExternalText()] *)
Definition checkForExternalText : M unit :=
  modify (fun s => set_text (getText s) s);;
  match loadTextURL opts with Some a => loadExternalText a | None => buildOptionList end.

(** src/piql/scadr/src/main/rails/public/javascripts/controls.js:773-790
    [loadCollection()]: the request. *)
Definition loadCollection (address : jstring) : M unit :=
  on_form (form_class (add_class (loadingClassName opts)));;
  showLoadingText (loadingCollectionText ch);;
  s ← get;
  q ← lift (Uri.encodeURIComponent (id (el s)));
  send LoadCollection address (inr (js "editorId=" ++ q)).

(** Its [onSuccess(transport)], lines 780 to 786. *)
Definition collection_loaded (responseText : jstring) : M unit :=
  let t := Str.strip responseText in
  if looks_like_array t then
    match eval t with
    | Some l => modify (set_collection l);; checkForExternalText
    | None => throw Thrown
    end
  else throw Thrown.

(** src/piql/scadr/src/main/rails/public/javascripts/controls.js:760-771
    [createEditField()] *)
Definition createEditField : M unit :=
  modify (set_field (Some (Field (Form.Control (js "SELECT") (js "select-one") (paramName opts) [] false false [] None)
                             1 0 0 [] false)));;
  modify (set_collection (given_collection ch));;
  match loadCollectionURL ch with Some a => loadCollection a | None => checkForExternalText end;;
  on_form (append TheField).

(** The answers to the two requests; [onSuccess] of the text is lines 818 to 821. *)
Definition loaded (r : request) (t : jstring) : M unit :=
  match r with
  | LoadCollection => collection_loaded t
  | _ => modify (set_text (Str.strip t));; buildOptionList
  end.
Definition load_failed : M unit := mret tt.
End Choice.

Definition choice_run (opts : options) (ch : choices) (eval : jstring -> option (list entry)) (builtin : jstring -> jstring) :
    list event -> editor -> editor :=
  run opts builtin (createEditField opts ch) (loaded opts ch eval) load_failed.
End Choice.
