(* ===== verification/EditUse.v ===== *)
(** * Editors in use

    Both editors keep to the three modes; what is entered is sent, what is
    answered is shown, and what is cancelled is forgotten ([EditCycle]). *)
From S2P Require Import Prelude JsString Json ProtoText ProtoStr JsUri ProtoQuery JsMonad ProtoForm ProtoEventSafe EditPlace EditSafe EditChoice.

Module EditUse.
Import Js Edit EditSafe.

(** ** Both editors meet what the modes rest on *)

Section both.
Variable opts : options.
Variable the_id : jstring.

(** The name of the element can be sent. *)
Definition sendable_id : Prop := exists q, Uri.encodeURIComponent the_id = Text.Returns q.

Lemma on_field_fills X f : (forall c, proper opts c -> proper opts (f c)) -> fills opts X (on_field (on_control f)).
Proof.
  intros Hf Q l s Hfm (fd & Hfd & Hd) HQ. unfold on_field. apply wp_bind, wp_get. rewrite Hfd.
  apply wp_bind, wp_ret, wp_modify, HQ; [by repeat split|done|]. exists (on_control f fd). split; [done|by apply Hf].
Qed.

Lemma modify_fills X f : (forall s, kept s (f s) /\ the_form (f s) = the_form s /\ the_field (f s) = the_field s) -> fills opts X (modify f).
Proof.
  intros Hf Q l s (fm & Hfm & Hi) (fd & Hfd & Hd) HQ. destruct (Hf s) as (Hk & H1 & H2).
  apply wp_modify, HQ; [done| |]; [exists fm|exists fd]; split; congruence.
Qed.

Lemma get_fills X (f : editor -> M editor unit) : (forall s, fills opts X (f s)) -> fills opts X (s ← get; f s).
Proof. intros Hf Q l s H1 H2 HQ. apply wp_bind, wp_get. by eapply Hf. Qed.

Lemma send_fills X r a p : fills opts X (send r a p).
Proof.
  unfold send. apply fills_seq; apply modify_fills; intros ?; by repeat split.
Qed.

Lemma request_fills X r a : sendable_id -> forall Q l s, id (el s) = the_id -> has_form l s -> has_field opts s ->
  (forall s', kept s s' -> has_form l s' -> has_field opts s' -> Q tt s') ->
  wp X (s ← get; q ← lift (Uri.encodeURIComponent (id (el s))); send r a (inr (js "editorId=" ++ q))) Q s.
Proof.
  intros (q & Hq) Q l s Hid H1 H2 HQ. apply wp_bind, wp_get, wp_bind. rewrite Hid, Hq. apply wp_ret. by eapply send_fills.
Qed.

(** The field is appended at last. *)
Lemma append_field X Q s : has_form [] s -> has_field opts s ->
  (forall s', kept s s' -> has_form [TheField] s' -> has_field opts s' -> Q tt s') -> wp X (on_form (append TheField)) Q s.
Proof.
  intros (fm & Hfm & Hi & Hl) (fd & Hfd & Hd) HQ. unfold on_form. apply wp_bind, wp_get. rewrite Hfm.
  apply wp_bind, wp_ret, wp_modify, HQ; [by repeat split| |by exists fd].
  exists (append TheField fm). split; [done|]. split; [done|]. unfold fields, append in *. cbn [items]. by rewrite List.filter_app, Hl.
Qed.

Lemma class_fills X f : fills opts X (on_form (form_class f)).
Proof. by apply fills_form. Qed.

Lemma disabled_proper b c : proper opts c -> proper opts (Form.set_disabled b c).
Proof. done. Qed.

Lemma plain_makes X : (loadTextURL opts = None \/ sendable_id) -> makes opts X the_id (createEditField opts).
Proof.
  intros Hl Q s Hfm Hid HQ. unfold createEditField. apply wp_bind, wp_get, wp_bind, wp_modify.
  match goal with |- context [set_field (Some ?e) s] => set (fd := e); set (s1 := set_field (Some fd) s) end.
  assert (has_field opts s1) as Hd.
  { exists fd. split; [done|]. unfold fd, proper. destruct (_ && _); repeat split; done. }
  assert (has_form [] s1) as Hf by exact Hfm. assert (kept s s1) as Hk by (by repeat split). apply wp_bind.
  assert (forall s2, kept s s2 -> has_form [] s2 -> has_field opts s2 -> wp X (on_form (append TheField)) Q s2) as H2.
  { intros s2 K2 F2 D2. apply append_field; [done..|]. intros s3 K3. apply HQ. by transitivity s2. }
  destruct (loadTextURL opts) as [a|]; [|apply wp_ret; by apply H2]. destruct Hl as [Hl|Hl]; [done|].
  unfold Edit.loadExternalText. eapply wp_bind, class_fills; [done..|]. intros s3 K3 F3 D3.
  eapply wp_bind, on_field_fills; [apply disabled_proper|done..|]. intros s4 K4 F4 D4.
  assert (kept s s4) as K by (transitivity s1; [done|]; by transitivity s3).
  eapply request_fills; [done| |done..|].
  - destruct K as (_ & _ & _ & _ & K & _). by rewrite K.
  - intros s5 K5. apply H2. by transitivity s4.
Qed.

(** What is done to form and field by a late answer. *)
Definition tamed (m : M editor unit) : Prop := forall d s, sound opts the_id d s ->
  wp (fun e s' => e <> Hang /\ sound opts the_id d s') m (fun _ => sound opts the_id d) s.

Lemma tamed_seq m k : tamed m -> tamed k -> tamed (m;; k).
Proof. intros Hm Hk d s Hs. apply wp_bind. eapply wp_mono; [by apply Hm|]. intros [] s1 H1. by apply Hk. Qed.

Lemma tamed_get (f : editor -> M editor unit) : (forall s, tamed (f s)) -> tamed (s ← get; f s).
Proof. intros Hf d s Hs. apply wp_bind, wp_get. by apply Hf. Qed.

Lemma tamed_ret : tamed (mret tt).
Proof. intros d s Hs. by apply wp_ret. Qed.

Lemma tamed_throw : tamed (throw Thrown).
Proof. intros d s Hs. by apply wp_throw. Qed.

Lemma tamed_modify f : (forall s, same_mode s (f s) \/ the_form (f s) = the_form s /\ the_field (f s) = the_field s /\ el (f s) = el s /\
    editing (f s) = editing s /\ saving (f s) = saving s /\ externalShown (f s) = externalShown s) -> tamed (modify f).
Proof.
  intros Hf d s [Hs Hi]. apply wp_modify. destruct (Hf s) as [Hm|(H1 & H2 & H3 & H4 & H5 & H6)].
  - split; [by eapply same_shape|]. destruct Hm as (_&_&_&_&_&_&Hm&_). congruence.
  - unfold sound, shape. by rewrite H1, H2, H3, H4, H5, H6.
Qed.

Lemma tamed_form f : (forall fm, inserted (f fm) = inserted fm /\ fields (f fm) = fields fm) -> tamed (on_form f).
Proof.
  intros Hf d s [Hs Hi]. unfold on_form. apply wp_bind, wp_get. destruct d.
  1, 3: pose proof Hs as (_ & _ & H3 & H4 & _); rewrite H3; by apply wp_bind, wp_throw.
  pose proof Hs as (H1 & H2 & (fm & fd & H3 & Hin & Hl & Hfd & Hd) & H5 & H6). rewrite H3. apply wp_bind, wp_ret, wp_modify. split; [|done].
  destruct (Hf fm) as [Hf1 Hf2]. repeat split; try done. exists (f fm), fd. by rewrite Hf1, Hf2.
Qed.

Lemma tamed_field f : (forall c, proper opts c -> proper opts (f c)) -> tamed (on_field (on_control f)).
Proof.
  intros Hf d s [Hs Hi]. unfold on_field. apply wp_bind, wp_get. destruct d.
  1, 3: pose proof Hs as (_ & _ & H3 & H4 & _); rewrite H4; by apply wp_bind, wp_throw.
  pose proof Hs as (H1 & H2 & (fm & fd & H3 & Hin & Hl & Hfd & Hd) & H5 & H6). rewrite Hfd. apply wp_bind, wp_ret, wp_modify. split; [|done].
  repeat split; try done. exists fm, (on_control f fd). split; [done|]. split; [done|]. split; [done|]. split; [done|by apply Hf].
Qed.

Lemma tamed_process : tamed (postProcessEditField opts).
Proof.
  unfold postProcessEditField. destruct (fieldPostCreation opts); [| |apply tamed_ret]; apply tamed_get; intros s0 d s Hs;
    apply wp_bind; (destruct (the_field s0); [apply wp_ret, wp_modify|by apply wp_throw]); by destruct Hs.
Qed.

Lemma plain_tamed r t : tamed (plain_loaded opts r t).
Proof.
  unfold plain_loaded, text_loaded. repeat (apply tamed_seq; [first [by apply tamed_form|by apply tamed_field]|]).
  apply tamed_process.
Qed.

Lemma failure_tamed : calm opts -> tamed (handleAJAXFailure opts).
Proof.
  intros Hc d s [Hs Hi].
  assert (forall s', same_mode s s' -> sound opts the_id d s') as H.
  { intros s' Hm. split; [by eapply same_shape|]. destruct Hm as (_&_&_&_&_&_&H&_). congruence. }
  apply handleAJAXFailure_wp; [done|done|]. intros e s' He Hm. split; [done|by apply H].
Qed.

(** *** The editor with choices *)

Variable ch : Choice.choices.
Variable eval : jstring -> option (list (jstring + jstring * jstring)).

Ltac filling :=
  lazymatch goal with
  | |- fills _ _ (mbind _ get) => apply get_fills; intros ?; filling
  | |- fills _ _ (mbind _ _) => apply fills_seq; [filling|filling]
  | |- fills _ _ (on_form (form_class _)) => apply class_fills
  | |- fills _ _ (on_field (on_control _)) => by apply on_field_fills
  | |- fills _ _ (modify _) => apply modify_fills; intros ?; by repeat split
  | |- _ => idtac
  end.

Lemma build_fills X : fills opts X (Choice.buildOptionList opts ch).
Proof. unfold Choice.buildOptionList. filling. Qed.

Lemma loading_fills X t : fills opts X (Choice.showLoadingText t).
Proof. unfold Choice.showLoadingText. filling. Qed.

Lemma external_wp X : (loadTextURL opts = None \/ sendable_id) -> forall Q l s, id (el s) = the_id -> has_form l s -> has_field opts s ->
  (forall s', kept s s' -> has_form l s' -> has_field opts s' -> Q tt s') -> wp X (Choice.checkForExternalText opts ch) Q s.
Proof.
  intros Hl Q l s Hid Hf Hd HQ. unfold Choice.checkForExternalText. apply wp_bind, wp_modify.
  set (s1 := set_text _ s). assert (kept s s1) as K1 by (by repeat split).
  assert (has_form l s1) as F1 by exact Hf. assert (has_field opts s1) as D1 by exact Hd.
  destruct (loadTextURL opts) as [a|].
  - destruct Hl as [Hl|Hl]; [done|]. unfold Choice.loadExternalText. eapply wp_bind, loading_fills; [done..|].
    intros s2 K2 F2 D2. eapply request_fills; [done| |done..|].
    + destruct K2 as (_ & _ & _ & _ & K2 & _). by rewrite K2.
    + intros s3 K3. apply HQ. transitivity s1; [done|]. by transitivity s2.
  - eapply build_fills; [done..|]. intros s2 K2. apply HQ. by transitivity s1.
Qed.

Lemma choice_makes X : (loadTextURL opts = None /\ Choice.loadCollectionURL ch = None \/ sendable_id) ->
  makes opts X the_id (Choice.createEditField opts ch).
Proof.
  intros Hl Q s Hf Hid HQ. unfold Choice.createEditField. do 2 apply wp_bind, wp_modify.
  set (s1 := set_collection _ _). assert (kept s s1) as K1 by (by repeat split).
  assert (has_form [] s1) as F1 by exact Hf. assert (has_field opts s1) as D1 by (by eexists).
  apply wp_bind.
  assert (forall s2, kept s1 s2 -> has_form [] s2 -> has_field opts s2 -> wp X (on_form (append TheField)) Q s2) as H2.
  { intros s2 K2 F2 D2. apply append_field; [done..|]. intros s3 K3. apply HQ. transitivity s1; [done|]. by transitivity s2. }
  destruct (Choice.loadCollectionURL ch) as [a|].
  - destruct Hl as [[_ Hl]|Hl]; [done|]. unfold Choice.loadCollection. eapply wp_bind, class_fills; [done..|].
    intros s2 K2 F2 D2. eapply wp_bind, loading_fills; [done..|]. intros s3 K3 F3 D3.
    assert (kept s1 s3) as K by (by transitivity s2). eapply request_fills; [done| |done..|].
    + destruct K as (_ & _ & _ & _ & K & _). by rewrite K.
    + intros s4 K4. apply H2. by transitivity s3.
  - eapply external_wp; [|done..|exact H2]. destruct Hl as [[Hl _]|Hl]; [by left|by right].
Qed.

Ltac taming :=
  lazymatch goal with
  | |- tamed (mbind _ get) => apply tamed_get; intros ?; taming
  | |- tamed (mbind _ _) => apply tamed_seq; [taming|taming]
  | |- tamed (on_form (form_class _)) => by apply tamed_form
  | |- tamed (on_field (on_control _)) => by apply tamed_field
  | |- tamed (modify _) => apply tamed_modify; intros ?; right; by repeat split
  | |- _ => idtac
  end.

Lemma tamed_send r a p : tamed (send r a p).
Proof. unfold send. taming. Qed.

Lemma tamed_request r a : sendable_id -> tamed (s ← get; q ← lift (Uri.encodeURIComponent (id (el s))); send r a (inr (js "editorId=" ++ q))).
Proof.
  intros (q & Hq) d s Hs. apply wp_bind, wp_get, wp_bind. pose proof Hs as [_ Hid]. rewrite Hid, Hq. apply wp_ret. by apply tamed_send.
Qed.

Lemma build_tamed : tamed (Choice.buildOptionList opts ch).
Proof. unfold Choice.buildOptionList. taming. Qed.

Lemma choice_tamed r t : (loadTextURL opts = None \/ sendable_id) -> tamed (Choice.loaded opts ch eval r t).
Proof.
  intros Hl. destruct r; cbn [Choice.loaded]; [taming; apply build_tamed..|]. unfold Choice.collection_loaded.
  destruct (Choice.looks_like_array _); [|apply tamed_throw]. destruct (eval _); [|apply tamed_throw]. taming.
  unfold Choice.checkForExternalText. taming. destruct (loadTextURL opts) as [a|]; [|apply build_tamed].
  destruct Hl as [Hl|Hl]; [done|]. unfold Choice.loadExternalText.
  apply tamed_seq; [unfold Choice.showLoadingText; taming|by apply tamed_request].
Qed.
End both.

(** ** The modes *)

Section modes.
Variable opts : options.
Variable builtin : jstring -> jstring.
Variable the_id : jstring.

(** The state is in a mode, and after every event in the mode that the event leads
    to. *)
Fixpoint follows (step : event -> M editor unit) (es : list event) (s : editor) (m : amode) : Prop :=
  sound opts the_id m s /\
  match es with [] => True | e :: es => follows step es (after (step e) s) (next_mode s m e) end.

Lemma sound_follows step : (forall m s e, sound opts the_id m s -> sound opts the_id (next_mode s m e) (after (step e) s)) ->
  forall es s m, sound opts the_id m s -> follows step es s m.
Proof. intros Hstep. induction es as [|e es IH]; intros s m Hs; cbn [follows]; auto. Qed.
End modes.

(** The plain editor is in one of the modes after any events. *)
Lemma plain_sound opts builtin e es : calm opts -> shown e = true -> (loadTextURL opts = None \/ sendable_id (id e)) ->
  exists m, sound opts (id e) m (plain_run opts builtin es (initialize opts e)).
Proof.
  intros Hc Hsh Hl. assert (sound opts (id e) Idle (initialize opts e)) as H0 by (by repeat split).
  unfold plain_run, run. revert H0. generalize (initialize opts e) as s, Idle as m.
  induction es as [|ev es IH]; intros s m Hs; cbn [fold_left]; [by exists m|]. apply (IH _ (next_mode s m ev)).
  apply step_sound; try done.
  - intros X. by apply plain_makes.
  - intros r t m' s' Hs'. by apply plain_tamed.
  - intros m' s' Hs'. by apply failure_tamed.
Qed.

(** C30: Through any events an editor in place, plain or with choices, is idle,
    editing or saving: while editing and only then there is a form with one field
    on the page and the element is hidden; the external control is hidden until
    the editor is idle again.  A click leads from idle to editing, submitting to
    saving, cancelling and the answer to what was saved back to idle, and nothing
    else changes the mode, whatever the handlers of the page throw that are not
    called in the middle of a change. *)
Theorem editor_modes opts ch eval builtin e es : calm opts -> shown e = true ->
  (loadTextURL opts = None /\ Choice.loadCollectionURL ch = None \/ sendable_id (id e)) ->
  follows opts (id e) (step opts builtin (createEditField opts) (plain_loaded opts) (handleAJAXFailure opts)) es (initialize opts e) Idle /\
  follows opts (id e) (step opts builtin (Choice.createEditField opts ch) (Choice.loaded opts ch eval) Choice.load_failed) es
    (initialize opts e) Idle.
Proof.
  intros Hc Hsh Hl. assert (loadTextURL opts = None \/ sendable_id (id e)) as Hl' by tauto.
  assert (sound opts (id e) Idle (initialize opts e)) as H0 by (by repeat split).
  split; (apply sound_follows; [|done]); intros m s ev Hs; apply step_sound; try done.
  - intros X. by apply plain_makes.
  - intros r t m' s' Hs'. by apply plain_tamed.
  - intros m' s' Hs'. by apply failure_tamed.
  - intros X. by apply choice_makes.
  - intros r t m' s' Hs'. by apply choice_tamed.
Qed.
End EditUse.

(** * From a click to the answer

    What the editor in place does with what is entered, whatever happened to it
    before; and where it goes wrong. *)

Module EditCycle.
Import Js Edit EditSafe EditUse.

(** ** Requests have numbers of their own *)

Lemma lift_keeping (P : editor -> Prop) {A} (o : Text.outcome A) : keeping P (lift o).
Proof. destruct o; [apply keeping_ret|apply keeping_throw..]. Qed.

Ltac keep_on := repeat (keep_step || apply lift_keeping).

Definition fresh (s : editor) : Prop := Forall (fun p => (p.1 < next_request s)%nat) (pending s).

Lemma send_fresh r a p : keeping fresh (send r a p).
Proof.
  unfold send. keep_on. unfold fresh in *. cbn. apply Forall_app. split.
  - eapply Forall_impl; [done|]. intros q Hq. cbn in *. lia.
  - constructor; [cbn; lia|constructor].
Qed.

Section fresh.
Variable opts : options.
Variable builtin : jstring -> jstring.
Notation step := (step opts builtin (createEditField opts) (plain_loaded opts) (handleAJAXFailure opts)).

Lemma callback_fresh name c d : keeping fresh d -> keeping fresh (triggerCallback name c d).
Proof. intros Hd. unfold triggerCallback, page. destruct c as [| |[e|]]; [apply keeping_ret|done|keep_on..]. Qed.

Lemma hover_fresh : keeping fresh (enterHover opts) /\ keeping fresh (leaveHover opts).
Proof.
  unfold enterHover, leaveHover. split; keep_on; apply callback_fresh; unfold default_onEnterHover, default_onLeaveHover; keep_on.
Qed.

Lemma remove_fresh : keeping fresh removeForm.
Proof. unfold removeForm. keep_on. Qed.

Lemma wrap_fresh : keeping fresh (leaveEditMode opts) /\ keeping fresh (wrapUp opts).
Proof.
  assert (keeping fresh (leaveEditMode opts)) as H.
  { unfold leaveEditMode. apply keeping_bind; [keep_on|intros ?]. apply keeping_bind; [apply remove_fresh|intros ?].
    apply keeping_bind; [apply hover_fresh|intros ?]. do 6 (apply keeping_bind; [keep_on|intros ?]). apply callback_fresh, keeping_ret. }
  split; [done|]. unfold wrapUp. apply keeping_bind; [done|intros ?]. apply callback_fresh. unfold default_onComplete. keep_on.
Qed.

Lemma failure_fresh : keeping fresh (handleAJAXFailure opts).
Proof. unfold handleAJAXFailure. apply keeping_bind; [apply callback_fresh, keeping_throw|intros ?; keep_on]. Qed.

Lemma cancel_fresh : keeping fresh (handleFormCancellation opts).
Proof. unfold handleFormCancellation. apply keeping_bind; [apply wrap_fresh|intros ?; keep_on]. Qed.

Lemma submit_fresh : keeping fresh (handleFormSubmission opts builtin).
Proof.
  unfold handleFormSubmission. do 4 (apply keeping_bind; [keep_on|intros ?]).
  apply keeping_bind; [|intros ?; apply keeping_bind; [apply lift_keeping|intros ?; apply keeping_bind; [apply send_fresh|intros ?; keep_on]]].
  unfold prepareSubmission. apply keeping_bind; [keep_on|intros ?]. apply keeping_bind; [apply remove_fresh|intros ?].
  apply keeping_bind; [apply hover_fresh|intros ?]. unfold showSaving. keep_on.
Qed.

Lemma field_fresh : keeping fresh (createEditField opts).
Proof.
  unfold createEditField. do 2 (apply keeping_bind; [keep_on|intros ?]). apply keeping_bind; [|intros ?; unfold on_form; keep_on].
  destruct (loadTextURL opts); [|apply keeping_ret]. unfold Edit.loadExternalText, on_form, on_field.
  do 4 (apply keeping_bind; [keep_on|intros ?]). apply send_fresh.
Qed.

Lemma enter_fresh : keeping fresh (enterEditMode opts (createEditField opts)).
Proof.
  unfold enterEditMode. apply keeping_bind; [keep_on|intros s0]. destruct (_ || _); [apply keeping_ret|].
  apply keeping_bind; [keep_on|intros ?]. apply keeping_bind; [apply callback_fresh, keeping_ret|intros ?].
  do 2 (apply keeping_bind; [keep_on|intros ?]). apply keeping_bind.
  - unfold createForm. apply keeping_bind; [keep_on|intros ?]. apply keeping_bind; [apply field_fresh|intros ?].
    unfold createControl, addText, on_form. do 3 (apply keeping_bind; [keep_on|intros ?]).
    apply keeping_bind; [apply callback_fresh, keeping_ret|intros ?]. keep_on.
  - intros ?. unfold postProcessEditField, on_form. keep_on.
Qed.

Lemma step_fresh e : keeping fresh (step e).
Proof.
  destruct e as [|c md| | |t|i| | |n ok t|]; cbn [Edit.step]; unfold heard, in_form, by_user.
  - keep_on. apply enter_fresh.
  - unfold checkForEscapeOrReturn. keep_on; [apply cancel_fresh|apply submit_fresh].
  - keep_on. apply hover_fresh.
  - keep_on. apply hover_fresh.
  - unfold in_form, on_field. keep_on.
  - unfold in_form, on_field. keep_on.
  - keep_on. apply submit_fresh.
  - keep_on. apply cancel_fresh.
  - apply keeping_bind; [keep_on|intros s0]. destruct (head _) as [[k r]|]; [|apply keeping_ret]. apply keeping_bind.
    { keep_on. unfold fresh in *. cbn. apply Forall_forall. rewrite Forall_forall in *. intros p [_ Hp]%list_elem_of_filter. by auto. }
    intros ?. unfold answered, plain_loaded, text_loaded, postProcessEditField, on_form, on_field.
    destruct r, ok; keep_on; first [apply wrap_fresh|apply failure_fresh].
  - unfold destroy, unregisterListeners. keep_on; apply wrap_fresh.
Qed.
End fresh.

Lemma run_fresh opts builtin es s : fresh s -> fresh (plain_run opts builtin es s).
Proof.
  unfold plain_run, run. revert s. induction es as [|e es IH]; intros s Hs; cbn [fold_left]; [done|].
  apply IH. by apply step_fresh.
Qed.

(** ** The parameters of the library's own callback *)

Definition default_params (builtin : jstring -> jstring) (controls : list Form.control) (_ : jstring) : Text.outcome (Query.object + jstring) :=
  Form.serialize builtin controls (Form.Flag false).

Lemma nameless_loop builtin l r b : Forall (fun c => Form.c_name c = []) l -> Form.serialize_loop builtin Form.AnyButton l r b = Text.Returns r.
Proof.
  induction 1 as [|c l Hc Hl IH]; [done|]. cbn [Form.serialize_loop]. rewrite Hc. by rewrite bool_decide_eq_true_2, andb_false_r.
Qed.

Lemma loop_app builtin l k r b : Forall (fun c => Form.c_name c = []) l ->
  Form.serialize_loop builtin Form.AnyButton (l ++ k) r b = Form.serialize_loop builtin Form.AnyButton k r b.
Proof.
  induction 1 as [|c l Hc Hl IH]; [done|]. cbn [app Form.serialize_loop]. rewrite Hc. by rewrite bool_decide_eq_true_2, andb_false_r.
Qed.

Lemma no_fields_nameless fd l : List.filter is_field l = [] -> Forall (fun c => Form.c_name c = []) (concat (map (control_of fd) l)).
Proof. induction l as [|[] l IH]; cbn; try done; intros H; auto. Qed.

Lemma one_field_splits l : List.filter is_field l = [TheField] ->
  exists l1 l2, l = l1 ++ TheField :: l2 /\ List.filter is_field l1 = [] /\ List.filter is_field l2 = [].
Proof.
  induction l as [|i l IH]; [done|]. destruct i; cbn; intros H.
  1: injection H as H; by exists [], l.
  all: destruct (IH H) as (l1 & l2 & -> & H1 & H2); (eexists (_ :: l1), l2; split; [reflexivity|]); by cbn.
Qed.

Lemma getElements_app l k : Form.getElements (l ++ k) = Form.getElements l ++ Form.getElements k.
Proof. apply filter_app. Qed.

Lemma elements_nameless l : Forall (fun c => Form.c_name c = []) l -> Forall (fun c => Form.c_name c = []) (Form.getElements l).
Proof. intros H. apply Forall_forall. rewrite Forall_forall in H. intros c [_ Hc]%list_elem_of_filter. auto. Qed.

Section cycle.
Variable opts : options.
Variable builtin : jstring -> jstring.
Notation run := (plain_run opts builtin).
Hypothesis Hparams : params_of opts = default_params builtin.

Lemma submitted_default fm fd v q : fields fm = [TheField] -> proper opts (f_control fd) ->
  Form.c_disabled (f_control fd) = false -> Form.value_of (f_control fd) = Json.VStr v ->
  Query.property_ok (paramName opts, Json.VStr v) -> Query.toQueryString [(paramName opts, Json.VStr v)] = Text.Returns q ->
  submitted opts builtin fm fd v = Text.Returns [(paramName opts, Json.VStr v)].
Proof.
  intros Hf (Hser & Hn & Hs1 & Hs2) Hd Hv Hok Hq. unfold submitted. rewrite Hparams. unfold default_params, Form.serialize, Form.serializeElements.
  destruct (one_field_splits _ Hf) as (l1 & l2 & Hit & H1 & H2). unfold form_controls. rewrite Hit, map_app, concat_app, getElements_app.
  rewrite loop_app by (by apply elements_nameless, no_fields_nameless).
  cbn [map concat control_of app]. change (Form.getElements (f_control fd :: ?l)) with (Form.getElements ([f_control fd] ++ l)).
  rewrite getElements_app. assert (Form.getElements [f_control fd] = [f_control fd]) as ->.
  { unfold Form.getElements. by rewrite filter_cons, Hser. }
  pose proof Hok as (Hne & Hpk & _). cbn in Hne, Hpk.
  assert (Form.serialize_loop builtin Form.AnyButton ([f_control fd] ++ Form.getElements (concat (map (control_of fd) l2))) [] false
    = Text.Returns [(paramName opts, Json.VStr v)]) as ->.
  { cbn [app Form.serialize_loop]. rewrite Hd, Hn, Form.getValue_of, Hv by done. cbn [negb].
    rewrite (bool_decide_eq_false_2 (paramName opts = [])) by done. cbn [negb andb mbind Text.outcome_bind Text.nullish orb].
    rewrite !bool_decide_eq_false_2 by done. cbn [negb]. rewrite nameless_loop by (by apply elements_nameless, no_fields_nameless).
    unfold Query.push_value, Query.get_any, Query.inherited. cbn. by rewrite bool_decide_eq_false_2 by done. }
  cbn [mbind Text.outcome_bind]. rewrite Hq. cbn [mbind Text.outcome_bind mret Text.outcome_ret].
  rewrite (Query.query_read builtin [(paramName opts, Json.VStr v)] q); [done| |by constructor|done]. apply NoDup_singleton.
Qed.
End cycle.

(** ** What the answer does *)

Section answers.
Variable opts : options.
Variable builtin : jstring -> jstring.
Hypothesis Hcalm : calm opts.
Notation step := (step opts builtin (createEditField opts) (plain_loaded opts) (handleAJAXFailure opts)).

(** The handler for failures returns, and it is not that of the library. *)
Definition kind_failure : Prop := onFailure opts = NoCallback \/ onFailure opts = Given None.

Lemma failure_restores X Q s h : kind_failure -> oldInnerHTML s = Some h -> h <> [] ->
  (forall s', same_mode s s' -> innerHTML (el s') = h -> Q tt s') -> wp X (handleAJAXFailure opts) Q s.
Proof.
  intros Hk Ho Hh HQ. unfold handleAJAXFailure. apply wp_bind.
  assert (forall s1, quiet s s1 -> wp X (s ← get; match oldInnerHTML s with
    | Some ((_ :: _) as h) => modify (set_el (set_html h));; modify (set_old None) | _ => mret tt end) Q s1) as H1.
  { intros s1 H1. apply wp_bind, wp_get. pose proof (quiet_same _ _ H1) as Hs.
    assert (oldInnerHTML s1 = Some h) as -> by (destruct H1 as (_&_&_&_&H5&_); congruence).
    destruct h as [|c h]; [done|]. apply wp_bind, wp_modify, wp_modify, HQ; [exact Hs|done]. }
  destruct Hk as [-> | ->]; cbn [triggerCallback]; [by apply wp_ret, H1|]. unfold page.
  apply wp_bind, wp_modify, wp_ret, H1. repeat split.
Qed.

Lemma pending_found s s1 : fresh s -> pending s1 = pending s ++ [(next_request s, Save)] ->
  head (filter (fun p => p.1 = next_request s) (pending s1)) = Some (next_request s, Save).
Proof.
  intros Hf ->. rewrite filter_app, filter_cons, decide_True by done. rewrite EventSafe.filter_none; [done|].
  intros p Hp Hn. unfold fresh in Hf. rewrite Forall_forall in Hf. apply Hf in Hp. lia.
Qed.

Definition idle (s : editor) : Prop := shape opts Idle s.

Lemma success_shows s n t : head (filter (fun p => p.1 = n) (pending s)) = Some (n, Save) -> shape opts Saving s ->
  htmlResponse opts = true ->
  let s' := after (step (Answer n true t)) s in idle s' /\ innerHTML (el s') = Str.stripScripts t.
Proof.
  intros Hn Hs Hh. cbv zeta. unfold after. cbn [Edit.step].
  apply (wp_after _ (fun s' => idle s' /\ innerHTML (el s') = Str.stripScripts t)).
  apply wp_bind, wp_get. rewrite Hn. apply wp_bind, wp_modify. set (s1 := set_pending _ _ s).
  apply (wp_weaken (fun _ _ => False)); [done|]. cbn [answered]. apply (caught_ends). rewrite Hh. cbn [when].
  apply wp_bind, wp_modify. destruct (shape_leaves opts Saving s Hs) as [L1 L2].
  apply wrapUp_wp; [done|exact L1|exact L2| |]; intros; (split; [done|split]) || split; try done;
    match goal with Hl : left_mode _ _ _ |- _ => destruct Hl as (A & _ & B & _) end; try done; by rewrite B.
Qed.

Lemma failure_shows s n t h : head (filter (fun p => p.1 = n) (pending s)) = Some (n, Save) -> shape opts Saving s ->
  kind_failure -> oldInnerHTML s = Some h -> h <> [] ->
  let s' := after (step (Answer n false t)) s in idle s' /\ innerHTML (el s') = h.
Proof.
  intros Hn Hs Hk Ho Hh. cbv zeta. unfold after. cbn [Edit.step].
  apply (wp_after _ (fun s' => idle s' /\ innerHTML (el s') = h)).
  apply wp_bind, wp_get. rewrite Hn. apply wp_bind, wp_modify. set (s1 := set_pending _ _ s).
  apply (wp_weaken (fun _ _ => False)); [done|]. cbn [answered]. apply wp_bind.
  apply (wp_mono _ _ (fun _ s2 => same_mode s1 s2 /\ innerHTML (el s2) = h)).
  - apply (caught_ends _ (fun s2 => same_mode s1 s2 /\ innerHTML (el s2) = h)). by apply (failure_restores _ _ s1 h).
  - intros [] s2 [Hm Hi]. apply (caught_ends). assert (shape opts Saving s2) as H2 by (eapply same_shape; [exact Hm|exact Hs]).
    destruct (shape_leaves opts Saving s2 H2) as [L1 L2].
    apply wrapUp_wp; [done|exact L1|exact L2| |]; intros; (split; [done|split]) || split; try done;
      match goal with Hl : left_mode _ _ _ |- _ => destruct Hl as (A & _ & B & _) end; try done; by rewrite B.
Qed.

Lemma cancel_shows s : shape opts Editing s ->
  let s' := after (step CancelClick) s in idle s' /\ innerHTML (el s') = innerHTML (el s) /\ pending s' = pending s.
Proof.
  intros Hs. cbv zeta. unfold after. cbn [Edit.step]. unfold in_form.
  apply (wp_after _ (fun s' => idle s' /\ innerHTML (el s') = innerHTML (el s) /\ pending s' = pending s)).
  apply wp_bind, wp_get. pose proof Hs as (_ & _ & (fm & fd & -> & -> & _) & _). cbn [when].
  unfold handleFormCancellation. apply wp_bind. destruct (shape_leaves opts Editing s Hs) as [L1 L2].
  apply wrapUp_wp; [done|exact L1|exact L2| |].
  - intros s1 (A & _ & B & _ & _ & C & _). by apply wp_modify.
  - intros e s1 _ (A & _ & B & _ & _ & C & _). done.
Qed.

Lemma submit_saves s fm fd p : shape opts Editing s -> the_form s = Some fm -> the_field s = Some fd ->
  submitted opts builtin fm fd (value_of (Form.value_of (f_control fd))) = Text.Returns p ->
  let s' := after (step Submit) s in
  shape opts Saving s' /\ innerHTML (el s') = savingText opts /\ oldInnerHTML s' = Some (innerHTML (el s)) /\
  pending s' = pending s ++ [(next_request s, Save)] /\
  exists l, calls s' = l ++ [Sent Save (url opts) (inl (Query.set_own (js "editorId") (Json.VStr (id (el s))) p)); Stopped].
Proof.
  intros Hs Hfm Hfd Hp. cbv zeta. unfold after. cbn [Edit.step].
  match goal with |- ?G => let P := eval pattern (in_form (handleFormSubmission opts builtin) s).2 in G in
    match P with ?F _ => apply (wp_after _ F) end end.
  apply wp_bind, wp_get. pose proof Hs as (_ & _ & (fm' & fd' & Hfm' & Hin & _) & _).
  rewrite Hfm in Hfm'. injection Hfm' as <-. rewrite Hfm, Hin. cbn [when].
  eapply handleFormSubmission_wp; [done|done|exact Hfm|exact Hfd| |].
  - intros s1 p' (A & B & C & D & E & F & G) Hp'. rewrite Hp in Hp'. injection Hp' as <-. cbn beta.
    split; [exact A|]. split; [exact C|]. split; [exact D|]. split; [cbn; congruence|].
    exists (calls s1). cbn. by rewrite <- app_assoc.
  - intros e s1 _ Hno. by destruct (Hno p).
Qed.
End answers.

(** From an editor that is open with the text [v] in its field, whatever
    happened before, submitting sends [v] under the name of the field with the
    name of the element, and shows the text for saving; the answer is then shown
    in the element, or after a failure its old text, if the page handles failures
    and there was a text; cancelling instead shows the old text and sends
    nothing.  In each case the editor is idle again. *)
Theorem edit_cycle opts builtin e es v q :
  let run := plain_run opts builtin in
  let s := run es (initialize opts e) in
  calm opts -> shown e = true -> (loadTextURL opts = None \/ sendable_id (id e)) ->
  params_of opts = default_params builtin -> htmlResponse opts = true ->
  editing s = true -> saving s = false ->
  (exists fd, the_field s = Some fd /\ Form.c_disabled (f_control fd) = false /\ Form.value_of (f_control fd) = Json.VStr v) ->
  Query.property_ok (paramName opts, Json.VStr v) -> Query.toQueryString [(paramName opts, Json.VStr v)] = Text.Returns q ->
  let s1 := run [Submit] s in
  (innerHTML (el s1) = savingText opts /\
   exists l, calls s1 = l ++ [Sent Save (url opts) (inl (Query.set_own (js "editorId") (Json.VStr (id e))
                                [(paramName opts, Json.VStr v)])); Stopped]) /\
  (forall t, let s2 := run [Answer (next_request s) true t] s1 in idle opts s2 /\ innerHTML (el s2) = Str.stripScripts t) /\
  (kind_failure opts -> innerHTML (el s) <> [] ->
   forall t, let s2 := run [Answer (next_request s) false t] s1 in idle opts s2 /\ innerHTML (el s2) = innerHTML (el s)) /\
  (let s2 := run [CancelClick] s in idle opts s2 /\ innerHTML (el s2) = innerHTML (el s) /\ pending s2 = pending s).
Proof.
  intros run s Hc Hsh Hl Hparams Hh He Hsv (fd & Hfd & Hd & Hv) Hok Hq s1.
  assert (exists m, sound opts (id e) m s) as (m & Hs & Hid).
  { unfold s, run. apply plain_sound; done. }
  assert (m = Editing) as -> by (destruct m; destruct Hs as (A & B & _); congruence).
  assert (fresh s) as Hf by (apply run_fresh; constructor).
  pose proof Hs as (_ & _ & (fm & fd' & Hfm & _ & Hfields & Hfd' & Hpr) & _). rewrite Hfd in Hfd'. injection Hfd' as <-.
  pose proof (submitted_default opts builtin Hparams fm fd v q Hfields Hpr Hd Hv Hok Hq) as Hsub.
  destruct (submit_saves opts builtin Hc s fm fd [(paramName opts, Json.VStr v)] Hs Hfm Hfd) as (A & B & C & D & E);
    [by rewrite Hv|]. rewrite Hid in E. change (after _ s) with s1 in A, B, C, D, E.
  pose proof (pending_found s s1 Hf D) as Hp.
  split; [done|]. split; [intros t; by apply success_shows|]. split; [|by apply cancel_shows].
  intros Hk Hne t. by apply failure_shows.
Qed.
End EditCycle.
