(* ===== verification/EditCases.v ===== *)
(** * Editors on a page

    An editor with the options of the library, through which the theorems are
    tried, and the cases in which the editor does something else than it means
    to. *)
From S2P Require Import Prelude JsString Json JsMonad ProtoText ProtoStr JsUri ProtoQuery ProtoForm EditPlace EditSafe EditChoice EditUse.

Module EditCases.
Import Js Edit EditSafe EditUse EditCycle.

Definition no_builtin (_ : jstring) : jstring := [].

(** The default options, with a handler for failures and perhaps an address from
    which the text is loaded. *)
Definition usual (failure : callback) (load : option jstring) : options :=
  Options KButton KLink (js "ok") (js "cancel") [] [] [] true false
    load (js "Loading...") (js "inplaceeditor-loading") false false Activate 1 3 0 0
    (js "value") (js "note-inplaceeditor") (js "inplaceeditor-form")
    (js "Saving...") (js "inplaceeditor-saving") [] (js "#ffff99") true (js "/notes/1") (js "Click to edit")
    NoCallback NoCallback Default Default failure Default NoCallback (default_params no_builtin).
Definition note (t : string) : element := Elem (js "note") (js t) true [] (js "white") [].
Definition from (o : options) (t : string) (es : list event) : editor := plain_run o no_builtin es (initialize o (note t)).
Definition shows (s : editor) : jstring := innerHTML (el s).

Lemma usual_calm f l : ends_ f -> calm (usual f l).
Proof. intros Hf. by repeat split. Qed.

(** The keys and answers of a session: an edit that is given up, an edit that
    fails, and a third one that is open. *)
Definition session : list event :=
  [Over; Click; Type_ (js "one"); CancelClick; Out; Click; Type_ (js "two"); Submit; Answer 0 false []; Click; Key 27 false;
   Click; Type_ (js "a & b")].

Lemma editor_modes_witness : follows (usual (Given None) None) (js "note")
  (step (usual (Given None) None) no_builtin (createEditField (usual (Given None) None)) (plain_loaded (usual (Given None) None))
     (handleAJAXFailure (usual (Given None) None))) session (initialize (usual (Given None) None) (note "text")) Idle /\
  editing (from (usual (Given None) None) "text" session) = true.
Proof.
  split; [|vm_compute; reflexivity].
  refine (proj1 (editor_modes (usual (Given None) None) (Choice.Choices None [] [] None) (fun _ => None) no_builtin (note "text") session
    (usual_calm (Given None) None ltac:(unfold ends_; discriminate)) eq_refl (or_introl (conj eq_refl eq_refl)))).
Defined.

Lemma edit_cycle_witness :
  let o := usual (Given None) None in let s := from o "text" session in
  let s1 := plain_run o no_builtin [Submit] s in
  (exists l, calls s1 = l ++ [Sent Save (js "/notes/1") (inl [(js "value", Json.VStr (js "a & b")); (js "editorId", Json.VStr (js "note"))]); Stopped]) /\
  shows (plain_run o no_builtin [Answer 1 true (js "<b>a</b>")] s1) = js "<b>a</b>" /\
  shows (plain_run o no_builtin [Answer 1 false []] s1) = js "text".
Proof.
  assert (Query.property_ok (js "value", Json.VStr (js "a & b"))) as Hok.
  { split; [done|]. split; [decided|]. split; [unfold Uri.unit16; decided|].
    apply Forall_cons_2; [unfold Query.text_ok, Uri.unit16; decided|apply Forall_nil_2]. }
  pose proof (edit_cycle (usual (Given None) None) no_builtin (note "text") session (js "a & b") (js "value=a%20%26%20b")
    (usual_calm (Given None) None ltac:(unfold ends_; discriminate)) eq_refl (or_introl eq_refl) eq_refl eq_refl ltac:(vm_compute; reflexivity)
    ltac:(vm_compute; reflexivity) ltac:(eexists; vm_compute; repeat split; reflexivity) Hok ltac:(vm_compute; reflexivity))
    as (HA & HB & HC & _).
  cbv zeta. split; [exact (proj2 HA)|]. split; [exact (proj2 (HB (js "<b>a</b>")))|].
  exact (proj2 (HC (or_intror eq_refl) ltac:(vm_compute; discriminate) [])).
Defined.

(** ** Failures *)

(** The library's own handler for failures throws before the old text is put
    back: the element shows the text for saving for good. *)
Lemma failure_keeps_saving :
  let s := from (usual Default None) "text" [Click; Type_ (js "new"); Submit; Answer 0 false []] in
  editing s = false /\ shows s = js "Saving...".
Proof. by vm_compute. Qed.

(** An empty text is not put back either. *)
Lemma empty_not_restored :
  shows (from (usual (Given None) None) "" [Click; Type_ (js "new"); Submit; Answer 0 false []]) = js "Saving...".
Proof. by vm_compute. Qed.

(** Escape while saving forgets the old text, so that a failure cannot put it
    back; and what is saved closes the next edit. *)
Lemma escape_while_saving :
  let es := [Click; Type_ (js "new"); Submit; Key 27 false] in
  shows (from (usual (Given None) None) "text" (es ++ [Answer 0 false []])) = js "Saving..." /\
  let s := from (usual (Given None) None) "text" (es ++ [Click; Type_ (js "next"); Answer 0 true (js "new")]) in
  the_form s = None /\ shows s = js "new".
Proof. by vm_compute. Qed.

(** Return while saving looks for the field, which is gone. *)
Lemma return_while_saving :
  let o := usual (Given None) None in
  (checkForEscapeOrReturn o no_builtin 13 false (from o "text" [Click; Submit])).1 = Exn TypeError.
Proof. by vm_compute. Qed.

(** ** Loading *)

(** The text that was asked for by an edit that was given up replaces what is
    entered in the next. *)
Lemma late_text_replaces :
  let o := usual (Given None) (Some (js "/notes/1.txt")) in
  let s := from o "text" [Click; CancelClick; Click; Answer 1 true (js "text"); Type_ (js "mine"); Answer 0 true (js "text")] in
  (fun fd => Form.c_value (f_control fd)) <$> the_field s = Some (js "text").
Proof. by vm_compute. Qed.

(** A form that is submitted before its text is there sends no text. *)
Lemma submitted_while_loading :
  let o := usual (Given None) (Some (js "/notes/1.txt")) in
  exists l, calls (from o "text" [Click; Submit]) =
    l ++ [Sent Save (js "/notes/1") (inl [(js "editorId", Json.VStr (js "note"))]); Stopped].
Proof. eexists (_ :: _ :: []). vm_compute. reflexivity. Qed.

(** ** Choices *)

(** A choice of two characters is taken for a value and a text. *)
Lemma two_letters_split : Choice.as_pair (inl (js "no")) = (js "n", js "o") /\ Choice.as_pair (inl (js "yes")) = (js "yes", js "yes").
Proof. done. Qed.

(** A list of choices that cannot be loaded stays disabled; the handler for
    failures is not called. *)
Lemma failed_choices_disabled :
  let o := usual (Given None) None in
  let s := Choice.choice_run o (Choice.Choices (Some (js "/choices")) (js "Loading options...") [] None) (fun _ => None) no_builtin
             [Click; Answer 0 false []] (initialize o (note "yes")) in
  (fun fd => Form.c_disabled (f_control fd)) <$> the_field s = Some true /\
  existsb (fun c => match c with Called n => String.eqb n "onFailure" | _ => false end) (calls s) = false.
Proof. by vm_compute. Qed.

(** Two controls that are both switched off are not. *)
Lemma both_off_ignored : deprecated_control (Some false) (Some false) = None /\ deprecated_control None (Some false) = Some KNone.
Proof. done. Qed.
End EditCases.
