(* ===== verification/DragPage.v ===== *)
(** * A page on which elements are moved

    The elements of a page as numbers with their parents and children, which
    change when an element is put somewhere else, and the lists whose elements can
    be dragged: [Sortable] of dragdrop.js.  The state of the whole library is
    here; [Drop] and [Drag] have the handlers. *)
From Stdlib Require Import QArith.
From S2P Require Import Prelude JsString JsMonad Json ProtoText ProtoStr JsUri JsRegex.
Open Scope Z_scope.

Module DragPage.
Import Js.

(** ** State *)

Notation point := (Z * Z)%type.

(** What a target does when an element is over it. *)
Inductive hover := NoHover | SortHover | EmptyHover | PageHover (n : nat).

Record drop := Drop {
  d_element : nat; containers : option (list nat); accept : option (list jstring);
  d_tree : bool; hoverclass : jstring; onHover_ : hover; onDrop : option nat
}.
#[global] Instance hover_eq : EqDecision hover := ltac:(solve_decision).
#[global] Instance drop_eq : EqDecision drop := ltac:(solve_decision).

(** The orientation of a list. *)
Inductive way := Vertical | Horizontal.
Record sortable := Sortable {
  s_element : nat; s_tag : jstring; s_treeTag : jstring; only : option (list jstring);
  s_overlap : way; s_tree : bool; dropOnEmpty : bool; s_ghosting : bool;
  format : jstring -> option jstring;                (** the first group of the match *)
  s_draggables : list nat; s_droppables : list nat
}.

Inductive snapping := NoSnap | Snap (n : Z) | SnapXY (x y : Z).
Inductive reverting := NoRevert | Revert | RevertFailure.
Record drag_options := DragOptions {
  delay : bool; snap : snapping; vertical : bool; horizontal : bool;  (** what [constraint] permits *)
  revert : reverting; quiet : bool; ghosting : bool; zindex : option Z;
  starteffect : bool; endeffect : bool; reverteffect : bool;
  o_onStart : bool; o_onDrag : bool; o_onEnd : bool; change : bool; onDropped : bool
}.
Record draggable := Draggable {
  g_element : nat; options : drag_options;
  dragging : bool; delta : option point; offset : option point;
  originalZ : option Z; clone : bool; listening_down : bool
}.

(** The observers of [Draggables]: a list that may have changed, with its items
    when the drag began, or some other with the events that it takes. *)
Inductive observer := ListObserver (el : nat) (lastValue : jstring) | PageObserver (el n : nat) (start drag end_ : bool).
Definition observed (o : observer) : nat := match o with ListObserver e _ | PageObserver e _ _ _ _ => e end.

Inductive phase := OnStart | OnDrag | OnEnd.
Inductive call :=
  | Notify (p : phase) (g : nat)                       (** [Draggables.notify] *)
  | Option (name : string) (el : nat)                  (** a function among the options *)
  | Observer (p : phase) (n : nat) (g : nat)
  | OnHover (n el drop : nat) | Dropped (n el drop : nat)
  | OnChange (sortable el : nat) | OnUpdate (sortable : nat)
  | Marker (drop : nat) (before : bool) | MarkerHidden | Stopped | WindowFocus.

Record world := World {
  parent : gmap nat nat; kids : gmap nat (list nat);
  classes : gmap nat (list jstring); treeNode : gmap nat nat; hidden : gset nat;
  place : gmap nat point; zIndex : gmap nat (option Z);
  drops : list drop; last_active : option drop;
  sortables : list (jstring * sortable);
  draggables : gmap nat draggable; drags : list nat; next_drag : nat;
  active : option nat; timeout : option nat; lastPointer : option point;
  busy : gmap jstring bool;                            (** [Draggable._dragging] *)
  listening : bool; observers : list observer;
  calls : list call
}.

Definition set_tree p k w := World p k (classes w) (treeNode w) (hidden w) (place w) (zIndex w) (drops w) (last_active w) (sortables w) (draggables w) (drags w) (next_drag w) (active w) (timeout w) (lastPointer w) (busy w) (listening w) (observers w) (calls w).
Definition set_classes c w := World (parent w) (kids w) c (treeNode w) (hidden w) (place w) (zIndex w) (drops w) (last_active w) (sortables w) (draggables w) (drags w) (next_drag w) (active w) (timeout w) (lastPointer w) (busy w) (listening w) (observers w) (calls w).
Definition set_treeNode t w := World (parent w) (kids w) (classes w) t (hidden w) (place w) (zIndex w) (drops w) (last_active w) (sortables w) (draggables w) (drags w) (next_drag w) (active w) (timeout w) (lastPointer w) (busy w) (listening w) (observers w) (calls w).
Definition set_hidden h w := World (parent w) (kids w) (classes w) (treeNode w) h (place w) (zIndex w) (drops w) (last_active w) (sortables w) (draggables w) (drags w) (next_drag w) (active w) (timeout w) (lastPointer w) (busy w) (listening w) (observers w) (calls w).
Definition set_place p w := World (parent w) (kids w) (classes w) (treeNode w) (hidden w) p (zIndex w) (drops w) (last_active w) (sortables w) (draggables w) (drags w) (next_drag w) (active w) (timeout w) (lastPointer w) (busy w) (listening w) (observers w) (calls w).
Definition set_zIndex z w := World (parent w) (kids w) (classes w) (treeNode w) (hidden w) (place w) z (drops w) (last_active w) (sortables w) (draggables w) (drags w) (next_drag w) (active w) (timeout w) (lastPointer w) (busy w) (listening w) (observers w) (calls w).
Definition set_drops d w := World (parent w) (kids w) (classes w) (treeNode w) (hidden w) (place w) (zIndex w) d (last_active w) (sortables w) (draggables w) (drags w) (next_drag w) (active w) (timeout w) (lastPointer w) (busy w) (listening w) (observers w) (calls w).
Definition set_last d w := World (parent w) (kids w) (classes w) (treeNode w) (hidden w) (place w) (zIndex w) (drops w) d (sortables w) (draggables w) (drags w) (next_drag w) (active w) (timeout w) (lastPointer w) (busy w) (listening w) (observers w) (calls w).
Definition set_sortables s w := World (parent w) (kids w) (classes w) (treeNode w) (hidden w) (place w) (zIndex w) (drops w) (last_active w) s (draggables w) (drags w) (next_drag w) (active w) (timeout w) (lastPointer w) (busy w) (listening w) (observers w) (calls w).
Definition set_draggables d n w := World (parent w) (kids w) (classes w) (treeNode w) (hidden w) (place w) (zIndex w) (drops w) (last_active w) (sortables w) d (drags w) n (active w) (timeout w) (lastPointer w) (busy w) (listening w) (observers w) (calls w).
Definition set_drags d w := World (parent w) (kids w) (classes w) (treeNode w) (hidden w) (place w) (zIndex w) (drops w) (last_active w) (sortables w) (draggables w) d (next_drag w) (active w) (timeout w) (lastPointer w) (busy w) (listening w) (observers w) (calls w).
Definition set_active a w := World (parent w) (kids w) (classes w) (treeNode w) (hidden w) (place w) (zIndex w) (drops w) (last_active w) (sortables w) (draggables w) (drags w) (next_drag w) a (timeout w) (lastPointer w) (busy w) (listening w) (observers w) (calls w).
Definition set_timeout t w := World (parent w) (kids w) (classes w) (treeNode w) (hidden w) (place w) (zIndex w) (drops w) (last_active w) (sortables w) (draggables w) (drags w) (next_drag w) (active w) t (lastPointer w) (busy w) (listening w) (observers w) (calls w).
Definition set_lastPointer p w := World (parent w) (kids w) (classes w) (treeNode w) (hidden w) (place w) (zIndex w) (drops w) (last_active w) (sortables w) (draggables w) (drags w) (next_drag w) (active w) (timeout w) p (busy w) (listening w) (observers w) (calls w).
Definition set_busy b w := World (parent w) (kids w) (classes w) (treeNode w) (hidden w) (place w) (zIndex w) (drops w) (last_active w) (sortables w) (draggables w) (drags w) (next_drag w) (active w) (timeout w) (lastPointer w) b (listening w) (observers w) (calls w).
Definition set_listening b w := World (parent w) (kids w) (classes w) (treeNode w) (hidden w) (place w) (zIndex w) (drops w) (last_active w) (sortables w) (draggables w) (drags w) (next_drag w) (active w) (timeout w) (lastPointer w) (busy w) b (observers w) (calls w).
Definition set_observers o w := World (parent w) (kids w) (classes w) (treeNode w) (hidden w) (place w) (zIndex w) (drops w) (last_active w) (sortables w) (draggables w) (drags w) (next_drag w) (active w) (timeout w) (lastPointer w) (busy w) (listening w) o (calls w).
Definition log c w := World (parent w) (kids w) (classes w) (treeNode w) (hidden w) (place w) (zIndex w) (drops w) (last_active w) (sortables w) (draggables w) (drags w) (next_drag w) (active w) (timeout w) (lastPointer w) (busy w) (listening w) (observers w) (calls w ++ [c]).

(** ** The tree *)

Definition kids_of (p : nat) (w : world) : list nat := default [] (kids w !! p).
Definition classes_of (e : nat) (w : world) : list jstring := default [] (classes w !! e).

Fixpoint insert_before (n : nat) (ref : option nat) (l : list nat) : list nat :=
  match l, ref with
  | x :: l', Some r => if decide (x = r) then n :: l else x :: insert_before n ref l'
  | x :: l', None => x :: insert_before n ref l'
  | [], _ => [n]
  end.
Definition without (n : nat) (l : list nat) : list nat := filter (fun x => x <> n) l.

(** The neighbours of a child among the children. *)
Fixpoint next_in (n : nat) (l : list nat) : option nat :=
  match l with x :: l' => if decide (x = n) then head l' else next_in n l' | [] => None end.
Definition previous_in (n : nat) (l : list nat) : option nat := next_in n (rev l).
Definition nextSibling (n : nat) (w : world) : option nat := p ← parent w !! n; next_in n (kids_of p w).
Definition previousSibling (n : nat) (w : world) : option nat := p ← parent w !! n; previous_in n (kids_of p w).

(** Taking a node out of its parent, and putting it in front of a child. *)
Definition detach (n : nat) (w : world) : world :=
  match parent w !! n with
  | Some p => set_tree (delete n (parent w)) (<[p := without n (kids_of p w)]> (kids w)) w
  | None => w
  end.
Definition attach (p n : nat) (ref : option nat) (w : world) : world :=
  set_tree (<[n := p]> (parent w)) (<[p := insert_before n ref (kids_of p w)]> (kids w)) w.

(** The fuel of the walks up and down: no path is longer. *)
Definition depth_fuel (w : world) : nat := S (size (parent w)).

Fixpoint is_parent (fuel : nat) (w : world) (child element : nat) : bool :=
  match fuel with
  | O => false
  | S fuel =>
      match parent w !! child with
      | None => false
      | Some p => if decide (child = element) then false else if decide (p = element) then true else is_parent fuel w p element
      end
  end.
(** src/piql/scadr/src/main/rails/public/javascripts/dragdrop.js:947-951
    [Element.isParent(child, element)] *)
Definition isParent (w : world) (child element : nat) : bool := is_parent (depth_fuel w) w child element.

(** [p.insertBefore(n, ref)]: what would put a node below itself, or before what is
    no child, throws. *)
Definition insertBefore (p n : nat) (ref : option nat) : M world unit :=
  w ← get;
  if bool_decide (p = n) || isParent w p n then throw Thrown
  else if match ref with Some r => negb (bool_decide (r ∈ kids_of p w)) | None => false end then throw Thrown
  else
    let ref := match ref with Some r => if decide (r = n) then nextSibling n w else ref | None => None end in
    modify (fun w => attach p n ref (detach n w)).

Section page.
(** The names and the ids of elements; other nodes have no name. *)
Variable tag : nat -> option jstring.
Variable ident : nat -> jstring.

Definition same_tag (e : nat) (t : jstring) : bool :=
  match tag e with Some u => bool_decide (toUpperCase u = toUpperCase t) | None => false end.
Definition fits (only : option (list jstring)) (tagName : jstring) (w : world) (e : nat) : bool :=
  same_tag e tagName && match only with None => true | Some l => existsb (fun c => bool_decide (c ∈ l)) (classes_of e w) end.

Fixpoint find_children (fuel : nat) (w : world) (element : nat) (only : option (list jstring)) (recursive : bool) (tagName : jstring) : list nat :=
  match fuel with
  | O => []
  | S fuel =>
      concat (map (fun e => (if fits only tagName w e then [e] else []) ++
                            (if recursive then find_children fuel w e only recursive tagName else [])) (kids_of element w))
  end.
(** src/piql/scadr/src/main/rails/public/javascripts/dragdrop.js:953-969
    [Element.findChildren(element, only, recursive, tagName)]; that it is [null]
    for an element without children makes no difference to its callers. *)
Definition findChildren (w : world) := find_children (depth_fuel w) w.
End page.
End DragPage.
