(* ===== verification/SortList.v ===== *)
(** * Lists that are sorted by dragging

    [Sortable]: where a dragged element is put when it is over another, the order
    of a list as the ids of its elements, and the texts that are sent for it. *)
From Stdlib Require Import QArith.
From S2P Require Import Prelude JsString JsMonad Json ProtoText ProtoStr JsUri JsRegex DragPage.
Open Scope Z_scope.

Module Sort.
Import Js DragPage.

(** [SERIALIZE_RULE]: what comes behind the last underscore that word characters
    and dashes lead to. *)
Definition c_minus : Z := 45.
Definition c_underline : Z := 95.
Definition name_char (c : Z) : bool :=
  ((65 <=? c) && (c <=? 90)) || ((97 <=? c) && (c <=? 122)) || ((48 <=? c) && (c <=? 57)) || (c =? c_minus) || (c =? c_underline).
Definition rule : Regex.regex :=
  Regex.Seq Regex.Start (Regex.Seq (Regex.Class (fun c => negb ((c =? c_underline) || (c =? c_minus))))
    (Regex.Seq (Regex.Star true (Regex.Class name_char)) (Regex.Seq (Regex.Char c_underline)
      (Regex.Seq (Regex.Group 1 (Regex.Star true Regex.dot)) Regex.End)))).
(** src/piql/scadr/src/main/rails/public/javascripts/dragdrop.js:593-593
    [Sortable.SERIALIZE_RULE], and [id.match(format)[1]] for it. *)
Definition SERIALIZE_RULE (id : jstring) : option jstring :=
  m ← Regex.exec 1 rule id; Regex.group m 1.

Fixpoint assoc {A} (k : jstring) (l : list (jstring * A)) : option A :=
  match l with [] => None | (k', v) :: l => if bool_decide (k = k') then Some v else assoc k l end.

Section Sort.
Variable tag : nat -> option jstring.
Variable ident : nat -> jstring.
Notation M := (M world).

Definition sortable_at (e : nat) (w : world) : option sortable :=
  match ident e with [] => None | i => assoc i (sortables w) end.

Fixpoint find_root (fuel : nat) (e : nat) : M (option nat) :=
  match fuel with
  | O => throw Hang
  | S fuel =>
      t ← need (tag e);
      if bool_decide (toUpperCase t = js "BODY") then mret None
      else
        w ← get;
        match sortable_at e w with
        | Some _ => mret (Some e)
        | None => p ← need (parent w !! e); find_root fuel p
        end
  end.
(** src/piql/scadr/src/main/rails/public/javascripts/dragdrop.js:597-602
    [_findRootElement(element)]: beyond the top of the page it throws. *)
Definition findRootElement (e : nat) : M (option nat) := w ← get; find_root (S (depth_fuel w)) e.

(** src/piql/scadr/src/main/rails/public/javascripts/dragdrop.js:604-608
    [options(element)] *)
Definition options_of (e : nat) : M (option sortable) :=
  r ← findRootElement e; w ← get; mret (r ≫= fun e => sortable_at e w).

(** src/piql/scadr/src/main/rails/public/javascripts/dragdrop.js:741-744
    [findElements(element, options)] *)
Definition findElements (e : nat) (only : option (list jstring)) (tree : bool) (t : jstring) (w : world) : list nat :=
  findChildren tag w e only tree t.

(** src/piql/scadr/src/main/rails/public/javascripts/dragdrop.js:813-815
    [unmark()] *)
Definition unmark : M unit := modify (log MarkerHidden).

(** src/piql/scadr/src/main/rails/public/javascripts/dragdrop.js:817-838
    [mark(dropon, position)]: the place of the marker is left out; what is read of
    no options throws. *)
Definition mark (dropon : nat) (before : bool) : M unit :=
  w ← get;
  p ← need (parent w !! dropon);
  s ← options_of p;
  match s with
  | Some s => when (s_ghosting s) (modify (log (Marker dropon before)))
  | None => if before then modify (log (Marker dropon before)) else throw TypeError
  end.

(** [Sortable.options(parent).onChange(element)] *)
Definition changed (p element : nat) : M unit :=
  o ← options_of p; o ← need o; modify (log (OnChange (s_element o) element)).

Definition Qltb (x y : Q) : bool := negb (Qle_bool y x).

(** One of the two branches of [onHover]: the element is put in front of [next]. *)
Definition put (element dropon : nat) (next : option nat) : M unit :=
  w ← get;
  let oldParentNode := parent w !! element in
  modify (fun w => set_hidden ({[element]} ∪ hidden w) w);;
  p ← need (parent w !! dropon);
  insertBefore p element next;;
  (if bool_decide (Some p = oldParentNode) then mret tt else q ← need oldParentNode; changed q element);;
  changed p element.

(** src/piql/scadr/src/main/rails/public/javascripts/dragdrop.js:751-778
    [onHover(element, dropon, overlap)] *)
Definition onHover (element dropon : nat) (overlap : Q) : M unit :=
  w ← get;
  if isParent w dropon element then mret tt
  else
    inner ← (if Qltb (33 # 100) overlap && Qltb overlap (66 # 100)
             then o ← options_of dropon; o ← need o; mret (s_tree o) else mret false);
    if (inner : bool) then mret tt
    else if Qltb (1 # 2) overlap then
      mark dropon true;;
      w ← get;
      if bool_decide (previousSibling dropon w = Some element) then mret tt else put element dropon (Some dropon)
    else
      mark dropon false;;
      w ← get;
      if bool_decide (nextSibling dropon w = Some element) then mret tt
      else put element dropon (nextSibling dropon w).

(** The child before which an element is put in an empty space: the sizes of the
    children in the orientation of the list are taken off one after the other. *)
Fixpoint child_at (size : nat -> Q) (offset : Q) (l : list nat) : option nat :=
  match l with
  | [] => None
  | c :: l =>
      if Qle_bool 0 (offset - size c) then child_at size (offset - size c) l
      else if Qle_bool 0 (offset - size c / 2) then head l
      else Some c
  end.

(** src/piql/scadr/src/main/rails/public/javascripts/dragdrop.js:780-811
    [onEmptyHover(element, dropon, overlap)]; [size] is [Element.offsetSize] in an
    orientation. *)
Definition onEmptyHover (size : way -> nat -> Q) (element dropon : nat) (overlap : Q) : M unit :=
  w ← get;
  let oldParentNode := parent w !! element in
  droponOptions ← options_of dropon;
  if isParent w dropon element then mret tt
  else
    o ← need droponOptions;
    let children := findElements dropon (only o) false (s_tag o) w in
    let child := child_at (size (s_overlap o)) (size (s_overlap o) dropon * (1 - overlap))%Q children in
    insertBefore dropon element child;;
    q ← need oldParentNode; changed q element;;
    modify (log (OnChange (s_element o) element)).

(** ** The order of a list *)

(** src/piql/scadr/src/main/rails/public/javascripts/dragdrop.js:898-905
    [sequence(element)]: an id that does not fit the format gives an empty text. *)
Definition sequence_of (o : sortable) (e : nat) (w : world) : list jstring :=
  map (fun x => default [] (format o (ident x))) (findElements e (only o) (s_tree o) (s_tag o) w).
Definition sequence (e : nat) : M (list jstring) :=
  o ← options_of e; o ← need o; w ← get; mret (sequence_of o e w).

(** The elements by what the format takes of their ids: the last of equal ones. *)
Definition node_map (o : sortable) (w : world) (l : list nat) : list (jstring * (nat * nat)) :=
  fold_left (fun m n =>
    match format o (ident n), parent w !! n with
    | Some i, Some p => (i, (n, p)) :: filter (fun q => q.1 <> i) m
    | _, _ => m
    end) l [].

(** src/piql/scadr/src/main/rails/public/javascripts/dragdrop.js:907-925
    [setSequence(element, new_sequence)]: every element is taken out, and those
    that are named are appended to the parents they had; names that every object
    has, like [constructor], are left out.  This is what happens once [findElements]
    has given a list: of an element without children it gives [null], for which
    [setSequence] below throws. *)
Definition setSequence_of (o : sortable) (e : nat) (new_sequence : list jstring) (w : world) : world :=
  let l := findElements e (only o) (s_tree o) (s_tag o) w in
  let nodeMap := node_map o w l in
  let w := fold_left (fun w n => detach n w) l w in
  (fold_left (fun '(m, w) i =>
     match assoc i m with
     | Some (n, p) => (filter (fun q => q.1 <> i) m, attach p n None (detach n w))
     | None => (m, w)
     end) new_sequence (nodeMap, w)).2.
Definition setSequence (e : nat) (new_sequence : list jstring) : M unit :=
  o ← options_of e; o ← need o; w ← get;
  _ ← need (head (kids_of e w));
  modify (setSequence_of o e new_sequence).

(** ** Trees *)

Inductive tnode := TNode (id : jstring) (position : nat) (children : list tnode).
Definition children_of (t : tnode) : list tnode := match t with TNode _ _ l => l end.

(** The first element below an element, in the order of the page, with a name. *)
Fixpoint down (fuel : nat) (w : world) (e : nat) (t : jstring) : option nat :=
  match fuel with
  | O => None
  | S fuel =>
      (fix first (l : list nat) : option nat :=
         match l with
         | [] => None
         | c :: l => if same_tag tag c t then Some c else match down fuel w c t with Some d => Some d | None => first l end
         end) (kids_of e w)
  end.

Fixpoint tree_loop (fuel : nat) (o : sortable) (w : world) (element : nat) (parent_children : list tnode) : Text.outcome (list tnode) :=
  match fuel with
  | O => Text.Diverges
  | S fuel =>
      (fix each (l : list nat) (acc : list tnode) : Text.outcome (list tnode) :=
         match l with
         | [] => mret acc
         | c :: l =>
             match format o (ident c) with
             | None => each l acc
             | Some m =>
                 i ← Uri.encodeURIComponent m;
                 ch ← match down (depth_fuel w) w c (s_treeTag o) with
                      | Some container => tree_loop fuel o w container []
                      | None => mret []
                      end;
                 each l (acc ++ [TNode i (length acc) ch])
             end
         end) (findElements element (only o) false (s_tag o) w) parent_children
  end.
(** src/piql/scadr/src/main/rails/public/javascripts/dragdrop.js:840-865
    [_tree(element, options, parent)] and [tree(element)] of lines 867 to 887: the
    children of the root. *)
Definition tree_of (o : sortable) (e : nat) (w : world) : Text.outcome (list tnode) := tree_loop (depth_fuel w) o w e [].

(** The decimal digits of a position in brackets. *)
Definition bracketed (n : nat) : jstring := [91] ++ num_str (Z.of_nat n) ++ [93].

(** src/piql/scadr/src/main/rails/public/javascripts/dragdrop.js:890-896
    [_constructIndex(node)], from the indices of the parents: a node with an empty
    id has none. *)
Definition constructIndex (above : jstring) (t : tnode) : jstring :=
  match t with TNode [] _ _ => above | TNode _ p _ => above ++ bracketed p end.

Fixpoint serialize_node (name above : jstring) (t : tnode) : Text.outcome (list jstring) :=
  match t with
  | TNode i p l =>
      let idx := constructIndex above t in
      e ← Uri.encodeURIComponent i;
      rest ← (fix each (l : list tnode) : Text.outcome (list jstring) :=
                match l with
                | [] => mret []
                | t :: l => a ← serialize_node name idx t; b ← each l; mret (a ++ b)
                end) l;
      mret ((name ++ idx ++ js "[id]=" ++ e) :: rest)
  end.

Fixpoint mapM_list {A B} (f : A -> Text.outcome B) (l : list A) : Text.outcome (list B) :=
  match l with [] => mret [] | x :: l => y ← f x; ys ← mapM_list f l; mret (y :: ys) end.

(** src/piql/scadr/src/main/rails/public/javascripts/dragdrop.js:927-943
    [serialize(element)] without further options *)
Definition serialize_of (o : sortable) (e : nat) (w : world) : Text.outcome jstring :=
  name ← Uri.encodeURIComponent (ident e);
  if s_tree o then
    l ← tree_of o e w; ls ← mapM_list (serialize_node name []) l; mret (join [c_amp] (concat ls))
  else
    ls ← mapM_list (fun i => i ← Uri.encodeURIComponent i; mret (name ++ js "[]=" ++ i)) (sequence_of o e w);
    mret (join [c_amp] ls).
Definition lift {A} (o : Text.outcome A) : M A :=
  match o with Text.Returns a => mret a | Text.Throws => throw URIError | Text.Diverges => throw Hang end.
Definition serialize (e : nat) : M jstring :=
  o ← options_of e; o ← need o; w ← get; lift (serialize_of o e w).
End Sort.
End Sort.
