(* ===== verification/DragDrop.v ===== *)
(** * Dragging and dropping

    [Droppables] is told where the pointer is and keeps the target that the dragged
    element is over; [Draggables] takes the mouse events of the page for the
    element that is dragged; a [Draggable] moves with the pointer and tells
    everybody about it; a [Sortable] puts all of this on the elements of a list.
    What the browser knows about the layout comes with each event. *)
From Stdlib Require Import QArith.
From S2P Require Import Prelude JsString JsMonad Json ProtoText ProtoStr JsUri JsRegex DragPage SortList.
Open Scope Z_scope.

Module Drop.
Import Js DragPage Sort.

(** What is asked of the browser when the mouse moves. *)
Record layout := Layout {
  within : nat -> point -> bool;              (** [Position.within] *)
  overlap : nat -> Q;                         (** [Position.overlap], for the last of these *)
  size : way -> nat -> Q;                     (** [Element.offsetSize] *)
  cumulativeOffset : nat -> point
}.

Section Drop.
Variable tag : nat -> option jstring.
Variable ident : nat -> jstring.
Notation M := (M world).

(** ** Targets *)

(** src/piql/scadr/src/main/rails/public/javascripts/dragdrop.js:13-15
    [Droppables.remove(element)] *)
Definition remove (e : nat) : M unit :=
  modify (fun w => set_drops (filter (fun d => d_element d <> e) (drops w)) w).

(** src/piql/scadr/src/main/rails/public/javascripts/dragdrop.js:17-42
    [Droppables.add(element, options)]; [makePositioned] changes the style. *)
Definition add (d : drop) : M unit := modify (fun w => set_drops (drops w ++ [d]) w).

(** src/piql/scadr/src/main/rails/public/javascripts/dragdrop.js:44-52
    [findDeepestChild(drops)], for drops that are there *)
Definition findDeepestChild (w : world) (first : drop) (rest : list drop) : drop :=
  fold_left (fun deepest d => if isParent w (d_element d) (d_element deepest) then d else deepest) rest first.

(** src/piql/scadr/src/main/rails/public/javascripts/dragdrop.js:54-62
    [isContained(element, drop)] *)
Definition isContained (w : world) (e : nat) (d : drop) : bool :=
  let containmentNode := if d_tree d then treeNode w !! e else parent w !! e in
  match containers d, containmentNode with
  | Some l, Some c => bool_decide (c ∈ l)
  | _, _ => false
  end.

(** src/piql/scadr/src/main/rails/public/javascripts/dragdrop.js:64-73
    [isAffected(point, element, drop)] *)
Definition isAffected (ly : layout) (w : world) (p : point) (e : nat) (d : drop) : bool :=
  negb (bool_decide (d_element d = e)) &&
  match containers d with None => true | Some _ => isContained w e d end &&
  match accept d with None => true | Some l => existsb (fun c => bool_decide (c ∈ l)) (classes_of e w) end &&
  within ly (d_element d) p.

Definition add_class (c : jstring) (l : list jstring) : list jstring := if bool_decide (c ∈ l) then l else l ++ [c].
Fixpoint remove_class (c : jstring) (l : list jstring) : list jstring :=
  match l with [] => [] | d :: l => if bool_decide (c = d) then l else d :: remove_class c l end.
Definition change_class (f : jstring -> list jstring -> list jstring) (d : drop) (w : world) : world :=
  match hoverclass d with
  | [] => w
  | c => set_classes (<[d_element d := f c (classes_of (d_element d) w)]> (classes w)) w
  end.

(** src/piql/scadr/src/main/rails/public/javascripts/dragdrop.js:75-79
    [Droppables.deactivate(drop)] *)
Definition deactivate (d : drop) : M unit := modify (fun w => set_last None (change_class remove_class d w)).

(** src/piql/scadr/src/main/rails/public/javascripts/dragdrop.js:81-85
    [Droppables.activate(drop)] *)
Definition activate (d : drop) : M unit := modify (fun w => set_last (Some d) (change_class add_class d w)).

(** [drop.onHover(element, drop.element, overlap)] *)
Definition call_hover (ly : layout) (e : nat) (d : drop) : M unit :=
  match onHover_ d with
  | NoHover => mret tt
  | SortHover => onHover tag ident e (d_element d) (overlap ly (d_element d))
  | EmptyHover => onEmptyHover tag ident (size ly) e (d_element d) (overlap ly (d_element d))
  | PageHover n => modify (log (OnHover n e (d_element d)))
  end.

(** src/piql/scadr/src/main/rails/public/javascripts/dragdrop.js:87-107
    [Droppables.show(point, element)] *)
Definition show (ly : layout) (p : point) (e : nat) : M unit :=
  w ← get;
  match drops w with
  | [] => mret tt
  | _ =>
      let drop := match filter (fun d => isAffected ly w p e d = true) (drops w) with
                  | [] => None | d :: l => Some (findDeepestChild w d l) end in
      match last_active w with
      | Some d => when (negb (bool_decide (drop = Some d))) (deactivate d)
      | None => mret tt
      end;;
      match drop with
      | None => mret tt
      | Some d =>
          call_hover ly e d;;
          w ← get; when (negb (bool_decide (last_active w = Some d))) (activate d)
      end
  end.

(** src/piql/scadr/src/main/rails/public/javascripts/dragdrop.js:109-118
    [Droppables.fire(event, element)] *)
Definition fire (ly : layout) (p : point) (e : nat) : M bool :=
  w ← get;
  match last_active w with
  | None => mret false
  | Some d =>
      if isAffected ly w p e d then
        match onDrop d with
        | Some n => modify (log (Dropped n e (d_element d)));; mret true
        | None => mret false
        end
      else mret false
  end.

(** src/piql/scadr/src/main/rails/public/javascripts/dragdrop.js:120-123
    [Droppables.reset()] *)
Definition reset : M unit :=
  w ← get; match last_active w with Some d => deactivate d | None => mret tt end.

(** ** The draggables of the page *)

Definition the (g : nat) : M draggable := w ← get; need (draggables w !! g).
Definition put_draggable (g : nat) (d : draggable) : M unit :=
  modify (fun w => set_draggables (<[g := d]> (draggables w)) (next_drag w) w).
Definition on (f : draggable -> draggable) (g : nat) : M unit := d ← the g; put_draggable g (f d).
Definition set_dragging b d := Draggable (g_element d) (options d) b (delta d) (offset d) (originalZ d) (clone d) (listening_down d).
Definition set_delta x d := Draggable (g_element d) (options d) (dragging d) x (offset d) (originalZ d) (clone d) (listening_down d).
Definition set_offset x d := Draggable (g_element d) (options d) (dragging d) (delta d) x (originalZ d) (clone d) (listening_down d).
Definition set_originalZ x d := Draggable (g_element d) (options d) (dragging d) (delta d) (offset d) x (clone d) (listening_down d).
Definition set_clone x d := Draggable (g_element d) (options d) (dragging d) (delta d) (offset d) (originalZ d) x (listening_down d).
Definition set_down x d := Draggable (g_element d) (options d) (dragging d) (delta d) (offset d) (originalZ d) (clone d) x.

(** src/piql/scadr/src/main/rails/public/javascripts/dragdrop.js:130-141
    [Draggables.register(draggable)] *)
Definition register (g : nat) : M unit :=
  w ← get;
  when (bool_decide (drags w = [])) (modify (set_listening true));;
  modify (fun w => set_drags (drags w ++ [g]) w).

(** src/piql/scadr/src/main/rails/public/javascripts/dragdrop.js:143-150
    [Draggables.unregister(draggable)] *)
Definition unregister (g : nat) : M unit :=
  modify (fun w => set_drags (filter (fun d => d <> g) (drags w)) w);;
  w ← get;
  when (bool_decide (drags w = [])) (modify (set_listening false)).

(** src/piql/scadr/src/main/rails/public/javascripts/dragdrop.js:152-163
    [Draggables.activate(draggable)]: of presses that follow each other without a
    release, while the first one waits, only the last is kept here. *)
Definition activate_draggable (g : nat) : M unit :=
  d ← the g;
  if delay (options d) then modify (set_timeout (Some g))
  else modify (log WindowFocus);; modify (set_active (Some g)).

(** src/piql/scadr/src/main/rails/public/javascripts/dragdrop.js:154-158
    [Draggables.activate]: its timer *)
Definition activation_timer : M unit :=
  w ← get;
  match timeout w with
  | Some g => modify (set_timeout None);; modify (log WindowFocus);; modify (set_active (Some g))
  | None => mret tt
  end.

(** src/piql/scadr/src/main/rails/public/javascripts/dragdrop.js:165-167
    [Draggables.deactivate()] *)
Definition deactivate_draggable : M unit := modify (set_active None).

(** src/piql/scadr/src/main/rails/public/javascripts/dragdrop.js:196-199
    [Draggables.addObserver(observer)] *)
Definition addObserver (o : observer) : M unit := modify (fun w => set_observers (observers w ++ [o]) w).

(** src/piql/scadr/src/main/rails/public/javascripts/dragdrop.js:201-204
    [Draggables.removeObserver(element)] *)
Definition removeObserver (e : nat) : M unit :=
  modify (fun w => set_observers (filter (fun o => observed o <> e) (observers w)) w).

(** Whether an observer takes an event, and what a list does with it:
    [SortableObserver.onStart] and [onEnd]. *)
Definition takes (p : phase) (o : observer) : bool :=
  match o, p with
  | ListObserver _ _, OnDrag => false
  | ListObserver _ _, _ => true
  | PageObserver _ _ s _ _, OnStart => s
  | PageObserver _ _ _ d _, OnDrag => d
  | PageObserver _ _ _ _ e, OnEnd => e
  end.
Definition observer_at (i : nat) (o : observer) : M unit := modify (fun w => set_observers (<[i := o]> (observers w)) w).

(** src/piql/scadr/src/main/rails/public/javascripts/dragdrop.js:581-589
    [SortableObserver.onStart] and [onEnd]; other observers are the page's. *)
Definition observe (p : phase) (g i : nat) (o : observer) : M unit :=
  match o, p with
  | ListObserver e _, OnStart => v ← serialize tag ident e; observer_at i (ListObserver e v)
  | ListObserver e v, OnEnd =>
      unmark;;
      v' ← serialize tag ident e;
      when (negb (bool_decide (v = v'))) (modify (log (OnUpdate e)))
  | ListObserver _ _, OnDrag => mret tt
  | PageObserver _ n _ _ _, _ => modify (log (Observer p n g))
  end.

Definition takes_option (p : phase) (o : drag_options) : bool :=
  match p with OnStart => o_onStart o | OnDrag => o_onDrag o | OnEnd => o_onEnd o end.

(** src/piql/scadr/src/main/rails/public/javascripts/dragdrop.js:206-212
    [Draggables.notify(eventName, draggable, event)]; the counts of
    [_cacheObserverCallbacks] say whether an observer takes the event. *)
Definition notify (p : phase) (g : nat) : M unit :=
  modify (log (Notify p g));;
  w ← get;
  when (existsb (takes p) (observers w))
    (iter (fun '(i, o) => when (takes p o) (observe p g i o)) (imap pair (observers w)));;
  d ← the g;
  when (takes_option p (options d))
    (modify (log (Option match p with OnStart => "onStart" | OnDrag => "onDrag" | OnEnd => "onEnd" end (g_element d)))).

(** ** One draggable *)

(** src/piql/scadr/src/main/rails/public/javascripts/dragdrop.js:294-298
    [currentDelta()]: the place of the element in pixels. *)
Definition currentDelta (w : world) (e : nat) : point := default (0, 0) (place w !! e).

(** src/piql/scadr/src/main/rails/public/javascripts/dragdrop.js:226-287
    [initialize(element, options)], for a handle that is the element *)
Definition new_draggable (e : nat) (o : drag_options) : M nat :=
  w ← get;
  let g := next_drag w in
  modify (set_draggables (<[g := Draggable e o false None None None false true]> (draggables w)) (S g));;
  register g;; mret g.

(** src/piql/scadr/src/main/rails/public/javascripts/dragdrop.js:289-292
    [destroy()] *)
Definition destroy (g : nat) : M unit := on (set_down false) g;; unregister g.

(** The key of an element in an object: the name of its class. *)
Definition element_key (e : nat) : jstring := default [] (tag e).
Definition form_control (t : jstring) : bool :=
  bool_decide (toUpperCase t ∈ [js "INPUT"; js "SELECT"; js "OPTION"; js "BUTTON"; js "TEXTAREA"]).

(** src/piql/scadr/src/main/rails/public/javascripts/dragdrop.js:300-320
    [initDrag(event)]: the left button goes down at [p] over the element [src]. *)
Definition initDrag (ly : layout) (g src : nat) (p : point) : M unit :=
  d ← the g; w ← get;
  if default false (busy w !! element_key (g_element d)) then mret tt
  else
    t ← need (tag src);
    if form_control t then mret tt
    else
      let pos := cumulativeOffset ly (g_element d) in
      on (set_offset (Some (p.1 - pos.1, p.2 - pos.2))) g;;
      activate_draggable g;;
      modify (log Stopped).

Definition start_effect (g : nat) : M unit :=
  d ← the g;
  when (starteffect (options d))
    (modify (fun w => set_busy (<[element_key (g_element d) := true]> (busy w)) w);;
     modify (log (Option "starteffect" (g_element d)))).

(** src/piql/scadr/src/main/rails/public/javascripts/dragdrop.js:322-354
    [startDrag(event)]; scrolling is left out. *)
Definition startDrag (g : nat) : M unit :=
  on (set_dragging true) g;;
  d ← the g; w ← get;
  when (negb (is_some (delta d))) (on (set_delta (Some (currentDelta w (g_element d)))) g);;
  match zindex (options d) with
  | Some z =>
      on (set_originalZ (default None (zIndex w !! g_element d))) g;;
      modify (fun w => set_zIndex (<[g_element d := Some z]> (zIndex w)) w)
  | None => mret tt
  end;;
  when (ghosting (options d)) (on (set_clone true) g);;
  notify OnStart g;;
  start_effect g.

(** src/piql/scadr/src/main/rails/public/javascripts/dragdrop.js:479-484
    [(v / snap).round() * snap]: halves are rounded up. *)
Definition round_to (s v : Z) : Z := ((2 * v + s) / (2 * s)) * s.
(** src/piql/scadr/src/main/rails/public/javascripts/dragdrop.js:474-485
    [draw]: the position that is permitted *)
Definition snapped (s : snapping) (p : point) : point :=
  match s with
  | NoSnap => p
  | Snap n => if n =? 0 then p else (round_to n p.1, round_to n p.2)
  | SnapXY x y => (round_to x p.1, round_to y p.2)
  end.

(** src/piql/scadr/src/main/rails/public/javascripts/dragdrop.js:456-495
    [draw(point)]; the offsets of a ghost and scrolling are left out. *)
Definition draw (ly : layout) (g : nat) (p : point) : M unit :=
  d ← the g; w ← get;
  o ← need (offset d);
  let pos := cumulativeOffset ly (g_element d) in
  let c := currentDelta w (g_element d) in
  let q := snapped (snap (options d)) (p.1 - (pos.1 - c.1) - o.1, p.2 - (pos.2 - c.2) - o.2) in
  modify (fun w => set_place (<[g_element d := (if horizontal (options d) then q.1 else c.1, if vertical (options d) then q.2 else c.2)]> (place w)) w);;
  modify (fun w => set_hidden (hidden w ∖ {[g_element d]}) w).

(** src/piql/scadr/src/main/rails/public/javascripts/dragdrop.js:356-394
    [updateDrag(event, pointer)], without scrolling *)
Definition updateDrag (ly : layout) (g : nat) (p : point) : M unit :=
  d ← the g;
  when (negb (dragging d)) (startDrag g);;
  when (negb (quiet (options d))) (show ly p (g_element d));;
  notify OnDrag g;;
  draw ly g p;;
  when (change (options d)) (modify (log (Option "change" (g_element d))));;
  modify (log Stopped).

(** [revert] and [dropped == 0 || revert != 'failure'] *)
Definition reverts (r : reverting) (dropped : bool) : bool :=
  match r with NoRevert => false | Revert => true | RevertFailure => negb dropped end.

(** src/piql/scadr/src/main/rails/public/javascripts/dragdrop.js:396-441
    [finishDrag(event, success)]; the effects that move the element back and make
    it opaque again are those of the page or of [FxKinds]. *)
Definition finishDrag (ly : layout) (g : nat) (p : point) (success : bool) : M unit :=
  on (set_dragging false) g;;
  d ← the g;
  let e := g_element d in
  when (quiet (options d)) (show ly p e);;
  when (ghosting (options d)) (when (negb (clone d)) (throw TypeError);; on (set_clone false) g);;
  dropped ← (if success then fire ly p e else mret false);
  when (dropped && onDropped (options d)) (modify (log (Option "onDropped" e)));;
  notify OnEnd g;;
  w ← get; d ← the g;
  let c := currentDelta w e in
  match revert (options d), reverteffect (options d) with
  | NoRevert, _ | _, false => on (set_delta (Some c)) g
  | r, true => when (reverts r dropped) (_ ← need (delta d); modify (log (Option "reverteffect" e)))
  end;;
  match zindex (options d) with
  | Some _ => modify (fun w => set_zIndex (<[e := originalZ d]> (zIndex w)) w)
  | None => mret tt
  end;;
  when (endeffect (options d)) (modify (log (Option "endeffect" e)));;
  deactivate_draggable;;
  reset.

(** The end of the effect at the end, line 242. *)
Definition end_effect_over (e : nat) : M unit :=
  modify (fun w => set_busy (<[element_key e := false]> (busy w)) w).

(** src/piql/scadr/src/main/rails/public/javascripts/dragdrop.js:449-454
    [endDrag(event)] *)
Definition endDrag (ly : layout) (g : nat) (p : point) : M unit :=
  d ← the g;
  if negb (dragging d) then mret tt else finishDrag ly g p true;; modify (log Stopped).

(** src/piql/scadr/src/main/rails/public/javascripts/dragdrop.js:443-447
    [keyPress(event)] *)
Definition keyPress (ly : layout) (g : nat) (p : point) (keyCode : Z) : M unit :=
  if negb (keyCode =? 27) then mret tt else finishDrag ly g p false;; modify (log Stopped).

(** ** The events of the page *)

(** src/piql/scadr/src/main/rails/public/javascripts/dragdrop.js:169-178
    [Draggables.updateDrag(event)] *)
Definition page_updateDrag (ly : layout) (p : point) : M unit :=
  w ← get;
  match active w with
  | None => mret tt
  | Some g =>
      if bool_decide (lastPointer w = Some p) then mret tt
      else modify (set_lastPointer (Some p));; updateDrag ly g p
  end.

(** src/piql/scadr/src/main/rails/public/javascripts/dragdrop.js:180-189
    [Draggables.endDrag(event)] *)
Definition page_endDrag (ly : layout) (p : point) : M unit :=
  modify (set_timeout None);;
  w ← get;
  match active w with
  | None => mret tt
  | Some g => modify (set_lastPointer None);; endDrag ly g p;; modify (set_active None)
  end.

(** src/piql/scadr/src/main/rails/public/javascripts/dragdrop.js:191-194
    [Draggables.keyPress(event)] *)
Definition page_keyPress (ly : layout) (p : point) (keyCode : Z) : M unit :=
  w ← get; match active w with Some g => keyPress ly g p keyCode | None => mret tt end.

(** ** Lists *)

Record list_options := ListOptions {
  l_sortable : sortable; containment : option (list nat); l_hoverclass : jstring; l_drag : drag_options
}.

Definition with_items (o : sortable) (gs ds : list nat) : sortable :=
  Sortable (s_element o) (s_tag o) (s_treeTag o) (only o) (s_overlap o) (s_tree o) (dropOnEmpty o) (s_ghosting o) (format o) gs ds.

(** src/piql/scadr/src/main/rails/public/javascripts/dragdrop.js:610-621
    [Sortable.destroy(element)] *)
Definition destroy_list (e : nat) : M unit :=
  w ← get;
  match assoc (ident e) (sortables w) with
  | Some s =>
      removeObserver (s_element s);;
      iter remove (s_droppables s);;
      iter destroy (s_draggables s);;
      modify (fun w => set_sortables (filter (fun q => q.1 <> ident (s_element s)) (sortables w)) w)
  | None => mret tt
  end.

(** A loop that collects the draggables of the elements. *)
Fixpoint make_draggables (o : list_options) (l : list nat) : M (list nat) :=
  match l with
  | [] => mret []
  | e :: l =>
      g ← new_draggable e (l_drag o);
      add (Drop e (containment o) None (s_tree (l_sortable o)) (l_hoverclass o) SortHover None);;
      (if s_tree (l_sortable o) then modify (fun w => set_treeNode (<[e := s_element (l_sortable o)]> (treeNode w)) w) else mret tt);;
      gs ← make_draggables o l; mret (g :: gs)
  end.

(** src/piql/scadr/src/main/rails/public/javascripts/dragdrop.js:623-738
    [Sortable.create(element, options)], for options that are complete and
    handles that are the elements *)
Definition create_list (o : list_options) : M unit :=
  let s := l_sortable o in
  let e := s_element s in
  let for_tree x := Drop x (containment o) None false (l_hoverclass o) EmptyHover None in
  destroy_list e;;
  (if dropOnEmpty s || s_tree s then add (for_tree e) else mret tt);;
  w ← get;
  let items := findElements tag e (only s) (s_tree s) (s_tag s) w in
  gs ← make_draggables o items;
  w ← get;
  let trees := if s_tree s then findElements tag e (only s) (s_tree s) (s_treeTag s) w else [] in
  iter (fun x => add (for_tree x);; modify (fun w => set_treeNode (<[x := e]> (treeNode w)) w)) trees;;
  let ds := (if dropOnEmpty s || s_tree s then [e] else []) ++ items ++ trees in
  modify (fun w => set_sortables ((ident e, with_items s gs ds) :: filter (fun q => q.1 <> ident e) (sortables w)) w);;
  v ← serialize tag ident e;
  addObserver (ListObserver e v).
End Drop.
End Drop.
