(* ===== verification/DragTree.v ===== *)
(** * The tree stays a tree

    What [isParent] finds, what putting an element somewhere else does to the
    children, and which target is the deepest; then where a dragged element is put
    in a list. *)
From Stdlib Require Import QArith.
From stdpp Require Import relations.
From S2P Require Import Prelude JsString ProtoText JsMonad ProtoEventSafe DragPage SortList DragDrop.
Open Scope Z_scope.

Module DragTree.
Import Js DragPage.

(** A tree: children and parents agree, and no node is above itself. *)
Definition child (w : world) (c p : nat) : Prop := parent w !! c = Some p.
Definition below (w : world) : nat -> nat -> Prop := tc (child w).
Record tree_ok (w : world) : Prop := {
  tree_kids : forall p c, c ∈ kids_of p w <-> child w c p;
  tree_once : forall p, NoDup (kids_of p w);
  tree_up : exists depth : nat -> nat, forall c p, child w c p -> (depth p < depth c)%nat }.

Lemma below_depth w depth : (forall c p, child w c p -> (depth p < depth c)%nat) -> forall c e, below w c e -> (depth e < depth c)%nat.
Proof. intros Hd c e H. induction H as [c p H|c p e H _ IH]; [by apply Hd|]. apply Hd in H. lia. Qed.

Lemma not_below_itself w e : tree_ok w -> ~ below w e e.
Proof. intros [_ _ (d & Hd)] H. apply (below_depth w d Hd) in H. lia. Qed.

(** The fuel of the walk up: the nodes with a parent that are at most as deep. *)
Definition no_deeper (w : world) (depth : nat -> nat) (c : nat) : gset nat := filter (fun x => (depth x <= depth c)%nat) (dom (parent w)).

Lemma is_parent_spec w depth : (forall c p, child w c p -> (depth p < depth c)%nat) ->
  forall fuel c e, (size (no_deeper w depth c) < fuel)%nat -> is_parent fuel w c e = true <-> below w c e.
Proof.
  intros Hd. induction fuel as [|fuel IH]; intros c e Hf; [lia|]. cbn [is_parent].
  destruct (parent w !! c) as [p|] eqn:Hp.
  - assert (child w c p) as Hcp by done.
    destruct (decide (c = e)) as [->|Hce].
    { split; [done|]. intros H. apply (below_depth w depth Hd) in H. lia. }
    destruct (decide (p = e)) as [->|Hpe]; [split; [|done]; intros _; by apply tc_once|].
    rewrite IH.
    + split; [intros H; by eapply tc_l|]. intros H. inversion H as [x y H1|x y z H1 H2]; subst; unfold child in *; [congruence|].
      rewrite Hp in H1. by injection H1 as ->.
    + assert (no_deeper w depth p ⊂ no_deeper w depth c) as Hsub.
      { split.
        - intros x. unfold no_deeper. rewrite !elem_of_filter. intros [H1 H2]. split; [|done]. apply Hd in Hcp. lia.
        - intros Hs. assert (c ∈ no_deeper w depth p) as Hc.
          { apply Hs. unfold no_deeper. apply elem_of_filter. split; [lia|]. by apply elem_of_dom. }
          unfold no_deeper in Hc. apply elem_of_filter in Hc as [Hc _]. apply Hd in Hcp. lia. }
      apply subset_size in Hsub. lia.
  - split; [done|]. intros H. inversion H as [x y H1|x y z H1 H2]; subst; unfold child in *; congruence.
Qed.

Lemma isParent_spec w c e : tree_ok w -> isParent w c e = true <-> below w c e.
Proof.
  intros [_ _ (d & Hd)]. apply (is_parent_spec w d Hd). unfold no_deeper, depth_fuel.
  assert (size (filter (fun x => (d x <= d c)%nat) (dom (parent w))) <= size (dom (parent w)))%nat as H
    by (apply subseteq_size; clear; set_solver).
  rewrite size_dom in H. lia.
Qed.

(** A page that is written down is a tree if this can be computed of it. *)
Lemma tree_checked w (depth : nat -> nat) :
  map_Forall (fun c p => c ∈ kids_of p w /\ (depth p < depth c)%nat) (parent w) ->
  map_Forall (fun p l => NoDup l /\ Forall (fun c => parent w !! c = Some p) l) (kids w) -> tree_ok w.
Proof.
  intros Hp Hk. split.
  - intros p c. split; [|intros H; by apply (Hp c p H)]. unfold kids_of. destruct (kids w !! p) as [l|] eqn:Hl; [|by intros ?%elem_of_nil].
    apply (Hk p l) in Hl as [_ Hl]. rewrite Forall_forall in Hl. apply Hl.
  - intros p. unfold kids_of. destruct (kids w !! p) as [l|] eqn:Hl; [|apply NoDup_nil_2]. by apply (Hk p l) in Hl as [Hl _].
  - exists depth. intros c p H. by apply (Hp c p H).
Qed.

(** ** The deepest target *)

(** Of the targets that a dragged element is over, the one that is taken has
    none of the others inside it. *)
Theorem deepest_has_none_inside w first rest : tree_ok w ->
  let d := Drop.findDeepestChild w first rest in
  d ∈ first :: rest /\ forall d', d' ∈ first :: rest -> ~ below w (d_element d') (d_element d).
Proof.
  intros Hw. unfold Drop.findDeepestChild.
  assert (forall rest seen best, best ∈ seen -> (forall d', d' ∈ seen -> ~ below w (d_element d') (d_element best)) ->
    let d := fold_left (fun deepest d => if isParent w (d_element d) (d_element deepest) then d else deepest) rest best in
    d ∈ seen ++ rest /\ forall d', d' ∈ seen ++ rest -> ~ below w (d_element d') (d_element d)) as H.
  { clear first rest. induction rest as [|x rest IH]; intros seen best Hin Hbest; cbn [fold_left].
    - by rewrite app_nil_r.
    - replace (seen ++ x :: rest) with ((seen ++ [x]) ++ rest) by (by rewrite <- app_assoc).
      destruct (isParent w (d_element x) (d_element best)) eqn:Hx.
      + apply isParent_spec in Hx; [|done]. apply IH; [apply elem_of_app; right; left|].
        intros d' [Hd| ->%list_elem_of_singleton]%elem_of_app Hb.
        * apply (Hbest d' Hd). by etrans.
        * by apply not_below_itself in Hb.
      + apply IH; [by apply elem_of_app; left|]. intros d' [Hd| ->%list_elem_of_singleton]%elem_of_app Hb; [by apply (Hbest d' Hd)|].
        apply isParent_spec in Hb; [congruence|done]. }
  apply (H rest [first] first); [left|]. intros d' ->%list_elem_of_singleton. by apply not_below_itself.
Qed.

(** ** Putting an element somewhere else *)

Lemma kids_insert p l w q : kids_of q (set_tree (parent w) (<[p := l]> (kids w)) w) = if decide (q = p) then l else kids_of q w.
Proof. unfold kids_of. cbn. case_decide; [subst; by rewrite lookup_insert_eq|by rewrite lookup_insert_ne]. Qed.

Lemma elem_of_without x n l : x ∈ without n l <-> x ∈ l /\ x <> n.
Proof. unfold without. rewrite list_elem_of_filter. tauto. Qed.

Lemma elem_of_insert_before x n ref l : x ∈ insert_before n ref l <-> x = n \/ x ∈ l.
Proof.
  induction l as [|y l IH]; cbn [insert_before]; [rewrite list_elem_of_singleton; set_solver|].
  destruct ref as [r|]; [case_decide|]; rewrite ?elem_of_cons, ?IH; tauto.
Qed.

Lemma insert_before_once n ref l : n ∉ l -> NoDup l -> NoDup (insert_before n ref l).
Proof.
  induction l as [|y l IH]; cbn [insert_before]; intros Hn Hl; [apply NoDup_singleton|].
  apply not_elem_of_cons in Hn as [Hny Hn]. apply NoDup_cons in Hl as [Hy Hl].
  assert (NoDup (y :: insert_before n ref l)) as H.
  { apply NoDup_cons. split; [|by apply IH]. rewrite elem_of_insert_before. intros [->|]; done. }
  destruct ref as [r|]; [|done]. case_decide; [|done]. apply NoDup_cons. split; [|apply NoDup_cons; by split].
  rewrite elem_of_cons. tauto.
Qed.

Lemma detach_spec n w : tree_ok w ->
  (forall p, kids_of p (detach n w) = without n (kids_of p w)) /\
  (forall c, parent (detach n w) !! c = if decide (c = n) then None else parent w !! c).
Proof.
  intros [Hk Ho _]. unfold detach. destruct (parent w !! n) as [p|] eqn:Hp.
  - split.
    + intros q. unfold kids_of at 1. cbn. destruct (decide (q = p)) as [->|Hq]; [by rewrite lookup_insert_eq|].
      rewrite lookup_insert_ne by done. change (default [] (kids w !! q)) with (kids_of q w).
      unfold without. rewrite EventSafe.filter_unmet; [done|]. intros x Hx ->. apply Hk in Hx. unfold child in Hx. congruence.
    + intros c. cbn. case_decide; [subst; by rewrite lookup_delete_eq|by rewrite lookup_delete_ne].
  - split; [|intros c; case_decide; by subst]. intros q. unfold without. rewrite EventSafe.filter_unmet; [done|].
    intros x Hx ->. apply Hk in Hx. unfold child in Hx. congruence.
Qed.

(** What an element that is moved does to the children and the parents. *)
Definition moved (p n : nat) (ref : option nat) (w w' : world) : Prop :=
  (forall q, kids_of q w' = if decide (q = p) then insert_before n ref (without n (kids_of p w)) else without n (kids_of q w)) /\
  (forall c, parent w' !! c = if decide (c = n) then Some p else parent w !! c).

Lemma attach_moved p n ref w : tree_ok w -> moved p n ref w (attach p n ref (detach n w)).
Proof.
  intros Hw. destruct (detach_spec n w Hw) as [H1 H2]. split.
  - intros q. unfold kids_of at 1, attach. cbn. destruct (decide (q = p)) as [->|Hq].
    + by rewrite lookup_insert_eq, H1.
    + rewrite lookup_insert_ne by done. apply H1.
  - intros c. unfold attach. cbn. destruct (decide (c = n)) as [->|Hc]; [by rewrite lookup_insert_eq|].
    rewrite lookup_insert_ne by done. rewrite H2. by rewrite decide_False.
Qed.

Lemma below_step w c e : below w c e -> exists p, child w c p /\ (p = e \/ below w p e).
Proof. intros H. inversion H as [x y H1|x y z H1 H2]; subst; [exists e|exists y]; auto. Qed.

(** A move that puts a node neither into itself nor below itself keeps the tree. *)
Lemma moved_tree p n ref w w' : tree_ok w -> moved p n ref w w' -> p <> n -> ~ below w p n -> tree_ok w'.
Proof.
  intros Hw [Hk Hp] Hpn Hb. pose proof Hw as [K O (d & Hd)]. split.
  - intros q c. rewrite Hk. unfold child. rewrite Hp. case_decide as Hq; [subst q; rewrite elem_of_insert_before|];
      rewrite elem_of_without, K; unfold child; case_decide as Hc; subst; naive_solver.
  - intros q. rewrite Hk. case_decide; [apply insert_before_once; [rewrite elem_of_without; tauto|]|]; by apply NoDup_filter.
  - (* everything below [n] goes deeper than [p] *)
    set (under x := bool_decide (x = n) || isParent w x n).
    exists (fun x => if under x then (d x + S (d p))%nat else d x). intros c q. unfold child. rewrite Hp.
    assert (forall x, under x = true <-> x = n \/ below w x n) as Hu.
    { intros x. unfold under. by rewrite orb_true_iff, bool_decide_eq_true, isParent_spec. }
    case_decide as Hc.
    + subst c. intros [= <-]. assert (under n = true) as -> by (apply Hu; by left).
      destruct (under p) eqn:Hup; [|lia]. apply Hu in Hup. tauto.
    + intros Hcq. pose proof (Hd _ _ Hcq) as Hlt. assert (under c = true <-> under q = true) as Huc.
      { rewrite !Hu. split.
        - intros [->|H]; [done|]. apply below_step in H as (q' & Hq' & H). unfold child in Hq'. rewrite Hcq in Hq'. injection Hq' as <-. tauto.
        - intros [->|H]; right; [by apply tc_once|by eapply tc_l]. }
      destruct (under c), (under q); try lia; exfalso; by (discriminate (proj1 Huc eq_refl) || discriminate (proj2 Huc eq_refl)).
Qed.
End DragTree.

(** * The order of a list

    An element that is dragged over another of a list is put next to it, and
    nothing else moves; a list that is given the order of some ids has it. *)

Module DragSort.
Import Js DragPage Sort DragTree.

(** ** Neighbours *)

Lemma next_in_some d x l : next_in d l = Some x -> exists a b, l = a ++ d :: x :: b /\ d ∉ a.
Proof.
  induction l as [|y l IH]; cbn [next_in]; [done|]. case_decide as Hy.
  - subst y. destruct l as [|z l]; [done|]. intros [= ->]. exists [], l. split; [done|apply not_elem_of_nil].
  - intros (a & b & -> & Ha)%IH. exists (y :: a), b. split; [done|]. apply not_elem_of_cons. split; congruence.
Qed.

Lemma next_in_at d a l : d ∉ a -> next_in d (a ++ d :: l) = head l.
Proof.
  induction a as [|y a IH]; cbn [app next_in]; [by rewrite decide_True|]. intros [Hy Ha]%not_elem_of_cons.
  rewrite decide_False by congruence. by apply IH.
Qed.

Lemma insert_before_at n d a l : d ∉ a -> insert_before n (Some d) (a ++ d :: l) = a ++ n :: d :: l.
Proof.
  induction a as [|y a IH]; cbn [app insert_before]; [by rewrite decide_True|]. intros [Hy Ha]%not_elem_of_cons.
  rewrite decide_False by congruence. by rewrite IH.
Qed.

Lemma insert_before_end n l : insert_before n None l = l ++ [n].
Proof. induction l as [|y l IH]; cbn [insert_before app]; [done|by rewrite IH]. Qed.

Lemma without_app n a b : without n (a ++ b) = without n a ++ without n b.
Proof. apply filter_app. Qed.

Lemma without_cons n x l : without n (x :: l) = (if decide (x = n) then [] else [x]) ++ without n l.
Proof. unfold without. rewrite filter_cons. destruct (decide (x = n)), (decide (x <> n)); tauto || done. Qed.

Lemma without_none n l : n ∉ l -> without n l = l.
Proof. intros Hn. apply EventSafe.filter_unmet. intros x Hx ->. done. Qed.

(** The children around one of them, when another is taken out. *)
Lemma around d n l : NoDup l -> d ∈ l -> d <> n -> exists a b, without n l = a ++ d :: b /\ d ∉ a /\ d ∉ b.
Proof.
  intros Hl Hd Hn. assert (d ∈ without n l) as (a & b & E)%list_elem_of_split by (by apply elem_of_without).
  exists a, b. split; [done|]. assert (NoDup (without n l)) as H by (by apply NoDup_filter). rewrite E in H.
  apply NoDup_app in H as (_ & H1 & H2). apply NoDup_cons in H2 as [H2 _]. split; [|done].
  intros Ha. apply (H1 d Ha). left.
Qed.

(** The node before [d] is [n]. *)
Lemma previous_is d n l : NoDup l -> previous_in d l = Some n ->
  exists a b, l = a ++ n :: d :: b /\ without n l = a ++ d :: b.
Proof.
  intros Hl (a & b & E & Ha)%next_in_some. apply (f_equal (@rev nat)) in E. rewrite rev_involutive in E.
  rewrite rev_app_distr in E. cbn in E. rewrite <- !app_assoc in E. cbn in E. exists (rev b), (rev a). split; [done|].
  rewrite E in *. apply NoDup_app in Hl as (_ & H1 & H2). apply NoDup_cons in H2 as [H2 H3].
  assert (d <> n) as Hdn by (intros ->; apply H2; left).
  rewrite without_app, !without_cons, decide_True, decide_False by done. cbn [app].
  rewrite !without_none; [done|..].
  - intros Hn. apply H2. by right.
  - intros Hn. apply (H1 n Hn). left.
Qed.

(** The node behind [d] is [n]. *)
Lemma next_is d n l : NoDup l -> next_in d l = Some n ->
  exists a b, l = a ++ d :: n :: b /\ without n l = a ++ d :: b.
Proof.
  intros Hl (a & b & -> & Ha)%next_in_some. exists a, b. split; [done|].
  apply NoDup_app in Hl as (_ & H1 & H2). apply NoDup_cons in H2 as [H2 H3]. apply NoDup_cons in H3 as [H3 _].
  assert (d <> n) as Hdn by (intros ->; apply H2; left).
  rewrite without_app, !without_cons, decide_False, decide_True by done. cbn [app].
  rewrite !without_none; [done|done|]. intros Hn. apply (H1 n Hn). right. left.
Qed.

(** It is another, or there is none: then it is behind [d] without [n], too. *)
Lemma next_other d n l : NoDup l -> d ∈ l -> d <> n -> next_in d l <> Some n ->
  exists a b, without n l = a ++ d :: b /\ d ∉ a /\ next_in d l = head b /\ head b ∉ Some <$> a.
Proof.
  intros Hl Hd Hn Hx. apply list_elem_of_split in Hd as (a & b & ->).
  assert (d ∉ a /\ d ∉ b /\ NoDup b /\ (forall x, x ∈ a -> x ∉ b)) as (Ha & Hb & Hnb & Hab).
  { apply NoDup_app in Hl as (_ & H1 & H2). apply NoDup_cons in H2 as [H2 H3]. repeat split; try done.
    - intros H. apply (H1 d H). left.
    - intros x Hxa Hxb. apply (H1 x Hxa). by right. }
  rewrite next_in_at in * by done. exists (without n a), (without n b).
  rewrite without_app, without_cons, decide_False by done. split; [done|]. split; [by rewrite elem_of_without; tauto|].
  assert (head (without n b) = head b) as ->.
  { destruct b as [|x b]; [done|]. cbn in Hx. rewrite without_cons, decide_False by congruence. done. }
  split; [done|]. intros (x & E & Hxa)%list_elem_of_fmap. apply elem_of_without in Hxa as [Hxa _].
  destruct b as [|y b]; [done|]. injection E as ->. apply (Hab x Hxa). left.
Qed.

(** ** One move *)

Lemma insertBefore_spec p n ref w : tree_ok w -> p <> n -> ~ below w p n ->
  match ref with Some r => r ∈ kids_of p w /\ r <> n | None => True end ->
  exists w', insertBefore p n ref w = (Val tt, w') /\ moved p n ref w w' /\ sortables w' = sortables w /\ calls w' = calls w /\
    size (parent w') = size (<[n := p]> (parent w)).
Proof.
  intros Hw Hpn Hb Hr. unfold insertBefore, mbind, M_bind, get.
  rewrite bool_decide_eq_false_2 by done. cbn [orb].
  assert (isParent w p n = false) as -> by (apply not_true_iff_false; rewrite isParent_spec; done).
  assert (match ref with Some r => negb (bool_decide (r ∈ kids_of p w)) | None => false end = false) as ->.
  { destruct ref as [r|]; [|done]. destruct Hr as [Hr _]. by rewrite bool_decide_eq_true_2. }
  assert (match ref with Some r => if decide (r = n) then nextSibling n w else ref | None => None end = ref) as ->.
  { destruct ref as [r|]; [|done]. destruct Hr as [_ Hr]. by rewrite decide_False. }
  eexists. split; [done|]. split; [by apply attach_moved|].
  unfold attach, detach. destruct (parent w !! n); cbn; [|done]. by rewrite insert_delete_eq.
Qed.

(** ** Over an element of a list *)

Section hover.
Variable tag : nat -> option jstring.
Variable ident : nat -> jstring.

(** A move does not change to which list an element outside of what is moved
    belongs. *)
Lemma find_root_moved p n ref w w' : moved p n ref w w' -> sortables w' = sortables w ->
  forall fuel e, e <> n -> ~ below w e n ->
  (find_root tag ident fuel e w).2 = w /\ find_root tag ident fuel e w' = ((find_root tag ident fuel e w).1, w').
Proof.
  intros [_ Hp] Hs. induction fuel as [|fuel IH]; intros e He Hb; [done|]. cbn [find_root].
  unfold mbind, M_bind, need, mret, M_ret, get, throw. destruct (tag e) as [t|]; [|done].
  case_bool_decide; [done|]. assert (sortable_at ident e w' = sortable_at ident e w) as -> by (unfold sortable_at; by rewrite Hs).
  destruct (sortable_at ident e w); [done|]. rewrite Hp, decide_False by done.
  destruct (parent w !! e) as [q|] eqn:Hq; [|done]. apply IH.
  - intros ->. apply Hb. by apply tc_once.
  - intros Hx. apply Hb. eapply tc_l; [exact Hq|done].
Qed.

Lemma options_moved p n ref w w' e o : moved p n ref w w' -> sortables w' = sortables w -> is_Some (parent w !! n) ->
  size (parent w') = size (<[n := p]> (parent w)) -> e <> n -> ~ below w e n ->
  options_of tag ident e w = (Val o, w) -> options_of tag ident e w' = (Val o, w').
Proof.
  intros Hm Hs Hn Hsz He Hb. rewrite map_size_insert_Some in Hsz by done.
  unfold options_of, findRootElement, mbind, M_bind, get, mret, M_ret. unfold depth_fuel. rewrite Hsz.
  set (f := S (S (size (parent w)))).
  destruct (find_root_moved p n ref w w' Hm Hs f e He Hb) as [H1 H2]. rewrite H2.
  destruct (find_root tag ident f e w) as [[r|x] w0]; cbn in *; subst w0; [|done].
  destruct r as [r|]; [|by intros [= <-]]. cbn. unfold sortable_at. rewrite Hs. by intros [= <-].
Qed.

(** What is only noted changes nothing of this. *)
Definition alike (w w' : world) : Prop := parent w' = parent w /\ kids w' = kids w /\ sortables w' = sortables w.

Lemma options_alike w w' e o : alike w w' -> options_of tag ident e w = (Val o, w) -> options_of tag ident e w' = (Val o, w').
Proof.
  intros (Hp & _ & Hs). unfold options_of, findRootElement, mbind, M_bind, get, mret, M_ret. unfold depth_fuel. rewrite Hp.
  assert (forall fuel e, (find_root tag ident fuel e w).2 = w /\
    find_root tag ident fuel e w' = ((find_root tag ident fuel e w).1, w')) as H.
  { induction fuel as [|fuel IH]; intros x; [done|]. cbn [find_root].
    unfold mbind, M_bind, need, mret, M_ret, get, throw. destruct (tag x) as [t|]; [|done].
    case_bool_decide; [done|]. assert (sortable_at ident x w' = sortable_at ident x w) as -> by (unfold sortable_at; by rewrite Hs).
    destruct (sortable_at ident x w); [done|]. rewrite Hp. destruct (parent w !! x) as [q|]; [apply IH|done]. }
  set (f := S (S (size (parent w)))). destruct (H f e) as [H1 H2]. rewrite H2.
  destruct (find_root tag ident f e w) as [[r|x] w0]; cbn in *; subst w0; [|done].
  destruct r as [r|]; [|by intros [= <-]]. cbn. unfold sortable_at. rewrite Hs. by intros [= <-].
Qed.

Lemma alike_tree w w' : alike w w' -> tree_ok w -> tree_ok w'.
Proof.
  intros (Hp & Hk & _) [H1 H2 (d & H3)]. split; unfold kids_of, child in *; rewrite ?Hp, ?Hk; [done..|by exists d].
Qed.

Lemma alike_refl w : alike w w.
Proof. done. Qed.

Lemma changed_spec w q e o : options_of tag ident q w = (Val (Some o), w) ->
  exists w', changed tag ident q e w = (Val tt, w') /\ alike w w'.
Proof.
  intros Ho. unfold changed, mbind, M_bind. rewrite Ho. unfold need, mret, M_ret, modify. by eexists.
Qed.

Lemma mark_spec w d p o before : parent w !! d = Some p -> options_of tag ident p w = (Val (Some o), w) ->
  exists w', mark tag ident d before w = (Val tt, w') /\ alike w w'.
Proof.
  intros Hp Ho. unfold mark, mbind, M_bind, get. rewrite Hp. unfold need, mret, M_ret. rewrite Ho.
  unfold when, modify, mret, M_ret. destruct (s_ghosting o); by eexists.
Qed.

(** The element is moved, and both lists are told. *)
Lemma put_spec w e d next p q op oq : tree_ok w -> parent w !! d = Some p -> parent w !! e = Some q ->
  p <> e -> ~ below w p e -> options_of tag ident p w = (Val (Some op), w) -> options_of tag ident q w = (Val (Some oq), w) ->
  match next with Some r => r ∈ kids_of p w /\ r <> e | None => True end ->
  exists w', put tag ident e d next w = (Val tt, w') /\ tree_ok w' /\
    forall r, kids_of r w' = if decide (r = p) then insert_before e next (without e (kids_of p w)) else without e (kids_of r w).
Proof.
  intros Hw Hd He Hpe Hb Hop Hoq Hn. unfold put, mbind, M_bind, get, modify.
  set (w1 := set_hidden _ w). assert (alike w w1) as Ha by done.
  change (parent w1 !! d) with (parent w !! d). rewrite Hd. unfold need, mret, M_ret.
  destruct (insertBefore_spec p e next w1 (alike_tree _ _ Ha Hw) Hpe Hb Hn) as (w2 & -> & Hm & Hs & _ & Hsz).
  assert (tree_ok w2) as Hw2 by (by eapply moved_tree; [apply (alike_tree _ _ Ha Hw)|exact Hm|done|]).
  assert (forall w3, alike w2 w3 -> tree_ok w3 /\
    forall r, kids_of r w3 = if decide (r = p) then insert_before e next (without e (kids_of p w)) else without e (kids_of r w)) as Hend.
  { intros w3 H3. split; [by eapply alike_tree|]. intros r. destruct H3 as (_ & H3 & _). unfold kids_of at 1. rewrite H3.
    apply (proj1 Hm r). }
  assert (forall x o, x <> e -> ~ below w x e -> options_of tag ident x w = (Val (Some o), w) ->
    options_of tag ident x w2 = (Val (Some o), w2)) as Hopt.
  { intros x o Hx Hbx Ho. eapply options_moved; [exact Hm|exact Hs|by eexists|exact Hsz|done|exact Hbx|].
    by eapply options_alike. }
  assert (forall w3, alike w2 w3 -> exists w', changed tag ident p e w3 = (Val tt, w') /\ alike w2 w') as Hlast.
  { intros w3 H3. destruct (changed_spec w3 p e op) as (w4 & H4 & A4).
    - eapply options_alike; [exact H3|by apply Hopt].
    - exists w4. split; [done|]. destruct H3 as (?&?&?), A4 as (?&?&?). repeat split; congruence. }
  case_bool_decide as Hpq.
  - destruct (Hlast w2 (alike_refl w2)) as (w' & -> & A). exists w'. split; [done|by apply Hend].
  - rewrite He. destruct (changed_spec w2 q e oq) as (w3 & -> & A3).
    + apply Hopt; [|intros H; apply (not_below_itself w e Hw); eapply tc_l; [exact He|done]|done].
      intros ->. apply (not_below_itself w e Hw). by apply tc_once.
    + destruct (Hlast w3 A3) as (w' & -> & A). exists w'. split; [done|by apply Hend].
Qed.

(** What has to hold for an element to be moved next to another, and where it is
    then. *)
Definition movable (e d p q : nat) (op oq : sortable) (w : world) : Prop :=
  tree_ok w /\ e <> d /\ parent w !! d = Some p /\ parent w !! e = Some q /\ p <> e /\ ~ below w p e /\
  options_of tag ident p w = (Val (Some op), w) /\ options_of tag ident q w = (Val (Some oq), w).
Definition placed (front : bool) (e d p : nat) (w w' : world) : Prop :=
  (exists a b, without e (kids_of p w) = a ++ d :: b /\
     kids_of p w' = if front then a ++ e :: d :: b else a ++ d :: e :: b) /\
  (forall r, r <> p -> kids_of r w' = without e (kids_of r w)).

Lemma movable_alike e d p q op oq w w1 : alike w w1 -> movable e d p q op oq w -> movable e d p q op oq w1.
Proof.
  intros Ha (H1 & H2 & H3 & H4 & H5 & H6 & H7 & H8). pose proof Ha as (Hp & _ & _).
  split; [by eapply alike_tree|]. rewrite Hp. repeat split; try done; [|by eapply options_alike..].
  unfold below, child in *. by rewrite Hp.
Qed.

Lemma placed_alike front e d p w w1 w' : alike w w1 -> placed front e d p w1 w' -> placed front e d p w w'.
Proof. intros (_ & Hk & _). unfold placed, kids_of. by rewrite Hk. Qed.

(** An element that is there already stays. *)
Lemma placed_stays (front : bool) e d p w a b : tree_ok w -> kids_of p w = (if front then a ++ e :: d :: b else a ++ d :: e :: b) ->
  without e (kids_of p w) = a ++ d :: b -> placed front e d p w w.
Proof.
  intros Hw E1 E2. split; [by exists a, b|]. intros r Hr. symmetry. apply without_none. intros H.
  assert (e ∈ kids_of p w) as Hep by (rewrite E1; destruct front; clear; set_solver).
  apply (tree_kids w Hw) in H, Hep. unfold child in *. congruence.
Qed.

Lemma put_placed (front : bool) e d next p q op oq w a b : movable e d p q op oq w ->
  match next with Some r => r ∈ kids_of p w /\ r <> e | None => True end ->
  without e (kids_of p w) = a ++ d :: b ->
  insert_before e next (without e (kids_of p w)) = (if front then a ++ e :: d :: b else a ++ d :: e :: b) ->
  exists w', put tag ident e d next w = (Val tt, w') /\ tree_ok w' /\ placed front e d p w w'.
Proof.
  intros (H1 & H2 & H3 & H4 & H5 & H6 & H7 & H8) Hn E1 E2.
  destruct (put_spec w e d next p q op oq) as (w' & Hput & Hw' & Hkids); try done.
  exists w'. split; [done|]. split; [done|]. split.
  - exists a, b. split; [done|]. by rewrite Hkids, decide_True.
  - intros r Hr. by rewrite Hkids, decide_False.
Qed.

Lemma front_spec e d p q op oq w : movable e d p q op oq w ->
  exists w', (if bool_decide (previousSibling d w = Some e) then mret tt else put tag ident e d (Some d) : M world unit) w = (Val tt, w') /\
    tree_ok w' /\ placed true e d p w w'.
Proof.
  intros Hm. pose proof Hm as (Hw & Hne & Hd & _). pose proof (tree_once w Hw p) as Hnd.
  assert (d ∈ kids_of p w) as Hin by (by apply (tree_kids w Hw)).
  assert (previousSibling d w = previous_in d (kids_of p w)) as -> by (unfold previousSibling; by rewrite Hd).
  case_bool_decide as Hprev.
  - destruct (previous_is _ _ _ Hnd Hprev) as (a & b & E1 & E2). exists w. split; [done|]. split; [done|].
    by eapply placed_stays.
  - destruct (around d e _ Hnd Hin ltac:(done)) as (a & b & E & Ha & _).
    eapply put_placed; [done|done|exact E|]. rewrite E. by apply insert_before_at.
Qed.

Lemma behind_spec e d p q op oq w : movable e d p q op oq w ->
  exists w', (if bool_decide (nextSibling d w = Some e) then mret tt else put tag ident e d (nextSibling d w) : M world unit) w = (Val tt, w') /\
    tree_ok w' /\ placed false e d p w w'.
Proof.
  intros Hm. pose proof Hm as (Hw & Hne & Hd & _). pose proof (tree_once w Hw p) as Hnd.
  assert (d ∈ kids_of p w) as Hin by (by apply (tree_kids w Hw)).
  assert (nextSibling d w = next_in d (kids_of p w)) as -> by (unfold nextSibling; by rewrite Hd).
  case_bool_decide as Hnext.
  - destruct (next_is _ _ _ Hnd Hnext) as (a & b & E1 & E2). exists w. split; [done|]. split; [done|].
    by eapply placed_stays.
  - destruct (next_other _ _ _ Hnd Hin ltac:(done) Hnext) as (a & b & E & Ha & Hh & Hout).
    eapply put_placed; [done| |exact E|]; rewrite Hh; destruct b as [|y b]; cbn [head] in *; try done.
    + assert (y ∈ without e (kids_of p w)) as Hy by (rewrite E; apply elem_of_app; right; right; left).
      apply elem_of_without in Hy. tauto.
    + rewrite E, insert_before_end. by rewrite <- app_assoc.
    + rewrite E. change (a ++ d :: y :: b) with (a ++ [d] ++ y :: b). rewrite app_assoc, insert_before_at; [by rewrite <- app_assoc|].
      intros [Hy| ->%list_elem_of_singleton]%elem_of_app.
      * apply Hout. apply list_elem_of_fmap. by exists y.
      * pose proof (NoDup_filter (fun x => x <> e) _ Hnd) as H. change (filter _ _) with (without e (kids_of p w)) in H.
        rewrite E in H. apply NoDup_app in H as (_ & _ & H). apply NoDup_cons in H as [H _]. apply H. left.
Qed.

(** C31: A dragged element that is over an element [dropon] of a list is put right
    in front of it if it overlaps it by more than half, else right behind it:
    the children of the list are those that were there, without the dragged
    element and then with it at this place; the element leaves the list where it
    was, and nothing else moves. *)
Theorem hover_moves element dropon overlap w p q od op oq :
  tree_ok w -> element <> dropon -> parent w !! dropon = Some p -> parent w !! element = Some q ->
  ~ below w dropon element ->
  options_of tag ident dropon w = (Val (Some od), w) -> s_tree od = false ->
  options_of tag ident p w = (Val (Some op), w) -> options_of tag ident q w = (Val (Some oq), w) ->
  exists w', onHover tag ident element dropon overlap w = (Val tt, w') /\ tree_ok w' /\
    (exists a b, without element (kids_of p w) = a ++ dropon :: b /\
       kids_of p w' = if Qltb (1 # 2) overlap then a ++ element :: dropon :: b else a ++ dropon :: element :: b) /\
    (forall r, r <> p -> kids_of r w' = without element (kids_of r w)).
Proof.
  intros Hw Hne Hd He Hb Hod Htree Hop Hoq.
  assert (movable element dropon p q op oq w) as Hm.
  { assert (p <> element) by (intros ->; apply Hb; by apply tc_once).
    unfold movable. split_and!; try done. intros H'. apply Hb. eapply tc_l; [exact Hd|done]. }
  unfold onHover. unfold mbind at 1, M_bind at 1, get at 1.
  assert (isParent w dropon element = false) as -> by (apply not_true_iff_false; rewrite isParent_spec; done).
  assert ((if Qltb (33 # 100) overlap && Qltb overlap (66 # 100)
           then o ← options_of tag ident dropon; o ← need o; mret (s_tree o) else mret false) w = (Val false, w)) as Hin.
  { destruct (_ && _); [|done]. unfold mbind, M_bind. rewrite Hod. unfold need, mret, M_ret. by rewrite Htree. }
  unfold mbind at 1, M_bind at 1. rewrite Hin.
  destruct (Qltb (1 # 2) overlap); [destruct (mark_spec w dropon p op true Hd Hop) as (w1 & Hm1 & Ha)
                                   |destruct (mark_spec w dropon p op false Hd Hop) as (w1 & Hm1 & Ha)];
    unfold mbind at 1, M_bind at 1; rewrite Hm1; unfold mbind at 1, M_bind at 1, get at 1.
  - destruct (front_spec _ _ _ _ _ _ _ (movable_alike _ _ _ _ _ _ _ _ Ha Hm)) as (w' & H1 & H2 & H3).
    exists w'. split; [done|]. split; [done|]. by apply (placed_alike true _ _ _ _ _ _ Ha).
  - destruct (behind_spec _ _ _ _ _ _ _ (movable_alike _ _ _ _ _ _ _ _ Ha Hm)) as (w' & H1 & H2 & H3).
    exists w'. split; [done|]. split; [done|]. by apply (placed_alike false _ _ _ _ _ _ Ha).
Qed.
End hover.
End DragSort.
