(* ===== verification/DragOrder.v ===== *)
(** * Giving a list an order

    [setSequence] puts the elements of a list in the order of the ids that it is
    given, and [sequence] then tells that order. *)
From Stdlib Require Import QArith.
From S2P Require Import Prelude JsString JsMonad Json ProtoText ProtoEventSafe JsUri JsRegex DragPage SortList DragDrop DragTree.
Open Scope Z_scope.

Module DragOrder.
Import Js DragPage Sort DragTree.

Section out.
Variable e : nat.

(** ** Taking all elements out *)

Lemma detach_at n w : parent w !! n = Some e ->
  kids_of e (detach n w) = without n (kids_of e w) /\ (forall q, q <> e -> kids_of q (detach n w) = kids_of q w) /\
  (forall c, parent (detach n w) !! c = if decide (c = n) then None else parent w !! c) /\ classes (detach n w) = classes w.
Proof.
  intros Hp. unfold detach. rewrite Hp. unfold kids_of. cbn. rewrite lookup_insert_eq. repeat split.
  - intros q Hq. by rewrite lookup_insert_ne.
  - intros c. case_decide; [subst; by rewrite lookup_delete_eq|by rewrite lookup_delete_ne].
Qed.

Lemma detach_free n w : parent w !! n = None -> detach n w = w.
Proof. intros Hp. unfold detach. by rewrite Hp. Qed.

Lemma detached_stays x l : forall w, parent w !! x = None -> parent (fold_left (fun w n => detach n w) l w) !! x = None.
Proof.
  induction l as [|z l IH]; intros w Hw; [done|]. cbn [fold_left]. apply IH. unfold detach.
  destruct (parent w !! z) as [p|]; [|done]. cbn.
  destruct (decide (z = x)) as [->|]; [by rewrite lookup_delete_eq|by rewrite lookup_delete_ne].
Qed.

Lemma detach_all l : NoDup l -> forall w, (forall x, x ∈ l -> parent w !! x = Some e) ->
  let w' := fold_left (fun w n => detach n w) l w in
  kids_of e w' = filter (fun x => x ∉ l) (kids_of e w) /\ (forall q, q <> e -> kids_of q w' = kids_of q w) /\
  (forall x, x ∈ l -> parent w' !! x = None) /\ classes w' = classes w.
Proof.
  induction 1 as [|x l Hx Hl IH]; intros w Hp; cbn [fold_left].
  - split; [|split; [done|split; [by intros ? ?%elem_of_nil|done]]].
    symmetry. apply EventSafe.filter_unmet. intros y _. apply not_elem_of_nil.
  - destruct (detach_at x w (Hp x ltac:(left))) as (K1 & K2 & K3 & K4).
    destruct (IH (detach x w)) as (I1 & I2 & I3 & I4).
    { intros y Hy. rewrite K3, decide_False by (by intros ->). apply Hp. by right. }
    split; [|split; [|split]].
    + rewrite I1, K1. unfold without. rewrite list_filter_filter. apply list_filter_iff. intros y. rewrite not_elem_of_cons. tauto.
    + intros q Hq. by rewrite I2, K2.
    + intros y [->|Hy]%elem_of_cons; [|by apply I3].
      apply detached_stays. by rewrite K3, decide_True.
    + by rewrite I4.
Qed.

End out.

Section order.
Variable tag : nat -> option jstring.
Variable ident : nat -> jstring.
Variable o : sortable.
Variable e : nat.
Hypothesis Htree : s_tree o = false.

(** The elements of a list that is no tree: the children that fit. *)
Definition item (w : world) (x : nat) : bool := fits tag (only o) (s_tag o) w x.
Definition items (w : world) : list nat := filter (fun x => item w x = true) (kids_of e w).

Lemma concat_fits (P : nat -> bool) l : concat (map (fun x => (if P x then [x] else []) ++ []) l) = filter (fun x => P x = true) l.
Proof.
  induction l as [|x l IH]; cbn [map concat]; [done|]. rewrite filter_cons, IH, app_nil_r.
  destruct (P x); [by rewrite decide_True|by rewrite decide_False].
Qed.

Lemma findElements_items w : findElements tag e (only o) (s_tree o) (s_tag o) w = items w.
Proof. unfold findElements, findChildren, depth_fuel. cbn [find_children]. rewrite Htree. apply concat_fits. Qed.

Lemma sequence_items w : sequence_of tag ident o e w = map (fun x => default [] (format o (ident x))) (items w).
Proof. unfold sequence_of. by rewrite findElements_items. Qed.

(** ** Putting them back *)

Lemma assoc_filter {A} k k' (m : list (jstring * A)) : k <> k' -> assoc k (filter (fun q => q.1 <> k') m) = assoc k m.
Proof.
  intros Hk. induction m as [|[i v] m IH]; [done|]. rewrite filter_cons. cbn [fst]. case_decide as Hi; cbn [assoc]; [by rewrite IH|].
  rewrite bool_decide_eq_false_2; [done|]. intros ->. by destruct Hk.
Qed.

Definition put_back (ns : list jstring) (m : list (jstring * (nat * nat))) (w : world) : world :=
  (fold_left (fun '(m, w) i =>
     match assoc i m with
     | Some (n, p) => (filter (fun q => q.1 <> i) m, attach p n None (detach n w))
     | None => (m, w)
     end) ns (m, w)).2.

Lemma put_back_spec (node : jstring -> nat) ns : NoDup ns -> forall m w,
  (forall i, i ∈ ns -> assoc i m = Some (node i, e) /\ parent w !! node i = None) ->
  NoDup (map node ns) ->
  kids_of e (put_back ns m w) = kids_of e w ++ map node ns /\
  (forall q, q <> e -> kids_of q (put_back ns m w) = kids_of q w) /\ classes (put_back ns m w) = classes w.
Proof.
  induction 1 as [|i ns Hi Hns IH]; intros m w Hm Hnd; unfold put_back; cbn [fold_left map].
  - by rewrite app_nil_r.
  - destruct (Hm i ltac:(left)) as [-> Hp]. rewrite detach_free by done.
    cbn [map] in Hnd. apply NoDup_cons in Hnd as [Hn Hnd]. set (w1 := attach e (node i) None w).
    assert (kids_of e w1 = kids_of e w ++ [node i]) as K1.
    { unfold w1, attach. unfold kids_of at 1. cbn. rewrite lookup_insert_eq. cbn. apply DragSort.insert_before_end. }
    assert (forall q, q <> e -> kids_of q w1 = kids_of q w) as K2.
    { intros q Hq. unfold w1, attach. unfold kids_of at 1. cbn. by rewrite lookup_insert_ne. }
    destruct (IH (filter (fun q => q.1 <> i) m) w1) as (I1 & I2 & I3); [|done|].
    { intros j Hj. destruct (Hm j ltac:(by right)) as [H1 H2]. split; [rewrite assoc_filter; [done|by intros ->]|].
      unfold w1, attach. cbn. rewrite lookup_insert_ne; [done|]. intros E. apply Hn. rewrite E.
      apply EventSafe.elem_of_lmap. by exists j. }
    unfold put_back in I1, I2, I3. rewrite I1, K1. split; [by rewrite <- app_assoc|]. split; [|done].
    intros q Hq. by rewrite I2, K2.
Qed.

(** ** The map of the ids *)

Lemma node_map_spec w l : NoDup (map (fun x => format o (ident x)) l) ->
  (forall x, x ∈ l -> is_Some (format o (ident x)) /\ parent w !! x = Some e) ->
  forall m x i, (x ∈ l /\ format o (ident x) = Some i \/ assoc i m = Some (x, e) /\ (forall y, y ∈ l -> format o (ident y) <> Some i)) ->
  assoc i (fold_left (fun m n =>
    match format o (ident n), parent w !! n with
    | Some i, Some p => (i, (n, p)) :: filter (fun q => q.1 <> i) m
    | _, _ => m
    end) l m) = Some (x, e).
Proof.
  induction l as [|y l IH]; intros Hnd Hl m x i Hx; cbn [fold_left].
  - destruct Hx as [[Hx _]|[Hx _]]; [by apply elem_of_nil in Hx|done].
  - cbn [map] in Hnd. apply NoDup_cons in Hnd as [Hy Hnd]. destruct (Hl y ltac:(left)) as [[j Hj] Hp]. rewrite Hj, Hp.
    apply IH; [done|by intros z Hz; apply Hl; right|]. destruct Hx as [[[->|Hx]%elem_of_cons Hi]|[Hi Hno]].
    + rewrite Hj in Hi. injection Hi as ->. right. cbn [assoc]. rewrite bool_decide_eq_true_2 by done. split; [done|].
      intros z Hz Hzi. apply Hy. apply EventSafe.elem_of_lmap. exists z. by rewrite Hzi, Hj.
    + by left.
    + right. cbn [assoc]. assert (i <> j) as Hij by (intros ->; apply (Hno y); [left|done]).
      rewrite bool_decide_eq_false_2 by done. rewrite assoc_filter by done. split; [done|].
      intros z Hz. apply Hno. by right.
Qed.

Lemma elem_of_items w x : x ∈ items w <-> item w x = true /\ x ∈ kids_of e w.
Proof. unfold items. by rewrite list_elem_of_filter. Qed.
End order.

(** C32: A list that is given the order of its own ids, all different, tells this
    order, and has the children that it had, the elements of the list behind the
    others; nothing else moves. *)
Theorem setSequence_sequence tag ident o e ns w : s_tree o = false -> tree_ok w ->
  (forall x, x ∈ items tag o e w -> is_Some (format o (ident x))) ->
  NoDup (sequence_of tag ident o e w) -> ns ≡ₚ sequence_of tag ident o e w ->
  let w' := setSequence_of tag ident o e ns w in
  sequence_of tag ident o e w' = ns /\ kids_of e w' ≡ₚ kids_of e w /\ (forall q, q <> e -> kids_of q w' = kids_of q w).
Proof.
  intros Htree Hw Hf Hnd Hns. cbv zeta. unfold setSequence_of.
  rewrite !(sequence_items tag ident o e Htree) in *. rewrite (findElements_items tag o e Htree). set (l := items tag o e w) in *.
  assert (NoDup l) as Hl by (apply NoDup_filter, (tree_once w Hw)).
  assert (forall x, x ∈ l -> parent w !! x = Some e) as Hp.
  { intros x [_ Hx]%elem_of_items. by apply (tree_kids w Hw). }
  set (key := fun x => default [] (format o (ident x))) in *.
  assert (forall x, x ∈ l -> format o (ident x) = Some (key x)) as Hkey.
  { intros x Hx. unfold key. by destruct (Hf x Hx) as [i ->]. }
  (* the element of an id *)
  set (node := fun i => default 0%nat (head (filter (fun x => key x = i) l))).
  assert (forall x, x ∈ l -> node (key x) = x) as Hnode.
  { intros x Hx. unfold node. destruct (head (filter (fun y => key y = key x) l)) as [y|] eqn:Hy.
    - apply EventSafe.head_filter in Hy as [Hy Hyl]. cbn. clear -Hnd Hy Hyl Hx. induction l as [|z l IH]; [by apply elem_of_nil in Hx|].
      cbn [map] in Hnd. apply NoDup_cons in Hnd as [Hz Hnd]. apply elem_of_cons in Hx, Hyl. destruct Hx as [->|Hx], Hyl as [->|Hyl]; try done.
      + destruct Hz. apply EventSafe.elem_of_lmap. by exists y.
      + destruct Hz. apply EventSafe.elem_of_lmap. by exists x.
      + by apply IH.
    - assert (x ∈ filter (fun y => key y = key x) l) as H by (by apply list_elem_of_filter).
      destruct (filter _ l); [by apply elem_of_nil in H|done]. }
  assert (forall i, i ∈ ns -> exists x, x ∈ l /\ i = key x) as Hin.
  { intros i Hi. rewrite Hns in Hi. apply EventSafe.elem_of_lmap in Hi as (x & -> & Hx). by exists x. }
  assert (map node ns ≡ₚ l) as Hperm.
  { rewrite Hns. clear -Hnode. assert (map node (map key l) = l) as ->; [|done]. rewrite map_map. rewrite <- (map_id l) at 2.
    apply map_ext_in. intros x Hx%list_elem_of_In. by apply Hnode. }
  assert (NoDup ns) as Hndn by (by rewrite Hns).
  set (w1 := fold_left (fun w n => detach n w) l w).
  destruct (detach_all e l Hl w Hp) as (D1 & D2 & D3 & D4). fold w1 in D1, D2, D3, D4.
  destruct (put_back_spec e node ns Hndn (node_map ident o w l) w1) as (P1 & P2 & P3).
  - intros i Hi. destruct (Hin i Hi) as (x & Hx & ->). rewrite Hnode by done. split; [|by apply D3].
    unfold node_map. apply (node_map_spec ident o e w l).
    + assert (map (fun x => format o (ident x)) l = map Some (map key l)) as ->.
      { rewrite map_map. apply map_ext_in. intros y Hy%list_elem_of_In. by apply Hkey. }
      apply (NoDup_fmap_2 Some). done.
    + intros y Hy. split; [by rewrite Hkey|by apply Hp].
    + left. split; [done|by apply Hkey].
  - by rewrite Hperm.
  - change (fold_left _ ns _).2 with (put_back ns (node_map ident o w l) w1). set (w' := put_back _ _ _) in *.
    assert (forall x, item tag o w' x = item tag o w x) as Hitem.
    { intros x. unfold item, fits, classes_of. by rewrite P3, D4. }
    assert (items tag o e w' = map node ns) as Hitems.
    { unfold items. rewrite P1, D1, filter_app, list_filter_filter. rewrite EventSafe.filter_none, EventSafe.filter_unmet; [done|..].
      - intros x Hx. rewrite Hperm in Hx. rewrite Hitem. by apply elem_of_items in Hx as [Hx _].
      - intros x Hx [Hi Hnl]. apply Hnl. apply elem_of_items. by rewrite <- Hitem. }
    rewrite Hitems. split; [|split].
    + rewrite map_map. rewrite <- (map_id ns) at 2. apply map_ext_in. intros i Hi%list_elem_of_In.
      destruct (Hin i Hi) as (x & Hx & ->). by rewrite Hnode.
    + rewrite P1, D1, Hperm. rewrite <- (filter_app_complement (fun x => x ∈ l) (kids_of e w)) at 2.
      rewrite (Permutation_app_comm (filter (fun x => x ∈ l) _)). apply Permutation_app; [done|].
      unfold l at 1. unfold items. rewrite (EventSafe.filter_agree (fun x => x ∈ l) (fun x => item tag o w x = true)); [done|].
      intros x Hx. unfold l. rewrite elem_of_items. tauto.
    + intros q Hq. by rewrite P2, D2.
Qed.
End DragOrder.
