(* ===== verification/DragSafe.v ===== *)
(** * One drag at a time

    Through any events of the page, the element that is dragged is the one that is
    active, and a target is only lit while there is one; the pointer stays where it
    took the element ([DragGrip]). *)
From Stdlib Require Import QArith.
From S2P Require Import Prelude JsString Json ProtoText JsUri JsMonad DragPage SortList DragDrop.
Open Scope Z_scope.

Module DragSafe.
Import Js DragPage Sort Drop.

(** ** What does not concern the drag *)

(** The part of the state that says who is dragged. *)
Definition drag_state (w : world) := (draggables w, next_drag w, active w, timeout w, last_active w, place w, listening w).
Definition at_state x (w : world) : Prop := drag_state w = x.

(** Handlers that change nothing of it. *)
Definition inert {A} (m : M world A) : Prop := forall x, keeping (at_state x) m.

Lemma inert_keeping {A} (P : world -> Prop) (m : M world A) :
  (forall w w', drag_state w = drag_state w' -> P w -> P w') -> inert m -> keeping P m.
Proof. intros HP Hm w Hw. apply (HP w); [|done]. symmetry. by apply (Hm (drag_state w)). Qed.

(** One step of a proof that a handler is inert. *)
Ltac inert_step := first
  [ done
  | match goal with
    | H : forall _ _, keeping _ _ |- _ => apply H
    | H : forall _, keeping _ _ |- _ => apply H
    end
  | keep_step ].
Ltac inert := intros ?; repeat inert_step.

Section safe.
Variable tag : nat -> option jstring.
Variable ident : nat -> jstring.

Lemma find_root_inert fuel e : inert (find_root tag ident fuel e).
Proof. intros x. revert e. induction fuel as [|fuel IH]; intros e; cbn [find_root]; repeat inert_step. Qed.

Lemma options_inert e : inert (options_of tag ident e).
Proof. intros x. unfold options_of, findRootElement. repeat (apply find_root_inert || inert_step). Qed.

Lemma serialize_inert e : inert (serialize tag ident e).
Proof. intros x. unfold serialize, lift. repeat (apply options_inert || inert_step). Qed.

Lemma insertBefore_inert p n r : inert (insertBefore p n r).
Proof.
  unfold insertBefore. intros x. repeat inert_step. all: unfold attach, detach; by destruct (parent _ !! n).
Qed.

Lemma changed_inert p e : inert (changed tag ident p e).
Proof. intros x. unfold changed. repeat (apply options_inert || inert_step). Qed.

Lemma put_inert e d next : inert (put tag ident e d next).
Proof. intros x. unfold put. repeat (apply changed_inert || apply insertBefore_inert || inert_step). Qed.

Lemma mark_inert d b : inert (mark tag ident d b).
Proof. intros x. unfold mark. repeat (apply options_inert || inert_step). Qed.

Lemma call_hover_inert ly e d : inert (call_hover tag ident ly e d).
Proof.
  intros x. unfold call_hover, onHover, onEmptyHover.
  repeat (apply options_inert || apply mark_inert || apply put_inert || apply changed_inert || apply insertBefore_inert || inert_step).
Qed.

Lemma observe_inert p g i o : inert (observe tag ident p g i o).
Proof. intros x. unfold observe, unmark, observer_at. repeat (apply serialize_inert || inert_step). Qed.

(** ** What holds between the events *)

(** Who is dragged is active; who is active, or will be when its timer has run, was
    taken somewhere. *)
Record sound (w : world) : Prop := {
  one : forall g d, draggables w !! g = Some d -> dragging d = true -> active w = Some g;
  taken : forall g, active w = Some g \/ timeout w = Some g -> exists d, draggables w !! g = Some d /\ is_Some (offset d);
  waits : is_Some (timeout w) -> active w = None }.

(** Nobody is dragged. *)
Record at_rest (w : world) : Prop := {
  nobody : active w = None /\ timeout w = None;
  none_dragged : forall g d, draggables w !! g = Some d -> dragging d = false }.

Lemma rest_sound w : at_rest w -> sound w.
Proof.
  intros [[Ha Ht] Hd]. split.
  - intros g d Hg Hb. apply Hd in Hg. congruence.
  - intros g. rewrite Ha, Ht. by intros [?|?].
  - by rewrite Ht; intros [? ?].
Qed.

Lemma sound_rest w : sound w -> active w = None -> timeout w = None -> at_rest w.
Proof.
  intros [H1 _ _] Ha Ht. split; [done|].
  intros g d Hg. destruct (dragging d) eqn:Hd; [|done]. apply H1 in Hg; [congruence|done].
Qed.

Lemma sound_alike w w' : drag_state w = drag_state w' -> sound w -> sound w'.
Proof. unfold drag_state. intros [= Hd _ Ha Ht _ _ _] [H1 H2 H3]. by split; rewrite <- ?Hd, <- ?Ha, <- ?Ht. Qed.

(** While one is active, whether it is being dragged or not. *)
Definition holding (g : nat) (w : world) : Prop := sound w /\ active w = Some g.
Definition let_go (g : nat) (w : world) : Prop :=
  holding g w /\ forall d, draggables w !! g = Some d -> dragging d = false.

Lemma holding_alike g w w' : drag_state w = drag_state w' -> holding g w -> holding g w'.
Proof. intros H [H1 H2]. split; [by eapply sound_alike|]. unfold drag_state in H. injection H. congruence. Qed.
Lemma let_go_alike g w w' : drag_state w = drag_state w' -> let_go g w -> let_go g w'.
Proof. intros H [H1 H2]. split; [by eapply holding_alike|]. unfold drag_state in H. injection H. intros. apply H2. congruence. Qed.

Lemma on_eq f g w : on f g w =
  match draggables w !! g with
  | Some d => (Val tt, set_draggables (<[g := f d]> (draggables w)) (next_drag w) w)
  | None => (Exn TypeError, w)
  end.
Proof. unfold on, the, put_draggable, mbind, M_bind, get, modify. by destruct (draggables w !! g). Qed.

Lemma on_holding f g : (forall d, is_Some (offset d) -> is_Some (offset (f d))) -> keeping (holding g) (on f g).
Proof.
  intros Hf w H. pose proof H as [[H1 H2 H3] Ha]. rewrite on_eq. destruct (draggables w !! g) as [d|] eqn:Hg; [|done]. split; [|done]. split; cbn; [..|done].
  - intros g' d'. rewrite lookup_insert. case_decide as E; [intros _ _; by subst|apply H1].
  - intros g' Hg'. destruct (H2 g' Hg') as (d' & Hd' & Ho). rewrite lookup_insert. case_decide as E; [|by exists d'].
    subst g'. rewrite Hg in Hd'. injection Hd' as ->. eexists. split; [done|by apply Hf].
Qed.

Lemma on_let_go f g : (forall d, is_Some (offset d) -> is_Some (offset (f d))) -> (forall d, dragging (f d) = dragging d) ->
  keeping (let_go g) (on f g).
Proof.
  intros Ho Hd w [H1 H2]. split; [by apply on_holding|]. rewrite on_eq. destruct (draggables w !! g) as [d|] eqn:Hg; [|cbn; congruence].
  cbn. intros d'. rewrite lookup_insert_eq. intros [= <-]. rewrite Hd. by apply H2.
Qed.

Lemma on_stop g w : holding g w -> let_go g (on (set_dragging false) g w).2.
Proof.
  intros H. split; [by apply on_holding|]. rewrite on_eq. destruct (draggables w !! g) as [d|] eqn:Hg; [|cbn; congruence].
  cbn. intros d'. rewrite lookup_insert_eq. by intros [= <-].
Qed.

(** ** The handlers of a drag *)

(** What the targets and the observers do keeps all that says nothing of the target
    that is lit. *)
Section told.
Variable P : world -> Prop.
Hypothesis P_alike : forall w w', drag_state w = drag_state w' -> P w -> P w'.
Hypothesis P_lit : forall d w, P w -> P (set_last d w).

Lemma change_class_alike f d w : drag_state (change_class f d w) = drag_state w.
Proof. unfold change_class. by destruct (hoverclass d). Qed.

Lemma deactivate_told d : keeping P (deactivate d).
Proof. apply keeping_modify. intros w Hw. apply P_lit. by eapply P_alike; [symmetry; apply change_class_alike|]. Qed.

Lemma activate_told d : keeping P (activate d).
Proof. apply keeping_modify. intros w Hw. apply P_lit. by eapply P_alike; [symmetry; apply change_class_alike|]. Qed.

Lemma log_told c : keeping P (modify (log c)).
Proof. apply keeping_modify. intros w Hw. by eapply P_alike; [|exact Hw]. Qed.

Ltac told := repeat first
  [ apply deactivate_told | apply activate_told | apply log_told
  | apply (inert_keeping P _ P_alike), call_hover_inert | apply (inert_keeping P _ P_alike), observe_inert
  | inert_step ].

Lemma show_told ly p e : keeping P (show tag ident ly p e).
Proof. unfold show. told. Qed.

Lemma fire_told ly p e : keeping P (fire ly p e).
Proof. unfold fire. told. Qed.

Lemma notify_told p g : keeping P (notify tag ident p g).
Proof. unfold notify, the. told. Qed.
End told.

Lemma holding_lit g d w : holding g w -> holding g (set_last d w).
Proof. intros [[H1 H2 H3] H4]. split; [|done]. by split. Qed.
Lemma let_go_lit g d w : let_go g w -> let_go g (set_last d w).
Proof. intros [H1 H2]. split; [by apply holding_lit|done]. Qed.

(** Changes of the element itself: its place, whether it is hidden, its layer, and
    which elements are busy with an effect. *)
Lemma holding_place g p w : holding g w -> holding g (set_place p w).
Proof. intros [[H1 H2 H3] H4]. split; [|done]. by split. Qed.
Lemma let_go_place g p w : let_go g w -> let_go g (set_place p w).
Proof. intros [H1 H2]. split; [by apply holding_place|done]. Qed.

Ltac held := repeat first
  [ apply (log_told _ (holding_alike _)) | apply (show_told _ (holding_alike _) (holding_lit _))
  | apply (notify_told _ (holding_alike _)) | apply (fire_told _ (holding_alike _))
  | apply on_holding; done
  | match goal with |- keeping (holding _) (modify _) => apply keeping_modify; intros ? ?; (by apply holding_place) || (eapply holding_alike; [|eassumption]; done) end
  | inert_step ].
Ltac freed := repeat first
  [ apply (log_told _ (let_go_alike _)) | apply (show_told _ (let_go_alike _) (let_go_lit _))
  | apply (notify_told _ (let_go_alike _)) | apply (fire_told _ (let_go_alike _))
  | apply on_let_go; done
  | match goal with |- keeping (let_go _) (modify _) => apply keeping_modify; intros ? ?; (by apply let_go_place) || (eapply let_go_alike; [|eassumption]; done) end
  | inert_step ].

Lemma updateDrag_held ly g p : keeping (holding g) (updateDrag tag ident ly g p).
Proof. unfold updateDrag, startDrag, start_effect, draw, the. held. Qed.

(** The end of a drag: nothing is left of it, unless something is thrown before. *)
Definition over (w : world) : Prop := at_rest w /\ last_active w = None.
Definition ends {A} (g : nat) (m : M world A) : Prop :=
  forall w, let_go g w -> wp (fun _ => holding g) m (fun _ => over) w.

Lemma ends_bind {A B} g (m : M world A) (f : A -> M world B) : keeping (let_go g) m -> (forall a, ends g (f a)) -> ends g (m ≫= f).
Proof.
  intros Hm Hf w Hw. apply wp_bind. eapply (wp_keeping (let_go g)); [done|done|by intros ? [? _]|]. intros a w' Hw'. by apply Hf.
Qed.

Lemma release_ends g : ends g (deactivate_draggable;; reset).
Proof.
  intros w [[[H1 H2 H3] Ha] Hd]. unfold deactivate_draggable, reset. apply wp_bind, wp_modify. apply wp_bind, wp_get.
  assert (timeout w = None) as Ht.
  { destruct (timeout w) eqn:E; [|done]. rewrite H3 in Ha by (by eexists). done. }
  assert (forall g d, draggables w !! g = Some d -> dragging d = false) as Hn.
  { intros g' d' Hg. destruct (dragging d') eqn:E; [|done]. pose proof (H1 _ _ Hg E) as Hg'. rewrite Ha in Hg'. injection Hg' as <-.
    apply Hd in Hg. congruence. }
  cbn [last_active set_active]. destruct (last_active w) as [d|] eqn:Hl.
  - apply wp_modify. pose proof (change_class_alike remove_class d (set_active None w)) as E. unfold drag_state in E. injection E as E1 _ E2 E3 _ _ _.
    split; [|done]. split; cbn; [by rewrite E2, E3|by rewrite E1].
  - split; [|done]. by split.
Qed.

Lemma finishDrag_ends ly g p b w : holding g w -> wp (fun _ => holding g) (finishDrag tag ident ly g p b) (fun _ => over) w.
Proof.
  intros Hw. unfold finishDrag. apply wp_bind. pose proof (on_stop g w Hw) as Hs. unfold wp at 1.
  destruct (on (set_dragging false) g w) as [[[]|e] w']; [|by destruct Hs]. cbn [snd] in Hs. cbv beta. revert w' Hs.
  match goal with |- forall w, let_go g w -> wp _ ?m _ w => change (ends g m) end.
  repeat lazymatch goal with
  | |- ends _ (deactivate_draggable ≫= _) => apply release_ends
  | _ => apply ends_bind; [unfold the; freed|intros ?]
  end.
Qed.

(** ** The events of the page *)

Inductive event := Down (g src : nat) (p : point) | Tick | Move (p : point) | Up (p : point) | Press (p : point) (keyCode : Z).

(** What the page does at an event, if it listens to it. *)
Definition handle (ly : layout) (ev : event) : M world unit :=
  w ← get;
  match ev with
  | Down g src p => d ← the g; when (listening_down d) (initDrag tag ly g src p)
  | Tick => activation_timer
  | Move p => when (listening w) (page_updateDrag tag ident ly p)
  | Up p => when (listening w) (page_endDrag tag ident ly p)
  | Press p k => when (listening w) (page_keyPress tag ident ly p k)
  end.

(** The state after the events, with the layout at each of them; what is thrown is
    reported by the browser. *)
Definition run (es : list (layout * event)) (w : world) : world := fold_left (fun w '(ly, e) => (handle ly e w).2) es w.

(** The button goes down when it is up: nobody is active or will be. *)
Definition may (e : event) (w : world) : bool :=
  match e with Down _ _ _ => bool_decide (active w = None) && bool_decide (timeout w = None) | _ => true end.
Fixpoint orderly (es : list (layout * event)) (w : world) : bool :=
  match es with [] => true | (ly, e) :: es => may e w && orderly es (handle ly e w).2 end.

Lemma initDrag_sound ly g src p : forall w, at_rest w -> sound (initDrag tag ly g src p w).2.
Proof.
  intros w Hw. pose proof (rest_sound w Hw) as Hs. destruct Hw as [[Ha Ht] Hd]. unfold initDrag. unfold mbind at 1, M_bind at 1, the.
  unfold mbind at 1, M_bind at 1, get at 1. unfold need at 1. destruct (draggables w !! g) as [d|] eqn:Hg; [|done]. unfold mret at 1, M_ret at 1.
  unfold mbind at 1, M_bind at 1, get at 1. destruct (default false _); [done|]. unfold need. destruct (tag src) as [t|]; [|done].
  unfold mbind at 1, M_bind at 1, mret at 1, M_ret at 1. destruct (form_control t); [done|].
  unfold mbind at 1, M_bind at 1. rewrite on_eq, Hg. unfold activate_draggable, the, mbind, M_bind, get, modify.
  cbn [draggables set_draggables]. rewrite lookup_insert_eq. unfold need, mret, M_ret. cbn [options set_offset].
  set (w1 := set_draggables _ _ w).
  assert (forall g' d', draggables w1 !! g' = Some d' -> dragging d' = false) as Hd1.
  { intros g' d'. cbn. rewrite lookup_insert. case_decide; [intros [= <-]; by apply (Hd g d)|apply Hd]. }
  assert (exists d', draggables w1 !! g = Some d' /\ is_Some (offset d')) as Hg1.
  { cbn. rewrite lookup_insert_eq. eexists. split; [done|by eexists]. }
  destruct (delay (options d)); split; cbn -[w1]; change (timeout w1) with (timeout w); change (active w1) with (active w); rewrite ?Ha, ?Ht; try by intros [? ?].
  all: try (intros g' d' H1 H2; apply Hd1 in H1; congruence). all: try (intros g' [H|H]; by inversion H; subst). all: done.
Qed.

Definition was_dragged (w : world) : Prop := exists g d, draggables w !! g = Some d /\ dragging d = true.

Lemma endDrag_sound ly p w : sound w ->
  wp (fun _ => sound) (page_endDrag tag ident ly p) (fun _ w' => at_rest w' /\ (was_dragged w -> last_active w' = None)) w.
Proof.
  intros Hw. unfold page_endDrag. apply wp_bind, wp_modify. apply wp_bind, wp_get. cbn [active set_timeout].
  assert (sound (set_timeout None w)) as H1.
  { destruct Hw as [H1 H2 H3]. split; cbn; [done| |by intros [? ?]]. intros g [Hg|Hg]; [|done]. apply H2. by left. }
  destruct (active w) as [g|] eqn:Ha.
  - apply wp_bind, wp_modify. apply wp_bind. set (w1 := set_lastPointer _ _).
    assert (holding g w1) as Hh by (eapply holding_alike; [|split; [exact H1|done]]; done).
    unfold endDrag, the. apply wp_bind, wp_bind, wp_get. unfold need. destruct (draggables w1 !! g) as [d|] eqn:Hg; [|by apply wp_throw; destruct Hh].
    apply wp_ret. destruct (dragging d) eqn:Hd; cbn [negb].
    + apply wp_bind. eapply wp_mono_exn; [apply finishDrag_ends, Hh|by intros e ? [? _]|]. intros [] w2 [[Hn Hd2] Hl2]. apply wp_modify, wp_modify.
      destruct Hn. by repeat split.
    + assert (forall g' d', draggables w1 !! g' = Some d' -> dragging d' = false) as Hall.
      { intros g' d' Hg'. destruct (dragging d') eqn:Hd'; [|done]. destruct Hh as [[H2 _ _] H3]. pose proof (H2 _ _ Hg' Hd'). congruence. }
      apply wp_ret, wp_modify. split; [by split|]. intros (g' & d' & Hg' & Hd'). rewrite (Hall g' d' Hg') in Hd'. done.
  - apply wp_ret. split; [by apply sound_rest|]. intros (g & d & Hg & Hd). destruct Hw as [H2 _ _]. rewrite (H2 g d Hg Hd) in Ha. done.
Qed.

Lemma holding_sound g (m : M world unit) : keeping (holding g) m -> forall w, sound w -> active w = Some g -> sound (m w).2.
Proof. intros Hm w Hw Ha. by destruct (Hm w (conj Hw Ha)). Qed.

Lemma updateDrag_sound ly p : keeping sound (page_updateDrag tag ident ly p).
Proof.
  intros w Hw. unfold page_updateDrag, mbind at 1, M_bind at 1, get. destruct (active w) as [g|] eqn:Ha; [|done].
  case_bool_decide; [done|]. apply (holding_sound g); [|done|done].
  apply keeping_bind; [|intros _; apply updateDrag_held]. apply keeping_modify. intros w1 H1. by eapply holding_alike; [|exact H1].
Qed.

Lemma keyPress_sound ly p k w : sound w ->
  wp (fun _ => sound) (page_keyPress tag ident ly p k) (fun _ w' => sound w' /\ (is_Some (active w) -> k = 27 -> over w')) w.
Proof.
  intros Hw. unfold page_keyPress, keyPress. apply wp_bind, wp_get. destruct (active w) as [g|] eqn:Ha.
  - destruct (Z.eqb_spec k 27) as [->|Hk]; cbn [negb]; [|by apply wp_ret].
    apply wp_bind. eapply wp_mono_exn; [by apply (finishDrag_ends ly g)|by intros e ? [? _]|]. intros [] w2 [[Hn Hd] Hl]. apply wp_modify.
    assert (over (log Stopped w2)) as Ho by (split; [by split|done]). split; [apply rest_sound, Ho|done].
  - apply wp_ret. split; [done|by intros [? ?]].
Qed.

Lemma timer_sound : keeping sound activation_timer.
Proof.
  intros w Hw. pose proof Hw as [H1 H2 H3]. unfold activation_timer, mbind, M_bind, get, modify. destruct (timeout w) as [g|] eqn:Ht; [|done].
  assert (active w = None) as Ha by (apply H3; by eexists). split; cbn.
  - intros g' d Hg Hd. pose proof (H1 g' d Hg Hd). congruence.
  - intros g' [[= <-]|?]; [|done]. apply H2. by right.
  - by intros [? ?].
Qed.

Lemma wp_leaves {S A} (P : S -> Prop) (m : M S A) (Q : A -> S -> Prop) s : wp (fun _ => P) m Q s -> (forall a s', Q a s' -> P s') -> P (m s).2.
Proof. unfold wp. destruct (m s) as [[a|e] s']; [intros H HQ; by eapply HQ|done]. Qed.

Lemma handle_sound ly e w : may e w = true -> sound w -> sound (handle ly e w).2.
Proof.
  intros He Hw. unfold handle, mbind at 1, M_bind at 1, get. destruct e as [g src p| |p|p|p k]; cbn [may] in He.
  - apply andb_true_iff in He as [Ha%bool_decide_eq_true Ht%bool_decide_eq_true]. unfold the, mbind, M_bind, get, need.
    destruct (draggables w !! g) as [d|]; [|done]. cbn -[initDrag]. unfold mret, M_ret, when. destruct (listening_down d); [|done].
    by apply initDrag_sound, sound_rest.
  - by apply timer_sound.
  - unfold when. destruct (listening w); [by apply updateDrag_sound|done].
  - unfold when. destruct (listening w); [|done]. eapply wp_leaves; [by apply endDrag_sound|]. by intros ? ? [?%rest_sound _].
  - unfold when. destruct (listening w); [|done]. eapply wp_leaves; [by apply keyPress_sound|]. by intros ? ? [? _].
Qed.

Lemma run_sound es : forall w, orderly es w = true -> sound w -> sound (run es w).
Proof.
  induction es as [|[ly e] es IH]; intros w Ho Hw; [done|]. cbn [orderly] in Ho. apply andb_true_iff in Ho as [He Ho].
  apply (IH _ Ho). by apply handle_sound.
Qed.

(** C33: Through any events of the page, throughout which the button goes down only
    when it is up, and whatever the handlers throw: an element that is dragged is
    the active one, so there is at most one, and an active element was taken at a
    point of it.  A release of the button that does not throw ends the drag, and
    so does Escape; the target that the element was over is not lit any more. *)
Theorem one_drag_at_a_time es w : at_rest w -> orderly es w = true ->
  let w' := run es w in
  (forall g d, draggables w' !! g = Some d -> dragging d = true -> active w' = Some g) /\
  (forall g, active w' = Some g -> exists d, draggables w' !! g = Some d /\ is_Some (offset d)) /\
  (forall ly p w2, page_endDrag tag ident ly p w' = (Val tt, w2) ->
     at_rest w2 /\ (was_dragged w' -> last_active w2 = None)) /\
  (forall ly p w2, is_Some (active w') -> page_keyPress tag ident ly p 27 w' = (Val tt, w2) ->
     at_rest w2 /\ last_active w2 = None).
Proof.
  intros Hw Ho w'. pose proof (run_sound es w Ho (rest_sound w Hw)) as Hs. fold w' in Hs. pose proof Hs as [H1 H2 _].
  split; [done|]. split; [intros g Hg; apply H2; by left|]. split.
  - intros ly p w2 E. pose proof (endDrag_sound ly p w' Hs) as H. unfold wp in H. by rewrite E in H.
  - intros ly p w2 Ha E. pose proof (keyPress_sound ly p 27 w' Hs) as H. unfold wp in H. rewrite E in H. by apply H.
Qed.
End safe.
End DragSafe.

(** * The pointer and the element that is dragged

    Where an element is after the pointer has moved: under the pointer, at the
    point where it was taken, to the nearest position that is permitted. *)

Module DragGrip.
Import Js DragPage Sort Drop DragSafe.

(** ** Rounding to steps *)

(** A multiple of the step that is at most half a step away. *)
Lemma round_near s v : 0 < s -> exists k, round_to s v = k * s /\ Z.abs (2 * (round_to s v - v)) <= s.
Proof.
  intros Hs. unfold round_to. eexists. split; [done|].
  pose proof (Z.div_mod (2 * v + s) (2 * s) ltac:(lia)) as E. pose proof (Z.mod_pos_bound (2 * v + s) (2 * s) ltac:(lia)). nia.
Qed.

(** How far from a point the permitted position that is taken for it may be. *)
Definition slack (s : snapping) : point := match s with NoSnap => (0, 0) | Snap n => (n, n) | SnapXY x y => (x, y) end.
Definition steps_ok (s : snapping) : Prop := match s with NoSnap => True | Snap n => 0 <= n | SnapXY x y => 0 < x /\ 0 < y end.

Lemma snapped_near s p : steps_ok s ->
  Z.abs (2 * ((snapped s p).1 - p.1)) <= (slack s).1 /\ Z.abs (2 * ((snapped s p).2 - p.2)) <= (slack s).2.
Proof.
  destruct s as [|n|x y]; cbn -[Z.mul]; [lia|..].
  - intros Hn. destruct (Z.eqb_spec n 0) as [->|Hn0]; [lia|]. cbn -[Z.mul].
    destruct (round_near n p.1 ltac:(lia)) as (_ & _ & H1), (round_near n p.2 ltac:(lia)) as (_ & _ & H2). done.
  - intros [Hx Hy]. destruct (round_near x p.1 Hx) as (_ & _ & H1), (round_near y p.2 Hy) as (_ & _ & H2). done.
Qed.

Section grip.
Variable tag : nat -> option jstring.
Variable ident : nat -> jstring.

(** What is known of an element between the pointer's move and the drawing. *)
Definition gripped (g e : nat) (o : point) (opts : drag_options) (pl : gmap nat point) (w : world) : Prop :=
  place w = pl /\ exists d, draggables w !! g = Some d /\ g_element d = e /\ offset d = Some o /\ options d = opts.

Section fixed.
Variables (g e : nat) (o : point) (opts : drag_options) (pl : gmap nat point).
Notation G := (gripped g e o opts pl).

Lemma gripped_alike w w' : drag_state w = drag_state w' -> G w -> G w'.
Proof. unfold drag_state, gripped. intros [= Hd _ _ _ _ Hp _]. by rewrite Hd, Hp. Qed.

Lemma gripped_lit d w : G w -> G (set_last d w).
Proof. done. Qed.

Lemma on_gripped f : (forall d, g_element (f d) = g_element d /\ offset (f d) = offset d /\ options (f d) = options d) -> keeping G (on f g).
Proof.
  intros Hf w Hw. pose proof Hw as (Hp & d & Hd & He & Ho & Hopt). rewrite on_eq, Hd. split; [done|]. exists (f d). cbn.
  rewrite lookup_insert_eq. destruct (Hf d) as (-> & -> & ->). done.
Qed.

Ltac gripping := repeat first
  [ apply (log_told _ gripped_alike) | apply (show_told _ _ _ gripped_alike gripped_lit)
  | apply (notify_told _ _ _ gripped_alike) | apply on_gripped; done
  | match goal with |- keeping G (modify _) => apply keeping_modify; intros ? ?; (eapply gripped_alike; [|eassumption]; done) end
  | inert_step ].

Lemma startDrag_gripped : keeping G (startDrag tag ident g).
Proof. unfold startDrag, start_effect, the. gripping. Qed.

Lemma show_gripped ly p : keeping G (show tag ident ly p e).
Proof. gripping. Qed.

Lemma notify_gripped ph : keeping G (notify tag ident ph g).
Proof. gripping. Qed.

(** What is drawn. *)
Definition drawn (ly : layout) (p : point) : point :=
  let pos := cumulativeOffset ly e in
  let c := default (0, 0) (pl !! e) in
  let q := snapped (snap opts) (p.1 - (pos.1 - c.1) - o.1, p.2 - (pos.2 - c.2) - o.2) in
  (if horizontal opts then q.1 else c.1, if vertical opts then q.2 else c.2).

Lemma draw_gripped ly p w : G w -> wp (fun _ _ => False) (draw ly g p) (fun _ w' => place w' = <[e := drawn ly p]> pl) w.
Proof.
  intros (Hp & d & Hd & He & Ho & Hopt). unfold draw, the. apply wp_bind, wp_bind, wp_get, (wp_need _ d); [done|]. apply wp_bind, wp_get.
  apply wp_bind, (wp_need _ o); [done|]. cbv zeta. apply wp_bind, wp_modify, wp_modify. cbn. unfold drawn, currentDelta. by rewrite Hp, He, Hopt.
Qed.
End fixed.

(** C34: Wherever the pointer goes, the element that is dragged goes with it: in a
    direction in which it may move, the point of the element that the pointer took
    is under the pointer again, no further away than half of the step that its
    position is rounded to; in a direction in which it may not, the element stays.
    Nothing else is moved by the style. *)
Theorem grip_kept ly p g d o w w' : active w = Some g -> lastPointer w <> Some p ->
  draggables w !! g = Some d -> offset d = Some o -> steps_ok (snap (options d)) ->
  page_updateDrag tag ident ly p w = (Val tt, w') ->
  let e := g_element d in
  let pos := cumulativeOffset ly e in let c := currentDelta w e in let c' := currentDelta w' e in
  (if horizontal (options d) then Z.abs (2 * (pos.1 - c.1 + c'.1 + o.1 - p.1)) <= (slack (snap (options d))).1 else c'.1 = c.1) /\
  (if vertical (options d) then Z.abs (2 * (pos.2 - c.2 + c'.2 + o.2 - p.2)) <= (slack (snap (options d))).2 else c'.2 = c.2) /\
  (forall x, x <> e -> place w' !! x = place w !! x).
Proof.
  intros Ha Hl Hd Ho Hs Hw'. cbv zeta. set (e := g_element d). set (opts := options d) in *.
  assert (place w' = <[e := drawn e o opts (place w) ly p]> (place w)) as Hp.
  { assert (wp (fun _ _ => True) (page_updateDrag tag ident ly p) (fun _ w' => place w' = <[e := drawn e o opts (place w) ly p]> (place w)) w) as H;
      [|unfold wp in H; by rewrite Hw' in H].
    unfold page_updateDrag. apply wp_bind, wp_get. rewrite Ha, bool_decide_eq_false_2 by done. apply wp_bind, wp_modify.
    unfold updateDrag, the. apply wp_bind, wp_bind, wp_get, (wp_need _ d); [done|]. set (G := gripped g e o opts (place w)).
    assert (G (set_lastPointer (Some p) w)) as Hg by (split; [done|by exists d]).
    apply wp_bind, (wp_keeping G); [apply keeping_when, startDrag_gripped|done|done|]. intros _ w1 H1.
    apply wp_bind, (wp_keeping G); [apply keeping_when, show_gripped|done|done|]. intros _ w2 H2.
    apply wp_bind, (wp_keeping G); [apply notify_gripped|done|done|]. intros _ w3 H3.
    apply wp_bind. eapply wp_mono_exn; [exact (draw_gripped g e o opts (place w) ly p w3 H3)|done|]. intros [] w4 H4. cbv beta in H4.
    apply wp_bind, wp_when; intros _; [apply wp_modify|]; by apply wp_modify. }
  unfold currentDelta. rewrite Hp, lookup_insert_eq. cbn [default]. unfold drawn.
  match goal with |- context [snapped (snap opts) ?q] => destruct (snapped_near (snap opts) q Hs) as [Hx Hy]; set (r := snapped _ q) in * end.
  cbn [fst snd] in Hx, Hy. split; [|split]; [..|intros x Hx'; by rewrite lookup_insert_ne]; cbn [fst snd].
  - destruct (horizontal opts); [|done]. clear -Hx. cbv [from_option id] in *; cbn [fst snd]. lia.
  - destruct (vertical opts); [|done]. clear -Hy. cbv [from_option id] in *; cbn [fst snd]. lia.
Qed.
End grip.
End DragGrip.
