(* ===== verification/DragCases.v ===== *)
(** * Two lists on a page

    A page with two lists, through which the theorems on dragging are tried, and
    the cases in which the library does something else than it means to. *)
From Stdlib Require Import QArith.
From stdpp Require Import relations.
From S2P Require Import Prelude JsString JsMonad Json ProtoText ProtoStr DragPage SortList DragDrop DragTree DragOrder DragSafe.
Open Scope Z_scope.

Module DragCases.
Import Js DragPage Sort Drop DragTree.

(** [<body><ul id="list"><li id="item_1"/>...</ul><ul id="other"><li id="item_4"/></ul></body>] *)
Definition tag (e : nat) : option jstring :=
  match e with 0%nat => Some (js "BODY") | 1%nat | 5%nat => Some (js "UL") | 2%nat | 3%nat | 4%nat | 6%nat => Some (js "LI") | _ => None end.
Definition ident (e : nat) : jstring :=
  match e with
  | 1%nat => js "list" | 5%nat => js "other"
  | 2%nat => js "item_1" | 3%nat => js "item_2" | 4%nat => js "item_3" | 6%nat => js "item_4" | _ => [] end.
Definition depth (e : nat) : nat := match e with 0%nat => 0 | 1%nat | 5%nat => 1 | _ => 2 end.
Definition page : world :=
  World (list_to_map [(1, 0); (5, 0); (2, 1); (3, 1); (4, 1); (6, 5)]%nat)
    (list_to_map [(0, [1; 5]); (1, [2; 3; 4]); (5, [6])]%nat)
    ∅ ∅ ∅ ∅ ∅ [] None [] ∅ [] 0 None None None ∅ false [] [].

Definition moving (r : reverting) : drag_options :=
  DragOptions false NoSnap true true r false false (Some 1000) false false true false false false false false.
Definition list_at (e : nat) (r : reverting) : list_options :=
  ListOptions (Sortable e (js "li") (js "ul") None Vertical false false false SERIALIZE_RULE [] []) (Some [1; 5]%nat) [] (moving r).
Definition after {A} (m : M world A) (w : world) : world := (m w).2.
Definition lists (r : reverting) : world := after (create_list tag ident (list_at 1 r);; create_list tag ident (list_at 5 r)) page.

(** Every element is under the pointer, and the dragged one overlaps its target a
    little. *)
Definition near (e : nat) : layout := Layout (fun x _ => bool_decide (x = e)) (fun _ => 1 # 4)%Q (fun _ _ => 10%Q) (fun _ => (0, 0)).

(** ** Witnesses *)

Lemma lists_tree : tree_ok (lists NoRevert).
Proof. apply (tree_checked _ depth); decided. Qed.

Lemma setSequence_sequence_witness :
  let o := with_items (l_sortable (list_at 1 NoRevert)) [] [] in
  let w := setSequence_of tag ident o 1%nat [js "3"; js "1"; js "2"] page in
  sequence_of tag ident o 1%nat page = [js "1"; js "2"; js "3"] /\ sequence_of tag ident o 1%nat w = [js "3"; js "1"; js "2"].
Proof.
  assert (tree_ok page) as Hpage by (apply (tree_checked _ depth); decided).
  split; [by vm_compute|].
  refine (proj1 (DragOrder.setSequence_sequence tag ident (with_items (l_sortable (list_at 1 NoRevert)) [] []) 1%nat
    [js "3"; js "1"; js "2"] page eq_refl Hpage _ _ _)).
  - assert (Forall (fun x => is_Some (SERIALIZE_RULE (ident x))) [2; 3; 4]%nat) as H by decided.
    rewrite Forall_forall in H. exact H.
  - decided.
  - change (sequence_of _ _ _ _ _) with [js "1"; js "2"; js "3"].
    exact (Permutation_cons_append [js "1"; js "2"] (js "3")).
Defined.

Lemma hover_moves_witness :
  exists w', onHover tag ident 6%nat 3%nat (1 # 4) (lists NoRevert) = (Val tt, w') /\ kids_of 1 w' = [2; 3; 6; 4]%nat /\ kids_of 5 w' = [].
Proof.
  assert (~ below (lists NoRevert) 3%nat 6%nat) as Hb.
  { rewrite <- (isParent_spec _ _ _ lists_tree). by vm_compute. }
  destruct (DragSort.hover_moves tag ident 6%nat 3%nat (1 # 4) (lists NoRevert) 1%nat 5%nat
    (default (l_sortable (list_at 1 NoRevert)) (assoc (js "list") (sortables (lists NoRevert))))
    (default (l_sortable (list_at 1 NoRevert)) (assoc (js "list") (sortables (lists NoRevert))))
    (default (l_sortable (list_at 1 NoRevert)) (assoc (js "other") (sortables (lists NoRevert))))
    lists_tree ltac:(done) ltac:(by vm_compute) ltac:(by vm_compute) Hb ltac:(by vm_compute) ltac:(by vm_compute)
    ltac:(by vm_compute) ltac:(by vm_compute)) as (w' & H & _ & _ & Hr).
  exists w'. split; [exact H|]. split; [|rewrite (Hr 5%nat ltac:(done)); by vm_compute].
  assert (w' = after (onHover tag ident 6%nat 3%nat (1 # 4)) (lists NoRevert)) as -> by (unfold after; by rewrite H). by vm_compute.
Defined.

Definition target (e : nat) : drop := Drop e None None false (js "over") NoHover (Some 7%nat).
Lemma deepest_has_none_inside_witness :
  let d := findDeepestChild page (target 1) [target 3; target 5] in
  d = target 3 /\ ~ below page 5%nat (d_element d).
Proof.
  assert (tree_ok page) as Hpage by (apply (tree_checked _ depth); decided).
  split; [by vm_compute|].
  exact (proj2 (deepest_has_none_inside page (target 1) [target 3; target 5] Hpage) (target 5)
    (list_elem_of_further _ _ _ (list_elem_of_further _ _ _ (list_elem_of_here _ _)))).
Defined.

(** A press, a move, a release, a press and Escape. *)
Definition hand : list (layout * DragSafe.event) :=
  map (pair (near 3)) [DragSafe.Down 0 2 (5, 5); DragSafe.Move (7, 9); DragSafe.Up (7, 9); DragSafe.Down 1 3 (5, 5); DragSafe.Press (5, 5) 27;
    DragSafe.Down 0 2 (5, 5); DragSafe.Move (9, 9)].
Lemma one_drag_at_a_time_witness :
  let w := DragSafe.run tag ident hand (lists NoRevert) in
  active w = Some 0%nat /\ exists d, draggables w !! 0%nat = Some d /\ is_Some (offset d).
Proof.
  assert (DragSafe.at_rest (lists NoRevert)) as Hrest.
  { split; [split; by vm_compute|].
    assert (map_Forall (fun _ d => dragging d = false) (draggables (lists NoRevert))) as H by decided. exact H. }
  split; [by vm_compute|].
  refine (proj1 (proj2 (DragSafe.one_drag_at_a_time tag ident hand (lists NoRevert) Hrest ltac:(by vm_compute))) 0%nat _).
  by vm_compute.
Defined.

(** An element that moves in steps of ten: the pointer has gone three and seven. *)
Definition stepping : world :=
  after (new_draggable 2 (DragOptions false (Snap 10) true true NoRevert false false None false false true false false false false false);;
    initDrag tag (near 9) 0 2%nat (5, 5)) page.
Lemma grip_kept_witness :
  exists w', page_updateDrag tag ident (near 9) (8, 12) stepping = (Val tt, w') /\
    Z.abs (2 * (0 - 0 + (currentDelta w' 2).2 + 5 - 12)) <= 10.
Proof.
  assert (exists w', page_updateDrag tag ident (near 9) (8, 12) stepping = (Val tt, w')) as [w' H] by (eexists; by vm_compute).
  exists w'. split; [exact H|].
  exact (proj1 (proj2 (DragGrip.grip_kept tag ident (near 9) (8, 12) 0%nat
    (Draggable 2 (DragOptions false (Snap 10) true true NoRevert false false None false false true false false false false false)
       false None (Some (5, 5)) None false true) (5, 5) stepping w' ltac:(by vm_compute) ltac:(by vm_compute) ltac:(by vm_compute) eq_refl
    ltac:(by vm_compute) H))).
Defined.

(** ** A drag from the button down to the button up *)

Definition drag (r : reverting) : world :=
  after (initDrag tag (near 3) 0 2%nat (5, 5);; page_updateDrag tag ident (near 3) (7, 9);; page_endDrag tag ident (near 3) (7, 9)) (lists r).

(** The first element of the list ends up behind the second; the observers of the
    list are told, and nothing is left of the drag. *)
Lemma whole_drag :
  kids_of 1 (drag NoRevert) = [3; 2; 4]%nat /\ place (drag NoRevert) !! 2%nat = Some (2, 4) /\ active (drag NoRevert) = None /\
  existsb (fun c => match c with OnUpdate e => (e =? 1)%nat | _ => false end) (calls (drag NoRevert)) = true.
Proof. by vm_compute. Qed.

(** ** Cases *)

(** An order that does not name all elements removes the others from the page. *)
Lemma setSequence_loses : kids_of 1 (after (setSequence tag ident 1%nat [js "2"]) (lists NoRevert)) = [3]%nat.
Proof. by vm_compute. Qed.

(** A list without elements cannot be given an order. *)
Lemma setSequence_empty :
  (setSequence tag ident 5%nat [] (after (setSequence tag ident 5%nat []) (lists NoRevert))).1 = Exn TypeError.
Proof. by vm_compute. Qed.

(** A target that is removed while an element is over it still takes the drop. *)
Lemma removed_still_dropped :
  let w := after (add (target 3);; show tag ident (near 3) (0, 0) 2%nat;; remove 3%nat) page in
  drops w = [] /\ (fire (near 3) (0, 0) 2%nat w).1 = Val true.
Proof. by vm_compute. Qed.

(** Escape before the mouse has moved ends a drag that has not begun, and throws if
    the element is to be moved back. *)
Definition phases (w : world) : list phase :=
  omap (fun c => match c with Notify p _ => Some p | _ => None end) (calls w).
Definition escape (r : reverting) : world := after (initDrag tag (near 3) 0 2%nat (5, 5)) (lists r).
Lemma escape_before_moving :
  let w := after (page_keyPress tag ident (near 3) (5, 5) 27) (escape NoRevert) in
  phases w = [OnEnd] /\ (page_keyPress tag ident (near 3) (5, 5) 27 (escape Revert)).1 = Exn TypeError.
Proof. by vm_compute. Qed.

(** While the effect at the end of one drag runs, no other element of the same kind
    can be dragged: the key that is kept for the element is the name of its class. *)
Definition effects (o : drag_options) : drag_options :=
  DragOptions (delay o) (snap o) (vertical o) (horizontal o) (revert o) (quiet o) (ghosting o) (zindex o) true true (reverteffect o)
    (o_onStart o) (o_onDrag o) (o_onEnd o) (change o) (onDropped o).
Definition one_busy : world :=
  after (new_draggable 2 (effects (moving NoRevert));; new_draggable 3 (effects (moving NoRevert));;
    initDrag tag (near 4) 0 2%nat (5, 5);; page_updateDrag tag ident (near 4) (7, 9);; page_endDrag tag ident (near 4) (7, 9)) page.
Lemma others_blocked :
  active (after (initDrag tag (near 4) 1 3%nat (5, 5)) one_busy) = None /\
  active (after (end_effect_over tag 2;; initDrag tag (near 4) 1 3%nat (5, 5)) one_busy) = Some 1%nat.
Proof. by vm_compute. Qed.

(** Pressing the button on another element while one is dragged (its release was
    outside of the window) leaves the first one as being dragged, unless there are effects for it. *)
Lemma pressed_twice :
  let w := after (initDrag tag (near 4) 0 2%nat (5, 5);; page_updateDrag tag ident (near 4) (7, 9);;
                  initDrag tag (near 4) 1 3%nat (5, 5);; page_endDrag tag ident (near 4) (5, 5)) (lists NoRevert) in
  active w = None /\ dragging <$> (draggables w !! 0%nat) = Some true.
Proof. by vm_compute. Qed.

(** The ids of a tree are encoded twice in the text that is sent. *)
Definition spaced (e : nat) : jstring := if (e =? 2)%nat then js "item_a b" else ident e.
Definition one : world := setSequence_of tag spaced (with_items (l_sortable (list_at 1 NoRevert)) [] []) 1%nat [js "a b"] page.
Lemma tree_encoded_twice :
  let o t := Sortable 1 (js "li") (js "ul") None Vertical t false false SERIALIZE_RULE [] [] in
  serialize_of tag spaced (o false) 1%nat one = Text.Returns (js "list[]=a%20b") /\
  serialize_of tag spaced (o true) 1%nat one = Text.Returns (js "list[0][id]=a%2520b").
Proof. by vm_compute. Qed.
End DragCases.
