(* ===== verification/ProtoInherit.v ===== *)
(** * Classes and functions

    [Class.create] and [addMethods], the functions that build functions ([bind],
    [curry], [wrap] and their kin) and [Object.extend] of prototype.js: an
    interpreter of calls over a heap of classes and objects, for bodies of the
    page that are parameters. *)
From S2P Require Import Prelude JsString JsMonad ProtoText JsRegex.

Module Inherit.
Import Js.

(** ** Values *)

(** A function is one of the page, or one that the library makes: [Klass] is what
    [Class.create] returns, [Above k m] calls the method [m] of the prototype of
    [k], and [Shown f g] is [f] with the text of [g]. *)
Inductive value :=
  | Undefined | Null
  | Data (n : Z)                                       (** whatever is no object, by a number *)
  | Obj (n : nat)
  | Fun (f : fn)
with fn :=
  | Page (id : nat) | Nothing
  | Klass (k : nat) | Above (k : nat) (m : jstring)
  | Bind (f : fn) (object : value) (args : list value)
  | BindEvent (f : fn) (object : value) (args : list value)
  | Curry (f : fn) (args : list value)
  | Wrap (f wrapper : fn)
  | Methodize (f : fn)
  | Shown (f g : fn).

Definition isFunction (v : value) : bool := match v with Fun _ => true | _ => false end.
Definition isUndefined (v : value) : bool := match v with Undefined => true | _ => false end.

(** Objects as their own properties, in the order in which they were made. *)
Notation props := (list (jstring * value)).
Fixpoint own (m : jstring) (l : props) : option value :=
  match l with [] => None | (k, v) :: l => if bool_decide (k = m) then Some v else own m l end.
Fixpoint put (m : jstring) (v : value) (l : props) : props :=
  match l with [] => [(m, v)] | (k, u) :: l => if bool_decide (k = m) then (k, v) :: l else (k, u) :: put m v l end.

(** src/piql/scadr/src/main/rails/public/javascripts/prototype.js:106-110
    [Object.extend(destination, source)] *)
Definition extend (destination source : props) : props := fold_left (fun d '(k, v) => put k v d) source destination.
(** src/piql/scadr/src/main/rails/public/javascripts/prototype.js:155-160
    [Object.keys(object)] *)
Definition keys (object : props) : list jstring := map fst object.
(** src/piql/scadr/src/main/rails/public/javascripts/prototype.js:162-167
    [Object.values(object)] *)
Definition values (object : props) : list value := map snd object.
(** src/piql/scadr/src/main/rails/public/javascripts/prototype.js:169-171
    [Object.clone(object)] *)
Definition clone (object : props) : props := extend [] object.

(** ** The names of arguments *)

Definition lparen : Z := 40.
Definition rparen : Z := 41.
(** White space and parentheses, [function], anything up to a parenthesis, and the
    group between it and the next closing one. *)
Definition head_re : Regex.regex :=
  Regex.Seq Regex.Start (Regex.Seq (Regex.Star true (Regex.Class (fun c => is_white c || (c =? lparen))))
    (Regex.Seq (Regex.Lit (js "function")) (Regex.Seq (Regex.Star true (Regex.Class (fun c => negb (c =? lparen))))
      (Regex.Seq (Regex.Char lparen) (Regex.Seq (Regex.Group 1 (Regex.Star true (Regex.Class (fun c => negb (c =? rparen)))))
        (Regex.Char rparen)))))).

(** src/piql/scadr/src/main/rails/public/javascripts/prototype.js:204-208
    [argumentNames()], for the text of the function: what is no such text throws. *)
Definition argumentNames (text : jstring) : option (list jstring) :=
  m ← Regex.exec 1 head_re text;
  t ← Regex.group m 1;
  let names := split_char 44 (filter (fun c => is_white c = false) t) in
  mret match names with [[]] => [] | _ => names end.

(** ** The state *)

(** The prototype of a class that is made with a parent goes on to the prototype of
    the parent. *)
Record class := Class { superclass : option nat; subclasses : list nat; proto : props }.
Record object := Object { class_of : nat; fields : props }.
Record world := World { classes : list class; objects : list object }.
Notation M := (M world).
Definition set_classes c w := World c (objects w).
Definition set_objects o w := World (classes w) o.

Section page.
(** The text of the functions of the page, and what every object has. *)
Variable source : nat -> jstring.
Variable base : jstring -> option value.
Variable truthy : Z -> bool.
Definition truth (v : value) : bool := match v with Undefined | Null => false | Data n => truthy n | _ => true end.

(** [toString()]: the functions of the library show their own texts. *)
Fixpoint toString (f : fn) : jstring :=
  match f with
  | Page n => source n
  | Nothing => js "function() { }"
  | Klass _ => js "function klass() { this.initialize.apply(this, arguments); }"
  | Above _ _ => js "function() { return ancestor[m].apply(this, arguments) }"
  | Bind _ _ _ => js "function() { return __method.apply(object, args.concat($A(arguments))); }"
  | BindEvent _ _ _ => js "function(event) { return __method.apply(object, [event || window.event].concat(args)); }"
  | Curry _ _ => js "function() { return __method.apply(this, args.concat($A(arguments))); }"
  | Wrap _ _ => js "function() { return wrapper.apply(this, [__method.bind(this)].concat($A(arguments))); }"
  | Methodize _ => js "function() { return __method.apply(null, [this].concat($A(arguments))); }"
  | Shown _ g => toString g
  end.

(** A property of the prototype of a class: its own, or that of its superclass. *)
Fixpoint proto_get (fuel : nat) (l : list class) (k : nat) (m : jstring) : option value :=
  match fuel with
  | O => None
  | S fuel =>
      c ← l !! k;
      match own m (proto c) with
      | Some v => Some v
      | None => match superclass c with Some p => proto_get fuel l p m | None => base m end
      end
  end.
(** A chain of prototypes is no longer than there are classes. *)
Definition get_proto (l : list class) (k : nat) (m : jstring) : option value := proto_get (length l) l k m.

Definition get_field (w : world) (v : value) (m : jstring) : option value :=
  match v with
  | Obj n => o ← objects w !! n;
             match own m (fields o) with Some v => Some v | None => get_proto (classes w) (class_of o) m end
  | _ => None
  end.

(** ** Building functions *)

(** src/piql/scadr/src/main/rails/public/javascripts/prototype.js:210-216
    [bind(object, ...)], given its arguments *)
Definition bind (f : fn) (arguments : list value) : fn :=
  let object := default Undefined (head arguments) in
  if (length arguments <? 2)%nat && isUndefined object then f else Bind f object (tail arguments).
(** src/piql/scadr/src/main/rails/public/javascripts/prototype.js:218-223
    [bindAsEventListener(object, ...)] *)
Definition bindAsEventListener (f : fn) (arguments : list value) : fn :=
  BindEvent f (default Undefined (head arguments)) (tail arguments).
(** src/piql/scadr/src/main/rails/public/javascripts/prototype.js:225-231
    [curry(...)] *)
Definition curry (f : fn) (arguments : list value) : fn := match arguments with [] => f | _ => Curry f arguments end.
(** A timer: the milliseconds to wait, and the call: function, object, arguments. *)
Notation timer := (Z * (fn * value * list value))%type.
(** src/piql/scadr/src/main/rails/public/javascripts/prototype.js:233-238
    [delay(timeout, ...)], for a time in milliseconds *)
Definition delay (f : fn) (timeout : Z) (args : list value) : timer := (timeout, (f, Fun f, args)).
(** src/piql/scadr/src/main/rails/public/javascripts/prototype.js:240-243
    [defer(...)] *)
Definition defer (f : fn) (args : list value) : timer := delay f 10 args.
(** src/piql/scadr/src/main/rails/public/javascripts/prototype.js:245-250
    [wrap(wrapper)] *)
Definition wrap (f wrapper : fn) : fn := Wrap f wrapper.
(** src/piql/scadr/src/main/rails/public/javascripts/prototype.js:252-258
    [methodize()]; that the result is kept makes no difference here. *)
Definition methodize (f : fn) : fn := Methodize f.

(** ** Classes *)

(** A method whose first argument is [$super] gets the method above. *)
Definition wants_super (f : fn) : option bool :=
  names ← argumentNames (toString f); mret (bool_decide (head names = Some (js "$super"))).
(** src/piql/scadr/src/main/rails/public/javascripts/prototype.js:89-95
    [addMethods]: the function that is stored for such a method *)
Definition super_method (ancestor : nat) (m : jstring) (method : fn) : fn := Shown (wrap (Above ancestor m) method) method.

(** src/piql/scadr/src/main/rails/public/javascripts/prototype.js:87-97
    [addMethods]: what is stored for a property of a source *)
Definition stored (ancestor : option nat) (m : jstring) (v : value) : M value :=
  match ancestor, v with
  | Some a, Fun f => b ← need (wants_super f); mret (if b : bool then Fun (super_method a m f) else v)
  | _, _ => mret v
  end.

Definition the_class (k : nat) : M class := w ← get; need (classes w !! k).
Definition put_class (k : nat) (c : class) : M unit := modify (fun w => set_classes (<[k := c]> (classes w)) w).
Definition put_proto (k : nat) (m : jstring) (v : value) : M unit :=
  c ← the_class k; put_class k (Class (superclass c) (subclasses c) (put m v (proto c))).

(** src/piql/scadr/src/main/rails/public/javascripts/prototype.js:78-100
    [addMethods(source)] *)
Definition addMethods (k : nat) (source : props) : M unit :=
  c ← the_class k;
  iter (fun '(m, v) => u ← stored (superclass c) m v; put_proto k m u) source.

(** What [Class.create] is given: a class, or properties. *)
Definition parent_of (arguments : list (nat + props)) : option nat * list (nat + props) :=
  match arguments with inl p :: l => (Some p, l) | l => (None, l) end.

(** src/piql/scadr/src/main/rails/public/javascripts/prototype.js:46-74
    [Class.create(...)]; a class among the later arguments adds the methods that
    all classes have, which is left out. *)
Definition create (arguments : list (nat + props)) : M nat :=
  let '(parent, properties) := parent_of arguments in
  w ← get;
  let k := length (classes w) in
  match parent with Some p => _ ← need (classes w !! p); mret tt | None => mret tt end;;
  modify (fun w => set_classes (classes w ++ [Class parent [] []]) w);;
  match parent with
  | Some p => c ← the_class p; put_class p (Class (superclass c) (subclasses c ++ [k]) (proto c))
  | None => mret tt
  end;;
  iter (fun s => match s with inr s => addMethods k s | inl _ => mret tt end) properties;;
  w ← get;
  when (negb (match get_proto (classes w) k (js "initialize") with Some v => truth v | None => false end))
    (put_proto k (js "initialize") (Fun Nothing));;
  put_proto k (js "constructor") (Fun (Klass k));;
  mret k.

(** ** Calls *)

Section calls.
(** The bodies of the functions of the page: they call functions through what they
    are given. *)
Variable body : nat -> (value -> value -> list value -> M value) -> value -> list value -> M value.
(** [window.event] *)
Variable window_event : value.

(** src/piql/scadr/src/main/rails/public/javascripts/prototype.js:51-53
    [f.apply(this, args)]: the functions that lines 51 to 53, 91 and 213 to
    257 return *)
Fixpoint apply (fuel : nat) (f : value) (this : value) (args : list value) {struct fuel} : M value :=
  match fuel with
  | O => throw Hang
  | S fuel =>
      match f with
      | Fun (Page n) => body n (apply fuel) this args
      | Fun Nothing => mret Undefined
      | Fun (Klass k) => w ← get; i ← need (get_field w this (js "initialize")); apply fuel i this args;; mret Undefined
      | Fun (Above k m) => w ← get; v ← need (get_proto (classes w) k m); apply fuel v this args
      | Fun (Bind f o a) => apply fuel (Fun f) o (a ++ args)
      | Fun (BindEvent f o a) =>
          let e := default Undefined (head args) in apply fuel (Fun f) o ((if truth e then e else window_event) :: a)
      | Fun (Curry f a) => apply fuel (Fun f) this (a ++ args)
      | Fun (Wrap f w) => apply fuel (Fun w) this (Fun (bind f [this]) :: args)
      | Fun (Methodize f) => apply fuel (Fun f) Null (this :: args)
      | Fun (Shown f _) => apply fuel (Fun f) this args
      | _ => throw TypeError
      end
  end.

(** [o.m(args)] and [new klass(args)] *)
Definition send (fuel : nat) (o : value) (m : jstring) (args : list value) : M value :=
  w ← get; v ← need (get_field w o m); apply fuel v o args.
Definition new (fuel : nat) (k : nat) (args : list value) : M value :=
  w ← get;
  let o := Obj (length (objects w)) in
  modify (fun w => set_objects (objects w ++ [Object k []]) w);;
  apply fuel (Fun (Klass k)) o args;; mret o.

(** src/piql/scadr/src/main/rails/public/javascripts/prototype.js:270-286
    [Try.these(...)] *)
Fixpoint these (fuel : nat) (l : list value) : M value :=
  match l with
  | [] => mret Undefined
  | f :: l => fun w =>
      match apply fuel f Undefined [] w with
      | (Exn Hang, w) => (Exn Hang, w)
      | (Exn _, w) => these fuel l w
      | (Val v, w) => (Val v, w)
      end
  end.
End calls.
End page.
End Inherit.
