(* ===== verification/ProtoInheritUse.v ===== *)
(** * What classes promise

    The classes of a page stay a tree; what is added to a class is seen by all that
    inherit from it; a method that asks for it gets the method above ([InheritCalls]). *)
From S2P Require Import Prelude JsString ProtoText JsMonad JsRegex ProtoInherit.

Module InheritUse.
Import Js Inherit.

(** ** Properties *)

Lemma own_put m k v l : own m (put k v l) = if bool_decide (k = m) then Some v else own m l.
Proof.
  induction l as [|[i u] l IH]; cbn [put own]; [done|]. destruct (decide (i = k)) as [->|Hi].
  - rewrite (bool_decide_eq_true_2 (k = k)) by done. cbn [own]. by case_bool_decide.
  - rewrite (bool_decide_eq_false_2 (i = k)) by done. cbn [own]. rewrite IH.
    destruct (decide (i = m)) as [->|Hm]; [|by rewrite (bool_decide_eq_false_2 (i = m))].
    by rewrite (bool_decide_eq_false_2 (k = m)), (bool_decide_eq_true_2 (m = m)).
Qed.

Lemma own_in m v l : own m l = Some v -> (m, v) ∈ l.
Proof.
  induction l as [|[i u] l IH]; cbn [own]; [done|]. case_bool_decide as Hi; [intros [= ->]; subst; left|right; by apply IH].
Qed.

Lemma own_none m l : m ∉ keys l -> own m l = None.
Proof.
  induction l as [|[i u] l IH]; cbn; [done|]. intros [Hi Hm]%not_elem_of_cons. rewrite bool_decide_eq_false_2 by done. by apply IH.
Qed.

(** [extend] copies what the source has over what the destination has. *)
Lemma own_extend m source d : NoDup (keys source) ->
  own m (extend d source) = match own m source with Some v => Some v | None => own m d end.
Proof.
  unfold extend. revert d. induction source as [|[k v] source IH]; intros d Hnd; cbn [fold_left own]; [done|].
  apply NoDup_cons in Hnd as [Hk Hnd]. rewrite IH by done. rewrite own_put. case_bool_decide as Hm; [|by destruct (own m source)].
  subst k. by rewrite own_none.
Qed.

(** The state keeps its classes, but for their prototypes. *)
Definition same_tree (l l' : list class) : Prop :=
  length l = length l' /\ forall j c, l !! j = Some c -> exists c', l' !! j = Some c' /\ superclass c' = superclass c /\ subclasses c' = subclasses c.

Lemma same_refl l : same_tree l l.
Proof. split; [done|]. intros j c H. by exists c. Qed.
Lemma same_trans l1 l2 l3 : same_tree l1 l2 -> same_tree l2 l3 -> same_tree l1 l3.
Proof.
  intros [L1 H1] [L2 H2]. split; [congruence|]. intros j c Hj. destruct (H1 j c Hj) as (c' & Hc & E1 & E2).
  destruct (H2 j c' Hc) as (c2 & Hc2 & E3 & E4). exists c2. split; [done|]. split; congruence.
Qed.
(** ** The tree of classes *)

(** Parents were made before their children, and know them. *)
Record tree (l : list class) : Prop := {
  older : forall k c p, l !! k = Some c -> superclass c = Some p -> (p < k)%nat;
  known : forall p cp k, l !! p = Some cp -> k ∈ subclasses cp <-> exists c, l !! k = Some c /\ superclass c = Some p }.

Lemma tree_same l l' : same_tree l l' -> tree l -> tree l'.
Proof.
  intros [Hlen H] [H1 H2].
  assert (forall j c', l' !! j = Some c' -> exists c, l !! j = Some c /\ superclass c' = superclass c /\ subclasses c' = subclasses c) as Hb.
  { intros j c' Hj. destruct (lookup_lt_is_Some_2 l j) as [c Hc]; [rewrite Hlen; by eapply lookup_lt_Some|].
    exists c. split; [done|]. destruct (H j c Hc) as (c2 & Hc2 & E). congruence. }
  split.
  - intros k c' p Hk Hp. destruct (Hb k c' Hk) as (c & Hc & E & _). eapply H1; [done|congruence].
  - intros p cp' k Hp. destruct (Hb p cp' Hp) as (cp & Hcp & _ & E). rewrite E, (H2 p cp k Hcp). split.
    + intros (c & Hc & Hs). destruct (H k c Hc) as (c' & Hc' & E' & _). exists c'. split; [done|congruence].
    + intros (c' & Hc' & Hs). destruct (Hb k c' Hc') as (c & Hc & E' & _). exists c. split; [done|congruence].
Qed.

(** A new class without a parent, and with one. *)
Definition grown (parent : option nat) (l : list class) : list class :=
  match parent with
  | None => l ++ [Class None [] []]
  | Some p => match l !! p with
              | Some c => <[p := Class (superclass c) (subclasses c ++ [length l]) (proto c)]> l ++ [Class (Some p) [] []]
              | None => l
              end
  end.

Lemma no_parent_yet l p k : tree l -> (length l <= p)%nat -> (exists c, l !! k = Some c /\ superclass c = Some p) -> False.
Proof. intros [H1 _] Hp (c & Hc & Hs). specialize (H1 k c p Hc Hs). apply lookup_lt_Some in Hc. lia. Qed.

Lemma tree_grown parent l : tree l -> match parent with Some p => (p < length l)%nat | None => True end -> tree (grown parent l).
Proof.
  intros Ht Hp. pose proof Ht as [H1 H2]. destruct parent as [p|]; cbn.
  - destruct (lookup_lt_is_Some_2 l p Hp) as [cp Hcp]. rewrite Hcp. set (cp' := Class _ _ _).
    assert (forall k c, (<[p := cp']> l ++ [Class (Some p) [] []]) !! k = Some c ->
      (k = length l /\ c = Class (Some p) [] []) \/ exists c0, l !! k = Some c0 /\ superclass c = superclass c0 /\ c = if decide (k = p) then cp' else c0) as Hinv.
    { intros k c. rewrite lookup_app_Some, length_insert. intros [Hk|[Hk Hl]].
      - right. destruct (decide (k = p)) as [->|Hkp].
        + rewrite list_lookup_insert_eq in Hk by done. injection Hk as <-. by exists cp.
        + rewrite list_lookup_insert_ne in Hk by done. by exists c.
      - left. apply list_lookup_singleton_Some in Hl as [Hl <-]. split; [lia|done]. }
    assert (forall k c0, l !! k = Some c0 -> (<[p := cp']> l ++ [Class (Some p) [] []]) !! k = Some (if decide (k = p) then cp' else c0)) as Hold.
    { intros k c0 Hk. rewrite lookup_app_l by (rewrite length_insert; by eapply lookup_lt_Some).
      case_decide as Hkp; [subst; by rewrite list_lookup_insert_eq|by rewrite list_lookup_insert_ne]. }
    assert ((<[p := cp']> l ++ [Class (Some p) [] []]) !! length l = Some (Class (Some p) [] [])) as Hnew.
    { rewrite lookup_app_r by (by rewrite length_insert). by rewrite length_insert, Nat.sub_diag. }
    split.
    + intros k c q Hk Hq. destruct (Hinv k c Hk) as [[-> ->]|(c0 & Hc0 & Hs & _)].
      * by injection Hq as <-.
      * eapply H1; [done|congruence].
    + intros q cq k Hq. assert (forall c0 q', l !! k = Some c0 -> superclass c0 = Some q' ->
        exists c, (<[p := cp']> l ++ [Class (Some p) [] []]) !! k = Some c /\ superclass c = Some q') as Hkeep.
      { intros c0 q' Hc0 Hs. eexists. split; [by apply Hold|]. case_decide; [|done]. subst k. cbn. congruence. }
      destruct (Hinv q cq Hq) as [[-> ->]|(c0 & Hc0 & _ & ->)].
      * cbn [subclasses]. split; [by intros ?%elem_of_nil|]. intros (c & Hc & Hs). exfalso.
        destruct (Hinv k c Hc) as [[-> ->]|(c0 & Hc0 & E & _)]; [cbn in Hs; injection Hs as ->; lia|].
        apply (no_parent_yet l (length l) k Ht); [done|]. exists c0. split; [done|congruence].
      * split.
        -- intros Hin. assert (k ∈ subclasses c0 \/ (q = p /\ k = length l)) as [Hk|[-> ->]].
           { case_decide as E; [subst|by left]. rewrite Hcp in Hc0. injection Hc0 as <-. cbn in Hin.
             apply elem_of_app in Hin as [?| ->%list_elem_of_singleton]; [by left|by right]. }
           ++ apply (H2 q c0 k Hc0) in Hk as (c & Hc & Hs). by eapply Hkeep.
           ++ by eexists.
        -- intros (c & Hc & Hs). destruct (Hinv k c Hc) as [[-> ->]|(c1 & Hc1 & E & _)].
           ++ cbn in Hs. injection Hs as <-. rewrite decide_True by done. cbn. apply elem_of_app. right. by apply list_elem_of_singleton.
           ++ assert (k ∈ subclasses c0) as Hk by (apply (H2 q c0 k Hc0); exists c1; split; [done|congruence]).
              case_decide; [|done]. subst q. rewrite Hcp in Hc0. injection Hc0 as <-. cbn. apply elem_of_app. by left.
  - assert (forall k c, (l ++ [Class None [] []]) !! k = Some c <-> l !! k = Some c \/ (k = length l /\ c = Class None [] [])) as Hl.
    { intros k c. rewrite lookup_app_Some, list_lookup_singleton_Some. split.
      - intros [?|(? & ? & <-)]; [by left|right; split; [lia|done]].
      - intros [?|[-> ->]]; [by left|right; split; [done|split; [lia|done]]]. }
    split.
    + intros k c q Hk Hq. apply Hl in Hk as [Hk|[_ ->]]; [by eapply H1|done].
    + intros q cq k Hq. assert (forall q', (exists c, (l ++ [Class None [] []]) !! k = Some c /\ superclass c = Some q') <->
        exists c, l !! k = Some c /\ superclass c = Some q') as ->.
      { intros q'. split; intros (c & Hc & Hs); exists c; (split; [|done]); [apply Hl in Hc as [?|[_ ->]]; done|by apply Hl; left]. }
      apply Hl in Hq as [Hq|[-> ->]]; [by apply H2|]. cbn. split; [by intros ?%elem_of_nil|]. intros H. by apply no_parent_yet in H.
Qed.

Section page.
Variable source : nat -> jstring.
Variable base : jstring -> option value.
Variable truthy : Z -> bool.
Notation addMethods := (addMethods source).
Notation create := (create source base truthy).
Notation get_proto := (get_proto base).
Notation proto_get := (proto_get base).

(** ** What a call of [addMethods] does *)

Definition stored_value (ancestor : option nat) (m : jstring) (v : value) : option value :=
  match ancestor, v with
  | Some a, Fun f => b ← wants_super source f; Some (if b : bool then Fun (super_method a m f) else v)
  | _, _ => Some v
  end.

Lemma stored_eq a m v w : stored source a m v w = match stored_value a m v with Some u => (Val u, w) | None => (Exn TypeError, w) end.
Proof.
  unfold stored, stored_value. destruct a as [a|]; [|done]. destruct v; try done. unfold mbind, M_bind, need. cbn.
  by destruct (wants_super source f).
Qed.

(** The classes after one change of a prototype. *)
Definition changed (k : nat) (p : props) (l : list class) : list class :=
  match l !! k with Some c => <[k := Class (superclass c) (subclasses c) p]> l | None => l end.

Lemma changed_lookup k p l j : changed k p l !! j =
  (fun c => if decide (j = k) then Class (superclass c) (subclasses c) p else c) <$> (l !! j).
Proof.
  unfold changed. destruct (l !! k) as [c|] eqn:Hk.
  - destruct (decide (j = k)) as [->|Hj].
    + rewrite list_lookup_insert_eq by (by eapply lookup_lt_Some). by rewrite Hk.
    + rewrite list_lookup_insert_ne by done. by destruct (l !! j).
  - destruct (decide (j = k)) as [->|Hj]; [by rewrite Hk|by destruct (l !! j)].
Qed.

Lemma put_proto_eq k m v w c : classes w !! k = Some c ->
  put_proto k m v w = (Val tt, set_classes (changed k (put m v (proto c)) (classes w)) w).
Proof.
  intros Hk. unfold put_proto, the_class, put_class, mbind, M_bind, get, need, mret, M_ret, modify. rewrite Hk. unfold changed. by rewrite Hk.
Qed.

Lemma changed_same k p l : same_tree l (changed k p l).
Proof.
  split; [unfold changed; destruct (l !! k); by rewrite ?length_insert|]. intros j c Hj. rewrite changed_lookup, Hj. cbn.
  eexists. split; [done|]. by case_decide.
Qed.

(** What is added replaces what was there under the same name; no other prototype
    changes. *)
Lemma added_loop k a props0 : NoDup (keys props0) -> forall w c, classes w !! k = Some c -> superclass c = a ->
  match iter (fun '(m, v) => u ← stored source a m v; put_proto k m u) props0 w with
  | (r, w') => same_tree (classes w) (classes w') /\ objects w' = objects w /\
      (forall j, j <> k -> classes w' !! j = classes w !! j) /\
      (r = Val tt -> exists c', classes w' !! k = Some c' /\
         (forall m v, own m props0 = Some v -> is_Some (own m (proto c')) /\ own m (proto c') = stored_value a m v) /\
         (forall m, own m props0 = None -> own m (proto c') = own m (proto c)))
  end.
Proof.
  intros Hnd. induction props0 as [|[m v] l IH]; intros w c Hk Ha; cbn [iter].
  - split; [apply same_refl|]. split; [done|]. split; [done|]. intros _. by exists c.
  - cbn [keys map fst] in Hnd. apply NoDup_cons in Hnd as [Hm Hnd]. unfold mbind at 1, M_bind at 1. unfold mbind at 1, M_bind at 1. rewrite stored_eq.
    destruct (stored_value a m v) as [u|] eqn:Hu; [|split; [apply same_refl|done]].
    rewrite (put_proto_eq k m u w c Hk). set (w1 := set_classes _ w).
    assert (classes w1 !! k = Some (Class (superclass c) (subclasses c) (put m u (proto c)))) as H1.
    { unfold w1. cbn. rewrite changed_lookup, Hk. cbn. by rewrite decide_True. }
    specialize (IH Hnd w1 _ H1 Ha). destruct (iter _ l w1) as [r w']. destruct IH as (I1 & I2 & I3 & I4).
    split; [eapply same_trans; [apply changed_same|exact I1]|]. split; [done|]. split.
    { intros j Hj. rewrite I3 by done. unfold w1. cbn. rewrite changed_lookup. destruct (classes w !! j); cbn; [|done]. by rewrite decide_False. }
    intros Hr. destruct (I4 Hr) as (c' & Hc & I5 & I6). exists c'. split; [done|]. cbn [proto] in I6. split.
    + intros m' v'. cbn [own]. case_bool_decide as Hmm; [|by intros H; apply I5].
      intros [= <-]. subst m'. rewrite (I6 m) by (by apply own_none). rewrite own_put, bool_decide_eq_true_2 by done. by rewrite Hu.
    + intros m'. cbn [own]. case_bool_decide as Hmm; [done|]. intros Hno. rewrite I6 by done. rewrite own_put. by rewrite bool_decide_eq_false_2.
Qed.

Lemma addMethods_spec k src w c : NoDup (keys src) -> classes w !! k = Some c ->
  match addMethods k src w with
  | (r, w') => same_tree (classes w) (classes w') /\ objects w' = objects w /\
      (forall j, j <> k -> classes w' !! j = classes w !! j) /\
      (r = Val tt -> exists c', classes w' !! k = Some c' /\
         (forall m v, own m src = Some v -> is_Some (own m (proto c')) /\ own m (proto c') = stored_value (superclass c) m v) /\
         (forall m, own m src = None -> own m (proto c') = own m (proto c)))
  end.
Proof.
  intros Hnd Hk. unfold Inherit.addMethods, the_class. unfold mbind at 1, M_bind at 1. unfold mbind at 1, M_bind at 1, get.
  rewrite Hk. unfold need, mret, M_ret. by apply added_loop.
Qed.

(** Whether the look-up of a property in a class comes to another class. *)
Fixpoint comes_to (fuel : nat) (l : list class) (c k : nat) (m : jstring) : bool :=
  match fuel with
  | O => false
  | S fuel =>
      match l !! c with
      | None => false
      | Some cl =>
          if decide (c = k) then true
          else match own m (proto cl), superclass cl with
               | None, Some p => comes_to fuel l p k m
               | _, _ => false
               end
      end
  end.
Definition reaches (l : list class) (c k : nat) (m : jstring) : bool := comes_to (length l) l c k m.

(** C35: What is added to a class is seen at once by the class and by all that
    inherit from it, however they were made before, except below a class that has
    a property of this name itself; all other properties of all classes stay.  A
    function that asks for [$super] is stored with the method above. *)
Theorem methods_added k src w w' c : NoDup (keys src) -> classes w !! k = Some c ->
  addMethods k src w = (Val tt, w') ->
  length (classes w') = length (classes w) /\
  forall j m, get_proto (classes w') j m =
    match own m src with
    | Some v => if reaches (classes w) j k m then stored_value (superclass c) m v else get_proto (classes w) j m
    | None => get_proto (classes w) j m
    end.
Proof.
  intros Hnd Hk Hw'. pose proof (addMethods_spec k src w c Hnd Hk) as H. rewrite Hw' in H.
  destruct H as ([Hlen Hsame] & _ & Hother & H). destruct (H eq_refl) as (c' & Hc' & Hown & Hold). split; [done|].
  unfold Inherit.get_proto, reaches. rewrite <- Hlen. generalize (length (classes w)) as fuel.
  induction fuel as [|fuel IH]; intros j m; cbn [Inherit.proto_get comes_to]; [by destruct (own m src)|].
  destruct (decide (j = k)) as [->|Hj].
  - destruct (Hsame k c Hk) as (c2 & Hc2 & Hsup & _). rewrite Hc' in Hc2. injection Hc2 as <-.
    rewrite Hc', Hk. cbn [mbind option_bind].
    destruct (own m src) as [v|] eqn:Hm.
    + destruct (Hown m v Hm) as [[u Hu] Hs]. rewrite Hu in *. done.
    + rewrite (Hold m Hm), Hsup. destruct (own m (proto c)); [done|]. destruct (superclass c); [|done].
      rewrite IH. by rewrite Hm.
  - rewrite Hother by done. destruct (classes w !! j) as [cj|]; cbn [mbind option_bind]; [|by destruct (own m src)].
    destruct (own m (proto cj)); [by destruct (own m src)|]. destruct (superclass cj); [apply IH|by destruct (own m src)].
Qed.

(** ** Classes through any calls *)

Lemma enough_fuel l m : tree l -> forall f1 f2 k, (k < f1)%nat -> (k < f2)%nat -> proto_get f1 l k m = proto_get f2 l k m.
Proof.
  intros [H1 _]. induction f1 as [|f1 IH]; intros f2 k Hk1 Hk2; [lia|]. destruct f2 as [|f2]; [lia|]. cbn [Inherit.proto_get].
  destruct (l !! k) as [c|] eqn:Hk; [|done]. cbn [mbind option_bind]. destruct (own m (proto c)); [done|].
  destruct (superclass c) as [p|] eqn:Hp; [|done]. specialize (H1 k c p Hk Hp). apply IH; lia.
Qed.

(** The classes of [l] are there, with their parents, and have what they had. *)
Definition extends (l l' : list class) : Prop :=
  same_tree l l' /\ forall k m, is_Some (get_proto l k m) -> is_Some (get_proto l' k m).

Lemma extends_refl l : extends l l.
Proof. split; [apply same_refl|done]. Qed.

Lemma put_extends k n v l l' c : extends l l' -> l' !! k = Some c -> extends l (changed k (put n v (proto c)) l').
Proof.
  intros [H1 H2] Hk. split; [eapply same_trans; [exact H1|apply changed_same]|]. intros j m Hj. apply H2 in Hj. revert Hj.
  unfold Inherit.get_proto. rewrite <- (proj1 (changed_same k (put n v (proto c)) l')). generalize (length l') as fuel.
  intros fuel. revert j. induction fuel as [|fuel IH]; intros j; [done|]. cbn [Inherit.proto_get]. rewrite changed_lookup.
  destruct (l' !! j) as [cj|] eqn:Hj; [|done]. cbn [fmap option_fmap option_map mbind option_bind].
  assert (own m (proto (if decide (j = k) then Class (superclass cj) (subclasses cj) (put n v (proto c)) else cj)) =
          if decide (j = k /\ n = m) then Some v else own m (proto cj)) as ->.
  { destruct (decide (j = k)) as [->|Hjk].
    - cbn [proto]. rewrite own_put. rewrite Hk in Hj. injection Hj as ->. case_bool_decide; [by rewrite decide_True|].
      rewrite decide_False; [done|by intros [_ ?]].
    - rewrite decide_False; [done|by intros [? _]]. }
  assert (superclass (if decide (j = k) then Class (superclass cj) (subclasses cj) (put n v (proto c)) else cj) = superclass cj) as ->
    by (by case_decide).
  destruct (decide (j = k /\ n = m)); [by eexists|]. destruct (own m (proto cj)); [done|]. destruct (superclass cj); [apply IH|done].
Qed.

Definition over (l : list class) (w : world) : Prop := extends l (classes w).

Lemma put_proto_over l k m v : keeping (over l) (put_proto k m v).
Proof.
  intros w Hw. destruct (classes w !! k) as [c|] eqn:Hk.
  - rewrite (put_proto_eq k m v w c Hk). by apply put_extends.
  - unfold put_proto, the_class, mbind, M_bind, get, need. by rewrite Hk.
Qed.

Lemma addMethods_over l k src : keeping (over l) (addMethods k src).
Proof.
  unfold Inherit.addMethods, the_class. repeat keep_step; [|apply put_proto_over]. unfold stored. repeat keep_step.
Qed.

(** A class that [create] returns is new, has its parent, and can be made objects
    of. *)
Lemma create_spec args w : tree (classes w) ->
  let parent := (parent_of args).1 in
  let '(r, w') := create args w in
  (exists l, (l = classes w \/ l = grown parent (classes w)) /\ tree l /\ extends l (classes w')) /\
  forall k, r = Val k -> k = length (classes w) /\ extends (grown parent (classes w)) (classes w') /\
    is_Some (get_proto (classes w') k (js "initialize")).
Proof.
  intros Ht. cbv zeta. unfold Inherit.create. destruct (parent_of args) as [parent properties]. cbn [fst].
  unfold mbind at 1, M_bind at 1, get at 1. unfold mbind at 1, M_bind at 1.
  assert (match parent with Some p => (p < length (classes w))%nat | None => True end \/ exists p, parent = Some p /\ classes w !! p = None) as [Hp|(p & -> & Hp)].
  { destruct parent as [p|]; [|by left]. destruct (classes w !! p) eqn:E; [left; by eapply lookup_lt_Some|right; by exists p]. }
  2: { unfold mbind, M_bind, need. rewrite Hp. cbn. split; [|done]. exists (classes w). split; [by left|]. split; [done|apply extends_refl]. }
  assert ((match parent with Some p => _ ← need (classes w !! p); mret tt | None => mret tt end : M unit) w = (Val tt, w)) as ->.
  { destruct parent as [p|]; [|done]. destruct (lookup_lt_is_Some_2 _ _ Hp) as [c Hc]. unfold mbind, M_bind, need. by rewrite Hc. }
  unfold mbind at 1, M_bind at 1, modify at 1. unfold mbind at 1, M_bind at 1.
  set (w1 := set_classes (classes w ++ [Class parent [] []]) w).
  assert (exists w2, (match parent with
     | Some p => c ← the_class p; put_class p (Class (superclass c) (subclasses c ++ [length (classes w)]) (proto c))
     | None => mret tt end : M unit) w1 = (Val tt, w2) /\ classes w2 = grown parent (classes w)) as (w2 & -> & Hw2).
  { destruct parent as [p|]; [|by eexists]. destruct (lookup_lt_is_Some_2 _ _ Hp) as [c Hc].
    assert (classes w1 !! p = Some c) as Hc1 by (unfold w1; cbn; by rewrite lookup_app_l).
    unfold the_class, put_class, mbind, M_bind, get, need, mret, M_ret, modify. rewrite Hc1. eexists. split; [done|].
    unfold w1. cbn. rewrite Hc. by rewrite insert_app_l. }
  set (l := grown parent (classes w)) in *. assert (tree l) as Hl by (by apply tree_grown).
  assert (over l w2) as H2 by (unfold over; rewrite Hw2; apply extends_refl).
  set (k := length (classes w)).
  match goal with |- let '(r, w') := ?m w2 in _ => assert (wp (fun _ => over l) m (fun k' w' => k' = k /\ over l w' /\ is_Some (get_proto (classes w') k (js "initialize"))) w2) as H end.
  { apply wp_bind, (wp_keeping (over l)); [|done|done|].
    { apply keeping_iter. intros [q|s]; [apply keeping_ret|apply addMethods_over]. }
    intros _ w3 H3. apply wp_bind, wp_get. apply wp_bind.
    apply wp_mono with (Q := fun _ w' => over l w' /\ is_Some (get_proto (classes w') k (js "initialize"))).
    - apply wp_when; intros E.
      + destruct (classes w3 !! k) as [c|] eqn:Hk.
        * unfold wp. rewrite (put_proto_eq _ _ _ _ c Hk). split; [by apply put_extends|]. cbn.
          unfold Inherit.get_proto. pose proof (lookup_lt_Some _ _ _ Hk) as Hlt. rewrite <- (proj1 (changed_same k _ (classes w3))).
          destruct (length (classes w3)); [lia|]. cbn [Inherit.proto_get]. rewrite changed_lookup, Hk. cbn. rewrite decide_True by done. cbn.
          rewrite own_put, bool_decide_eq_true_2 by done. by eexists.
        * unfold wp, put_proto, the_class, mbind, M_bind, get, need. by rewrite Hk.
      + split; [done|]. destruct (get_proto (classes w3) k (js "initialize")); [by eexists|done].
    - intros _ w4 [H4 Hi]. apply wp_bind, (wp_keeping (fun w => over l w /\ over (classes w4) w)).
      + intros w5 [H5 H6]. split; by apply put_proto_over.
      + split; [done|apply extends_refl].
      + by intros ? [? _].
      + intros _ w5 [H5 [_ H6]]. apply wp_ret. split; [done|]. split; [done|]. by apply H6. }
  unfold wp in H. match goal with |- let '(r, w') := ?m in _ => destruct m as [[k'|e] w'] end.
  - destruct H as (-> & Ho & Hi). split; [exists l; split; [by right|done]|]. intros k' [= <-]. done.
  - split; [exists l; split; [by right|done]|done].
Qed.

Lemma grown_lookup parent l j : match parent with Some p => (p < length l)%nat | None => True end -> (j < length l)%nat ->
  exists c c', l !! j = Some c /\ grown parent l !! j = Some c' /\ superclass c' = superclass c /\ proto c' = proto c.
Proof.
  intros Hp Hj. destruct (lookup_lt_is_Some_2 l j Hj) as [c Hc]. destruct parent as [p|]; cbn.
  - destruct (lookup_lt_is_Some_2 l p Hp) as [cp Hcp]. rewrite Hcp, lookup_app_l by (by rewrite length_insert).
    destruct (decide (j = p)) as [->|Hjp].
    + rewrite list_lookup_insert_eq by done. rewrite Hcp in Hc. injection Hc as <-. by eexists _, _.
    + rewrite list_lookup_insert_ne by done. by exists c, c.
  - rewrite lookup_app_l by done. by exists c, c.
Qed.

Lemma grown_get parent l : tree l -> match parent with Some p => (p < length l)%nat | None => True end ->
  forall k m, is_Some (get_proto l k m) -> is_Some (get_proto (grown parent l) k m).
Proof.
  intros Ht Hp k m. assert (forall fuel j, (j < length l)%nat -> proto_get fuel (grown parent l) j m = proto_get fuel l j m) as H.
  { induction fuel as [|fuel IH]; intros j Hj; [done|]. cbn [Inherit.proto_get].
    destruct (grown_lookup parent l j Hp Hj) as (c & c' & Hc & -> & Hs & Ho). rewrite Hc. cbn [mbind option_bind]. rewrite Hs, Ho.
    destruct (own m (proto c)); [done|]. destruct (superclass c) as [q|] eqn:Hq; [|done]. apply IH. pose proof (older l Ht j c q Hc Hq). lia. }
  unfold Inherit.get_proto. destruct (decide (k < length l)%nat) as [Hk|Hk].
  - intros Hi. assert (length l <= length (grown parent l))%nat as Hlen.
    { unfold grown. destruct parent as [p|]; [destruct (l !! p)|]; rewrite ?length_app, ?length_insert; lia. }
    rewrite (enough_fuel (grown parent l) m (tree_grown parent l Ht Hp) _ (length l)) by lia. by rewrite H.
  - destruct (length l) as [|n] eqn:El; [intros [? ?]; done|]. cbn [Inherit.proto_get]. rewrite lookup_ge_None_2 by lia. by intros [? ?].
Qed.

(** What a page does with classes, and the classes that it was given. *)
Inductive op := Create (arguments : list (nat + props)) | AddMethods (k : nat) (src : props).
Definition do_op (s : world * list nat) (o : op) : world * list nat :=
  match o with
  | Create a => match create a s.1 with (Val k, w) => (w, s.2 ++ [k]) | (Exn _, w) => (w, s.2) end
  | AddMethods k src => ((addMethods k src s.1).2, s.2)
  end.

Definition fine (s : world * list nat) : Prop :=
  tree (classes s.1) /\ forall k, k ∈ s.2 -> is_Some (get_proto (classes s.1) k (js "initialize")).

Lemma do_op_fine s o : fine s -> fine (do_op s o).
Proof.
  intros [Ht Hs]. destruct o as [a|k src]; cbn [do_op].
  - pose proof (create_spec a s.1 Ht) as H. cbv zeta in H. destruct (create a s.1) as [r w'].
    destruct H as [(l & Hl & Htl & Hext) Hk].
    assert (forall k, k ∈ s.2 -> is_Some (get_proto (classes w') k (js "initialize"))) as Hkeep.
    { intros k Hin. apply (proj2 Hext). destruct Hl as [->| ->]; [by apply Hs|].
      destruct (parent_of a).1 as [p|] eqn:Ep; [|by apply grown_get, Hs].
      destruct (decide (p < length (classes s.1))%nat) as [Hp|Hp]; [by apply grown_get, Hs|].
      unfold grown. rewrite lookup_ge_None_2 by lia. by apply Hs. }
    assert (tree (classes w')) as Htw by (by eapply tree_same; [apply Hext|]).
    destruct r as [k|e]; [|by split]. destruct (Hk k eq_refl) as (_ & _ & Hi). split; [done|].
    cbn. intros j [Hj| ->%list_elem_of_singleton]%elem_of_app; [by apply Hkeep|done].
  - destruct (addMethods_over (classes s.1) k src s.1 (extends_refl _)) as [H1 H2]. split; cbn; [by eapply tree_same|].
    intros j Hj. by apply H2, Hs.
Qed.

(** C37: Whatever classes a page makes and adds to, in whatever order, and whatever
    throws on the way: a parent was made before its children, and has exactly its
    children among its [subclasses]; and every class that the page was given has an
    [initialize], so that objects can be made of it. *)
Theorem class_tree ops :
  let '(w, made) := fold_left do_op ops (World [] [], []) in
  tree (classes w) /\ forall k, k ∈ made -> is_Some (get_proto (classes w) k (js "initialize")).
Proof.
  assert (forall ops s, fine s -> fine (fold_left do_op ops s)) as H.
  { induction ops0 as [|o os IH]; intros s Hs; [done|]. cbn [fold_left]. by apply IH, do_op_fine. }
  specialize (H ops (World [] [], [])). destruct (fold_left do_op ops _) as [w made]. apply H. split; [split|]; cbn.
  - intros k c p. by rewrite lookup_nil.
  - intros p cp k. by rewrite lookup_nil.
  - by intros k ?%elem_of_nil.
Qed.
End page.
End InheritUse.

(** * Calling the method above

    What a method that asks for [$super] is called with, how the names of arguments
    are read, and a page of classes through which this is tried. *)

Module InheritCalls.
Import Js Inherit InheritUse.

(** ** The names of arguments *)

Definition plain_name (s : jstring) : Prop :=
  s <> [] /\ forall c, c ∈ s -> is_white c = false /\ c <> 44 /\ c <> rparen.

Lemma filter_names names : Forall plain_name names ->
  filter (fun c => is_white c = false) (join (js ", ") names) = join (js ",") names.
Proof.
  assert (forall s, plain_name s -> filter (fun c => is_white c = false) s = s) as Hs.
  { intros s [_ Hs]. induction s as [|c s IH]; [done|]. rewrite filter_cons, decide_True by (by apply Hs; left).
    f_equal. apply IH. intros d Hd. apply Hs. by right. }
  induction 1 as [|s names Hp Hn IH]; [done|]. destruct names as [|t names]; [by apply Hs|].
  change (join (js ", ") (s :: t :: names)) with (s ++ js ", " ++ join (js ", ") (t :: names)).
  change (join (js ",") (s :: t :: names)) with (s ++ js "," ++ join (js ",") (t :: names)).
  by rewrite !filter_app, IH, Hs.
Qed.

Lemma no_rparen names : Forall plain_name names -> forallb (fun c => negb (c =? rparen)) (join (js ", ") names) = true.
Proof.
  assert (forall s, plain_name s -> forallb (fun c => negb (c =? rparen)) s = true) as Hs.
  { intros s [_ Hs]. apply forallb_forall. intros c Hc%list_elem_of_In. destruct (Hs c Hc) as (_ & _ & H).
    apply negb_true_iff. by apply Z.eqb_neq. }
  induction 1 as [|s names Hp Hn IH]; [done|]. destruct names as [|t names]; [by apply Hs|].
  change (join (js ", ") (s :: t :: names)) with (s ++ js ", " ++ join (js ", ") (t :: names)).
  by rewrite !forallb_app, IH, Hs.
Qed.

Lemma head_match name params rest : forallb (fun c => negb (c =? lparen)) name = true ->
  forallb (fun c => negb (c =? rparen)) params = true ->
  (m ← Regex.exec 1 head_re (js "function" ++ name ++ js "(" ++ params ++ js ")" ++ rest); Regex.group m 1) = Some params.
Proof.
  intros Hn Hp. unfold head_re. rewrite Regex.exec_anchored.
  set (sp := Regex.Star true (Regex.Class (fun c => is_white c || (c =? lparen)))).
  set (nm := Regex.Star true (Regex.Class (fun c => negb (c =? lparen)))).
  set (ps := Regex.Star true (Regex.Class (fun c => negb (c =? rparen)))).
  set (text := _ ++ _).
  assert (exists st, Regex.rm (Regex.Seq sp (Regex.Seq (Regex.Lit (js "function")) (Regex.Seq nm (Regex.Seq (Regex.Char lparen)
    (Regex.Seq (Regex.Group 1 ps) (Regex.Char rparen)))))) Some (Regex.Place None text ∅) = Some st /\ Regex.caps st !! 1%nat = Some params)
    as (st & -> & Hst); [|cbn; by rewrite Hst].
  set (tail := Regex.Seq (Regex.Char lparen) (Regex.Seq (Regex.Group 1 ps) (Regex.Char rparen))).
  assert (forall b cs, exists st, Regex.rm tail Some (Regex.Place b (js "(" ++ params ++ js ")" ++ rest) cs) = Some st /\
    Regex.caps st !! 1%nat = Some params) as Htail.
  { intros b cs. unfold tail. change (js "(" ++ params ++ js ")" ++ rest) with (lparen :: params ++ rparen :: rest).
    set (group := Regex.Seq (Regex.Group 1 ps) (Regex.Char rparen)).
    change (Regex.rm (Regex.Seq (Regex.Char lparen) group) Some) with (Regex.rm (Regex.Char lparen) (Regex.rm group Some)).
    unfold Regex.Char at 1. rewrite Regex.rm_class. replace (lparen =? lparen) with true by done. unfold group.
    change (Regex.rm (Regex.Seq (Regex.Group 1 ps) (Regex.Char rparen)) Some) with
      (fun st => Regex.rm ps (fun st' => Regex.rm (Regex.Char rparen) Some (Regex.record_cap 1 (Regex.between st st') st')) st).
    cbv beta. unfold ps. rewrite Regex.rm_star_class by done. rewrite Regex.try_longest; rewrite drop_app_length;
      unfold Regex.record_cap; cbn [Regex.before Regex.rest Regex.caps]; unfold Regex.Char; rewrite Regex.rm_class; replace (rparen =? rparen) with true by done.
    - eexists. split; [done|]. cbn [Regex.caps]. rewrite lookup_insert_eq. f_equal. apply Regex.length_between.
    - by eexists. }
  change (Regex.rm (Regex.Seq sp (Regex.Seq (Regex.Lit (js "function")) (Regex.Seq nm tail))) Some) with
    (Regex.rm sp (Regex.rm (Regex.Lit (js "function")) (Regex.rm nm (Regex.rm tail Some)))).
  unfold sp. change text with ([] ++ text). rewrite Regex.rm_star_class by done. cbn [Regex.try_ends length drop app].
  rewrite (Regex.rm_lit (js "function") _ _ (name ++ js "(" ++ params ++ js ")" ++ rest)). unfold nm.
  rewrite Regex.rm_star_class by done. destruct (Htail (Regex.end_of (Regex.end_of (Regex.end_of None []) (js "function")) name) ∅) as (st & Hs & Hc).
  rewrite Regex.try_longest; rewrite drop_app_length; rewrite Hs; by eexists.
Qed.

(** The names of the arguments of a function are read from its text, whatever
    the function is called and whatever its body is. *)
Theorem argumentNames_names name names body : forallb (fun c => negb (c =? lparen)) name = true -> Forall plain_name names ->
  argumentNames (js "function" ++ name ++ js "(" ++ join (js ", ") names ++ js ")" ++ body) = Some names.
Proof.
  intros Hn Hp. pose proof (head_match name (join (js ", ") names) body Hn (no_rparen names Hp)) as H.
  unfold argumentNames. destruct (Regex.exec 1 head_re _) as [m|]; [|done]. cbn [mbind option_bind] in *. rewrite H. cbn [mbind option_bind].
  rewrite filter_names by done. destruct names as [|s names]; [done|].
  rewrite split_join.
  - inversion_clear Hp as [|? ? [Hs _] _]. destruct s; [done|]. by destruct names.
  - intros v Hv Hin. rewrite Forall_forall in Hp. destruct (Hp v Hv) as [_ H']. by destruct (H' 44 Hin) as (_ & ? & _).
Qed.

(** ** The method above *)

Section page.
Variable source : nat -> jstring.
Variable base : jstring -> option value.
Variable truthy : Z -> bool.
Variable body : nat -> (value -> value -> list value -> M value) -> value -> list value -> M value.
Variable window_event : value.
Notation apply := (apply base truthy body window_event).
Notation send := (send base truthy body window_event).

Lemma send_eq fuel n m args w o v : objects w !! n = Some o -> own m (fields o) = None -> get_proto base (classes w) (class_of o) m = Some v ->
  send fuel (Obj n) m args w = apply fuel v (Obj n) args w.
Proof. intros Ho Hf Hv. unfold Inherit.send, mbind, M_bind, get, get_field. rewrite Ho. cbn [mbind option_bind]. by rewrite Hf, Hv. Qed.

(** C36: A method that is added to a class with a parent and asks for [$super] is
    called, on any object of the class or of one that inherits the method, with the
    object and with a function in front of the arguments.  That function calls on
    the same object the method that the parent has at the time, with whatever it is
    given, and throws if there is none. *)
Theorem super_calls k src w w' c p m n oid o : NoDup (keys src) -> classes w !! k = Some c -> superclass c = Some p ->
  addMethods source k src w = (Val tt, w') ->
  own m src = Some (Fun (Page n)) -> wants_super source (Page n) = Some true ->
  objects w !! oid = Some o -> own m (fields o) = None -> reaches (classes w) (class_of o) k m = true ->
  exists above, (forall fuel args, send (S (S (S fuel))) (Obj oid) m args w' = body n (apply fuel) (Obj oid) (above :: args) w') /\
    forall fuel this args w2, apply (S (S fuel)) above this args w2 =
      match get_proto base (classes w2) p m with Some v => apply fuel v (Obj oid) args w2 | None => (Exn TypeError, w2) end.
Proof.
  intros Hnd Hk Hp Hw' Hm Hn Ho Hf Hr. exists (Fun (bind (Above p m) [Obj oid])). split.
  - intros fuel args. destruct (methods_added source base k src w w' c Hnd Hk Hw') as [_ Hget].
    pose proof (addMethods_spec source k src w c Hnd Hk) as Hs. rewrite Hw' in Hs. destruct Hs as (_ & Hobj & _).
    rewrite (send_eq _ oid m args w' o (Fun (super_method p m (Page n)))); [done|by rewrite Hobj|done|].
    rewrite Hget, Hm, Hr. unfold stored_value. rewrite Hp, Hn. done.
  - intros fuel this args w2. change (bind (Above p m) [Obj oid]) with (Bind (Above p m) (Obj oid) []). cbn [Inherit.apply app].
    unfold mbind, M_bind, get, need. by destruct (get_proto base (classes w2) p m).
Qed.
End page.

(** ** A page *)

(** Functions of the page by their texts: two methods [say], of which the second
    asks for the one above, and others. *)
Definition text (n : nat) : jstring :=
  match n with
  | 0%nat => js "function(x) { return x }"
  | 1%nat => js "function say($super, x) { return $super(x) + 1 }"
  | 2%nat => js "function(x) { return x + 100 }"
  | 3%nat => js "function(/* the method above */ $super, x) { return $super(x) + 1 }"
  | _ => js "function() { }"
  end.
Definition plus (d : Z) (v : value) : value := match v with Data n => Data (n + d) | _ => Undefined end.
Definition bodies (n : nat) (call : value -> value -> list value -> M value) (this : value) (args : list value) : M value :=
  match n, args with
  | 0%nat, x :: _ => mret x
  | 1%nat, s :: x :: _ | 3%nat, s :: x :: _ => r ← call s Undefined [x]; mret (plus 1 r)
  | 2%nat, x :: _ => mret (plus 100 x)
  | _, _ => throw TypeError
  end.
Definition nothing (_ : jstring) : option value := None.
Notation make := (create text nothing (fun n => negb (n =? 0))).
Notation say := (send nothing (fun n => negb (n =? 0)) bodies Undefined 20).
Definition start : world := World [] [].
Definition after {A} (m : M A) : world := (m start).2.
Definition methods (n : nat) : props := [(js "say", Fun (Page n))].
(** A class, one that inherits from it, and one below; an object of the last. *)
Definition three : M value := make [inr (methods 0)];; make [inl 0%nat];; make [inl 1%nat];; new nothing (fun n => negb (n =? 0)) bodies Undefined 20 2 [].

Lemma methods_added_witness :
  let w := (addMethods text 1 (methods 1) (after three)).2 in
  get_proto nothing (classes w) 2 (js "say") = Some (Fun (super_method 0 (js "say") (Page 1))).
Proof.
  assert (exists w', addMethods text 1 (methods 1) (after three) = (Val tt, w')) as [w' H] by (eexists; by vm_compute).
  cbv zeta. rewrite H. cbn [snd].
  etrans; [exact (proj2 (methods_added text nothing 1 (methods 1) (after three) w' (Class (Some 0%nat) [2%nat] [(js "constructor", Fun (Klass 1))])
    ltac:(decided) ltac:(by vm_compute) H) 2%nat (js "say"))|]. by vm_compute.
Defined.

Lemma super_calls_witness :
  let w := (addMethods text 1 (methods 1) (after three)).2 in
  (say (Obj 0) (js "say") [Data 5] w).1 = Val (Data 6) /\
  (say (Obj 0) (js "say") [Data 5] (addMethods text 0 (methods 2) w).2).1 = Val (Data 106) /\
  exists above, send nothing (fun n => negb (n =? 0)) bodies Undefined 20 (Obj 0) (js "say") [Data 5] w =
    bodies 1 (apply nothing (fun n => negb (n =? 0)) bodies Undefined 17) (Obj 0) [above; Data 5] w.
Proof.
  assert (exists w', addMethods text 1 (methods 1) (after three) = (Val tt, w')) as [w' H] by (eexists; by vm_compute).
  split; [by vm_compute|]. split; [by vm_compute|]. rewrite H. cbn [snd].
  destruct (super_calls text nothing (fun n => negb (n =? 0)) bodies Undefined 1 (methods 1) (after three) w'
    (Class (Some 0%nat) [2%nat] [(js "constructor", Fun (Klass 1))]) 0 (js "say") 1 0 (Object 2 [])
    ltac:(decided) ltac:(by vm_compute) eq_refl H ltac:(by vm_compute) ltac:(by vm_compute) ltac:(by vm_compute) ltac:(by vm_compute) ltac:(by vm_compute))
    as (above & Ha & _).
  exists above. exact (Ha 17%nat [Data 5]).
Defined.

Lemma argumentNames_names_witness : argumentNames (js "function say($super, x) { return $super(x) + 1 }") = Some [js "$super"; js "x"].
Proof.
  assert (forall s, s <> [] -> Forall (fun c => is_white c = false /\ c <> 44 /\ c <> rparen) s -> plain_name s) as Hs.
  { intros s Hne Hs. rewrite Forall_forall in Hs. by split. }
  assert (Forall plain_name [js "$super"; js "x"]) as H.
  { apply Forall_cons_2; [apply Hs; [discriminate|decided]|]. apply Forall_cons_2; [apply Hs; [discriminate|decided]|apply Forall_nil_2]. }
  exact (argumentNames_names (js " say") [js "$super"; js "x"] (js " { return $super(x) + 1 }") ltac:(by vm_compute) H).
Defined.

(** A comment in front of the first argument is taken for a part of its name: the
    method is not given the one above. *)
Lemma comment_hides_super :
  argumentNames (text 3) = Some [js "/*themethodabove*/$super"; js "x"] /\
  let w := (addMethods text 1 (methods 3) (after three)).2 in
  (say (Obj 0) (js "say") [Data 5] w).1 = Exn TypeError.
Proof. by vm_compute. Qed.

(** A method that asks for the one above takes its first argument for it in a class
    without a parent. *)
Lemma no_parent_no_super :
  let w := after (make [inr (methods 1)];; new nothing (fun n => negb (n =? 0)) bodies Undefined 20 0 []) in
  (say (Obj 0) (js "say") [Data 5; Data 6] w).1 = Exn TypeError.
Proof. by vm_compute. Qed.
End InheritCalls.
