(* ===== verification/ProtoInsert.v ===== *)
(** * Putting nodes into the page

    The methods of elements that take nodes out and put them in: [remove],
    [update], [replace], [insert] and [wrap], with the attributes and the ids of
    elements.  What markup becomes is the browser's; the rest of the page is a heap
    of nodes with their parents and children. *)
From S2P Require Import Prelude JsString Json ProtoText ProtoStr JsMonad DragPage.

Module Insert.
Import Js.

(** ** The page *)

(** An element with its name in capitals and its attributes, or another node. *)
Record node := Node { name : option jstring; attributes : list (jstring * jstring) }.
Record page := Page {
  nodes : gmap nat node; parent : gmap nat nat; kids : gmap nat (list nat); next : nat;
  counter : Z;                           (** [identify.counter] *)
  deferred : list jstring                (** the texts whose scripts will be evaluated *)
}.
Notation M := (M page).

Definition set_tree p k w := Page (nodes w) p k (next w) (counter w) (deferred w).
Definition set_node n d w := Page (<[n := d]> (nodes w)) (parent w) (kids w) (next w) (counter w) (deferred w).
Definition add_node d w := Page (<[next w := d]> (nodes w)) (parent w) (kids w) (S (next w)) (counter w) (deferred w).
Definition set_counter c w := Page (nodes w) (parent w) (kids w) (next w) c (deferred w).
Definition defer_scripts t w := Page (nodes w) (parent w) (kids w) (next w) (counter w) (deferred w ++ [t]).

Definition kids_of (p : nat) (w : page) : list nat := default [] (kids w !! p).
Definition attributes_of (n : nat) (w : page) : list (jstring * jstring) := from_option attributes [] (nodes w !! n).
Definition nextSibling (n : nat) (w : page) : option nat := p ← parent w !! n; DragPage.next_in n (kids_of p w).
Definition is_element (w : page) (n : nat) : bool := match nodes w !! n ≫= name with Some _ => true | None => false end.

(** ** What the document does *)

Definition detach (n : nat) (w : page) : page :=
  match parent w !! n with
  | Some p => set_tree (delete n (parent w)) (<[p := DragPage.without n (kids_of p w)]> (kids w)) w
  | None => w
  end.
Definition attach (p n : nat) (ref : option nat) (w : page) : page :=
  set_tree (<[n := p]> (parent w)) (<[p := DragPage.insert_before n ref (kids_of p w)]> (kids w)) w.

(** Whether [n] is [p] or above it; no path up is longer than there are nodes with
    a parent. *)
Fixpoint contains (fuel : nat) (w : page) (n p : nat) : bool :=
  bool_decide (n = p) || match fuel with O => false | S fuel => match parent w !! p with Some q => contains fuel w n q | None => false end end.
Definition above (w : page) (n p : nat) : bool := contains (S (size (parent w))) w n p.

(** [p.insertBefore(n, ref)], also [appendChild] without [ref]: a node does not go
    into itself, nor before what is no child. *)
Definition insertBefore (p n : nat) (ref : option nat) : M unit :=
  w ← get;
  if above w n p then throw Thrown
  else if match ref with Some r => negb (bool_decide (r ∈ kids_of p w)) | None => false end then throw Thrown
  else
    let ref := match ref with Some r => if decide (r = n) then nextSibling n w else ref | None => None end in
    modify (fun w => attach p n ref (detach n w)).

(** [p.replaceChild(n, old)] *)
Definition replaceChild (p n old : nat) : M unit :=
  w ← get;
  if above w n p then throw Thrown
  else if negb (bool_decide (old ∈ kids_of p w)) then throw Thrown
  else if decide (n = old) then mret tt
  else modify (fun w => detach old (attach p n (Some old) (detach n w))).

(** [p.removeChild(n)] *)
Definition removeChild (p n : nat) : M unit :=
  w ← get;
  if negb (bool_decide (n ∈ kids_of p w)) then throw Thrown else modify (detach n).

(** The elements of a part of the page in order: the walk takes each node once. *)
Fixpoint walk (fuel : nat) (w : page) (l : list nat) : list nat :=
  match fuel, l with
  | S fuel, n :: l => n :: walk fuel w (kids_of n w ++ l)
  | _, _ => []
  end.

Section page.
Variable document : nat.
(** [e.innerHTML = html]; for a group of rows, the nodes are those of a whole
    table. *)
Variable set_innerHTML : nat -> jstring -> page -> page.

Fixpoint get_attr (k : jstring) (l : list (jstring * jstring)) : option jstring :=
  match l with [] => None | (i, u) :: l => if bool_decide (i = k) then Some u else get_attr k l end.

(** [document.getElementById(id)] *)
Definition in_document (w : page) : list nat := walk (next w) w [document].
Definition has_id (w : page) (id : jstring) (n : nat) : bool := bool_decide (get_attr (js "id") (attributes_of n w) = Some id).
Definition getElementById (id : jstring) (w : page) : option nat :=
  head (filter (fun n => (is_element w n && has_id w id n) = true) (in_document w)).

(** What is inserted: an element, or a text; other values are what [toElement],
    [toHTML] and [String.interpret] make of them. *)
Inductive content := Elem (n : nat) | Html (t : jstring).

(** ** Attributes *)

Fixpoint set_attr (k v : jstring) (l : list (jstring * jstring)) : list (jstring * jstring) :=
  match l with [] => [(k, v)] | (i, u) :: l => if bool_decide (i = k) then (k, v) :: l else (i, u) :: set_attr k v l end.
Definition remove_attr (k : jstring) (l : list (jstring * jstring)) := filter (fun q => q.1 <> k) l.
Definition on_attributes (n : nat) (f : list (jstring * jstring) -> list (jstring * jstring)) : M unit :=
  w ← get; d ← need (nodes w !! n); _ ← need (name d); modify (set_node n (Node (name d) (f (attributes d)))).

(** src/piql/scadr/src/main/rails/public/javascripts/prototype.js:2168-2176
    [_attributeTranslations.write.names], where the browser is not Internet
    Explorer *)
Definition write_name (attr : jstring) : jstring :=
  if bool_decide (attr = js "className") then js "class" else if bool_decide (attr = js "htmlFor") then js "for" else attr.

Inductive attr_value := Flag (b : bool) | NullValue | Text (t : jstring).

(** src/piql/scadr/src/main/rails/public/javascripts/prototype.js:1788-1799
    [readAttribute(name)]; not for Internet Explorer *)
Definition readAttribute (n : nat) (attr : jstring) (w : page) : option jstring := get_attr attr (attributes_of n w).

(** src/piql/scadr/src/main/rails/public/javascripts/prototype.js:1808-1817
    [writeAttribute(name, value)]: one attribute *)
Definition write_one (n : nat) (attr : jstring) (v : attr_value) : M unit :=
  let k := write_name attr in
  match v with
  | Flag false | NullValue => on_attributes n (remove_attr k)
  | Flag true => on_attributes n (set_attr k k)
  | Text t => on_attributes n (set_attr k t)
  end.
(** src/piql/scadr/src/main/rails/public/javascripts/prototype.js:1802-1820
    [writeAttribute(attributes)] *)
Definition writeAttribute (n : nat) (l : list (jstring * attr_value)) : M unit := iter (fun '(k, v) => write_one n k v) l.

(** src/piql/scadr/src/main/rails/public/javascripts/prototype.js:2539-2545
    [hasAttribute(attribute)] *)
Definition hasAttribute (n : nat) (attr : jstring) (w : page) : bool := is_some (get_attr attr (attributes_of n w)).

(** src/piql/scadr/src/main/rails/public/javascripts/prototype.js:1559-1570
    [new Element(tagName, attributes)]: a copy of an element of the cache is as
    good as new. *)
Definition new_element (tagName : jstring) (l : list (jstring * attr_value)) : M nat :=
  w ← get;
  let n := next w in
  modify (add_node (Node (Some (toUpperCase tagName)) []));;
  writeAttribute n l;; mret n.

Fixpoint identify_loop (fuel : nat) (n : nat) : M jstring :=
  match fuel with
  | O => throw Hang
  | S fuel =>
      w ← get;
      let id := js "anonymous_element_" ++ num_str (counter w) in
      modify (fun w => set_counter (counter w + 1) w);;
      w ← get;
      match getElementById id w with
      | Some _ => identify_loop fuel n
      | None => writeAttribute n [(js "id", Text id)];; mret id
      end
  end.
(** src/piql/scadr/src/main/rails/public/javascripts/prototype.js:1779-1786
    [identify()]: there are no more ids in use than nodes in the document. *)
Definition identify (n : nat) : M jstring :=
  w ← get;
  match readAttribute n (js "id") w with
  | Some (c :: id) => mret (c :: id)
  | _ => identify_loop (S (length (in_document w))) n
  end.

(** ** Content *)

(** src/piql/scadr/src/main/rails/public/javascripts/prototype.js:2522-2537
    [_insertionTranslations.tags]: what is put around the markup, and how deep it
    is then *)
Definition tags (tagName : jstring) : option (jstring * jstring * nat) :=
  if bool_decide (tagName = js "TABLE") then Some (js "<table>", js "</table>", 1%nat)
  else if bool_decide (tagName ∈ [js "TBODY"; js "THEAD"; js "TFOOT"]) then Some (js "<table><tbody>", js "</tbody></table>", 2%nat)
  else if bool_decide (tagName = js "TR") then Some (js "<table><tbody><tr>", js "</tr></tbody></table>", 3%nat)
  else if bool_decide (tagName ∈ [js "TD"; js "TH"]) then Some (js "<table><tbody><tr><td>", js "</td></tr></tbody></table>", 4%nat)
  else if bool_decide (tagName = js "SELECT") then Some (js "<select>", js "</select>", 1%nat)
  else None.

Fixpoint firstChilds (k : nat) (div : option nat) (w : page) : option nat :=
  match k with O => div | S k => firstChilds k (div ≫= fun d => head (kids_of d w)) w end.
(** src/piql/scadr/src/main/rails/public/javascripts/prototype.js:2500-2507
    [_getContentFromAnonymousElement(tagName, html)] *)
Definition getContent (tagName html : jstring) : M (list nat) :=
  div ← new_element (js "div") [];
  let '(a, b, k) := default ([], [], 0%nat) (tags tagName) in
  modify (set_innerHTML div (a ++ html ++ b));;
  w ← get;
  d ← need (firstChilds k (Some div) w);
  mret (kids_of d w).

(** ** Positions *)

Inductive position := Before | Top | Bottom | After.
(** src/piql/scadr/src/main/rails/public/javascripts/prototype.js:2509-2521
    [_insertionTranslations]: a node at a position of an element *)
Definition place (pos : position) (element n : nat) : M unit :=
  w ← get;
  match pos with
  | Before => p ← need (parent w !! element); insertBefore p n (Some element)
  | Top => insertBefore element n (head (kids_of element w))
  | Bottom => insertBefore element n None
  | After => p ← need (parent w !! element); insertBefore p n (nextSibling element w)
  end.

Definition tag_of (n : nat) (w : page) : option jstring := nodes w !! n ≫= name.

(** src/piql/scadr/src/main/rails/public/javascripts/prototype.js:1639-1661
    [insert(insertions)]: one of the insertions *)
Definition insert_one (element : nat) (pos : position) (c : content) : M unit :=
  match c with
  | Elem n => place pos element n
  | Html t =>
      w ← get;
      e ← match pos with Before | After => need (parent w !! element) | Top | Bottom => mret element end;
      tagName ← need (tag_of e w);
      childNodes ← getContent tagName (Str.stripScripts t);
      iter (place pos element) (match pos with Top | After => rev childNodes | _ => childNodes end);;
      modify (defer_scripts t)
  end.
(** src/piql/scadr/src/main/rails/public/javascripts/prototype.js:1630-1664
    [insert(insertions)], for the four positions *)
Definition insert (element : nat) (insertions : list (position * content)) : M unit :=
  iter (fun '(pos, c) => insert_one element pos c) insertions.

(** src/piql/scadr/src/main/rails/public/javascripts/prototype.js:1600-1604
    [remove()] *)
Definition remove (element : nat) : M unit :=
  w ← get; p ← need (parent w !! element); removeChild p element.

Definition set_html (element : nat) (t : jstring) : M unit :=
  modify (set_innerHTML element (Str.stripScripts t));; modify (defer_scripts t).
(** src/piql/scadr/src/main/rails/public/javascripts/prototype.js:1606-1614
    [update(content)] *)
Definition update (element : nat) (c : content) : M unit :=
  match c with
  | Elem n => set_html element [];; insert element [(Bottom, Elem n)]
  | Html t => set_html element t
  end.

Fixpoint next_element (w : page) (l : list nat) : option nat :=
  match l with [] => None | n :: l => if is_element w n then Some n else next_element w l end.
Fixpoint behind (n : nat) (l : list nat) : list nat :=
  match l with [] => [] | x :: l => if decide (x = n) then l else behind n l end.
(** src/piql/scadr/src/main/rails/public/javascripts/prototype.js:2465-2490
    [replace(content)], where the browser has [outerHTML]: the nodes that a text is
    in an element like the parent take the place of the element; in a table they
    go before the next element. *)
Definition replace (element : nat) (c : content) : M unit :=
  w ← get;
  p ← need (parent w !! element);
  match c with
  | Elem n => replaceChild p n element
  | Html t =>
      tagName ← need (tag_of p w);
      match tags tagName with
      | Some _ =>
          let sibling := next_element w (behind element (kids_of p w)) in
          fragments ← getContent tagName (Str.stripScripts t);
          removeChild p element;;
          iter (fun n => insertBefore p n sibling) fragments
      | None =>
          f ← new_element tagName [];
          modify (set_innerHTML f (Str.stripScripts t));;
          w ← get;
          iter (fun n => insertBefore p n (Some element)) (kids_of f w);;
          removeChild p element
      end;;
      modify (defer_scripts t)
  end.

(** What an element is wrapped into: an element, a new one of a name, or a DIV. *)
Inductive wrapper := AnElement (n : nat) | ATag (t : jstring) | ADiv.
(** src/piql/scadr/src/main/rails/public/javascripts/prototype.js:1666-1676
    [wrap(wrapper, attributes)] *)
Definition wrap (element : nat) (wr : wrapper) (l : list (jstring * attr_value)) : M nat :=
  r ← match wr with
      | AnElement n => writeAttribute n l;; mret n
      | ATag t => new_element t l
      | ADiv => new_element (js "div") l
      end;
  w ← get;
  match parent w !! element with Some p => replaceChild p r element | None => mret tt end;;
  insertBefore r element None;;
  mret r.
End page.
End Insert.
