(* ===== verification/ProtoInsertUse.v ===== *)
(** * Where nodes are put

    The trees that markup stands for are put at its position in the order in which
    they stand there, and nothing else moves; what is wrapped keeps its place; an element gets an id that
    nobody has. *)
From S2P Require Import Prelude JsString Json Location ProtoText ProtoStr JsMonad DragPage SortList DragTree ProtoInsert.

Module InsertUse.
Import Js Insert.

(** ** Pages *)

(** Children and parents agree, and all of them have been made. *)
Record sound (w : page) : Prop := {
  agree : forall p c, c ∈ kids_of p w <-> parent w !! c = Some p;
  once : forall p, NoDup (kids_of p w);
  made : forall c p, parent w !! c = Some p -> (c < next w)%nat /\ (p < next w)%nat }.

Lemma kids_made w p c : sound w -> c ∈ kids_of p w -> (c < next w)%nat /\ (p < next w)%nat.
Proof. intros Hw Hc. by apply (made w Hw), (agree w Hw). Qed.

Lemma no_kids w p : sound w -> (next w <= p)%nat -> kids_of p w = [].
Proof.
  intros Hw Hp. destruct (kids_of p w) as [|c l] eqn:E; [done|]. destruct (kids_made w p c Hw) as [_ H]; [rewrite E; left|lia].
Qed.

(** The moves of nodes. *)
Lemma detach_moved n w : sound w ->
  (forall p, kids_of p (detach n w) = DragPage.without n (kids_of p w)) /\
  (forall c, parent (detach n w) !! c = if decide (c = n) then None else parent w !! c) /\ next (detach n w) = next w /\ nodes (detach n w) = nodes w.
Proof.
  intros Hw. unfold detach. destruct (parent w !! n) as [p|] eqn:Hp.
  - repeat split.
    + intros q. unfold kids_of at 1. cbn. destruct (decide (q = p)) as [->|Hq]; [by rewrite lookup_insert_eq|].
      rewrite lookup_insert_ne by done. change (default [] (kids w !! q)) with (kids_of q w).
      rewrite DragSort.without_none; [done|]. rewrite (agree w Hw). congruence.
    + intros c. cbn. case_decide; [subst; by rewrite lookup_delete_eq|by rewrite lookup_delete_ne].
  - repeat split; [|intros c; case_decide; by subst]. intros q. rewrite DragSort.without_none; [done|]. rewrite (agree w Hw). congruence.
Qed.

Definition moved (p n : nat) (ref : option nat) (w w' : page) : Prop :=
  (forall q, kids_of q w' = if decide (q = p) then DragPage.insert_before n ref (DragPage.without n (kids_of p w)) else DragPage.without n (kids_of q w)) /\
  (forall c, parent w' !! c = if decide (c = n) then Some p else parent w !! c) /\ next w' = next w /\ nodes w' = nodes w.

Lemma put_moved p n ref w : sound w -> moved p n ref w (attach p n ref (detach n w)).
Proof.
  intros Hw. destruct (detach_moved n w Hw) as (H1 & H2 & H3 & H4). repeat split; [| |done|done].
  - intros q. unfold kids_of at 1, attach. cbn. destruct (decide (q = p)) as [->|Hq].
    + by rewrite lookup_insert_eq, H1.
    + rewrite lookup_insert_ne by done. apply H1.
  - intros c. unfold attach. cbn. destruct (decide (c = n)) as [->|Hc]; [by rewrite lookup_insert_eq|].
    rewrite lookup_insert_ne by done. rewrite H2. by rewrite decide_False.
Qed.

Lemma moved_sound p n ref w w' : sound w -> moved p n ref w w' -> (p < next w)%nat -> (n < next w)%nat -> sound w'.
Proof.
  intros Hw (Hk & Hp & Hn & _) Hpn Hnn. pose proof Hw as [K O B]. split.
  - intros q c. rewrite Hk, Hp. case_decide as Hq; [subst q; rewrite DragTree.elem_of_insert_before|];
      rewrite DragTree.elem_of_without, K; case_decide as Hc; subst; naive_solver.
  - intros q. rewrite Hk. case_decide; [apply DragTree.insert_before_once; [rewrite DragTree.elem_of_without; tauto|]|]; by apply NoDup_filter.
  - intros c q. rewrite Hp, Hn. case_decide; [|apply B]. intros [= <-]. by subst.
Qed.

(** ** Nodes that are new *)

(** The nodes from [b] on were made after all others, and are not above any of
    them. *)
Definition closed (b : nat) (w : page) : Prop := forall c p, parent w !! c = Some p -> (c < b)%nat -> (p < b)%nat.

Lemma contains_new b fuel w n p : closed b w -> (p < b)%nat -> (b <= n)%nat -> contains fuel w n p = false.
Proof.
  intros Hc. revert p. induction fuel as [|fuel IH]; intros p Hp Hn; cbn [contains]; rewrite bool_decide_eq_false_2 by lia; cbn [orb]; [done|].
  destruct (parent w !! p) as [q|] eqn:Hq; [|done]. apply IH; [|done]. by eapply Hc.
Qed.

Lemma insertBefore_new b p n ref w : sound w -> closed b w -> (p < b)%nat -> (b <= n)%nat -> (n < next w)%nat -> (b <= next w)%nat ->
  match ref with Some r => r ∈ kids_of p w | None => True end ->
  n ∉ kids_of p w ->
  exists w', insertBefore p n ref w = (Val tt, w') /\ sound w' /\ next w' = next w /\ nodes w' = nodes w /\
    kids_of p w' = DragPage.insert_before n ref (kids_of p w) /\
    (forall q, q <> p -> kids_of q w' = DragPage.without n (kids_of q w)) /\
    (forall c, parent w' !! c = if decide (c = n) then Some p else parent w !! c).
Proof.
  intros Hw Hc Hp Hn Hnn Hb Hr Hout. unfold insertBefore, mbind, M_bind, get. unfold above. rewrite (contains_new b) by done.
  assert (match ref with Some r => negb (bool_decide (r ∈ kids_of p w)) | None => false end = false) as ->
    by (destruct ref as [r|]; [by rewrite bool_decide_eq_true_2|done]).
  assert (match ref with Some r => if decide (r = n) then nextSibling n w else ref | None => None end = ref) as ->
    by (destruct ref as [r|]; [rewrite decide_False by (intros ->; done)|]; done).
  pose proof (put_moved p n ref w Hw) as Hm. eexists. split; [done|]. split; [eapply moved_sound; [exact Hw|exact Hm|lia|done]|].
  destruct Hm as (Hk & Hpar & Hnx & Hnd). split; [done|]. split; [done|]. split; [|split].
  - rewrite Hk, decide_True by done. by rewrite DragSort.without_none.
  - intros q Hq. by rewrite Hk, decide_False.
  - exact Hpar.
Qed.

(** ** A run of new nodes *)

(** New nodes that are still to be put into the page [b] is the bound of. *)
Record ready (b : nat) (l : list nat) (w : page) : Prop := {
  r_sound : sound w; r_closed : closed b w; r_bound : (b <= next w)%nat;
  r_new : forall n, n ∈ l -> (b <= n)%nat /\ (n < next w)%nat;
  r_out : forall p n, (p < b)%nat -> n ∈ l -> n ∉ kids_of p w;
  r_once : NoDup l }.

(** What putting a node at a position does to the children that it joins. *)
Definition joined (pos : position) (e n : nat) (l : list nat) : list nat :=
  match pos with
  | Before => DragPage.insert_before n (Some e) l
  | Top => n :: l
  | Bottom => l ++ [n]
  | After => DragPage.insert_before n (DragPage.next_in e l) l
  end.
(** The element whose children these are. *)
Definition host (pos : position) (e : nat) (w : page) : option nat := match pos with Before | After => parent w !! e | Top | Bottom => Some e end.

Lemma insert_before_head n l : DragPage.insert_before n (head l) l = n :: l.
Proof. destruct l as [|x l]; cbn; [done|by rewrite decide_True]. Qed.

Lemma place_new b l n pos e h w : ready b (n :: l) w -> (e < b)%nat -> (h < b)%nat -> host pos e w = Some h ->
  exists w', place pos e n w = (Val tt, w') /\ ready b l w' /\ host pos e w' = Some h /\ nodes w' = nodes w /\
    kids_of h w' = joined pos e n (kids_of h w) /\ (forall q, q <> h -> n ∉ kids_of q w -> kids_of q w' = kids_of q w) /\
    (forall c, c <> n -> parent w' !! c = parent w !! c).
Proof.
  intros [Hs Hc Hb Hnew Hout Honce] He Hh Hhost. destruct (Hnew n ltac:(left)) as [Hn1 Hn2].
  apply NoDup_cons in Honce as [Hnl Honce].
  assert (forall ref, match ref with Some r => r ∈ kids_of h w | None => True end ->
    DragPage.insert_before n ref (kids_of h w) = joined pos e n (kids_of h w) ->
    exists w', insertBefore h n ref w = (Val tt, w') /\ ready b l w' /\ host pos e w' = Some h /\ nodes w' = nodes w /\
      kids_of h w' = joined pos e n (kids_of h w) /\ (forall q, q <> h -> n ∉ kids_of q w -> kids_of q w' = kids_of q w) /\
      (forall c, c <> n -> parent w' !! c = parent w !! c)) as H.
  { intros ref Hr Hj. destruct (insertBefore_new b h n ref w Hs Hc Hh Hn1 Hn2 Hb Hr) as (w' & E & Hs' & Hnx & Hnd & Hk & Hk' & Hp).
    { apply Hout; [done|left]. }
    exists w'. split; [done|].
    assert (forall c, c <> n -> parent w' !! c = parent w !! c) as Hpc by (intros c Hcb; by rewrite Hp, decide_False).
    assert (forall q, q <> h -> n ∉ kids_of q w -> kids_of q w' = kids_of q w) as Hq.
    { intros q Hq1 Hq2. rewrite Hk' by done. by apply DragSort.without_none. }
    split; [|split; [|split; [done|split; [by rewrite Hk, Hj|done]]]].
    - split; [done| |lia| | |done].
      + intros c q. rewrite Hp. case_decide; [lia|apply Hc].
      + intros m Hm. rewrite Hnx. apply Hnew. by right.
      + intros q m Hq1 Hm. destruct (decide (q = h)) as [->|Hqh]; [|rewrite Hq by (done || (apply Hout; [done|left])); apply Hout; [done|by right]].
        rewrite Hk, DragTree.elem_of_insert_before. intros [->|Hin]; [done|]. apply (Hout h m Hq1); [by right|done].
    - unfold host in *. destruct pos; by rewrite ?Hpc by lia. }
  unfold place, mbind, M_bind, get. destruct pos; cbn [host] in Hhost.
  - unfold need. rewrite Hhost. apply H; [by apply (agree w Hs)|done].
  - injection Hhost as <-. apply H; [|apply insert_before_head]. destruct (kids_of e w); [done|left].
  - injection Hhost as <-. apply H; [done|apply DragSort.insert_before_end].
  - unfold need. rewrite Hhost. assert (nextSibling e w = DragPage.next_in e (kids_of h w)) as -> by (unfold nextSibling; by rewrite Hhost).
    apply H; [|done]. destruct (DragPage.next_in e (kids_of h w)) as [x|] eqn:E; [|done].
    apply DragSort.next_in_some in E as (a & c & -> & _). apply elem_of_app. right. right. left.
Qed.

Lemma place_all b pos e h l : forall w, ready b l w -> (e < b)%nat -> (h < b)%nat -> host pos e w = Some h ->
  exists w', iter (place pos e) l w = (Val tt, w') /\ ready b [] w' /\ nodes w' = nodes w /\
    kids_of h w' = fold_left (fun k n => joined pos e n k) l (kids_of h w) /\ (forall q, (q < b)%nat -> q <> h -> kids_of q w' = kids_of q w) /\
    (forall q, q <> h -> (forall n, n ∈ l -> n ∉ kids_of q w) -> kids_of q w' = kids_of q w).
Proof.
  intros w Hw He Hh Hhost. enough (exists w', iter (place pos e) l w = (Val tt, w') /\ ready b [] w' /\ nodes w' = nodes w /\
    kids_of h w' = fold_left (fun k n => joined pos e n k) l (kids_of h w) /\
    (forall q, q <> h -> (forall n, n ∈ l -> n ∉ kids_of q w) -> kids_of q w' = kids_of q w)) as (w' & H1 & H2 & H3 & H4 & H5).
  { exists w'. split_and!; [done..| |done]. intros q Hq Hqh. apply H5; [done|]. intros n Hn. by apply (r_out b l w Hw). }
  revert w Hw Hhost. induction l as [|n l IH]; intros w Hw Hhost; cbn [iter fold_left].
  - exists w. by split_and!.
  - destruct (place_new b l n pos e h w Hw He Hh Hhost) as (w1 & E & H1 & H2 & H3 & H4 & H5 & _).
    unfold mbind, M_bind. rewrite E. destruct (IH w1 H1 H2) as (w2 & E2 & I1 & I2 & I3 & I4).
    exists w2. split; [done|]. split; [done|]. split; [congruence|]. split; [by rewrite I3, H4|].
    intros q Hq1 Hq2. assert (kids_of q w1 = kids_of q w) as Eq by (apply H5; [done|apply Hq2; left]).
    rewrite I4, Eq; [done..|]. intros m Hm. rewrite Eq. apply Hq2. by right.
Qed.

Lemma ready_rev b l w : ready b l w -> ready b (rev l) w.
Proof.
  intros [R1 R2 R3 R4 R5 R6]. split; [done..| | |].
  - intros n Hin. apply R4, list_elem_of_In, in_rev, list_elem_of_In, Hin.
  - intros p n Hpn Hin. apply R5, list_elem_of_In, in_rev, list_elem_of_In, Hin; done.
  - by apply NoDup_ListNoDup, List.NoDup_rev, NoDup_ListNoDup.
Qed.

Lemma insert_behind e n a c : NoDup (a ++ e :: c) -> DragPage.insert_before n (head c) (a ++ e :: c) = a ++ e :: n :: c.
Proof.
  intros Hnd. destruct c as [|x c]; cbn [head].
  - rewrite DragSort.insert_before_end. by rewrite <- app_assoc.
  - replace (a ++ e :: x :: c) with ((a ++ [e]) ++ x :: c) in * by (by rewrite <- app_assoc).
    rewrite DragSort.insert_before_at; [by rewrite <- app_assoc|]. apply NoDup_app in Hnd as (_ & H & _). intros Hx. apply (H x Hx). left.
Qed.

(** In the order in which they stand, whichever the position is: a run of nodes
    among the children of their host. *)
Definition run_in (pos : position) (e : nat) (l k k' : list nat) : Prop :=
  match pos with
  | Before => exists a c, k = a ++ e :: c /\ k' = a ++ l ++ e :: c
  | Top => k' = l ++ k
  | Bottom => k' = k ++ l
  | After => exists a c, k = a ++ e :: c /\ k' = a ++ e :: l ++ c
  end.

Lemma joined_all pos e l k : NoDup (k ++ l) -> match pos with Before | After => e ∈ k | _ => True end ->
  run_in pos e l k (fold_left (fun k n => joined pos e n k) (match pos with Top | After => rev l | _ => l end) k).
Proof.
  intros Hnd Hk.
  assert (match pos with Before | After => exists a c, k = a ++ e :: c /\ e ∉ a /\ e ∉ l | _ => True end) as Hsplit.
  { assert (e ∈ k -> exists a c, k = a ++ e :: c /\ e ∉ a /\ e ∉ l) as H.
    { intros (a & c & ->)%list_elem_of_split. exists a, c. split; [done|]. apply NoDup_app in Hnd as (Hnd & H & _). split.
      - apply NoDup_app in Hnd as (_ & H' & _). intros He. apply (H' e He). left.
      - intros He. apply (H e); [|done]. apply elem_of_app. right. left. }
    destruct pos; auto. }
  destruct pos; cbn [run_in].
  - destruct Hsplit as (a & c & -> & Ha & Hl). exists a, c. split; [done|]. clear Hnd Hk. revert a Ha.
    induction l as [|n l IH]; intros a Ha; [done|]. apply not_elem_of_cons in Hl as [Hen Hl].
    cbn [fold_left joined]. rewrite DragSort.insert_before_at by done.
    change (n :: e :: c) with ([n] ++ e :: c). rewrite app_assoc, IH; [by rewrite <- !app_assoc|done|].
    intros [Hin|Hin%list_elem_of_singleton]%elem_of_app; done.
  - clear. induction l as [|n l IH]; [done|]. cbn [rev]. by rewrite fold_left_app, IH.
  - clear. revert k. induction l as [|n l IH]; intros k; cbn [fold_left joined]; [by rewrite app_nil_r|].
    by rewrite IH, <- app_assoc.
  - destruct Hsplit as (a & c & -> & Ha & _). exists a, c. split; [done|]. clear Hk. revert c Hnd.
    induction l as [|n l IH] using rev_ind; intros c Hnd; [done|]. rewrite rev_app_distr. cbn [rev app fold_left joined].
    rewrite DragSort.next_in_at by done.
    rewrite insert_behind by (rewrite app_assoc in Hnd; apply NoDup_app in Hnd as [Hnd _]; by apply NoDup_app in Hnd as [Hnd _]).
    rewrite IH; [by rewrite <- app_assoc|]. revert Hnd. apply NoDup_Permutation_proper. solve_Permutation.
Qed.

(** ** Markup *)

Lemma add_sound d w : sound w -> sound (add_node d w).
Proof. intros [K O B]. split; [done|done|]. intros c p Hc. cbn. specialize (B c p Hc). lia. Qed.

(** What markup stands for: the nodes with what is below each of them and what
    comes behind it. *)
Inductive forest := Nothing | Tree (d : node) (below rest : forest).
Fixpoint amount (f : forest) : nat := match f with Nothing => 0 | Tree _ below rest => S (amount below + amount rest) end.

(** The nodes [l] of a page are these trees, in their order. *)
Fixpoint stands (w : page) (f : forest) (l : list nat) : Prop :=
  match f, l with
  | Nothing, [] => True
  | Tree d below rest, n :: l => nodes w !! n = Some d /\ stands w below (kids_of n w) /\ stands w rest l
  | _, _ => False
  end.

Lemma stands_same_forest w f : forall f' l, stands w f l -> stands w f' l -> f = f'.
Proof.
  induction f as [|d below IHb rest IHr]; intros [|d' below' rest'] [|n l]; cbn; try done.
  intros (H1 & H2 & H3) (H1' & H2' & H3'). f_equal; [congruence|by eapply IHb|by eapply IHr].
Qed.

(** What is below a node of a forest is smaller. *)
Lemma stands_below w f : forall l n, stands w f l -> n ∈ l -> exists below, stands w below (kids_of n w) /\ (amount below < amount f)%nat.
Proof.
  induction f as [|d below _ rest IH]; intros [|m l] n; cbn; try done; [by intros _ []%elem_of_nil|].
  intros (_ & Hb & Hr) [->|Hn]%elem_of_cons; [exists below; split; [done|lia]|].
  destruct (IH l n Hr Hn) as (b & H & Hlt). exists b. split; [done|lia].
Qed.

(** The same trees stand there as long as nothing happens to their nodes. *)
Lemma stands_frame (P : nat -> Prop) w w' :
  (forall n, P n -> nodes w' !! n = nodes w !! n /\ kids_of n w' = kids_of n w /\ forall c, c ∈ kids_of n w -> P c) ->
  forall f l, (forall n, n ∈ l -> P n) -> stands w f l -> stands w' f l.
Proof.
  intros HP. induction f as [|d below IHb rest IHr]; intros [|n l] Hl; cbn; try done.
  intros (H1 & H2 & H3). destruct (HP n) as (E1 & E2 & E3); [apply Hl; left|]. split; [by rewrite E1|]. split.
  - rewrite E2. by apply IHb.
  - apply IHr; [|done]. intros m Hm. apply Hl. by right.
Qed.

(** What is below the first of the trees, some levels deep. *)
Fixpoint descend (k : nat) (f : forest) : option forest :=
  match k, f with
  | O, _ => Some f
  | S k, Tree _ below _ => descend k below
  | S _, Nothing => None
  end.

Lemma descend_found w k : forall f v, stands w f (kids_of v w) ->
  match descend k f with
  | Some f' => exists d, firstChilds k (Some v) w = Some d /\ stands w f' (kids_of d w)
  | None => firstChilds k (Some v) w = None
  end.
Proof.
  induction k as [|k IH]; intros f v Hf; [by exists v|]. cbn [firstChilds mbind option_bind].
  destruct f as [|d below rest]; destruct (kids_of v w) as [|n l] eqn:E; cbn in Hf; try done; cbn [descend head].
  - clear. induction k; [done|]. done.
  - apply IH. tauto.
Qed.

(** The elements that those of a table or of a selection have to stand in, from the
    outermost one on to the element itself. *)
Definition inside (tagName : jstring) : list jstring :=
  if bool_decide (tagName = js "TABLE") then [js "table"]
  else if bool_decide (tagName ∈ [js "TBODY"; js "THEAD"; js "TFOOT"]) then [js "table"; js "tbody"]
  else if bool_decide (tagName = js "TR") then [js "table"; js "tbody"; js "tr"]
  else if bool_decide (tagName ∈ [js "TD"; js "TH"]) then [js "table"; js "tbody"; js "tr"; js "td"]
  else if bool_decide (tagName = js "SELECT") then [js "select"] else [].
Definition opening (names : list jstring) : jstring := concat (map (fun n => js "<" ++ n ++ js ">") names).
Definition closing (names : list jstring) : jstring := concat (map (fun n => js "</" ++ n ++ js ">") (rev names)).
Definition wrapped (tagName h : jstring) : jstring := opening (inside tagName) ++ h ++ closing (inside tagName).
Definition around (names : list jstring) (f : forest) : forest :=
  fold_right (fun n f => Tree (Node (Some (toUpperCase n)) []) f Nothing) f names.

Lemma tags_inside tagName :
  default ([], [], 0%nat) (tags tagName) = (opening (inside tagName), closing (inside tagName), length (inside tagName)).
Proof. unfold tags, inside. by repeat case_bool_decide. Qed.

Lemma descend_around names f : descend (length names) (around names f) = Some f.
Proof. induction names as [|n names IH]; [done|]. exact IH. Qed.

(** Inserting a text makes its nodes and puts them one after the other. *)
Lemma insert_runs set_innerHTML e pos t w h tagName :
  (match pos with Before | After => need (parent w !! e) | _ => mret e end : M nat) w = (Val h, w) -> tag_of h w = Some tagName ->
  insert set_innerHTML e [(pos, Html t)] w =
  (childNodes ← getContent set_innerHTML tagName (Str.stripScripts t);
   iter (place pos e) (match pos with Top | After => rev childNodes | _ => childNodes end);; modify (defer_scripts t)) w.
Proof.
  intros Hh Ht. unfold insert. cbn [iter]. unfold insert_one. unfold mbind, M_bind, get, mret, M_ret in *. rewrite Hh. unfold need. rewrite Ht.
  unfold mret, M_ret. destruct (getContent _ _ _ w) as [[l|x] w1]; [|done]. by destruct (iter _ _ w1) as [[[]|x] w2].
Qed.

Section parsing.
(** What markup stands for in an element of a name. *)
Variable parse : jstring -> jstring -> forest.

(** Markup that may stand in an element of this name: in the elements that it is put
    into on its way there, it stands for the same. *)
Definition fits (tagName h : jstring) : Prop := parse (js "DIV") (wrapped tagName h) = around (inside tagName) (parse tagName h).

(** What a browser does when the markup of an element is set: its children are new
    nodes, the ones that the markup stands for, the ones it had are taken out, and
    all else stays. *)
Record sets_html (set_innerHTML : nat -> jstring -> page -> page) : Prop := {
  html_sound : forall e h w, sound w -> (e < next w)%nat -> sound (set_innerHTML e h w);
  html_next : forall e h w, sound w -> (e < next w)%nat -> (next w <= next (set_innerHTML e h w))%nat;
  html_new : forall e h w c, sound w -> (e < next w)%nat -> c ∈ kids_of e (set_innerHTML e h w) -> (next w <= c)%nat;
  html_parents : forall e h w c p, sound w -> (e < next w)%nat -> (c < next w)%nat ->
    parent (set_innerHTML e h w) !! c = Some p -> parent w !! c = Some p;
  html_kids : forall e h w q, sound w -> (e < next w)%nat -> (q < next w)%nat -> q <> e -> kids_of q (set_innerHTML e h w) = kids_of q w;
  html_nodes : forall e h w n, sound w -> (e < next w)%nat -> (n < next w)%nat -> nodes (set_innerHTML e h w) !! n = nodes w !! n;
  html_stands : forall e h w tagName, sound w -> (e < next w)%nat -> tag_of e w = Some tagName ->
    stands (set_innerHTML e h w) (parse tagName h) (kids_of e (set_innerHTML e h w)) }.

Section markup.
Variable set_innerHTML : nat -> jstring -> page -> page.
Hypothesis Hset : sets_html set_innerHTML.

Lemma firstChilds_new b w : (forall p c, (b <= p)%nat -> c ∈ kids_of p w -> (b <= c)%nat) ->
  forall k v, (forall x, v = Some x -> (b <= x)%nat) -> forall d, firstChilds k v w = Some d -> (b <= d)%nat.
Proof.
  intros Hnew. induction k as [|k IH]; intros v Hv d; cbn [firstChilds]; [apply Hv|]. apply IH.
  intros x. destruct v as [y|]; [|done]. cbn [mbind option_bind]. intros Hx. apply (Hnew y); [by apply Hv|].
  destruct (kids_of y w); [done|]. injection Hx as ->. left.
Qed.

(** What has not changed for the nodes before [b]. *)
Definition unchanged (b : nat) (w w' : page) : Prop :=
  (forall q, (q < b)%nat -> kids_of q w' = kids_of q w) /\ (forall c, (c < b)%nat -> nodes w' !! c = nodes w !! c) /\
  (forall c, (c < b)%nat -> parent w' !! c = parent w !! c).

(** The new element with the markup in it. *)
Lemma html_run h w : sound w -> let b := next w in let w1 := add_node (Node (Some (js "DIV")) []) w in let w2 := set_innerHTML b h w1 in
  sound w2 /\ (b < next w2)%nat /\ closed b w2 /\ (forall p c, (b <= p)%nat -> c ∈ kids_of p w2 -> (b <= c)%nat) /\
  unchanged b w w2 /\ stands w2 (parse (js "DIV") h) (kids_of b w2).
Proof.
  intros Hw b w1 w2. assert (sound w1) as Hw1 by (by apply add_sound). assert (b < next w1)%nat as Hb1 by (cbn; lia).
  assert (next w1 = S b) as Hn1 by done. pose proof (html_next _ Hset b h w1 Hw1 Hb1) as Hn2. fold w2 in Hn2.
  assert (sound w2) as Hw2 by (by apply (html_sound _ Hset)).
  assert (closed b w2) as Hcl.
  { intros c p Hp Hc. apply (html_parents _ Hset) in Hp; [|done|done|lia]. by apply (made w Hw) in Hp as [_ Hp]. }
  assert (forall q, (q < b)%nat -> kids_of q w2 = kids_of q w) as Hk by (intros q Hq; unfold w2; by rewrite (html_kids _ Hset) by (done || lia)).
  split; [done|]. split; [lia|]. split; [done|]. split; [|split; [split; [done|split]|]].
  - intros p c Hp Hc. destruct (decide (b <= c)%nat) as [|Hcb]; [done|]. apply (agree w2 Hw2) in Hc. apply Hcl in Hc; lia.
  - intros c Hc. unfold w2. rewrite (html_nodes _ Hset) by (done || lia). cbn. by rewrite lookup_insert_ne by lia.
  - intros c Hc. destruct (parent w !! c) as [p|] eqn:Hp.
    + apply (agree w Hw) in Hp as Hin. destruct (made w Hw c p Hp) as [_ Hpn]. apply (agree w2 Hw2). by rewrite Hk.
    + destruct (parent w2 !! c) as [p|] eqn:Hp2; [|done]. apply (html_parents _ Hset) in Hp2; [|done|done|lia]. change (parent w1) with (parent w) in Hp2. congruence.
  - apply (html_stands _ Hset b h w1); [done|done|]. unfold tag_of, w1; cbn. by rewrite lookup_insert_eq.
Qed.

(** The nodes of a text are new, stand in the order of the text and are not among
    what is below them; the page has not changed yet.  Where the text has no such
    place, nothing has happened. *)
Lemma getContent_new t h w : sound w ->
  exists w', unchanged (next w) w w' /\
  match descend (length (inside t)) (parse (js "DIV") (wrapped t h)) with
  | Some f => exists d, getContent set_innerHTML t h w = (Val (kids_of d w'), w') /\ ready (next w) (kids_of d w') w' /\ (next w <= d)%nat /\
      (forall p c, (next w <= p)%nat -> c ∈ kids_of p w' -> (next w <= c)%nat) /\ stands w' f (kids_of d w')
  | None => getContent set_innerHTML t h w = (Exn TypeError, w')
  end.
Proof.
  intros Hw. destruct (html_run (wrapped t h) w Hw) as (Hw2 & Hn2 & Hcl & Hnew & Hun & Hst).
  set (b := next w) in *. set (w2 := set_innerHTML b _ _) in *. exists w2. split; [done|].
  assert (getContent set_innerHTML t h w = (d ← need (firstChilds (length (inside t)) (Some b) w2); mret (kids_of d w2)) w2) as ->.
  { unfold getContent, new_element. rewrite tags_inside. reflexivity. }
  pose proof (descend_found w2 (length (inside t)) _ b Hst) as Hd. destruct (descend _ _) as [f|]; [|by rewrite Hd].
  destruct Hd as (d & Hd & Hf). exists d. rewrite Hd. split; [done|].
  assert (b <= d)%nat as Hbd by (eapply (firstChilds_new b w2 Hnew _ (Some b)); [|exact Hd]; intros ? [= <-]; done).
  split; [|done]. split; [done..|lia| | |by apply (once w2 Hw2)].
  - intros n Hn. split; [by eapply Hnew|]. by destruct (kids_made w2 d n Hw2 Hn).
  - intros p n Hp Hn Hn'. apply (agree w2 Hw2) in Hn, Hn'. rewrite Hn in Hn'. injection Hn' as ->. lia.
Qed.

(** Trees whose roots have been taken from [d] to [h] are still the same. *)
Lemma stands_moved b d h f w w' : stands w f (kids_of d w) -> (h < b)%nat -> (b <= d)%nat ->
  (forall p c, (b <= p)%nat -> c ∈ kids_of p w -> (b <= c)%nat) ->
  nodes w' = nodes w -> (forall q, q <> h -> q <> d -> kids_of q w' = kids_of q w) -> stands w' f (kids_of d w).
Proof.
  intros Hf Hh Hd Hnew Hn Hk.
  apply (stands_frame (fun n => (b <= n)%nat /\ exists below, stands w below (kids_of n w) /\ (amount below < amount f)%nat) w); [| |done].
  - intros n (Hbn & below & Hb & Hlt). assert (n <> d) as Hnd by (intros ->; rewrite (stands_same_forest w f below _ Hf Hb) in Hlt; lia).
    split; [by rewrite Hn|]. split; [apply Hk; [lia|done]|]. intros c Hc. split; [by eapply Hnew|].
    destruct (stands_below w below _ c Hb Hc) as (b' & Hb' & Hlt'). exists b'. split; [done|lia].
  - intros n Hin. split; [by eapply Hnew|]. by eapply stands_below.
Qed.

Lemma defer_stands t f : forall w l, stands w f l -> stands (defer_scripts t w) f l.
Proof. intros w l. by apply (stands_frame (fun _ => True)). Qed.

End markup.
End parsing.

(** ** A browser for which this holds *)

(** It reads tags without attributes and texts.  A text right in a table, or in its
    rows, comes out before the table. *)
Definition in_table (name : jstring) : bool := bool_decide (name ∈ [js "TABLE"; js "TBODY"; js "TR"]).
Fixpoint join_forest (f g : forest) : forest := match f with Nothing => g | Tree d below rest => Tree d below (join_forest rest g) end.

(** What stands there, what comes out of the table around it, and the rest from the
    closing tag on. *)
Fixpoint read_markup (fuel : nat) (within : jstring) (s : jstring) : forest * forest * jstring :=
  match fuel, s with
  | O, _ | _, [] => (Nothing, Nothing, [])
  | S fuel, c :: r =>
      if negb (c =? 60) then
        let '(_, r) := Text.span (fun c => negb (c =? 60)) s in
        let '(f, out, r) := read_markup fuel within r in
        let text := Tree (Node None []) Nothing in
        if in_table within then (f, text out, r) else (text f, out, r)
      else if prefixb [47] r then (Nothing, Nothing, s)
      else
        let '(name, r) := Text.span (fun c => negb (c =? 62)) r in
        let name := toUpperCase name in
        let '(below, out, r) := read_markup fuel name (drop 1 r) in
        let r := drop 1 (Text.span (fun c => negb (c =? 62)) r).2 in
        let '(f, out', r) := read_markup fuel within r in
        let element := Tree (Node (Some name) []) below f in
        if bool_decide (name = js "TABLE") then (join_forest out element, out', r) else (element, join_forest out out', r)
  end.
Definition read (tagName h : jstring) : forest := (read_markup (S (length h)) tagName h).1.1.

(** The trees are made, one child after the other. *)
Definition clear (e : nat) (w : page) : page := set_tree (filter (fun q => q.2 <> e) (parent w)) (<[e := []]> (kids w)) w.
Definition grow (d : node) (e : nat) (w : page) : page := attach e (next w) None (add_node d w).
Fixpoint build (f : forest) (e : nat) (w : page) : page :=
  match f with
  | Nothing => w
  | Tree d below rest => build rest e (build below (next w) (grow d e w))
  end.
Definition innerHTML (e : nat) (h : jstring) (w : page) : page :=
  match tag_of e w with Some tagName => build (read tagName h) e (clear e w) | None => clear e w end.

Lemma clear_kids e w q : kids_of q (clear e w) = if decide (q = e) then [] else kids_of q w.
Proof. unfold kids_of, clear; cbn. case_decide; [subst; by rewrite lookup_insert_eq|by rewrite lookup_insert_ne]. Qed.

Lemma clear_parent e w c p : parent (clear e w) !! c = Some p <-> parent w !! c = Some p /\ p <> e.
Proof. unfold clear; cbn. by rewrite map_lookup_filter_Some. Qed.

Lemma clear_sound e w : sound w -> sound (clear e w).
Proof.
  intros [K O B]. split.
  - intros p c. rewrite clear_kids, clear_parent. case_decide; [subst; set_solver|]. rewrite K. naive_solver.
  - intros p. rewrite clear_kids. case_decide; [constructor|apply O].
  - intros c p [Hp _]%clear_parent. by apply B.
Qed.

Lemma grow_moved d e w : sound w -> (e < next w)%nat ->
  sound (grow d e w) /\ next (grow d e w) = S (next w) /\ (forall q, kids_of q (grow d e w) = if decide (q = e) then kids_of e w ++ [next w] else kids_of q w) /\
  (forall c, parent (grow d e w) !! c = if decide (c = next w) then Some e else parent w !! c) /\
  (forall n, nodes (grow d e w) !! n = if decide (n = next w) then Some d else nodes w !! n).
Proof.
  intros Hw He. set (w1 := add_node d w).
  assert (sound w1) as Hw1 by (by apply add_sound). assert (parent w1 !! next w = None) as Hn.
  { destruct (parent w1 !! next w) as [p|] eqn:E; [|done]. apply (made w Hw) in E. lia. }
  assert (grow d e w = attach e (next w) None (detach (next w) w1)) as E by (unfold detach; by rewrite Hn).
  assert (forall q, DragPage.without (next w) (kids_of q w1) = kids_of q w) as Hk.
  { intros q. apply DragSort.without_none. change (kids_of q w1) with (kids_of q w). intros Hin. apply (kids_made w q) in Hin; [lia|done]. }
  pose proof (put_moved e (next w) None w1 Hw1) as Hm. rewrite <- E in Hm.
  split; [eapply moved_sound; [exact Hw1|exact Hm|cbn; lia|cbn; lia]|]. destruct Hm as (H1 & H2 & H3 & H4).
  split; [done|]. split; [|split; [exact H2|]].
  - intros q. rewrite H1, !Hk. case_decide; [|done]. apply DragSort.insert_before_end.
  - intros n. rewrite H4. cbn. case_decide; [subst; by rewrite lookup_insert_eq|by rewrite lookup_insert_ne].
Qed.

Lemma built f : forall e w, sound w -> (e < next w)%nat ->
  sound (build f e w) /\ (next w <= next (build f e w))%nat /\ (forall c, (c < next w)%nat -> parent (build f e w) !! c = parent w !! c) /\
  (forall q, (q < next w)%nat -> q <> e -> kids_of q (build f e w) = kids_of q w) /\
  (forall n, (n < next w)%nat -> nodes (build f e w) !! n = nodes w !! n) /\
  exists l, kids_of e (build f e w) = kids_of e w ++ l /\ (forall n, n ∈ l -> (next w <= n)%nat) /\ stands (build f e w) f l.
Proof.
  induction f as [|d below IHb rest IHr]; intros e w Hw He; cbn [build].
  { split_and!; auto. exists []. rewrite app_nil_r. split_and!; [done|by intros n []%elem_of_nil|done]. }
  destruct (grow_moved d e w Hw He) as (Hg & Hn & Hk & Hp & Hd). set (b := next w) in *. set (w1 := grow d e w) in *.
  destruct (IHb b w1 Hg ltac:(lia)) as (B1 & B2 & B3 & B4 & B5 & lb & B6 & B7 & B8). set (w2 := build below b w1) in *.
  destruct (IHr e w2 B1 ltac:(lia)) as (R1 & R2 & R3 & R4 & R5 & lr & R6 & R7 & R8). set (w3 := build rest e w2) in *.
  assert (kids_of b w1 = []) as Hb1 by (rewrite Hk, decide_False by lia; by apply no_kids).
  rewrite Hb1 in B6. cbn [app] in B6. split; [done|]. split; [lia|]. split; [|split; [|split]].
  - intros c Hc. rewrite R3, B3, Hp, decide_False by lia. done.
  - intros q Hq Hqe. rewrite R4, B4 by lia. by rewrite Hk, decide_False.
  - intros n Hlt. rewrite R5, B5, Hd, decide_False by lia. done.
  - exists (b :: lr). split; [rewrite R6, B4, Hk, decide_True, <- app_assoc by lia; done|]. split.
    { intros n [->|Hin]%elem_of_cons; [lia|]. apply R7 in Hin. lia. }
    cbn. split; [rewrite R5, B5, Hd, decide_True by lia; done|]. split; [|done]. rewrite R4, B6 by lia.
    apply (stands_frame (fun n => (b <= n)%nat /\ (n < next w2)%nat) w2); [| |done].
    + intros n [H1 H2]. split; [by apply R5|]. split; [apply R4; lia|]. intros c Hc. split; [|by apply (kids_made w2 n c B1)].
      destruct (decide (b <= c)%nat) as [|Hcb]; [done|]. apply (agree w2 B1) in Hc. rewrite B3, Hp, decide_False in Hc by lia.
      apply (made w Hw) in Hc as [_ Hc]. lia.
    + intros n Hin. split; [apply B7 in Hin; lia|]. apply (kids_made w2 b n B1). by rewrite B6.
Qed.

Lemma innerHTML_sets : sets_html read innerHTML.
Proof.
  assert (forall e h w, sound w -> (e < next w)%nat -> exists f, innerHTML e h w = build f e (clear e w) /\
    (forall t, tag_of e w = Some t -> f = read t h) /\ sound (clear e w) /\ next (clear e w) = next w) as H.
  { intros e h w Hw He. unfold innerHTML. destruct (tag_of e w) as [t|].
    - exists (read t h). split_and!; [done|congruence|by apply clear_sound|done].
    - exists Nothing. split_and!; [done|done|by apply clear_sound|done]. }
  assert (forall e w, sound w -> (e < next w)%nat -> kids_of e (clear e w) = []) as Hc by (intros; by rewrite clear_kids, decide_True).
  split.
  - intros e h w Hw He. destruct (H e h w Hw He) as (f & -> & _ & Hs & Hn). apply (built f e (clear e w)); [done|lia].
  - intros e h w Hw He. destruct (H e h w Hw He) as (f & -> & _ & Hs & Hn). rewrite <- Hn. apply (built f e (clear e w)); [done|lia].
  - intros e h w c Hw He. destruct (H e h w Hw He) as (f & -> & _ & Hs & Hn).
    destruct (built f e (clear e w) Hs ltac:(lia)) as (_ & _ & _ & _ & _ & l & -> & Hl & _). rewrite (Hc e w Hw He), <- Hn. apply Hl.
  - intros e h w c p Hw He Hlt. destruct (H e h w Hw He) as (f & -> & _ & Hs & Hn).
    destruct (built f e (clear e w) Hs ltac:(lia)) as (_ & _ & Hp & _). rewrite Hp by lia. by intros [Hcp _]%clear_parent.
  - intros e h w q Hw He Hq Hqe. destruct (H e h w Hw He) as (f & -> & _ & Hs & Hn).
    destruct (built f e (clear e w) Hs ltac:(lia)) as (_ & _ & _ & Hk & _). rewrite Hk by (done || lia). by rewrite clear_kids, decide_False.
  - intros e h w n Hw He Hq. destruct (H e h w Hw He) as (f & -> & _ & Hs & Hn).
    destruct (built f e (clear e w) Hs ltac:(lia)) as (_ & _ & _ & _ & Hd & _). by rewrite Hd by lia.
  - intros e h w t Hw He Ht. destruct (H e h w Hw He) as (f & -> & Hf & Hs & Hn).
    destruct (built f e (clear e w) Hs ltac:(lia)) as (_ & _ & _ & _ & _ & l & -> & _ & Hst). by rewrite (Hc e w Hw He), <- (Hf t Ht).
Qed.

(** A list of two items, and a third one put between them. *)
Definition list_page : page :=
  Page (<[0%nat := Node (Some (js "UL")) []]> (<[1%nat := Node (Some (js "LI")) []]> (<[2%nat := Node (Some (js "LI")) []]> ∅)))
    (<[1%nat := 0%nat]> (<[2%nat := 0%nat]> ∅)) (<[0%nat := [1%nat; 2%nat]]> ∅) 3 1 [].

Lemma list_page_sound : sound list_page.
Proof.
  split.
  - intros p c. unfold kids_of, list_page; cbn. destruct (decide (p = 0%nat)) as [->|Hp].
    + rewrite lookup_insert_eq. cbn. rewrite !lookup_insert_Some, lookup_empty, !elem_of_cons, elem_of_nil. naive_solver.
    + rewrite lookup_insert_ne, lookup_empty by done. cbn. rewrite !lookup_insert_Some, lookup_empty, elem_of_nil. naive_solver.
  - intros p. unfold kids_of, list_page; cbn. destruct (decide (p = 0%nat)) as [->|Hp].
    + rewrite lookup_insert_eq. decided.
    + rewrite lookup_insert_ne, lookup_empty by done. constructor.
  - intros c p. unfold list_page; cbn. rewrite !lookup_insert_Some, lookup_empty. naive_solver lia.
Qed.

Definition new_item : jstring := js "<li>new<b></b></li>".


(** Rows fit a group of rows, with what is in them; a text does not, and comes
    out before the table. *)
Lemma rows_fit : fits read (js "TBODY") (js "<tr><td>1</td></tr><tr></tr>").
Proof. vm_compute. reflexivity. Qed.

Definition table_page : page := Page (<[0%nat := Node (Some (js "TBODY")) []]> ∅) ∅ ∅ 1 1 [].
Lemma text_in_table : (insert innerHTML 0 [(Bottom, Html (js "hi"))] table_page).1 = Exn TypeError.
Proof. vm_compute. reflexivity. Qed.
End InsertUse.

(** * Ids, wrapping and replacing

    An id that [identify] gives is one that nobody has, and it is found; what is
    wrapped stands in a new element at its old place. *)
Module InsertSafe.
Import Js Insert InsertUse.

(** ** Attributes *)

Lemma get_set_attr k v l j : get_attr j (set_attr k v l) = if decide (k = j) then Some v else get_attr j l.
Proof.
  induction l as [|[i u] l IH]; cbn [set_attr get_attr].
  - case_bool_decide; by case_decide.
  - case_bool_decide as Hi; cbn [get_attr]; [subst i|rewrite IH]; repeat case_bool_decide; repeat case_decide; congruence.
Qed.

Lemma on_attributes_at n f w d t : nodes w !! n = Some d -> name d = Some t ->
  on_attributes n f w = (Val tt, set_node n (Node (name d) (f (attributes d))) w).
Proof. intros Hd Ht. unfold on_attributes, need, mbind, M_bind, get, mret, M_ret, modify. by rewrite Hd, Ht. Qed.

Lemma attributes_set n d w m : attributes_of m (set_node n d w) = if decide (m = n) then attributes d else attributes_of m w.
Proof. unfold attributes_of; cbn. case_decide; [subst; by rewrite lookup_insert_eq|by rewrite lookup_insert_ne]. Qed.

(** ** Ids *)

Definition anonymous (i : Z) : jstring := js "anonymous_element_" ++ num_str i.

Lemma anonymous_once i j : 0 < i -> 0 < j -> anonymous i = anonymous j -> i = j.
Proof.
  intros Hi Hj H%app_inv_head. destruct i as [|i|], j as [|j|]; try lia.
  pose proof (Location.parseInt_num i [] ltac:(done)) as Ei. pose proof (Location.parseInt_num j [] ltac:(done)) as Ej.
  rewrite app_nil_r in Ei, Ej. rewrite H in Ei. congruence.
Qed.

Section document.
Variable document : nat.

Lemma walk_same w w' : kids w' = kids w -> forall fuel l, walk fuel w' l = walk fuel w l.
Proof. intros Hk. induction fuel as [|fuel IH]; intros l; [done|]. destruct l as [|n l]; [done|]. cbn [walk]. rewrite IH. unfold kids_of. by rewrite Hk. Qed.

Lemma in_document_same w w' : kids w' = kids w -> next w' = next w -> in_document document w' = in_document document w.
Proof. intros Hk Hn. unfold in_document. by rewrite Hn, (walk_same w w'). Qed.

Definition taken (id : jstring) (w : page) : Prop := exists m, m ∈ in_document document w /\ is_element w m = true /\ get_attr (js "id") (attributes_of m w) = Some id.

Lemma taken_counter id c w : taken id (set_counter c w) <-> taken id w.
Proof. unfold taken. by rewrite (in_document_same w (set_counter c w)). Qed.

Lemma not_taken id w : getElementById document id w = None <-> ~ taken id w.
Proof.
  unfold getElementById, taken, has_id. split.
  - intros H (m & Hm & He & Hi). destruct (filter _ _) as [|x l] eqn:E; [|done]. clear H.
    assert (m ∈ ([] : list nat)) as []%elem_of_nil. rewrite <- E. apply list_elem_of_filter. by rewrite He, bool_decide_eq_true_2.
  - intros H. destruct (filter _ _) as [|x l] eqn:E; [done|]. exfalso. apply H. exists x.
    assert (x ∈ x :: l) as Hx by left. rewrite <- E in Hx. apply list_elem_of_filter in Hx as [Hx Hd].
    apply andb_true_iff in Hx as [Hx Hi]. by rewrite bool_decide_eq_true in Hi.
Qed.

Lemma taken_some id w : is_Some (getElementById document id w) -> taken id w.
Proof.
  intros H. destruct (decide (getElementById document id w = None)) as [E|E]; [rewrite E in H; by destruct H|].
  unfold getElementById, has_id in E. unfold taken. destruct (filter _ _) as [|x l] eqn:F; [done|]. exists x.
  assert (x ∈ x :: l) as Hx by left. rewrite <- F in Hx. apply list_elem_of_filter in Hx as [Hx Hd].
  apply andb_true_iff in Hx as [Hx Hi]. by rewrite bool_decide_eq_true in Hi.
Qed.

(** There are not more ids in use than nodes. *)
Lemma ids_run_out w (c : Z) k : 0 < c -> (forall i : nat, (i < k)%nat -> taken (anonymous (c + Z.of_nat i)) w) -> (k <= length (in_document document w))%nat.
Proof.
  intros Hc H. set (ids := map (fun m => get_attr (js "id") (attributes_of m w)) (in_document document w)).
  replace (length (in_document document w)) with (length ids) by apply length_map.
  transitivity (length (map (fun i : nat => Some (anonymous (c + Z.of_nat i))) (seq 0 k))); [by rewrite length_map, length_seq|].
  apply submseteq_length, NoDup_submseteq.
  - apply NoDup_fmap_2_strong; [|apply NoDup_ListNoDup, seq_NoDup]. intros i j _ _ E. apply (inj Some), anonymous_once in E; lia.
  - intros x (i & -> & Hi%elem_of_seq)%list_elem_of_fmap. destruct (H i ltac:(lia)) as (m & Hm & _ & <-).
    unfold ids. apply (list_elem_of_fmap_2 (fun m => get_attr (js "id") (attributes_of m w))). done.
Qed.

Lemma identify_loop_run fuel : forall n w d t, 0 < counter w -> nodes w !! n = Some d -> name d = Some t ->
  (exists i, 0 < i /\ ~ taken (anonymous i) w /\
    identify_loop document fuel n w = (Val (anonymous i), set_node n (Node (name d) (set_attr (js "id") (anonymous i) (attributes d))) (set_counter (i + 1) w))) \/
  (forall i : nat, (i < fuel)%nat -> taken (anonymous (counter w + Z.of_nat i)) w).
Proof.
  induction fuel as [|fuel IH]; intros n w d t Hc Hd Ht; [right; lia|]. cbn [identify_loop].
  unfold mbind at 1, M_bind at 1, get at 1. unfold mbind at 1, M_bind at 1, modify at 1. unfold mbind at 1, M_bind at 1, get at 1.
  fold (anonymous (counter w)). set (w1 := set_counter (counter w + 1) w).
  assert (forall id, getElementById document id w1 = getElementById document id w) as -> by (intros id; unfold getElementById; by rewrite (in_document_same w w1)).
  destruct (getElementById document (anonymous (counter w)) w) as [m|] eqn:E.
  - assert (taken (anonymous (counter w)) w) as H0 by (apply taken_some; by exists m).
    destruct (IH n w1 d t ltac:(cbn; lia) Hd Ht) as [(i & Hi & Hn & Hr)|H]; [left; exists i; split; [done|]; split; [by rewrite <- (taken_counter _ (counter w + 1))|done]|]. right. intros [|i] Hi.
    + by replace (counter w + Z.of_nat 0) with (counter w) by lia.
    + replace (counter w + Z.of_nat (S i)) with (counter w1 + Z.of_nat i) by (cbn; lia). apply (taken_counter _ (counter w + 1)), H. lia.
  - left. exists (counter w). split; [done|]. split; [by apply not_taken|].
    unfold mbind, M_bind. cbn [writeAttribute iter]. unfold mbind, M_bind, write_one.
    change (write_name (js "id")) with (js "id"). by rewrite (on_attributes_at n _ w1 d t).
Qed.

(** C39: identify keeps an id that an element has, and gives one that nobody has to
    an element without: the search for it ends, the element is found by it, and no
    other element changes. *)
Theorem identify_unused n w d t : 0 < counter w -> n ∈ in_document document w -> nodes w !! n = Some d -> name d = Some t ->
  exists id w', identify document n w = (Val id, w') /\ readAttribute n (js "id") w' = Some id /\
    (forall m, m <> n -> nodes w' !! m = nodes w !! m) /\ parent w' = parent w /\ kids w' = kids w /\
    match readAttribute n (js "id") w with
    | Some ((_ :: _) as old) => id = old /\ w' = w
    | _ => ~ taken id w /\ getElementById document id w' = Some n
    end.
Proof.
  intros Hc Hdoc Hd Ht. unfold identify, mbind, M_bind, get.
  set (Q := readAttribute n (js "id") w = None \/ readAttribute n (js "id") w = Some []).
  assert (Q -> exists id w', identify_loop document (S (length (in_document document w))) n w = (Val id, w') /\ readAttribute n (js "id") w' = Some id /\
    (forall m, m <> n -> nodes w' !! m = nodes w !! m) /\ parent w' = parent w /\ kids w' = kids w /\
    ~ taken id w /\ getElementById document id w' = Some n) as Hloop.
  { intros HQ. destruct (identify_loop_run (S (length (in_document document w))) n w d t Hc Hd Ht) as [(i & Hi & Hfree & ->)|H].
    2: { pose proof (ids_run_out w (counter w) _ Hc H). lia. }
    set (w1 := set_node n _ (set_counter (i + 1) w)). exists (anonymous i), w1. split; [done|].
    assert (forall m, get_attr (js "id") (attributes_of m w1) = if decide (m = n) then Some (anonymous i) else get_attr (js "id") (attributes_of m w)) as Ha.
    { intros m. unfold w1. rewrite attributes_set. case_decide; [|done]. cbn [attributes]. by rewrite get_set_attr, decide_True. }
    assert (forall m, is_element w1 m = is_element w m) as He.
    { intros m. unfold is_element, w1; cbn. destruct (decide (m = n)) as [->|Hm]; [by rewrite lookup_insert_eq, Hd|by rewrite lookup_insert_ne]. }
    split; [unfold readAttribute; by rewrite Ha, decide_True|]. split; [intros m Hm; cbn; by rewrite lookup_insert_ne|].
    split; [done|]. split; [done|]. split; [exact Hfree|].
    assert (taken (anonymous i) w1) as Htk.
    { exists n. split; [by rewrite (in_document_same w w1)|]. split; [rewrite He; unfold is_element; by rewrite Hd; cbn; rewrite Ht|by rewrite Ha, decide_True]. }
    destruct (getElementById document (anonymous i) w1) as [m|] eqn:E; [|by apply not_taken in E].
    f_equal. unfold getElementById in E. destruct (filter _ _) as [|x l] eqn:F; [done|]. injection E as ->.
    assert (m ∈ m :: l) as Hx by left. rewrite <- F in Hx. apply list_elem_of_filter in Hx as [Hx Hm].
    apply andb_true_iff in Hx as [Hx Hid]. unfold has_id in Hid. rewrite bool_decide_eq_true, Ha in Hid. case_decide; [done|].
    exfalso. apply Hfree. exists m. by rewrite <- He, <- (in_document_same w w1). }
  destruct (readAttribute n (js "id") w) as [[|c id]|] eqn:E; [apply Hloop; by right| |apply Hloop; by left].
  exists (c :: id), w. split_and!; done.
Qed.
End document.

Lemma identify_unused_witness :
  let w := Page (<[0%nat := Node None []]> (<[1%nat := Node (Some (js "P")) []]> (<[2%nat := Node (Some (js "P")) [(js "id", js "anonymous_element_1")]]> ∅)))
    (<[1%nat := 0%nat]> (<[2%nat := 0%nat]> ∅)) (<[0%nat := [1%nat; 2%nat]]> ∅) 3 1 [] in
  exists id w', identify 0 1 w = (Val id, w') /\ readAttribute 1 (js "id") w' = Some id /\
    (forall m, m <> 1%nat -> nodes w' !! m = nodes w !! m) /\ parent w' = parent w /\ kids w' = kids w /\
    (~ taken 0 id w /\ getElementById 0 id w' = Some 1%nat).
Proof.
  intros w. pose proof (identify_unused 0 1 w (Node (Some (js "P")) []) (js "P") ltac:(reflexivity) ltac:(decided) ltac:(reflexivity) ltac:(reflexivity)) as H.
  exact H.
Defined.

(** ** Wrapping *)

(** The tree of the page is the same. *)
Definition same_tree (w w' : page) : Prop := parent w' = parent w /\ kids w' = kids w /\ next w' = next w.

Lemma same_tree_sound w w' : same_tree w w' -> sound w -> sound w'.
Proof. intros (Hp & Hk & Hn) [K O B]. split; intros; unfold kids_of in *; rewrite ?Hp, ?Hk, ?Hn in *; eauto. Qed.

Lemma write_one_run n k v w d t : nodes w !! n = Some d -> name d = Some t ->
  exists l, write_one n k v w = (Val tt, set_node n (Node (name d) l) w).
Proof.
  intros Hd Ht. unfold write_one. destruct v as [[]| |u]; rewrite (on_attributes_at n _ w d t) by done; by eexists.
Qed.

(** Attributes are written to the element and to nothing else. *)
Lemma writeAttribute_run n l : forall w d t, nodes w !! n = Some d -> name d = Some t ->
  exists w' d', writeAttribute n l w = (Val tt, w') /\ same_tree w w' /\ (forall m, m <> n -> nodes w' !! m = nodes w !! m) /\
    nodes w' !! n = Some d' /\ name d' = Some t.
Proof.
  unfold writeAttribute. induction l as [|[k v] l IH]; intros w d t Hd Ht; cbn [iter].
  - exists w, d. by split_and!.
  - destruct (write_one_run n k v w d t Hd Ht) as [l' E]. unfold mbind, M_bind. rewrite E.
    destruct (IH (set_node n (Node (name d) l') w) (Node (name d) l') t) as (w' & d' & E' & Hs & Hm & Hn & Hname); [cbn; by rewrite lookup_insert_eq|done|].
    exists w', d'. split; [exact E'|]. split; [exact Hs|]. split; [|done].
    intros m Hmn. rewrite Hm by done. cbn. by rewrite lookup_insert_ne.
Qed.

Lemma new_element_run t l w : exists w' d, new_element t l w = (Val (next w), w') /\ same_tree (add_node (Node (Some (toUpperCase t)) []) w) w' /\
  (forall m, m <> next w -> nodes w' !! m = nodes w !! m) /\ nodes w' !! next w = Some d /\ name d = Some (toUpperCase t).
Proof.
  set (w1 := add_node (Node (Some (toUpperCase t)) []) w).
  destruct (writeAttribute_run (next w) l w1 (Node (Some (toUpperCase t)) []) (toUpperCase t)) as (w' & d & E & Hs & Hm & Hn & Hname); [cbn; by rewrite lookup_insert_eq|done|].
  exists w', d. split; [|split; [done|split; [|done]]].
  - unfold new_element, mbind, M_bind, get, modify. fold w1. by rewrite E.
  - intros m Hmn. rewrite Hm by done. cbn. by rewrite lookup_insert_ne.
Qed.

Lemma sound_closed w : sound w -> closed (next w) w.
Proof. intros Hw c p Hp _. by apply (made w Hw) in Hp as []. Qed.

Lemma without_at e a c : NoDup (a ++ e :: c) -> DragPage.without e (a ++ e :: c) = a ++ c.
Proof.
  intros Hnd. apply NoDup_app in Hnd as (_ & Hd & Hc). apply NoDup_cons in Hc as [Hc _]. unfold DragPage.without.
  rewrite filter_app, filter_cons_False by tauto. f_equal; apply DragSort.without_none; [|done].
  intros H. apply (Hd e H). left.
Qed.

(** A node without a parent takes the place of a child. *)
Lemma replaceChild_new b p n old w a c : sound w -> closed b w -> (p < b)%nat -> (b <= n)%nat -> (n < next w)%nat -> (b <= next w)%nat -> parent w !! n = None ->
  kids_of p w = a ++ old :: c -> (old < b)%nat ->
  exists w', replaceChild p n old w = (Val tt, w') /\ sound w' /\ next w' = next w /\ nodes w' = nodes w /\ kids_of p w' = a ++ n :: c /\
    (forall q, q <> p -> kids_of q w' = kids_of q w) /\
    (forall m, parent w' !! m = if decide (m = old) then None else if decide (m = n) then Some p else parent w !! m).
Proof.
  intros Hw Hc Hp Hn Hnn Hb Hno Hk Hold. unfold replaceChild, mbind, M_bind, get. unfold above. rewrite (contains_new b) by done.
  assert (old ∈ kids_of p w) as Hin by (rewrite Hk, elem_of_app; right; left). rewrite bool_decide_eq_true_2 by done. cbn [negb].
  rewrite decide_False by lia. pose proof (put_moved p n (Some old) w Hw) as Hm.
  pose proof (moved_sound p n (Some old) w _ Hw Hm ltac:(lia) Hnn) as Hs. set (w1 := attach p n (Some old) (detach n w)) in *.
  destruct Hm as (Hk1 & Hp1 & Hn1 & Hd1). destruct (detach_moved old w1 Hs) as (Hk2 & Hp2 & Hn2 & Hd2).
  assert (forall q, DragPage.without n (kids_of q w) = kids_of q w) as Hout.
  { intros q. apply DragSort.without_none. rewrite (agree w Hw). congruence. }
  pose proof (once w Hw p) as Hnd. rewrite Hk in Hnd.
  assert (kids_of p w1 = a ++ n :: old :: c) as Hkp.
  { rewrite Hk1, decide_True, Hout, Hk by done. apply DragSort.insert_before_at. apply NoDup_app in Hnd as (_ & H & _). intros Ha. apply (H old Ha). left. }
  exists (detach old w1). split; [done|]. split; [|split; [congruence|split; [congruence|split; [|split]]]].
  - split.
    + intros q m. rewrite Hk2, Hp2, DragTree.elem_of_without, (agree w1 Hs). case_decide; naive_solver.
    + intros q. rewrite Hk2. apply NoDup_filter, (once w1 Hs).
    + intros m q. rewrite Hp2, Hn2. case_decide; [done|]. apply (made w1 Hs).
  - rewrite Hk2, Hkp. replace (a ++ n :: old :: c) with ((a ++ [n]) ++ old :: c) by (by rewrite <- app_assoc). rewrite without_at; [by rewrite <- app_assoc|].
    rewrite <- app_assoc. cbn. rewrite <- Hkp. apply (once w1 Hs).
  - intros q Hq. rewrite Hk2, Hk1, decide_False, Hout by done. apply DragSort.without_none. rewrite (agree w Hw).
    apply (agree w Hw) in Hin. congruence.
  - intros m. by rewrite Hp2, Hp1.
Qed.

(** Up from a node that is in the page, the way stays the same when a node below
    it is put elsewhere. *)
Lemma contains_less f1 f2 w n p : (f1 <= f2)%nat -> contains f2 w n p = false -> contains f1 w n p = false.
Proof.
  revert f1 p. induction f2 as [|f2 IH]; intros f1 p Hf; destruct f1 as [|f1]; cbn [contains]; intros H; try lia; try done;
    apply orb_false_iff in H as [H1 H2]; rewrite H1; cbn [orb]; [done|].
  destruct (parent w !! p) as [q|]; [|done]. apply IH; [lia|done].
Qed.

Lemma contains_moved fuel w w' e r p : (forall m, m <> e -> m <> r -> parent w' !! m = parent w !! m) -> sound w -> (p < next w)%nat -> (next w <= r)%nat ->
  contains fuel w e p = false -> contains fuel w' e p = false.
Proof.
  intros Hm Hw. revert p. induction fuel as [|fuel IH]; intros p Hp Hr; cbn [contains]; intros H; [done|].
  apply orb_false_iff in H as [H1 H2]. rewrite H1. cbn [orb]. apply bool_decide_eq_false in H1. rewrite Hm by lia || done.
  destruct (parent w !! p) as [q|] eqn:Hq; [|done]. apply IH; [|done|done]. by apply (made w Hw) in Hq as [].
Qed.

(** The name of the element that an element is wrapped into. *)
Definition wrapper_name (wr : wrapper) : option jstring :=
  match wr with AnElement _ => None | ATag t => Some (toUpperCase t) | ADiv => Some (js "DIV") end.

Lemma wrapper_run wr t l w : sound w -> wrapper_name wr = Some t ->
  exists w1 d, (match wr with AnElement n => writeAttribute n l;; mret n | ATag t => new_element t l | ADiv => new_element (js "div") l end) w = (Val (next w), w1) /\
    sound w1 /\ next w1 = S (next w) /\ parent w1 = parent w /\ kids w1 = kids w /\ (forall m, m <> next w -> nodes w1 !! m = nodes w !! m) /\
    nodes w1 !! next w = Some d /\ name d = Some t.
Proof.
  intros Hw Hname.
  assert (forall x, toUpperCase x = t -> exists w1 d, new_element x l w = (Val (next w), w1) /\
    sound w1 /\ next w1 = S (next w) /\ parent w1 = parent w /\ kids w1 = kids w /\ (forall m, m <> next w -> nodes w1 !! m = nodes w !! m) /\
    nodes w1 !! next w = Some d /\ name d = Some t) as H.
  { intros x <-. destruct (new_element_run x l w) as (w1 & d & E & Ht & H1 & H2 & H3). exists w1, d. split; [done|].
    split; [eapply same_tree_sound; [exact Ht|by apply add_sound]|]. destruct Ht as (T1 & T2 & T3). by split_and!. }
  destruct wr as [|x|]; [done| |]; injection Hname as Hname; by apply H.
Qed.

(** When [r] has taken the place of [e], nothing that led up to [e] does. *)
Lemma above_replaced w w2 e r p : sound w -> parent w !! e = Some p -> above w e p = false -> (next w <= r)%nat ->
  (forall m, parent w2 !! m = if decide (m = e) then None else if decide (m = r) then Some p else parent w !! m) -> above w2 e r = false.
Proof.
  intros Hw Hpe Habove Hr Hp2. destruct (made w Hw e p Hpe) as [He Hp].
  assert (parent w !! r = None) as Hpr by (destruct (parent w !! r) as [q|] eqn:E; [apply (made w Hw) in E as []; lia|done]).
  unfold above. cbn [contains]. rewrite bool_decide_eq_false_2 by lia. cbn [orb]. rewrite Hp2, decide_False, decide_True by lia || done.
  apply (contains_moved _ w w2 e r); [|done|done|done|].
  - intros m Hme Hmr. by rewrite Hp2, !decide_False.
  - eapply contains_less; [|exact Habove]. assert (parent w2 = <[r := p]> (delete e (parent w))) as ->.
    { apply map_eq. intros m. rewrite Hp2. destruct (decide (m = e)) as [->|Hme].
      - rewrite lookup_insert_ne, lookup_delete_eq by lia. done.
      - case_decide as Hmr; [subst m; by rewrite lookup_insert_eq|]. by rewrite lookup_insert_ne, lookup_delete_ne. }
    rewrite map_size_insert_None by (rewrite lookup_delete_ne; [done|lia]). rewrite map_size_delete_Some by (by eexists).
    assert (size (parent w) <> 0%nat) as Hsz by (intros Hz; apply map_size_empty_iff in Hz; by rewrite Hz in Hpe). lia.
Qed.

(** Wrapping an element puts a new element with the attributes at its place
    among its siblings, with the element as its only child; nothing else moves. *)
Theorem wrap_in_place e p a c t wr l w : sound w -> parent w !! e = Some p -> kids_of p w = a ++ e :: c -> above w e p = false ->
  wrapper_name wr = Some t ->
  exists r w', wrap e wr l w = (Val r, w') /\ sound w' /\ (next w <= r)%nat /\ tag_of r w' = Some t /\
    kids_of p w' = a ++ r :: c /\ kids_of r w' = [e] /\ parent w' !! e = Some r /\
    (forall q, q <> p -> q <> r -> kids_of q w' = kids_of q w) /\ (forall n, (n < next w)%nat -> nodes w' !! n = nodes w !! n).
Proof.
  intros Hw Hpe Hk Habove Hname. set (r := next w). destruct (made w Hw e p Hpe) as [He Hp]. pose proof (once w Hw p) as Hnd. rewrite Hk in Hnd.
  assert (parent w !! r = None) as Hpr by (destruct (parent w !! r) as [q|] eqn:E; [apply (made w Hw) in E as []; lia|done]).
  destruct (wrapper_run wr t l w Hw Hname) as (w1 & d & E1 & Hs1 & Hn1 & Hp1 & Hk1 & Hm1 & Hd1 & Hname1).
  fold r in E1, Hn1, Hm1, Hd1.
  assert (forall q, kids_of q w1 = kids_of q w) as Hkw by (intros q; unfold kids_of; by rewrite Hk1).
  destruct (replaceChild_new (next w) p r e w1 a c Hs1) as (w2 & E2 & Hs2 & Hn2 & Hd2 & Hk2 & Hk2' & Hp2); [|done|done|lia|lia|by rewrite Hp1|by rewrite Hkw|done|].
  { intros m q. rewrite Hp1. by apply sound_closed. }
  assert (parent w2 !! e = None) as Hpe2 by (by rewrite Hp2, decide_True).
  assert (insertBefore r e None w2 = (Val tt, attach r e None w2)) as E3.
  { unfold insertBefore, mbind, M_bind, get. rewrite (above_replaced w w2 e r p Hw Hpe Habove); [|done|by intros m; rewrite Hp2, Hp1].
    unfold modify, detach. by rewrite Hpe2. }
  exists r, (attach r e None w2). split.
  { unfold wrap. unfold mbind at 1, M_bind at 1. rewrite E1. unfold mbind at 1, M_bind at 1, get. unfold mbind at 1, M_bind at 1. rewrite Hp1, Hpe, E2.
    unfold mbind, M_bind. by rewrite E3. }
  assert (attach r e None w2 = attach r e None (detach e w2)) as Ea by (unfold detach; by rewrite Hpe2).
  pose proof (put_moved r e None w2 Hs2) as Hm. rewrite <- Ea in Hm.
  split; [eapply moved_sound; [exact Hs2|exact Hm|lia|lia]|]. destruct Hm as (Hk3 & Hp3 & Hn3 & Hd3).
  assert (forall q, DragPage.without e (kids_of q w2) = kids_of q w2) as Hout by (intros q; apply DragSort.without_none; rewrite (agree w2 Hs2); congruence).
  split; [lia|]. split; [|split; [|split; [|split; [|split]]]].
  - unfold tag_of. rewrite Hd3, Hd2, Hd1. exact Hname1.
  - rewrite Hk3, decide_False, Hout by lia. exact Hk2.
  - rewrite Hk3, decide_True, Hout, DragSort.insert_before_end by done. by rewrite Hk2', Hkw, (no_kids w) by lia || done.
  - by rewrite Hp3, decide_True.
  - intros q Hqp Hqr. by rewrite Hk3, decide_False, Hout, Hk2', Hkw by done.
  - intros n Hn. rewrite Hd3, Hd2. apply Hm1. lia.
Qed.

Lemma wrap_in_place_witness :
  exists r w', wrap 1 (ATag (js "li")) [(js "className", Text (js "new"))] list_page = (Val r, w') /\ sound w' /\ (3 <= r)%nat /\ tag_of r w' = Some (js "LI") /\
    kids_of 0 w' = [] ++ r :: [2%nat] /\ kids_of r w' = [1%nat] /\ parent w' !! 1%nat = Some r /\
    (forall q, q <> 0%nat -> q <> r -> kids_of q w' = kids_of q list_page) /\ (forall n, (n < 3)%nat -> nodes w' !! n = nodes list_page !! n).
Proof. apply (wrap_in_place 1 0 [] [2%nat] (js "LI") (ATag (js "li")) _ list_page list_page_sound); reflexivity. Defined.

(** ** What the names of attributes are not *)

(** A class that was written as [className] is not read under this name. *)
Lemma className_not_read :
  let w := (writeAttribute 1 [(js "className", Text (js "new"))] list_page).2 in
  readAttribute 1 (js "className") w = None /\ readAttribute 1 (js "class") w = Some (js "new").
Proof. split; reflexivity. Qed.

(** In a table, the new rows go before the next element, behind a text in
    between. *)
Lemma row_replaced_late :
  let w := Page (<[0%nat := Node (Some (js "TBODY")) []]> (<[1%nat := Node (Some (js "TR")) []]> (<[2%nat := Node None []]> (<[3%nat := Node (Some (js "TR")) []]> ∅))))
    (<[1%nat := 0%nat]> (<[2%nat := 0%nat]> (<[3%nat := 0%nat]> ∅))) (<[0%nat := [1%nat; 2%nat; 3%nat]]> ∅) 4 1 [] in
  exists n, kids_of 0 (replace innerHTML 1 (Html (js "<tr></tr>")) w).2 = [2%nat; n; 3%nat] /\ (4 <= n)%nat.
Proof. eexists. split; [vm_compute; reflexivity|lia]. Qed.
End InsertSafe.
