(* ===== verification/ProtoAnswer.v ===== *)
(** * What is done with an answer

    The headers that a request sends, the response object with the JSON of the
    headers and of the text, the scripts that are evaluated, and the element that
    Ajax.Updater fills.  [eval], the handlers of the page and the browser's transport
    are parameters; what is evaluated and called is logged in order. *)
From S2P Require Import Prelude JsString Json ProtoText ProtoStr JsUri JsRegex ProtoQuery ProtoJson JsMonad ProtoAjax ProtoInsert.

Module Answer.
Import Text Regex Uri Js.

(** ** Headers *)

(** Headers of the page: a list of names and values in turn, or an object. *)
Inductive extras := HArray (l : list Json.jval) | HObject (o : Query.object).
Record header_options := HeaderOptions {
  contentType : jstring; encoding : jstring; requestHeaders : option extras;
  overrideMimeType : bool; gecko : option Z   (** the year in the name of the browser *) }.

Fixpoint set_pairs (l : list Json.jval) (headers : Query.object) : Query.object :=
  match l with
  | k :: v :: l => set_pairs l (Query.set_own (Text.to_string k) v headers)
  | [k] => Query.set_own (Text.to_string k) Json.VUndef headers
  | [] => headers
  end.

Definition common_headers : Query.object :=
  [(js "X-Requested-With", Json.VStr (js "XMLHttpRequest")); (js "X-Prototype-Version", Json.VStr (js "1.6.0.3"));
   (js "Accept", Json.VStr (js "text/javascript, text/html, application/xml, text/xml, */*"))].
(** src/piql/scadr/src/main/rails/public/javascripts/prototype.js:1253-1270
    [setRequestHeaders()]: the headers of the library *)
Definition library_headers (method : jstring) (o : header_options) : Query.object :=
  if bool_decide (method = js "post") then
    let headers := Query.set_own (js "Content-type")
      (Json.VStr (contentType o ++ (if bool_decide (encoding o = []) then [] else js "; charset=" ++ encoding o))) common_headers in
    if overrideMimeType o && (default 2005 (gecko o) <? 2005) then Query.set_own (js "Connection") (Json.VStr (js "close")) headers else headers
  else common_headers.

(** src/piql/scadr/src/main/rails/public/javascripts/prototype.js:1252-1285
    [setRequestHeaders()]: the calls of [transport.setRequestHeader] *)
Definition setRequestHeaders (method : jstring) (o : header_options) : Query.object :=
  let headers := library_headers method o in
  match requestHeaders o with
  | None => headers
  | Some (HArray l) => set_pairs l headers
  | Some (HObject o) => fold_left (fun headers pair => Query.set_own pair.1 pair.2 headers) (Query.initialize o) headers
  end.

(** ** Texts *)

Definition letter (c : Z) : regex := Class (fun x => (x =? c) || (x =? c - 32)).
Fixpoint any_case (s : jstring) : regex := match s with [] => Empty | [c] => letter c | c :: s => Seq (letter c) (any_case s) end.

(** The pattern for the content type of scripts, in small letters *)
Definition script_type : regex :=
  Seq Start (Seq (Star true white) (Seq (Alt (any_case (js "text")) (any_case (js "application")))
    (Seq (Char 47) (Seq (Opt (Seq (letter 120) (Char 45)))
    (Seq (Alt (any_case (js "java")) (any_case (js "ecma"))) (Seq (any_case (js "script"))
    (Seq (Opt (Seq (Char 59) (Star true dot))) (Seq (Star true white) End)))))))).

(** The protocol and the host at the start of an address *)
Definition origin_part : regex :=
  Seq Start (Seq (Star true white) (Seq (Lit (js "http")) (Seq (Opt (Char 115)) (Seq (Lit (js "://")) (Star true (any_but (Z.eqb 47))))))).

Record location := Location { protocol : jstring; domain : jstring; port : jstring }.

(** [escape(text)] of the language *)
Definition escape_char (c : Z) : jstring :=
  if is_upper c || is_lower c || is_digit c || bool_decide (c ∈ js "@*_+-./") then [c]
  else if c <? 256 then octet c
  else js "%u" ++ [hex_digit (c / 4096); hex_digit (c / 256 mod 16); hex_digit (c / 16 mod 16); hex_digit (c mod 16)].
Definition escape (s : jstring) : jstring := concat (map escape_char s).

(** ** The answer *)

(** An option that is off, on, or ['force']. *)
Inductive mode := Off | On | Force.
Record options := Options { evalJSON : mode; evalJS : mode; sanitizeJSON : bool }.
Definition truthy (m : mode) : bool := match m with Off => false | _ => true end.
Definition forced (m : mode) : bool := match m with Force => true | _ => false end.

(** What the browser tells of the transport; what cannot be read is [None]. *)
Record transport := Transport {
  readyState : nat; t_status : option Z; t_statusText : option jstring; t_responseText : Json.jval; t_header : jstring -> option jstring }.
Record response := Response {
  status : Z; statusText : jstring; responseText : option jstring; headerJSON : Json.jval; responseJSON : Json.jval }.

Inductive effect := Evaluates (t : jstring) | Handler (name : jstring) (json : Json.jval) | Responders (name : jstring).
Record state := State { complete : bool; listening : bool; log : list effect }.
Notation M := (M state).
Definition logs (e : effect) : M unit := modify (fun s => State (complete s) (listening s) (log s ++ [e])).

(** What is done when [m] throws. *)
Definition catch {A} (m h : M A) : M A := fun s =>
  match m s with (Exn Hang, s') => (Exn Hang, s') | (Exn _, s') => h s' | r => r end.
Definition lift {A} (e : exn) (o : outcome A) : M A :=
  match o with Returns a => mret a | Throws => throw e | Diverges => throw Hang end.

Section answer.
Variable inherited : Json.jval -> jstring -> Json.jval.
(** [eval] of the engine, and the handlers of the page: which there are, and which
    throw. *)
Variable eval : jstring -> outcome Json.jval.
Variable handles : jstring -> bool.
Variable throws : jstring -> bool.
Variable ie : bool.
Variable here : location.
Variable opts : options.
Variable url : jstring.
Variable t : transport.

Definition handler (name : jstring) (json : Json.jval) : M unit :=
  when (handles name) (logs (Handler name json);; if throws name then throw Thrown else mret tt).

(** src/piql/scadr/src/main/rails/public/javascripts/prototype.js:1354-1357
    [dispatchException(exception)] *)
Definition dispatchException : M unit := handler (js "onException") Json.VUndef;; logs (Responders (js "onException")).

(** src/piql/scadr/src/main/rails/public/javascripts/prototype.js:1331-1338
    [isSameOrigin()] *)
Definition isSameOrigin : outcome bool :=
  match exec 0 origin_part url with
  | None => mret true
  | Some m =>
      text ← Text.interpolate inherited (js "#{protocol}//#{domain}#{port}")
        (Json.VObj [(js "protocol", Json.VStr (protocol here)); (js "domain", Json.VStr (domain here));
                    (js "port", Json.VStr (if bool_decide (port here = []) then [] else js ":" ++ port here))]) None;
      mret (bool_decide (Text.m_text m = text))
  end.

(** src/piql/scadr/src/main/rails/public/javascripts/prototype.js:1340-1344
    [getHeader(name)]: an empty header is none. *)
Definition getHeader (name : jstring) : option jstring := match t_header t name with Some [] | None => None | Some v => Some v end.

(** src/piql/scadr/src/main/rails/public/javascripts/prototype.js:1292-1296
    [getStatus()] *)
Definition getStatus : Z := default 0 (t_status t).

(** src/piql/scadr/src/main/rails/public/javascripts/prototype.js:1388-1392
    [getStatusText()] *)
Definition getStatusText : jstring := default [] (t_statusText t).

(** src/piql/scadr/src/main/rails/public/javascripts/prototype.js:502-508
    [evalJSON(sanitize)], with the text that is evaluated *)
Definition read_json (sanitize : bool) (text : jstring) : M Json.jval :=
  json ← lift Thrown (PJson.unfilterJSON inherited None text);
  if negb sanitize || PJson.isJSON json then
    let code := c_lparen :: json ++ [c_rparen] in
    logs (Evaluates code);; lift Thrown (eval code)
  else throw Thrown.

(** What both readers of JSON do: other origins are read with care. *)
Definition read_answer (text : jstring) : M Json.jval :=
  catch (sanitize ← (if sanitizeJSON opts then mret true else same ← lift Thrown isSameOrigin; mret (negb same));
         read_json sanitize text)
    (dispatchException;; mret Json.VUndef).

(** src/piql/scadr/src/main/rails/public/javascripts/prototype.js:1410-1420
    [_getHeaderJSON()]: the bytes of the header are read as UTF-8, outside of the
    [try]. *)
Definition getHeaderJSON : M Json.jval :=
  match getHeader (js "X-JSON") with
  | None => mret Json.VNull
  | Some json => json ← lift URIError (decodeURIComponent (escape json)); read_answer json
  end.

(** src/piql/scadr/src/main/rails/public/javascripts/prototype.js:1422-1435
    [_getResponseJSON()] *)
Definition getResponseJSON (text : jstring) : M Json.jval :=
  if negb (truthy (evalJSON opts))
     || (negb (forced (evalJSON opts)) && negb (Str.include (js "application/json") (default [] (getHeader (js "Content-type")))))
     || Str.blank text
  then mret Json.VNull else read_answer text.

(** src/piql/scadr/src/main/rails/public/javascripts/prototype.js:1364-1381
    [new Ajax.Response(request)]; the XML of an answer is left out. *)
Definition new_response : M response :=
  let ready := ((2 <? readyState t)%nat && negb ie) || (readyState t =? 4)%nat in
  let text := Text.interpret (t_responseText t) in
  header ← (if ready then getHeaderJSON else mret Json.VUndef);
  json ← (if (readyState t =? 4)%nat then getResponseJSON text else mret Json.VUndef);
  mret (Response (if ready then getStatus else 0) (if ready then getStatusText else []) (if ready then Some text else None) header json).

(** src/piql/scadr/src/main/rails/public/javascripts/prototype.js:1346-1352
    [evalResponse()] *)
Definition evalResponse : M unit :=
  catch (code ← lift Thrown (PJson.unfilterJSON inherited None (match t_responseText t with Json.VStr s => s | _ => [] end));
         logs (Evaluates code);; _ ← lift Thrown (eval code); mret tt)
    dispatchException.

(** src/piql/scadr/src/main/rails/public/javascripts/prototype.js:1311-1315
    [respondToReadyState(readyState)]: whether the text is a script to evaluate *)
Definition evaluates_script : M bool :=
  if forced (evalJS opts) then mret true
  else if negb (truthy (evalJS opts)) then mret false
  else same ← lift Thrown isSameOrigin;
    mret (same && match getHeader (js "Content-type") with Some c => is_some (exec 6 script_type c) | None => false end).

(** src/piql/scadr/src/main/rails/public/javascripts/prototype.js:1298-1328
    [respondToReadyState(readyState)] *)
Definition respondToReadyState (n : nat) : M unit :=
  let state := default (js "undefined") (Ajax.Events !! n) in
  let completes := bool_decide (state = js "Complete") in
  r ← new_response;
  when completes
    (catch (modify (fun s => State true (listening s) (log s));;
            let named := js "on" ++ num_str (status r) in
            if handles named then handler named (headerJSON r)
            else handler (if Ajax.success getStatus then js "onSuccess" else js "onFailure") (headerJSON r))
       dispatchException;;
     b ← evaluates_script; when b evalResponse);;
  catch (handler (js "on" ++ state) (headerJSON r);; logs (Responders (js "on" ++ state))) dispatchException;;
  when completes (modify (fun s => State (complete s) false (log s))).
End answer.
End Answer.

(** ** Ajax.Updater *)
Module Updater.
Import Js Insert.

(** One element, or one for each outcome. *)
Inductive container := Same (n : nat) | Parts (success : nat) (failure : option nat).

(** src/piql/scadr/src/main/rails/public/javascripts/prototype.js:1439-1442
    [initialize(container, url, options)]: the element for an outcome *)
Definition receiver (c : container) (success : bool) : option nat :=
  match c with Same n => Some n | Parts s f => if success then Some s else f end.

Section page.
Variable set_innerHTML : nat -> jstring -> page -> page.

(** src/piql/scadr/src/main/rails/public/javascripts/prototype.js:1454-1470
    [updateContent(responseText)]; [insertion] is a position. *)
Definition updateContent (c : container) (evalScripts : bool) (insertion : option position) (success : bool) (responseText : jstring) : M unit :=
  let responseText := if evalScripts then responseText else Str.stripScripts responseText in
  match receiver c success with
  | None => mret tt
  | Some n =>
      match insertion with
      | Some pos => insert set_innerHTML n [(pos, Html responseText)]
      | None => update set_innerHTML n (Html responseText)
      end
  end.
End page.
End Updater.
