(* ===== verification/ProtoAnswerUse.v ===== *)
(** * Answers are read with care

    What is evaluated of an answer from elsewhere looks like data; the headers of
    the page go before those of the library; the bytes of a header are read as
    UTF-8; and the answers for which this does not hold. *)
From S2P Require Import Prelude JsString Json ProtoText ProtoStr JsUri JsRegex ProtoQuery ProtoJson JsMonad ProtoAjax ProtoInsert ProtoInsertUse ProtoAnswer.

Module AnswerUse.
Import Text Regex Uri Js Answer.

(** ** Where an answer is from *)

(** Where an address leads: its protocol, its host and the port, if it names one. *)
Record origin := Origin { scheme : jstring; host : jstring; at_port : option jstring }.
Definition port_text (p : option jstring) : jstring := match p with Some p => js ":" ++ p | None => [] end.
Definition root (o : origin) : jstring := scheme o ++ js "://" ++ host o ++ port_text (at_port o).
(** An address on the web, in small letters as far as the protocol. *)
Record web_address (o : origin) (path : jstring) : Prop := {
  web_scheme : scheme o ∈ [js "http"; js "https"];
  web_host : 47 ∉ host o /\ 58 ∉ host o;
  web_port : 47 ∉ port_text (at_port o);
  web_path : match path with c :: _ => c = 47 | [] => True end }.
(** The page is from there. *)
Definition page_from (o : origin) (here : location) : Prop :=
  protocol here = scheme o ++ js ":" /\ domain here = host o /\ port here = default [] (at_port o).
Definition page_address (here : location) : Prop := 47 ∉ protocol here /\ 58 ∉ domain here.

Section address.
Variable inherited : Json.jval -> jstring -> Json.jval.
Variable here : location.

Lemma origin_matched o path : web_address o path ->
  exec 0 origin_part (root o ++ path) = Some (Match 0 (root o ++ path) (root o) []).
Proof.
  intros [Hs [Hh _] Hp Hr]. unfold origin_part. rewrite exec_anchored.
  set (t := host o ++ port_text (at_port o)).
  assert (forallb (fun c => negb (47 =? c)) t = true) as Ht.
  { apply forallb_forall. intros c Hc%list_elem_of_In. apply negb_true_iff, Z.eqb_neq. intros <-. apply elem_of_app in Hc as [|]; done. }
  assert (rm (Star true (any_but (Z.eqb 47))) Some (Place (end_of None (scheme o ++ js "://")) (t ++ path) ∅) = Some (Place (end_of None (root o)) path ∅)) as Hstar.
  { unfold any_but. rewrite rm_star_class; [|done|destruct path as [|c path]; [done|by rewrite Hr]]. rewrite try_longest by done.
    by rewrite drop_app_length, <- end_of_app, <- app_assoc. }
  assert (root o ++ path = scheme o ++ js "://" ++ t ++ path) as -> by (unfold root, t; by rewrite <- !app_assoc).
  assert (rm (Seq (Star true white) (Seq (Lit (js "http")) (Seq (Opt (Char 115)) (Seq (Lit (js "://")) (Star true (any_but (Z.eqb 47)))))))
     Some (Place None (scheme o ++ js "://" ++ t ++ path) ∅) = Some (Place (end_of None (root o)) path ∅)) as E.
  { revert Hstar. generalize (root o) as x. intros x. change (rm (Seq ?r1 (Seq ?r2 (Seq ?r3 (Seq ?r4 ?r5)))) ?k) with (rm r1 (rm r2 (rm r3 (rm r4 (rm r5 k))))).
    generalize (rm (Star true (any_but (Z.eqb 47))) (@Some place)) (t ++ path). intros K u.
    rewrite !elem_of_cons, elem_of_nil in Hs. destruct Hs as [->|[->|[]]]; intros E; (assert ((length u =? S (length u))%nat = false) as Hl by (apply Nat.eqb_neq; lia)); lazy in E, Hl |- *; rewrite E, ?Hl; reflexivity. }
  rewrite E. cbn [seq map]. do 2 f_equal. assert (scheme o ++ js "://" ++ t ++ path = root o ++ path) as -> by (unfold root, t; by rewrite <- !app_assoc).
  apply length_between.
Qed.

(** The place that a page has for its own. *)
Definition own_root : jstring := protocol here ++ js "//" ++ domain here ++ port_text (if bool_decide (port here = []) then None else Some (port here)).

Lemma isSameOrigin_web o path : web_address o path ->
  isSameOrigin inherited here (root o ++ path) = Returns (bool_decide (root o = own_root)).
Proof.
  intros Ho. unfold isSameOrigin. rewrite origin_matched by done. cbn [m_text].
  set (l := Json.VObj _).
  assert (interpolate inherited (js "#{protocol}//#{domain}#{port}") l None = Returns own_root) as ->; [|done].
  unfold interpolate, evaluate, gsub.
  change (js "#{protocol}//#{domain}#{port}") with (concat (map source [Piece [] false (js "protocol"); Piece (js "//") false (js "domain"); Piece [] false (js "port")]) ++ []).
  change (nullish l) with false. rewrite render_pieces; [|done|done|decided|vm_compute; lia].
  cbn [map concat app]. unfold shown, own_root, l. cbn. rewrite !app_nil_r. by case_bool_decide.
Qed.

Lemma elsewhere o path : web_address o path -> page_address here -> ~ page_from o here ->
  isSameOrigin inherited here (root o ++ path) = Returns false.
Proof.
  intros Ho [Hp Hd] Hno. rewrite isSameOrigin_web by done. rewrite bool_decide_eq_false_2; [done|]. intros E. apply Hno.
  pose proof Ho as [Hs [_ Hc] _ _]. unfold root, own_root in E.
  assert (47 ∉ scheme o ++ js ":") as Hs' by (rewrite !elem_of_cons, elem_of_nil in Hs; destruct Hs as [->|[->|[]]]; decided).
  change (js "://" ++ ?r) with ([58; 47; 47] ++ r) in E.
  destruct (char_splits_once 47 (scheme o ++ [58]) ([47] ++ host o ++ port_text (at_port o)) (protocol here)
    ([47] ++ domain here ++ port_text (if bool_decide (port here = []) then None else Some (port here)))) as [E1 E2]; [|done|done|].
  { rewrite <- app_assoc. exact E. }
  injection E2 as E2. split; [done|].
  revert E2. case_bool_decide as Hport; destruct (at_port o) as [q|]; cbn [port_text default]; rewrite ?app_nil_r; intros E2.
  - exfalso. apply Hd. rewrite <- E2. apply elem_of_app. right. left.
  - done.
  - destruct (char_splits_once 58 _ _ _ _ E2 Hc Hd). done.
  - exfalso. apply Hc. rewrite E2. apply elem_of_app. right. left.
Qed.
End address.

(** ** What is evaluated *)

Section careful.
Variable P : effect -> Prop.

(** Calls that add nothing to the log but effects of [P]. *)
Definition adds {A} (m : M A) : Prop := forall s, exists l, log (m s).2 = log s ++ l /\ Forall P l.

Lemma adds_ret {A} (a : A) : adds (mret a).
Proof. intros s. exists []. by rewrite app_nil_r. Qed.
Lemma adds_throw {A} e : adds (throw (A := A) e).
Proof. intros s. exists []. by rewrite app_nil_r. Qed.
Lemma adds_lift {A} e (o : outcome A) : adds (lift e o).
Proof. destruct o; [apply adds_ret|apply adds_throw|apply adds_throw]. Qed.
Lemma adds_bind {A B} (m : M A) (f : A -> M B) : adds m -> (forall a, adds (f a)) -> adds (m ≫= f).
Proof.
  intros Hm Hf s. unfold mbind, M_bind. destruct (Hm s) as (l & E & Hl). destruct (m s) as [[a|e] s1]; cbn [snd] in *; [|by exists l].
  destruct (Hf a s1) as (l' & E' & Hl'). exists (l ++ l'). rewrite E', E, app_assoc. split; [done|by apply Forall_app].
Qed.
Lemma adds_when b m : adds m -> adds (when b m).
Proof. intros H. destruct b; [done|apply adds_ret]. Qed.
Lemma adds_modify f : (forall s, log (f s) = log s) -> adds (modify f).
Proof. intros H s. exists []. cbn. by rewrite H, app_nil_r. Qed.
Lemma adds_logs e : P e -> adds (logs e).
Proof. intros H s. exists [e]. split; [done|by constructor]. Qed.
Lemma adds_catch {A} (m h : M A) : adds m -> adds h -> adds (catch m h).
Proof.
  intros Hm Hh s. unfold catch. destruct (Hm s) as (l & E & Hl). destruct (m s) as [[a|e] s1]; cbn [snd] in *; [by exists l|].
  destruct (Hh s1) as (l' & E' & Hl'). destruct e; cbn [snd]; try (by exists l);
    (exists (l ++ l'); rewrite E', E, app_assoc; split; [done|by apply Forall_app]).
Qed.
End careful.

Ltac adds :=
  repeat match goal with
  | |- adds _ (mbind _ _) => apply adds_bind; [|intros ?]
  | |- adds _ (when _ _) => apply adds_when
  | |- adds _ (catch _ _) => apply adds_catch
  | |- adds _ (mret _) => apply adds_ret
  | |- adds _ (throw _) => apply adds_throw
  | |- adds _ (lift _ _) => apply adds_lift
  | |- adds _ (modify _) => apply adds_modify; done
  | |- adds _ (if ?b then _ else _) => destruct b eqn:?
  end.

(** Data in parentheses: it has passed the test. *)
Definition harmless (e : effect) : Prop :=
  match e with Evaluates c => exists j, c = c_lparen :: j ++ [c_rparen] /\ PJson.isJSON j = true | _ => True end.

Section answer.
Variable inherited : Json.jval -> jstring -> Json.jval.
Variable eval : jstring -> outcome Json.jval.
Variable handles throws : jstring -> bool.
Variable ie : bool.
Variable here : location.
Variable opts : options.
Variable url : jstring.
Variable t : transport.

(** An option or the address asks for care. *)
Definition wary : Prop := sanitizeJSON opts = true \/ isSameOrigin inherited here url = Returns false.

Lemma adds_exception : adds harmless (dispatchException handles throws).
Proof. unfold dispatchException, handler. adds; by apply adds_logs. Qed.

Lemma adds_read text : wary -> adds harmless (read_answer inherited eval handles throws here opts url text).
Proof.
  intros Hw. assert (forall x, adds harmless (read_json inherited eval true x)) as Hread.
  { intros x. unfold read_json. adds. apply adds_logs. eexists. split; [done|]. by destruct (PJson.isJSON _). }
  unfold read_answer. apply adds_catch; [|adds; apply adds_exception]. destruct Hw as [->|Hw]; [exact (Hread text)|].
  destruct (sanitizeJSON opts); [exact (Hread text)|]. rewrite Hw. exact (Hread text).
Qed.

Lemma adds_response : wary -> adds harmless (new_response inherited eval handles throws ie here opts url t).
Proof.
  intros Hw. unfold new_response, getHeaderJSON, getResponseJSON. adds; try by apply adds_read.
  destruct (getHeader t (js "X-JSON")); adds. by apply adds_read.
Qed.

(** No script is evaluated of an answer from elsewhere. *)
Lemma no_script s : forced (evalJS opts) = false -> isSameOrigin inherited here url = Returns false ->
  evaluates_script inherited here opts url t s = (Val false, s).
Proof. intros Hf Ho. unfold evaluates_script. rewrite Hf, Ho. by destruct (truthy (evalJS opts)). Qed.

(** C40: Of an answer from an address with http:// or https:// in small letters, whose
    protocol, host or port is not that of the page, nothing is evaluated but texts
    in parentheses that have passed the test for JSON, unless scripts are forced:
    whatever it says, whichever options are set and whichever handlers throw. *)
Theorem foreign_answers_checked o path n s : web_address o path -> page_address here -> ~ page_from o here -> url = root o ++ path ->
  forced (evalJS opts) = false ->
  exists l, log (respondToReadyState inherited eval handles throws ie here opts url t n s).2 = log s ++ l /\ Forall harmless l.
Proof.
  intros Hweb Hpage Hno Eurl Hf. assert (isSameOrigin inherited here url = Returns false) as Ho by (rewrite Eurl; by apply elsewhere).
  apply (adds_bind harmless); [apply adds_response; by right|]. intros r.
  assert (forall (b : M bool) (m : M unit), (forall s, b s = (Val false, s)) -> adds harmless (x ← b; when x m)) as Hskip.
  { intros b m Hb s'. exists []. unfold mbind, M_bind. by rewrite Hb, app_nil_r. }
  assert (forall m : M unit, adds harmless m -> adds harmless (catch m (dispatchException handles throws))) as Hcatch
    by (intros m Hm; apply adds_catch; [exact Hm|apply adds_exception]).
  unfold handler. apply adds_bind; [apply adds_when, adds_bind; [apply Hcatch; adds; by apply adds_logs|intros _; apply Hskip; intros s'; by apply no_script]|].
  intros _. apply adds_bind; [apply Hcatch; adds; by apply adds_logs|]. intros _. adds.
Qed.
End answer.

(** The engine at its simplest: an empty object for whatever is evaluated. *)
Definition no_members (v : Json.jval) (k : jstring) : Json.jval := Json.VUndef.
Definition empty_object (code : jstring) : outcome Json.jval := Returns (Json.VObj []).
Definition here : location := Location (js "http:") (js "site.example") [].
Definition answer (header : jstring -> option jstring) (text : jstring) : transport := Transport 4 (Some 200) (Some (js "OK")) (Json.VStr text) header.
Definition header_of (name v n : jstring) : option jstring := if bool_decide (n = name) then Some v else None.
Definition idle : state := State false true [].
Definition handled (n : jstring) : bool := bool_decide (n ∈ [js "onSuccess"; js "onComplete"]).
Definition quiet (n : jstring) : bool := false.
Definition usual : options := Options On On false.
Definition answered (url : jstring) (t : transport) : res unit * state :=
  respondToReadyState no_members empty_object handled quiet false here usual url t 4 idle.

(** A host with a port, and the page of another host. *)
Definition other : origin := Origin (js "http") (js "other.example") (Some (js "8080")).

Lemma foreign_answers_checked_witness :
  exists l, log (answered (root other ++ js "/data") (answer (header_of (js "Content-type") (js "application/json")) (js "{}"))).2 = [] ++ l /\ Forall harmless l.
Proof.
  apply (foreign_answers_checked no_members empty_object handled quiet false here usual (root other ++ js "/data")
    (answer (header_of (js "Content-type") (js "application/json")) (js "{}")) other (js "/data") 4 idle).
  - split; [decided|split; decided|decided|reflexivity].
  - split; decided.
  - intros [_ [H _]]. by vm_compute in H.
  - reflexivity.
  - reflexivity.
Defined.

(** ** Answers that are not taken for foreign *)

(** An address whose protocol is in capitals, or left out, counts as one of the same
    place: the script that comes from it is evaluated. *)
Lemma foreign_script_evaluated url : url ∈ [js "HTTP://other.example/code"; js "//other.example/code"] ->
  log (answered url (answer (header_of (js "Content-type") (js "text/javascript")) (js "steal()"))).2 !! 1%nat = Some (Evaluates (js "steal()")).
Proof.
  rewrite !elem_of_cons, elem_of_nil. intros [->|[->|[]]]; vm_compute; reflexivity.
Qed.

(** ** The bytes of a header *)

Lemma escape_byte b : 0 <= b < 256 -> escape_char b = octet b \/ (escape_char b = [b] /\ b < 128 /\ b <> 37).
Proof.
  intros Hb. unfold escape_char. rewrite (proj2 (Z.ltb_lt b 256)) by lia. destruct (_ || _) eqn:E; [right|by left]. split; [done|].
  rewrite !orb_true_iff, bool_decide_eq_true in E. destruct E as [[[E|E]|E]|E].
  - unfold is_upper in E. lia.
  - unfold is_lower in E. lia.
  - unfold is_digit in E. lia.
  - change (js "@*_+-./") with [64; 42; 95; 43; 45; 46; 47] in E. rewrite !elem_of_cons, elem_of_nil in E. lia.
Qed.

Lemma utf8_high v : scalar v -> 128 <= v -> Forall (fun b => 128 <= b < 256) (utf8 v).
Proof.
  intros [Hv _] H. unfold utf8. rewrite (proj2 (Z.ltb_ge v 128)) by lia.
  repeat case_match; repeat constructor; Z.to_euclidean_division_equations; lia.
Qed.

Lemma escape_scalar v r : scalar v -> read_char (escape (utf8 v) ++ r) = Some (units_of v, r).
Proof.
  intros Hs. destruct (Z.ltb_spec v 128) as [Hv|Hv].
  - destruct (escape_byte v) as [E|(E & _ & Hp)]; [destruct Hs; lia| |];
      assert (escape (utf8 v) = escape_char v) as -> by (unfold escape, utf8; rewrite (proj2 (Z.ltb_lt v 128)) by lia; cbn; apply app_nil_r).
    + rewrite E, <- (read_char_escaped v r Hs). unfold escaped, utf8. rewrite (proj2 (Z.ltb_lt v 128)) by lia. cbn [map concat]. by rewrite app_nil_r.
    + rewrite E. cbn [app read_char]. rewrite (proj2 (Z.eqb_neq v 37)) by done. unfold units_of. by rewrite (proj2 (Z.ltb_lt v 65536)) by lia.
  - rewrite <- (read_char_escaped v r Hs). f_equal. f_equal. unfold escape, escaped. f_equal. apply map_ext_in. intros b Hb.
    pose proof (utf8_high v Hs Hv) as HF. rewrite List.Forall_forall in HF. specialize (HF b Hb).
    destruct (escape_byte b ltac:(lia)) as [E|(E & Hlt & _)]; [done|lia].
Qed.

(** A text whose UTF-8 bytes are the characters of a header, as browsers give
    it, is read back as it was. *)
Theorem header_bytes_read vs : Forall scalar vs ->
  decodeURIComponent (escape (concat (map utf8 vs))) = Returns (concat (map units_of vs)).
Proof.
  induction 1 as [|v vs Hv _ IH]; [done|]. cbn [map concat]. unfold escape. rewrite map_app, concat_app.
  change (concat (map escape_char (utf8 v))) with (escape (utf8 v)). change (concat (map escape_char (concat (map utf8 vs)))) with (escape (concat (map utf8 vs))).
  by rewrite (decode_step _ _ _ (escape_scalar v _ Hv)), IH.
Qed.

Lemma header_bytes_read_witness : decodeURIComponent (escape [123; 195; 169; 125]) = Returns [123; 233; 125].
Proof. apply (header_bytes_read [123; 233; 125]). repeat constructor; lia. Defined.

(** An answer with a header for JSON that is no UTF-8 is lost: nothing is called,
    not even the handlers of exceptions, and the request is not complete. *)
Theorem answer_lost inherited eval handles throws ie here opts url t json s : readyState t = 4%nat ->
  getHeader t (js "X-JSON") = Some json -> decodeURIComponent (escape json) = Throws ->
  respondToReadyState inherited eval handles throws ie here opts url t 4 s = (Exn URIError, s).
Proof.
  intros Hr Hj Hd. unfold respondToReadyState, new_response. rewrite Hr. cbn [Nat.eqb orb]. rewrite orb_true_r.
  unfold mbind, M_bind, getHeaderJSON. rewrite Hj. unfold mbind, M_bind. by rewrite Hd.
Qed.

Lemma answer_lost_witness : answered (js "/data") (answer (header_of (js "X-JSON") [123; 233; 125]) (js "{}")) = (Exn URIError, idle).
Proof. apply (answer_lost no_members empty_object handled quiet false here usual (js "/data") _ [123; 233; 125] idle); vm_compute; reflexivity. Defined.

(** ** Headers *)

Fixpoint last_of (k : jstring) (l : list (jstring * Json.jval)) : option Json.jval :=
  match l with
  | [] => None
  | (j, v) :: l => match last_of k l with Some w => Some w | None => if bool_decide (k = j) then Some v else None end
  end.
Fixpoint pairs (l : list Json.jval) : list (jstring * Json.jval) :=
  match l with
  | k :: v :: l => (to_string k, v) :: pairs l
  | [k] => [(to_string k, Json.VUndef)]
  | [] => []
  end.
(** The headers that the page asks for, in order. *)
Definition asked (o : header_options) : list (jstring * Json.jval) :=
  match requestHeaders o with None => [] | Some (HArray l) => pairs l | Some (HObject l) => l end.

Lemma assoc_fold_last k l : forall h : Query.object,
  assoc k (fold_left (fun h p => Query.set_own p.1 p.2 h) l h) = match last_of k l with Some v => Some v | None => assoc k h end.
Proof.
  induction l as [|[j v] l IH]; intros h; [done|]. cbn [fold_left last_of fst snd]. rewrite IH, Query.assoc_set.
  destruct (last_of k l); [done|]. by case_bool_decide.
Qed.

Lemma set_pairs_fold l : forall h, set_pairs l h = fold_left (fun h p => Query.set_own p.1 p.2 h) (pairs l) h.
Proof.
  assert (forall n l h, (length l <= n)%nat -> set_pairs l h = fold_left (fun h p => Query.set_own p.1 p.2 h) (pairs l) h) as H; [|intros h; by apply (H (length l))].
  clear l. induction n as [|n IH]; intros l h Hl; [by destruct l; [|cbn in Hl; lia]|]. destruct l as [|k [|v l]]; [done|done|].
  cbn [set_pairs pairs fold_left fst snd]. apply IH. cbn in Hl. lia.
Qed.

Lemma initialize_last k l : last_of k (Query.initialize l) = last_of k l.
Proof.
  assert (forall l (h : Query.object), NoDup (map fst h) -> NoDup (map fst (fold_left (fun h p => Query.set_own p.1 p.2 h) l h))) as Hnd.
  { clear. induction l as [|[j v] l IH]; intros h Hh; [done|]. cbn [fold_left fst snd]. apply IH. clear IH.
    induction h as [|[i u] h IH]; cbn; [by repeat constructor; set_solver|]. apply NoDup_cons in Hh as [Hi Hh].
    case_bool_decide; cbn; [by subst; constructor|]. constructor; [|by apply IH].
    intros Hin. apply Hi. clear -Hin H. induction h as [|[i' u'] h IH]; cbn in *; [set_solver|]. case_bool_decide; cbn in *; set_solver. }
  assert (forall h : Query.object, NoDup (map fst h) -> last_of k h = assoc k h) as Hl.
  { clear. induction h as [|[i u] h IH]; [done|]. intros [Hi Hh]%NoDup_cons. cbn [last_of assoc]. rewrite IH by done.
    case_bool_decide as E; [|by destruct (assoc k h)]. subst. by rewrite Query.assoc_absent. }
  unfold Query.initialize. rewrite Hl by (apply Hnd; constructor). rewrite assoc_fold_last. by destruct (last_of k l).
Qed.

(** What the library sends by itself *)
Definition standard (method : jstring) (o : header_options) (k : jstring) : option Json.jval :=
  if bool_decide (k = js "X-Requested-With") then Some (Json.VStr (js "XMLHttpRequest"))
  else if bool_decide (k = js "X-Prototype-Version") then Some (Json.VStr (js "1.6.0.3"))
  else if bool_decide (k = js "Accept") then Some (Json.VStr (js "text/javascript, text/html, application/xml, text/xml, */*"))
  else if negb (bool_decide (method = js "post")) then None
  else if bool_decide (k = js "Content-type") then
    Some (Json.VStr (contentType o ++ (if bool_decide (encoding o = []) then [] else js "; charset=" ++ encoding o)))
  else if bool_decide (k = js "Connection") && overrideMimeType o && (default 2005 (gecko o) <? 2005) then Some (Json.VStr (js "close"))
  else None.

(** Of each header, the last value that the page asks for is sent, and what the
    library sends by itself only where the page asks for nothing. *)
Theorem headers_sent method o k :
  assoc k (setRequestHeaders method o) = match last_of k (asked o) with Some v => Some v | None => standard method o k end.
Proof.
  assert (assoc k (library_headers method o) = standard method o k) as Hh.
  { unfold library_headers, standard. case_bool_decide as Hm; cbn [negb]; [|cbn [common_headers assoc]; by repeat case_bool_decide].
    destruct (overrideMimeType o && _) eqn:E; rewrite ?Query.assoc_set; cbn [common_headers assoc]; rewrite <- ?andb_assoc, ?E;
      repeat case_bool_decide; subst; try done; by rewrite ?andb_false_r, ?andb_true_r. }
  unfold setRequestHeaders, asked.
  destruct (requestHeaders o) as [[l|l]|]; [| |exact Hh].
  - by rewrite set_pairs_fold, assoc_fold_last, Hh.
  - by rewrite assoc_fold_last, initialize_last, Hh.
Qed.

(** Names that differ in their letters only are two headers: browsers send both
    values. *)
Lemma content_type_twice :
  map fst (setRequestHeaders (js "post") (HeaderOptions (js "a/b") [] (Some (HObject [(js "Content-Type", Json.VStr (js "c/d"))])) false None))
  = [js "X-Requested-With"; js "X-Prototype-Version"; js "Accept"; js "Content-type"; js "Content-Type"].
Proof. reflexivity. Qed.
End AnswerUse.
