(* ===== verification/ProtoPlace.v ===== *)
(** * Where elements are on the screen

    The methods of Prototype that read the size and the place of an element from
    the layout, and those that write a place into its inline style.  The layout is
    the browser's: a parameter that depends on the styles of the page. *)
From S2P Require Import Prelude JsString ProtoText JsMonad FxQueue ProtoStyle.
Open Scope Z_scope.

Module Place.
Import Style.

(** ** Pages *)

(** The inline style, and what [absolutize] keeps. *)
Record elem := Elem {
  styled : Style.elem;
  originalLeft : option Q; originalTop : option Q;          (** no value: not set, or not a number *)
  originalWidth : option css; originalHeight : option css }.
Notation page := (gmap nat elem).

Definition nothing : elem := Elem empty_elem None None None None.
Definition at_el (p : page) (n : nat) : elem := default nothing (p !! n).
Definition restyle (f : Style.elem -> Style.elem) (n : nat) (p : page) : page :=
  let e := at_el p n in <[n := Elem (f (styled e)) (originalLeft e) (originalTop e) (originalWidth e) (originalHeight e)]> p.
Definition put (k : jstring) (v : css) (n : nat) (p : page) : page := restyle (write k v) n p.
Definition inline_at (p : page) (n : nat) (k : jstring) : css := inline (styled (at_el p n)) k.

(** What the layout tells of an element. *)
Record box := Box {
  offsetLeft : Z; offsetTop : Z; offsetWidth : Z; offsetHeight : Z; clientWidth : Z; clientHeight : Z;
  scrollLeft : Z; scrollTop : Z; offsetParent : option nat }.

(** A pair with left before top. *)
Definition offset : Type := Z * Z.
Definition plus (a b : offset) : offset := (a.1 + b.1, a.2 + b.2).
Definition minus (a b : offset) : offset := (a.1 - b.1, a.2 - b.2).

(** [parseFloat(value || 0)]; a word is no number. *)
Definition parseFloat (v : css) : option Q := match v with Word [] => Some 0%Q | Word _ => None | Num q | Len q _ => Some q end.
(** [value + 'px'] as a value of a style: a browser ignores one that is no number. *)
Definition put_px (k : jstring) (q : option Q) (n : nat) (p : page) : page := match q with Some q => put k (Len q (js "px")) n p | None => p end.
Definition put_back (k : jstring) (v : option css) (n : nat) (p : page) : page := match v with Some v => put k v n p | None => p end.

Definition keep (l t : option Q) (w h : css) (n : nat) (p : page) : page :=
  <[n := Elem (styled (at_el p n)) l t (Some w) (Some h)]> p.

(** ** Writing and reading *)

Lemma at_restyle f n p m : at_el (restyle f n p) m =
  if decide (m = n) then let e := at_el p n in Elem (f (styled e)) (originalLeft e) (originalTop e) (originalWidth e) (originalHeight e) else at_el p m.
Proof. unfold restyle, at_el at 1. case_decide; [subst; by rewrite lookup_insert_eq|by rewrite lookup_insert_ne]. Qed.

Lemma inline_put k v n p m k' : inline_at (put k v n p) m k' = if decide (m = n /\ k' = k) then v else inline_at p m k'.
Proof.
  unfold inline_at, put. rewrite at_restyle. destruct (decide (m = n)) as [->|Hm]; [cbn [styled]; rewrite inline_write|]; repeat case_decide; naive_solver.
Qed.

Lemma put_marks k v n p m : originalLeft (at_el (put k v n p) m) = originalLeft (at_el p m) /\ originalTop (at_el (put k v n p) m) = originalTop (at_el p m) /\
  originalWidth (at_el (put k v n p) m) = originalWidth (at_el p m) /\ originalHeight (at_el (put k v n p) m) = originalHeight (at_el p m).
Proof. unfold put. rewrite at_restyle. case_decide; [by subst|done]. Qed.

Lemma inline_keep l t w h n p m k : inline_at (keep l t w h n p) m k = inline_at p m k.
Proof. unfold inline_at, keep, at_el at 1. destruct (decide (m = n)) as [->|Hm]; [by rewrite lookup_insert_eq|by rewrite lookup_insert_ne]. Qed.

Lemma at_keep l t w h n p : at_el (keep l t w h n p) n = Elem (styled (at_el p n)) l t (Some w) (Some h).
Proof. unfold keep, at_el at 1. by rewrite lookup_insert_eq. Qed.

Section layout.
Variable layout : page -> nat -> box.
Variable computed : Style.elem -> jstring -> option css.
Variable parentNode : nat -> option nat.
Variable tagName : nat -> option jstring.
Variable body : nat.
Variable opera : bool.

Definition own (p : page) (n : nat) : offset := (offsetLeft (layout p n), offsetTop (layout p n)).
Definition scrolled (p : page) (n : nat) : offset := (scrollLeft (layout p n), scrollTop (layout p n)).
Definition position_of (p : page) (n : nat) : option css := getStyle computed k_position (styled (at_el p n)).
Definition positioned (w : jstring) (p : page) (n : nat) : bool := match position_of p n with Some v => is_word w v | None => false end.
Definition is_body (n : nat) : bool := match tagName n with Some t => bool_decide (toUpperCase t = js "BODY") | None => false end.

(** ** Sizes *)

(** src/piql/scadr/src/main/rails/public/javascripts/prototype.js:1947-1961
    [getDimensions()] of an element that is not displayed: it is shown for a moment,
    out of sight. *)
Definition hidden_dimensions (n : nat) (p : page) : (Z * Z) * page :=
  let originalVisibility := inline_at p n (js "visibility") in
  let originalPosition := inline_at p n k_position in
  let originalDisplay := inline_at p n k_display in
  let p := put (js "visibility") (Word (js "hidden")) n p in
  let p := put k_position (Word (js "absolute")) n p in
  let p := put k_display (Word (js "block")) n p in
  let originalWidth := clientWidth (layout p n) in
  let originalHeight := clientHeight (layout p n) in
  let p := put k_display originalDisplay n p in
  let p := put k_position originalPosition n p in
  ((originalWidth, originalHeight), put (js "visibility") originalVisibility n p).
(** src/piql/scadr/src/main/rails/public/javascripts/prototype.js:1941-1962
    [getDimensions()]: width and height, and the page after it *)
Definition getDimensions (n : nat) (p : page) : (Z * Z) * page :=
  match getStyle computed k_display (styled (at_el p n)) with
  | Some display =>
      if negb (is_word (js "none") display) then ((offsetWidth (layout p n), offsetHeight (layout p n)), p) else hidden_dimensions n p
  | None => hidden_dimensions n p
  end.

(** ** Offsets: the loops end where there is no offset parent. *)

(** src/piql/scadr/src/main/rails/public/javascripts/prototype.js:2010-2018
    [cumulativeOffset()] *)
Fixpoint cumulativeOffset (fuel : nat) (p : page) (n : nat) : option offset :=
  match fuel with
  | O => None
  | S fuel =>
      match offsetParent (layout p n) with
      | None => Some (own p n)
      | Some m => plus (own p n) <$> cumulativeOffset fuel p m
      end
  end.

(** src/piql/scadr/src/main/rails/public/javascripts/prototype.js:2020-2033
    [positionedOffset()] *)
Fixpoint positionedOffset (fuel : nat) (p : page) (n : nat) : option offset :=
  match fuel with
  | O => None
  | S fuel =>
      match offsetParent (layout p n) with
      | None => Some (own p n)
      | Some m => if is_body m || negb (positioned (js "static") p m) then Some (own p n) else plus (own p n) <$> positionedOffset fuel p m
      end
  end.

(** src/piql/scadr/src/main/rails/public/javascripts/prototype.js:2075-2083
    [cumulativeScrollOffset()] *)
Fixpoint cumulativeScrollOffset (fuel : nat) (p : page) (n : nat) : option offset :=
  match fuel with
  | O => None
  | S fuel => match parentNode n with None => Some (scrolled p n) | Some m => plus (scrolled p n) <$> cumulativeScrollOffset fuel p m end
  end.

Fixpoint offset_parent_loop (fuel : nat) (p : page) (n : nat) : option nat :=
  match fuel with
  | O => None
  | S fuel =>
      match parentNode n with
      | None => Some body
      | Some m => if decide (m = body) then Some body else if negb (positioned (js "static") p m) then Some m else offset_parent_loop fuel p m
      end
  end.
(** src/piql/scadr/src/main/rails/public/javascripts/prototype.js:2085-2094
    [getOffsetParent()] *)
Definition getOffsetParent (fuel : nat) (p : page) (n : nat) : option nat :=
  match offsetParent (layout p n) with
  | Some m => Some m
  | None => if decide (n = body) then Some n else offset_parent_loop fuel p n
  end.

(** The first loop of [viewportOffset] *)
Fixpoint page_offset (fuel : nat) (p : page) (n : nat) : option offset :=
  match fuel with
  | O => None
  | S fuel =>
      match offsetParent (layout p n) with
      | None => Some (own p n)
      | Some m => if bool_decide (m = body) && positioned (js "absolute") p n then Some (own p n) else plus (own p n) <$> page_offset fuel p m
      end
  end.
(** Its second loop: what is subtracted *)
Fixpoint scrolled_above (fuel : nat) (p : page) (n : nat) : option offset :=
  match fuel with
  | O => None
  | S fuel =>
      let s := if negb opera || is_body n then scrolled p n else (0, 0) in
      match parentNode n with None => Some s | Some m => plus s <$> scrolled_above fuel p m end
  end.
(** src/piql/scadr/src/main/rails/public/javascripts/prototype.js:2096-2119
    [viewportOffset()] *)
Definition viewportOffset (fuel : nat) (p : page) (n : nat) : option offset :=
  a ← page_offset fuel p n; b ← scrolled_above fuel p n; Some (minus a b).

(** ** Places that are written *)

(** src/piql/scadr/src/main/rails/public/javascripts/prototype.js:2035-2057
    [absolutize()] *)
Definition absolutize (fuel : nat) (n : nat) (p : page) : option page :=
  if positioned (js "absolute") p n then Some p else
  '(x, y) ← positionedOffset fuel p n;
  let width := clientWidth (layout p n) in
  let height := clientHeight (layout p n) in
  let less (a : Z) (v : css) : option Q := (fun q => (inject_Z a - q)%Q) <$> parseFloat v in
  let p := keep (less x (inline_at p n k_left)) (less y (inline_at p n k_top)) (inline_at p n k_width) (inline_at p n k_height) n p in
  let p := put k_position (Word (js "absolute")) n p in
  let p := put_px k_top (Some (inject_Z y)) n p in
  let p := put_px k_left (Some (inject_Z x)) n p in
  let p := put_px k_width (Some (inject_Z width)) n p in
  Some (put_px k_height (Some (inject_Z height)) n p).

(** src/piql/scadr/src/main/rails/public/javascripts/prototype.js:2059-2074
    [relativize()]; no kept value counts as zero. *)
Definition relativize (n : nat) (p : page) : page :=
  if positioned (js "relative") p n then p else
  let p := put k_position (Word (js "relative")) n p in
  let e := at_el p n in
  let less (v : css) (o : option Q) : option Q := (fun q => (q - default 0 o)%Q) <$> parseFloat v in
  let t := less (inline_at p n k_top) (originalTop e) in
  let l := less (inline_at p n k_left) (originalLeft e) in
  let p := put_px k_top t n p in
  let p := put_px k_left l n p in
  let p := put_back k_height (originalHeight e) n p in
  put_back k_width (originalWidth e) n p.

Record clone_options := CloneOptions { setLeft : bool; setTop : bool; setWidth : bool; setHeight : bool; cloneTop : Z; cloneLeft : Z }.
(** src/piql/scadr/src/main/rails/public/javascripts/prototype.js:2121-2158
    [clonePosition(source, options)] *)
Definition clonePosition (fuel : nat) (n source : nat) (o : clone_options) (q : page) : option page :=
  p ← viewportOffset fuel q source;
  '(delta, parent) ← (if positioned (js "absolute") q n then
      parent ← getOffsetParent fuel q n; delta ← viewportOffset fuel q parent; Some (delta, Some parent)
    else Some ((0, 0), None));
  let delta := if bool_decide (parent = Some body) then minus delta (own q body) else delta in
  let q := if setLeft o then put_px k_left (Some (inject_Z (p.1 - delta.1 + cloneLeft o))) n q else q in
  let q := if setTop o then put_px k_top (Some (inject_Z (p.2 - delta.2 + cloneTop o))) n q else q in
  let q := if setWidth o then put_px k_width (Some (inject_Z (offsetWidth (layout q source)))) n q else q in
  Some (if setHeight o then put_px k_height (Some (inject_Z (offsetHeight (layout q source)))) n q else q).

(** ** The old names: [Position] *)

Record old_position := OldPosition { includeScrollOffsets : bool; delta : offset; comp : offset; cached : offset }.

(** [a || b || ... || 0] *)
Definition first_nonzero (l : list Z) : Z := default 0 (head (filter (fun z => z <> 0) l)).
(** src/piql/scadr/src/main/rails/public/javascripts/prototype.js:4171-4180
    [prepare()] *)
Definition prepare (x y : list Z) (o : old_position) : old_position :=
  OldPosition (includeScrollOffsets o) (first_nonzero x, first_nonzero y) (comp o) (cached o).

Definition inside (c o : offset) (b : box) : bool :=
  (o.2 <=? c.2) && (c.2 <? o.2 + offsetHeight b) && (o.1 <=? c.1) && (c.1 <? o.1 + offsetWidth b).
(** src/piql/scadr/src/main/rails/public/javascripts/prototype.js:4196-4207
    [withinIncludingScrolloffsets(element, x, y)] *)
Definition withinIncludingScrolloffsets (fuel : nat) (p : page) (n : nat) (xy : offset) (o : old_position) : option (bool * old_position) :=
  offsetcache ← cumulativeScrollOffset fuel p n;
  let c := minus (plus xy offsetcache) (delta o) in
  off ← cumulativeOffset fuel p n;
  Some (inside c off (layout p n), OldPosition (includeScrollOffsets o) (delta o) c off).
(** src/piql/scadr/src/main/rails/public/javascripts/prototype.js:4183-4194
    [within(element, x, y)] *)
Definition within (fuel : nat) (p : page) (n : nat) (xy : offset) (o : old_position) : option (bool * old_position) :=
  if includeScrollOffsets o then withinIncludingScrolloffsets fuel p n xy o
  else
    off ← cumulativeOffset fuel p n;
    Some (inside xy off (layout p n), OldPosition (includeScrollOffsets o) (delta o) xy off).

Inductive direction := Vertical | Horizontal.
(** src/piql/scadr/src/main/rails/public/javascripts/prototype.js:4210-4219
    [overlap(mode, element)] *)
Definition overlap (mode : direction) (p : page) (n : nat) (o : old_position) : Q :=
  match mode with
  | Vertical => inject_Z ((cached o).2 + offsetHeight (layout p n) - (comp o).2) / inject_Z (offsetHeight (layout p n))
  | Horizontal => inject_Z ((cached o).1 + offsetWidth (layout p n) - (comp o).1) / inject_Z (offsetWidth (layout p n))
  end.

(** A point within an element overlaps it by more than nothing and at most all. *)
Theorem overlap_within fuel p n xy o o' mode : within fuel p n xy o = Some (true, o') ->
  (0 < overlap mode p n o')%Q /\ (overlap mode p n o' <= 1)%Q.
Proof.
  assert (forall a h c, a <= c < a + h -> (0 < inject_Z (a + h - c) / inject_Z h)%Q /\ (inject_Z (a + h - c) / inject_Z h <= 1)%Q) as H.
  { intros a h c Hc. assert (0 < inject_Z h)%Q as Hh by (change 0%Q with (inject_Z 0); rewrite <- Zlt_Qlt; lia). split.
    - apply Qlt_shift_div_l; [done|]. rewrite Qmult_0_l. change 0%Q with (inject_Z 0). rewrite <- Zlt_Qlt. lia.
    - apply Qle_shift_div_r; [done|]. rewrite Qmult_1_l, <- Zle_Qle. lia. }
  assert (forall c off b, inside c off b = true -> off.2 <= c.2 < off.2 + offsetHeight b /\ off.1 <= c.1 < off.1 + offsetWidth b) as Hin.
  { intros c off b. unfold inside. rewrite !andb_true_iff, !Z.leb_le, !Z.ltb_lt. lia. }
  unfold within, withinIncludingScrolloffsets.
  destruct (includeScrollOffsets o); [destruct (cumulativeScrollOffset fuel p n) as [s|]; [|done]|]; cbn [mbind option_bind];
    (destruct (cumulativeOffset fuel p n) as [off|]; [|done]; cbn [mbind option_bind]; intros [= Hi <-]; apply Hin in Hi;
     destruct mode; cbn [overlap cached comp]; apply H; apply Hi).
Qed.

(** A position that is written inline is the one that is read. *)
Lemma position_inline p n w : inline_at p n k_position = Word w -> w <> [] -> w <> js "auto" -> position_of p n = Some (Word w).
Proof.
  unfold position_of, inline_at, getStyle. change (if bool_decide (k_position = js "float") then _ else Text.camelize k_position) with k_position.
  intros -> Hw Ha. unfold unset, is_word. rewrite (bool_decide_eq_false_2 (w = [])), (bool_decide_eq_false_2 (w = js "auto")) by done. cbn [orb].
  by rewrite (bool_decide_eq_false_2 (w = js "auto")).
Qed.

(** ** Reading sizes *)

(** Reading the size of an element leaves all styles as they were. *)
Theorem dimensions_leave_styles n p m k : inline_at (getDimensions n p).2 m k = inline_at p m k.
Proof.
  assert (inline_at (hidden_dimensions n p).2 m k = inline_at p m k) as H.
  { unfold hidden_dimensions; cbn [snd]. rewrite !inline_put. repeat case_decide; naive_solver. }
  unfold getDimensions. destruct (getStyle _ _ _); [|exact H]. by destruct (negb _).
Qed.

(** ** Offsets *)

(** The loops end: each offset parent is nearer to the root. *)
Lemma cumulativeOffset_ends p (rank : nat -> nat) : (forall n m, offsetParent (layout p n) = Some m -> (rank m < rank n)%nat) ->
  forall fuel n, (rank n < fuel)%nat -> is_Some (cumulativeOffset fuel p n) /\ is_Some (positionedOffset fuel p n) /\ is_Some (page_offset fuel p n).
Proof.
  intros Hr. induction fuel as [|fuel IH]; intros n Hn; [lia|]. cbn [cumulativeOffset positionedOffset page_offset].
  destruct (offsetParent (layout p n)) as [m|] eqn:E; [|by repeat split]. apply Hr in E.
  destruct (IH m ltac:(lia)) as ([a Ha] & [b Hb] & [c Hc]). rewrite Ha, Hb, Hc. repeat split; [by eexists|by case_match; eexists|by case_match; eexists].
Qed.

(** The offset parents of an element from the nearest on. *)
Inductive offset_above (p : page) : nat -> nat -> Prop :=
  | above_one n m : offsetParent (layout p n) = Some m -> offset_above p n m
  | above_more n m r : offsetParent (layout p n) = Some m -> offset_above p m r -> offset_above p n r.

(** The offset on the page is the one from the nearest offset parent that is
    positioned or the body, and the offset of that on the page. *)
Theorem offset_splits fuel p n c : cumulativeOffset fuel p n = Some c ->
  positionedOffset fuel p n = Some c \/
  exists m a b, offset_above p n m /\ (is_body m = true \/ positioned (js "static") p m = false) /\
    positionedOffset fuel p n = Some a /\ (exists f, cumulativeOffset f p m = Some b) /\ c = plus a b.
Proof.
  revert n c. induction fuel as [|fuel IH]; intros n c; [done|]. cbn [cumulativeOffset positionedOffset].
  destruct (offsetParent (layout p n)) as [m|] eqn:E; [|by left]. intros (d & Hd & ->)%fmap_Some.
  destruct (is_body m || negb (positioned (js "static") p m)) eqn:Es.
  - right. exists m, (own p n), d. split; [by apply above_one|]. split; [|split; [done|split; [by exists fuel|done]]].
    apply orb_true_iff in Es as [Es|Es]; [by left|right; by apply negb_true_iff].
  - destruct (IH m d Hd) as [->|(r & a & b & H1 & H2 & -> & H4 & ->)]; [by left|].
    right. exists r, (plus (own p n) a), b. split; [by eapply above_more|]. split; [done|]. split; [done|]. split; [done|].
    unfold plus; cbn. f_equal; lia.
Qed.

(** ** There and back *)

Definition px_near (v : css) (q : Q) : Prop := exists q', v = Len q' (js "px") /\ (q' == q)%Q.

(** An element that was made absolute and is made relative has its width and height
    again, left and top at their numbers in pixels, and all other styles. *)
Theorem absolutize_undone fuel n p p' l t : absolutize fuel n p = Some p' -> positioned (js "absolute") p n = false ->
  parseFloat (inline_at p n k_left) = Some l -> parseFloat (inline_at p n k_top) = Some t ->
  inline_at p' n k_position = Word (js "absolute") /\
  let q := relativize n p' in
  inline_at q n k_position = Word (js "relative") /\ inline_at q n k_width = inline_at p n k_width /\ inline_at q n k_height = inline_at p n k_height /\
  px_near (inline_at q n k_left) l /\ px_near (inline_at q n k_top) t /\
  forall m k, m <> n \/ k ∉ [k_position; k_left; k_top; k_width; k_height] -> inline_at q m k = inline_at p m k.
Proof.
  clear parentNode body opera. unfold absolutize. intros H Hna Hl Ht. rewrite Hna in H. destruct (positionedOffset fuel p n) as [[x y]|]; [|done].
  cbn [mbind option_bind] in H. rewrite Hl, Ht in H. cbn [fmap option_fmap option_map] in H. apply (inj Some) in H.
  set (p0 := keep _ _ _ _ n p) in H.
  assert (inline_at p' n k_position = Word (js "absolute")) as Hpos by (rewrite <- H; unfold put_px; rewrite !inline_put; repeat case_decide; naive_solver).
  assert (forall m k, m <> n \/ k ∉ [k_position; k_left; k_top; k_width; k_height] -> inline_at p' m k = inline_at p m k) as Hother.
  { intros m k Hmk. rewrite <- H; unfold put_px. rewrite !inline_put. repeat case_decide; destruct_and?; subst; try (exfalso; destruct Hmk as [|Hk]; [done|]; apply Hk; decided). apply inline_keep. }
  assert (inline_at p' n k_left = Len (inject_Z x) (js "px") /\ inline_at p' n k_top = Len (inject_Z y) (js "px")) as [Hx Hy]
    by (rewrite <- H; unfold put_px; rewrite !inline_put; repeat case_decide; naive_solver).
  assert (originalLeft (at_el p' n) = Some (inject_Z x - l)%Q /\ originalTop (at_el p' n) = Some (inject_Z y - t)%Q /\
    originalWidth (at_el p' n) = Some (inline_at p n k_width) /\ originalHeight (at_el p' n) = Some (inline_at p n k_height)) as (Ol & Ot & Ow & Oh).
  { rewrite <- H; unfold put_px. repeat (match goal with |- context [put ?k ?v n ?r] => let H1 := fresh in let H2 := fresh in let H3 := fresh in let H4 := fresh in
      destruct (put_marks k v n r n) as (H1 & H2 & H3 & H4); rewrite H1, H2, H3, H4; clear H1 H2 H3 H4 end).
    unfold p0. by rewrite at_keep. }
  clear H. split; [done|]. unfold relativize.
  assert (positioned (js "relative") p' n = false) as -> by (unfold positioned; by rewrite (position_inline p' n (js "absolute"))).
  destruct (put_marks k_position (Word (js "relative")) n p' n) as (M1 & M2 & M3 & M4). rewrite M1, M2, M3, M4, Ol, Ot, Ow, Oh.
  rewrite !inline_put, !decide_False, Hx, Hy by (intros [_ ?]; done). cbn [parseFloat fmap option_fmap option_map default put_px put_back].
  cbv zeta. rewrite !inline_put. repeat split.
  - repeat case_decide; naive_solver.
  - repeat case_decide; naive_solver.
  - repeat case_decide; naive_solver.
  - exists (inject_Z x - (inject_Z x - l))%Q. split; [repeat case_decide; naive_solver|ring].
  - exists (inject_Z y - (inject_Z y - t))%Q. split; [repeat case_decide; naive_solver|ring].
  - intros m k Hmk. rewrite !inline_put. repeat case_decide; destruct_and?; subst; try (exfalso; destruct Hmk as [|Hk]; [done|]; apply Hk; decided). by apply Hother.
Qed.
End layout.

(** A box in a static parent, ten pixels to the right and two points down. *)
Definition one_box : gmap nat elem := <[1%nat := Elem (Style.Elem (<[k_left := Len 10 (js "px")]> (<[k_width := Len 50 (js "%")]> ∅)) false None) None None None None]> ∅.
Definition boxes (p : gmap nat elem) (n : nat) : box := if decide (n = 1%nat) then Box 30 20 200 100 180 90 0 0 (Some 0%nat) else Box 8 8 800 600 800 600 0 0 None.
Definition all_static (e : Style.elem) (k : jstring) : option css := if bool_decide (k = k_position) then Some (Word (js "static")) else None.

Lemma absolutize_undone_witness : exists p', absolutize boxes all_static (fun _ => None) 5 1 one_box = Some p' /\
  inline_at p' 1 k_position = Word (js "absolute") /\
  let q := relativize all_static 1 p' in
  inline_at q 1 k_position = Word (js "relative") /\ inline_at q 1 k_width = inline_at one_box 1 k_width /\ inline_at q 1 k_height = inline_at one_box 1 k_height /\
  px_near (inline_at q 1 k_left) 10 /\ px_near (inline_at q 1 k_top) 0 /\
  forall m k, m <> 1%nat \/ k ∉ [k_position; k_left; k_top; k_width; k_height] -> inline_at q m k = inline_at one_box m k.
Proof.
  destruct (absolutize boxes all_static (fun _ => None) 5 1 one_box) as [p'|] eqn:E; [|vm_compute in E; discriminate].
  exists p'. split; [done|]. eapply absolutize_undone; [exact E|reflexivity..].
Defined.
End Place.
