(* ===== verification/ProtoMouse.v ===== *)
(** * Reading events

    The methods of event objects: buttons, the element that an event is about, the
    element around it that a selector describes, the place of the pointer, and
    stopping.  The page is that of the walks and selectors. *)
From S2P Require Import Prelude JsString Dom ProtoDom ProtoText JsMonad Selector SelFind SelSpec SelNth.

Module Mouse.
Import Page.
Import Dom(ref, parentNode).

(** ** Events *)
Inductive engine := IE | WebKit | Gecko.

Record event := Event {
  type : jstring; button : Z; which : Z; metaKey : bool; target : ref; currentTarget : option ref;
  pageX : Z; pageY : Z; clientX : Z; clientY : Z;       (** zero where there is no number *)
  fromElement : option ref; toElement : option ref; prevented : bool; propagates : bool; stopped : bool }.

(** The document's scroll and border, for one direction. *)
Record side := Side { doc_scroll : Z; body_scroll : Z; doc_client : Z }.

(** src/piql/scadr/src/main/rails/public/javascripts/prototype.js:3805-3813
    [relatedTarget(event)] *)
Definition relatedTarget (e : event) : option ref :=
  if bool_decide (type e = js "mouseover") then fromElement e
  else if bool_decide (type e = js "mouseout") then toElement e
  else None.

Definition buttonMap (code : Z) : option Z := if code =? 0 then Some 1 else if code =? 1 then Some 4 else if code =? 2 then Some 2 else None.
(** src/piql/scadr/src/main/rails/public/javascripts/prototype.js:3816-3838
    [isButton(event, code)] *)
Definition isButton (engine : engine) (e : event) (code : Z) : bool :=
  match engine with
  | IE => bool_decide (Some (button e) = buttonMap code)
  | WebKit =>
      if code =? 0 then (which e =? 1) && negb (metaKey e)
      else if code =? 1 then (which e =? 1) && metaKey e
      else false
  | Gecko => if which e =? 0 then button e =? code else which e =? code + 1
  end.
(** src/piql/scadr/src/main/rails/public/javascripts/prototype.js:3841-3841
    [isLeftClick(event)] *)
Definition isLeftClick (engine : engine) (e : event) : bool := isButton engine e 0.
(** src/piql/scadr/src/main/rails/public/javascripts/prototype.js:3842-3842
    [isMiddleClick(event)] *)
Definition isMiddleClick (engine : engine) (e : event) : bool := isButton engine e 1.
(** src/piql/scadr/src/main/rails/public/javascripts/prototype.js:3843-3843
    [isRightClick(event)] *)
Definition isRightClick (engine : engine) (e : event) : bool := isButton engine e 2.

(** src/piql/scadr/src/main/rails/public/javascripts/prototype.js:3872-3883
    [pointer(event)]: one direction *)
Definition pointer1 (page client : Z) (s : side) : Z :=
  if page =? 0 then client + (if doc_scroll s =? 0 then body_scroll s else doc_scroll s) - doc_client s else page.
(** src/piql/scadr/src/main/rails/public/javascripts/prototype.js:3872-3886
    [pointer(event)], [pointerX(event)] and [pointerY(event)] *)
Definition pointer (e : event) (x y : side) : Z * Z := (pointer1 (pageX e) (clientX e) x, pointer1 (pageY e) (clientY e) y).

(** src/piql/scadr/src/main/rails/public/javascripts/prototype.js:3888-3893
    [stop(event)] *)
Definition stop (e : event) : event :=
  Event (type e) (button e) (which e) (metaKey e) (target e) (currentTarget e) (pageX e) (pageY e) (clientX e) (clientY e)
    (fromElement e) (toElement e) true false true.

Section page.
Variable pg : page.

(** src/piql/scadr/src/main/rails/public/javascripts/prototype.js:3845-3863
    [element(event)]; a text without a parent is no element. *)
Definition element (e : event) : option ref :=
  let node :=
    match currentTarget e with
    | Some c =>
        if is_elem pg c &&
           (bool_decide (type e = js "load") || bool_decide (type e = js "error")
            || (bool_decide (type e = js "click") && bool_decide (toLowerCase (Page.tagName pg c) = js "input") && bool_decide (p_type pg c = js "radio")))
        then c else target e
    | None => target e
    end in
  match Dom.at_ (doc pg) node with Some (Dom.Node (Dom.KText _) _) => parentNode node | _ => Some node end.

Variable injected : jstring -> ref -> Find.M (list ref).
(** src/piql/scadr/src/main/rails/public/javascripts/prototype.js:3865-3870
    [findElement(event, expression)] *)
Definition findElement (e : event) (expression : jstring) : Find.M (option ref) :=
  match element e with
  | None => Js.throw Js.TypeError
  | Some element =>
      match expression with
      | [] => mret (Some element)
      | _ => Find.findElement pg injected (element :: ancestors pg element) (inl (Some expression)) (Some 0)
      end
  end.

(** ** What they tell *)

(** No event is a click of two buttons. *)
Lemma one_click engine e : ~ (isLeftClick engine e = true /\ isMiddleClick engine e = true) /\
  ~ (isMiddleClick engine e = true /\ isRightClick engine e = true) /\ ~ (isLeftClick engine e = true /\ isRightClick engine e = true).
Proof.
  unfold isLeftClick, isMiddleClick, isRightClick, isButton. destruct engine; cbn.
  - rewrite !bool_decide_eq_true. repeat split; intros [H1 H2]; congruence.
  - destruct (which e =? 1), (metaKey e); repeat split; intros [H1 H2]; done.
  - destruct (which e =? 0); rewrite !Z.eqb_eq; repeat split; lia.
Qed.

(** The numbers that a standard browser gives for a button: left, middle, right. *)
Definition pressed (e : event) (b : Z) : Prop := 0 <= b <= 2 /\ button e = b /\ which e = b + 1 /\ metaKey e = false.

Lemma standard_buttons e b : pressed e b -> forall code, 0 <= code <= 2 -> isButton Gecko e code = true <-> code = b.
Proof. intros (Hb & _ & Hw & _) code Hc. cbn. rewrite Hw, (proj2 (Z.eqb_neq (b + 1) 0)) by lia. rewrite Z.eqb_eq. lia. Qed.

(** In WebKit the middle and the right button are never seen; a left click with the
    meta key counts as a middle click. *)
Lemma webkit_buttons_missed e b : pressed e b -> b <> 0 -> forall code, isButton WebKit e code = false.
Proof.
  intros (Hb & _ & Hw & Hm) Hb0 code. cbn. rewrite Hw, Hm, (proj2 (Z.eqb_neq (b + 1) 1)) by lia. by repeat case_match.
Qed.

(** Where the browser knows the place on the page it is that; where it does not, the
    place in the window and the scroll give it. *)
Lemma pointer_agrees page client s : page = client + (if doc_scroll s =? 0 then body_scroll s else doc_scroll s) - doc_client s ->
  pointer1 page client s = page /\ pointer1 0 client s = page.
Proof. intros ->. unfold pointer1. cbn. by case_match. Qed.

(** What the event is about is found first, then what is around it: the nearest that
    the selector describes. *)
Theorem event_finds e expression es el s : (forall x, is_elem pg x = true -> Page.tagName pg x <> js "!") -> element e = Some el -> expression <> [] ->
  Sel.split expression = Text.Returns es -> SelCases.all_regular pg es -> SelSpec.clean s ->
  exists f s', findElement e expression s = (Js.Val (head (filter (fun x => f x = true) (el :: ancestors pg el))), s') /\ SelSpec.clean s' /\
    forall x, f x = true <-> SelCases.described_by pg es [] x.
Proof.
  intros Hc He Hne Hes Hr Hs. unfold findElement. rewrite He. destruct expression as [|c t]; [done|].
  pose proof (SelCases.matchElements_spec pg injected Hc (el :: ancestors pg el) (c :: t) es s Hes Hr Hs) as H.
  unfold Find.findElement. unfold Js.wp in H. unfold mbind, Js.M_bind.
  destruct (Find.matchElements _ _ _ _ s) as [[r|] s']; [|done]. destruct H as (Hs' & f & -> & Hf). exists f, s'.
  split; [|done]. unfold mret, Js.M_ret. do 2 f_equal. cbn [default]. by destruct (filter _ _).
Qed.
End page.

Lemma event_finds_witness : exists f s', findElement SelCases.pg SelCases.foreign
    (Event (js "click") 0 1 false (0%nat :: SelCases.two) None 0 0 0 0 None None false true false) (js "div") SelCases.no_notes
      = (Js.Val (head (filter (fun x => f x = true) (SelCases.two :: ancestors SelCases.pg SelCases.two))), s') /\ SelSpec.clean s' /\
    forall x, f x = true <-> SelCases.described_by SelCases.pg [js "div"] [] x.
Proof.
  apply (event_finds SelCases.pg SelCases.foreign (Event (js "click") 0 1 false (0%nat :: SelCases.two) None 0 0 0 0 None None false true false)
    (js "div") [js "div"] SelCases.two SelCases.no_notes SelCases.pg_comments); [reflexivity|done|vm_compute; reflexivity|repeat constructor|reflexivity].
Defined.
End Mouse.
