(* ===== verification/ProtoExtend.v ===== *)
(** * The methods of elements

    Element.addMethods and Element.extend: where the browser lets prototypes of
    elements be changed the methods are put there, where it does not they are
    copied to each element; and the event that tells that the page is loaded. *)
From S2P Require Import Prelude JsString ProtoText.

Module Extend.

(** A property holds a function or something else. *)
Inductive value := Fn (f : nat) | Other.
Notation props := (gmap jstring value).
Definition is_fn (v : value) : bool := match v with Fn _ => true | Other => false end.

(** The tables of methods, the copy that Element.extend keeps, and what was added to
    the prototypes. *)
Record registry := Registry {
  methods : props; simulated : props; by_tag : list (jstring * props);
  copied : props; on_all : props; on_class : gmap jstring props }.
Record element := Element { tag : jstring; own : props; extended : bool }.

Fixpoint tag_props (t : jstring) (l : list (jstring * props)) : props :=
  match l with [] => ∅ | (u, m) :: l => if bool_decide (u = t) then m else tag_props t l end.
(** [Object.extend(ByTag[tag], methods)], on an empty object where there is none *)
Fixpoint extend_tag (t : jstring) (ms : props) (l : list (jstring * props)) : list (jstring * props) :=
  match l with
  | [] => [(t, ms)]
  | (u, m) :: l => if bool_decide (u = t) then (u, ms ∪ m) :: l else (u, m) :: extend_tag t ms l
  end.

Section browser.
(** What elements have by themselves, by class and all of them; the classes that the
    window has; whether prototypes can be changed, for all elements and by class. *)
Variable native_class : jstring -> jstring -> bool.
Variable native_all : jstring -> bool.
Variable window : jstring -> bool.
Variables ElementExtensions SpecificElementExtensions : bool.

(** src/piql/scadr/src/main/rails/public/javascripts/prototype.js:2634-2642
    [copy(methods, destination)] *)
Definition copy (ms destination : props) : props := filter (fun q => is_fn q.2 = true) ms ∪ destination.
(** src/piql/scadr/src/main/rails/public/javascripts/prototype.js:2634-2642
    [copy(methods, destination, true)], to the prototype of all elements *)
Definition copy_absent (ms destination : props) : props := destination ∪ filter (fun q => is_fn q.2 = true /\ native_all q.1 = false) ms.

Definition trans : list (jstring * jstring) := map (fun p => (js p.1, js p.2))
  [("OPTGROUP", "OptGroup"); ("TEXTAREA", "TextArea"); ("P", "Paragraph"); ("FIELDSET", "FieldSet"); ("UL", "UList"); ("OL", "OList");
   ("DL", "DList"); ("DIR", "Directory"); ("H1", "Heading"); ("H2", "Heading"); ("H3", "Heading"); ("H4", "Heading"); ("H5", "Heading");
   ("H6", "Heading"); ("Q", "Quote"); ("INS", "Mod"); ("DEL", "Mod"); ("A", "Anchor"); ("IMG", "Image"); ("CAPTION", "TableCaption");
   ("COL", "TableCol"); ("COLGROUP", "TableCol"); ("THEAD", "TableSection"); ("TFOOT", "TableSection"); ("TBODY", "TableSection");
   ("TR", "TableRow"); ("TH", "TableCell"); ("TD", "TableCell"); ("FRAMESET", "FrameSet"); ("IFRAME", "IFrame")]%string.
Definition class_name (s : jstring) : jstring := js "HTML" ++ s ++ js "Element".
(** src/piql/scadr/src/main/rails/public/javascripts/prototype.js:2644-2667
    [findDOMClass(tagName)]: the name of the class; the last one is made where the
    window has none. *)
Definition findDOMClass (tagName : jstring) : jstring :=
  let by_trans := snd <$> head (filter (fun p => p.1 = tagName) trans) in
  match by_trans with
  | Some k => if window (class_name k) then class_name k else
      if window (class_name tagName) then class_name tagName else class_name (Text.capitalize tagName)
  | None => if window (class_name tagName) then class_name tagName else class_name (Text.capitalize tagName)
  end.

Definition on_classes (l : list (jstring * props)) (cs : gmap jstring props) : gmap jstring props :=
  fold_left (fun cs '(t, ms) => let k := findDOMClass t in <[k := copy ms (default ∅ (cs !! k))]> cs) l cs.

(** src/piql/scadr/src/main/rails/public/javascripts/prototype.js:2584-2590
    [refresh()] *)
Definition refresh (r : registry) : registry :=
  if ElementExtensions then r
  else Registry (methods r) (simulated r) (by_tag r) (simulated r ∪ (methods r ∪ copied r)) (on_all r) (on_class r).

(** src/piql/scadr/src/main/rails/public/javascripts/prototype.js:2669-2687
    [addMethods(methods)]: the tables are brought to the prototypes. *)
Definition publish (r : registry) : registry :=
  let all := if ElementExtensions then copy_absent (simulated r) (copy (methods r) (on_all r)) else on_all r in
  let classes := if SpecificElementExtensions then on_classes (by_tag r) (on_class r) else on_class r in
  let r := Registry (methods r) (simulated r) (by_tag r) (copied r) all classes in
  if SpecificElementExtensions then r else refresh r.

(** src/piql/scadr/src/main/rails/public/javascripts/prototype.js:2602-2687
    [addMethods(tagName, methods)]: for all elements, or for those of some tags *)
Definition addMethods (tags : option (list jstring)) (ms : props) (r : registry) : registry :=
  publish
    match tags with
    | None => Registry (ms ∪ methods r) (simulated r) (by_tag r) (copied r) (on_all r) (on_class r)
    | Some ts =>
        Registry (methods r) (simulated r) (fold_left (fun l t => extend_tag (toUpperCase t) ms l) ts (by_tag r)) (copied r) (on_all r) (on_class r)
    end.

(** [p in e] for a name that no method has been given *)
Definition native (t p : jstring) : bool := native_class (findDOMClass t) p || native_all p.
Definition has_property (r : registry) (e : element) (p : jstring) : bool :=
  bool_decide (is_Some (own e !! p)) || native (tag e) p || bool_decide (is_Some (on_all r !! p)) ||
  match on_class r !! findDOMClass (tag e) with Some m => bool_decide (is_Some (m !! p)) | None => false end.

(** src/piql/scadr/src/main/rails/public/javascripts/prototype.js:2558-2582
    [Element.extend(element)] *)
Definition extend (r : registry) (e : element) : element :=
  if SpecificElementExtensions || extended e then e
  else
    let ms := tag_props (toUpperCase (tag e)) (by_tag r) ∪ copied r in
    Element (tag e) (filter (fun q => is_fn q.2 = true /\ has_property r e q.1 = false) ms ∪ own e) true.

(** What a page finds under a name of an element. *)
Inductive found := Ours (v : value) | Native | Missing.
Definition lookup_class (r : registry) (k p : jstring) : option value := match on_class r !! k with Some m => m !! p | None => None end.
Definition find (r : registry) (e : element) (p : jstring) : found :=
  match own e !! p with
  | Some v => Ours v
  | None =>
      match lookup_class r (findDOMClass (tag e)) p with
      | Some v => Ours v
      | None =>
          if native_class (findDOMClass (tag e)) p then Native
          else match on_all r !! p with Some v => Ours v | None => if native_all p then Native else Missing end
      end
  end.

(** ** Where elements are extended one by one *)

(** The tables as they are when Element.extend has its copy. *)
Definition in_step (r : registry) : Prop := copied r = simulated r ∪ (methods r ∪ copied r).

Lemma addMethods_in_step tags ms r : ElementExtensions = false -> SpecificElementExtensions = false -> in_step (addMethods tags ms r).
Proof.
  intros HE HS. unfold addMethods, publish, refresh, in_step. rewrite HE, HS. destruct tags; cbn;
    apply map_eq; intros p; rewrite !lookup_union; repeat match goal with |- context [?m !! p] => destruct (m !! p) end; done.
Qed.

Lemma no_prototypes tags ms r : ElementExtensions = false -> SpecificElementExtensions = false ->
  on_all (addMethods tags ms r) = on_all r /\ on_class (addMethods tags ms r) = on_class r.
Proof. intros HE HS. unfold addMethods, publish, refresh. rewrite HE, HS. by destruct tags. Qed.

(** An element that is extended after methods were added has each method of its
    tag, or else each of all elements, and what it had under its names before. *)
Theorem extended_finds tags ms r t p : ElementExtensions = false -> SpecificElementExtensions = false -> on_all r = ∅ -> on_class r = ∅ ->
  let r' := addMethods tags ms r in
  find r' (extend r' (Element t ∅ false)) p =
    if native t p then Native
    else match tag_props (toUpperCase t) (by_tag r') !! p, copied r' !! p with
         | Some (Fn f), _ => Ours (Fn f)
         | Some Other, _ => Missing
         | None, Some (Fn f) => Ours (Fn f)
         | None, _ => Missing
         end.
Proof.
  intros HE HS Ha Hc r'. destruct (no_prototypes tags ms r HE HS) as [Ha' Hc']. fold r' in Ha', Hc'. rewrite Ha in Ha'. rewrite Hc in Hc'.
  unfold extend. rewrite HS. cbn [orb extended tag own]. unfold find. cbn [own tag]. rewrite map_union_empty.
  unfold lookup_class. rewrite Hc', Ha', !lookup_empty. rewrite map_lookup_filter, lookup_union.
  assert (has_property r' (Element t ∅ false) p = native t p) as Hp.
  { unfold has_property. cbn [own tag]. rewrite Ha', Hc', !lookup_empty. cbn. by rewrite !orb_false_r. }
  unfold native in *.
  destruct (tag_props _ _ !! p) as [[f|]|], (copied r' !! p) as [[g|]|]; cbn [union option_union union_with option_union_with mbind option_bind fst snd];
    try (case_guard as Hg; cbn; cbn in Hg; rewrite Hp in Hg); destruct (native_class _ p), (native_all p); cbn in *; naive_solver.
Qed.
End browser.

(** ** What depends on the browser *)

Definition empty : registry := Registry ∅ ∅ [] ∅ ∅ ∅.
Definition no_native (t p : jstring) : bool := false.
Definition flash : props := <[js "flash" := Fn 7]> ∅.
Definition table_cells (k : jstring) : bool := bool_decide (k = js "HTMLTableCellElement").

(** An element that was extended before a method was added never has it, where
    elements are extended one by one; where prototypes can be changed it does. *)
Lemma late_methods_missed :
  let e := extend no_native (fun _ => false) table_cells false empty (Element (js "P") ∅ false) in
  (let r := addMethods (fun _ => false) table_cells false false None flash empty in
   find no_native (fun _ => false) table_cells r (extend no_native (fun _ => false) table_cells false r e) (js "flash") = Missing) /\
  (let r := addMethods (fun _ => false) table_cells true true None flash empty in
   find no_native (fun _ => false) table_cells r e (js "flash") = Ours (Fn 7)).
Proof. split; vm_compute; reflexivity. Qed.

(** Methods for one tag go to its class: a heading cell has the methods of a data
    cell where prototypes can be changed, and not where they cannot. *)
Lemma cells_share_methods :
  (let r := addMethods (fun _ => false) table_cells true true (Some [js "td"]) flash empty in
   find no_native (fun _ => false) table_cells r (Element (js "TH") ∅ false) (js "flash") = Ours (Fn 7)) /\
  (let r := addMethods (fun _ => false) table_cells false false (Some [js "td"]) flash empty in
   find no_native (fun _ => false) table_cells r (extend no_native (fun _ => false) table_cells false r (Element (js "TH") ∅ false)) (js "flash") = Missing).
Proof. split; vm_compute; reflexivity. Qed.

(** A method with the name of something that all elements have replaces it where
    prototypes can be changed, and is left out where they cannot. *)
Lemma native_replaced :
  let all p := bool_decide (p = js "flash") in
  (let r := addMethods all table_cells true true None flash empty in
   find no_native all table_cells r (Element (js "P") ∅ false) (js "flash") = Ours (Fn 7)) /\
  (let r := addMethods all table_cells false false None flash empty in
   find no_native all table_cells r (extend no_native all table_cells false r (Element (js "P") ∅ false)) (js "flash") = Native).
Proof. split; vm_compute; reflexivity. Qed.
End Extend.

(** ** The page is loaded *)
Module Loaded.

Record document := Document { loaded : bool; timer : bool; fired : nat }.
(** What the browser tells; [Poll] is a tick of the timer in WebKit. *)
Inductive event := Poll (ready : bool) | Load | ContentLoaded.

(** src/piql/scadr/src/main/rails/public/javascripts/prototype.js:4102-4107
    [fireContentLoadedEvent()] *)
Definition fireContentLoadedEvent (d : document) : document := if loaded d then d else Document true false (S (fired d)).

(** src/piql/scadr/src/main/rails/public/javascripts/prototype.js:4109-4121
    What is listened to, in browsers with [addEventListener] *)
Definition step (webkit : bool) (e : event) (d : document) : document :=
  match e with
  | Poll ready => if webkit && timer d && ready then fireContentLoadedEvent d else d
  | Load => if webkit then fireContentLoadedEvent d else d
  | ContentLoaded => if webkit then d else fireContentLoadedEvent d
  end.
Definition start (webkit : bool) : document := Document false webkit 0.

(** However often the browser tells it, the page hears once that it is loaded, and
    the timer runs until then. *)
Theorem loaded_once webkit es : let d := fold_left (fun d e => step webkit e d) es (start webkit) in
  fired d = (if loaded d then 1 else 0)%nat /\ timer d = webkit && negb (loaded d).
Proof.
  assert (forall d, fired d = (if loaded d then 1 else 0)%nat /\ timer d = webkit && negb (loaded d) ->
    forall e, fired (step webkit e d) = (if loaded (step webkit e d) then 1 else 0)%nat /\ timer (step webkit e d) = webkit && negb (loaded (step webkit e d))) as H.
  { intros [[] t f] [Hf Ht] e; cbn in Hf, Ht; subst; destruct webkit, e as [[]| |]; done. }
  cbv zeta. assert (fired (start webkit) = (if loaded (start webkit) then 1 else 0)%nat /\ timer (start webkit) = webkit && negb (loaded (start webkit))) as H0 by (by destruct webkit).
  revert H0. generalize (start webkit). induction es as [|e es IH]; intros d Hd; [done|]. cbn [fold_left]. by apply IH, H.
Qed.
End Loaded.
